(* ===== verification/_CoqProject ===== *)
-Q . S2P
Prelude.v
Text.v
Program.v
Crdt.v
ChunkCipher.v
SyncTypes.v
SyncMerge.v
SyncConverge.v
SyncCodec.v
Stamps.v
SyncBridge.v
SyncBridgeFacts.v
SyncRound.v
SyncExamples.v
Limits.v
Store.v
Mailbox.v
UploadHttp.v
MailboxFacts.v
Relay.v
RelayRuns.v
UploadRuns.v
SealedLayout.v
Link.v
UploadClient.v
UploadClientFacts.v
UploadNet.v
UploadDelivery.v
RelayExamples.v
Rendezvous.v
RendezvousFacts.v
Code.v
CodeFacts.v
CodeNet.v
Inbox.v
InboxFacts.v
Seeds.v
BoardExamples.v
CodeExamples.v
Swarm.v
Tickets.v
Schedule.v
Chunked.v
ChunkedFacts.v
ChunkCtrl.v
Recv.v
RecvFacts.v
RecvRuns.v
Transfers.v
Identity.v
Presence.v
PresenceFacts.v
PresenceNet.v
Ledgers.v
SyncEngine.v
PresenceExamples.v
Records.v
ManagerState.v
Manager.v
Watching.v
Uploading.v
Delivery.v
Landing.v
Receiving.v
Sharing.v
Restart.v
ManagerRuns.v
ManagerFrames.v
ManagerInv.v
ManagerSteps.v
ManagerFacts.v
HeldInv.v
HeldSteps.v
RestartFacts.v
DeliveryFacts.v
WatchFacts.v
ListFacts.v
MigrateFacts.v
ManagerExamples.v
TransferExamples.v
