(* ===== verification/Prelude.v ===== *)
(** * arvolo: a verification development

    Arvolo sends files end to end encrypted, through a relay that holds only
    ciphertext, or directly from peer to peer in chunks.  This library models the main
    parts of it in Rocq, as executable definitions that follow the source function by
    function, and proves what makes them correct.

    ** The program

    - A user's machines share one address book.  Each keeps a CRDT sidecar
      ([core/src/sync.rs]) beside the ledgers the user edits, and exchanges sealed
      snapshots of it ([engine/src/book/sync_bridge.rs]) through the inbox of the
      identity ([engine/src/sync.rs]).
    - An identity is a seed and the two key pairs made from it ([core/src/crypto.rs]).
      Who knows its public id can seal an offer for it and post it to an inbox slot of a
      relay, whose name changes every week; the owner signs for a session on the slot,
      polls it and opens what it lists ([core/src/presence.rs]).
    - The relay ([relay/src]) is an HTTP server over one SQLite database and two
      directories.  It keeps deposits (mailbox entries, each with a blob on disk),
      resumable uploads that become deposits, chunks parked for a live transfer,
      rendezvous slots for short pairing codes, an inbox of sealed offers per
      recipient, presence beacons, per-address rate limits and an in-memory tracker of
      swarms.  A background task expires rows every minute and compares the directories
      with the tables hourly.
    - A client deposits a sealed payload through a resumable upload that survives lost
      answers ([core/src/upload.rs]), or a browser container behind a link
      ([core/src/link.rs]).
    - A short code such as [4821-crater-mango@relay] stands for a ticket
      ([core/src/code.rs], [core/src/pairing.rs]): its host answers each receiver with a
      password-authenticated key exchange through a rendezvous slot of the relay, and
      hands the ticket out sealed once the receiver has proved that it knows the code.
    - Two clients that are up at once transfer a file in sealed chunks
      ([core/src/chunked.rs]): the sender prepares digests and serves chunks, the
      receiver ([core/src/flow/recv.rs]) assigns pieces to the sender, the relay and
      other receivers ([core/src/flow/schedule.rs], [core/src/swarm.rs]), verifies
      them, commits them to its output and resumes from a sidecar.
    - The transfer manager ([core/src/manager]) is the daemon's list of transfers.
      Front ends call its operations; each running transfer is a task that drives one
      row: a delivery that goes live when the recipient is online and through a relay
      when not, an upload, a deposit or a parked send being watched, a download, a
      share and its pairing code.  What must outlive the daemon is written to records
      on disk, and a restart reads them back.

    ** The files

    - [Prelude]: results, machine integers with their wrap-around and saturation,
      lexicographic orders, iteration over a [BTreeMap], little-endian integers,
      update of record fields, tactics.  [Text]: [str::trim], [String::from_utf8].
      [Crdt]: merges of keyed registers in general.  [Program]: asynchronous clients as
      trees of requests, clock readings, draws and reports, their runs, and a logic of
      what a run may send and report.
    - The address book.  [ChunkCipher] is the chunk sealing of [core/src/crypto.rs];
      [SyncTypes] the registers, states and snapshots of [core/src/sync.rs];
      [SyncMerge] its [merge] and [SyncConverge] the convergence theorems; [SyncCodec]
      the snapshot formats and their encryption.  [Stamps] is the loop that stamps
      out-of-band edits with fresh clocks, [SyncBridge] the operations of
      [sync_bridge.rs] on the files of one device ([Book]), [SyncBridgeFacts] and
      [SyncRound] their lemmas and theorems, [SyncExamples] concrete runs.  [Ledgers]:
      what the user and incoming offers do to contacts, names, marks, counters and
      relays ([engine/src/book]).  [SyncEngine]: a sync round over an inbox
      ([engine/src/sync.rs]).
    - Identities and offers.  [Identity]: [core/src/crypto.rs] outside the chunk cipher.
      [Presence]: [core/src/presence.rs], its calls as programs of [Program];
      [PresenceFacts]: what they send, hand out and when they end; [PresenceNet]: the
      calls played against the relay of [Inbox].  [PresenceExamples], also for [Ledgers]
      and [SyncEngine].
    - The relay's store.  [Limits] is [relay/src/limits.rs]; [Store] the tables, the
      directory and [relay/src/util.rs]; [Mailbox] the operations of
      [relay/src/mailbox.rs] on deposits, seeds and meters and those of
      [relay/src/mailbox/upload.rs]; [UploadHttp] the handlers of
      [relay/src/http/upload.rs] and the deposit handler of [relay/src/http.rs].
      [MailboxFacts], [Relay] (runs and their invariant), [RelayRuns] and [UploadRuns]
      prove; [RelayExamples] evaluates, here and for the uploading client.
    - The relay's boards.  [Rendezvous], [RendezvousFacts]: the [/v1/rz] routes.
      [Inbox], [InboxFacts]: the [/v1/inbox] and [/v1/presence] routes and the session
      handshake shared with [core/src/presence.rs].  [Seeds]: [/v1/seed],
      [/v1/release], [/v1/seeded], the chunk directory of [core/src/backfill.rs] and
      the seed pass of the reaper in [relay/src/main.rs].  [BoardExamples].
    - Short codes.  [Code]: codes as text, both protocols on both sides and the host of a
      long-lived slot, as programs ([core/src/code.rs], [core/src/pairing.rs],
      [core/src/wordlist.rs]).  [CodeFacts]: their text, what a host sends, its budget of
      guesses.  [CodeNet]: a host, a receiver and strangers on the board of
      [Rendezvous].  [CodeExamples].
    - The uploading client.  [SealedLayout]: the sealed layout as a function of a byte
      range.  [Link]: the browser container.  [UploadClient], [UploadClientFacts]: the
      client of [core/src/upload.rs] over a world that answers it; [UploadNet]: that
      world as a network in front of the modelled relay; [UploadDelivery]: what the two
      achieve together.
    - The peer-to-peer transfer.  [Swarm]: bitfields and the tracker.  [Schedule]: which
      piece, from whom.  [Chunked], [ChunkedFacts]: preparing, serving and fetching
      chunks.  [ChunkCtrl]: the sender's books on its receivers.  [Recv]: the receive
      loop and its files as steps; [RecvFacts] its invariant, [RecvRuns] whole
      downloads.  [TransferExamples].
    - The transfer manager, its data.  [Tickets]: the tickets as text.  [Transfers]:
      rows, reasons, events, and the classification of errors.  [Records]: the records
      on disk and the migration of old ones; [MigrateFacts].  [ManagerState]: the tasks
      as data and the state of [Inner].
    - Its operations.  [Manager]: the setters, [register], [cancel], [pause], [resume],
      [send_to], [start_deposit], [start_share], clearing and adopting ([mod.rs],
      [state.rs]).  [Uploading] ([uploads.rs], the retrying uploads of [work.rs]),
      [Delivery] ([deliver_to] and [serve_live_once]), [Watching] (the watchers of
      deposits and their withdrawal), [Landing] (the name and place of a received
      file), [Receiving] (offers, accepting, the fetching task), [Sharing] (shares and
      hosted codes), [Restart] (suspending, and [resume_incomplete]).
    - Its runs.  [ManagerRuns]: a run is a list of happenings, each the call of a front
      end or a step of one task.  [ManagerFrames], [ManagerInv], [ManagerSteps]: the
      invariant that ties rows, tokens and tasks; [ManagerFacts]: tasks do not disturb
      each other, and what cancelling does.  [HeldInv], [HeldSteps], [RestartFacts]: the
      record of a held send is on disk whenever it must be, and a restart finds it.
      [DeliveryFacts], [WatchFacts], [ListFacts]: deliveries, watchers, offers and the
      history.  [ManagerExamples] evaluates, and ends with closed runs that get where
      the comments of the code say they cannot.

    ** How the model corresponds to the code

    A definition has the name of the function it models, or of the function and the
    part of it that it is.  Stateful operations take the store and return their
    answer with the store after it.  A table is a finite map keyed by its primary
    key; a [u64] or [i64] is a [Z] with the conversions of the source written out
    ([as_i64], [i64_as_u64], [sat_add]); clocks and counters of the address book are
    [N].  An HTTP handler takes what its extractors yield and answers a status with
    the headers that carry a number; message texts with formatted detail are
    shortened.  A handler reads the clock once where the code reads it several times
    in a row, except where time passes in between (the end of a streamed body, the
    looks of a long-poll).  Each handler is one step of a run: steps of different
    requests interleave in every order, a streamed body and its bookkeeping do not.
    The orphan sweep is the exception, because its three readings may straddle
    another request ([sweep_walk]).  Queries and file operations succeed, save where
    the source depends on a failure: a primary-key conflict, a missing row or file, a
    torn or cancelled append; in the receive loop every file operation may fail.

    The receive loop is a function of an event ([recv_step]): an assignment, a step of
    one fetch task, the joining of a task, the end, a cancellation.  Its events carry
    what the loop sees of the world, and may come in any order that the state allows,
    so theorems over lists of events cover every interleaving of the tasks.  A staging
    file is a name that leads to an inode, because tasks write through the inode they
    opened and the commit reads by name.

    A task of the manager is its place between two awaits with the values it carries
    ([TaskDeliver], [TaskFetch], ...), and a step of it is the code from one await to
    the next; what the await yields (an answer of a relay, a report of the endpoint, a
    clock, what [stat] finds) is the input of the step.  A cancellation token is the
    number of the task that holds it.  Locks are held within one step.  Events and the
    calls that the manager makes on the network ([mg_net]) are appended to lists, so
    that theorems can speak of what was sent.  Records are values in maps; that their
    bytes decode is modelled only where old shapes are migrated.  A write to the state
    directory succeeds.

    A client of the rendezvous board is a program ([prog]): a tree of what it asks of
    the world, whose loops are nodes ([Iter]), so that an [async fn] is one definition
    that reads like it.  A run feeds it the world's answers in order; [holds] carries an
    invariant of its log through its loops, and [run_holds] makes it a claim about every
    prefix of every run.  The board's handlers answer the requests in [CodeNet], and those of
    the inbox in [PresenceNet], where a program is played at a list of moments ([play]) and
    [meets] says what it comes to by a given one.

    Third-party code is a type class with its documented behaviour as laws:
    [HexLower], [HexDecode], [Base32], [SessionCodec] (text encodings, [postcard] and
    [ed25519_dalek]), [Postcard], [Aes256Gcm], [Blake3Hash], [Blake3Kdf],
    [Blake3Keyed], [Spake2], [Base32Lower], and for identities [Ed25519] (with
    [curve25519_dalek]), [Hpke], [Blake3Wide], [Argon2id]; [HashValues]
    is the order in which a [HashMap] lists its values; [Wire] is [postcard] for one type,
    [Base32Text] the text of a ticket, [PublicIdParse] the parsing of a key.  Every law is met by the
    stand-ins of the example files.  That a digest has one preimage is never a law: it
    is assumed of the bytes a theorem is about ([genuine], [no_collision]), and so is
    that nothing short of a whole sealed chunk opens ([an_whole]); a theorem may instead
    name the forgery as the other outcome ([forged]).  Random tokens and device ids, the
    clock and administrator limits are arguments.

    ** What is proved

    - Address book: merging snapshots in any order converges when clocks are not
      reused, and the merge is then a semilattice; last writer wins and who may write
      which register; snapshots decrypt to what was encrypted; older shapes erase
      nothing; a round publishes the ledgers under fresh clocks and says nothing new
      when nothing changed; applying a snapshot is the merge, loses no unpublished
      edit and never resurrects a forgotten device; a round takes off the relay only
      what it merged and published.  Marks and names are the user's doing in every run of
      the ledgers, what is known of a key outlives its contact, and an address that was
      given out routes.  Closed examples show that a lost sidecar reuses clocks and then
      diverges, that a merge forgets the first name of a removed contact, and that one
      alias loses its mark with another.
    - Identities and offers: the file of an identity reads back as it, and nothing else
      does; what is sealed for a reader opens there; a subscription sends nothing but
      reads and surfaces, once, only what is for it; every call ends; and an offer that a
      relay took reaches a reader that polls in time, whatever else goes on.
    - Store: rows name files in every reachable state; a deposit is served at most as
      often as granted, survives until its deadline and is gone for good afterwards;
      appends never corrupt, commits are whole and idempotent, an upload in use is
      untouched, and the whole path from opening to fetching works; only the revoke
      token withdraws.  One theorem shows the interleaving in which the sweep deletes
      a fresh deposit.
    - Boards: first writer wins, owner-only keys, payloads collected once, the 24 hour
      ceiling, the row caps and the sessions listing of the rendezvous; delivery,
      authority, status and caps of the inbox; the session handshake opens its own
      slot for its hour; parked chunks stay until released, and are not kept apart by
      token.
    - Codes: a shown code reads back; a host posts nothing but its own handshakes and
      tickets, and seals one only for a receiver that proved it knows the code; the wrong
      guesses of all its lives together stay within the limit; and a receiver that ends
      with a payload has the host's, however the requests interleave and get lost.  Two
      closed runs show what fails: a guess that is answered before it is stored, and a
      slot filled by a stranger.
    - Limits: admissions per address in any window of the window's length.
    - Uploads: a byte range of the layout is that range of the whole; a client that is
      disturbed a bounded number of times, by a network that loses and tears, delivers
      exactly its payload; a link's container decodes to the file.
    - Transfer: the parallel digests are the sequential ones; what was announced is
      served, by the sender and by every receiver that has it, and what is served
      crosses; the books on receivers and the counters are exact; the tracker is
      bounded; the scheduler picks the rarest piece and the cheapest provider.  Over
      any number of runs, however they end, a download reported complete is the file,
      and what any other end leaves can be resumed; with the sender up it can always
      complete.  Two closed examples and a theorem show what fails: two sources given
      one staging file, and a full tracker that never empties.

    - Manager: in every state it can reach a running row is driven by exactly one task,
      the one whose token [cancel] fires; [cancel] is total; a cancelled delivery passes
      at most nine more awaits, and so does one past its time to give up; nothing of a
      direct-only send reaches a relay, an ending delivery withdraws its offer, a
      watcher takes at most eleven looks and one each quarter of an hour; accepting an
      offer is all or nothing; the history keeps at most 512 finished rows, the newest; a
      send that waits outlives a crash at any moment, whatever order its record is
      listed in; old records migrate without loss; a sender's name stays inside the
      directory.  Twelve closed runs end where they should not.

    Theorems about runs hold for runs of any length; no fuel is used but the length of
    the list being consumed ([strip_many]).  Bounds of the form [now + ttl <= I64_MAX]
    say that the clock is far from the end of [i64], as it is.

    ** What is not modelled

    Dialling, endpoints and discovery ([core/src/node.rs], [core/src/transfer.rs]) and the
    archives of directories ([core/src/flow/archive.rs]) call libraries and the system at
    every step.  The manager takes the reports of a subscription and of the host of a
    code as input; it is not composed with their models.  Calls that other tasks make on
    a subscription while one of its polls waits are not interleaved with that poll, and
    a sync round sees the book as it left it.  The timer of the sync rounds, the settings
    file, the daemon and its IPC ([engine/src] outside the book and the sync round,
    [arvolo-ipc]), the command line and the interfaces ([cli], [gui], [web]), the
    relay's pages and start-up, and the wake-ups of held long-polls. *)
From stdpp Require Export base gmap strings list fin_maps sorting.
From Stdlib Require Export ZArith Lia.
(** Shared automation: the lemmas of the library that close the common side
    conditions are collected in [arvolo]; [arvolo_lookup] holds the rewriting
    equations of map lookups. *)
Create HintDb arvolo.
Create HintDb arvolo_lookup.

(* ------------------------------------------------------------------ *)
(** ** Results *)

Inductive result (A E : Type) : Type :=
  | Ok (a : A)
  | Err (e : E).
Arguments Ok {A E} _.
Arguments Err {A E} _.

Lemma Ok_inj {A E} (x y : A) : @Ok A E x = Ok y → x = y.
Proof. by intros [=]. Qed.

Definition result_bind {A B E} (r : result A E) (f : A → result B E) : result B E :=
  match r with Ok a => f a | Err e => Err e end.

Definition result_ok {A E} (r : result A E) : option A :=
  match r with Ok a => Some a | Err _ => None end.

Definition is_ok {A E} (r : result A E) : bool :=
  match r with Ok _ => true | Err _ => false end.

Declare Scope arvolo_scope.
Delimit Scope arvolo_scope with arvolo.
Notation "'try!' x ':=' e 'in' k" := (result_bind e (fun x => k))
  (at level 10, x pattern, e at level 100, k at level 200) : arvolo_scope.

(** [Result::context] on an error whose text is not inspected: the outermost
    context string is all a caller can see. *)
Definition context {A} (msg : string) (o : option A) : result A string :=
  match o with Some a => Ok a | None => Err msg end.

(* ------------------------------------------------------------------ *)
(** ** Machine integers *)

Local Open Scope Z_scope.

Definition U8_MAX : Z := 255.
Definition U32_MAX : Z := 2 ^ 32 - 1.
Definition U64_MAX : Z := 2 ^ 64 - 1.
Definition I64_MAX : Z := 2 ^ 63 - 1.

Definition is_u64 (x : Z) : Prop := 0 <= x <= U64_MAX.
Definition is_u32 (x : Z) : Prop := 0 <= x <= U32_MAX.

(** [x as u32], [x as u64] of a non-negative value, and release-mode [+ 1]. *)
Definition wrap_u32 (x : Z) : Z := x mod 2 ^ 32.
Definition wrap_u64 (x : Z) : Z := x mod 2 ^ 64.
(** [u64::saturating_add]. *)
Definition sat_add (x y : Z) : Z := Z.min (x + y) U64_MAX.
(** [u64::saturating_mul]. *)
Definition sat_mul (x y : Z) : Z := Z.min (x * y) U64_MAX.
(** [u64::saturating_sub] on non-negative numbers. *)
Definition sat_sub (x y : Z) : Z := Z.max 0 (x - y).
(** [x as i64] for a [u64], and [x as u64] for an [i64]: two's complement. *)
Definition as_i64 (x : Z) : Z := if x <=? I64_MAX then x else x - 2 ^ 64.
Definition i64_as_u64 (x : Z) : Z := if 0 <=? x then x else x + 2 ^ 64.

Ltac unfold_ints :=
  unfold is_u64, is_u32, wrap_u32, wrap_u64, sat_add, sat_mul, as_i64, i64_as_u64,
    U8_MAX, U32_MAX, U64_MAX, I64_MAX in *.

Lemma as_i64_small x : x <= I64_MAX → as_i64 x = x.
Proof. unfold_ints. intros H. destruct (Z.leb_spec x (2 ^ 63 - 1)); lia. Qed.

Lemma i64_as_u64_small x : 0 <= x → i64_as_u64 x = x.
Proof. unfold_ints. intros H. destruct (Z.leb_spec 0 x); lia. Qed.

Lemma i64_round x : is_u64 x → i64_as_u64 (as_i64 x) = x.
Proof.
  unfold_ints. intros H.
  destruct (Z.leb_spec x (2 ^ 63 - 1));
    match goal with |- context [0 <=? ?y] => destruct (Z.leb_spec 0 y) end; lia.
Qed.

Lemma wrap_u64_small x : is_u64 x → wrap_u64 x = x.
Proof. unfold_ints. intros H. apply Z.mod_small. lia. Qed.

Lemma wrap_u32_small x : is_u32 x → wrap_u32 x = x.
Proof. unfold_ints. intros H. apply Z.mod_small. lia. Qed.

Lemma wrap_u32_idem x : wrap_u32 (wrap_u32 x) = wrap_u32 x.
Proof. unfold_ints. apply Z.mod_mod. lia. Qed.

Lemma sat_add_small x y : x + y <= U64_MAX → sat_add x y = x + y.
Proof. unfold sat_add. lia. Qed.

#[export] Hint Resolve as_i64_small i64_as_u64_small wrap_u64_small
  wrap_u32_small sat_add_small : arvolo.

(** [u64::div_ceil]. *)
Definition div_ceil (x y : Z) : Z := if 0 <? x mod y then x / y + 1 else x / y.

Lemma div_ceil_spec x y :
  0 <= x → 0 < y → x <= div_ceil x y * y ∧ (0 < x → (div_ceil x y - 1) * y < x) ∧
  0 <= div_ceil x y <= x ∧ (div_ceil x y = 0 ↔ x = 0).
Proof.
  intros Hx Hy. unfold div_ceil. pose proof (Z.div_mod x y ltac:(lia)).
  pose proof (Z.mod_pos_bound x y Hy). pose proof (Z.div_pos x y Hx Hy).
  destruct (Z.ltb_spec 0 (x mod y)); split_and!; nia.
Qed.

(* ------------------------------------------------------------------ *)
(** ** Total orders given by a comparison function ([Ord::cmp]) *)

Class CmpOrder {A : Type} (cmp : A → A → comparison) : Prop := {
  cmp_eq : ∀ x y, cmp x y = Eq ↔ x = y;
  cmp_flip : ∀ x y, cmp y x = CompOpp (cmp x y);
  cmp_trans : ∀ x y z, cmp x y = Lt → cmp y z = Lt → cmp x z = Lt;
}.

#[export] Instance Z_cmp_order : CmpOrder Z.compare.
Proof.
  split.
  - intros x y. apply Z.compare_eq_iff.
  - intros x y. apply Z.compare_antisym.
  - intros x y z. rewrite !Z.compare_lt_iff. lia.
Qed.

(** [false < true], as Rust orders [bool]. *)
Definition bool_cmp (a b : bool) : comparison :=
  match a, b with
  | false, true => Lt
  | true, false => Gt
  | _, _ => Eq
  end.

#[export] Instance bool_cmp_order : CmpOrder bool_cmp.
Proof. split; intros [] []; try intros []; cbn; split || idtac; congruence. Qed.

(** [Ordering::then_with]. *)
Definition then_with (c d : comparison) : comparison :=
  match c with Eq => d | _ => c end.

Definition pair_cmp {A B} (ca : A → A → comparison) (cb : B → B → comparison)
    (x y : A * B) : comparison :=
  then_with (ca x.1 y.1) (cb x.2 y.2).

#[export] Instance pair_cmp_order {A B} (ca : A → A → comparison) (cb : B → B → comparison)
    `{!CmpOrder ca} `{!CmpOrder cb} : CmpOrder (pair_cmp ca cb).
Proof.
  split.
  - intros [a b] [a' b']. unfold pair_cmp, then_with; cbn. split.
    + destruct (ca a a') eqn:E; try discriminate.
      apply cmp_eq in E as ->. intros ->%(cmp_eq (cmp := cb)). done.
    + intros [= -> ->]. rewrite (proj2 (cmp_eq (cmp := ca) a' a') eq_refl). by apply (cmp_eq (cmp := cb)).
  - intros [a b] [a' b']. unfold pair_cmp, then_with; cbn.
    rewrite (cmp_flip (cmp := ca) a a'), (cmp_flip (cmp := cb) b b'). by destruct (ca a a').
  - intros [a b] [a' b'] [a'' b'']. unfold pair_cmp, then_with; cbn.
    destruct (ca a a') eqn:E1; try discriminate;
      destruct (ca a' a'') eqn:E2; try discriminate; intros H1 H2.
    + apply (cmp_eq (cmp := ca)) in E1 as ->. apply (cmp_eq (cmp := ca)) in E2 as ->.
      rewrite (proj2 (cmp_eq (cmp := ca) a'' a'') eq_refl). by eapply (cmp_trans (cmp := cb)).
    + apply (cmp_eq (cmp := ca)) in E1 as ->. by rewrite E2.
    + apply (cmp_eq (cmp := ca)) in E2 as ->. by rewrite E1.
    + by rewrite (cmp_trans (cmp := ca) _ _ _ E1 E2).
Qed.

(** [u64] without arithmetic that can wrap below zero is kept as [N]. *)
#[export] Instance N_cmp_order : CmpOrder N.compare.
Proof.
  split.
  - intros x y. apply N.compare_eq_iff.
  - intros x y. apply N.compare_antisym.
  - intros x y z. rewrite !N.compare_lt_iff. lia.
Qed.

(** Byte strings: [Vec<u8>], [&[u8]] and [[u8; n]]. *)
Abbreviation bytes := (list Byte.byte).
Abbreviation zlen b := (Z.of_nat (length b)).

#[export] Instance byte_eq_decision : EqDecision Byte.byte := Byte.byte_eq_dec.
#[export] Instance byte_countable : Countable Byte.byte := inj_countable Byte.to_N Byte.of_N Byte.of_to_N.

(** [Ord] of byte slices: lexicographic. *)
Fixpoint bytes_cmp (x y : bytes) : comparison :=
  match x, y with
  | [], [] => Eq
  | [], _ :: _ => Lt
  | _ :: _, [] => Gt
  | a :: x, b :: y => then_with (N.compare (Byte.to_N a) (Byte.to_N b)) (bytes_cmp x y)
  end.

Lemma byte_to_N_inj a b : Byte.to_N a = Byte.to_N b → a = b.
Proof. intros H. pose proof (Byte.of_to_N a). pose proof (Byte.of_to_N b). congruence. Qed.

#[export] Instance bytes_cmp_order : CmpOrder bytes_cmp.
Proof.
  split.
  - intros x. induction x as [|a x IH]; intros [|b y]; cbn; try easy.
    unfold then_with. destruct (Byte.to_N a ?= Byte.to_N b)%N eqn:E.
    + apply N.compare_eq_iff, byte_to_N_inj in E as ->. rewrite IH. split; congruence.
    + split; [discriminate|]. intros [= -> _]. by rewrite N.compare_refl in E.
    + split; [discriminate|]. intros [= -> _]. by rewrite N.compare_refl in E.
  - intros x. induction x as [|a x IH]; intros [|b y]; cbn; try easy.
    rewrite (N.compare_antisym (Byte.to_N a) (Byte.to_N b)), IH. unfold then_with.
    by destruct (Byte.to_N a ?= Byte.to_N b)%N.
  - intros x. induction x as [|a x IH]; intros [|b y] [|c z]; cbn; try easy.
    unfold then_with.
    destruct (Byte.to_N a ?= Byte.to_N b)%N eqn:E1; try discriminate;
      destruct (Byte.to_N b ?= Byte.to_N c)%N eqn:E2; try discriminate; intros H1 H2.
    + apply N.compare_eq_iff, byte_to_N_inj in E1 as ->.
      apply N.compare_eq_iff, byte_to_N_inj in E2 as ->.
      rewrite N.compare_refl. by eapply IH.
    + apply N.compare_eq_iff, byte_to_N_inj in E1 as ->. by rewrite E2.
    + apply N.compare_eq_iff, byte_to_N_inj in E2 as ->. by rewrite E1.
    + rewrite (proj2 (N.compare_lt_iff _ _)); [done|].
      rewrite N.compare_lt_iff in E1, E2. lia.
Qed.

(** [>=], [>] and [==] of a derived [PartialOrd]. *)
Definition cmp_geb {A} (cmp : A → A → comparison) (x y : A) : bool :=
  match cmp x y with Lt => false | _ => true end.
Definition cmp_gtb {A} (cmp : A → A → comparison) (x y : A) : bool :=
  match cmp x y with Gt => true | _ => false end.
Definition cmp_eqb {A} (cmp : A → A → comparison) (x y : A) : bool :=
  match cmp x y with Eq => true | _ => false end.

Section cmp_facts.
Context {A : Type} {cmp : A → A → comparison} `{!CmpOrder cmp}.

Lemma cmp_refl x : cmp x x = Eq.
Proof. by apply cmp_eq. Qed.

Lemma cmp_geb_refl x : cmp_geb cmp x x = true.
Proof. unfold cmp_geb. by rewrite cmp_refl. Qed.

Lemma cmp_geb_total x y : cmp_geb cmp x y = false → cmp_geb cmp y x = true.
Proof. unfold cmp_geb. rewrite (cmp_flip x y). by destruct (cmp x y). Qed.

Lemma cmp_geb_antisym x y :
  cmp_geb cmp x y = true → cmp_geb cmp y x = true → x = y.
Proof.
  unfold cmp_geb. rewrite (cmp_flip x y).
  destruct (cmp x y) eqn:E; try discriminate. by intros _ _; apply cmp_eq.
Qed.

Lemma cmp_geb_trans x y z :
  cmp_geb cmp x y = true → cmp_geb cmp y z = true → cmp_geb cmp x z = true.
Proof.
  intros H1 H2. destruct (cmp_geb cmp x z) eqn:E; [done|]. exfalso.
  unfold cmp_geb in *. destruct (cmp x z) eqn:E3; try discriminate.
  pose proof (cmp_flip x y) as F1. pose proof (cmp_flip y z) as F2.
  destruct (cmp x y) eqn:E1; try discriminate.
  - apply cmp_eq in E1 as ->. by rewrite E3 in H2.
  - destruct (cmp y z) eqn:E2; try discriminate.
    + apply cmp_eq in E2 as ->. congruence.
    + pose proof (cmp_trans _ _ _ E3 F2). congruence.
Qed.
End cmp_facts.

(* ------------------------------------------------------------------ *)
(** ** [BTreeMap<String, _>]: a map walked in key order *)

Section btree.
Context {A : Type}.

Definition key_le (p q : string * A) : Prop := String.le p.1 q.1.

#[export] Instance key_le_dec p q : Decision (key_le p q) := String.le_dec p.1 q.1.

(** [for (k, v) in &map]: the entries in ascending key order. *)
Definition btree_iter (m : gmap string A) : list (string * A) :=
  merge_sort key_le (map_to_list m).

Lemma btree_iter_perm m : btree_iter m ≡ₚ map_to_list m.
Proof. apply merge_sort_Permutation. Qed.

Lemma elem_of_btree_iter m k v : (k, v) ∈ btree_iter m ↔ m !! k = Some v.
Proof. rewrite btree_iter_perm. apply elem_of_map_to_list. Qed.

Lemma NoDup_fst_btree_iter m : NoDup (btree_iter m).*1.
Proof. rewrite btree_iter_perm. apply NoDup_fst_map_to_list. Qed.

Lemma list_to_map_btree_iter m : list_to_map (btree_iter m) = m.
Proof.
  rewrite <- (list_to_map_to_list m) at 2. apply list_to_map_proper.
  - apply NoDup_fst_btree_iter.
  - apply btree_iter_perm.
Qed.
End btree.

(** A loop over a map with an accumulator. *)
Definition for_each {A B} (m : gmap string A) (acc : B) (f : string → A → B → B) : B :=
  foldl (fun acc p => f p.1 p.2 acc) acc (btree_iter m).

(** [Vec] into map: [for x in &v { map.insert(key x, val x) }]; a later entry of
    the same key replaces an earlier one. *)
Definition insert_all {X A} (key : X → string) (val : X → A) (v : list X)
    (m : gmap string A) : gmap string A :=
  foldl (fun m x => <[key x := val x]> m) m v.

Section for_each_facts.
Context {A B : Type}.

(** The pointwise reading of a loop whose body, at key [k], only touches the
    entry [k] of the accumulator. *)
Lemma foldl_pointwise (f : string → A → gmap string B → gmap string B)
    (g : string → A → option B → option B) (l : list (string * A)) acc j :
  (∀ k v m i, f k v m !! i = if decide (i = k) then g k v (m !! k) else m !! i) →
  NoDup l.*1 →
  foldl (fun acc p => f p.1 p.2 acc) acc l !! j =
    match list_to_map (M := gmap string A) l !! j with
    | Some v => g j v (acc !! j)
    | None => acc !! j
    end.
Proof.
  intros Hf. revert acc. induction l as [|[k v] l IH]; intros acc Hnd; [done|].
  apply NoDup_cons in Hnd as [Hk Hnd]. cbn.
  rewrite (IH _ Hnd), Hf. destruct (decide (j = k)) as [->|Hne].
  - rewrite lookup_insert_eq.
    by rewrite (not_elem_of_list_to_map_1 (M := gmap string) l k).
  - rewrite lookup_insert_ne by congruence. done.
Qed.

Lemma for_each_lookup (f : string → A → gmap string B → gmap string B)
    (g : string → A → option B → option B) m acc j :
  (∀ k v m' i, f k v m' !! i = if decide (i = k) then g k v (m' !! k) else m' !! i) →
  for_each m acc f !! j =
    match m !! j with
    | Some v => g j v (acc !! j)
    | None => acc !! j
    end.
Proof.
  intros Hf. unfold for_each.
  rewrite (foldl_pointwise f g) by (apply Hf || apply NoDup_fst_btree_iter).
  by rewrite list_to_map_btree_iter.
Qed.
End for_each_facts.

(** [for v in map.values() { m = m.max(f v) }]. *)
Section for_each_max.
Context {A : Type} (f : A → N).

Definition for_each_max (map : gmap string A) (m : N) : N :=
  for_each map m (fun _ v m => N.max m (f v)).

Lemma foldl_max_spec (l : list (string * A)) m :
  let r := foldl (fun acc p => N.max acc (f p.2)) m l in
  (m ≤ r)%N ∧ (∀ k v, (k, v) ∈ l → (f v ≤ r)%N) ∧
  (r = m ∨ ∃ k v, (k, v) ∈ l ∧ r = f v).
Proof.
  revert m. induction l as [|[k v] l IH]; intros m; cbn.
  - split_and!; [lia | intros k v H; by apply not_elem_of_nil in H | by left].
  - destruct (IH (N.max m (f v))) as (H1 & H2 & H3). split_and!; [lia| |].
    + intros k' v' [[= -> ->]|Hin]%elem_of_cons; [lia|eauto].
    + destruct H3 as [->|(k' & v' & Hin & ->)]; [|right; exists k', v'; set_solver].
      destruct (N.max_spec m (f v)) as [[? ->]|[? ->]]; [|by left].
      right. exists k, v. set_solver.
Qed.

Lemma for_each_max_spec map m :
  let r := for_each_max map m in
  (m ≤ r)%N ∧ (∀ k v, map !! k = Some v → (f v ≤ r)%N) ∧
  (r = m ∨ ∃ k v, map !! k = Some v ∧ r = f v).
Proof.
  pose proof (foldl_max_spec (btree_iter map) m) as H. cbn zeta in *.
  unfold for_each_max, for_each. setoid_rewrite elem_of_btree_iter in H. done.
Qed.

Lemma for_each_max_ge map m : (m ≤ for_each_max map m)%N.
Proof. apply for_each_max_spec. Qed.

Lemma for_each_max_in map m k v : map !! k = Some v → (f v ≤ for_each_max map m)%N.
Proof. apply for_each_max_spec. Qed.
End for_each_max.

(** Keys deleted one after another. *)
Lemma foldl_delete_lookup `{Countable K} {V} (ks : list K) (m : gmap K V) k :
  foldl (fun m i => delete i m) m ks !! k = if decide (k ∈ ks) then None else m !! k.
Proof.
  revert m. induction ks as [|i ks IH]; intros m; cbn [foldl].
  - by rewrite decide_False by apply not_elem_of_nil.
  - rewrite IH. repeat case_decide; rewrite ?elem_of_cons in *; try done; try naive_solver.
    + assert (k = i) as -> by naive_solver. apply lookup_delete_eq.
    + rewrite lookup_delete_ne; [done|naive_solver].
Qed.

Lemma insert_all_nodup {X A} (key : X → string) (val : X → A) v m j :
  NoDup (key <$> v) →
  insert_all key val v m !! j =
    match list_to_map (M := gmap string A) ((fun x => (key x, val x)) <$> v) !! j with
    | Some a => Some a
    | None => m !! j
    end.
Proof.
  revert m. induction v as [|x v IH]; intros m Hnd; [done|].
  apply NoDup_cons in Hnd as [Hk Hnd].
  change (insert_all key val (x :: v) m) with (insert_all key val v (<[key x:=val x]> m)).
  rewrite (IH _ Hnd). cbn.
  destruct (decide (j = key x)) as [->|Hne].
  - rewrite !lookup_insert_eq. rewrite (not_elem_of_list_to_map_1 (M := gmap string)); [done|].
    rewrite <- list_fmap_compose. done.
  - by rewrite !lookup_insert_ne by congruence.
Qed.

(** The loop that rebuilds a map out of the entries a map was flattened into. *)
Lemma insert_all_btree_iter {A X} (mk : string * A → X) (key : X → string) (val : X → A) m :
  (∀ k v, key (mk (k, v)) = k) → (∀ k v, val (mk (k, v)) = v) →
  insert_all key val (mk <$> btree_iter m) ∅ = m.
Proof.
  intros Hk Hv. apply map_eq. intros j.
  assert (key <$> (mk <$> btree_iter m) = (btree_iter m).*1) as Hkeys.
  { rewrite <- list_fmap_compose. apply list_fmap_ext. intros i [k v] _. apply Hk. }
  rewrite insert_all_nodup by (rewrite Hkeys; apply NoDup_fst_btree_iter).
  assert ((fun x => (key x, val x)) <$> (mk <$> btree_iter m) = btree_iter m) as Hpairs.
  { rewrite <- list_fmap_compose. rewrite <- (list_fmap_id (btree_iter m)) at 2.
    apply list_fmap_ext. intros i [k v] _. cbn. by rewrite Hk, Hv. }
  rewrite Hpairs, list_to_map_btree_iter. rewrite lookup_empty. by destruct (m !! j).
Qed.

(* ------------------------------------------------------------------ *)
(** ** Byte ranges *)

(** [&v[from..to]] for [from <= to <= v.len()]. *)
Definition slice {A} (from to : nat) (l : list A) : list A := take (to - from) (drop from l).

Lemma length_slice {A} from to (l : list A) :
  (to ≤ length l)%nat → length (slice from to l) = (to - from)%nat.
Proof. intros H. unfold slice. rewrite length_take, length_drop. lia. Qed.

Lemma slice_app {A} from mid to (l : list A) :
  (from ≤ mid ≤ to)%nat → slice from mid l ++ slice mid to l = slice from to l.
Proof.
  intros H. unfold slice.
  replace (drop mid l) with (drop (mid - from) (drop from l))
    by (rewrite drop_drop; f_equal; lia).
  replace (to - from)%nat with ((mid - from) + (to - mid))%nat by lia.
  apply take_take_drop.
Qed.

Lemma slice_all {A} (l : list A) : slice 0 (length l) l = l.
Proof. unfold slice. rewrite drop_0, Nat.sub_0_r. apply firstn_all. Qed.

Lemma slice_take {A} to (l : list A) : slice 0 to l = take to l.
Proof. unfold slice. by rewrite drop_0, Nat.sub_0_r. Qed.

(** [slice::strip_prefix]. *)
Fixpoint strip_prefix (p l : bytes) : option bytes :=
  match p, l with
  | [], _ => Some l
  | a :: p, b :: l => if decide (a = b) then strip_prefix p l else None
  | _ :: _, [] => None
  end.

Lemma strip_prefix_app p l : strip_prefix p (p ++ l) = Some l.
Proof. induction p as [|a p IH]; cbn; [done|]. by rewrite decide_True. Qed.

(** [slice::split_at] within bounds. *)
Definition split_at {A} (n : nat) (l : list A) : list A * list A := (take n l, drop n l).

(** ** Little-endian integers *)

Definition byte_of (n : N) : Byte.byte := default Byte.x00 (Byte.of_N n).

Lemma to_N_byte_of n : (n < 256)%N → Byte.to_N (byte_of n) = n.
Proof.
  intros Hn. unfold byte_of. destruct (Byte.of_N n) as [b|] eqn:E; cbn.
  - by apply Byte.to_of_N.
  - apply Byte.of_N_None_iff in E. lia.
Qed.

(** The low [n] bytes of [x], least significant first. *)
Fixpoint le_bytes (n : nat) (x : N) : bytes :=
  match n with
  | O => []
  | S n => byte_of (x mod 256) :: le_bytes n (x / 256)
  end.

Lemma length_le_bytes n x : length (le_bytes n x) = n.
Proof. revert x. induction n as [|n IH]; intros x; cbn; [done|]. by rewrite IH. Qed.

Lemma le_bytes_inj n x y :
  (x < 256 ^ N.of_nat n)%N → (y < 256 ^ N.of_nat n)%N → le_bytes n x = le_bytes n y → x = y.
Proof.
  revert x y. induction n as [|n IH]; intros x y Hx Hy Heq.
  - cbn in Hx, Hy. lia.
  - rewrite Nat2N.inj_succ, N.pow_succ_r in Hx, Hy by lia. cbn in Heq.
    injection Heq as Hb Ht.
    apply (f_equal Byte.to_N) in Hb. rewrite !to_N_byte_of in Hb by (apply N.mod_lt; lia).
    apply IH in Ht; [|apply N.Div0.div_lt_upper_bound; lia..].
    rewrite (N.div_mod x 256), (N.div_mod y 256) by lia. lia.
Qed.

(** [u32::to_le_bytes]. *)
Definition u32_to_le_bytes (x : N) : bytes := le_bytes 4 x.
(** [u64::to_le_bytes]. *)
Definition u64_to_le_bytes (x : N) : bytes := le_bytes 8 x.

Lemma u32_to_le_bytes_inj x y :
  (x < 2 ^ 32)%N → (y < 2 ^ 32)%N → u32_to_le_bytes x = u32_to_le_bytes y → x = y.
Proof. exact (le_bytes_inj 4 x y). Qed.

(** [from_le_bytes]. *)
Fixpoint le_value (b : bytes) : N :=
  match b with [] => 0%N | x :: b => (Byte.to_N x + 256 * le_value b)%N end.

Lemma le_value_bytes n x : (x < 256 ^ N.of_nat n)%N → le_value (le_bytes n x) = x.
Proof.
  revert x. induction n as [|n IH]; intros x Hx.
  - cbn in *. lia.
  - rewrite Nat2N.inj_succ, N.pow_succ_r in Hx by lia. cbn [le_bytes le_value].
    rewrite to_N_byte_of by (apply N.mod_lt; lia).
    rewrite IH by (apply N.Div0.div_lt_upper_bound; lia).
    rewrite (N.div_mod x 256) at 3 by lia. lia.
Qed.

(* ------------------------------------------------------------------ *)
(** ** Tactics *)

(** Decide the boolean tests of the goal or a hypothesis, keeping the equations. *)
Ltac case_bool :=
  match goal with
  | |- context [if ?b then _ else _] =>
      lazymatch type of b with bool => destruct b eqn:? end
  | H : context [if ?b then _ else _] |- _ =>
      lazymatch type of b with bool => destruct b eqn:? end
  end.

(** The same on one hypothesis. *)
Ltac case_in H :=
  match type of H with
  | context [if ?b then _ else _] => lazymatch type of b with bool => destruct b eqn:? end
  end.

Ltac case_option :=
  match goal with
  | |- context [match ?o with Some _ => _ | None => _ end] => destruct o eqn:?
  | H : context [match ?o with Some _ => _ | None => _ end] |- _ => destruct o eqn:?
  end.

(** Boolean comparisons on [Z] as propositions. *)
Ltac zbool :=
  repeat match goal with
  | H : (_ <=? _)%Z = true |- _ => apply Z.leb_le in H
  | H : (_ <=? _)%Z = false |- _ => apply Z.leb_gt in H
  | H : (_ <? _)%Z = true |- _ => apply Z.ltb_lt in H
  | H : (_ <? _)%Z = false |- _ => apply Z.ltb_ge in H
  | H : (_ =? _)%Z = true |- _ => apply Z.eqb_eq in H
  | H : (_ =? _)%Z = false |- _ => apply Z.eqb_neq in H
  | H : (_ && _)%bool = true |- _ => apply andb_true_iff in H as [? ?]
  | H : (_ || _)%bool = false |- _ => apply orb_false_iff in H as [? ?]
  | H : negb _ = true |- _ => apply negb_true_iff in H
  | H : negb _ = false |- _ => apply negb_false_iff in H
  end.

(** * Functional update of record fields

    [r <| f := v |>] is [r] with its field [f] replaced and [r <| f ::= g |>] with
    [g] applied to it.  A record type declares its fields once, in an instance of
    [Fields]; the update of a field is then found by abstracting its projection. *)
(** A record rebuilt from its own projections. *)
Class Fields (R : Type) : Type := fields : R → R.

Class Update {R T : Type} (proj : R → T) : Type := update : (T → T) → R → R.
Arguments update {_ _} _ {_} _ _ / : assert.
#[global] Hint Mode Update + + + : typeclass_instances.

Ltac build_update :=
  match goal with
  | |- @Update ?R ?T ?proj =>
      let inst := constr:(_ : Fields R) in
      let eta := eval cbv beta iota zeta delta [fields] in (@fields R inst) in
      let eta := eval red in eta in
      let abs := eval pattern proj in eta in
      match abs with
      | ?rest _ =>
          let res := eval cbv beta in (fun (g : T -> T) (r : R) => rest (fun r' => g (proj r')) r) in
          exact res
      end
  end.
#[global] Hint Extern 0 (Update _) => build_update : typeclass_instances.

Declare Scope field_scope.
Delimit Scope field_scope with field.
Open Scope field_scope.
Notation "r <| proj ::= g |>" := (update proj g r)
  (at level 12, left associativity, format "r  <| proj  ::=  g |>") : field_scope.
Notation "r <| proj := v |>" := (update proj (fun _ => v) r)
  (at level 12, left associativity, format "r  <| proj  :=  v |>") : field_scope.
