(* ===== verification/Text.v ===== *)
(** * [str::trim]

    The standard library's trim of Unicode white space on the UTF-8 bytes of a
    string, as the address book uses it on display names. *)
From stdpp Require Import pretty.
From S2P Require Import Prelude.
Definition bytes_of (s : string) : bytes := String.list_byte_of_string s.
Definition string_of (b : bytes) : string := String.string_of_list_byte b.

Lemma string_of_bytes_of s : string_of (bytes_of s) = s.
Proof. apply String.string_of_list_byte_of_string. Qed.

Lemma bytes_of_string_of b : bytes_of (string_of b) = b.
Proof. apply String.list_byte_of_string_of_list_byte. Qed.

Lemma bytes_of_app (p s : string) : bytes_of (p ++ s)%string = bytes_of p ++ bytes_of s.
Proof.
  induction p as [|c p IH]; [done|].
  change (Ascii.byte_of_ascii c :: bytes_of (p ++ s)%string = Ascii.byte_of_ascii c :: bytes_of p ++ bytes_of s).
  by rewrite IH.
Qed.

Lemma string_app_inj_l (a b c : string) : (a ++ b)%string = (a ++ c)%string → b = c.
Proof.
  intros Heq. apply (f_equal bytes_of) in Heq. rewrite !bytes_of_app in Heq.
  apply app_inv_head, (f_equal string_of) in Heq. by rewrite !string_of_bytes_of in Heq.
Qed.
Lemma string_app_inj_r (a b c : string) : (a ++ c)%string = (b ++ c)%string → a = b.
Proof.
  intros Heq. apply (f_equal bytes_of) in Heq. rewrite !bytes_of_app in Heq.
  apply app_inv_tail, (f_equal string_of) in Heq. by rewrite !string_of_bytes_of in Heq.
Qed.

(** The UTF-8 encodings of the characters with the White_Space property. *)
Definition white_space : list bytes :=
  let e (l : list N) : bytes := byte_of <$> l in
  e <$> [[9]; [10]; [11]; [12]; [13]; [32]; [194; 133]; [194; 160]; [225; 154; 128];
   [226; 128; 128]; [226; 128; 129]; [226; 128; 130]; [226; 128; 131]; [226; 128; 132];
   [226; 128; 133]; [226; 128; 134]; [226; 128; 135]; [226; 128; 136]; [226; 128; 137];
   [226; 128; 138]; [226; 128; 168]; [226; 128; 169]; [226; 128; 175]; [226; 129; 159];
   [227; 128; 128]]%N.

(** Drop one leading member of [ws], when there is one. *)
Fixpoint strip_one (ws : list bytes) (l : bytes) : option bytes :=
  match ws with
  | [] => None
  | w :: ws =>
      match strip_prefix w l with
      | Some rest => Some rest
      | None => strip_one ws l
      end
  end.

(** Drop leading members of [ws] as long as there are any; each is non-empty, so
    the length of the string is fuel enough. *)
Fixpoint strip_many (fuel : nat) (ws : list bytes) (l : bytes) : bytes :=
  match fuel with
  | O => l
  | S fuel =>
      match strip_one ws l with
      | Some rest => strip_many fuel ws rest
      | None => l
      end
  end.

Definition trim_start (l : bytes) : bytes := strip_many (length l) white_space l.
Definition trim_end (l : bytes) : bytes :=
  reverse (strip_many (length l) (reverse <$> white_space) (reverse l)).

Definition str_trim (s : string) : string := string_of (trim_end (trim_start (bytes_of s))).

(* ------------------------------------------------------------------ *)

Lemma strip_prefix_Some w l rest : strip_prefix w l = Some rest ↔ l = w ++ rest.
Proof.
  revert l. induction w as [|a w IH]; intros [|b l]; cbn; try (split; congruence).
  case_decide; [subst; rewrite IH|]; split; congruence.
Qed.

Lemma strip_one_Some ws l rest : strip_one ws l = Some rest → ∃ w, w ∈ ws ∧ l = w ++ rest.
Proof.
  induction ws as [|w ws IH]; cbn; [done|].
  destruct (strip_prefix w l) eqn:E; intros H; simplify_eq.
  - apply strip_prefix_Some in E. set_solver.
  - destruct (IH H) as (w' & ? & ?). set_solver.
Qed.

Lemma strip_one_None ws l : strip_one ws l = None → ∀ w rest, w ∈ ws → l ≠ w ++ rest.
Proof.
  induction ws as [|w ws IH]; cbn; [set_solver|].
  destruct (strip_prefix w l) eqn:E; [done|].
  intros H w' rest [->|Hin]%elem_of_cons; [|by apply IH].
  intros Hl. by rewrite (proj2 (strip_prefix_Some _ _ _) Hl) in E.
Qed.

Section strip.
Context (ws : list bytes) (Hws : ∀ w, w ∈ ws → w ≠ []).

Lemma strip_many_suffix fuel l : ∃ p, l = p ++ strip_many fuel ws l.
Proof.
  revert l. induction fuel as [|fuel IH]; intros l; cbn; [by exists []|].
  destruct (strip_one ws l) as [rest|] eqn:E; [|by exists []].
  apply strip_one_Some in E as (w & _ & ->). destruct (IH rest) as [p Hp].
  exists (w ++ p). by rewrite <- app_assoc, <- Hp.
Qed.

Lemma strip_many_done fuel l :
  (length l ≤ fuel)%nat → strip_one ws (strip_many fuel ws l) = None.
Proof.
  revert l. induction fuel as [|fuel IH]; intros l Hl; cbn.
  - destruct l; [|cbn in Hl; lia].
    destruct (strip_one ws []) as [rest|] eqn:E; [|done].
    apply strip_one_Some in E as (w & Hw & Heq). symmetry in Heq.
    apply app_eq_nil in Heq as [-> _]. by destruct (Hws [] Hw).
  - destruct (strip_one ws l) as [rest|] eqn:E; [|done].
    apply IH. apply strip_one_Some in E as (w & Hw & ->).
    rewrite length_app in Hl. destruct w; [by destruct (Hws _ Hw)|cbn in Hl; lia].
Qed.

Lemma strip_many_id fuel l : strip_one ws l = None → strip_many fuel ws l = l.
Proof. destruct fuel; cbn; [done|]. by intros ->. Qed.
End strip.

Lemma white_space_nonempty w : w ∈ white_space → w ≠ [].
Proof.
  assert (Forall (fun w => w ≠ []) white_space) as H by (repeat constructor; done).
  rewrite Forall_forall in H. apply H.
Qed.

Lemma reverse_white_space_nonempty w : w ∈ reverse <$> white_space → w ≠ [].
Proof.
  intros (w' & -> & Hw)%list_elem_of_fmap H. apply (white_space_nonempty w' Hw).
  by rewrite <- (reverse_involutive w'), H.
Qed.

Lemma strip_one_prefix ws l l' : strip_one ws l = None → (∃ s, l = l' ++ s) → strip_one ws l' = None.
Proof.
  intros Hn (s & ->). destruct (strip_one ws l') as [rest|] eqn:E; [|done].
  apply strip_one_Some in E as (w & Hw & ->). exfalso.
  eapply (strip_one_None _ _ Hn w (rest ++ s)); [done|]. by rewrite <- app_assoc.
Qed.

(** Trimming twice is trimming once. *)
Lemma str_trim_idem s : str_trim (str_trim s) = str_trim s.
Proof.
  unfold str_trim. rewrite bytes_of_string_of. f_equal.
  set (t := trim_start (bytes_of s)).
  assert (strip_one white_space t = None) as Ht
    by (apply strip_many_done; [apply white_space_nonempty|lia]).
  assert (strip_one (reverse <$> white_space) (reverse (trim_end t)) = None) as He.
  { unfold trim_end. rewrite reverse_involutive.
    apply strip_many_done; [apply reverse_white_space_nonempty|]. by rewrite length_reverse. }
  assert (∃ sfx, t = trim_end t ++ sfx) as Hpre.
  { destruct (strip_many_suffix (reverse <$> white_space) (length t) (reverse t)) as [p Hp].
    exists (reverse p). unfold trim_end. rewrite <- reverse_app, <- Hp. by rewrite reverse_involutive. }
  assert (trim_start (trim_end t) = trim_end t) as ->.
  { apply strip_many_id. by eapply strip_one_prefix. }
  unfold trim_end at 1. rewrite (strip_many_id _ _ _ He). apply reverse_involutive.
Qed.

Lemma str_trim_empty : str_trim "" = "".
Proof. reflexivity. Qed.

(** Text none of whose bytes begins or ends a white-space character trims to itself. *)

Definition heads_off (x : Byte.byte) (ws : list bytes) : bool :=
  forallb (fun w => match w with y :: _ => negb (bool_decide (y = x)) | [] => false end) ws.

Lemma strip_one_none x ws l : heads_off x ws = true → strip_one ws (x :: l) = None.
Proof.
  induction ws as [|w ws IH]; [done|]. cbn. intros [Hw Hws]%andb_true_iff.
  destruct w as [|y w]; [done|]. cbn. apply negb_true_iff, bool_decide_eq_false in Hw.
  rewrite decide_False by done. by apply IH.
Qed.

Lemma strip_many_none x ws l n : heads_off x ws = true → strip_many n ws (x :: l) = x :: l.
Proof. intros Hx. destruct n; [done|]. cbn. by rewrite strip_one_none. Qed.

Definition trim_safe (x : Byte.byte) : bool := heads_off x white_space && heads_off x (reverse <$> white_space).

Lemma str_trim_safe s :
  (∀ x, x ∈ bytes_of s → trim_safe x = true) → str_trim s = s.
Proof.
  intros Hs. unfold str_trim, trim_start.
  assert (strip_many (length (bytes_of s)) white_space (bytes_of s) = bytes_of s) as ->.
  { destruct (bytes_of s) as [|x l]; [done|]. apply strip_many_none.
    assert (trim_safe x = true) as Hx by (apply Hs; left). by apply andb_true_iff in Hx as [? _]. }
  unfold trim_end.
  assert (strip_many (length (bytes_of s)) (reverse <$> white_space) (reverse (bytes_of s))
    = reverse (bytes_of s)) as ->.
  { destruct (reverse (bytes_of s)) as [|x l] eqn:E; [by destruct (length (bytes_of s))|].
    apply strip_many_none. assert (x ∈ bytes_of s) as Hx.
    { rewrite <- elem_of_reverse, E. by left. }
    by apply Hs, andb_true_iff in Hx as [_ ?]. }
  by rewrite reverse_involutive, string_of_bytes_of.
Qed.

(** ** Splitting at a byte, at a pattern *)

(** [str::split] at one ASCII character; [cur] is the piece so far, reversed. *)
Fixpoint split_on (sep : Byte.byte) (l cur : bytes) : list bytes :=
  match l with
  | [] => [reverse cur]
  | b :: l => if decide (b = sep) then reverse cur :: split_on sep l [] else split_on sep l (b :: cur)
  end.

(** [str::split_once] at a character, and at a string. *)
Fixpoint cut_at (sep : Byte.byte) (l : bytes) : option (bytes * bytes) :=
  match l with
  | [] => None
  | b :: l => if decide (b = sep) then Some ([], l) else prod_map (cons b) id <$> cut_at sep l
  end.
Fixpoint find_sub (p l : bytes) : option (bytes * bytes) :=
  match strip_prefix p l with
  | Some rest => Some ([], rest)
  | None => match l with [] => None | b :: l => prod_map (cons b) id <$> find_sub p l end
  end.

Lemma split_on_no_sep sep l cur : sep ∉ cur → Forall (fun c => sep ∉ c) (split_on sep l cur).
Proof.
  revert cur. induction l as [|b l IH]; intros cur Hcur; cbn.
  - constructor; [|constructor]. by rewrite elem_of_reverse.
  - case_decide as Hb; [constructor; [by rewrite elem_of_reverse|apply IH; apply not_elem_of_nil]|].
    apply IH. rewrite not_elem_of_cons. split; congruence.
Qed.

Lemma split_on_none sep l cur : sep ∉ l → split_on sep l cur = [reverse cur ++ l].
Proof.
  revert cur. induction l as [|b l IH]; intros cur Hl; cbn; [by rewrite app_nil_r|].
  apply not_elem_of_cons in Hl as [Hb Hl]. rewrite decide_False by congruence. rewrite IH by done.
  by rewrite reverse_cons, <- app_assoc.
Qed.

(** ** Numbers as text *)

(** The text of a number is made of digits, and there is one. *)
Lemma pretty_go_bytes (P : Byte.byte → Prop) x s :
  (∀ d, P (Ascii.byte_of_ascii (pretty_N_char d))) → Forall P (bytes_of s) → s ≠ ""%string →
  Forall P (bytes_of (pretty_N_go x s)) ∧ pretty_N_go x s ≠ ""%string.
Proof.
  intros HP. revert s. induction (N.lt_wf_0 x) as [x _ IH]; intros s Hs Hne.
  assert (x = 0 ∨ 0 < x)%N as [->|Hx] by lia; [by rewrite pretty_N_go_0|].
  rewrite pretty_N_go_step by done. apply IH; [apply N.div_lt; lia| |done]. by constructor.
Qed.
Lemma pretty_bytes (P : Byte.byte → Prop) (n : N) :
  (∀ d, P (Ascii.byte_of_ascii (pretty_N_char d))) → Forall P (bytes_of (pretty n)).
Proof.
  intros HP. unfold pretty, pretty_N. case_decide as Hn; [constructor; [apply (HP 0%N)|constructor]|].
  rewrite pretty_N_go_step by lia. apply pretty_go_bytes; [done| |done]. constructor; [apply HP|constructor].
Qed.
Lemma pretty_nonempty (n : N) : pretty n ≠ ""%string.
Proof.
  unfold pretty, pretty_N. case_decide as Hn; [done|]. rewrite pretty_N_go_step by lia.
  apply (pretty_go_bytes (fun _ => True)); [done|by apply Forall_true|done].
Qed.

(** * [String::from_utf8]

    The well-formed UTF-8 byte sequences, as the standard library accepts them. *)
Local Open Scope N_scope.

Definition in_range (lo hi : N) (b : Byte.byte) : bool :=
  (lo <=? Byte.to_N b) && (Byte.to_N b <=? hi).
Definition continuation (b : Byte.byte) : bool := in_range 128 191 b.

Definition two_bytes (b0 b1 : Byte.byte) : bool := in_range 194 223 b0 && continuation b1.
Definition three_bytes (b0 b1 b2 : Byte.byte) : bool :=
  ((in_range 224 224 b0 && in_range 160 191 b1)
   || (in_range 225 236 b0 && continuation b1)
   || (in_range 237 237 b0 && in_range 128 159 b1)
   || (in_range 238 239 b0 && continuation b1)) && continuation b2.
Definition four_bytes (b0 b1 b2 b3 : Byte.byte) : bool :=
  ((in_range 240 240 b0 && in_range 144 191 b1)
   || (in_range 241 243 b0 && continuation b1)
   || (in_range 244 244 b0 && in_range 128 143 b1)) && continuation b2 && continuation b3.

Fixpoint utf8_valid (l : bytes) : bool :=
  match l with
  | [] => true
  | b0 :: l =>
      if in_range 0 127 b0 then utf8_valid l
      else
        match l with
        | [] => false
        | b1 :: l =>
            if two_bytes b0 b1 then utf8_valid l
            else
              match l with
              | [] => false
              | b2 :: l =>
                  if three_bytes b0 b1 b2 then utf8_valid l
                  else
                    match l with
                    | [] => false
                    | b3 :: l => if four_bytes b0 b1 b2 b3 then utf8_valid l else false
                    end
              end
        end
  end.

(** [String::from_utf8]. *)
Definition from_utf8 (b : bytes) : option string :=
  if utf8_valid b then Some (string_of b) else None.

Lemma from_utf8_bytes_of s : utf8_valid (bytes_of s) = true → from_utf8 (bytes_of s) = Some s.
Proof. unfold from_utf8. intros ->. by rewrite string_of_bytes_of. Qed.
