(* ===== verification/Program.v ===== *)
(** * Asynchronous clients as programs

    An [async fn] of the client is a tree: what it does next, and how it goes on from
    what that yields.  Requests, the clock, random draws, what is reported to a caller
    and the state of a cancellation token are its operations, and a [loop] is a body
    that says whether it goes round again, so the tree of a function is finite and reads
    like the function.  A run feeds it what the world yields, one thing at a time.

    Below: the programs, their runs, and a logic of runs.  [holds] says of a program
    what it may send and report after what happened so far, given what the world may
    answer and draw; a loop is proved by an invariant, and [run_holds] carries the claim to
    every run. *)
From Stdlib Require Import FunctionalExtensionality.
From S2P Require Import Prelude.

Section programs.
Context {Rq Rs N : Type}.

Inductive prog (A : Type) : Type :=
  | Ret (a : A)
  | Send (r : Rq) (k : Rs → prog A)
  | Race (r : Rq) (k : option Rs → prog A)
  | Clock (k : Z → prog A)
  | Sleep (ms : Z) (k : prog A)
  | Draw (k : bytes → prog A)
  | Pick (below : Z) (k : Z → prog A)
  | Tell (n : N) (k : prog A)
  | Stopped (k : bool → prog A)
  | Iter {S R : Type} (body : S → prog (S + R)) (s : S) (k : R → prog A).
Arguments Ret {A} _.
Arguments Send {A} _ _.
Arguments Race {A} _ _.
Arguments Clock {A} _.
Arguments Sleep {A} _ _.
Arguments Draw {A} _.
Arguments Pick {A} _ _.
Arguments Tell {A} _ _.
Arguments Stopped {A} _.
Arguments Iter {A S R} _ _ _.

Fixpoint bind {A B} (p : prog A) (f : A → prog B) : prog B :=
  match p with
  | Ret a => f a
  | Send r k => Send r (fun x => bind (k x) f)
  | Race r k => Race r (fun x => bind (k x) f)
  | Clock k => Clock (fun t => bind (k t) f)
  | Sleep ms k => Sleep ms (bind k f)
  | Draw k => Draw (fun b => bind (k b) f)
  | Pick n k => Pick n (fun i => bind (k i) f)
  | Tell n k => Tell n (bind k f)
  | Stopped k => Stopped (fun b => bind (k b) f)
  | Iter body s k => Iter body s (fun r => bind (k r) f)
  end.

Definition loop {S R} (body : S → prog (S + R)) (s : S) : prog R := Iter body s Ret.

(** The error of a program that can fail ends it: the [?] of the code. *)
Definition bind_ok {A B E} (p : prog (result A E)) (f : A → prog (result B E)) : prog (result B E) :=
  bind p (fun r => match r with Ok a => f a | Err e => Ret (Err e) end).

(** A program that a cancellation token ends while it waits ([tokio::select!]): it is
    dropped where it stands. *)
Fixpoint cancellable {A} (p : prog A) : prog (option A) :=
  match p with
  | Ret a => Ret (Some a)
  | Send r k => Race r (fun x => match x with Some x => cancellable (k x) | None => Ret None end)
  | Race r k => Race r (fun x => cancellable (k x))
  | Clock k => Clock (fun t => cancellable (k t))
  | Sleep ms k => Sleep ms (Stopped (fun b => if b then Ret None else cancellable k))
  | Draw k => Draw (fun b => cancellable (k b))
  | Pick n k => Pick n (fun i => cancellable (k i))
  | Tell n k => Tell n (cancellable k)
  | Stopped k => Stopped (fun b => cancellable (k b))
  | Iter body s k =>
      Iter (fun s => bind (cancellable (body s)) (fun x =>
              Ret (match x with Some (inl s) => inl s | Some (inr r) => inr (Some r) | None => inr None end)))
        s (fun x => match x with Some r => cancellable (k r) | None => Ret None end)
  end.

(** ** Runs *)

(** What the world yields, and what one step leaves in the log of a run.  A request
    that lost its race may have been handled or not. *)
Inductive Input :=
  | Answers (x : Rs)
  | Raced (x : option Rs)
  | Time (t : Z)
  | Slept
  | Drawn (b : bytes)
  | Picked (i : Z)
  | Heard
  | Stops (b : bool)
  | Round.
Inductive Obs :=
  | Sent (r : Rq) (x : option Rs)
  | Read (t : Z)
  | Drew (b : bytes)
  | Told (n : N).

Definition resume {A} (p : prog A) (i : Input) : option (prog A * list Obs) :=
  match p, i with
  | Send r k, Answers x => Some (k x, [Sent r (Some x)])
  | Race r k, Raced x => Some (k x, [Sent r x])
  | Clock k, Time t => Some (k t, [Read t])
  | Sleep _ k, Slept => Some (k, [])
  | Draw k, Drawn b => Some (k b, [Drew b])
  | Pick n k, Picked i => if (0 <=? i) && (i <? n) then Some (k i, []) else None
  | Tell n k, Heard => Some (k, [Told n])
  | Stopped k, Stops b => Some (k b, [])
  | Iter body s k, Round =>
      Some (bind (body s) (fun x => match x with inl s => Iter body s k | inr r => k r end), [])
  | _, _ => None
  end%Z.

Fixpoint run {A} (p : prog A) (ins : list Input) : option (prog A * list Obs) :=
  match ins with
  | [] => Some (p, [])
  | i :: ins =>
      '(p, l) ← resume p i;
      '(p, l') ← run p ins;
      Some (p, l ++ l')
  end.

(** A program that reports nothing. *)
Fixpoint silent {A} (p : prog A) : Prop :=
  match p with
  | Ret _ => True
  | Send _ k => ∀ x, silent (k x)
  | Race _ k => ∀ x, silent (k x)
  | Clock k => ∀ t, silent (k t)
  | Sleep _ k => silent k
  | Draw k => ∀ b, silent (k b)
  | Pick _ k => ∀ i, silent (k i)
  | Tell _ _ => False
  | Stopped k => ∀ b, silent (k b)
  | Iter body _ k => (∀ s, silent (body s)) ∧ ∀ r, silent (k r)
  end.
Definition untold (o : Obs) : Prop := match o with Told _ => False | _ => True end.

Lemma silent_bind {A B} (p : prog A) (f : A → prog B) : silent p → (∀ a, silent (f a)) → silent (bind p f).
Proof.
  intros Hp Hf. induction p as [A a|A r k IH|A r k IH|A k IH|A ms k IH|A k IH|A n k IH|A n k IH|A k IH|A S R body IHb s k IH];
    cbn in *; try done; auto.
  destruct Hp as [Hb Hk]. split; [done|]. intros r. by apply IH.
Qed.
Lemma silent_bind_ok {A B E} (p : prog (result A E)) (f : A → prog (result B E)) :
  silent p → (∀ a, silent (f a)) → silent (bind_ok p f).
Proof. intros Hp Hf. apply silent_bind; [done|]. by intros []. Qed.
Lemma silent_loop {S R} (body : S → prog (S + R)) s : (∀ s, silent (body s)) → silent (loop body s).
Proof. done. Qed.

Lemma silent_cancellable {A} (p : prog A) : silent p → silent (cancellable p).
Proof.
  intros Hp. induction p as [A a|A r k IH|A r k IH|A k IH|A ms k IH|A k IH|A n k IH|A n k IH|A k IH|A S R body IHb s k IH];
    cbn in *; try done; auto.
  - intros [x|]; [by apply IH|done].
  - intros []; [done|by apply IH].
  - destruct Hp as [Hb Hk]. split; [|intros [r|]; [by apply IH|done]]. intros s'. apply silent_bind; [by apply IHb|done].
Qed.

(** ** A logic of runs *)

Section logic.
Context (may : list Obs → Rq → Prop) (lets : list Obs → Rq → Rs → Prop) (lots : list Obs → bytes → Prop)
  (says : list Obs → N → Prop).

Fixpoint holds {A} (p : prog A) (l : list Obs) (Q : A → list Obs → Prop) : Prop :=
  match p with
  | Ret a => Q a l
  | Send r k => may l r ∧ ∀ x, lets l r x → holds (k x) (l ++ [Sent r (Some x)]) Q
  | Race r k => may l r ∧ ∀ x, (∀ y, x = Some y → lets l r y) → holds (k x) (l ++ [Sent r x]) Q
  | Clock k => ∀ t, holds (k t) (l ++ [Read t]) Q
  | Sleep _ k => holds k l Q
  | Draw k => ∀ b, lots l b → holds (k b) (l ++ [Drew b]) Q
  | Pick n k => ∀ i, (0 <= i < n)%Z → holds (k i) l Q
  | Tell n k => says l n ∧ holds k (l ++ [Told n]) Q
  | Stopped k => ∀ b, holds (k b) l Q
  | Iter body s k =>
      ∃ I : _ → list Obs → Prop, I s l ∧ ∀ s l, I s l →
        holds (body s) l (fun x l => match x with inl s => I s l | inr r => holds (k r) l Q end)
  end.

Lemma holds_mono {A} (p : prog A) l (Q Q' : A → list Obs → Prop) :
  (∀ a l, Q a l → Q' a l) → holds p l Q → holds p l Q'.
Proof.
  revert l Q Q'. induction p as [A a|A r k IH|A r k IH|A k IH|A ms k IH|A k IH|A n k IH|A n k IH|A k IH|A S R body IHb s k IH];
    intros l Q Q' HQ; cbn; [by auto|try (intros [? H]; split; [done|]); try intros H; eauto..].
  destruct H as (I & Hs & HI). exists I. split; [done|]. intros s' l' Hi. eapply IHb; [|by apply HI].
  intros [s1|r] l1; [done|]. cbn. by apply IH.
Qed.

Lemma holds_bind {A B} (p : prog A) (f : A → prog B) l Q :
  holds p l (fun a l => holds (f a) l Q) → holds (bind p f) l Q.
Proof.
  revert l. induction p as [A a|A r k IH|A r k IH|A k IH|A ms k IH|A k IH|A n k IH|A n k IH|A k IH|A S R body IHb s k IH];
    intros l; cbn; [done|try (intros [? H]; split; [done|]); try intros H; eauto..].
  destruct H as (I & Hs & HI). exists I. split; [done|]. intros s' l' Hi. eapply holds_mono; [|by apply HI].
  intros [s1|r] l1; [done|]. apply IH.
Qed.

Lemma holds_bind_ok {A B E} (p : prog (result A E)) (f : A → prog (result B E)) l Q :
  holds p l (fun a l => match a with Ok a => holds (f a) l Q | Err e => Q (Err e) l end) →
  holds (bind_ok p f) l Q.
Proof. intros H. apply holds_bind. eapply holds_mono; [|exact H]. by intros [a|e] l'. Qed.

Lemma holds_loop {S R} (I : S → list Obs → Prop) (body : S → prog (S + R)) s l Q :
  I s l → (∀ s l, I s l → holds (body s) l (fun x l => match x with inl s => I s l | inr r => Q r l end)) →
  holds (loop body s) l Q.
Proof. intros Hs HI. by exists I. Qed.

Lemma holds_cancellable {A} (p : prog A) l (Q : A → list Obs → Prop) :
  holds p l Q → holds (cancellable p) l (fun x l => match x with Some a => Q a l | None => True end).
Proof.
  revert l Q. induction p as [A a|A r k IH|A r k IH|A k IH|A ms k IH|A k IH|A n k IH|A n k IH|A k IH|A S R body IHb s k IH];
    intros l Q; cbn; [done|try (intros [? H]; split; [done|]); try intros H; eauto..].
  - intros [x|] Hx; [|done]. apply IH, H, Hx. done.
  - intros []; [done|]. by apply IH.
  - destruct H as (I & Hs & HI). exists I. split; [done|]. intros s' l' Hi. apply holds_bind.
    eapply holds_mono; [|apply IHb, HI, Hi]. intros [[s1|r]|] l1; cbn; [done| |done]. apply IH.
Qed.

(** A silent program that may send everything keeps what only reports change. *)
Lemma holds_silent {A} (p : prog A) l (Q : A → list Obs → Prop) :
  (∀ l r, may l r) → silent p → (∀ a k, Forall untold k → Q a (l ++ k)) → holds p l Q.
Proof.
  intros Hm. revert l Q.
  induction p as [A a|A r k IH|A r k IH|A k IH|A ms k IH|A k IH|A n k IH|A n k IH|A k IH|A S R body IHb s k IH];
    intros l Q Hs HQ; cbn in *; try done.
  - rewrite <- (app_nil_r l). by apply HQ.
  - split; [done|]. intros x _. apply IH; [done|]. intros a j Hj. rewrite <- app_assoc. apply HQ. by constructor.
  - split; [done|]. intros x _. apply IH; [done|]. intros a j Hj. rewrite <- app_assoc. apply HQ. by constructor.
  - intros t. apply IH; [done|]. intros a j Hj. rewrite <- app_assoc. apply HQ. by constructor.
  - by apply IH.
  - intros b _. apply IH; [done|]. intros a j Hj. rewrite <- app_assoc. apply HQ. by constructor.
  - intros i _. by apply IH.
  - intros b. by apply IH.
  - destruct Hs as [Hb Hk]. exists (fun _ l' => ∃ j, l' = l ++ j ∧ Forall untold j).
    split; [exists []; by rewrite app_nil_r|]. intros s' l' (j & -> & Hj). apply IHb; [done|].
    intros [s1|r] j' Hj'; rewrite <- app_assoc.
    + eexists. split; [done|]. by apply Forall_app.
    + apply IH; [done|]. intros a j2 Hj2. rewrite <- app_assoc. apply HQ. rewrite !Forall_app. auto.
Qed.

(** What a silent program adds to the log reports nothing. *)
Lemma holds_quiet {A} (p : prog A) l (Q : A → list Obs → Prop) :
  silent p → holds p l Q → holds p l (fun a l' => Q a l' ∧ ∃ k, l' = l ++ k ∧ Forall untold k).
Proof.
  intros Hs H. assert (∀ l0, (∃ k, l = l0 ++ k ∧ Forall untold k) →
    holds p l (fun a l' => Q a l' ∧ ∃ k, l' = l0 ++ k ∧ Forall untold k)) as Hgen; [|apply Hgen; exists []; by rewrite app_nil_r].
  intros l0. assert (∀ l o, untold o → (∃ k, l = l0 ++ k ∧ Forall untold k) → ∃ k, l ++ [o] = l0 ++ k ∧ Forall untold k) as Hone.
  { intros l' o Ho (j & -> & Hj). eexists. rewrite <- app_assoc. split; [done|]. apply Forall_app. split; [done|by constructor]. }
  revert l Q Hs H.
  induction p as [A a|A r k IH|A r k IH|A k IH|A ms k IH|A k IH|A n k IH|A n k IH|A k IH|A S R body IHb s k IH];
    intros l Q Hs H Hl; cbn in *; try done; try (destruct H as [Hm H]; split; [done|]);
    try (intros; apply IH; [by auto|by auto|first [done|by apply Hone]]).
  destruct Hs as [Hb Hk]. destruct H as (I & Hi & HI).
  exists (fun s' l' => I s' l' ∧ ∃ k, l' = l0 ++ k ∧ Forall untold k). split; [done|].
  intros s' l' [Hi' Hl']. eapply holds_mono; [|apply (IHb s' l' _ (Hb s') (HI _ _ Hi') Hl')].
  intros [s1|r] l1 [Hx Hq]; [done|]. by apply IH.
Qed.

(** What one observation asks of the world, and of the program. *)
Definition allowed (l : list Obs) (o : Obs) : Prop :=
  match o with Sent r (Some x) => lets l r x | Drew b => lots l b | _ => True end.
Definition proper (l : list Obs) (o : Obs) : Prop :=
  match o with Sent r _ => may l r | Told n => says l n | _ => True end.

Lemma holds_resume {A} (p : prog A) l Q i p' os :
  holds p l Q → resume p i = Some (p', os) → Forall (allowed l) os →
  Forall (proper l) os ∧ holds p' (l ++ os) Q.
Proof.
  intros Hp Hr Ho. destruct p as [a|r k|r k|k|ms k|k|n k|n k|k|S R body s k]; destruct i; cbn in Hr; try discriminate Hr.
  - injection Hr as <- <-. destruct Hp as [Hm Hk]. apply Forall_cons_1 in Ho as [Ho _]. split; [by apply Forall_singleton|apply Hk; exact Ho].
  - injection Hr as <- <-. destruct Hp as [Hm Hk]. apply Forall_cons_1 in Ho as [Ho _]. split; [by apply Forall_singleton|].
    apply Hk. by intros y ->.
  - injection Hr as <- <-. split; [by apply Forall_singleton|apply Hp].
  - injection Hr as <- <-. rewrite app_nil_r. by split.
  - injection Hr as <- <-. apply Forall_cons_1 in Ho as [Ho _]. split; [by apply Forall_singleton|by apply Hp].
  - destruct (_ && _)%Z eqn:Hi in Hr; [|discriminate Hr]. injection Hr as <- <-. rewrite app_nil_r.
    apply andb_true_iff in Hi as [Hi1 Hi2]. zbool. split; [done|]. by apply Hp.
  - injection Hr as <- <-. destruct Hp as [Hm Hk]. split; [by apply Forall_singleton|done].
  - injection Hr as <- <-. rewrite app_nil_r. split; [done|apply Hp].
  - injection Hr as <- <-. rewrite app_nil_r. split; [done|]. destruct Hp as (I & Hs & HI).
    apply holds_bind. eapply holds_mono; [|by apply HI]. intros [s1|r] l1; [|done]. intros Hi. by exists I.
Qed.

Lemma resume_one {A} (p : prog A) i p' os : resume p i = Some (p', os) → os = [] ∨ ∃ o, os = [o].
Proof.
  intros Hr. destruct p; destruct i; cbn in Hr; try discriminate Hr;
    try (destruct (_ && _)%Z in Hr; [|discriminate Hr]); injection Hr as <- <-; eauto.
Qed.

(** Of a whole run: every observation was proper after those before it. *)
Lemma run_holds {A} (p : prog A) ins l Q p' os :
  holds p l Q → run p ins = Some (p', os) →
  (∀ pre o post, os = pre ++ o :: post → allowed (l ++ pre) o) →
  (∀ pre o post, os = pre ++ o :: post → proper (l ++ pre) o) ∧ holds p' (l ++ os) Q.
Proof.
  revert p l os. induction ins as [|i ins IH]; intros p l os Hp Hr Ho; cbn in Hr.
  { simplify_eq. rewrite app_nil_r. split; [|done]. by intros [|??] ? ?. }
  destruct (resume p i) as [[p1 os1]|] eqn:E; [|done]. cbn in Hr.
  destruct (run p1 ins) as [[p2 os2]|] eqn:E2; [|done]. cbn in Hr. simplify_eq.
  pose proof (resume_one _ _ _ _ E) as Hos.
  assert (Forall (allowed l) os1) as Hall.
  { destruct Hos as [->|[o ->]]; [done|]. apply Forall_singleton. rewrite <- (app_nil_r l). by apply (Ho [] o os2). }
  destruct (holds_resume _ _ _ _ _ _ Hp E Hall) as [Hd Hp1].
  destruct (IH p1 (l ++ os1) os2 Hp1 E2) as [Hd2 Hh].
  { intros pre o post ->. rewrite <- app_assoc. apply (Ho (os1 ++ pre) o post). by rewrite <- app_assoc. }
  rewrite <- app_assoc in Hh. split; [|done]. destruct Hos as [->|[o ->]].
  - intros pre o post Eo. specialize (Hd2 pre o post Eo). by rewrite app_nil_r in Hd2.
  - intros [|o' pre] o1 post Eo; cbn in Eo; simplify_eq.
    + rewrite app_nil_r. by apply Forall_cons_1 in Hd as [Hd _].
    + specialize (Hd2 pre o1 post eq_refl). by rewrite <- app_assoc in Hd2.
Qed.
End logic.

(** What holds with less allowed holds with more. *)
Lemma holds_allow (may may' : list Obs → Rq → Prop) lets lots says {A} (p : prog A) l Q :
  (∀ l r, may l r → may' l r) → holds may lets lots says p l Q → holds may' lets lots says p l Q.
Proof.
  intros Hm. revert l Q.
  induction p as [A a|A r k IH|A r k IH|A k IH|A ms k IH|A k IH|A n k IH|A n k IH|A k IH|A S R body IHb s k IH];
    intros l Q; cbn; [done|try (intros [? H]; split; [by auto|]); try intros H; eauto..].
  destruct H as (I & Hs & HI). exists I. split; [done|]. intros s' l' Hi. apply IHb.
  eapply holds_mono; [|by apply HI]. intros [s1|r] l1; [done|]. apply IH.
Qed.

(** ** Ends

    A program ends within a number of inputs, whatever they are, with a result of which
    [Q] holds.  A loop is unrolled to say so. *)
Inductive ends : ∀ {A}, nat → prog A → (A → Prop) → Prop :=
  | ends_ret A n (a : A) (Q : A → Prop) : Q a → ends n (Ret a) Q
  | ends_send A n r (k : Rs → prog A) Q : (∀ x, ends n (k x) Q) → ends (S n) (Send r k) Q
  | ends_race A n r (k : option Rs → prog A) Q : (∀ x, ends n (k x) Q) → ends (S n) (Race r k) Q
  | ends_clock A n (k : Z → prog A) Q : (∀ t, ends n (k t) Q) → ends (S n) (Clock k) Q
  | ends_sleep A n ms (k : prog A) Q : ends n k Q → ends (S n) (Sleep ms k) Q
  | ends_draw A n (k : bytes → prog A) Q : (∀ b, ends n (k b) Q) → ends (S n) (Draw k) Q
  | ends_pick A n below (k : Z → prog A) Q : (0 < below)%Z → (∀ i, ends n (k i) Q) → ends (S n) (Pick below k) Q
  | ends_tell A n m (k : prog A) Q : ends n k Q → ends (S n) (Tell m k) Q
  | ends_stopped A n (k : bool → prog A) Q : (∀ b, ends n (k b) Q) → ends (S n) (Stopped k) Q
  | ends_iter A n St R (body : St → prog (St + R)) s (k : R → prog A) Q :
      ends n (bind (body s) (fun x => match x with inl s => Iter body s k | inr r => k r end)) Q →
      ends (S n) (Iter body s k) Q.

Lemma ends_resume {A} n (p : prog A) Q i p' os :
  ends n p Q → resume p i = Some (p', os) → ∃ m, n = S m ∧ ends m p' Q.
Proof.
  intros He Hr. destruct He; destruct i; cbn in Hr; try discriminate Hr;
    try (destruct (_ && _)%Z in Hr; [|discriminate Hr]); injection Hr as <- <-; eauto.
Qed.
(** So every run of it is that short, and one that is that long has come to the end. *)
Lemma ends_runs {A} n (p : prog A) Q ins p' os :
  ends n p Q → run p ins = Some (p', os) → (length ins <= n)%nat ∧ ends (n - length ins) p' Q.
Proof.
  revert n p os. induction ins as [|i ins IH]; intros n p os He Hr; cbn in *; [simplify_eq; split; [lia|by rewrite Nat.sub_0_r]|].
  destruct (resume p i) as [[p1 os1]|] eqn:E; [|done]. cbn in Hr.
  destruct (run p1 ins) as [[p2 os2]|] eqn:E2; [|done]. cbn in Hr. simplify_eq.
  destruct (ends_resume _ _ _ _ _ _ He E) as (m & -> & Hm). destruct (IH m p1 os2 Hm E2) as [Hl He']. split; [lia|done].
Qed.
Lemma ends_goes_on {A} n (p : prog A) Q : inhabited Rs → ends n p Q → (∃ a, p = Ret a) ∨ ∃ i, is_Some (resume p i).
Proof.
  intros [x] He. destruct He as [A n a| | | | | |A n below k Q Hb| | |]; [left; eauto|right..];
    [exists (Answers x)|exists (Raced None)|exists (Time 0)|exists Slept|exists (Drawn [])|exists (Picked 0)|exists Heard|exists (Stops false)|exists Round];
    try by eexists.
  cbn. rewrite (proj2 (Z.ltb_lt _ _) Hb). by eexists.
Qed.
Lemma ends_mono {A} n m (p : prog A) (Q Q' : A → Prop) : ends n p Q → (∀ a, Q a → Q' a) → (n <= m)%nat → ends m p Q'.
Proof.
  intros He. revert m Q'. induction He; intros m' Q'; try (destruct m' as [|m']; [intros; lia|]);
    intros HQ Hm; constructor; intros; eauto with lia.
Qed.
Lemma bind_assoc {A B C} (p : prog A) (f : A → prog B) (g : B → prog C) :
  bind (bind p f) g = bind p (fun a => bind (f a) g).
Proof.
  induction p as [A a|A r k IH|A r k IH|A k IH|A ms k IH|A k IH|A n k IH|A n k IH|A k IH|A S R body IHb s k IH];
    cbn; f_equal; auto; apply functional_extensionality; auto.
Qed.
Lemma ends_bind {A B} n m (p : prog A) (f : A → prog B) Q Q' :
  ends n p Q → (∀ a, Q a → ends m (f a) Q') → ends (n + m) (bind p f) Q'.
Proof.
  intros He Hf. induction He; cbn; try (constructor; by auto).
  - eapply ends_mono; [by apply Hf|done|lia].
  - constructor. specialize (IHHe f Hf). rewrite bind_assoc in IHHe.
    erewrite (f_equal (bind (body s))); [exact IHHe|]. apply functional_extensionality. by intros [s'|r].
Qed.
(** A loop that goes round while a rank falls. *)
Lemma ends_loop {St R} (I : St → Prop) (rank : St → nat) n (body : St → prog (St + R)) s (Q : R → Prop) :
  (∀ s, I s → ends n (body s) (fun x => match x with inl s' => I s' ∧ (rank s' < rank s)%nat | inr r => Q r end)) →
  I s → ends (S (rank s) * S n) (loop body s) Q.
Proof.
  intros Hb. remember (rank s) as j eqn:Hj. revert s Hj. induction (lt_wf j) as [j _ IH]. intros s -> Hs.
  cbn [Nat.mul Nat.add]. constructor. eapply ends_bind; [by apply Hb|]. intros [s'|r] Hx.
  - destruct Hx as [Hs' Hr]. eapply ends_mono; [by apply (IH (rank s') Hr s')|done|nia].
  - by constructor.
Qed.
End programs.

Arguments prog : clear implicits.
Arguments Ret {Rq Rs N A} _.
Arguments Send {Rq Rs N A} _ _.
Arguments Race {Rq Rs N A} _ _.
Arguments Clock {Rq Rs N A} _.
Arguments Sleep {Rq Rs N A} _ _.
Arguments Draw {Rq Rs N A} _.
Arguments Pick {Rq Rs N A} _ _.
Arguments Tell {Rq Rs N A} _ _.
Arguments Stopped {Rq Rs N A} _.
Arguments Iter {Rq Rs N A S R} _ _ _.
Arguments Input : clear implicits.
Arguments Answers {Rs} _.
Arguments Raced {Rs} _.
Arguments Time {Rs} _.
Arguments Slept {Rs}.
Arguments Drawn {Rs} _.
Arguments Picked {Rs} _.
Arguments Heard {Rs}.
Arguments Stops {Rs} _.
Arguments Round {Rs}.
Arguments Obs : clear implicits.
Arguments Sent {Rq Rs N} _ _.
Arguments Read {Rq Rs N} _.
Arguments Drew {Rq Rs N} _.
Arguments Told {Rq Rs N} _.

(** [let*] is [.await] and [let?] is [.await?]. *)
Declare Scope prog_scope.
Delimit Scope prog_scope with prog.
Notation "'let*' x ':=' p 'in' q" := (bind p (fun x => q))
  (at level 10, x pattern, p at level 100, q at level 200) : prog_scope.
Notation "'let?' x ':=' p 'in' q" := (bind_ok p (fun x => q))
  (at level 10, x pattern, p at level 100, q at level 200) : prog_scope.
Notation "'try?' x ':=' r 'in' q" := (match r with Ok x => q | Err e => Ret (Err e) end)
  (at level 10, x pattern, r at level 100, q at level 200) : prog_scope.

(** Deciding that a program reports nothing. *)
Ltac quiet :=
  repeat (cbn [silent]; match goal with
    | |- silent (bind_ok _ _) => apply silent_bind_ok
    | |- silent (bind _ _) => apply silent_bind
    | |- silent (loop _ _) => apply silent_loop
    | |- silent (match ?x with _ => _ end) => destruct x
    | |- ∀ _, _ => intros ?
    | |- _ ∧ _ => split
    | |- True => exact I
    end).
