(* ===== verification/Crdt.v ===== *)
(** * Replicated registers

    The interface between the address-book registers of [core/src/sync.rs] and
    the merge of a whole state: a register type gives a join and says which two
    registers may coexist in one history; its laws are proved once, for the two
    shapes the source uses (a join that keeps the greater key, and a pointwise
    maximum).  The merge of a map of registers is then commutative, associative
    and idempotent whatever the register is. *)
From S2P Require Import Prelude.
(** What a register promises to the map that holds it. [reg_agree a b]: the two
    registers may appear in the same history. *)
Class Register (R : Type) : Type := {
  reg_join : R → R → R;
  reg_agree : R → R → Prop;
}.

Class RegisterLaws (R : Type) `{!Register R} : Prop := {
  reg_join_idem : ∀ a : R, reg_join a a = a;
  reg_join_comm : ∀ a b : R, reg_agree a b → reg_join a b = reg_join b a;
  reg_join_assoc : ∀ a b c : R, reg_agree a b → reg_agree b c → reg_agree a c →
    reg_join a (reg_join b c) = reg_join (reg_join a b) c;
  reg_agree_refl : ∀ a : R, reg_agree a a;
  reg_agree_sym : ∀ a b : R, reg_agree a b → reg_agree b a;
  reg_agree_join : ∀ a b c : R, reg_agree a c → reg_agree b c → reg_agree (reg_join a b) c;
}.

#[export] Hint Resolve reg_agree_refl reg_agree_sym reg_agree_join : arvolo.

(* ------------------------------------------------------------------ *)
(** ** Last writer wins: the register with the greater key is kept *)

Section keyed.
Context {R K : Type} (key : R → K) (cmp : K → K → comparison) `{!CmpOrder cmp}.

Definition keyed_join (cur incoming : R) : R :=
  if cmp_geb cmp (key cur) (key incoming) then cur else incoming.

Definition keyed_agree (a b : R) : Prop := key a = key b → a = b.

Definition keyed_register : Register R :=
  {| reg_join := keyed_join; reg_agree := keyed_agree |}.

Lemma keyed_join_idem a : keyed_join a a = a.
Proof. unfold keyed_join. by destruct (cmp_geb _ _ _). Qed.

Lemma keyed_join_selects a b : keyed_join a b = a ∨ keyed_join a b = b.
Proof. unfold keyed_join. destruct (cmp_geb _ _ _); auto. Qed.

Lemma keyed_join_comm a b : keyed_agree a b → keyed_join a b = keyed_join b a.
Proof.
  unfold keyed_join, keyed_agree. intros H.
  destruct (cmp_geb cmp (key a) (key b)) eqn:E1, (cmp_geb cmp (key b) (key a)) eqn:E2; try done.
  - apply H. by eapply cmp_geb_antisym.
  - apply cmp_geb_total in E1. congruence.
Qed.

Lemma keyed_join_assoc a b c :
  keyed_agree a b → keyed_agree b c → keyed_agree a c →
  keyed_join a (keyed_join b c) = keyed_join (keyed_join a b) c.
Proof.
  unfold keyed_join, keyed_agree. intros Hab Hbc Hac.
  destruct (cmp_geb cmp (key b) (key c)) eqn:Ebc, (cmp_geb cmp (key a) (key b)) eqn:Eab;
    rewrite ?Ebc, ?Eab; try done.
  - by rewrite (cmp_geb_trans _ _ _ Eab Ebc).
  - destruct (cmp_geb cmp (key a) (key c)) eqn:Eac; [|done].
    apply cmp_geb_total in Eab, Ebc.
    pose proof (cmp_geb_trans _ _ _ Ebc Eab) as Eca.
    apply Hac. by eapply cmp_geb_antisym.
Qed.

Lemma keyed_laws : @RegisterLaws R keyed_register.
Proof.
  split; cbn.
  - apply keyed_join_idem.
  - apply keyed_join_comm.
  - apply keyed_join_assoc.
  - done.
  - unfold keyed_agree. naive_solver.
  - intros a b c Ha Hb. by destruct (keyed_join_selects a b) as [-> | ->].
Qed.
End keyed.

(* ------------------------------------------------------------------ *)
(** ** Maps of registers *)

Section map_merge.
Context {R : Type} `{!Register R, !RegisterLaws R}.

(** [accept k r]: whether a merge takes an incoming register at key [k]. *)
Implicit Types accept : string → R → bool.
Implicit Types m : gmap string R.

Definition join_at accept (k : string) (inc : R) (cur : option R) : option R :=
  if accept k inc then Some (match cur with Some c => reg_join c inc | None => inc end)
  else cur.

(** The contract of a map merge: at every key, the join. *)
Definition merge_spec accept (merge : gmap string R → gmap string R → gmap string R) : Prop :=
  ∀ m1 m2 k, merge m1 m2 !! k =
    match m2 !! k with Some inc => join_at accept k inc (m1 !! k) | None => m1 !! k end.

Definition map_agree m1 m2 : Prop :=
  ∀ k a b, m1 !! k = Some a → m2 !! k = Some b → reg_agree a b.

Definition map_accepted accept m : Prop :=
  ∀ k a, m !! k = Some a → accept k a = true.

Lemma map_agree_sym m1 m2 : map_agree m1 m2 → map_agree m2 m1.
Proof. intros H k a b Ha Hb. eauto using reg_agree_sym. Qed.

Lemma map_agree_refl m : map_agree m m.
Proof. intros k a b Ha Hb. simplify_eq. apply reg_agree_refl. Qed.

Section laws.
Context accept merge (Hm : merge_spec accept merge).

Ltac pointwise k :=
  apply map_eq; intros k; rewrite !Hm; rewrite ?Hm; unfold join_at.

Lemma merge_self m : map_accepted accept m → merge m m = m.
Proof.
  intros Hacc. pointwise k. destruct (m !! k) as [a|] eqn:E; [|done].
  by rewrite (Hacc _ _ E), reg_join_idem.
Qed.

Lemma merge_twice m1 m2 : map_agree m1 m2 → merge (merge m1 m2) m2 = merge m1 m2.
Proof.
  intros Hag. pointwise k. destruct (m2 !! k) as [b|] eqn:E2; [|done].
  destruct (accept k b); [|done]. destruct (m1 !! k) as [a|] eqn:E1; f_equal.
  - rewrite <- reg_join_assoc by eauto using reg_agree_refl. by rewrite reg_join_idem.
  - apply reg_join_idem.
Qed.

Lemma merge_comm m1 m2 :
  map_accepted accept m1 → map_accepted accept m2 → map_agree m1 m2 →
  merge m1 m2 = merge m2 m1.
Proof.
  intros H1 H2 Hag. pointwise k.
  destruct (m1 !! k) as [a|] eqn:E1, (m2 !! k) as [b|] eqn:E2; try done.
  - rewrite (H1 _ _ E1), (H2 _ _ E2). f_equal. apply reg_join_comm. eauto.
  - by rewrite (H1 _ _ E1).
  - by rewrite (H2 _ _ E2).
Qed.

(** Two merges into the same map commute, with no condition on the map. *)
Lemma merge_right_comm m1 m2 m3 :
  map_agree m1 m2 → map_agree m1 m3 → map_agree m2 m3 →
  merge (merge m1 m2) m3 = merge (merge m1 m3) m2.
Proof.
  intros H12 H13 H23. pointwise k.
  destruct (m2 !! k) as [b|] eqn:E2, (m3 !! k) as [c|] eqn:E3; try done.
  destruct (accept k b), (accept k c); try done.
  destruct (m1 !! k) as [a|] eqn:E1; f_equal.
  - assert (reg_agree b c) as Hbc by eauto.
    rewrite <- !reg_join_assoc by eauto using reg_agree_sym.
    by rewrite (reg_join_comm b c).
  - apply reg_join_comm. eauto.
Qed.

(** What a merge accepts is closed under the join. *)
Definition accept_closed : Prop :=
  ∀ k a b, accept k a = true → accept k b = true → accept k (reg_join a b) = true.

Lemma merge_assoc m1 m2 m3 :
  accept_closed →
  map_agree m1 m2 → map_agree m1 m3 → map_agree m2 m3 →
  map_accepted accept m2 →
  merge m1 (merge m2 m3) = merge (merge m1 m2) m3.
Proof.
  intros Hcl H12 H13 H23 Hacc. apply map_eq; intros k. rewrite !Hm.
  destruct (m3 !! k) as [c|] eqn:E3; [|done]. unfold join_at.
  destruct (m2 !! k) as [b|] eqn:E2; [|by destruct (accept k c) eqn:Ec; rewrite ?Ec].
  pose proof (Hacc _ _ E2) as Hb. rewrite Hb.
  destruct (accept k c) eqn:Ec; [|by rewrite Hb].
  rewrite (Hcl k b c Hb Ec).
  destruct (m1 !! k) as [a|] eqn:E1; [|done].
  by rewrite reg_join_assoc by eauto.
Qed.

Lemma merge_accepted m1 m2 :
  accept_closed → map_accepted accept m1 → map_accepted accept (merge m1 m2).
Proof.
  intros Hcl H1 k r. rewrite Hm. unfold join_at.
  destruct (m2 !! k) as [b|]; [|apply H1].
  destruct (accept k b) eqn:Eb; [|apply H1].
  destruct (m1 !! k) as [a|] eqn:E1; intros [= <-]; eauto.
Qed.

Lemma merge_agree m1 m2 m3 :
  map_agree m1 m3 → map_agree m2 m3 → map_agree (merge m1 m2) m3.
Proof.
  intros H1 H2 k r c. rewrite Hm. unfold join_at.
  destruct (m2 !! k) as [b|] eqn:E2; [|apply H1].
  destruct (accept k b); [|apply H1].
  destruct (m1 !! k) as [a|] eqn:E1; intros [= <-] Hc; eauto using reg_agree_join.
Qed.
End laws.
End map_merge.

(* ------------------------------------------------------------------ *)
(** ** Folding states in any order *)

Section fold.
Context {S : Type} (f : S → S → S) (agree : S → S → Prop).
Context (f_right_comm : ∀ a b c, agree a b → agree a c → agree b c →
           f (f a b) c = f (f a c) b).
Context (f_twice : ∀ a b, agree a b → f (f a b) b = f a b).
Context (f_agree : ∀ a b c, agree a c → agree b c → agree (f a b) c).
Context (agree_sym : ∀ a b, agree a b → agree b a).

(** Every two members of the list may appear in one history. *)
Definition pairwise (l : list S) : Prop := ∀ a b, a ∈ l → b ∈ l → agree a b.

Lemma pairwise_sub l1 l2 : (∀ x, x ∈ l1 → x ∈ l2) → pairwise l2 → pairwise l1.
Proof. unfold pairwise. naive_solver. Qed.

Lemma pairwise_step s x l : pairwise (s :: x :: l) → pairwise (f s x :: l).
Proof.
  intros H. assert (∀ c, c ∈ s :: x :: l → agree (f s x) c) as Hf.
  { intros c Hc. apply f_agree; apply H; set_solver. }
  assert (agree (f s x) (f s x)) as Hrefl.
  { apply f_agree; apply agree_sym, Hf; set_solver. }
  intros a b [->|Ha]%elem_of_cons [->|Hb]%elem_of_cons; try done.
  - apply Hf. set_solver.
  - apply agree_sym, Hf. set_solver.
  - apply H; set_solver.
Qed.

Lemma fold_perm l1 l2 s : l1 ≡ₚ l2 → pairwise (s :: l1) → foldl f s l1 = foldl f s l2.
Proof.
  intros Hp. revert s. induction Hp as [|x l1 l2 Hp IH|x y l|l1 l2 l3 H12 IH1 H23 IH2];
    intros s Hs; cbn; try done.
  - apply IH. by apply pairwise_step.
  - rewrite f_right_comm; [done|apply Hs; set_solver..].
  - rewrite IH1 by done. apply IH2. eapply pairwise_sub; [|done].
    intros z. by rewrite H12.
Qed.

Lemma fold_absorb l x s :
  x ∈ l → pairwise (s :: l) → foldl f s (l ++ [x]) = foldl f s l.
Proof.
  intros (l' & Hl)%elem_of_Permutation Hs.
  assert (pairwise (s :: l ++ [x])) as Hs'.
  { eapply pairwise_sub; [|apply Hs]. intros z. rewrite Hl. set_solver. }
  rewrite (fold_perm (l ++ [x]) (x :: x :: l')) by (done || (rewrite Hl; solve_Permutation)).
  rewrite (fold_perm l (x :: l')) by done. cbn.
  rewrite f_twice; [done|]. apply Hs; rewrite Hl; set_solver.
Qed.

Lemma fold_absorb_all l l' s :
  (∀ x, x ∈ l' → x ∈ l) → pairwise (s :: l) → foldl f s (l ++ l') = foldl f s l.
Proof.
  induction l' as [|x l' IH] using rev_ind; intros Hin Hs.
  - by rewrite app_nil_r.
  - rewrite app_assoc, fold_absorb.
    + apply IH; [set_solver|done].
    + set_solver.
    + eapply pairwise_sub; [|done]. set_solver.
Qed.

(** Neither the order nor the number of deliveries matters. *)
Lemma fold_same_elements l1 l2 s :
  (∀ x, x ∈ l1 ↔ x ∈ l2) → pairwise (s :: l1) → foldl f s l1 = foldl f s l2.
Proof.
  intros Hsame Hs.
  rewrite <- (fold_absorb_all l1 l2) by (done || naive_solver).
  rewrite <- (fold_absorb_all l2 l1).
  - apply fold_perm; [apply Permutation_app_comm|].
    eapply pairwise_sub; [|done]. set_solver.
  - naive_solver.
  - eapply pairwise_sub; [|done]. set_solver.
Qed.

Lemma fold_agree l s c :
  agree s c → (∀ x, x ∈ l → agree x c) → agree (foldl f s l) c.
Proof.
  revert s. induction l as [|x l IH]; intros s Hs Hl; cbn; [done|].
  apply IH; [apply f_agree; set_solver|set_solver].
Qed.
End fold.
