(* ===== verification/ChunkCipher.v ===== *)
(** * The chunk cipher ([core/src/crypto.rs])

    Nonce and associated data of a sealed chunk, and its sealing and opening over
    AES-256-GCM.  The cipher is the [aes_gcm] crate, a parameter; what is used of
    it are the two documented facts of an authenticated cipher. *)
From S2P Require Import Prelude.
(** [Aes256Gcm::{encrypt, decrypt}] of key, nonce, associated data and message. *)
Class Aes256Gcm : Type := {
  aes_encrypt : bytes → bytes → bytes → bytes → option bytes;
  aes_decrypt : bytes → bytes → bytes → bytes → option bytes;
}.

(** Decryption inverts encryption and accepts only what encryption makes; a sealed
    message is 16 bytes longer. *)
Class Aes256GcmLaws `{!Aes256Gcm} : Prop := {
  aes_decrypt_encrypt : ∀ k n aad m c,
    aes_encrypt k n aad m = Some c → aes_decrypt k n aad c = Some m;
  aes_encrypt_decrypt : ∀ k n aad m c,
    aes_decrypt k n aad c = Some m → aes_encrypt k n aad m = Some c;
  aes_encrypt_length : ∀ k n aad m c,
    aes_encrypt k n aad m = Some c → length c = (length m + 16)%nat;
}.

Definition CHUNK_KEY_LEN : nat := 32.
Definition CHUNK_TAG_LEN : nat := 16.

(** [chunk_nonce]: 12 bytes, the first four the index. *)
Definition chunk_nonce (index : N) : bytes :=
  u32_to_le_bytes index ++ replicate 8 Byte.x00.

(** [chunk_aad]: the chunk's position and the total count. *)
Definition chunk_aad (index total_chunks : N) : bytes :=
  u32_to_le_bytes index ++ u32_to_le_bytes total_chunks.

(** [seal_chunk]. *)
Definition seal_chunk `{!Aes256Gcm} (key : bytes) (index total_chunks : N) (plaintext : bytes)
    : result bytes string :=
  let aad := chunk_aad index total_chunks in
  context "seal chunk" (aes_encrypt key (chunk_nonce index) aad plaintext).

(** [open_chunk]. *)
Definition open_chunk `{!Aes256Gcm} (key : bytes) (index total_chunks : N) (ciphertext : bytes)
    : result bytes string :=
  let aad := chunk_aad index total_chunks in
  context "open chunk" (aes_decrypt key (chunk_nonce index) aad ciphertext).

Lemma length_chunk_nonce index : length (chunk_nonce index) = 12%nat.
Proof. unfold chunk_nonce. by rewrite length_app, length_replicate, (length_le_bytes 4). Qed.

Lemma chunk_nonce_inj i j :
  (i < 2 ^ 32)%N → (j < 2 ^ 32)%N → chunk_nonce i = chunk_nonce j → i = j.
Proof.
  intros Hi Hj H. apply u32_to_le_bytes_inj; [done..|].
  unfold chunk_nonce in H. by apply app_inv_tail in H.
Qed.

Lemma chunk_aad_inj i n j m :
  (i < 2 ^ 32)%N → (n < 2 ^ 32)%N → (j < 2 ^ 32)%N → (m < 2 ^ 32)%N →
  chunk_aad i n = chunk_aad j m → i = j ∧ n = m.
Proof.
  intros Hi Hn Hj Hm H. unfold chunk_aad in H.
  apply app_inj_1 in H as [H1 H2]; [|by rewrite !(length_le_bytes 4)].
  split; by apply u32_to_le_bytes_inj.
Qed.

Section facts.
Context `{!Aes256Gcm, !Aes256GcmLaws}.

Lemma open_seal_chunk key i n plain ct :
  seal_chunk key i n plain = Ok ct → open_chunk key i n ct = Ok plain.
Proof.
  unfold seal_chunk, open_chunk. destruct (aes_encrypt _ _ _ _) eqn:E; [|done].
  intros [= <-]. by rewrite (aes_decrypt_encrypt _ _ _ _ _ E).
Qed.

Lemma seal_open_chunk key i n plain ct :
  open_chunk key i n ct = Ok plain → seal_chunk key i n plain = Ok ct.
Proof.
  unfold seal_chunk, open_chunk. destruct (aes_decrypt _ _ _ _) eqn:E; [|done].
  intros [= <-]. by rewrite (aes_encrypt_decrypt _ _ _ _ _ E).
Qed.

Lemma length_seal_chunk key i n plain ct :
  seal_chunk key i n plain = Ok ct → length ct = (length plain + CHUNK_TAG_LEN)%nat.
Proof.
  unfold seal_chunk. destruct (aes_encrypt _ _ _ _) eqn:E; [|done].
  intros [= <-]. by apply aes_encrypt_length in E.
Qed.
End facts.

(** The nonce of a transfer key is never used twice: within one transfer the
    (nonce, associated data) pairs of two different chunks differ. *)
Theorem chunk_nonce_unique i j
    (Hi : (i < 2 ^ 32)%N) (Hj : (j < 2 ^ 32)%N) (Hne : i ≠ j) :
  chunk_nonce i ≠ chunk_nonce j ∧ length (chunk_nonce i) = 12%nat.
Proof. split; [|apply length_chunk_nonce]. intros H. by apply chunk_nonce_inj in H. Qed.
