(* ===== verification/SyncTypes.v ===== *)
(** * The address-book registers and their snapshot ([core/src/sync.rs])

    The Lamport clock, the nine registers of [SyncState], the wire form
    [SyncSnapshot], and the two conversions between them.  [u64] counters and
    stamps are [N]; a map is a [gmap] walked in [BTreeMap] order. *)
From S2P Require Import Prelude.
From S2P Require Import Crdt.
(** [data_encoding::HEXLOWER.encode], a third-party crate: a parameter. *)
Class HexLower : Type := { hexlower : bytes → string }.
(** Documented behaviour: the encoding is invertible. *)
Class HexLowerLaws `{!HexLower} : Prop := { hexlower_inj : Inj (=) (=) hexlower }.

(** ** Clocks *)

(** [[u8; 16]]: this device's random tiebreak. *)
Abbreviation DeviceId := (list Byte.byte).

Record Lamport := mkLamport { counter : N; device : DeviceId }.

#[export] Instance Lamport_eq_dec : EqDecision Lamport.
Proof. solve_decision. Defined.

(** [impl Ord for Lamport]: the counter, ties broken by the device. *)
Definition Lamport_cmp (a b : Lamport) : comparison :=
  then_with (N.compare a.(counter) b.(counter)) (bytes_cmp a.(device) b.(device)).

#[export] Instance Lamport_cmp_order : CmpOrder Lamport_cmp.
Proof.
  set (f := fun c : Lamport => (c.(counter), c.(device))).
  assert (Inj (=) (=) f) as Hinj by (intros [] []; unfold f; cbn; congruence).
  pose proof (pair_cmp_order N.compare bytes_cmp) as P.
  split.
  - intros x y. rewrite <- (inj_iff f x y). apply (@cmp_eq _ _ P (f x) (f y)).
  - intros x y. apply (@cmp_flip _ _ P (f x) (f y)).
  - intros x y z. apply (@cmp_trans _ _ P (f x) (f y) (f z)).
Qed.

Abbreviation lam_ge := (cmp_geb Lamport_cmp).
Abbreviation lam_gt := (cmp_gtb Lamport_cmp).
Abbreviation lam_eq := (cmp_eqb Lamport_cmp).

(** ** Wire rows *)

Record ContactEntry := mkContactEntry {
  ce_name : string; ce_pubkey : string; ce_clock : Lamport; ce_deleted : bool }.

Record MarkEntry := mkMarkEntry {
  me_pubkey : string; me_clock : Lamport; me_deleted : bool; me_since : N }.

Record SeenEntry := mkSeenEntry { se_pubkey : string; se_count : N; se_last : N }.

Record NameEntry := mkNameEntry {
  ne_pubkey : string; ne_pinned : string; ne_pending : option string;
  ne_clock : Lamport; ne_deleted : bool }.

Record RelayEntry := mkRelayEntry {
  re_pubkey : string; re_relay : string; re_clock : Lamport; re_deleted : bool }.

Record SelfName := mkSelfName { sn_name : string; sn_clock : Lamport }.

Record DeviceEntry := mkDeviceEntry {
  de_id : string; de_name : string; de_platform : string; de_last_seen : N;
  de_clock : Lamport; de_deleted : bool }.

(** [device_key]: a device id as it keys the device register. *)
Definition device_key `{!HexLower} (id : DeviceId) : string := hexlower id.

Record SyncSnapshot := mkSyncSnapshot {
  ss_lamport : N;
  ss_device : DeviceId;
  ss_contacts : list ContactEntry;
  ss_verified : list MarkEntry;
  ss_trusted : list MarkEntry;
  ss_seen : list SeenEntry;
  ss_names : list NameEntry;
  ss_blocked : list MarkEntry;
  ss_devices : list DeviceEntry;
  ss_relays : list RelayEntry;
  ss_self_name : option SelfName }.

(** ** Registers *)

Record ContactReg := mkContactReg {
  c_pubkey : string; c_clock : Lamport; c_deleted : bool }.

Record MarkReg := mkMarkReg { m_clock : Lamport; m_deleted : bool; m_since : N }.

Record NameReg := mkNameReg {
  n_pinned : string; n_pending : option string; n_clock : Lamport; n_deleted : bool }.

Record RelayReg := mkRelayReg { r_relay : string; r_clock : Lamport; r_deleted : bool }.

Record SeenReg := mkSeenReg { s_count : N; s_last : N }.

(** [SeenReg::default]. *)
Definition SeenReg_default : SeenReg := mkSeenReg 0 0.

Record DeviceReg := mkDeviceReg {
  d_name : string; d_platform : string; d_last_seen : N;
  d_clock : Lamport; d_deleted : bool }.

Record SyncState := mkSyncState {
  contacts : gmap string ContactReg;
  verified : gmap string MarkReg;
  trusted : gmap string MarkReg;
  seen : gmap string SeenReg;
  names : gmap string NameReg;
  blocked : gmap string MarkReg;
  relays : gmap string RelayReg;
  devices : gmap string DeviceReg;
  self_name : option SelfName }.

(** [SyncState::default]. *)
Definition SyncState_default : SyncState := mkSyncState ∅ ∅ ∅ ∅ ∅ ∅ ∅ ∅ None.

Lemma SyncState_eq s t :
  s.(contacts) = t.(contacts) → s.(verified) = t.(verified) → s.(trusted) = t.(trusted) →
  s.(seen) = t.(seen) → s.(names) = t.(names) → s.(blocked) = t.(blocked) →
  s.(relays) = t.(relays) → s.(devices) = t.(devices) → s.(self_name) = t.(self_name) →
  s = t.
Proof. destruct s, t; cbn; congruence. Qed.

(** ** Snapshot to state and back *)

(** [SyncState::from_snapshot]. *)
Definition from_snapshot (s : SyncSnapshot) : SyncState :=
  let mark m := mkMarkReg m.(me_clock) m.(me_deleted) m.(me_since) in
  {| contacts := insert_all ce_name
       (fun c => mkContactReg c.(ce_pubkey) c.(ce_clock) c.(ce_deleted)) s.(ss_contacts) ∅;
     verified := insert_all me_pubkey mark s.(ss_verified) ∅;
     trusted := insert_all me_pubkey mark s.(ss_trusted) ∅;
     blocked := insert_all me_pubkey mark s.(ss_blocked) ∅;
     seen := insert_all se_pubkey (fun e => mkSeenReg e.(se_count) e.(se_last)) s.(ss_seen) ∅;
     names := insert_all ne_pubkey
       (fun n => mkNameReg n.(ne_pinned) n.(ne_pending) n.(ne_clock) n.(ne_deleted))
       s.(ss_names) ∅;
     relays := insert_all re_pubkey
       (fun r => mkRelayReg r.(re_relay) r.(re_clock) r.(re_deleted)) s.(ss_relays) ∅;
     devices := insert_all de_id
       (fun d => mkDeviceReg d.(de_name) d.(de_platform) d.(de_last_seen) d.(de_clock)
                   d.(de_deleted)) s.(ss_devices) ∅;
     self_name := s.(ss_self_name) |}.

(** [SyncState::to_snapshot]. *)
Definition to_snapshot (s : SyncState) (lamport : N) (device : DeviceId) : SyncSnapshot :=
  let mark '(pubkey, r) := mkMarkEntry pubkey r.(m_clock) r.(m_deleted) r.(m_since) in
  {| ss_lamport := lamport;
     ss_device := device;
     ss_contacts :=
       (fun '(name, r) => mkContactEntry name r.(c_pubkey) r.(c_clock) r.(c_deleted))
       <$> btree_iter s.(contacts);
     ss_verified := mark <$> btree_iter s.(verified);
     ss_trusted := mark <$> btree_iter s.(trusted);
     ss_blocked := mark <$> btree_iter s.(blocked);
     ss_seen := (fun '(pubkey, r) => mkSeenEntry pubkey r.(s_count) r.(s_last))
       <$> btree_iter s.(seen);
     ss_names :=
       (fun '(pubkey, r) =>
          mkNameEntry pubkey r.(n_pinned) r.(n_pending) r.(n_clock) r.(n_deleted))
       <$> btree_iter s.(names);
     ss_relays :=
       (fun '(pubkey, r) => mkRelayEntry pubkey r.(r_relay) r.(r_clock) r.(r_deleted))
       <$> btree_iter s.(relays);
     ss_devices :=
       (fun '(id, r) =>
          mkDeviceEntry id r.(d_name) r.(d_platform) r.(d_last_seen) r.(d_clock) r.(d_deleted))
       <$> btree_iter s.(devices);
     ss_self_name := s.(self_name) |}.

(** Rebuilding a map of registers out of its wire rows gives the map back. *)
Lemma from_to_snapshot s lamport device : from_snapshot (to_snapshot s lamport device) = s.
Proof.
  apply SyncState_eq; cbn; try done; apply insert_all_btree_iter; done || (by intros ? []).
Qed.

(** [SyncState::max_counter]: the highest Lamport counter anywhere in the state. *)
Definition max_counter (s : SyncState) : N :=
  let values {R} (clock : R → Lamport) := for_each_max (fun r => (clock r).(counter)) in
  let m := values c_clock s.(contacts) 0%N in
  let m := values m_clock s.(verified) m in
  let m := values m_clock s.(trusted) m in
  let m := values n_clock s.(names) m in
  let m := values m_clock s.(blocked) m in
  let m := values r_clock s.(relays) m in
  let m := values d_clock s.(devices) m in
  match s.(self_name) with
  | Some r => N.max m r.(sn_clock).(counter)
  | None => m
  end.

(** [SyncState::authored_by_another_device]: the clocks of the contacts, names,
    marks, devices and the self-name, in that order. *)
Definition authored_by_another_device (s : SyncState) (mine : DeviceId) : bool :=
  let values {R} (clock : R → Lamport) (map : gmap string R) : list Lamport :=
    (fun p => clock p.2) <$> btree_iter map in
  existsb (fun c => negb (bool_decide (c.(device) = mine)))
    (values c_clock s.(contacts) ++ values n_clock s.(names)
     ++ (values m_clock s.(verified) ++ values m_clock s.(trusted) ++ values m_clock s.(blocked))
     ++ values d_clock s.(devices)
     ++ match s.(self_name) with Some r => [r.(sn_clock)] | None => [] end).
