(* ===== verification/SyncMerge.v ===== *)
(** * The merge of two address books ([core/src/sync.rs], [SyncState::merge])

    The loops of [merge], register by register, as the source writes them; each is
    shown to be the pointwise join of its register, and the laws of the whole
    merge follow from the laws of the registers. *)
From S2P Require Import Prelude.
From S2P Require Import Crdt.
From S2P Require Import SyncTypes.
(** ** The loops *)

(** The three last-writer-wins loops of [merge]: contacts, names and relays. *)
Definition merge_lww {R} (clock : R → Lamport) (into other : gmap string R) : gmap string R :=
  for_each other into (fun key incoming into =>
    match into !! key with
    | Some cur =>
        if lam_ge (clock cur) (clock incoming) then into else <[key := incoming]> into
    | None => <[key := incoming]> into
    end).

(** [merge_marks]. *)
Definition merge_marks (into other : gmap string MarkReg) : gmap string MarkReg :=
  for_each other into (fun pubkey incoming into =>
    match into !! pubkey with
    | Some cur =>
        if lam_gt cur.(m_clock) incoming.(m_clock) then into
        else if lam_eq cur.(m_clock) incoming.(m_clock) then
          if incoming.(m_deleted) && negb cur.(m_deleted)
          then <[pubkey := incoming]> into else into
        else <[pubkey := incoming]> into
    | None => <[pubkey := incoming]> into
    end).

(** [merge_devices]: a live row is only accepted from the machine it describes. *)
Definition merge_devices `{!HexLower} (into other : gmap string DeviceReg)
    : gmap string DeviceReg :=
  for_each other into (fun id incoming into =>
    if negb incoming.(d_deleted)
       && negb (bool_decide (device_key incoming.(d_clock).(device) = id)) then into
    else
      match into !! id with
      | Some cur =>
          if lam_gt cur.(d_clock) incoming.(d_clock) then into
          else if lam_eq cur.(d_clock) incoming.(d_clock) then
            if incoming.(d_deleted) && negb cur.(d_deleted)
            then <[id := incoming]> into else into
          else <[id := incoming]> into
      | None => <[id := incoming]> into
      end).

(** The [seen] loop: [entry(pubkey).or_default()], then [max] on both fields. *)
Definition merge_seen (into other : gmap string SeenReg) : gmap string SeenReg :=
  for_each other into (fun pubkey incoming into =>
    let e := default SeenReg_default (into !! pubkey) in
    <[pubkey := mkSeenReg (N.max e.(s_count) incoming.(s_count))
                          (N.max e.(s_last) incoming.(s_last))]> into).

(** The [self_name] register: [None] is no information, never a clear. *)
Definition merge_self_name (cur incoming : option SelfName) : option SelfName :=
  match incoming with
  | Some i =>
      match cur with
      | Some c => if lam_ge c.(sn_clock) i.(sn_clock) then cur else Some i
      | None => Some i
      end
  | None => cur
  end.

(** [SyncState::merge]. *)
Definition merge `{!HexLower} (self other : SyncState) : SyncState :=
  {| contacts := merge_lww c_clock self.(contacts) other.(contacts);
     verified := merge_marks self.(verified) other.(verified);
     trusted := merge_marks self.(trusted) other.(trusted);
     blocked := merge_marks self.(blocked) other.(blocked);
     seen := merge_seen self.(seen) other.(seen);
     names := merge_lww n_clock self.(names) other.(names);
     relays := merge_lww r_clock self.(relays) other.(relays);
     devices := merge_devices self.(devices) other.(devices);
     self_name := merge_self_name self.(self_name) other.(self_name) |}.

(** ** The registers *)

Definition mark_key (r : MarkReg) : Lamport * bool := (r.(m_clock), r.(m_deleted)).
Definition device_reg_key (r : DeviceReg) : Lamport * bool := (r.(d_clock), r.(d_deleted)).
Abbreviation clock_tomb_cmp := (pair_cmp Lamport_cmp bool_cmp).

#[export] Instance ContactReg_register : Register ContactReg := keyed_register c_clock Lamport_cmp.
#[export] Instance ContactReg_laws : RegisterLaws ContactReg := keyed_laws _ _.
#[export] Instance NameReg_register : Register NameReg := keyed_register n_clock Lamport_cmp.
#[export] Instance NameReg_laws : RegisterLaws NameReg := keyed_laws _ _.
#[export] Instance RelayReg_register : Register RelayReg := keyed_register r_clock Lamport_cmp.
#[export] Instance RelayReg_laws : RegisterLaws RelayReg := keyed_laws _ _.
#[export] Instance SelfName_register : Register SelfName := keyed_register sn_clock Lamport_cmp.
#[export] Instance SelfName_laws : RegisterLaws SelfName := keyed_laws _ _.
#[export] Instance MarkReg_register : Register MarkReg := keyed_register mark_key clock_tomb_cmp.
#[export] Instance MarkReg_laws : RegisterLaws MarkReg := keyed_laws _ _.
#[export] Instance DeviceReg_register : Register DeviceReg :=
  keyed_register device_reg_key clock_tomb_cmp.
#[export] Instance DeviceReg_laws : RegisterLaws DeviceReg := keyed_laws _ _.

(** The seen counters: a pointwise maximum, in which any two registers agree. *)
#[export] Instance SeenReg_register : Register SeenReg := {|
  reg_join a b := mkSeenReg (N.max a.(s_count) b.(s_count)) (N.max a.(s_last) b.(s_last));
  reg_agree _ _ := True |}.

#[export] Instance SeenReg_laws : RegisterLaws SeenReg.
Proof.
  split; cbn; try done.
  - intros []. cbn. f_equal; lia.
  - intros [] [] _. cbn. f_equal; lia.
  - intros [] [] [] _ _ _. cbn. f_equal; lia.
Qed.

(** ** Each loop is the pointwise join of its register *)

Definition accept_all {R} (_ : string) (_ : R) : bool := true.

(** The authorship rule of the device register. *)
Definition device_accept `{!HexLower} (id : string) (r : DeviceReg) : bool :=
  r.(d_deleted) || bool_decide (device_key r.(d_clock).(device) = id).

Lemma lookup_insert_at {A} (m : gmap string A) i k v :
  <[k:=v]> m !! i = if decide (i = k) then Some v else m !! i.
Proof. rewrite lookup_insert. repeat case_decide; congruence. Qed.

Lemma lookup_keep_at {A} (m : gmap string A) i k :
  m !! i = if decide (i = k) then m !! k else m !! i.
Proof. case_decide; congruence. Qed.

(** A loop body that either keeps the map or inserts at its own key. *)
Ltac solve_body :=
  intros; cbn;
  repeat first [case_bool | case_option];
  rewrite ?lookup_insert_at; try apply lookup_keep_at;
  case_decide; simplify_eq; congruence.

Lemma merge_lww_spec {R} (clock : R → Lamport) :
  @merge_spec R (keyed_register clock Lamport_cmp) accept_all (merge_lww clock).
Proof.
  intros m1 m2 k. unfold merge_lww.
  rewrite (for_each_lookup _ (fun k v cur =>
    Some (match cur with Some c => keyed_join clock Lamport_cmp c v | None => v end))).
  - done.
  - unfold keyed_join. solve_body.
Qed.

(** The source's three-way test is the order on (clock, tombstone). *)
Lemma tie_is_key_order {R} (clock : R → Lamport) (deleted : R → bool) (cur inc : R) :
  (if lam_gt (clock cur) (clock inc) then cur
   else if lam_eq (clock cur) (clock inc) then
     if deleted inc && negb (deleted cur) then inc else cur
   else inc) =
  keyed_join (fun r => (clock r, deleted r)) clock_tomb_cmp cur inc.
Proof.
  unfold keyed_join, cmp_geb, cmp_gtb, cmp_eqb, pair_cmp, then_with; cbn.
  destruct (Lamport_cmp (clock cur) (clock inc)); [|done|done].
  by destruct (deleted cur), (deleted inc).
Qed.

Definition tie_join {R} (clock : R → Lamport) (deleted : R → bool) (cur inc : R) : R :=
  if lam_gt (clock cur) (clock inc) then cur
  else if lam_eq (clock cur) (clock inc) then
    if deleted inc && negb (deleted cur) then inc else cur
  else inc.

Lemma merge_marks_spec : merge_spec accept_all merge_marks.
Proof.
  intros m1 m2 k. unfold merge_marks.
  rewrite (for_each_lookup _ (fun k v cur =>
    Some (match cur with Some c => tie_join m_clock m_deleted c v | None => v end))).
  - destruct (m2 !! k), (m1 !! k); try done. cbn. f_equal. apply tie_is_key_order.
  - unfold tie_join. solve_body.
Qed.

Lemma merge_devices_spec `{!HexLower} : merge_spec device_accept merge_devices.
Proof.
  intros m1 m2 k. unfold merge_devices.
  rewrite (for_each_lookup _ (fun k v cur =>
    if device_accept k v then
      Some (match cur with Some c => tie_join d_clock d_deleted c v | None => v end)
    else cur)).
  - destruct (m2 !! k), (m1 !! k); try done. cbn. unfold join_at.
    case_bool; [|done]. f_equal. apply tie_is_key_order.
  - unfold device_accept, tie_join. intros k' v.
    destruct (d_deleted v), (bool_decide _); cbn; solve_body.
Qed.

Lemma merge_seen_spec : merge_spec accept_all merge_seen.
Proof.
  intros m1 m2 k. unfold merge_seen.
  rewrite (for_each_lookup _ (fun k v cur =>
    Some (match cur with Some c => reg_join c v | None => v end))).
  - done.
  - intros k' v m' i. rewrite lookup_insert_at. case_decide; [|done].
    f_equal. destruct (m' !! k') as [c|]; [done|]. destruct v; cbn. f_equal; lia.
Qed.

#[export] Hint Resolve merge_marks_spec merge_devices_spec merge_seen_spec merge_lww_spec : arvolo.
