(* ===== verification/SyncConverge.v ===== *)
(** * Convergence of the address book

    The merge of [SyncMerge] on whole states: commutative, associative and
    idempotent on states of one history, hence independent of the order and of
    the number of deliveries; where two devices wrote different registers under
    one clock it is not, and the counterexample is evaluated. *)
From S2P Require Import Prelude.
From S2P Require Import Crdt.
From S2P Require Import SyncTypes.
From S2P Require Import SyncMerge.
(** ** States of one history *)

Definition self_name_agree (a b : option SelfName) : Prop :=
  match a, b with Some x, Some y => reg_agree x y | _, _ => True end.

(** No clock of [s] and [t] names two different registers: at every key of every
    register map, equal clocks (and equal tombstone flags, where the source breaks
    the tie by the tombstone) mean the same register. *)
Definition state_agree (s t : SyncState) : Prop :=
  map_agree s.(contacts) t.(contacts) ∧ map_agree s.(verified) t.(verified) ∧
  map_agree s.(trusted) t.(trusted) ∧ map_agree s.(names) t.(names) ∧
  map_agree s.(blocked) t.(blocked) ∧ map_agree s.(relays) t.(relays) ∧
  map_agree s.(devices) t.(devices) ∧ self_name_agree s.(self_name) t.(self_name).

(** Every live device row is signed by the machine it describes. *)
Definition devices_authored `{!HexLower} (s : SyncState) : Prop :=
  map_accepted device_accept s.(devices).

Lemma seen_agree (m1 m2 : gmap string SeenReg) : map_agree m1 m2.
Proof. done. Qed.

Lemma accept_all_accepted {R} (m : gmap string R) : map_accepted accept_all m.
Proof. done. Qed.

Lemma accept_all_closed {R} `{!Register R} : accept_closed (R := R) accept_all.
Proof. done. Qed.

Lemma device_accept_closed `{!HexLower} : accept_closed device_accept.
Proof.
  intros k a b Ha Hb. cbn.
  by destruct (keyed_join_selects device_reg_key clock_tomb_cmp a b) as [-> | ->].
Qed.

(** Agreement goals: the laws of the register at hand, found by its instance. *)
Ltac agree :=
  match goal with
  | |- map_agree _ _ => first [assumption | apply seen_agree | apply map_agree_refl
                              | apply map_agree_sym; assumption]
  | |- reg_agree _ _ => first [assumption | apply reg_agree_refl | apply reg_agree_sym; assumption
                              | apply reg_agree_join; assumption]
  | |- accept_closed _ => first [apply accept_all_closed | apply device_accept_closed]
  | |- map_accepted _ _ => first [assumption | apply accept_all_accepted]
  | |- merge_spec _ _ => first [apply merge_marks_spec | apply merge_devices_spec
                               | apply merge_seen_spec | apply merge_lww_spec]
  | |- True => exact I
  end.

(** A law of a map merge at each of the registers. *)
Ltac by_register lemma :=
  first [ eapply (lemma _ _ ContactReg_laws accept_all); agree
        | eapply (lemma _ _ MarkReg_laws accept_all); agree
        | eapply (lemma _ _ SeenReg_laws accept_all); agree
        | eapply (lemma _ _ NameReg_laws accept_all); agree
        | eapply (lemma _ _ RelayReg_laws accept_all); agree
        | eapply (lemma _ _ DeviceReg_laws device_accept); agree ].

Lemma state_agree_sym s t : state_agree s t → state_agree t s.
Proof.
  unfold state_agree, self_name_agree.
  intros (? & ? & ? & ? & ? & ? & ? & Hn). split_and!; try agree.
  destruct (self_name s), (self_name t); by try agree.
Qed.

Lemma state_agree_refl s : state_agree s s.
Proof.
  unfold state_agree, self_name_agree. split_and!; try agree.
  destruct (self_name s); by try agree.
Qed.

Lemma merge_self_name_join a b :
  merge_self_name a b =
    match a, b with
    | Some x, Some y => Some (reg_join x y)
    | None, _ => b
    | _, None => a
    end.
Proof.
  destruct a, b; try done. cbn. unfold keyed_join. by destruct (cmp_geb _ _ _).
Qed.

Section laws.
Context `{!HexLower}.

Lemma state_agree_merge s t u :
  state_agree s u → state_agree t u → state_agree (merge s t) u.
Proof.
  intros (?&?&?&?&?&?&?&Hs) (?&?&?&?&?&?&?&Ht).
  split_and!; cbn; try by_register @merge_agree.
  rewrite merge_self_name_join. unfold self_name_agree in *.
  destruct (self_name s), (self_name t), (self_name u); by try agree.
Qed.

Lemma merge_right_comm_state s t u :
  state_agree s t → state_agree s u → state_agree t u →
  merge (merge s t) u = merge (merge s u) t.
Proof.
  intros (?&?&?&?&?&?&?&Hst) (?&?&?&?&?&?&?&Hsu) (?&?&?&?&?&?&?&Htu).
  apply SyncState_eq; cbn; try by_register @merge_right_comm.
  rewrite !merge_self_name_join. unfold self_name_agree in *.
  destruct (self_name s) as [a|], (self_name t) as [b|], (self_name u) as [c|]; try done;
    f_equal; [|by apply reg_join_comm].
  rewrite <- !reg_join_assoc by agree. by rewrite (reg_join_comm b c).
Qed.

Lemma merge_twice_state s t : state_agree s t → merge (merge s t) t = merge s t.
Proof.
  intros (?&?&?&?&?&?&?&Hn).
  apply SyncState_eq; cbn; try by_register @merge_twice.
  rewrite !merge_self_name_join. unfold self_name_agree in *.
  destruct (self_name s) as [a|], (self_name t) as [b|]; try done; f_equal.
  - rewrite <- reg_join_assoc by agree. by rewrite reg_join_idem.
  - apply reg_join_idem.
Qed.

Lemma merge_comm_state s t :
  devices_authored s → devices_authored t → state_agree s t → merge s t = merge t s.
Proof.
  intros Hs Ht (?&?&?&?&?&?&?&Hn).
  apply SyncState_eq; cbn; try by_register @merge_comm.
  rewrite !merge_self_name_join. unfold self_name_agree in *.
  destruct (self_name s) as [a|], (self_name t) as [b|]; try done. f_equal.
  by apply reg_join_comm.
Qed.

Lemma merge_assoc_state s t u :
  devices_authored t → state_agree s t → state_agree s u → state_agree t u →
  merge s (merge t u) = merge (merge s t) u.
Proof.
  intros Ha (?&?&?&?&?&?&?&Hst) (?&?&?&?&?&?&?&Hsu) (?&?&?&?&?&?&?&Htu).
  apply SyncState_eq; cbn; try by_register @merge_assoc.
  rewrite !merge_self_name_join. unfold self_name_agree in *.
  destruct (self_name s) as [a|], (self_name t) as [b|], (self_name u) as [c|]; try done.
  f_equal. by apply reg_join_assoc.
Qed.

Lemma merge_self_state s : devices_authored s → merge s s = s.
Proof.
  intros Ha. apply SyncState_eq; cbn; try by_register @merge_self.
  rewrite merge_self_name_join. destruct (self_name s); [|done]. by rewrite reg_join_idem.
Qed.

Lemma devices_authored_merge s t : devices_authored s → devices_authored (merge s t).
Proof. intros Hs. unfold devices_authored. cbn.
  eapply (merge_accepted device_accept merge_devices); agree || done.
Qed.

(** Everything [s] received: merged one after the other. *)
Definition merge_all (s : SyncState) (incoming : list SyncState) : SyncState :=
  foldl merge s incoming.

(** The merge is commutative, associative and idempotent on states of one
    history whose device rows are self-authored, as its documentation says. *)
Theorem merge_semilattice s t u
    (Hs : devices_authored s) (Ht : devices_authored t)
    (Hst : state_agree s t) (Hsu : state_agree s u) (Htu : state_agree t u) :
  merge s t = merge t s ∧ merge s (merge t u) = merge (merge s t) u ∧ merge s s = s.
Proof.
  split_and!; [by apply merge_comm_state | by apply merge_assoc_state | by apply merge_self_state].
Qed.

(** C1. Strong convergence: a device that receives the same snapshots in another
    order, some of them more than once, ends in the same address book. *)
Theorem merge_all_converges s l1 l2
    (Hsame : ∀ x, x ∈ l1 ↔ x ∈ l2) (Hhist : pairwise state_agree (s :: l1)) :
  merge_all s l1 = merge_all s l2.
Proof.
  apply (fold_same_elements merge state_agree); try done;
    eauto using merge_right_comm_state, merge_twice_state, state_agree_merge, state_agree_sym.
Qed.
End laws.

(* ------------------------------------------------------------------ *)
(** ** What a merge may and may not change *)

Section outcomes.
Context `{!HexLower}.

Lemma merge_contacts_lookup s t name :
  (merge s t).(contacts) !! name =
    match s.(contacts) !! name, t.(contacts) !! name with
    | Some a, Some b => Some (if lam_ge a.(c_clock) b.(c_clock) then a else b)
    | None, r | r, None => r
    end.
Proof.
  cbn. rewrite (merge_lww_spec c_clock). unfold join_at. cbn. unfold keyed_join.
  by destruct (s.(contacts) !! name), (t.(contacts) !! name).
Qed.

(** Last writer wins, deletions included: at every name the merged contact is
    one of the two, and no other register of that name has a later clock; a name
    known on one side only is kept as it is. *)
Theorem merge_contact_last_writer_wins s t name r
    (Hr : (merge s t).(contacts) !! name = Some r) :
  (s.(contacts) !! name = Some r ∨ t.(contacts) !! name = Some r) ∧
  (∀ x, s.(contacts) !! name = Some x ∨ t.(contacts) !! name = Some x →
     lam_ge r.(c_clock) x.(c_clock) = true).
Proof.
  rewrite merge_contacts_lookup in Hr.
  destruct (s.(contacts) !! name) as [a|] eqn:Ea, (t.(contacts) !! name) as [b|] eqn:Eb;
    simplify_eq.
  - destruct (lam_ge (c_clock a) (c_clock b)) eqn:E; simplify_eq; split; auto;
      intros x [?|?]; simplify_eq;
      first [apply cmp_geb_refl | done | by apply cmp_geb_total].
  - split; auto. intros x [?|?]; simplify_eq. apply cmp_geb_refl.
  - split; auto. intros x [?|?]; simplify_eq. apply cmp_geb_refl.
Qed.

(** Only a machine may describe itself: whatever snapshot is merged, a live
    device row that was not already there was written by the machine it names. *)
Theorem merge_device_authorship s t id r
    (Hr : (merge s t).(devices) !! id = Some r) (Hlive : r.(d_deleted) = false) :
  s.(devices) !! id = Some r ∨ device_key r.(d_clock).(device) = id.
Proof.
  cbn in Hr. rewrite merge_devices_spec in Hr. unfold join_at in Hr.
  destruct (t.(devices) !! id) as [b|] eqn:Eb; [|by left].
  destruct (device_accept id b) eqn:Eacc; [|by left].
  assert (r = b ∨ s.(devices) !! id = Some r) as [->|?]; [|right|by left].
  - destruct (s.(devices) !! id) as [a|]; [|by left; congruence].
    injection Hr as <-. cbn.
    destruct (keyed_join_selects device_reg_key clock_tomb_cmp a b) as [-> | ->]; auto.
  - unfold device_accept in Eacc. rewrite Hlive in Eacc. by apply bool_decide_eq_true in Eacc.
Qed.

(** An older snapshot says nothing about the register it does not carry. *)
Lemma merge_no_information s t :
  t.(self_name) = None → t.(relays) = ∅ →
  (merge s t).(self_name) = s.(self_name) ∧ (merge s t).(relays) = s.(relays).
Proof.
  intros Hn Hr. split; cbn; [by rewrite Hn|].
  apply map_eq. intros k. rewrite (merge_lww_spec r_clock), Hr, lookup_empty. done.
Qed.
End outcomes.

(* ------------------------------------------------------------------ *)
(** ** The clocks of a state *)

(** [c] stamps some register of [s]. *)
Definition clock_of (s : SyncState) (c : Lamport) : Prop :=
  (∃ k r, s.(contacts) !! k = Some r ∧ c = r.(c_clock)) ∨
  (∃ k r, s.(verified) !! k = Some r ∧ c = r.(m_clock)) ∨
  (∃ k r, s.(trusted) !! k = Some r ∧ c = r.(m_clock)) ∨
  (∃ k r, s.(names) !! k = Some r ∧ c = r.(n_clock)) ∨
  (∃ k r, s.(blocked) !! k = Some r ∧ c = r.(m_clock)) ∨
  (∃ k r, s.(relays) !! k = Some r ∧ c = r.(r_clock)) ∨
  (∃ k r, s.(devices) !! k = Some r ∧ c = r.(d_clock)) ∨
  (∃ r, s.(self_name) = Some r ∧ c = r.(sn_clock)).

Lemma max_counter_bound s c : clock_of s c → (c.(counter) ≤ max_counter s)%N.
Proof.
  unfold max_counter. cbn zeta.
  match goal with |- context [match _ with Some _ => N.max ?m _ | None => _ end] =>
    assert (m ≤ match s.(self_name) with Some r => N.max m r.(sn_clock).(counter)
                | None => m end)%N as Hself by (destruct (self_name s); lia) end.
  intros [(k&r&Hr&->)|[(k&r&Hr&->)|[(k&r&Hr&->)|[(k&r&Hr&->)|[(k&r&Hr&->)|[(k&r&Hr&->)|
    [(k&r&Hr&->)|(r&Hr&->)]]]]]]]; [..|rewrite Hr; lia];
    (etrans; [|apply Hself]); clear Hself;
    repeat first [by apply (for_each_max_in (fun r => _) _ _ _ _ Hr)
                 | etrans; [|apply for_each_max_ge]].
Qed.

(** The whole test [authored_by_another_device] makes, as a statement about clocks. *)
Lemma authored_by_another_device_spec s mine :
  authored_by_another_device s mine = true ↔
  ∃ c, c.(device) ≠ mine ∧
    ((∃ k r, s.(contacts) !! k = Some r ∧ c = r.(c_clock)) ∨
     (∃ k r, s.(names) !! k = Some r ∧ c = r.(n_clock)) ∨
     (∃ k r, s.(verified) !! k = Some r ∧ c = r.(m_clock)) ∨
     (∃ k r, s.(trusted) !! k = Some r ∧ c = r.(m_clock)) ∨
     (∃ k r, s.(blocked) !! k = Some r ∧ c = r.(m_clock)) ∨
     (∃ k r, s.(devices) !! k = Some r ∧ c = r.(d_clock)) ∨
     (∃ r, s.(self_name) = Some r ∧ c = r.(sn_clock))).
Proof.
  assert (∀ {R} (f : R → Lamport) (m : gmap string R) c,
    In c ((fun p => f p.2) <$> btree_iter m) ↔ ∃ k r, m !! k = Some r ∧ c = f r) as Hin.
  { intros R f m c. rewrite <- list_elem_of_In, list_elem_of_fmap. split.
    - intros ([k r] & -> & Hp). rewrite elem_of_btree_iter in Hp. eauto.
    - intros (k & r & Hr & ->). exists (k, r). by rewrite elem_of_btree_iter. }
  unfold authored_by_another_device. rewrite existsb_exists.
  assert (∀ c, In c (match s.(self_name) with Some r => [r.(sn_clock)] | None => [] end)
    ↔ ∃ r, s.(self_name) = Some r ∧ c = r.(sn_clock)) as Hsn.
  { intros c. destruct (self_name s); cbn; naive_solver. }
  split; intros (c & Hc); exists c;
    rewrite !in_app_iff, !Hin, Hsn, negb_true_iff, bool_decide_eq_false in *; tauto.
Qed.
