(* ===== verification/SyncCodec.v ===== *)
(** * Snapshots on disk and on the wire ([core/src/sync.rs])

    The serialised snapshot with its three older shapes, the pairing payload, and
    the salted sealing of a snapshot.  [postcard] and [blake3] are third-party:
    their functions are parameters, with their round trips as laws. *)
From S2P Require Import Prelude.
From S2P Require Import Crdt.
From S2P Require Import ChunkCipher.
From S2P Require Import SyncTypes.
From S2P Require Import SyncMerge.
From S2P Require Import SyncConverge.
Local Open Scope arvolo_scope.

(** ** The shapes a snapshot has had *)

Record SeenEntryV0 := mkSeenEntryV0 { se0_pubkey : string; se0_count : N }.

Record SyncSnapshotV0 := mkSyncSnapshotV0 {
  v0_lamport : N; v0_device : DeviceId; v0_contacts : list ContactEntry;
  v0_verified : list MarkEntry; v0_trusted : list MarkEntry; v0_seen : list SeenEntryV0;
  v0_names : list NameEntry; v0_blocked : list MarkEntry; v0_devices : list DeviceEntry }.

Record SyncSnapshotV1 := mkSyncSnapshotV1 {
  v1_lamport : N; v1_device : DeviceId; v1_contacts : list ContactEntry;
  v1_verified : list MarkEntry; v1_trusted : list MarkEntry; v1_seen : list SeenEntry;
  v1_names : list NameEntry; v1_blocked : list MarkEntry; v1_devices : list DeviceEntry }.

Record SyncSnapshotV2 := mkSyncSnapshotV2 {
  v2_lamport : N; v2_device : DeviceId; v2_contacts : list ContactEntry;
  v2_verified : list MarkEntry; v2_trusted : list MarkEntry; v2_seen : list SeenEntry;
  v2_names : list NameEntry; v2_blocked : list MarkEntry; v2_devices : list DeviceEntry;
  v2_relays : list RelayEntry }.

(** [impl From<SyncSnapshotV0> for SyncSnapshot]. *)
Definition from_v0 (v : SyncSnapshotV0) : SyncSnapshot := {|
  ss_lamport := v.(v0_lamport); ss_device := v.(v0_device);
  ss_contacts := v.(v0_contacts); ss_verified := v.(v0_verified);
  ss_trusted := v.(v0_trusted);
  ss_seen := (fun e => mkSeenEntry e.(se0_pubkey) e.(se0_count) 0) <$> v.(v0_seen);
  ss_names := v.(v0_names); ss_blocked := v.(v0_blocked); ss_devices := v.(v0_devices);
  ss_relays := []; ss_self_name := None |}.

(** [impl From<SyncSnapshotV1> for SyncSnapshot]. *)
Definition from_v1 (v : SyncSnapshotV1) : SyncSnapshot := {|
  ss_lamport := v.(v1_lamport); ss_device := v.(v1_device);
  ss_contacts := v.(v1_contacts); ss_verified := v.(v1_verified);
  ss_trusted := v.(v1_trusted); ss_seen := v.(v1_seen);
  ss_names := v.(v1_names); ss_blocked := v.(v1_blocked); ss_devices := v.(v1_devices);
  ss_relays := []; ss_self_name := None |}.

(** [impl From<SyncSnapshotV2> for SyncSnapshot]. *)
Definition from_v2 (v : SyncSnapshotV2) : SyncSnapshot := {|
  ss_lamport := v.(v2_lamport); ss_device := v.(v2_device);
  ss_contacts := v.(v2_contacts); ss_verified := v.(v2_verified);
  ss_trusted := v.(v2_trusted); ss_seen := v.(v2_seen);
  ss_names := v.(v2_names); ss_blocked := v.(v2_blocked); ss_devices := v.(v2_devices);
  ss_relays := v.(v2_relays); ss_self_name := None |}.

Record PairPayload := mkPairPayload { pp_identity_secret : bytes; pp_snapshot : SyncSnapshot }.

(** ** [postcard] *)

Class Postcard : Type := {
  postcard_to_vec : SyncSnapshot → option bytes;
  postcard_snapshot : bytes → option SyncSnapshot;
  postcard_v2 : bytes → option SyncSnapshotV2;
  postcard_v1 : bytes → option SyncSnapshotV1;
  postcard_v0 : bytes → option SyncSnapshotV0;
  postcard_pair_to_vec : PairPayload → option bytes;
  postcard_pair : bytes → option PairPayload;
  (** [take_from_bytes::<[u8; 32]>]. *)
  postcard_take_secret : bytes → option (bytes * bytes);
}.

(** What is serialised reads back. *)
Class PostcardLaws `{!Postcard} : Prop := {
  postcard_snapshot_to_vec : ∀ s b, postcard_to_vec s = Some b → postcard_snapshot b = Some s;
  postcard_pair_pair_to_vec : ∀ p b, postcard_pair_to_vec p = Some b → postcard_pair b = Some p;
}.

Section codec.
Context `{!Postcard}.

(** [encode_snapshot]. *)
Definition encode_snapshot (snap : SyncSnapshot) : result bytes string :=
  context "serialize sync snapshot" (postcard_to_vec snap).

(** [decode_snapshot]: newest shape first. *)
Definition decode_snapshot (b : bytes) : result SyncSnapshot string :=
  match postcard_snapshot b with
  | Some snap => Ok snap
  | None =>
      match postcard_v2 b with
      | Some v2 => Ok (from_v2 v2)
      | None =>
          match postcard_v1 b with
          | Some v1 => Ok (from_v1 v1)
          | None =>
              try! v0 := context "deserialize sync snapshot" (postcard_v0 b) in
              Ok (from_v0 v0)
          end
      end
  end.

(** [PairPayload::encode]. *)
Definition PairPayload_encode (p : PairPayload) : result bytes string :=
  context "serialize pair payload" (postcard_pair_to_vec p).

(** [PairPayload::decode]. *)
Definition PairPayload_decode (b : bytes) : result PairPayload string :=
  match postcard_pair b with
  | Some p => Ok p
  | None =>
      try! (identity_secret, rest) :=
        context "deserialize pair payload" (postcard_take_secret b) in
      try! snapshot := decode_snapshot rest in
      Ok (mkPairPayload identity_secret snapshot)
  end.
End codec.

(** ** Sealing *)

(** [blake3::derive_key]: context string, key material. *)
Class Blake3Kdf : Type := { derive_key : string → bytes → bytes }.

Definition SNAPSHOT_KEY_CONTEXT : string := "arvolo/contacts-sync/key/v1".
Definition SALTED_MAGIC : bytes := [Byte.x41; Byte.x53; Byte.x53; Byte.x31]. (* "ASS1" *)
Definition SALT_LEN : nat := 16.
Definition MESSAGE_KEY_CONTEXT : string := "arvolo/contacts-sync/message-key/v1".

Section sealing.
Context `{!Blake3Kdf, !Aes256Gcm}.

(** [snapshot_key]. *)
Definition snapshot_key (identity_secret : bytes) : bytes :=
  derive_key SNAPSHOT_KEY_CONTEXT identity_secret.

(** [seal_under]; [salt] is the fresh [rand::random()]. *)
Definition seal_under (salt key plain : bytes) : result bytes string :=
  let input := key ++ salt in
  let message_key := derive_key MESSAGE_KEY_CONTEXT input in
  try! sealed := seal_chunk message_key 0 1 plain in
  Ok (SALTED_MAGIC ++ salt ++ sealed).

(** [open_under]: the salted shape, else the unsalted one written before it. *)
Definition open_under (key blob : bytes) : result bytes string :=
  let unsalted := context "decrypt sync payload" (result_ok (open_chunk key 0 1 blob)) in
  match strip_prefix SALTED_MAGIC blob with
  | Some rest =>
      if (SALT_LEN <? length rest)%nat then
        let '(salt, ct) := split_at SALT_LEN rest in
        let input := key ++ salt in
        let message_key := derive_key MESSAGE_KEY_CONTEXT input in
        match open_chunk message_key 0 1 ct with
        | Ok plain => Ok plain
        | Err _ => unsalted
        end
      else unsalted
  | None => unsalted
  end.

Context `{!Postcard}.

(** [encrypt_snapshot]. *)
Definition encrypt_snapshot (salt key : bytes) (snap : SyncSnapshot) : result bytes string :=
  try! plain := context "serialize sync snapshot" (postcard_to_vec snap) in
  seal_under salt key plain.

(** [decrypt_snapshot]. *)
Definition decrypt_snapshot (key blob : bytes) : result SyncSnapshot string :=
  try! plain := context "decrypt sync snapshot" (result_ok (open_under key blob)) in
  decode_snapshot plain.
End sealing.

(* ------------------------------------------------------------------ *)
(** ** Round trips *)

Section roundtrips.
Context `{!Postcard, !PostcardLaws}.

Lemma decode_encode_snapshot snap b :
  encode_snapshot snap = Ok b → decode_snapshot b = Ok snap.
Proof.
  unfold encode_snapshot, decode_snapshot, context.
  destruct (postcard_to_vec snap) eqn:E; [|done]. intros [= <-].
  by rewrite (postcard_snapshot_to_vec _ _ E).
Qed.

(** A paired device reads back the identity and the address book it was sent. *)
Theorem PairPayload_roundtrip p b (Henc : PairPayload_encode p = Ok b) :
  PairPayload_decode b = Ok p.
Proof.
  unfold PairPayload_encode, PairPayload_decode, context in *.
  destruct (postcard_pair_to_vec p) eqn:E; [|done]. injection Henc as <-.
  by rewrite (postcard_pair_pair_to_vec _ _ E).
Qed.

(** What a decoded snapshot is, when the current shape did not read it: the
    fields the older shape lacks are absent, never cleared. *)
Lemma decode_old_shape b snap :
  decode_snapshot b = Ok snap → postcard_snapshot b = None →
  snap.(ss_self_name) = None ∧
  (postcard_v2 b = None → snap.(ss_relays) = []) ∧
  (postcard_v2 b = None → postcard_v1 b = None →
     ∀ e, e ∈ snap.(ss_seen) → e.(se_last) = 0%N).
Proof.
  unfold decode_snapshot. intros Hd Hnew. rewrite Hnew in Hd.
  destruct (postcard_v2 b) as [v2|]; [by simplify_eq/=|].
  destruct (postcard_v1 b) as [v1|]; [by simplify_eq/=|].
  destruct (postcard_v0 b) as [v0|]; cbn in Hd; simplify_eq; cbn.
  split_and!; try done. intros _ _ e (x & -> & _)%list_elem_of_fmap. done.
Qed.
End roundtrips.

Section crypto_roundtrips.
Context `{!Blake3Kdf, !Aes256Gcm, !Aes256GcmLaws}.

Lemma open_seal_under salt key plain blob :
  length salt = SALT_LEN → seal_under salt key plain = Ok blob →
  open_under key blob = Ok plain.
Proof.
  unfold seal_under. intros Hsalt.
  destruct (seal_chunk _ _ _ _) as [sealed|e] eqn:E; [|done]. intros [= <-].
  unfold open_under. cbn zeta.
  replace (strip_prefix SALTED_MAGIC _) with (Some (salt ++ sealed))
    by (symmetry; apply (strip_prefix_app SALTED_MAGIC)).
  pose proof (length_seal_chunk _ _ _ _ _ E) as Hlen. unfold CHUNK_TAG_LEN in Hlen.
  rewrite (proj2 (Nat.ltb_lt _ _)) by (rewrite length_app; lia).
  unfold split_at. rewrite <- Hsalt, take_app_length, drop_app_length.
  by rewrite (open_seal_chunk _ _ _ _ _ E).
Qed.

(** A note sealed before salts existed still opens, unless it happens to open
    as a salted one. *)
Theorem open_unsalted key plain blob
    (Hseal : seal_chunk key 0 1 plain = Ok blob)
    (Hnotsalted : ∀ rest, strip_prefix SALTED_MAGIC blob = Some rest →
       open_chunk (derive_key MESSAGE_KEY_CONTEXT (key ++ take SALT_LEN rest)) 0 1
         (drop SALT_LEN rest) = Err "open chunk") :
  open_under key blob = Ok plain.
Proof.
  unfold open_under. rewrite (open_seal_chunk _ _ _ _ _ Hseal). cbn [result_ok context].
  destruct (strip_prefix SALTED_MAGIC blob) as [rest|]; [|done].
  case_bool; [|done]. cbv beta iota zeta delta [split_at].
  by rewrite (Hnotsalted rest eq_refl).
Qed.

Context `{!Postcard, !PostcardLaws}.

(** What one device encrypts, another device of the same identity decrypts to
    the same snapshot, and rebuilds the same state. *)
Theorem snapshot_crypto_roundtrip salt key state lamport device blob
    (Hsalt : length salt = SALT_LEN)
    (Henc : encrypt_snapshot salt key (to_snapshot state lamport device) = Ok blob) :
  ∃ snap, decrypt_snapshot key blob = Ok snap ∧
    from_snapshot snap = state ∧ snap.(ss_lamport) = lamport.
Proof.
  unfold encrypt_snapshot, decrypt_snapshot, context in *.
  destruct (postcard_to_vec _) as [plain|] eqn:E; [|done]. cbn in Henc.
  rewrite (open_seal_under _ _ _ _ Hsalt Henc). cbn.
  unfold decode_snapshot. rewrite (postcard_snapshot_to_vec _ _ E).
  eexists. split_and!; [done|apply from_to_snapshot|done].
Qed.
End crypto_roundtrips.

(** A device that predates a register cannot erase it: merging a snapshot that
    only an older shape reads leaves the display name as it is, and the relays too
    when that shape had none. *)
Theorem old_snapshot_erases_nothing `{!HexLower, !Postcard} b snap s
    (Hdec : decode_snapshot b = Ok snap) (Hold : postcard_snapshot b = None) :
  (merge s (from_snapshot snap)).(self_name) = s.(self_name) ∧
  (postcard_v2 b = None →
     (merge s (from_snapshot snap)).(relays) = s.(relays)).
Proof.
  destruct (decode_old_shape b snap Hdec Hold) as (Hn & Hr & _). split.
  - cbn. by rewrite Hn.
  - intros H2. apply map_eq. intros k. cbn. rewrite (merge_lww_spec r_clock).
    rewrite (Hr H2). cbn. by rewrite lookup_empty.
Qed.
