(* ===== verification/Stamps.v ===== *)
(** * Stamping loops

    The loop every register of the address book is reconciled with
    ([engine/src/book/sync_bridge.rs]): walk some entries, and where one needs it
    tick the Lamport counter and insert a register under the new clock. *)
From S2P Require Import Prelude.
From S2P Require Import SyncTypes.
Local Open Scope N_scope.

(** [*lamport += 1] on a [u64] (release arithmetic: it wraps). *)
Definition tick (lamport : N) : N := (lamport + 1) mod 2 ^ 64.

Section stamp.
Context {V R : Type}.
(** Whether the entry needs a new register, and that register under a clock;
    both may look at the current one. *)
Context (need : string → V → option R → bool) (mk : string → V → option R → Lamport → R).
Context (device : DeviceId).

Definition stamp_step (acc : gmap string R * N) (p : string * V) : gmap string R * N :=
  let '(state, lamport) := acc in
  let '(k, v) := p in
  if need k v (state !! k) then
    let lamport := tick lamport in
    (<[k := mk k v (state !! k) (mkLamport lamport device)]> state, lamport)
  else acc.

Definition stamp_loop (l : list (string * V)) (state : gmap string R) (lamport : N)
    : gmap string R * N :=
  foldl stamp_step (state, lamport) l.

Lemma tick_small lamport : lamport + 1 < 2 ^ 64 → tick lamport = lamport + 1.
Proof. intros H. unfold tick. by apply N.mod_small. Qed.

(** What the loop does at each key, and to the counter. *)
Lemma stamp_loop_spec l state lamport :
  NoDup l.*1 → lamport + N.of_nat (length l) < 2 ^ 64 →
  let r := stamp_loop l state lamport in
  lamport ≤ r.2 ≤ lamport + N.of_nat (length l) ∧
  (∀ j, match list_to_map (M := gmap string V) l !! j with
        | Some v =>
            if need j v (state !! j)
            then ∃ c, lamport < c ≤ r.2 ∧
                   r.1 !! j = Some (mk j v (state !! j) (mkLamport c device))
            else r.1 !! j = state !! j
        | None => r.1 !! j = state !! j
        end).
Proof.
  revert state lamport. induction l as [|[k v] l IH]; intros state lamport Hnd Hlt.
  { cbn. split; [lia|]. intros j. by rewrite lookup_empty. }
  apply NoDup_cons in Hnd as [Hk Hnd]. cbn [length] in *.
  assert (list_to_map (M := gmap string V) l !! k = None) as Hkl
    by by apply not_elem_of_list_to_map_1.
  unfold stamp_loop. cbn [foldl stamp_step].
  destruct (need k v (state !! k)) eqn:En.
  - rewrite (tick_small lamport) by lia.
    destruct (IH (<[k:=mk k v (state !! k) (mkLamport (lamport + 1) device)]> state)
                (lamport + 1) Hnd ltac:(lia)) as [Hc Hj].
    fold (stamp_loop l (<[k:=mk k v (state !! k) (mkLamport (lamport + 1) device)]> state)
            (lamport + 1)).
    split; [lia|]. intros j. cbn [list_to_map foldr]. specialize (Hj j).
    destruct (decide (j = k)) as [->|Hne].
    + cbn. rewrite lookup_insert_eq, En. rewrite Hkl in Hj.
      rewrite Hj, lookup_insert_eq. exists (lamport + 1). split; [lia|done].
    + cbn. rewrite lookup_insert_ne by congruence. rewrite lookup_insert_ne in Hj by congruence.
      destruct (_ !! j) as [v'|]; [|done].
      destruct (need j v' (state !! j)); [|done].
      destruct Hj as (c & Hc' & Hr). exists c. split; [lia|done].
  - destruct (IH state lamport Hnd ltac:(lia)) as [Hc Hj].
    fold (stamp_loop l state lamport). split; [lia|]. intros j. specialize (Hj j).
    destruct (decide (j = k)) as [->|Hne].
    + cbn. rewrite lookup_insert_eq, En. by rewrite Hkl in Hj.
    + cbn. by rewrite lookup_insert_ne by congruence.
Qed.

(** Nothing to do: no tick, no change. *)
Lemma stamp_loop_idle l state lamport :
  (∀ k v, (k, v) ∈ l → need k v (state !! k) = false) →
  stamp_loop l state lamport = (state, lamport).
Proof.
  unfold stamp_loop. induction l as [|[k v] l IH]; intros H; cbn; [done|].
  rewrite (H k v) by set_solver. apply IH. set_solver.
Qed.
End stamp.

(* ------------------------------------------------------------------ *)
(** ** Reconciling a register map with a ledger

    The shape of [build_local_snapshot] for every register that carries a
    tombstone: a first loop over the ledger stamps what the ledger has and the
    state does not show; a second loop, over the live registers the ledger no
    longer has, stamps tombstones. *)

Section reconcile.
Context {V R : Type}.
Context (deleted : R → bool) (clock : R → Lamport).
(** Whether a ledger row counts as present, and whether a register shows it. *)
Context (present : V → bool) (shows : V → R → bool).
Context (mk_live : string → V → Lamport → R) (mk_dead : string → R → Lamport → R).

Definition need_live (_ : string) (v : V) (cur : option R) : bool :=
  present v && negb (match cur with Some r => negb (deleted r) && shows v r | None => false end).

Definition in_ledger (ledger : gmap string V) (k : string) : bool :=
  match ledger !! k with Some v => present v | None => false end.

Definition stale (ledger : gmap string V) (state : gmap string R) : list (string * R) :=
  List.filter (fun '(k, r) => negb (deleted r) && negb (in_ledger ledger k)) (btree_iter state).

Definition reconcile (device : DeviceId) (ledger : gmap string V)
    (state : gmap string R) (lamport : N) : gmap string R * N :=
  let '(state, lamport) :=
    stamp_loop need_live (fun k v _ c => mk_live k v c) device (btree_iter ledger)
      state lamport in
  stamp_loop (fun _ _ _ => true) (fun k r _ c => mk_dead k r c) device
    (stale ledger state) state lamport.

(** How many ticks it can take. *)
Definition reconcile_room (ledger : gmap string V) (state : gmap string R) : N :=
  N.of_nat (2 * size ledger + size state).

Context (Hlive : ∀ k v c, deleted (mk_live k v c) = false ∧ shows v (mk_live k v c) = true ∧
                          clock (mk_live k v c) = c).
Context (Hdead : ∀ k r c, deleted (mk_dead k r c) = true ∧ clock (mk_dead k r c) = c).

Lemma elem_of_stale ledger state k r :
  (k, r) ∈ stale ledger state ↔
  state !! k = Some r ∧ deleted r = false ∧ in_ledger ledger k = false.
Proof.
  unfold stale. rewrite list_elem_of_In, filter_In, <- list_elem_of_In, elem_of_btree_iter.
  rewrite andb_true_iff, !negb_true_iff. tauto.
Qed.

Lemma NoDup_stale ledger state : NoDup (stale ledger state).*1.
Proof.
  unfold stale. pose proof (NoDup_fst_btree_iter state) as Hnd.
  induction (btree_iter state) as [|[k r] l IH]; cbn in *; [done|].
  apply NoDup_cons in Hnd as [Hk Hnd]. case_bool; [|by apply IH].
  cbn. apply NoDup_cons. split; [|by apply IH].
  intros (x & -> & Hx)%list_elem_of_fmap. apply Hk. apply list_elem_of_fmap. exists x.
  split; [done|]. rewrite list_elem_of_In in *. by apply filter_In in Hx as [? _].
Qed.

Lemma lookup_list_to_map_stale ledger state k :
  list_to_map (M := gmap string R) (stale ledger state) !! k =
    match state !! k with
    | Some r => if negb (deleted r) && negb (in_ledger ledger k) then Some r else None
    | None => None
    end.
Proof.
  destruct (list_to_map (stale ledger state) !! k) as [r|] eqn:E.
  - apply elem_of_list_to_map_2, elem_of_stale in E as (-> & -> & ->). done.
  - destruct (state !! k) as [r|] eqn:Es; [|done].
    destruct (deleted r) eqn:Ed, (in_ledger ledger k) eqn:El; try done. exfalso.
    apply not_elem_of_list_to_map in E. apply E, list_elem_of_fmap.
    exists (k, r). split; [done|]. by apply elem_of_stale.
Qed.

Lemma length_btree_iter {A} (m : gmap string A) : length (btree_iter m) = size m.
Proof. rewrite btree_iter_perm. apply length_map_to_list. Qed.

Lemma length_filter_le {A} (f : A → bool) l : (length (List.filter f l) ≤ length l)%nat.
Proof. induction l as [|a l IH]; cbn; [done|]. destruct (f a); cbn; lia. Qed.

Lemma stamp_loop_size {V'} need mk device (l : list (string * V')) (state : gmap string R) lamport :
  (size (stamp_loop need mk device l state lamport).1 ≤ size state + length l)%nat.
Proof.
  unfold stamp_loop. revert state lamport.
  induction l as [|[k v] l IH]; intros state lamport; cbn; [lia|].
  case_bool.
  - etrans; [apply IH|]. rewrite map_size_insert. case_match; cbn; lia.
  - etrans; [apply IH|]. lia.
Qed.

Section run.
Context (device : DeviceId) (ledger : gmap string V) (state : gmap string R) (lamport : N).
Context (Hroom : lamport + reconcile_room ledger state < 2 ^ 64).

Let state1 := (stamp_loop need_live (fun k v _ c => mk_live k v c) device
                 (btree_iter ledger) state lamport).1.
Let lamport1 := (stamp_loop need_live (fun k v _ c => mk_live k v c) device
                   (btree_iter ledger) state lamport).2.

Lemma reconcile_phases :
  reconcile device ledger state lamport =
    stamp_loop (fun _ _ _ => true) (fun k r _ c => mk_dead k r c) device
      (stale ledger state1) state1 lamport1.
Proof. unfold reconcile, state1, lamport1. by destruct (stamp_loop _ _ _ _ _ _). Qed.

Lemma reconcile_phase1 :
  lamport ≤ lamport1 ≤ lamport + N.of_nat (size ledger) ∧
  ∀ j, match ledger !! j with
       | Some v =>
           if need_live j v (state !! j)
           then ∃ c, lamport < c ≤ lamport1 ∧
                  state1 !! j = Some (mk_live j v (mkLamport c device))
           else state1 !! j = state !! j
       | None => state1 !! j = state !! j
       end.
Proof.
  pose proof (stamp_loop_spec need_live (fun k v _ c => mk_live k v c) device
    (btree_iter ledger) state lamport (NoDup_fst_btree_iter ledger)) as H.
  cbn zeta in H. rewrite list_to_map_btree_iter, length_btree_iter in H.
  apply H. unfold reconcile_room in Hroom. lia.
Qed.

Lemma length_stale1 : (length (stale ledger state1) ≤ size ledger + size state)%nat.
Proof.
  unfold stale. etrans; [apply length_filter_le|].
  rewrite length_btree_iter. unfold state1. etrans; [apply stamp_loop_size|].
  rewrite length_btree_iter. lia.
Qed.

(** A register that carries a clock ticked in [(lo, hi]] by this device. *)
Definition stamped (lo hi : N) (x : R) : Prop :=
  (clock x).(SyncTypes.device) = device ∧ lo < (clock x).(counter) ≤ hi.

(** First loop, at a key the ledger has. *)
Lemma phase1_present k v :
  ledger !! k = Some v → present v = true →
  ∃ x, state1 !! k = Some x ∧ deleted x = false ∧ shows v x = true ∧
    (state !! k = Some x ∨ stamped lamport lamport1 x).
Proof.
  intros El Ep. destruct reconcile_phase1 as [_ Hp1]. specialize (Hp1 k).
  rewrite El in Hp1. unfold need_live in Hp1. rewrite Ep in Hp1. cbn in Hp1.
  assert ((∃ c, lamport < c ≤ lamport1 ∧
             state1 !! k = Some (mk_live k v (mkLamport c device))) →
    ∃ x, state1 !! k = Some x ∧ deleted x = false ∧ shows v x = true ∧
      (state !! k = Some x ∨ stamped lamport lamport1 x)) as Hfresh.
  { intros (c & Hc & ->). eexists. split; [done|]. unfold stamped.
    destruct (Hlive k v (mkLamport c device)) as (-> & -> & ->). auto. }
  destruct (state !! k) as [x|] eqn:Es; [|by apply Hfresh].
  destruct (deleted x) eqn:Ed, (shows v x) eqn:Esh; cbn in Hp1; try by apply Hfresh.
  exists x. rewrite Hp1. auto.
Qed.

(** First loop, at a key the ledger does not have. *)
Lemma phase1_absent k : in_ledger ledger k = false → state1 !! k = state !! k.
Proof.
  intros Hl. destruct reconcile_phase1 as [_ Hp1]. specialize (Hp1 k).
  unfold in_ledger, need_live in *. destruct (ledger !! k) as [v|]; [|done].
  by rewrite Hl in Hp1.
Qed.

(** Second loop: a live register with no row is buried, every other is kept. *)
Lemma phase2 k :
  let r := reconcile device ledger state lamport in
  lamport1 ≤ r.2 ≤ lamport + reconcile_room ledger state ∧
  match state1 !! k with
  | Some x =>
      if negb (deleted x) && negb (in_ledger ledger k)
      then ∃ y, r.1 !! k = Some y ∧ deleted y = true ∧ stamped lamport1 r.2 y
      else r.1 !! k = Some x
  | None => r.1 !! k = None
  end.
Proof.
  cbn zeta. rewrite reconcile_phases.
  destruct reconcile_phase1 as [Hc1 _]. pose proof length_stale1 as Hlen.
  destruct (stamp_loop_spec (fun _ _ _ => true) (fun k r _ c => mk_dead k r c) device
    (stale ledger state1) state1 lamport1 (NoDup_stale ledger state1)) as [Hc2 Hp2].
  { unfold reconcile_room in Hroom. lia. }
  split; [unfold reconcile_room; lia|]. specialize (Hp2 k).
  rewrite lookup_list_to_map_stale in Hp2. destruct (state1 !! k) as [x|] eqn:E; [|done].
  case_bool; [|done]. destruct Hp2 as (c & Hc & ->). eexists. split; [done|].
  unfold stamped. destruct (Hdead k x (mkLamport c device)) as [-> ->]. auto.
Qed.

(** Outcome at every key: a register shows its ledger row; one with no row is dead
    or never was; what changed carries a fresh own clock; the counter moves up. *)
Lemma reconcile_spec :
  let r := reconcile device ledger state lamport in
  lamport ≤ r.2 ≤ lamport + reconcile_room ledger state ∧
  ∀ k,
    (∀ v, ledger !! k = Some v → present v = true →
       ∃ x, r.1 !! k = Some x ∧ deleted x = false ∧ shows v x = true) ∧
    (in_ledger ledger k = false →
       ∀ x, r.1 !! k = Some x → deleted x = true) ∧
    (∀ x, r.1 !! k = Some x → state !! k = Some x ∨ stamped lamport r.2 x) ∧
    (is_Some (state !! k) → is_Some (r.1 !! k)).
Proof.
  cbn zeta. destruct reconcile_phase1 as [Hc1 _].
  split; [destruct (phase2 "") as [? _]; lia|]. intros k.
  destruct (phase2 k) as [Hc2 H2]. cbn zeta in *.
  generalize dependent (reconcile device ledger state lamport). intros [m c] Hc2 H2. cbn in *.
  destruct (in_ledger ledger k) eqn:El.
  - unfold in_ledger in El. destruct (ledger !! k) as [v|] eqn:Ev; [|done].
    destruct (phase1_present k v Ev El) as (x & Hx & Hd & Hs & Hor).
    rewrite Hx, andb_false_r in H2. rewrite H2. unfold stamped in *.
    split_and!; [naive_solver|done| |done].
    intros y [= <-]. destruct Hor as [?|[? ?]]; [by left|right; split; [done|lia]].
  - rewrite (phase1_absent k El) in H2.
    split; [unfold in_ledger in El; intros v Hv Hp; rewrite Hv in El; congruence|].
    destruct (state !! k) as [x|] eqn:Es; [|rewrite H2; split_and!; try done; by intros []].
    destruct (deleted x) eqn:Ed; cbn in H2.
    + rewrite H2. split_and!; [intros ? y [= <-]; done|intros y [= <-]; by left|done].
    + destruct H2 as (y & -> & Hy & Hst). unfold stamped in *.
      split_and!; [intros _ z [= <-]; done| |done].
      intros z [= <-]. right. split; [apply Hst|lia].
Qed.
End run.

(** Reconciling again with the same ledger ticks nothing and changes nothing. *)
Lemma reconcile_settled device ledger state lamport :
  (∀ k v, ledger !! k = Some v → present v = true →
     ∃ x, state !! k = Some x ∧ deleted x = false ∧ shows v x = true) →
  (∀ k x, in_ledger ledger k = false → state !! k = Some x → deleted x = true) →
  reconcile device ledger state lamport = (state, lamport).
Proof.
  intros H1 H2. unfold reconcile.
  rewrite stamp_loop_idle.
  - assert (stale ledger state = []) as ->; [|done].
    destruct (stale ledger state) as [|[k r] l] eqn:E; [done|exfalso].
    destruct (proj1 (elem_of_stale ledger state k r)) as (Hs & Hd & Hl); [rewrite E; set_solver|].
    pose proof (H2 k r Hl Hs). congruence.
  - intros k v Hkv. apply elem_of_btree_iter in Hkv. unfold need_live.
    destruct (present v) eqn:Ep; [|done].
    destruct (H1 k v Hkv Ep) as (x & -> & -> & ->). done.
Qed.

(** A second pass over the same ledger is a no-op. *)
Lemma reconcile_twice device ledger state lamport lamport' :
  lamport + reconcile_room ledger state < 2 ^ 64 →
  let r := reconcile device ledger state lamport in
  reconcile device ledger r.1 lamport' = (r.1, lamport').
Proof.
  intros Hroom. cbn zeta.
  destruct (reconcile_spec device ledger state lamport Hroom) as [_ Hk].
  apply reconcile_settled.
  - intros k v Hv Hp. destruct (Hk k) as (H1 & _). by apply H1.
  - intros k x Hl Hx. destruct (Hk k) as (_ & H2 & _). by apply H2.
Qed.
End reconcile.
