(* ===== verification/SyncBridge.v ===== *)
(** * The sidecar and the ledgers ([engine/src/book/sync_bridge.rs])

    What a device keeps on disk of its address book: the CRDT sidecar
    ([sync/meta.bin]) and the ledgers a user edits.  [build_local_snapshot] folds
    out-of-band edits of the ledgers into the sidecar under fresh clocks;
    [apply_merged_state] merges an incoming snapshot and projects the result back.

    A ledger is the value its TOML file decodes to, and a save of it succeeds; the
    sidecar is kept as the bytes [encode_snapshot] produced.  The clock, the host
    name and the random device id are an environment. *)
From S2P Require Import Prelude.
From S2P Require Import Text.
From S2P Require Import Crdt.
From S2P Require Import SyncTypes.
From S2P Require Import SyncMerge.
From S2P Require Import SyncConverge.
From S2P Require Import SyncCodec.
From S2P Require Import Stamps.
Local Open Scope arvolo_scope.
Local Open Scope N_scope.

(** ** The files *)

(** [book/marks.rs]: pubkey to when it was marked. *)
Abbreviation Marks := (gmap string N).

(** [book/names.rs]. *)
Record NameRow := mkNameRow { nr_pinned : string; nr_pending : option string; nr_first : string }.
Definition NameRow_default : NameRow := mkNameRow "" None "".

(** [book/devices.rs]. *)
Record DeviceRow := mkDeviceRow { dr_name : string; dr_platform : string; dr_last_seen : N }.
Definition DeviceRow_default : DeviceRow := mkDeviceRow "" "" 0.

(** [book/seen.rs]. *)
Record Seen := mkSeen { seen_count : gmap string N; seen_last : gmap string N }.

(** The configuration directory, as far as the sync code reads and writes it. *)
Record Book := mkBook {
  bk_meta : option bytes;              (* sync/meta.bin *)
  bk_device : option bytes;            (* sync/device.bin *)
  bk_paired : bool;                    (* sync/paired exists *)
  bk_contacts : gmap string string;
  bk_verified : Marks;
  bk_trusted : Marks;
  bk_blocked : Marks;
  bk_seen : Seen;
  bk_names : gmap string NameRow;
  bk_relays : gmap string string;
  bk_devices : gmap string DeviceRow;
  bk_me : option string;               (* me.toml: display_name *)
  bk_config_name : option string       (* config.toml: display_name *)
}.

(** What a sync round reads from outside: the time in unix seconds, the platform, the
    default device name, a fresh random device id, and whether the line editor of
    [config.toml] accepts its edit. *)
Record Env := mkEnv {
  env_now : N; env_os : string; env_default_name : string;
  env_random_device : DeviceId; env_config_edit_ok : bool }.

(** Functional updates of the files a function writes. *)
Definition with_meta (m : option bytes) (b : Book) : Book :=
  mkBook m b.(bk_device) b.(bk_paired) b.(bk_contacts) b.(bk_verified) b.(bk_trusted)
    b.(bk_blocked) b.(bk_seen) b.(bk_names) b.(bk_relays) b.(bk_devices) b.(bk_me)
    b.(bk_config_name).
Definition with_device (d : option bytes) (b : Book) : Book :=
  mkBook b.(bk_meta) d b.(bk_paired) b.(bk_contacts) b.(bk_verified) b.(bk_trusted)
    b.(bk_blocked) b.(bk_seen) b.(bk_names) b.(bk_relays) b.(bk_devices) b.(bk_me)
    b.(bk_config_name).
Definition with_devices (d : gmap string DeviceRow) (b : Book) : Book :=
  mkBook b.(bk_meta) b.(bk_device) b.(bk_paired) b.(bk_contacts) b.(bk_verified)
    b.(bk_trusted) b.(bk_blocked) b.(bk_seen) b.(bk_names) b.(bk_relays) d b.(bk_me)
    b.(bk_config_name).
Definition with_me (me : option string) (cfg : option string) (b : Book) : Book :=
  mkBook b.(bk_meta) b.(bk_device) b.(bk_paired) b.(bk_contacts) b.(bk_verified)
    b.(bk_trusted) b.(bk_blocked) b.(bk_seen) b.(bk_names) b.(bk_relays) b.(bk_devices)
    me cfg.

Definition LAST_SEEN_GRANULARITY : N := 60.

(** [quantize_last_seen]. *)
Definition quantize_last_seen (now : N) : N := now - now mod LAST_SEEN_GRANULARITY.

(** [load_me().display_name] and [legacy_display_name]. *)
Definition load_me (b : Book) : string := default "" b.(bk_me).
Definition legacy_display_name (b : Book) : string :=
  match str_trim <$> b.(bk_config_name) with
  | Some s => if decide (s = "") then "" else s
  | None => ""
  end.

Section bridge.
Context `{!HexLower, !Postcard}.

(** [load_or_init_device]. *)
Definition load_or_init_device (env : Env) (b : Book) : DeviceId * Book :=
  let init := (env.(env_random_device), with_device (Some env.(env_random_device)) b) in
  match b.(bk_device) with
  | Some id => if decide (length id = 16%nat) then (id, b) else init
  | None => init
  end.

(** [load_meta]: missing or unreadable reads as an empty sidecar. *)
Definition load_meta (env : Env) (b : Book) : (SyncState * N * DeviceId) * Book :=
  let '(device, b) := load_or_init_device env b in
  match b.(bk_meta) ≫= fun bytes => result_ok (decode_snapshot bytes) with
  | Some snap => ((from_snapshot snap, snap.(ss_lamport), device), b)
  | None => ((SyncState_default, 0, device), b)
  end.

(** [save_meta]. *)
Definition save_meta (state : SyncState) (lamport : N) (device : DeviceId) (b : Book)
    : result Book string :=
  let snap := to_snapshot state lamport device in
  try! bytes := context "serialize sync meta" (result_ok (encode_snapshot snap)) in
  Ok (with_meta (Some bytes) b).

(** [paired_with_another_device]. *)
Definition paired_with_another_device (env : Env) (b : Book) : bool * Book :=
  if b.(bk_paired) then (true, b)
  else
    let '((state, _, mine), b) := load_meta env b in
    (authored_by_another_device state mine, b).

(** [tombstone_marks]: set-membership reconciliation of one mark register. *)
Definition tombstone_marks (state : gmap string MarkReg) (present : Marks) (lamport : N)
    (device : DeviceId) : gmap string MarkReg * N :=
  reconcile m_deleted (fun _ : N => true) (fun _ _ => true)
    (fun _ since c => mkMarkReg c false since)
    (fun _ _ c => mkMarkReg c true 0)
    device present state lamport.

(** The contact loops of [build_local_snapshot]: adds and key changes, then
    contacts removed out of band. *)
Definition reconcile_contacts (state : gmap string ContactReg) (contacts : gmap string string)
    (lamport : N) (device : DeviceId) : gmap string ContactReg * N :=
  reconcile c_deleted (fun _ : string => true)
    (fun pubkey r => bool_decide (r.(c_pubkey) = pubkey))
    (fun _ pubkey c => mkContactReg pubkey c false)
    (fun _ r c => mkContactReg r.(c_pubkey) c true)
    device contacts state lamport.

(** The seen loops: monotone maxima into the sidecar. *)
Definition reconcile_seen (state : gmap string SeenReg) (local : Seen) : gmap string SeenReg :=
  let state := for_each local.(seen_count) state (fun pk cnt state =>
    let e := default SeenReg_default (state !! pk) in
    <[pk := mkSeenReg (N.max e.(s_count) cnt) e.(s_last)]> state) in
  for_each local.(seen_last) state (fun pk when_ state =>
    let e := default SeenReg_default (state !! pk) in
    <[pk := mkSeenReg e.(s_count) (N.max e.(s_last) when_)]> state).

(** A name row counts as present when it has a pinned or a pending name. *)
Definition name_row_present (row : NameRow) : bool :=
  negb (bool_decide (row.(nr_pinned) = "")) || bool_decide (is_Some row.(nr_pending)).

(** The advertised-name loops. *)
Definition reconcile_names (state : gmap string NameReg) (names : gmap string NameRow)
    (lamport : N) (device : DeviceId) : gmap string NameReg * N :=
  reconcile n_deleted name_row_present
    (fun row r => bool_decide (r.(n_pinned) = row.(nr_pinned))
                  && bool_decide (r.(n_pending) = row.(nr_pending)))
    (fun _ row c => mkNameReg row.(nr_pinned) row.(nr_pending) c false)
    (fun _ r c => mkNameReg r.(n_pinned) r.(n_pending) c true)
    device names state lamport.

(** The contact-relay loops. *)
Definition reconcile_relays (state : gmap string RelayReg) (relays : gmap string string)
    (lamport : N) (device : DeviceId) : gmap string RelayReg * N :=
  reconcile r_deleted (fun _ : string => true)
    (fun relay r => bool_decide (r.(r_relay) = relay))
    (fun _ relay c => mkRelayReg relay c false)
    (fun _ r c => mkRelayReg r.(r_relay) c true)
    device relays state lamport.

(** [register_this_device]: announce this machine, or decline to once retired. *)
Definition register_this_device (env : Env) (state : gmap string DeviceReg) (lamport : N)
    (device : DeviceId) (b : Book) : gmap string DeviceReg * N * Book :=
  let key := device_key device in
  if match state !! key with Some r => r.(d_deleted) | None => false end then
    (state, lamport, b)
  else
    let now := quantize_last_seen env.(env_now) in
    let ledger := b.(bk_devices) in
    let name :=
      match dr_name <$> ledger !! key with
      | Some n => if decide (str_trim n = "") then env.(env_default_name) else n
      | None => env.(env_default_name)
      end in
    let platform := env.(env_os) in
    let changed :=
      negb match state !! key with
           | Some r => negb r.(d_deleted) && bool_decide (r.(d_name) = name)
                       && bool_decide (r.(d_platform) = platform) && (now <=? r.(d_last_seen))
           | None => false
           end in
    if negb changed then (state, lamport, b)
    else
      let lamport := tick lamport in
      let state := <[key := mkDeviceReg name platform now (mkLamport lamport device) false]> state in
      (state, lamport, with_devices (<[key := mkDeviceRow name platform now]> ledger) b).

(** [register_my_name]: reconcile the identity's name with its register, and adopt
    the one left in [config.toml] when no machine ever set one. *)
Definition register_my_name (env : Env) (self_name : option SelfName) (lamport : N)
    (device : DeviceId) (b : Book) : option SelfName * N * Book :=
  let ledger := str_trim (load_me b) in
  let stamp name b :=
    let lamport := tick lamport in
    (Some (mkSelfName name (mkLamport lamport device)), lamport, b) in
  match self_name with
  | Some cur =>
      if decide (cur.(sn_name) = ledger) then (self_name, lamport, b) else stamp ledger b
  | None =>
      if decide (ledger = "") then
        let legacy := legacy_display_name b in
        if decide (legacy = "") then (self_name, lamport, b)
        else
          stamp legacy
            (with_me (Some legacy)
               (if env.(env_config_edit_ok) then None else b.(bk_config_name)) b)
      else stamp ledger b
  end.

(** The whole reconciliation of [build_local_snapshot], between loading the sidecar
    and saving it. *)
Definition reconcile_book (env : Env) (state : SyncState) (lamport : N) (device : DeviceId)
    (b : Book) : SyncState * N * Book :=
  let '(contacts, lamport) :=
    reconcile_contacts state.(contacts) b.(bk_contacts) lamport device in
  let '(verified, lamport) := tombstone_marks state.(verified) b.(bk_verified) lamport device in
  let '(trusted, lamport) := tombstone_marks state.(trusted) b.(bk_trusted) lamport device in
  let '(blocked, lamport) := tombstone_marks state.(blocked) b.(bk_blocked) lamport device in
  let seen := reconcile_seen state.(seen) b.(bk_seen) in
  let '(names, lamport) := reconcile_names state.(names) b.(bk_names) lamport device in
  let '(relays, lamport) := reconcile_relays state.(relays) b.(bk_relays) lamport device in
  let '(devices, lamport, b) := register_this_device env state.(devices) lamport device b in
  let '(self_name, lamport, b) := register_my_name env state.(self_name) lamport device b in
  (mkSyncState contacts verified trusted seen names blocked relays devices self_name,
   lamport, b).

(** [build_local_snapshot]. *)
Definition build_local_snapshot (env : Env) (b : Book) : result (SyncSnapshot * Book) string :=
  let '((state, lamport, device), b) := load_meta env b in
  let '(state, lamport, b) := reconcile_book env state lamport device b in
  try! b := save_meta state lamport device b in
  Ok (to_snapshot state lamport device, b).

(** [stamp_my_name]. *)
Definition stamp_my_name (env : Env) (name : string) (b : Book) : result Book string :=
  let '((state, lamport, device), b) := load_meta env b in
  if match state.(self_name) with Some r => bool_decide (r.(sn_name) = name) | None => false end
  then Ok b
  else
    let lamport := tick lamport in
    let state := mkSyncState state.(contacts) state.(verified) state.(trusted) state.(seen)
      state.(names) state.(blocked) state.(relays) state.(devices)
      (Some (mkSelfName name (mkLamport lamport device))) in
    save_meta state lamport device b.

(** [tombstone_device]: the row is kept, marked deleted under a fresh clock. *)
Definition tombstone_device (env : Env) (id : DeviceId) (b : Book) : result Book string :=
  let '((state, lamport, device), b) := load_meta env b in
  let key := device_key id in
  let prev := state.(devices) !! key in
  let lamport := tick lamport in
  let row := mkDeviceReg (default "" (d_name <$> prev)) (default "" (d_platform <$> prev))
    (default 0 (d_last_seen <$> prev)) (mkLamport lamport device) true in
  let state := mkSyncState state.(contacts) state.(verified) state.(trusted) state.(seen)
    state.(names) state.(blocked) state.(relays) (<[key := row]> state.(devices))
    state.(self_name) in
  save_meta state lamport device b.

(** [forget_device]. *)
Definition forget_device (env : Env) (id : DeviceId) (b : Book) : result Book string :=
  let key := device_key id in
  let b := match b.(bk_devices) !! key with
           | Some _ => with_devices (delete key b.(bk_devices)) b
           | None => b
           end in
  tombstone_device env id b.

(** The live rows of a register, as a ledger. *)
Definition project_live {R A} (deleted : R → bool) (val : R → A) (m : gmap string R)
    : gmap string A :=
  for_each m ∅ (fun k r out => if deleted r then out else <[k := val r]> out).

(** The two name loops of [project_to_ledgers]. *)
Definition project_names (state : gmap string NameReg) (old : gmap string NameRow)
    : gmap string NameRow :=
  let n := for_each state ∅ (fun id r n =>
    if r.(n_deleted) then n
    else <[id := mkNameRow r.(n_pinned) r.(n_pending)
                   (default "" (nr_first <$> old !! id))]> n) in
  for_each old n (fun id row n =>
    let tombstoned := match state !! id with Some r => r.(n_deleted) | None => false end in
    if negb (bool_decide (row.(nr_first) = "")) && negb (bool_decide (is_Some (n !! id)))
       && negb tombstoned
    then <[id := mkNameRow "" None row.(nr_first)]> n else n).

(** The seen loop of [project_to_ledgers]. *)
Definition project_seen (state : gmap string SeenReg) : Seen :=
  mkSeen
    (for_each state ∅ (fun pk r s => if 0 <? r.(s_count) then <[pk := r.(s_count)]> s else s))
    (for_each state ∅ (fun pk r s => if 0 <? r.(s_last) then <[pk := r.(s_last)]> s else s)).

(** [project_to_ledgers]. *)
Definition project_to_ledgers (state : SyncState) (b : Book) : Book :=
  mkBook b.(bk_meta) b.(bk_device) b.(bk_paired)
    (project_live c_deleted c_pubkey state.(contacts))
    (project_live m_deleted m_since state.(verified))
    (project_live m_deleted m_since state.(trusted))
    (project_live m_deleted m_since state.(blocked))
    (project_seen state.(seen))
    (project_names state.(names) b.(bk_names))
    (project_live r_deleted r_relay state.(relays))
    (project_live d_deleted
       (fun r => mkDeviceRow r.(d_name) r.(d_platform) r.(d_last_seen)) state.(devices))
    (match state.(self_name) with
     | Some r => if decide (str_trim (load_me b) = r.(sn_name)) then b.(bk_me)
                 else Some r.(sn_name)
     | None => b.(bk_me)
     end)
    b.(bk_config_name).

(** [apply_merged_state]: fold local edits in first, merge, project. *)
Definition apply_merged_state (env : Env) (incoming : SyncSnapshot) (b : Book)
    : result Book string :=
  try! (_, b) := build_local_snapshot env b in
  let '((state, lamport, device), b) := load_meta env b in
  let incoming_state := from_snapshot incoming in
  let state := merge state incoming_state in
  let lamport := N.max (N.max lamport incoming.(ss_lamport)) (max_counter state) in
  try! b := save_meta state lamport device b in
  Ok (project_to_ledgers state b).
End bridge.
