(* ===== verification/SyncBridgeFacts.v ===== *)
(** * What a sync round guarantees

    The properties of [SyncBridge]: the published snapshot shows the ledgers, every
    change carries a fresh clock of this device, a quiet round changes nothing, a
    merge never reverts an unpublished edit, and a retired device stays retired. *)
From S2P Require Import Prelude.
From S2P Require Import Text.
From S2P Require Import Crdt.
From S2P Require Import SyncTypes.
From S2P Require Import SyncMerge.
From S2P Require Import SyncConverge.
From S2P Require Import SyncCodec.
From S2P Require Import Stamps.
From S2P Require Import SyncBridge.
Local Open Scope N_scope.

(** ** Projection *)

Lemma project_live_lookup {R A} (deleted : R → bool) (val : R → A) m k :
  project_live deleted val m !! k =
    match m !! k with Some r => if deleted r then None else Some (val r) | None => None end.
Proof.
  unfold project_live.
  rewrite (for_each_lookup _ (fun k r cur => if deleted r then cur else Some (val r))).
  - rewrite lookup_empty. by destruct (m !! k).
  - intros k' r m' i. case_bool; [apply lookup_keep_at|apply lookup_insert_at].
Qed.

(** Every register of [new] is one of [old], or was stamped by [dev] in [(lo, hi]]. *)
Definition fresh_or_old {R} (clock : R → Lamport) (dev : DeviceId) (lo hi : N)
    (old new : gmap string R) : Prop :=
  ∀ k x, new !! k = Some x → old !! k = Some x ∨ stamped clock dev lo hi x.

(** A clock that is later by its counter wins. *)
Lemma later_wins (a b : Lamport) : b.(counter) < a.(counter) → lam_ge a b = true.
Proof.
  intros Hlt. unfold cmp_geb, Lamport_cmp.
  destruct (N.compare_spec a.(counter) b.(counter)); cbn; done || lia.
Qed.

Lemma fresh_or_old_weaken {R} (clock : R → Lamport) dev lo hi lo' hi' (old new : gmap string R) :
  lo' ≤ lo → hi ≤ hi' →
  fresh_or_old clock dev lo hi old new → fresh_or_old clock dev lo' hi' old new.
Proof.
  intros H1 H2 H k x Hx. destruct (H k x Hx) as [?|[? ?]]; [by left|right].
  split; [done|lia].
Qed.

Lemma reconcile_seen_lookup state local k :
  reconcile_seen state local !! k =
    match local.(seen_count) !! k, local.(seen_last) !! k with
    | None, None => state !! k
    | c, l =>
        let e := default SeenReg_default (state !! k) in
        Some (mkSeenReg (N.max e.(s_count) (default 0 c)) (N.max e.(s_last) (default 0 l)))
    end.
Proof.
  unfold reconcile_seen.
  rewrite (for_each_lookup _ (fun k v cur =>
    Some (mkSeenReg (default SeenReg_default cur).(s_count)
            (N.max (default SeenReg_default cur).(s_last) v))))
    by (intros; apply lookup_insert_at).
  rewrite (for_each_lookup _ (fun k v cur =>
    Some (mkSeenReg (N.max (default SeenReg_default cur).(s_count) v)
            (default SeenReg_default cur).(s_last))))
    by (intros; apply lookup_insert_at).
  destruct (seen_count local !! k), (seen_last local !! k), (state !! k) as [[]|]; cbn;
    try done; f_equal; f_equal; lia.
Qed.

Lemma reconcile_seen_twice state local :
  reconcile_seen (reconcile_seen state local) local = reconcile_seen state local.
Proof.
  apply map_eq. intros k. rewrite (reconcile_seen_lookup (reconcile_seen _ _)).
  rewrite reconcile_seen_lookup.
  destruct (seen_count local !! k), (seen_last local !! k); cbn; try done; f_equal; f_equal; lia.
Qed.

(** ** One register at a time *)

Section registers.
Context (dev : DeviceId).

Lemma tombstone_marks_spec state present lamport :
  lamport + reconcile_room present state < 2 ^ 64 →
  let r := tombstone_marks state present lamport dev in
  lamport ≤ r.2 ≤ lamport + reconcile_room present state ∧
  (∀ k, is_Some (project_live m_deleted m_since r.1 !! k) ↔ is_Some (present !! k)) ∧
  fresh_or_old m_clock dev lamport r.2 state r.1.
Proof.
  intros Hroom. cbn zeta.
  destruct (reconcile_spec m_deleted m_clock (fun _ : N => true) (fun _ _ => true)
    (fun _ since c => mkMarkReg c false since) (fun _ _ c => mkMarkReg c true 0)
    ltac:(intros; cbn; auto) ltac:(intros; cbn; auto) dev present state lamport Hroom) as [Hc Hk].
  fold (tombstone_marks state present lamport dev) in Hc, Hk.
  split; [done|]. split; [|intros k; by apply Hk].
  intros k. destruct (Hk k) as (H1 & H2 & _). rewrite project_live_lookup.
  unfold in_ledger in H2. destruct (present !! k) as [v|] eqn:E.
  - destruct (H1 v eq_refl eq_refl) as (x & -> & -> & _). split; eauto.
  - destruct ((tombstone_marks state present lamport dev).1 !! k) as [x|];
      [|by split; intros [? ?]].
    rewrite (H2 eq_refl x eq_refl). by split; intros [? ?].
Qed.

(** The registers with a value: contacts, relays and names. *)
Lemma reconcile_projects {V R A} (deleted : R → bool) (clock : R → Lamport)
    (present : V → bool) (shows : V → R → bool) mk_live mk_dead (val : R → A) (row : V → A)
    ledger (state : gmap string R) lamport :
  (∀ k v c, deleted (mk_live k v c) = false ∧ shows v (mk_live k v c) = true ∧
            clock (mk_live k v c) = c) →
  (∀ k r c, deleted (mk_dead k r c) = true ∧ clock (mk_dead k r c) = c) →
  (∀ v x, shows v x = true → val x = row v) →
  lamport + reconcile_room ledger state < 2 ^ 64 →
  let r := reconcile deleted present shows mk_live mk_dead dev ledger state lamport in
  lamport ≤ r.2 ≤ lamport + reconcile_room ledger state ∧
  (∀ k, project_live deleted val r.1 !! k =
          match ledger !! k with Some v => if present v then Some (row v) else None
          | None => None end) ∧
  fresh_or_old clock dev lamport r.2 state r.1.
Proof.
  intros Hlive Hdead Hshows Hroom. cbn zeta.
  destruct (reconcile_spec deleted clock present shows mk_live mk_dead Hlive Hdead
    dev ledger state lamport Hroom) as [Hc Hk].
  split; [done|]. split; [|intros k; by apply Hk].
  intros k. destruct (Hk k) as (H1 & H2 & _). rewrite project_live_lookup.
  unfold in_ledger in H2. destruct (ledger !! k) as [v|] eqn:E.
  - destruct (present v) eqn:Ep.
    + destruct (H1 v eq_refl Ep) as (x & -> & -> & Hs). by rewrite (Hshows _ _ Hs).
    + case_match; [|done]. by rewrite (H2 eq_refl _ eq_refl).
  - case_match; [|done]. by rewrite (H2 eq_refl _ eq_refl).
Qed.

Lemma reconcile_contacts_spec state ledger lamport :
  lamport + reconcile_room ledger state < 2 ^ 64 →
  let r := reconcile_contacts state ledger lamport dev in
  lamport ≤ r.2 ≤ lamport + reconcile_room ledger state ∧
  project_live c_deleted c_pubkey r.1 = ledger ∧
  fresh_or_old c_clock dev lamport r.2 state r.1.
Proof.
  intros Hroom.
  destruct (reconcile_projects c_deleted c_clock (fun _ : string => true)
    (fun pubkey r => bool_decide (r.(c_pubkey) = pubkey))
    (fun _ pubkey c => mkContactReg pubkey c false)
    (fun _ r c => mkContactReg r.(c_pubkey) c true) c_pubkey id ledger state lamport)
    as (H1 & H2 & H3); try done.
  - intros k v c. cbn. by rewrite bool_decide_true.
  - intros v x Hx. by apply bool_decide_eq_true in Hx.
  - split; [exact H1|]. split; [|exact H3].
    apply map_eq. intros k. etrans; [apply H2|]. by destruct (ledger !! k).
Qed.

(** A second pass over the same ledger, register by register. *)
Lemma marks_twice state present lamport lamport' :
  lamport + reconcile_room present state < 2 ^ 64 →
  let r := tombstone_marks state present lamport dev in
  tombstone_marks r.1 present lamport' dev = (r.1, lamport').
Proof. by apply (reconcile_twice m_deleted m_clock). Qed.

Lemma contacts_twice state ledger lamport lamport' :
  lamport + reconcile_room ledger state < 2 ^ 64 →
  let r := reconcile_contacts state ledger lamport dev in
  reconcile_contacts r.1 ledger lamport' dev = (r.1, lamport').
Proof.
  apply (reconcile_twice c_deleted c_clock); [|done].
  intros. cbn. by rewrite bool_decide_true.
Qed.

Lemma relays_twice state ledger lamport lamport' :
  lamport + reconcile_room ledger state < 2 ^ 64 →
  let r := reconcile_relays state ledger lamport dev in
  reconcile_relays r.1 ledger lamport' dev = (r.1, lamport').
Proof.
  apply (reconcile_twice r_deleted r_clock); [|done].
  intros. cbn. by rewrite bool_decide_true.
Qed.

Lemma names_twice state ledger lamport lamport' :
  lamport + reconcile_room ledger state < 2 ^ 64 →
  let r := reconcile_names state ledger lamport dev in
  reconcile_names r.1 ledger lamport' dev = (r.1, lamport').
Proof.
  apply (reconcile_twice n_deleted n_clock); [|done].
  intros. cbn. by rewrite !bool_decide_true.
Qed.

(** A contact register never disappears: at most it is buried. *)
Lemma reconcile_contacts_keeps state ledger lamport k :
  lamport + reconcile_room ledger state < 2 ^ 64 →
  is_Some (state !! k) → is_Some ((reconcile_contacts state ledger lamport dev).1 !! k).
Proof.
  intros Hroom. unfold reconcile_contacts.
  edestruct (reconcile_spec c_deleted c_clock (fun _ : string => true)
    (fun pubkey r => bool_decide (r.(c_pubkey) = pubkey))
    (fun _ pubkey c => mkContactReg pubkey c false)
    (fun _ r c => mkContactReg r.(c_pubkey) c true)) as [_ Hk].
  - intros. cbn. by rewrite bool_decide_true.
  - by intros.
  - exact Hroom.
  - apply (Hk k).
Qed.

Lemma reconcile_relays_spec state ledger lamport :
  lamport + reconcile_room ledger state < 2 ^ 64 →
  let r := reconcile_relays state ledger lamport dev in
  lamport ≤ r.2 ≤ lamport + reconcile_room ledger state ∧
  project_live r_deleted r_relay r.1 = ledger ∧
  fresh_or_old r_clock dev lamport r.2 state r.1.
Proof.
  intros Hroom.
  destruct (reconcile_projects r_deleted r_clock (fun _ : string => true)
    (fun relay r => bool_decide (r.(r_relay) = relay))
    (fun _ relay c => mkRelayReg relay c false)
    (fun _ r c => mkRelayReg r.(r_relay) c true) r_relay id ledger state lamport)
    as (H1 & H2 & H3); try done.
  - intros k v c. cbn. by rewrite bool_decide_true.
  - intros v x Hx. by apply bool_decide_eq_true in Hx.
  - split; [exact H1|]. split; [|exact H3].
    apply map_eq. intros k. etrans; [apply H2|]. by destruct (ledger !! k).
Qed.

Lemma reconcile_names_spec state ledger lamport :
  lamport + reconcile_room ledger state < 2 ^ 64 →
  let r := reconcile_names state ledger lamport dev in
  lamport ≤ r.2 ≤ lamport + reconcile_room ledger state ∧
  (∀ k, project_live n_deleted (fun r => (r.(n_pinned), r.(n_pending))) r.1 !! k =
     match ledger !! k with
     | Some row => if name_row_present row then Some (row.(nr_pinned), row.(nr_pending)) else None
     | None => None
     end) ∧
  fresh_or_old n_clock dev lamport r.2 state r.1.
Proof.
  intros Hroom. apply (reconcile_projects n_deleted n_clock name_row_present _ _ _
    (fun r => (r.(n_pinned), r.(n_pending))) (fun row => (row.(nr_pinned), row.(nr_pending))));
    try done.
  - intros k v c. cbn. by rewrite !bool_decide_true.
  - intros v x [H1 H2]%andb_true_iff. apply bool_decide_eq_true in H1, H2. congruence.
Qed.
End registers.

(* ------------------------------------------------------------------ *)
(** ** This machine's row and the identity's name *)

(** The ledgers a user edits (the device ledger and [me.toml] apart, which a round
    may write). *)
Definition same_ledgers (a b : Book) : Prop :=
  a.(bk_contacts) = b.(bk_contacts) ∧ a.(bk_verified) = b.(bk_verified) ∧
  a.(bk_trusted) = b.(bk_trusted) ∧ a.(bk_blocked) = b.(bk_blocked) ∧
  a.(bk_seen) = b.(bk_seen) ∧ a.(bk_names) = b.(bk_names) ∧ a.(bk_relays) = b.(bk_relays).

(** The files no reconciliation touches. *)
Definition same_sidecar (a b : Book) : Prop :=
  a.(bk_meta) = b.(bk_meta) ∧ a.(bk_device) = b.(bk_device) ∧ a.(bk_paired) = b.(bk_paired).

Definition fresh_or_old_name (dev : DeviceId) (lo hi : N) (old new : option SelfName) : Prop :=
  ∀ x, new = Some x → old = Some x ∨ stamped sn_clock dev lo hi x.

Lemma legacy_display_name_trimmed b : str_trim (legacy_display_name b) = legacy_display_name b.
Proof.
  unfold legacy_display_name. destruct (bk_config_name b) as [s|]; [cbn|done].
  case_decide; [done|]. apply str_trim_idem.
Qed.

Section own_rows.
Context `{!HexLower} (env : Env) (dev : DeviceId).

Lemma register_this_device_spec state lamport b :
  lamport + 1 < 2 ^ 64 →
  let r := register_this_device env state lamport dev b in
  lamport ≤ r.1.2 ≤ lamport + 1 ∧
  fresh_or_old d_clock dev lamport r.1.2 state r.1.1 ∧
  (map_accepted device_accept state → map_accepted device_accept r.1.1) ∧
  same_ledgers r.2 b ∧ same_sidecar r.2 b ∧
  r.2.(bk_me) = b.(bk_me) ∧ r.2.(bk_config_name) = b.(bk_config_name).
Proof.
  intros Hlt. unfold register_this_device. cbn zeta.
  assert (∀ R (clock : R → Lamport) lo (m : gmap string R),
    fresh_or_old clock dev lo lo m m) as Hid by (intros R clock lo m k x; auto).
  case_bool; [cbn; split; [lia|]; split; [apply Hid|]; by split_and!|].
  case_bool; [cbn; split; [lia|]; split; [apply Hid|]; by split_and!|]. cbn. rewrite tick_small by done.
  split; [lia|]. split; [|split; [|done]].
  - intros k x. rewrite lookup_insert_at. case_decide; [|by left].
    intros [= <-]. right. split; [done|cbn; lia].
  - intros Hacc k x. rewrite lookup_insert_at. case_decide; [|apply Hacc].
    intros [= <-]. subst. unfold device_accept. cbn. by rewrite bool_decide_true.
Qed.

(** Finding its own row tombstoned, a machine stops announcing itself. *)
Lemma register_this_device_retired state lamport b r :
  state !! device_key dev = Some r → r.(d_deleted) = true →
  register_this_device env state lamport dev b = (state, lamport, b).
Proof. intros Hr Hd. unfold register_this_device. cbn zeta. by rewrite Hr, Hd. Qed.

(** Announcing twice in the same minute announces once. *)
Lemma register_this_device_twice state lamport b lamport' b' :
  let r := register_this_device env state lamport dev b in
  b'.(bk_devices) = r.2.(bk_devices) →
  register_this_device env r.1.1 lamport' dev b' = (r.1.1, lamport', b').
Proof.
  cbn zeta. intros Hb. unfold register_this_device in *. cbn zeta in *.
  destruct (match state !! device_key dev with Some r => d_deleted r | None => false end) eqn:Ed.
  { cbn in *. by rewrite Ed. }
  destruct (negb (negb _)) eqn:Ech; cbn in *.
  - rewrite Hb, Ed, Ech. done.
  - rewrite Hb, !lookup_insert_eq. cbn.
    clear Ech Hb.
    destruct (dr_name <$> _) as [n|]; [destruct (decide (str_trim n = "")) as [E|E]|];
      cbn; repeat case_decide; try done;
      by rewrite !bool_decide_true, N.leb_refl by done.
Qed.

(** The state keeps a tombstone whosever it is. *)
Lemma register_this_device_keeps_tombstone state lamport b k r :
  state !! k = Some r → r.(d_deleted) = true →
  (register_this_device env state lamport dev b).1.1 !! k = Some r.
Proof.
  intros Hr Hd. destruct (decide (k = device_key dev)) as [->|Hne].
  - by erewrite register_this_device_retired.
  - unfold register_this_device. cbn zeta. repeat case_bool; cbn; try done.
    by rewrite lookup_insert_ne by congruence.
Qed.

Lemma register_my_name_twice self_name lamport b lamport' :
  let r := register_my_name env self_name lamport dev b in
  register_my_name env r.1.1 lamport' dev r.2 = (r.1.1, lamport', r.2).
Proof.
  unfold register_my_name. cbn zeta.
  destruct self_name as [cur|]; case_decide as Hn; cbn; rewrite ?decide_True by done; try done.
  case_decide as Hs; cbn.
  - by rewrite !decide_True by done.
  - rewrite decide_True; [done|]. symmetry. apply legacy_display_name_trimmed.
Qed.

(** The name register does not look at the sidecar. *)
Lemma register_my_name_meta self_name lamport b meta :
  register_my_name env self_name lamport dev (with_meta meta b) =
    let '(r, lamport, b) := register_my_name env self_name lamport dev b in
    (r, lamport, with_meta meta b).
Proof.
  unfold register_my_name. cbn zeta.
  change (load_me (with_meta meta b)) with (load_me b).
  change (legacy_display_name (with_meta meta b)) with (legacy_display_name b).
  by repeat case_match; simplify_eq.
Qed.

Lemma register_my_name_devices self_name lamport b :
  (register_my_name env self_name lamport dev b).2.(bk_devices) = b.(bk_devices).
Proof. unfold register_my_name. cbn zeta. by repeat case_match. Qed.

Lemma register_my_name_spec self_name lamport b :
  lamport + 1 < 2 ^ 64 →
  let r := register_my_name env self_name lamport dev b in
  lamport ≤ r.1.2 ≤ lamport + 1 ∧
  fresh_or_old_name dev lamport r.1.2 self_name r.1.1 ∧
  same_ledgers r.2 b ∧ same_sidecar r.2 b ∧ r.2.(bk_devices) = b.(bk_devices) ∧
  (∀ x, r.1.1 = Some x → x.(sn_name) = str_trim (load_me r.2)).
Proof.
  intros Hlt. unfold register_my_name. cbn zeta.
  assert (∀ lo n, fresh_or_old_name dev lo lo n n) as Hid by (intros lo n x; auto).
  assert (∀ name c b', lamport < c ≤ lamport + 1 → name = str_trim (load_me b') →
    same_ledgers b' b → same_sidecar b' b → b'.(bk_devices) = b.(bk_devices) →
    let r := (Some (mkSelfName name (mkLamport c dev)), c, b') in
    lamport ≤ r.1.2 ≤ lamport + 1 ∧
    fresh_or_old_name dev lamport r.1.2 self_name r.1.1 ∧
    same_ledgers r.2 b ∧ same_sidecar r.2 b ∧ r.2.(bk_devices) = b.(bk_devices) ∧
    (∀ x, r.1.1 = Some x → x.(sn_name) = str_trim (load_me r.2))) as Hstamp.
  { intros name c b' Hc Hname H1 H2 H3. cbn. split; [lia|]. split; [|naive_solver].
    intros x [= <-]. right. split; [done|cbn; lia]. }
  rewrite tick_small by done.
  destruct self_name as [cur|]; case_decide as Hn.
  - cbn. split; [lia|]. split; [apply Hid|]. split_and!; try done. by intros x [= <-].
  - apply Hstamp; try done; lia.
  - case_decide as Hs.
    + cbn. split; [lia|]. split; [apply Hid|]. by split_and!.
    + apply Hstamp; try done; [lia|]. symmetry. apply legacy_display_name_trimmed.
  - apply Hstamp; try done; lia.
Qed.
End own_rows.

(** ** The whole reconciliation *)

(** How many ticks a round can take. *)
Definition book_room (state : SyncState) (b : Book) : N :=
  reconcile_room b.(bk_contacts) state.(contacts)
  + reconcile_room b.(bk_verified) state.(verified)
  + reconcile_room b.(bk_trusted) state.(trusted)
  + reconcile_room b.(bk_blocked) state.(blocked)
  + reconcile_room b.(bk_names) state.(names)
  + reconcile_room b.(bk_relays) state.(relays) + 2.

(** The ledgers, as the registers of a state show them. *)
Definition shows_ledgers (state : SyncState) (b : Book) : Prop :=
  project_live c_deleted c_pubkey state.(contacts) = b.(bk_contacts) ∧
  (∀ k, is_Some (project_live m_deleted m_since state.(verified) !! k)
        ↔ is_Some (b.(bk_verified) !! k)) ∧
  (∀ k, is_Some (project_live m_deleted m_since state.(trusted) !! k)
        ↔ is_Some (b.(bk_trusted) !! k)) ∧
  (∀ k, is_Some (project_live m_deleted m_since state.(blocked) !! k)
        ↔ is_Some (b.(bk_blocked) !! k)) ∧
  (∀ k, project_live n_deleted (fun r => (r.(n_pinned), r.(n_pending))) state.(names) !! k =
     match b.(bk_names) !! k with
     | Some row => if name_row_present row then Some (row.(nr_pinned), row.(nr_pending)) else None
     | None => None
     end) ∧
  project_live r_deleted r_relay state.(relays) = b.(bk_relays).

(** Every clocked register of [new] is one of [old] or carries a fresh own clock. *)
Definition fresh_or_old_state (dev : DeviceId) (lo hi : N) (old new : SyncState) : Prop :=
  fresh_or_old c_clock dev lo hi old.(contacts) new.(contacts) ∧
  fresh_or_old m_clock dev lo hi old.(verified) new.(verified) ∧
  fresh_or_old m_clock dev lo hi old.(trusted) new.(trusted) ∧
  fresh_or_old m_clock dev lo hi old.(blocked) new.(blocked) ∧
  fresh_or_old n_clock dev lo hi old.(names) new.(names) ∧
  fresh_or_old r_clock dev lo hi old.(relays) new.(relays) ∧
  fresh_or_old d_clock dev lo hi old.(devices) new.(devices) ∧
  fresh_or_old_name dev lo hi old.(self_name) new.(self_name).

Lemma fresh_or_old_name_weaken dev lo hi lo' hi' (old new : option SelfName) :
  lo' ≤ lo → hi ≤ hi' →
  fresh_or_old_name dev lo hi old new → fresh_or_old_name dev lo' hi' old new.
Proof.
  intros H1 H2 H x Hx. destruct (H x Hx) as [?|[? ?]]; [by left|right]. split; [done|lia].
Qed.

Section book.
Context `{!HexLower} (env : Env) (dev : DeviceId).

(** The state a reconciliation ends with, register by register. *)
Ltac run_book :=
  unfold reconcile_book;
  repeat (match goal with |- context [let '(_, _) := ?x in _] =>
            first [destruct x as [[? ?] ?] eqn:? | destruct x as [? ?] eqn:?] end; cbn).

Lemma reconcile_book_contacts state lamport b :
  (reconcile_book env state lamport dev b).1.1.(contacts) =
    (reconcile_contacts state.(contacts) b.(bk_contacts) lamport dev).1.
Proof. run_book. done. Qed.

Lemma reconcile_book_devices state lamport b :
  ∃ lamport', (reconcile_book env state lamport dev b).1.1.(devices) =
    (register_this_device env state.(devices) lamport' dev b).1.1.
Proof.
  run_book. match goal with E : register_this_device _ _ ?l _ _ = _ |- _ => exists l; by rewrite E end.
Qed.

Lemma reconcile_book_sidecar state lamport b :
  same_sidecar (reconcile_book env state lamport dev b).2 b.
Proof.
  run_book.
  match goal with E1 : register_this_device _ _ _ _ _ = _, E2 : register_my_name _ _ _ _ _ = _ |- _ =>
    revert E1 E2 end.
  unfold register_this_device, register_my_name, same_sidecar. cbn zeta. intros E1 E2.
  repeat case_match; simplify_eq; done.
Qed.

(** Everything [reconcile_book] does, in one statement. *)
Lemma reconcile_book_spec state lamport b :
  lamport + book_room state b < 2 ^ 64 →
  let r := reconcile_book env state lamport dev b in
  lamport ≤ r.1.2 ≤ lamport + book_room state b ∧
  shows_ledgers r.1.1 b ∧
  fresh_or_old_state dev lamport r.1.2 state r.1.1 ∧
  r.1.1.(seen) = reconcile_seen state.(seen) b.(bk_seen) ∧
  (devices_authored state → devices_authored r.1.1) ∧
  same_ledgers r.2 b ∧ same_sidecar r.2 b.
Proof.
  unfold book_room. intros Hroom. unfold reconcile_book. cbn zeta.
  pose proof (reconcile_contacts_spec dev state.(contacts) b.(bk_contacts) lamport ltac:(lia)) as H1.
  destruct (reconcile_contacts _ _ _ _) as [cs l1]. cbn in H1.
  pose proof (tombstone_marks_spec dev state.(verified) b.(bk_verified) l1 ltac:(lia)) as H2.
  destruct (tombstone_marks state.(verified) _ _ _) as [vs l2]. cbn in H2.
  pose proof (tombstone_marks_spec dev state.(trusted) b.(bk_trusted) l2 ltac:(lia)) as H3.
  destruct (tombstone_marks state.(trusted) _ _ _) as [ts l3]. cbn in H3.
  pose proof (tombstone_marks_spec dev state.(blocked) b.(bk_blocked) l3 ltac:(lia)) as H4.
  destruct (tombstone_marks state.(blocked) _ _ _) as [bs l4]. cbn in H4.
  pose proof (reconcile_names_spec dev state.(names) b.(bk_names) l4 ltac:(lia)) as H5.
  destruct (reconcile_names _ _ _ _) as [ns l5]. cbn in H5.
  pose proof (reconcile_relays_spec dev state.(relays) b.(bk_relays) l5 ltac:(lia)) as H6.
  destruct (reconcile_relays _ _ _ _) as [rs l6]. cbn in H6.
  pose proof (register_this_device_spec env dev state.(devices) l6 b ltac:(lia)) as H7.
  destruct (register_this_device _ _ _ _ _) as [[ds l7] b7]. cbn in H7.
  pose proof (register_my_name_spec env dev state.(self_name) l7 b7 ltac:(lia)) as H8.
  destruct (register_my_name _ _ _ _ _) as [[sn l8] b8]. cbn in H8.
  destruct H1 as (?&?&F1), H2 as (?&?&F2), H3 as (?&?&F3), H4 as (?&?&F4), H5 as (?&?&F5),
    H6 as (?&?&F6), H7 as (?&F7&?&L7&S7&?), H8 as (?&F8&L8&S8&_).
  cbn. split; [lia|]. split; [by unfold shows_ledgers|].
  split.
  { unfold fresh_or_old_state. cbn.
    split_and!; first [eapply fresh_or_old_weaken; [..|eassumption]; lia
                      |eapply fresh_or_old_name_weaken; [..|eassumption]; lia]. }
  split; [done|]. split; [done|].
  unfold same_ledgers, same_sidecar in *. destruct_and!. split_and!; congruence.
Qed.


(** Reconciling what was just reconciled ticks nothing and writes nothing. *)
Lemma reconcile_book_twice state lamport b lamport' meta :
  lamport + book_room state b < 2 ^ 64 →
  let r := reconcile_book env state lamport dev b in
  reconcile_book env r.1.1 lamport' dev (with_meta meta r.2) =
    (r.1.1, lamport', with_meta meta r.2).
Proof.
  intros Hroom. cbn zeta.
  pose proof (reconcile_book_spec state lamport b Hroom) as Hspec. cbn zeta in Hspec.
  destruct Hspec as (_ & _ & _ & _ & _ & HL & _).
  unfold book_room in Hroom. unfold reconcile_book in *.
  pose proof (reconcile_contacts_spec dev state.(contacts) b.(bk_contacts) lamport ltac:(lia)) as H1.
  pose proof (contacts_twice dev state.(contacts) b.(bk_contacts) lamport) as T1.
  destruct (reconcile_contacts state.(contacts) _ _ _) as [cs l1]. cbn in H1, T1.
  pose proof (tombstone_marks_spec dev state.(verified) b.(bk_verified) l1 ltac:(lia)) as H2.
  pose proof (marks_twice dev state.(verified) b.(bk_verified) l1) as T2.
  destruct (tombstone_marks state.(verified) _ _ _) as [vs l2]. cbn in H2, T2.
  pose proof (tombstone_marks_spec dev state.(trusted) b.(bk_trusted) l2 ltac:(lia)) as H3.
  pose proof (marks_twice dev state.(trusted) b.(bk_trusted) l2) as T3.
  destruct (tombstone_marks state.(trusted) _ _ _) as [ts l3]. cbn in H3, T3.
  pose proof (tombstone_marks_spec dev state.(blocked) b.(bk_blocked) l3 ltac:(lia)) as H4.
  pose proof (marks_twice dev state.(blocked) b.(bk_blocked) l3) as T4.
  destruct (tombstone_marks state.(blocked) _ _ _) as [bs l4]. cbn in H4, T4.
  pose proof (reconcile_names_spec dev state.(names) b.(bk_names) l4 ltac:(lia)) as H5.
  pose proof (names_twice dev state.(names) b.(bk_names) l4) as T5.
  destruct (reconcile_names state.(names) _ _ _) as [ns l5]. cbn in H5, T5.
  pose proof (relays_twice dev state.(relays) b.(bk_relays) l5) as T6.
  destruct (reconcile_relays state.(relays) _ _ _) as [rs l6]. cbn in T6.
  pose proof (register_this_device_twice env dev state.(devices) l6 b) as T7. cbn zeta in T7.
  destruct (register_this_device env state.(devices) l6 dev b) as [[ds l7] b7]. cbn in T7.
  pose proof (register_my_name_devices env dev state.(self_name) l7 b7) as D8.
  pose proof (register_my_name_twice env dev state.(self_name) l7 b7) as T8. cbn zeta in T8.
  destruct (register_my_name env state.(self_name) l7 dev b7) as [[sn l8] b8]. cbn in D8, T8, HL |- *.
  destruct HL as (-> & -> & -> & -> & -> & -> & ->).
  rewrite T1, T2, T3, T4, reconcile_seen_twice, T5, T6 by lia.
  rewrite T7 by done. by rewrite register_my_name_meta, T8.
Qed.
End book.
