(* ===== verification/SyncRound.v ===== *)
(** * Sync rounds, end to end

    [build_local_snapshot] and [apply_merged_state] on a whole book, over the
    serialised sidecar. *)
From S2P Require Import Prelude.
From S2P Require Import Text.
From S2P Require Import Crdt.
From S2P Require Import SyncTypes.
From S2P Require Import SyncMerge.
From S2P Require Import SyncConverge.
From S2P Require Import SyncCodec.
From S2P Require Import Stamps.
From S2P Require Import SyncBridge.
From S2P Require Import SyncBridgeFacts.
Local Open Scope N_scope.

(** Every clock of the state is at most the counter: no clock will be minted twice. *)
Definition stamps_below (state : SyncState) (lamport : N) : Prop :=
  ∀ c, clock_of state c → c.(counter) ≤ lamport.

(** The environment draws 16-byte device ids. *)
Definition env_ok (env : Env) : Prop := length env.(env_random_device) = 16%nat.

Lemma stamps_below_fresh dev lo hi old new :
  lo ≤ hi → fresh_or_old_state dev lo hi old new → stamps_below old lo → stamps_below new hi.
Proof.
  intros Hle (F1&F2&F3&F4&F5&F6&F7&F8) Hb c Hc. unfold stamps_below, clock_of in Hb.
  assert (∀ R (clock : R → Lamport) (m m' : gmap string R) k r,
    fresh_or_old clock dev lo hi m m' → m' !! k = Some r →
    (∀ x, m !! k = Some x → (clock x).(counter) ≤ lo) → (clock r).(counter) ≤ hi) as Hstep.
  { intros R clock m m' k r HF Hr Hold. destruct (HF k r Hr) as [Ho|[_ Hs]]; [|lia].
    pose proof (Hold _ Ho). lia. }
  destruct Hc as [(k&r&Hr&->)|[(k&r&Hr&->)|[(k&r&Hr&->)|[(k&r&Hr&->)|[(k&r&Hr&->)|[(k&r&Hr&->)|
    [(k&r&Hr&->)|(r&Hr&->)]]]]]]].
  - eapply Hstep; [exact F1|done|]. intros x Hx. apply Hb. left. by exists k, x.
  - eapply Hstep; [exact F2|done|]. intros x Hx. apply Hb. do 1 right; left. by exists k, x.
  - eapply Hstep; [exact F3|done|]. intros x Hx. apply Hb. do 2 right; left. by exists k, x.
  - eapply Hstep; [exact F5|done|]. intros x Hx. apply Hb. do 3 right; left. by exists k, x.
  - eapply Hstep; [exact F4|done|]. intros x Hx. apply Hb. do 4 right; left. by exists k, x.
  - eapply Hstep; [exact F6|done|]. intros x Hx. apply Hb. do 5 right; left. by exists k, x.
  - eapply Hstep; [exact F7|done|]. intros x Hx. apply Hb. do 6 right; left. by exists k, x.
  - destruct (F8 r Hr) as [Ho|[_ Hs]]; [|lia].
    assert ((sn_clock r).(counter) ≤ lo); [|lia]. apply Hb. do 7 right. by exists r.
Qed.

Section round.
Context `{!HexLower, !Postcard}.

Lemma load_meta_device env b state lamport dev b1 :
  env_ok env → load_meta env b = ((state, lamport, dev), b1) →
  b1.(bk_device) = Some dev ∧ length dev = 16%nat ∧ same_ledgers b1 b ∧
  b1.(bk_devices) = b.(bk_devices).
Proof.
  intros Henv Hm. unfold load_meta, load_or_init_device in Hm.
  destruct (bk_device b) as [id|] eqn:Ed; [case_decide|];
    match type of Hm with context [bk_meta ?x] =>
      destruct (bk_meta x ≫= _) end; simplify_eq/=;
    by unfold same_ledgers.
Qed.

(** Inversion of a build that succeeded. *)
Lemma build_inv env b snap b' state lamport dev b1 :
  load_meta env b = ((state, lamport, dev), b1) →
  build_local_snapshot env b = Ok (snap, b') →
  ∃ state' lamport' b2 bytes,
    reconcile_book env state lamport dev b1 = (state', lamport', b2) ∧
    snap = to_snapshot state' lamport' dev ∧
    postcard_to_vec snap = Some bytes ∧ b' = with_meta (Some bytes) b2.
Proof.
  intros Hl Hb. unfold build_local_snapshot in Hb. rewrite Hl in Hb.
  destruct (reconcile_book _ _ _ _ _) as [[state' lamport'] b2] eqn:Er.
  unfold save_meta, encode_snapshot, context in Hb.
  destruct (postcard_to_vec _) as [bytes|] eqn:Ep; [|done]. cbn in Hb. simplify_eq.
  naive_solver.
Qed.

Context `{!PostcardLaws}.

(** What [save_meta] wrote, [load_meta] reads. *)
Lemma load_saved env state lamport dev b bytes :
  b.(bk_device) = Some dev → length dev = 16%nat →
  postcard_to_vec (to_snapshot state lamport dev) = Some bytes →
  load_meta env (with_meta (Some bytes) b) =
    ((state, lamport, dev), with_meta (Some bytes) b).
Proof.
  intros Hd Hlen Hp. unfold load_meta, load_or_init_device. cbn. rewrite Hd.
  rewrite decide_True by done. cbn. unfold decode_snapshot.
  rewrite (postcard_snapshot_to_vec _ _ Hp). cbn. by rewrite from_to_snapshot.
Qed.

(** The published snapshot always reflects the ledgers: after a round the
    state it carries shows exactly the contacts, relays and names of the ledgers
    and marks exactly the marked keys, the ledgers themselves are as they were,
    and the sidecar on disk is that same state under the published counter. *)
Theorem build_publishes_ledgers env env' b snap b' state lamport dev b1
    (Henv : env_ok env)
    (Hload : load_meta env b = ((state, lamport, dev), b1))
    (Hroom : lamport + book_room state b1 < 2 ^ 64)
    (Hbuild : build_local_snapshot env b = Ok (snap, b')) :
  shows_ledgers (from_snapshot snap) b ∧ same_ledgers b' b ∧
  load_meta env' b' = ((from_snapshot snap, snap.(ss_lamport), dev), b').
Proof.
  destruct (load_meta_device _ _ _ _ _ _ Henv Hload) as (Hd & Hlen & Hsame & _).
  destruct (build_inv _ _ _ _ _ _ _ _ Hload Hbuild) as (s' & l' & b2 & bs & Hr & -> & Hp & ->).
  pose proof (reconcile_book_spec env dev state lamport b1 Hroom) as Hspec. rewrite Hr in Hspec.
  cbn in Hspec. destruct Hspec as (_ & Hs & _ & _ & _ & Hl & Hsc).
  rewrite from_to_snapshot. cbn [ss_lamport to_snapshot].
  unfold same_ledgers, same_sidecar in *. destruct_and!. split.
  { unfold shows_ledgers in *. destruct_and!.
    repeat match goal with E : _ b1 = _ b |- _ => rewrite <- E; clear E end. split_and!; done. }
  split; [cbn; split_and!; congruence|]. apply load_saved; congruence.
Qed.

(** Clocks are never reused: a round changes a register only under a clock of
    this device above the counter it started from, and when every clock of the
    sidecar was below that counter, every clock is below the new one. *)
Theorem build_stamps_fresh env b snap b' state lamport dev b1
    (Hload : load_meta env b = ((state, lamport, dev), b1))
    (Hroom : lamport + book_room state b1 < 2 ^ 64)
    (Hbuild : build_local_snapshot env b = Ok (snap, b')) :
  lamport ≤ snap.(ss_lamport) ∧
  fresh_or_old_state dev lamport snap.(ss_lamport) state (from_snapshot snap) ∧
  (stamps_below state lamport → stamps_below (from_snapshot snap) snap.(ss_lamport)).
Proof.
  destruct (build_inv _ _ _ _ _ _ _ _ Hload Hbuild) as (s' & l' & b2 & bs & Hr & -> & Hp & ->).
  pose proof (reconcile_book_spec env dev state lamport b1 Hroom) as Hspec. rewrite Hr in Hspec.
  cbn in Hspec. destruct Hspec as (Hc & _ & Hf & _). rewrite from_to_snapshot. cbn.
  split; [lia|]. split; [done|]. intros Hb. eapply stamps_below_fresh; [|done..]. lia.
Qed.

(** Inversion of a merge that succeeded. *)
Lemma apply_inv env incoming b b'' snap b' dev :
  build_local_snapshot env b = Ok (snap, b') →
  load_meta env b' = ((from_snapshot snap, snap.(ss_lamport), dev), b') →
  apply_merged_state env incoming b = Ok b'' →
  let merged := merge (from_snapshot snap) (from_snapshot incoming) in
  let lamport := N.max (N.max snap.(ss_lamport) incoming.(ss_lamport)) (max_counter merged) in
  ∃ bytes, postcard_to_vec (to_snapshot merged lamport dev) = Some bytes ∧
    b'' = project_to_ledgers merged (with_meta (Some bytes) b').
Proof.
  intros Hb Hl Ha. unfold apply_merged_state in Ha. rewrite Hb in Ha. cbn in Ha.
  rewrite Hl in Ha. unfold save_meta, encode_snapshot, context in Ha. cbn zeta.
  destruct (postcard_to_vec _) as [bytes|]; [|done]. cbn in Ha. simplify_eq. eauto.
Qed.

Lemma load_meta_reads env b dev bytes snap :
  b.(bk_device) = Some dev → length dev = 16%nat → b.(bk_meta) = Some bytes →
  postcard_snapshot bytes = Some snap →
  load_meta env b = ((from_snapshot snap, snap.(ss_lamport), dev), b).
Proof.
  intros Hd Hlen Hm Hp. unfold load_meta, load_or_init_device. rewrite Hd.
  rewrite decide_True by done. rewrite Hm. cbn. unfold decode_snapshot. by rewrite Hp.
Qed.

(** Everything [apply_merged_state] does when it succeeds. *)
Lemma apply_spec env env' incoming b b'' state lamport dev b1 :
  env_ok env → load_meta env b = ((state, lamport, dev), b1) →
  apply_merged_state env incoming b = Ok b'' →
  ∃ snap b' bytes,
    build_local_snapshot env b = Ok (snap, b') ∧ b'.(bk_device) = Some dev ∧
    let merged := merge (from_snapshot snap) (from_snapshot incoming) in
    let lamport' := N.max (N.max snap.(ss_lamport) incoming.(ss_lamport)) (max_counter merged) in
    b'' = project_to_ledgers merged (with_meta (Some bytes) b') ∧
    load_meta env' b'' = ((merged, lamport', dev), b'').
Proof.
  intros Henv Hload Ha.
  destruct (build_local_snapshot env b) as [[snap b']|e] eqn:Hb;
    [|by unfold apply_merged_state in Ha; rewrite Hb in Ha].
  destruct (load_meta_device _ _ _ _ _ _ Henv Hload) as (Hd & Hlen & _).
  destruct (build_inv _ _ _ _ _ _ _ _ Hload Hb) as (s' & l' & b2 & bs & Hr & -> & Hp & ->).
  assert (bk_device b2 = Some dev) as Hd2.
  { pose proof (reconcile_book_sidecar env dev state lamport b1) as Hsc. rewrite Hr in Hsc.
    cbn in Hsc. destruct Hsc as (_ & -> & _). done. }
  assert (load_meta env (with_meta (Some bs) b2) =
    ((from_snapshot (to_snapshot s' l' dev), ss_lamport (to_snapshot s' l' dev), dev),
     with_meta (Some bs) b2)) as Hl2.
  { rewrite from_to_snapshot. by apply load_saved. }
  destruct (apply_inv _ _ _ _ _ _ _ Hb Hl2 Ha) as (bytes & Hp' & Hb'').
  eexists _, _, bytes. split; [done|]. split; [done|]. split; [done|].
  subst b''. erewrite load_meta_reads; [|done|done|done|by apply postcard_snapshot_to_vec].
  by rewrite from_to_snapshot.
Qed.


(** The register of a contact after a round: what the ledger says, and under a
    fresh own clock whenever the sidecar said otherwise. *)
Lemma build_stamps_edit env b snap b' state lamport dev b1 name :
  env_ok env → load_meta env b = ((state, lamport, dev), b1) →
  lamport + book_room state b1 < 2 ^ 64 →
  build_local_snapshot env b = Ok (snap, b') →
  project_live c_deleted c_pubkey state.(contacts) !! name ≠ b.(bk_contacts) !! name →
  ∃ r, (from_snapshot snap).(contacts) !! name = Some r ∧
    stamped c_clock dev lamport snap.(ss_lamport) r ∧
    (if r.(c_deleted) then None else Some r.(c_pubkey)) = b.(bk_contacts) !! name.
Proof.
  intros Henv Hload Hroom Hb Hedit.
  destruct (load_meta_device _ _ _ _ _ _ Henv Hload) as (_ & _ & Hsame & _).
  destruct (build_inv _ _ _ _ _ _ _ _ Hload Hb) as (s' & l' & b2 & bs & Hr & -> & _ & _).
  pose proof (reconcile_book_spec env dev state lamport b1 Hroom) as Hspec. rewrite Hr in Hspec.
  cbn in Hspec. destruct Hspec as (_ & (Hshow & _) & (Hf & _) & _).
  pose proof (reconcile_book_contacts env dev state lamport b1) as Hcs. rewrite Hr in Hcs.
  cbn in Hcs. rewrite from_to_snapshot. cbn [ss_lamport to_snapshot].
  assert (bk_contacts b1 = bk_contacts b) as Hbk by apply Hsame.
  rewrite <- Hbk, <- Hshow in Hedit |- *. rewrite !project_live_lookup in *.
  destruct (contacts s' !! name) as [r|] eqn:Er.
  - exists r. split; [done|]. split; [|done].
    destruct (Hf name r Er) as [Ho|?]; [|done]. by rewrite Ho in Hedit.
  - exfalso. destruct (contacts state !! name) as [r|] eqn:Eo; [|done].
    assert (is_Some (contacts s' !! name)) as [? ?]; [|congruence].
    rewrite Hcs. apply reconcile_contacts_keeps; [unfold book_room in Hroom; lia|by exists r].
Qed.


(** A quiet round says nothing new: building a second snapshot in the same
    minute, with no edit in between, publishes the very same snapshot and leaves
    every file as it was. *)
Theorem build_twice_quiet env b snap b' state lamport dev b1
    (Henv : env_ok env)
    (Hload : load_meta env b = ((state, lamport, dev), b1))
    (Hroom : lamport + book_room state b1 < 2 ^ 64)
    (Hbuild : build_local_snapshot env b = Ok (snap, b')) :
  build_local_snapshot env b' = Ok (snap, b').
Proof.
  destruct (load_meta_device _ _ _ _ _ _ Henv Hload) as (Hd & Hlen & _).
  destruct (build_inv _ _ _ _ _ _ _ _ Hload Hbuild) as (s' & l' & b2 & bs & Hr & -> & Hp & ->).
  pose proof (reconcile_book_sidecar env dev state lamport b1) as Hsc.
  pose proof (reconcile_book_twice env dev state lamport b1 l' (Some bs) Hroom) as Ht.
  rewrite Hr in Hsc, Ht. cbn in Hsc, Ht. destruct Hsc as (_ & Hd2 & _).
  unfold build_local_snapshot. rewrite (load_saved env s' l' dev b2 bs) by congruence.
  rewrite Ht. unfold save_meta, encode_snapshot, context. by rewrite Hp.
Qed.

(** What [forget_device] leaves: the row buried under a fresh clock, and gone from
    the ledger. *)
Lemma forget_device_spec env env' id b b' state lamport dev b1 :
  env_ok env → load_meta env b = ((state, lamport, dev), b1) → lamport + 1 < 2 ^ 64 →
  forget_device env id b = Ok b' →
  ∃ state' r,
    load_meta env' b' = ((state', lamport + 1, dev), b') ∧
    state'.(devices) !! device_key id = Some r ∧ r.(d_deleted) = true ∧
    r.(d_clock) = mkLamport (lamport + 1) dev ∧
    b'.(bk_devices) = delete (device_key id) b.(bk_devices).
Proof.
  intros Henv Hload Hlt Hf. unfold forget_device, tombstone_device in Hf. cbn zeta in Hf.
  set (b0 := match bk_devices b !! _ with Some _ => _ | None => _ end) in Hf.
  assert (load_meta env b0 = ((state, lamport, dev), with_devices (bk_devices b0) b1) ∧
    bk_devices b0 = delete (device_key id) b.(bk_devices)) as [Hl0 Hdel].
  { unfold b0. destruct (bk_devices b !! device_key id) eqn:E.
    - split; [|done]. revert Hload. unfold load_meta, load_or_init_device. cbn.
      destruct (bk_device b); [case_decide|]; cbn; destruct (bk_meta b ≫= _); by intros; simplify_eq.
    - rewrite delete_id by done. split; [|done]. rewrite Hload. f_equal.
      destruct (load_meta_device _ _ _ _ _ _ Henv Hload) as (_ & _ & _ & <-). by destruct b1. }
  rewrite Hl0 in Hf.
  destruct (load_meta_device _ _ _ _ _ _ Henv Hload) as (Hd & Hlen & _).
  unfold save_meta, encode_snapshot, context in Hf.
  destruct (postcard_to_vec _) as [bs|] eqn:Hp; [|done]. cbn in Hf. simplify_eq.
  rewrite tick_small in Hp by done.
  eexists _, _. split; [erewrite load_saved; [done|done|done|exact Hp]|].
  cbn. rewrite lookup_insert_eq. split; [done|]. split; [done|]. done.
Qed.

End round.
