(* ===== verification/SyncExamples.v ===== *)
(** * Concrete instances and runs of the address book

    The third-party functions the sync code calls, instantiated: a hexadecimal
    encoding, a serialiser over a finite code book, a cipher that appends a tag
    bound to its nonce and associated data, an identity key derivation.  With them
    the theorems of the address book are applied to concrete books, and the runs
    whose outcome is worth recording are evaluated. *)
From S2P Require Import Prelude.
From S2P Require Import Text.
From S2P Require Import Crdt.
From S2P Require Import ChunkCipher.
From S2P Require Import SyncTypes.
From S2P Require Import SyncMerge.
From S2P Require Import SyncConverge.
From S2P Require Import SyncCodec.
From S2P Require Import Stamps.
From S2P Require Import SyncBridge.
From S2P Require Import SyncBridgeFacts.
From S2P Require Import SyncRound.
Local Open Scope N_scope.

(** ** [data_encoding::HEXLOWER] *)

Definition hex_digit (n : N) : Ascii.ascii :=
  Ascii.ascii_of_N (if n <? 10 then 48 + n else 87 + n).

Fixpoint hex (b : bytes) : string :=
  match b with
  | [] => ""
  | x :: b => String (hex_digit (Byte.to_N x / 16)) (String (hex_digit (Byte.to_N x mod 16)) (hex b))
  end.

Definition unhex_digit (c : Ascii.ascii) : N :=
  let n := Ascii.N_of_ascii c in if n <? 97 then n - 48 else n - 87.

Lemma unhex_hex x :
  unhex_digit (hex_digit (Byte.to_N x / 16)) * 16 + unhex_digit (hex_digit (Byte.to_N x mod 16))
    = Byte.to_N x.
Proof. by destruct x. Qed.

#[export] Instance hex_lower : HexLower := {| hexlower := hex |}.
#[export] Instance hex_lower_laws : HexLowerLaws.
Proof.
  split. intros x. induction x as [|a x IH]; intros [|b y] Heq; try done.
  cbn [hexlower hex_lower hex] in Heq. injection Heq as Hhi Hlo Ht.
  f_equal; [|by apply IH]. apply byte_to_N_inj.
  rewrite <- (unhex_hex a), <- (unhex_hex b). by rewrite Hhi, Hlo.
Qed.

(** ** [postcard] over a finite code book: the [i]-th snapshot is [i] bytes long *)

#[export] Instance ContactEntry_eq_dec : EqDecision ContactEntry.
Proof. solve_decision. Defined.
#[export] Instance MarkEntry_eq_dec : EqDecision MarkEntry.
Proof. solve_decision. Defined.
#[export] Instance SeenEntry_eq_dec : EqDecision SeenEntry.
Proof. solve_decision. Defined.
#[export] Instance NameEntry_eq_dec : EqDecision NameEntry.
Proof. solve_decision. Defined.
#[export] Instance RelayEntry_eq_dec : EqDecision RelayEntry.
Proof. solve_decision. Defined.
#[export] Instance DeviceEntry_eq_dec : EqDecision DeviceEntry.
Proof. solve_decision. Defined.
#[export] Instance SelfName_eq_dec : EqDecision SelfName.
Proof. solve_decision. Defined.
#[export] Instance SyncSnapshot_eq_dec : EqDecision SyncSnapshot.
Proof. solve_decision. Defined.
#[export] Instance PairPayload_eq_dec : EqDecision PairPayload.
Proof. solve_decision. Defined.

Definition codebook_write {A} `{!EqDecision A} (book : list A) (a : A) : option bytes :=
  (fun p => replicate p.1 Byte.x00) <$> list_find (eq a) book.
Definition codebook_read {A} (book : list A) (b : bytes) : option A := book !! length b.

Lemma codebook_read_write {A} `{!EqDecision A} (book : list A) a b :
  codebook_write book a = Some b → codebook_read book b = Some a.
Proof.
  unfold codebook_write, codebook_read. intros ([i x] & Hf & ->)%fmap_Some.
  apply list_find_Some in Hf as (Hi & <- & _). cbn. by rewrite length_replicate.
Qed.

(** Byte strings past the end of the snapshots read as the older shape. *)
Definition codebook (snaps : list SyncSnapshot) (olds : list SyncSnapshotV2)
    (pairs : list PairPayload) : Postcard := {|
  postcard_to_vec := codebook_write snaps;
  postcard_snapshot := codebook_read snaps;
  postcard_v2 b := olds !! (length b - length snaps)%nat;
  postcard_v1 _ := None;
  postcard_v0 _ := None;
  postcard_pair_to_vec := codebook_write pairs;
  postcard_pair := codebook_read pairs;
  postcard_take_secret _ := None |}.

Lemma codebook_laws snaps olds pairs : @PostcardLaws (codebook snaps olds pairs).
Proof. split; cbn; intros ??; apply codebook_read_write. Qed.

(** ** The cipher and the key derivation *)

Definition toy_tag (nonce aad : bytes) : bytes :=
  take 16 (nonce ++ aad ++ replicate 16 Byte.x00).

#[export] Instance toy_aes : Aes256Gcm := {|
  aes_encrypt _ nonce aad m := Some (m ++ toy_tag nonce aad);
  aes_decrypt _ nonce aad c :=
    if decide (drop (length c - 16) c = toy_tag nonce aad)
    then Some (take (length c - 16) c) else None |}.

#[export] Instance toy_aes_laws : Aes256GcmLaws.
Proof.
  assert (∀ n aad, length (toy_tag n aad) = 16%nat) as Htag.
  { intros n aad. unfold toy_tag. rewrite length_take, !length_app, length_replicate. lia. }
  split; cbn.
  - intros _ n aad m c [= <-]. rewrite length_app, Htag, Nat.add_sub.
    by rewrite drop_app_length, take_app_length, decide_True.
  - intros _ n aad m c. case_decide as Hd; [|done]. intros [= <-]. f_equal. rewrite <- Hd. apply take_drop.
  - intros _ n aad m c [= <-]. by rewrite length_app, Htag.
Qed.

#[export] Instance toy_kdf : Blake3Kdf := {| derive_key _ k := k |}.

(** ** Two machines of one identity *)

Definition dev_a : DeviceId := replicate 16 Byte.x0a.
Definition dev_b : DeviceId := replicate 16 Byte.x0b.

Definition env_a : Env := mkEnv 120 "linux" "desk" dev_a true.
Definition env_b : Env := mkEnv 130 "android" "phone" dev_b true.

Definition empty_book : Book :=
  mkBook None None false ∅ ∅ ∅ ∅ (mkSeen ∅ ∅) ∅ ∅ ∅ None None.

(** The ledgers of a desktop: one contact, verified, with a relay. *)
Definition book_a : Book :=
  mkBook None None false {["alice" := "KA"]} {["KA" := 7]} ∅ ∅ (mkSeen {["KA" := 3]} ∅)
    {["KA" := mkNameRow "Alice" None "Ali"]} {["KA" := "https://r"]} ∅ (Some "Bob ") None.

Definition edit_contacts (c : gmap string string) (b : Book) : Book :=
  mkBook b.(bk_meta) b.(bk_device) b.(bk_paired) c b.(bk_verified) b.(bk_trusted)
    b.(bk_blocked) b.(bk_seen) b.(bk_names) b.(bk_relays) b.(bk_devices) b.(bk_me)
    b.(bk_config_name).

(** The state a round of [env] ends with, from a sidecar that reads as empty. *)
Definition first_round (env : Env) (b : Book) : SyncState * N * Book :=
  reconcile_book env SyncState_default 0 env.(env_random_device)
    (with_device (Some env.(env_random_device)) b).

Definition snap_of (r : SyncState * N * Book) (dev : DeviceId) : SyncSnapshot :=
  to_snapshot r.1.1 r.1.2 dev.

Definition snap_a : SyncSnapshot := snap_of (first_round env_a book_a) dev_a.

(** The same machine after losing [sync/meta.bin] and re-keying its contact. *)
Definition book_a' : Book := edit_contacts {["alice" := "KB"]} book_a.
Definition snap_a' : SyncSnapshot := snap_of (first_round env_a book_a') dev_a.

(** The other machine: another contact, a later relay for nobody else. *)
Definition book_b : Book :=
  mkBook None None false {["carol" := "KD"]} ∅ ∅ ∅ (mkSeen ∅ ∅) ∅ ∅ ∅ None None.
Definition snap_b : SyncSnapshot := snap_of (first_round env_b book_b) dev_b.

Definition run_round (env : Env) (s : SyncSnapshot) (b : Book) : SyncState * N * Book :=
  reconcile_book env (from_snapshot s) s.(ss_lamport) s.(ss_device) b.

(** The desktop after its first round, then with an edit it has not published. *)
Definition book_a1 : Book :=
  with_meta (Some (replicate 0 Byte.x00)) (first_round env_a book_a).2.
Definition book_a2 : Book := edit_contacts {["alice" := "KC"]} book_a1.
Definition snap_a2 : SyncSnapshot := snap_of (run_round env_a snap_a book_a2) dev_a.

Definition merged_snapshot (mine theirs : SyncSnapshot) : SyncSnapshot :=
  let m := merge (from_snapshot mine) (from_snapshot theirs) in
  to_snapshot m (N.max (N.max mine.(ss_lamport) theirs.(ss_lamport)) (max_counter m))
    mine.(ss_device).

(** The desktop's sidecar once it has forgotten the phone. *)
Definition snap_forget : SyncSnapshot :=
  let s := from_snapshot snap_a in
  to_snapshot
    (mkSyncState s.(contacts) s.(verified) s.(trusted) s.(seen) s.(names) s.(blocked) s.(relays)
       (<[device_key dev_b := mkDeviceReg "" "" 0 (mkLamport 7 dev_a) true]> s.(devices))
       s.(self_name)) 7 dev_a.

Definition ex_v2 : SyncSnapshotV2 :=
  mkSyncSnapshotV2 9 dev_b [mkContactEntry "dave" "KE" (mkLamport 9 dev_b) false] [] [] [] [] [] [] [].
Definition ex_pair : PairPayload := mkPairPayload (replicate 32 Byte.x07) snap_a.

#[export] Instance ex_postcard : Postcard :=
  codebook [snap_a; snap_a2; merged_snapshot snap_a2 snap_b; snap_forget;
            merged_snapshot snap_forget snap_b; snap_a'; snap_b] [ex_v2] [ex_pair].
#[export] Instance ex_postcard_laws : PostcardLaws := codebook_laws _ _ _.

Ltac evaluate := vm_compute; reflexivity.

(** Computed values of the runs, for the witnesses below. *)
Definition result_get {A E} (r : result A E) (d : A) : A := match r with Ok a => a | Err _ => d end.

Definition merged_book : Book := result_get (apply_merged_state env_a snap_b book_a2) empty_book.
Definition forgot_book : Book := result_get (forget_device env_a dev_b book_a1) empty_book.
Definition forgot_merged : Book :=
  result_get (apply_merged_state env_a snap_b forgot_book) empty_book.

Lemma run_build : build_local_snapshot env_a book_a = Ok (snap_a, book_a1).
Proof. evaluate. Qed.
Lemma run_apply : apply_merged_state env_a snap_b book_a2 = Ok merged_book.
Proof. evaluate. Qed.
Lemma run_forget : forget_device env_a dev_b book_a1 = Ok forgot_book.
Proof. evaluate. Qed.
Lemma run_forget_apply : apply_merged_state env_a snap_b forgot_book = Ok forgot_merged.
Proof. evaluate. Qed.
Lemma run_load_first :
  load_meta env_a book_a = ((SyncState_default, 0, dev_a), with_device (Some dev_a) book_a).
Proof. evaluate. Qed.
Lemma run_load_next b :
  b.(bk_meta) = Some [] → b.(bk_device) = Some dev_a →
  load_meta env_a b = ((from_snapshot snap_a, 6, dev_a), b).
Proof. intros Hm Hd. by rewrite (load_meta_reads env_a b dev_a [] snap_a). Qed.

(** ** Witnesses *)

Lemma build_publishes_ledgers_witness :
  shows_ledgers (from_snapshot snap_a) book_a ∧ same_ledgers book_a1 book_a ∧
  load_meta env_a book_a1 = ((from_snapshot snap_a, 6, dev_a), book_a1).
Proof.
  apply (build_publishes_ledgers env_a env_a book_a snap_a book_a1 SyncState_default 0 dev_a
           (with_device (Some dev_a) book_a)).
  - reflexivity.
  - apply run_load_first.
  - vm_compute. reflexivity.
  - apply run_build.
Defined.

Lemma build_stamps_fresh_witness :
  0 ≤ snap_a.(ss_lamport) ∧
  fresh_or_old_state dev_a 0 6 SyncState_default (from_snapshot snap_a) ∧
  (stamps_below SyncState_default 0 → stamps_below (from_snapshot snap_a) 6).
Proof.
  apply (build_stamps_fresh env_a book_a snap_a book_a1 SyncState_default 0 dev_a
           (with_device (Some dev_a) book_a)).
  - apply run_load_first.
  - vm_compute. reflexivity.
  - apply run_build.
Defined.

Lemma build_twice_quiet_witness : build_local_snapshot env_a book_a1 = Ok (snap_a, book_a1).
Proof.
  apply (build_twice_quiet env_a book_a snap_a book_a1 SyncState_default 0 dev_a
           (with_device (Some dev_a) book_a)).
  - reflexivity.
  - apply run_load_first.
  - vm_compute. reflexivity.
  - apply run_build.
Defined.




(** Two maps with no key in common agree. *)
Lemma map_agree_disjoint {R} `{!Register R} (m1 m2 : gmap string R) :
  forallb (fun p => negb (bool_decide (is_Some (m2 !! p.1)))) (map_to_list m1) = true →
  map_agree m1 m2.
Proof.
  rewrite forallb_forall. intros Hd k a b Ha%elem_of_map_to_list Hb. exfalso.
  specialize (Hd (k, a)). rewrite <- list_elem_of_In in Hd. specialize (Hd Ha). cbn in Hd.
  rewrite Hb in Hd. discriminate Hd.
Qed.

Lemma agree_ab : state_agree (from_snapshot snap_a) (from_snapshot snap_b).
Proof.
  unfold state_agree. split_and!; try (apply map_agree_disjoint; evaluate).
  exact I.
Qed.

Lemma agree_default s : state_agree SyncState_default s.
Proof. unfold state_agree. split_and!; try done; intros k x y Hx; cbn in Hx; by rewrite lookup_empty in Hx. Qed.

Lemma authored_default : devices_authored SyncState_default.
Proof. intros k x Hx. cbn in Hx. by rewrite lookup_empty in Hx. Qed.

Lemma agree_pairwise :
  pairwise state_agree [SyncState_default; from_snapshot snap_a; from_snapshot snap_b].
Proof.
  pose proof agree_ab. pose proof agree_default.
  intros x y Hx Hy.
  repeat match goal with
  | H : _ ∈ _ :: _ |- _ => apply elem_of_cons in H as [->|H]
  | H : _ ∈ [] |- _ => by apply not_elem_of_nil in H
  end; eauto using state_agree_refl, state_agree_sym.
Qed.

Lemma merge_all_converges_witness :
  merge_all SyncState_default [from_snapshot snap_a; from_snapshot snap_b]
  = merge_all SyncState_default [from_snapshot snap_b; from_snapshot snap_a; from_snapshot snap_b].
Proof. apply merge_all_converges; [set_solver|apply agree_pairwise]. Defined.

Lemma devices_authored_one id r :
  device_accept id r = true → devices_authored (mkSyncState ∅ ∅ ∅ ∅ ∅ ∅ ∅ {[id := r]} None).
Proof. intros H k x. cbn. rewrite lookup_singleton_Some. by intros [<- <-]. Qed.

Definition row_a : DeviceReg := mkDeviceReg "desk" "linux" 60 (mkLamport 3 dev_a) false.
Definition row_b : DeviceReg := mkDeviceReg "phone" "android" 60 (mkLamport 4 dev_b) false.
Definition state_row (dev : DeviceId) (r : DeviceReg) : SyncState :=
  mkSyncState ∅ ∅ ∅ ∅ ∅ ∅ ∅ {[device_key dev := r]} None.

Lemma merge_semilattice_witness :
  let s := state_row dev_a row_a in let t := state_row dev_b row_b in
  merge s t = merge t s ∧ merge s (merge t SyncState_default) = merge (merge s t) SyncState_default ∧
  merge s s = s.
Proof.
  cbn zeta. apply (merge_semilattice (state_row dev_a row_a) (state_row dev_b row_b) SyncState_default).
  - apply devices_authored_one. evaluate.
  - apply devices_authored_one. evaluate.
  - unfold state_agree. split_and!; try (apply map_agree_disjoint; evaluate). exact I.
  - apply state_agree_sym, agree_default.
  - apply state_agree_sym, agree_default.
Defined.

(** The desktop's contact, removed on the phone under a later clock. *)
Definition removed_alice : SyncState :=
  mkSyncState {["alice" := mkContactReg "KA" (mkLamport 9 dev_b) true]} ∅ ∅ ∅ ∅ ∅ ∅ ∅ None.

Lemma merge_contact_last_writer_wins_witness :
  let r := mkContactReg "KA" (mkLamport 9 dev_b) true in
  ((from_snapshot snap_a).(contacts) !! "alice" = Some r ∨ removed_alice.(contacts) !! "alice" = Some r) ∧
  (∀ x, (from_snapshot snap_a).(contacts) !! "alice" = Some x ∨ removed_alice.(contacts) !! "alice" = Some x →
     lam_ge r.(c_clock) x.(c_clock) = true).
Proof.
  cbn zeta. apply (merge_contact_last_writer_wins (from_snapshot snap_a) removed_alice "alice").
  evaluate.
Defined.

Lemma merge_device_authorship_witness :
  SyncState_default.(devices) !! device_key dev_b = Some row_b ∨
  device_key row_b.(d_clock).(device) = device_key dev_b.
Proof.
  apply (merge_device_authorship SyncState_default (state_row dev_b row_b) (device_key dev_b) row_b).
  - evaluate.
  - reflexivity.
Defined.

Definition ex_salt : bytes := replicate 16 Byte.x5a.

Lemma snapshot_crypto_roundtrip_witness :
  ∃ snap, decrypt_snapshot (snapshot_key ex_salt)
            (result_get (encrypt_snapshot ex_salt (snapshot_key ex_salt) snap_a) []) = Ok snap ∧
    from_snapshot snap = (first_round env_a book_a).1.1 ∧ snap.(ss_lamport) = 6.
Proof.
  apply (snapshot_crypto_roundtrip ex_salt (snapshot_key ex_salt) (first_round env_a book_a).1.1 6 dev_a).
  - reflexivity.
  - evaluate.
Defined.

Lemma old_snapshot_erases_nothing_witness :
  let b := replicate 7 Byte.x00 in
  (merge (from_snapshot snap_a) (from_snapshot (from_v2 ex_v2))).(self_name)
    = (from_snapshot snap_a).(self_name) ∧
  (postcard_v2 b = None →
     (merge (from_snapshot snap_a) (from_snapshot (from_v2 ex_v2))).(relays)
     = (from_snapshot snap_a).(relays)).
Proof.
  cbn zeta.
  apply (old_snapshot_erases_nothing (replicate 7 Byte.x00) (from_v2 ex_v2) (from_snapshot snap_a)).
  - evaluate.
  - reflexivity.
Defined.

Lemma PairPayload_roundtrip_witness : PairPayload_decode [] = Ok ex_pair.
Proof. apply (PairPayload_roundtrip ex_pair []). evaluate. Defined.

Lemma open_unsalted_witness :
  open_under ex_salt (ex_salt ++ toy_tag (chunk_nonce 0) (chunk_aad 0 1)) = Ok ex_salt.
Proof.
  apply (open_unsalted ex_salt ex_salt).
  - evaluate.
  - intros rest Hrest. discriminate Hrest.
Defined.

(** Convergence does need clocks that are never reused, and one path of the code
    reuses them: a device whose sidecar is lost reads it as empty, keeps its device
    id, and stamps its next edit with counter 1 again. Of the two machines that then
    receive its two snapshots in different orders, each keeps another key for the
    same contact, and exchanging their states any number of times changes neither. *)
Theorem lost_sidecar_diverges :
  let s1 := from_snapshot snap_a in
  let s2 := from_snapshot snap_a' in
  let x := merge (merge SyncState_default s1) s2 in
  let y := merge (merge SyncState_default s2) s1 in
  build_local_snapshot env_a book_a = Ok (snap_a, book_a1) ∧
  build_local_snapshot env_a
    (edit_contacts {["alice" := "KB"]} (with_meta None book_a1)) =
    Ok (snap_a', edit_contacts {["alice" := "KB"]} (with_meta (Some (replicate 5 Byte.x00)) book_a1)) ∧
  c_pubkey <$> x.(contacts) !! "alice" = Some "KA" ∧
  c_pubkey <$> y.(contacts) !! "alice" = Some "KB" ∧
  merge x y = x ∧ merge y x = y.
Proof.
  cbn zeta. split_and!; vm_compute; reflexivity.
Qed.
