(* ===== verification/Limits.v ===== *)
(** * Per-address rate limiting ([relay/src/limits.rs])

    The two limiters of the relay: the rendezvous limiter (posts and distinct
    slots on a minute window, slot claims on an hour window) and the limiter of
    the unauthenticated write routes.  An address is any countable type; a window
    map is a finite map; [u64] seconds and [u32] counts are [Z]. *)
From S2P Require Import Prelude.
Local Open Scope Z_scope.

Definition DEFAULT_RZ_POSTS_PER_MIN : Z := 30.
Definition DEFAULT_RZ_SLOTS_PER_MIN : Z := 60.
Definition DEFAULT_RZ_CLAIMS_PER_HOUR : Z := 10.
Definition DEFAULT_WRITES_PER_MIN : Z := 240.
Definition MAX_RZ_LIMITER_IPS : Z := 100000.
Definition RZ_LIMITER_WINDOW_SECS : Z := 60.
Definition RZ_CLAIM_WINDOW_SECS : Z := 3600.

Record RzIpWindow := mkRzIpWindow {
  rw_window_start : Z;
  rw_posts : Z;
  rw_slots : gset string;
  rw_claim_window_start : Z;
  rw_claims : Z }.

(** [RzIpWindow::default()]. *)
Definition RzIpWindow_default : RzIpWindow := mkRzIpWindow 0 0 ∅ 0 0.

Inductive RzAction :=
  | Post
  | GetSlot (slot : string)
  | Claim.

(** The two refusals, both [429 TOO_MANY_REQUESTS]. *)
Definition RZ_LIMITED : string := "rendezvous rate limit exceeded".
Definition RZ_CLAIM_LIMITED : string := "too many new rendezvous slots from this address".
Definition WRITE_LIMITED : string := "write rate limit exceeded".

Record WriteIpWindow := mkWriteIpWindow { ww_window_start : Z; ww_writes : Z }.
Definition WriteIpWindow_default : WriteIpWindow := mkWriteIpWindow 0 0.

(** [map.len()] and [map.retain]. *)
Definition map_len {K A} `{Countable K} (m : gmap K A) : Z := Z.of_nat (size m).

(** [RzLimiter] and [WriteLimiter]: one window per address. *)
Abbreviation RzLimiter Ip := (gmap Ip RzIpWindow).
Abbreviation WriteLimiter Ip := (gmap Ip WriteIpWindow).

Section limiter.
Context {Ip : Type} `{Countable Ip}.

(** Whether a window survives the memory guard. *)
Definition rz_keep (now : Z) (w : RzIpWindow) : bool :=
  (now <? w.(rw_window_start) + RZ_LIMITER_WINDOW_SECS)
  || (now <? w.(rw_claim_window_start) + RZ_CLAIM_WINDOW_SECS).

Definition retain {A} (keep : A → bool) (m : gmap Ip A) : gmap Ip A :=
  filter (fun p => keep p.2 = true) m.

(** The memory guard of both limiters: the map it leaves, and whether the request goes
    on to be accounted for ([false] admits it as it is). *)
Definition guard {A} (keep : A → bool) (ip : Ip) (m : gmap Ip A)
    : gmap Ip A * bool :=
  if (MAX_RZ_LIMITER_IPS <=? map_len m) && negb (bool_decide (is_Some (m !! ip))) then
    let m := retain keep m in (m, negb (MAX_RZ_LIMITER_IPS <=? map_len m))
  else (m, true).

(** The accounting of [rz_rate_limit] on the window of the address. *)
Definition rz_account (action : RzAction) (now post_cap slot_cap : Z) (w : RzIpWindow)
    : result unit string * RzIpWindow :=
  let w :=
    if w.(rw_window_start) + RZ_LIMITER_WINDOW_SECS <=? now
    then mkRzIpWindow now 0 ∅ w.(rw_claim_window_start) w.(rw_claims) else w in
  match action with
  | Post =>
      if (0 <? post_cap) && (post_cap <=? w.(rw_posts)) then (Err RZ_LIMITED, w)
      else (Ok tt, mkRzIpWindow w.(rw_window_start) (wrap_u32 (w.(rw_posts) + 1)) w.(rw_slots)
                     w.(rw_claim_window_start) w.(rw_claims))
  | GetSlot slot =>
      if bool_decide (slot ∈ w.(rw_slots)) then (Ok tt, w)
      else if (0 <? slot_cap) && (slot_cap <=? wrap_u32 (Z.of_nat (size w.(rw_slots))))
      then (Err RZ_LIMITED, w)
      else (Ok tt, mkRzIpWindow w.(rw_window_start) w.(rw_posts) ({[slot]} ∪ w.(rw_slots))
                     w.(rw_claim_window_start) w.(rw_claims))
  | Claim =>
      let w :=
        if w.(rw_claim_window_start) + RZ_CLAIM_WINDOW_SECS <=? now
        then mkRzIpWindow w.(rw_window_start) w.(rw_posts) w.(rw_slots) now 0 else w in
      if (0 <? post_cap) && (post_cap <=? w.(rw_claims)) then (Err RZ_CLAIM_LIMITED, w)
      else (Ok tt, mkRzIpWindow w.(rw_window_start) w.(rw_posts) w.(rw_slots)
                     w.(rw_claim_window_start) (wrap_u32 (w.(rw_claims) + 1)))
  end.

(** [rz_rate_limit]. *)
Definition rz_rate_limit (limiter : RzLimiter Ip) (ip : option Ip) (action : RzAction)
    (now post_cap slot_cap : Z) : result unit string * RzLimiter Ip :=
  match ip with
  | None => (Ok tt, limiter)
  | Some ip =>
      let '(map, account) := guard (rz_keep now) ip limiter in
      if negb account then (Ok tt, map)
      else
        let w := default RzIpWindow_default (map !! ip) in
        let '(r, w) := rz_account action now post_cap slot_cap w in
        (r, <[ip := w]> map)
  end.

Definition write_keep (now : Z) (w : WriteIpWindow) : bool :=
  now <? w.(ww_window_start) + RZ_LIMITER_WINDOW_SECS.

(** [write_rate_limit]. *)
Definition write_rate_limit (limiter : WriteLimiter Ip) (ip : option Ip) (now cap : Z)
    : result unit string * WriteLimiter Ip :=
  if cap =? 0 then (Ok tt, limiter)
  else
    match ip with
    | None => (Ok tt, limiter)
    | Some ip =>
        let '(map, account) := guard (write_keep now) ip limiter in
        if negb account then (Ok tt, map)
        else
          let w := default WriteIpWindow_default (map !! ip) in
          let w := if w.(ww_window_start) + RZ_LIMITER_WINDOW_SECS <=? now
                   then mkWriteIpWindow now 0 else w in
          if cap <=? w.(ww_writes) then (Err WRITE_LIMITED, <[ip := w]> map)
          else (Ok tt, <[ip := mkWriteIpWindow w.(ww_window_start) (wrap_u32 (w.(ww_writes) + 1))]> map)
    end.
End limiter.

(* ------------------------------------------------------------------ *)
(** ** Fixed windows

    Both limiters keep, per address, a counter that restarts when its window has
    elapsed.  What one window promises over an interval of its own length is
    proved once, for the steps a counter can take: an attempt, a mere restart, an
    eviction of an elapsed window, or nothing. *)

Section fixed_window.
Context (W cap : Z) (HW : 0 < W) (Hcap : 0 < cap <= U32_MAX).

Definition fw_reset (now : Z) (w : Z * Z) : Z * Z := if w.1 + W <=? now then (now, 0) else w.

Inductive fw_step (now : Z) (w : Z * Z) : bool → Z * Z → Prop :=
  | fw_admit w' : w' = fw_reset now w → w'.2 < cap → fw_step now w true (w'.1, wrap_u32 (w'.2 + 1))
  | fw_refuse w' : w' = fw_reset now w → cap <= w'.2 → fw_step now w false w'
  | fw_touch : fw_step now w false (fw_reset now w)
  | fw_evict : w.1 + W <= now → fw_step now w false (0, 0)
  | fw_idle : fw_step now w false w.

Lemma fw_touch_eq now w w' : w' = fw_reset now w → fw_step now w false w'.
Proof. intros ->. apply fw_touch. Qed.

Lemma fw_admit_eq now w v w' :
  v = fw_reset now w → v.2 < cap → w' = (v.1, wrap_u32 (v.2 + 1)) → fw_step now w true w'.
Proof. intros Hv Hc ->. by apply fw_admit. Qed.

(** How many attempts can still be admitted before [t0 + W]. *)
Definition fw_left (t0 now : Z) (w : Z * Z) : Z :=
  if t0 <=? w.1 then Z.max 0 (cap - w.2)
  else if now <? w.1 + W then Z.max 0 (cap - w.2) + cap else cap.

Lemma fw_left_bound t0 now w : 0 <= w.2 → 0 <= fw_left t0 now w <= 2 * cap.
Proof. unfold fw_left. repeat case_bool; lia. Qed.

Lemma fw_left_later t0 now now' w :
  now <= now' → 0 <= w.2 → fw_left t0 now' w <= fw_left t0 now w.
Proof. unfold fw_left. repeat case_bool; zbool; lia. Qed.

Lemma fw_step_left t0 now w admitted w' :
  t0 <= now < t0 + W → 0 <= w.1 <= now → 0 <= w.2 → fw_step now w admitted w' →
  (0 <= w'.1 <= now ∧ 0 <= w'.2) ∧
  fw_left t0 now w' + Z.b2z admitted <= fw_left t0 now w.
Proof.
  intros Ht Hs Hc Hst.
  assert (∀ c, 0 <= c < cap → wrap_u32 (c + 1) = c + 1) as Hwrap.
  { intros c Hcc. apply wrap_u32_small. unfold is_u32. lia. }
  destruct Hst as [v -> Hlt|v -> Hge| |He|]; unfold fw_reset, fw_left in *; cbn in *;
    repeat case_bool; cbn in *; zbool; rewrite ?Hwrap by lia; lia.
Qed.

(** A run of steps at the given times, with what each one admitted. *)
Inductive fw_run : Z * Z → list (Z * bool) → Prop :=
  | fw_run_nil w : fw_run w []
  | fw_run_cons w now admitted w' rest :
      fw_step now w admitted w' → fw_run w' rest → fw_run w ((now, admitted) :: rest).

(** Times in order, all within one window length from [t0]. *)
Fixpoint timed (t0 last : Z) (times : list Z) : Prop :=
  match times with
  | [] => True
  | now :: rest => last <= now ∧ t0 <= now < t0 + W ∧ timed t0 now rest
  end.

Definition count_admitted (evs : list (Z * bool)) : Z := foldr (fun e n => Z.b2z e.2 + n) 0 evs.

(** In any interval of one window length, at most twice the cap: what is left of
    the window the interval opens in, and one window more. *)
Lemma fw_run_bound t0 last w evs :
  fw_run w evs → timed t0 last evs.*1 → 0 <= w.1 <= last → 0 <= w.2 →
  count_admitted evs <= fw_left t0 last w.
Proof.
  intros Hrun. revert last. induction Hrun as [w|w now b w' rest Hst Hrun IH];
    intros last Ht Hs Hc; cbn in *.
  - by apply fw_left_bound.
  - destruct Ht as (Hl & Hn & Ht).
    destruct (fw_step_left t0 now w b w' Hn ltac:(lia) Hc Hst) as [[H1 H2] H3].
    pose proof (fw_left_later t0 last now w Hl Hc).
    specialize (IH now Ht H1 H2). unfold count_admitted in *. lia.
Qed.
End fixed_window.

(** A concrete step: decide the restart, then the constructor. *)
Ltac solve_reset :=
  unfold fw_reset; cbn;
  match goal with |- context [?a <=? ?b] =>
    first [rewrite (proj2 (Z.leb_le a b)) by lia | rewrite (proj2 (Z.leb_gt a b)) by lia] end;
  reflexivity.
Ltac solve_step :=
  first [ apply fw_idle
        | apply fw_touch_eq; solve_reset
        | eapply fw_admit_eq; [solve_reset | cbn; lia | reflexivity] ].

(* ------------------------------------------------------------------ *)
(** ** Traces of the rendezvous limiter *)

Section guard_facts.
Context {Ip : Type} `{Countable Ip}.

Lemma retain_lookup {A} (keep : A → bool) (m : gmap Ip A) i :
  retain keep m !! i = match m !! i with Some w => if keep w then Some w else None | None => None end.
Proof.
  unfold retain. destruct (m !! i) as [w|] eqn:E.
  - destruct (keep w) eqn:Ek.
    + by apply map_lookup_filter_Some.
    + apply map_lookup_filter_None. right. intros x Hx. cbn. congruence.
  - apply map_lookup_filter_None. by left.
Qed.

Lemma size_retain {A} (keep : A → bool) (m : gmap Ip A) : map_len (retain keep m) <= map_len m.
Proof.
  unfold map_len. apply Nat2Z.inj_le. unfold retain.
  rewrite <- !size_dom. apply subseteq_size, dom_filter_subseteq.
Qed.

(** What the guard does to an entry: keeps it, or drops one it may drop. *)
Lemma guard_lookup {A} (keep : A → bool) ip (m : gmap Ip A) i :
  (guard keep ip m).1 !! i = m !! i ∨
  (i ≠ ip ∧ (guard keep ip m).1 !! i = None ∧ ∃ w, m !! i = Some w ∧ keep w = false).
Proof.
  unfold guard. case_bool; [cbn|by left]. rewrite retain_lookup.
  destruct (m !! i) as [w|] eqn:E; [|by left]. destruct (keep w) eqn:Ek; [by left|].
  right. split; [|eauto]. intros ->.
  rewrite E in *. rewrite bool_decide_true in * by eauto. by rewrite andb_false_r in *.
Qed.

Lemma guard_room {A} (keep : A → bool) ip (m : gmap Ip A) :
  (guard keep ip m).2 = true →
  map_len (guard keep ip m).1 < MAX_RZ_LIMITER_IPS ∨ is_Some ((guard keep ip m).1 !! ip).
Proof.
  unfold guard. case_bool; cbn.
  - rewrite negb_true_iff. intros Hl. zbool. by left.
  - intros _. apply andb_false_iff in Heqb as [Hb|Hb]; zbool; [by left|].
    right. by apply bool_decide_eq_true in Hb.
Qed.
End guard_facts.

Lemma map_len_insert {K A} `{Countable K} (m : gmap K A) k v :
  map_len (<[k := v]> m) <= map_len m + 1 ∧ (is_Some (m !! k) → map_len (<[k := v]> m) = map_len m).
Proof.
  unfold map_len. rewrite map_size_insert. destruct (m !! k); cbn; split; try lia.
  intros []. done.
Qed.

Section rz_trace.
Context {Ip : Type} `{Countable Ip}.

(** The two counters of an address. *)
Inductive Counter := PostCounter | ClaimCounter.

Definition counter_of (k : Counter) (w : RzIpWindow) : Z * Z :=
  match k with
  | PostCounter => (w.(rw_window_start), w.(rw_posts))
  | ClaimCounter => (w.(rw_claim_window_start), w.(rw_claims))
  end.
Definition window_of (k : Counter) : Z :=
  match k with PostCounter => RZ_LIMITER_WINDOW_SECS | ClaimCounter => RZ_CLAIM_WINDOW_SECS end.
Definition counts (k : Counter) (a : RzAction) : bool :=
  match k, a with PostCounter, Post | ClaimCounter, Claim => true | _, _ => false end.

(** The caps as the handlers pass them: the claim cap travels in [post_cap]. *)
Record RzCaps := mkRzCaps { cap_posts : Z; cap_slots : Z; cap_claims : Z }.
Definition cap_of (caps : RzCaps) (k : Counter) : Z :=
  match k with PostCounter => caps.(cap_posts) | ClaimCounter => caps.(cap_claims) end.
Definition post_cap_of (caps : RzCaps) (a : RzAction) : Z :=
  match a with Claim => caps.(cap_claims) | _ => caps.(cap_posts) end.

Record RzCall := mkRzCall { rc_ip : option Ip; rc_action : RzAction; rc_now : Z }.

Definition rz_call (caps : RzCaps) (m : RzLimiter Ip) (c : RzCall) : result unit string * RzLimiter Ip :=
  rz_rate_limit m c.(rc_ip) c.(rc_action) c.(rc_now)
    (post_cap_of caps c.(rc_action)) caps.(cap_slots).

Definition window_at (m : RzLimiter Ip) (ip : Ip) : RzIpWindow :=
  default RzIpWindow_default (m !! ip).

(** What a run of calls does to the attempts of [k] by [ip]: the time of each call,
    and whether it was such an attempt, admitted. *)
Fixpoint rz_events (caps : RzCaps) (k : Counter) (ip : Ip) (m : RzLimiter Ip)
    (calls : list RzCall) : list (Z * bool) :=
  match calls with
  | [] => []
  | c :: calls =>
      let '(r, m) := rz_call caps m c in
      (c.(rc_now), is_ok r && bool_decide (c.(rc_ip) = Some ip) && counts k c.(rc_action))
      :: rz_events caps k ip m calls
  end.

(** The address is never let through unaccounted because the map is saturated. *)
Fixpoint never_open (caps : RzCaps) (ip : Ip) (m : RzLimiter Ip) (calls : list RzCall) : Prop :=
  match calls with
  | [] => True
  | c :: calls =>
      (c.(rc_ip) = Some ip → (guard (rz_keep c.(rc_now)) ip m).2 = true) ∧
      never_open caps ip (rz_call caps m c).2 calls
  end.

Definition window_wf (now : Z) (w : RzIpWindow) : Prop :=
  0 <= w.(rw_window_start) <= now ∧ 0 <= w.(rw_posts) ∧
  0 <= w.(rw_claim_window_start) <= now ∧ 0 <= w.(rw_claims).
Definition rz_wf (now : Z) (m : RzLimiter Ip) : Prop :=
  ∀ i w, m !! i = Some w → window_wf now w.

Lemma rz_account_step k caps a now w :
  0 < cap_of caps k →
  fw_step (window_of k) (cap_of caps k) now (counter_of k w)
    (is_ok (rz_account a now (post_cap_of caps a) caps.(cap_slots) w).1 && counts k a)
    (counter_of k (rz_account a now (post_cap_of caps a) caps.(cap_slots) w).2).
Proof.
  intros Hcap.
  destruct a, k; cbn in Hcap |- *; unfold rz_account; cbn;
    rewrite ?(proj2 (Z.ltb_lt _ _) Hcap); cbn [andb];
    repeat case_bool; cbn in *; zbool; solve_step.
Qed.

Lemma rz_account_wf caps a now w :
  window_wf now w → window_wf now (rz_account a now (post_cap_of caps a) caps.(cap_slots) w).2.
Proof.
  intros Hw. assert (∀ x, 0 <= wrap_u32 x) as Hx.
  { intros x. apply Z.mod_pos_bound. lia. }
  unfold window_wf, rz_account in *. destruct a; repeat case_bool; cbn in *; zbool;
    repeat match goal with |- context [wrap_u32 ?x] => pose proof (Hx x); generalize dependent (wrap_u32 x) end;
    intros; lia.
Qed.

(** One call of the limiter is one step of every counter of every address. *)
Lemma rz_call_step caps k ip m c :
  0 < cap_of caps k → rz_wf c.(rc_now) m → 0 <= c.(rc_now) →
  (c.(rc_ip) = Some ip → (guard (rz_keep c.(rc_now)) ip m).2 = true) →
  fw_step (window_of k) (cap_of caps k) c.(rc_now) (counter_of k (window_at m ip))
    (is_ok (rz_call caps m c).1 && bool_decide (c.(rc_ip) = Some ip) && counts k c.(rc_action))
    (counter_of k (window_at (rz_call caps m c).2 ip)) ∧
  rz_wf c.(rc_now) (rz_call caps m c).2.
Proof.
  intros Hcap Hwf Hnow Hopen. destruct c as [[i|] a now]; cbn in *; unfold rz_call, rz_rate_limit; cbn;
    [|rewrite bool_decide_false by done; cbn; split; [apply fw_idle|done]].
  assert (∀ j, (guard (rz_keep now) i m).1 !! j = m !! j ∨
    (j ≠ i ∧ (guard (rz_keep now) i m).1 !! j = None ∧ ∃ w, m !! j = Some w ∧ rz_keep now w = false))
    as Hg by (intros j; apply guard_lookup).
  assert (rz_wf now (guard (rz_keep now) i m).1) as Hwf'.
  { intros j w Hj. destruct (Hg j) as [E|(_ & E & _)]; rewrite E in Hj; [eauto|done]. }
  assert (i ≠ ip → fw_step (window_of k) (cap_of caps k) now (counter_of k (window_at m ip)) false
    (counter_of k (window_at (guard (rz_keep now) i m).1 ip))) as Hother.
  { intros Hne. unfold window_at. destruct (Hg ip) as [->|(_ & -> & w & -> & Hk)]; [apply fw_idle|].
    cbn. unfold rz_keep in Hk. apply orb_false_iff in Hk as [H1 H2]. zbool.
    destruct k; cbn; apply fw_evict; cbn; lia. }
  assert (window_wf now (window_at (guard (rz_keep now) i m).1 i)) as Hw.
  { unfold window_at. destruct (_ !! i) as [w|] eqn:E; [eauto|]. unfold window_wf. cbn. lia. }
  assert (i = ip → window_at (guard (rz_keep now) i m).1 ip = window_at m ip) as Hsame.
  { intros ->. unfold window_at. by destruct (Hg ip) as [->|[? _]]. }
  destruct (guard (rz_keep now) i m) as [m1 acc] eqn:Eg. cbn in *.
  destruct acc; cbn.
  - fold (window_at m1 i).
    pose proof (rz_account_step k caps a now (window_at m1 i) Hcap) as Hstep.
    pose proof (rz_account_wf caps a now (window_at m1 i) Hw) as Hw2.
    destruct (rz_account _ _ _ _ _) as [r w]. cbn in *. split.
    + destruct (decide (i = ip)) as [->|Hne].
      * rewrite bool_decide_true, andb_true_r by done.
        unfold window_at at 2. rewrite lookup_insert_eq. cbn. by rewrite <- Hsame by done.
      * rewrite bool_decide_false, andb_false_r by congruence. cbn.
        unfold window_at at 2. rewrite lookup_insert_ne by done. by apply Hother.
    + intros j x. rewrite lookup_insert_Some. intros [[_ <-]|[_ Hj]]; eauto.
  - split; [|done]. destruct (decide (i = ip)) as [->|Hne].
    + rewrite Eg in Hopen. by specialize (Hopen eq_refl).
    + rewrite bool_decide_false by congruence. by apply Hother.
Qed.

Lemma rz_wf_later m t t' : t <= t' → rz_wf t m → rz_wf t' m.
Proof. intros Hle Hwf i w Hi. pose proof (Hwf i w Hi) as Hw. unfold window_wf in *. lia. Qed.

Lemma rz_events_run caps k ip calls : 0 < cap_of caps k → ∀ m t0 last,
  0 <= last → rz_wf last m → never_open caps ip m calls →
  timed (window_of k) t0 last (rc_now <$> calls) →
  fw_run (window_of k) (cap_of caps k) (counter_of k (window_at m ip))
    (rz_events caps k ip m calls) ∧
  timed (window_of k) t0 last (rz_events caps k ip m calls).*1.
Proof.
  intros Hcap. induction calls as [|c calls IH]; intros m t0 last Hl Hwf Ho Ht; cbn in *.
  { split; [constructor|done]. }
  destruct Ho as [Ho1 Ho], Ht as (Ht1 & Ht2 & Ht).
  destruct (rz_call_step caps k ip m c Hcap (rz_wf_later _ _ _ Ht1 Hwf) ltac:(lia) Ho1) as [Hst Hwf'].
  destruct (rz_call caps m c) as [r m'] eqn:E. cbn in *.
  destruct (IH m' t0 (rc_now c) ltac:(lia) Hwf' Ho Ht) as [Hr Hti].
  split; [by econstructor|done].
Qed.

(** No address gets more than twice its cap of posts in any minute, nor more
    than twice its cap of slot claims in any hour, whatever else it and every other
    address do in between, memory pressure on the map included. *)
Theorem rz_admissions_bounded caps k ip m t0 calls
    (Hcap : 0 < cap_of caps k <= U32_MAX) (Ht0 : 0 <= t0)
    (Hwf : rz_wf t0 m)
    (Htimed : timed (window_of k) t0 t0 (rc_now <$> calls))
    (Hopen : never_open caps ip m calls) :
  count_admitted (rz_events caps k ip m calls) <= 2 * cap_of caps k.
Proof.
  assert (0 < window_of k) as HW by (destruct k; cbn; unfold RZ_LIMITER_WINDOW_SECS, RZ_CLAIM_WINDOW_SECS; lia).
  destruct (rz_events_run caps k ip calls (proj1 Hcap) m t0 t0 Ht0 Hwf Hopen Htimed) as [Hr Hti].
  assert (0 <= (counter_of k (window_at m ip)).1 <= t0 ∧ 0 <= (counter_of k (window_at m ip)).2) as [H1 H2].
  { unfold window_at. destruct (m !! ip) as [w|] eqn:E; [|destruct k; cbn; lia].
    destruct (Hwf ip w E) as (?&?&?&?). destruct k; cbn; lia. }
  etrans; [by apply (fw_run_bound (window_of k) (cap_of caps k) HW Hcap t0 t0)|].
  by apply fw_left_bound.
Qed.

(** The limiter never grows past its bound, an address whose hour of claims is
    running is never forgotten to make room, and an address it does not know by
    then is let through rather than refused. *)
Theorem rz_memory_guard caps m c
    (Hsize : map_len m <= MAX_RZ_LIMITER_IPS) :
  let '(r, m') := rz_call caps m c in
  map_len m' <= MAX_RZ_LIMITER_IPS ∧
  (∀ i w, m !! i = Some w → c.(rc_now) < w.(rw_claim_window_start) + RZ_CLAIM_WINDOW_SECS →
     ∃ w', m' !! i = Some w' ∧ w'.(rw_claim_window_start) = w.(rw_claim_window_start) ∧
           (c.(rc_ip) ≠ Some i → w' = w)) ∧
  (∀ i, c.(rc_ip) = Some i → (guard (rz_keep c.(rc_now)) i m).2 = false → r = Ok tt).
Proof.
  destruct c as [[i|] a now]; unfold rz_call, rz_rate_limit; cbn;
    [|split_and!; [done|eauto|done]].
  pose proof (guard_lookup (rz_keep now) i m) as Hg.
  pose proof (guard_room (rz_keep now) i m) as Hroom.
  assert (map_len (guard (rz_keep now) i m).1 <= MAX_RZ_LIMITER_IPS) as Hlen.
  { unfold guard. case_bool; [|done]. cbn. pose proof (size_retain (rz_keep now) m). lia. }
  assert (∀ j w, m !! j = Some w → now < w.(rw_claim_window_start) + RZ_CLAIM_WINDOW_SECS →
    (guard (rz_keep now) i m).1 !! j = Some w) as Hkeep.
  { intros j w Hj Hlive. destruct (Hg j) as [->|(_ & _ & v & Hv & Hk)]; [done|].
    simplify_eq. unfold rz_keep in Hk. apply orb_false_iff in Hk as [_ Hk]. zbool. lia. }
  destruct (guard (rz_keep now) i m) as [m1 acc] eqn:Eg. cbn in *. destruct acc; cbn.
  - destruct (rz_account _ _ _ _ _) as [r w'] eqn:Ea. split_and!.
    + destruct (map_len_insert m1 i w') as [H1 H2].
      destruct (Hroom eq_refl) as [?|Hs]; [lia|]. rewrite H2 by done. lia.
    + intros j w Hj Hlive. pose proof (Hkeep j w Hj Hlive) as Hj1.
      destruct (decide (j = i)) as [->|Hne].
      * rewrite lookup_insert_eq. exists w'. split; [done|]. split; [|congruence].
        rewrite Hj1 in Ea. cbn in Ea. revert Ea. unfold rz_account.
        destruct a; repeat case_bool; cbn in *; zbool; intros; simplify_eq; cbn in *; lia.
      * rewrite lookup_insert_ne by done. eauto.
    + intros j [= <-]. by rewrite Eg.
  - split_and!; [done| |by intros]. intros j w Hj Hlive. eauto.
Qed.
End rz_trace.

(* ------------------------------------------------------------------ *)
(** ** Traces of the write limiter *)

Section write_trace.
Context {Ip : Type} `{Countable Ip}.

Definition write_counter (m : WriteLimiter Ip) (ip : Ip) : Z * Z :=
  let w := default WriteIpWindow_default (m !! ip) in (w.(ww_window_start), w.(ww_writes)).

Record WriteCall := mkWriteCall { wc_ip : option Ip; wc_now : Z }.

Definition write_call (cap : Z) (m : WriteLimiter Ip) (c : WriteCall)
    : result unit string * WriteLimiter Ip :=
  write_rate_limit m c.(wc_ip) c.(wc_now) cap.

Fixpoint write_events (cap : Z) (ip : Ip) (m : WriteLimiter Ip) (calls : list WriteCall)
    : list (Z * bool) :=
  match calls with
  | [] => []
  | c :: calls =>
      let '(r, m) := write_call cap m c in
      (c.(wc_now), is_ok r && bool_decide (c.(wc_ip) = Some ip)) :: write_events cap ip m calls
  end.

Fixpoint write_never_open (cap : Z) (ip : Ip) (m : WriteLimiter Ip) (calls : list WriteCall) : Prop :=
  match calls with
  | [] => True
  | c :: calls =>
      (c.(wc_ip) = Some ip → (guard (write_keep c.(wc_now)) ip m).2 = true) ∧
      write_never_open cap ip (write_call cap m c).2 calls
  end.

Definition write_wf (now : Z) (m : WriteLimiter Ip) : Prop :=
  ∀ i w, m !! i = Some w → 0 <= w.(ww_window_start) <= now ∧ 0 <= w.(ww_writes).

Lemma write_call_step cap ip m c :
  0 < cap → write_wf c.(wc_now) m → 0 <= c.(wc_now) →
  (c.(wc_ip) = Some ip → (guard (write_keep c.(wc_now)) ip m).2 = true) →
  fw_step RZ_LIMITER_WINDOW_SECS cap c.(wc_now) (write_counter m ip)
    (is_ok (write_call cap m c).1 && bool_decide (c.(wc_ip) = Some ip))
    (write_counter (write_call cap m c).2 ip) ∧
  write_wf c.(wc_now) (write_call cap m c).2.
Proof.
  intros Hcap Hwf Hnow Hopen. destruct c as [[i|] now]; unfold write_call, write_rate_limit; cbn in *;
    rewrite (proj2 (Z.eqb_neq cap 0)) by lia;
    [|rewrite bool_decide_false by done; cbn; split; [apply fw_idle|done]].
  pose proof (guard_lookup (write_keep now) i m) as Hg.
  assert (write_wf now (guard (write_keep now) i m).1) as Hwf'.
  { intros j w Hj. destruct (Hg j) as [E|(_ & E & _)]; rewrite E in Hj; [eauto|done]. }
  assert (i ≠ ip → fw_step RZ_LIMITER_WINDOW_SECS cap now (write_counter m ip) false
    (write_counter (guard (write_keep now) i m).1 ip)) as Hother.
  { intros Hne. unfold write_counter. destruct (Hg ip) as [->|(_ & -> & w & -> & Hk)]; [apply fw_idle|].
    cbn. unfold write_keep in Hk. zbool. apply fw_evict. cbn. lia. }
  assert (i = ip → write_counter (guard (write_keep now) i m).1 ip = write_counter m ip) as Hsame.
  { intros ->. unfold write_counter. by destruct (Hg ip) as [->|[? _]]. }
  destruct (guard (write_keep now) i m) as [m1 acc] eqn:Eg. cbn in *.
  destruct acc; cbn [negb].
  - assert (∀ x, 0 <= wrap_u32 x) as Hx by (intros x; apply Z.mod_pos_bound; lia).
    set (w0 := default WriteIpWindow_default (m1 !! i)).
    assert (0 <= w0.(ww_window_start) <= now ∧ 0 <= w0.(ww_writes)) as Hw0.
    { unfold w0. destruct (m1 !! i) eqn:E; [eauto|cbn; lia]. }
    assert (∀ w (b : bool),
        fw_step RZ_LIMITER_WINDOW_SECS cap now (write_counter m1 i) b (w.(ww_window_start), w.(ww_writes)) →
        0 <= w.(ww_window_start) <= now → 0 <= w.(ww_writes) →
        fw_step RZ_LIMITER_WINDOW_SECS cap now (write_counter m ip)
          (b && bool_decide (Some i = Some ip)) (write_counter (<[i:=w]> m1) ip) ∧
        write_wf now (<[i:=w]> m1)) as Hdone.
    { intros w b Hst H1 H2. split.
      - destruct (decide (i = ip)) as [->|Hne].
        + rewrite bool_decide_true, andb_true_r by done. rewrite <- Hsame by done.
          unfold write_counter at 2. by rewrite lookup_insert_eq.
        + rewrite bool_decide_false, andb_false_r by congruence.
          unfold write_counter at 2. rewrite lookup_insert_ne by done. by apply Hother.
      - intros j x. rewrite lookup_insert_Some. intros [[_ <-]|[_ Hj]]; eauto. }
    change (write_counter m1 i) with (w0.(ww_window_start), w0.(ww_writes)) in Hdone.
    destruct (ww_window_start w0 + RZ_LIMITER_WINDOW_SECS <=? now) eqn:Er; case_bool; zbool;
      cbn [is_ok fst snd]; (apply Hdone; cbn [ww_window_start ww_writes] in *;
        [solve_step | lia | first [lia | apply Hx]]).
  - split; [|done]. destruct (decide (i = ip)) as [->|Hne].
    + rewrite Eg in Hopen. by specialize (Hopen eq_refl).
    + rewrite bool_decide_false by congruence. by apply Hother.
Qed.

Lemma write_events_run cap ip calls : 0 < cap → ∀ m t0 last,
  0 <= last → write_wf last m → write_never_open cap ip m calls →
  timed RZ_LIMITER_WINDOW_SECS t0 last (wc_now <$> calls) →
  fw_run RZ_LIMITER_WINDOW_SECS cap (write_counter m ip) (write_events cap ip m calls) ∧
  timed RZ_LIMITER_WINDOW_SECS t0 last (write_events cap ip m calls).*1.
Proof.
  intros Hcap. induction calls as [|c calls IH]; intros m t0 last Hl Hwf Ho Ht; cbn in *.
  { split; [constructor|done]. }
  destruct Ho as [Ho1 Ho], Ht as (Ht1 & Ht2 & Ht).
  assert (write_wf c.(wc_now) m) as Hwf2.
  { intros i w Hi. destruct (Hwf i w Hi). lia. }
  destruct (write_call_step cap ip m c Hcap Hwf2 ltac:(lia) Ho1) as [Hst Hwf'].
  destruct (write_call cap m c) as [r m'] eqn:E. cbn in *.
  destruct (IH m' t0 (wc_now c) ltac:(lia) Hwf' Ho Ht) as [Hr Hti].
  split; [by econstructor|done].
Qed.

(** No address gets more than twice its write budget through in any minute,
    across every unauthenticated write route. *)
Theorem write_admissions_bounded cap ip m t0 calls
    (Hcap : 0 < cap <= U32_MAX) (Ht0 : 0 <= t0)
    (Hwf : write_wf t0 m)
    (Htimed : timed RZ_LIMITER_WINDOW_SECS t0 t0 (wc_now <$> calls))
    (Hopen : write_never_open cap ip m calls) :
  count_admitted (write_events cap ip m calls) <= 2 * cap.
Proof.
  assert (0 < RZ_LIMITER_WINDOW_SECS) as HW by (unfold RZ_LIMITER_WINDOW_SECS; lia).
  destruct (write_events_run cap ip calls (proj1 Hcap) m t0 t0 Ht0 Hwf Hopen Htimed) as [Hr Hti].
  assert (0 <= (write_counter m ip).1 <= t0 ∧ 0 <= (write_counter m ip).2) as [H1 H2].
  { unfold write_counter. destruct (m !! ip) as [w|] eqn:E; [|cbn; lia]. by apply (Hwf ip w). }
  etrans; [by apply (fw_run_bound _ cap HW Hcap t0 t0)|]. by apply fw_left_bound.
Qed.
End write_trace.

(* ------------------------------------------------------------------ *)
(** ** Runs *)

(** Three posts a minute, one claim an hour: the fourth post waits for the window. *)
Definition ex_caps : RzCaps := mkRzCaps 3 2 1.
Definition ex_calls : list (RzCall (Ip := N)) :=
  [mkRzCall (Some 1%N) Post 100; mkRzCall (Some 1%N) Claim 100; mkRzCall (Some 1%N) Post 101;
   mkRzCall (Some 2%N) Post 101; mkRzCall (Some 1%N) Post 102; mkRzCall (Some 1%N) Post 103;
   mkRzCall (Some 1%N) Claim 159].

Lemma rz_admissions_bounded_witness :
  count_admitted (rz_events ex_caps PostCounter 1%N ∅ ex_calls) <= 2 * 3 ∧
  count_admitted (rz_events ex_caps PostCounter 1%N ∅ ex_calls) = 3.
Proof.
  split; [|reflexivity]. apply (rz_admissions_bounded ex_caps PostCounter 1%N ∅ 100).
  - cbn. unfold U32_MAX. lia.
  - lia.
  - intros i w Hi. rewrite lookup_empty in Hi. discriminate Hi.
  - cbn. unfold RZ_LIMITER_WINDOW_SECS. lia.
  - cbn. split_and!; try reflexivity; intros; try reflexivity; discriminate.
Defined.

Lemma rz_memory_guard_witness :
  let '(r, m') := rz_call ex_caps (∅ : RzLimiter N) (mkRzCall (Some 1%N) Claim 100) in
  map_len m' <= MAX_RZ_LIMITER_IPS.
Proof.
  pose proof (rz_memory_guard ex_caps (∅ : RzLimiter N) (mkRzCall (Some 1%N) Claim 100)) as Hm.
  cbn zeta in Hm. destruct (rz_call _ _ _) as [r m']. apply Hm.
  unfold map_len. rewrite map_size_empty. unfold MAX_RZ_LIMITER_IPS. lia.
Defined.

Lemma write_admissions_bounded_witness :
  count_admitted (write_events 2 1%N ∅
    [mkWriteCall (Some 1%N) 100; mkWriteCall (Some 1%N) 101; mkWriteCall (Some 1%N) 102]) <= 2 * 2.
Proof.
  apply (write_admissions_bounded 2 1%N ∅ 100).
  - unfold U32_MAX. lia.
  - lia.
  - intros i w Hi. rewrite lookup_empty in Hi. discriminate Hi.
  - cbn. unfold RZ_LIMITER_WINDOW_SECS. lia.
  - cbn. split_and!; intros; try reflexivity; exact I.
Defined.
