(* ===== verification/Store.v ===== *)
(** * The relay's store ([relay/src/mailbox.rs], [relay/src/util.rs], [relay/src/state.rs])

    The tables of the SQLite database, the blob directory, and the helpers every
    operation uses.  A table is a finite map keyed by its primary key; an
    [INTEGER] column is a signed 64-bit value kept in [Z].  Queries and file
    operations succeed, except where the source itself depends on a failure: a
    primary-key conflict, a row that is not there, a file that is not there.
    The limits an administrator sets through environment variables, the current
    time and fresh random tokens are arguments. *)
From S2P Require Import Prelude.
Local Open Scope Z_scope.

(** ** [relay/src/util.rs] *)

(** [constant_time_eq]. *)
Definition constant_time_eq (a b : bytes) : bool :=
  if negb (length a =? length b)%nat then false
  else N.eqb (foldl (fun acc p => N.lor acc (N.lxor (Byte.to_N p.1) (Byte.to_N p.2))) 0%N (zip a b)) 0.

Lemma foldl_lor_zero (l : list (Byte.byte * Byte.byte)) acc :
  foldl (fun acc p => N.lor acc (N.lxor (Byte.to_N p.1) (Byte.to_N p.2))) acc l = 0%N ↔
  acc = 0%N ∧ Forall (fun p => p.1 = p.2) l.
Proof.
  revert acc. induction l as [|[x y] l IH]; intros acc; cbn.
  - split; [intros ->; by split|by intros [-> _]].
  - rewrite IH, Forall_cons, N.lor_eq_0_iff. cbn. split.
    + intros [[-> Hx%N.lxor_eq] Hl]. apply byte_to_N_inj in Hx. done.
    + intros (-> & -> & Hl). by rewrite N.lxor_nilpotent.
Qed.

Lemma constant_time_eq_spec a b : constant_time_eq a b = true ↔ a = b.
Proof.
  unfold constant_time_eq. case_bool.
  - split; [done|]. intros ->. by rewrite Nat.eqb_refl in Heqb0.
  - apply negb_false_iff, Nat.eqb_eq in Heqb0. rewrite N.eqb_eq, foldl_lor_zero.
    split; [|intros ->; split; [done|]].
    + intros [_ Hf]. revert b Heqb0 Hf. induction a as [|x a IH]; intros [|y b] Hlen Hf; try done.
      cbn in *. apply Forall_cons in Hf as [Hxy Hf]. cbn in Hxy. subst. f_equal. apply IH; [lia|done].
    + clear. induction b as [|y b IH]; [constructor|]. by constructor.
Qed.

(** [random_claim]: the token is an argument of the operations that draw one. *)
Abbreviation Token := string.

(** [blake3::hash]. *)
Class Blake3Hash : Type := { blake3_hash : bytes → bytes }.
Class Blake3HashLaws `{!Blake3Hash} : Prop := {
  blake3_length : ∀ b, length (blake3_hash b) = 32%nat }.

(** [str::as_bytes] of a token: its UTF-8 bytes. *)
Definition as_bytes (s : string) : bytes := String.list_byte_of_string s.

(** ** [relay/src/state.rs] *)

Record Limits := mkLimits {
  max_ttl_secs : Z;
  max_entries : Z;
  max_blob_bytes : Z;
  max_total_blob_bytes : Z;
  max_open_uploads : Z;
  max_rz_rows : Z;
  max_inbox_rows : Z;
  max_presence_rows : Z;
  max_seeded_rows : Z;
  max_session_relay_bytes : Z;
  seed_ttl : Z }.

Definition MAX_DOWNLOADS_CAP : Z := 10000.
Definition CHUNK_SIZE : Z := 16 * 1024 * 1024.

(** ** Errors *)

Inductive MailboxError :=
  | NotFound | Expired | Exhausted | TooLarge | Capacity | Forbidden | Backend (e : string).

#[export] Instance MailboxError_eq_dec : EqDecision MailboxError.
Proof. solve_decision. Defined.

(** ** Tables and files *)

Record Entry := mkEntry {
  en_encapped_key : bytes; en_expires_at : Z; en_max_downloads : Z; en_downloads : Z;
  en_revoke_hash : option bytes; en_size : option Z }.

Record RzRow := mkRzRow { rz_value : bytes; rz_expires_at : Z }.

Record InboxRow := mkInboxRow {
  ib_value : bytes; ib_expires_at : Z; ib_poster_hash : option bytes;
  ib_fetched_at : option Z; ib_taken_at : option Z }.

Record SessionRow := mkSessionRow { sb_bytes : Z; sb_expires_at : Z }.

Record UploadRow := mkUploadRow {
  up_encapped_key : bytes; up_revoke_hash : option bytes; up_ttl : Z; up_max_downloads : Z;
  up_length : Z; up_idle_expires : Z; up_claim : option Token; up_granted : option Z }.

(** A file of the blob directory: its bytes and when it was last written. *)
Record File := mkFile { f_bytes : bytes; f_mtime : Z }.

Record Mailbox := mkMailbox {
  mb_entries : gmap Token Entry;
  mb_seeded : gmap (Token * string) Z;
  mb_rendezvous : gmap (string * string) RzRow;
  mb_inbox : gmap (string * string) InboxRow;
  mb_beacon : gmap string Z;
  mb_session_bytes : gmap string SessionRow;
  mb_uploads : gmap Token UploadRow;
  mb_files : gmap string File;
  mb_uploads_busy : gset Token }.

(** [Mailbox::in_memory]: empty tables, an empty directory. *)
Definition in_memory : Mailbox := mkMailbox ∅ ∅ ∅ ∅ ∅ ∅ ∅ ∅ ∅.

(** What one statement or one file operation rewrites. *)
Definition with_entries e m := mkMailbox e m.(mb_seeded) m.(mb_rendezvous) m.(mb_inbox)
  m.(mb_beacon) m.(mb_session_bytes) m.(mb_uploads) m.(mb_files) m.(mb_uploads_busy).
Definition with_seeded s m := mkMailbox m.(mb_entries) s m.(mb_rendezvous) m.(mb_inbox)
  m.(mb_beacon) m.(mb_session_bytes) m.(mb_uploads) m.(mb_files) m.(mb_uploads_busy).
Definition with_rendezvous r m := mkMailbox m.(mb_entries) m.(mb_seeded) r m.(mb_inbox)
  m.(mb_beacon) m.(mb_session_bytes) m.(mb_uploads) m.(mb_files) m.(mb_uploads_busy).
Definition with_inbox i m := mkMailbox m.(mb_entries) m.(mb_seeded) m.(mb_rendezvous) i
  m.(mb_beacon) m.(mb_session_bytes) m.(mb_uploads) m.(mb_files) m.(mb_uploads_busy).
Definition with_beacon b m := mkMailbox m.(mb_entries) m.(mb_seeded) m.(mb_rendezvous)
  m.(mb_inbox) b m.(mb_session_bytes) m.(mb_uploads) m.(mb_files) m.(mb_uploads_busy).
Definition with_session_bytes b m := mkMailbox m.(mb_entries) m.(mb_seeded) m.(mb_rendezvous)
  m.(mb_inbox) m.(mb_beacon) b m.(mb_uploads) m.(mb_files) m.(mb_uploads_busy).
Definition with_uploads u m := mkMailbox m.(mb_entries) m.(mb_seeded) m.(mb_rendezvous)
  m.(mb_inbox) m.(mb_beacon) m.(mb_session_bytes) u m.(mb_files) m.(mb_uploads_busy).
Definition with_files f m := mkMailbox m.(mb_entries) m.(mb_seeded) m.(mb_rendezvous)
  m.(mb_inbox) m.(mb_beacon) m.(mb_session_bytes) m.(mb_uploads) f m.(mb_uploads_busy).
Definition with_busy b m := mkMailbox m.(mb_entries) m.(mb_seeded) m.(mb_rendezvous)
  m.(mb_inbox) m.(mb_beacon) m.(mb_session_bytes) m.(mb_uploads) m.(mb_files) b.

(** The names of the blob directory. *)
Definition blob_path (claim : Token) : string := (claim +:+ ".bin")%string.
Definition upload_path (id : Token) : string := (id +:+ ".part")%string.

(** [str::strip_suffix]. *)
Fixpoint strip_suffix (suffix name : string) : option string :=
  if decide (name = suffix) then Some ""
  else match name with
       | "" => None
       | String c rest => String c <$> strip_suffix suffix rest
       end%string.

Lemma string_app_cons c (a b : string) :
  (String c a +:+ b)%string = String c (a +:+ b)%string.
Proof. reflexivity. Qed.

Lemma string_app_nil (b : string) : ("" +:+ b)%string = b.
Proof. reflexivity. Qed.

Lemma string_app_length (a b : string) :
  String.length (a +:+ b) = (String.length a + String.length b)%nat.
Proof. induction a as [|c a IH]; [done|]. rewrite string_app_cons. cbn. by rewrite IH. Qed.

Lemma strip_suffix_spec suffix name a :
  strip_suffix suffix name = Some a ↔ name = (a +:+ suffix)%string.
Proof.
  revert a. induction name as [|c name IH]; intros a; cbn [strip_suffix]; case_decide as Hd.
  - rewrite <- Hd. split; [by intros [= <-]|]. by destruct a.
  - split; [done|]. destruct a; [|done]. rewrite string_app_nil. congruence.
  - rewrite Hd. split; [by intros [= <-]|].
    intros Ha. assert (String.length a = 0)%nat as Hl.
    { apply (f_equal String.length) in Ha. rewrite string_app_length in Ha. lia. }
    by destruct a.
  - split.
    + intros (b & Hb & ->)%fmap_Some. rewrite string_app_cons. f_equal. by apply IH.
    + destruct a as [|c' a]; [by rewrite string_app_nil|]. rewrite string_app_cons.
      intros [= -> Hn]. by rewrite (proj2 (IH a) Hn).
Qed.

Lemma append_suffix_inj suffix (c d : string) : (c +:+ suffix)%string = (d +:+ suffix)%string → c = d.
Proof.
  intros Hp. pose proof (proj2 (strip_suffix_spec suffix _ c) eq_refl) as H1.
  rewrite Hp, (proj2 (strip_suffix_spec suffix _ d) eq_refl) in H1. congruence.
Qed.

Lemma blob_path_inj c d : blob_path c = blob_path d → c = d.
Proof. apply append_suffix_inj. Qed.

Lemma upload_path_inj c d : upload_path c = upload_path d → c = d.
Proof. apply append_suffix_inj. Qed.

(** The last character tells a blob from a partial upload. *)
Fixpoint last_char (s : string) : option Ascii.ascii :=
  match s with
  | "" => None
  | String c "" => Some c
  | String _ s => last_char s
  end%string.

Lemma last_char_app a s : s ≠ ""%string → last_char (a +:+ s)%string = last_char s.
Proof.
  intros Hs. induction a as [|c a IH]; [done|]. rewrite string_app_cons. cbn. rewrite IH.
  destruct (a +:+ s)%string eqn:E; [|done]. destruct a; [|done].
  rewrite string_app_nil in E. congruence.
Qed.

Lemma blob_upload_disjoint c i : blob_path c ≠ upload_path i.
Proof.
  intros Hp. apply (f_equal last_char) in Hp. unfold blob_path, upload_path in Hp.
  by rewrite !last_char_app in Hp.
Qed.

(** ** Queries *)

(** [SUM] of an integer column read back as [i64]: out of range it is an error,
    which the callers read as [0]. *)
Definition i64_min : Z := - 2 ^ 63.
Definition i64_or_zero (x : Z) : Z :=
  if (i64_min <=? x) && (x <=? I64_MAX) then x else 0.

Definition sum_column {K A} `{Countable K} (f : A → Z) (t : gmap K A) : Z :=
  map_fold (fun _ v acc => f v + acc) 0 t.

Definition count_where {K A} `{Countable K} (p : K → A → bool) (t : gmap K A) : Z :=
  Z.of_nat (size (filter (fun kv => p kv.1 kv.2 = true) t)).

Definition delete_where {K A} `{Countable K} (p : K → A → bool) (t : gmap K A) : gmap K A :=
  filter (fun kv => p kv.1 kv.2 = false) t.

Lemma lookup_delete_where {K A} `{Countable K} (p : K → A → bool) (t : gmap K A) k :
  delete_where p t !! k =
    match t !! k with Some v => if p k v then None else Some v | None => None end.
Proof.
  unfold delete_where. destruct (t !! k) as [v|] eqn:E.
  - destruct (p k v) eqn:Ep.
    + apply map_lookup_filter_None. right. intros x Hx. cbn. congruence.
    + by apply map_lookup_filter_Some.
  - apply map_lookup_filter_None. by left.
Qed.

Lemma sum_column_insert {K A} `{Countable K} (f : A → Z) (t : gmap K A) k v :
  t !! k = None → sum_column f (<[k := v]> t) = f v + sum_column f t.
Proof.
  intros Hk. unfold sum_column. rewrite map_fold_insert_L; [done| |done].
  intros. lia.
Qed.

Lemma sum_column_delete {K A} `{Countable K} (f : A → Z) (t : gmap K A) k v :
  t !! k = Some v → sum_column f t = f v + sum_column f (delete k t).
Proof.
  intros Hk. rewrite <- (insert_delete_id t k v Hk) at 1.
  apply sum_column_insert, lookup_delete_eq.
Qed.

(** Counts compare row by row. *)
Lemma count_where_le {K A B} `{Countable K} (p : K → A → bool) (q : K → B → bool)
    (t : gmap K A) (t' : gmap K B) :
  (∀ k v, t !! k = Some v → p k v = true → ∃ v', t' !! k = Some v' ∧ q k v' = true) →
  count_where p t <= count_where q t'.
Proof.
  intros Hle. unfold count_where. apply Nat2Z.inj_le. rewrite <- !size_dom.
  apply subseteq_size. intros k. rewrite !elem_of_dom. intros [v Hv].
  apply map_lookup_filter_Some in Hv as [Hv Hp]. destruct (Hle k v Hv Hp) as (v' & Hv' & Hq).
  exists v'. by apply map_lookup_filter_Some.
Qed.

Lemma size_count_where {K A} `{Countable K} (t : gmap K A) :
  Z.of_nat (size t) = count_where (fun _ _ => true) t.
Proof. unfold count_where. rewrite map_filter_id by done. done. Qed.

Lemma count_where_insert {K A} `{Countable K} (p : K → A → bool) (t : gmap K A) k v :
  t !! k = None → count_where p (<[k := v]> t) = Z.b2z (p k v) + count_where p t.
Proof.
  intros Hk. unfold count_where. destruct (p k v) eqn:Ep.
  - rewrite map_filter_insert_True by done. rewrite map_size_insert_None; [cbn; lia|].
    apply map_lookup_filter_None. by left.
  - rewrite map_filter_insert_False by (cbn; congruence). by rewrite delete_id.
Qed.
