(* ===== verification/Mailbox.v ===== *)
(** * The mailbox ([relay/src/mailbox.rs])

    One definition per operation of [Mailbox]: deposits, fetches, revocation, the
    reaper and the orphan sweep, then the seeded chunks, the session meters, the
    rendezvous rows, the inbox and the presence beacons.  An operation takes the
    store and returns its answer with the store after it, since a refusal may
    still have deleted something. *)
From S2P Require Import Prelude.
From S2P Require Import Store.
Local Open Scope Z_scope.

(** What the sender deposits. *)
Record Deposit := mkDeposit {
  dp_encapped_key : bytes; dp_ciphertext : bytes; dp_ttl_secs : Z; dp_max_downloads : Z;
  dp_revoke_hash : bytes }.

(** What a recipient gets back. *)
Record Claimed := mkClaimed { cl_encapped_key : bytes; cl_ciphertext : bytes }.

Record FetchPlan := mkFetchPlan { fp_encapped_key : bytes; fp_blob_path : string; fp_burn : bool }.

Inductive InboxStatus := Gone | BadToken | Pending | Arrived | Taken.

#[export] Instance InboxStatus_eq_dec : EqDecision InboxStatus.
Proof. solve_decision. Defined.

(** ** Capacity *)

(** [Mailbox::len]. *)
Definition len (m : Mailbox) : Z := Z.of_nat (size m.(mb_entries)).
Definition is_empty (m : Mailbox) : bool := len m =? 0.

Definition upload_open (u : UploadRow) : bool := negb (bool_decide (is_Some u.(up_claim))).

(** [Mailbox::open_uploads] and [Mailbox::reserved_upload_bytes]
    ([relay/src/mailbox/upload.rs]). *)
Definition open_uploads (m : Mailbox) : Z :=
  Z.max 0 (count_where (fun _ u => upload_open u) m.(mb_uploads)).
Definition reserved_upload_bytes (m : Mailbox) : Z :=
  Z.max 0 (i64_or_zero (sum_column (fun u => if upload_open u then u.(up_length) else 0) m.(mb_uploads))).

(** [Mailbox::at_capacity]. *)
Definition at_capacity (lim : Limits) (m : Mailbox) : bool :=
  lim.(max_entries) <=? len m + open_uploads m.

(** [Mailbox::stored_bytes]. *)
Definition stored_bytes (m : Mailbox) : Z :=
  Z.max 0 (i64_or_zero (sum_column (fun e => default 0 e.(en_size)) m.(mb_entries))).

(** [Mailbox::seeded_count] and [Mailbox::seeded_bytes]. *)
Definition seeded_count (m : Mailbox) : Z := Z.of_nat (size m.(mb_seeded)).
Definition seeded_bytes (m : Mailbox) : Z := sat_mul (Z.max 0 (seeded_count m)) CHUNK_SIZE.

(** [Mailbox::disk_bytes]. *)
Definition disk_bytes (m : Mailbox) : Z :=
  sat_add (sat_add (stored_bytes m) (seeded_bytes m)) (reserved_upload_bytes m).

(** ** Deposits *)

(** [u32::clamp]. *)
Definition clamp (lo hi x : Z) : Z := if x <? lo then lo else if hi <? x then hi else x.

(** [Mailbox::commit_deposit]: the ciphertext is already in place. *)
Definition commit_deposit (lim : Limits) (claim : Token) (encapped_key : bytes)
    (ttl_secs max_downloads : Z) (revoke_hash : bytes) (size now : Z) (m : Mailbox)
    : result Z MailboxError * Mailbox :=
  let ttl := Z.min ttl_secs lim.(max_ttl_secs) in
  let max_downloads := clamp 1 MAX_DOWNLOADS_CAP max_downloads in
  let revoke_hash := match revoke_hash with [] => None | _ => Some revoke_hash end in
  match m.(mb_entries) !! claim with
  | Some _ => (Err (Backend "UNIQUE constraint failed"), m)
  | None =>
      (Ok ttl,
       with_entries
         (<[claim := mkEntry encapped_key (as_i64 (sat_add now ttl)) max_downloads 0 revoke_hash
                       (Some (as_i64 size))]> m.(mb_entries)) m)
  end.

(** [Mailbox::deposit]; [claim] is the token [new_claim] draws. *)
Definition deposit (lim : Limits) (claim : Token) (d : Deposit) (now : Z) (m : Mailbox)
    : result Token MailboxError * Mailbox :=
  let cap := lim.(max_blob_bytes) in
  let size := Z.of_nat (length d.(dp_ciphertext)) in
  if negb (cap =? 0) && (cap <? size) then (Err TooLarge, m)
  else if at_capacity lim m then (Err Capacity, m)
  else
    let total_cap := lim.(max_total_blob_bytes) in
    if negb (total_cap =? 0) && (total_cap <? sat_add (disk_bytes m) size) then (Err Capacity, m)
    else
      let m := with_files (<[blob_path claim := mkFile d.(dp_ciphertext) now]> m.(mb_files)) m in
      let '(granted, m) := commit_deposit lim claim d.(dp_encapped_key) d.(dp_ttl_secs)
        d.(dp_max_downloads) d.(dp_revoke_hash) size now m in
      match granted with
      | Ok _ => (Ok claim, m)
      | Err e => (Err e, m)
      end.

(** [Mailbox::delete]. *)
Definition delete_entry (claim : Token) (m : Mailbox) : Mailbox :=
  with_entries (delete claim m.(mb_entries))
    (with_files (delete (blob_path claim) m.(mb_files)) m).

(** [Mailbox::revoke]. *)
Definition revoke `{!Blake3Hash} (claim token : Token) (m : Mailbox)
    : result unit MailboxError * Mailbox :=
  match m.(mb_entries) !! claim with
  | None => (Err NotFound, m)
  | Some e =>
      match e.(en_revoke_hash) with
      | None => (Err Forbidden, m)
      | Some stored =>
          let presented := blake3_hash (as_bytes token) in
          if negb (length stored =? length presented)%nat
             || negb (constant_time_eq stored presented)
          then (Err Forbidden, m)
          else (Ok tt, delete_entry claim m)
      end
  end.

(** ** Fetches *)

(** [Mailbox::row]. *)
Definition row (claim : Token) (m : Mailbox) : result (bytes * Z * Z * Z) MailboxError :=
  match m.(mb_entries) !! claim with
  | Some e => Ok (e.(en_encapped_key), e.(en_expires_at), e.(en_max_downloads), e.(en_downloads))
  | None => Err NotFound
  end.

(** [UPDATE entries SET downloads = ... WHERE claim = ...]. *)
Definition set_downloads (claim : Token) (n : Z) (m : Mailbox) : Mailbox :=
  with_entries (alter (fun e => mkEntry e.(en_encapped_key) e.(en_expires_at) e.(en_max_downloads) n
                                  e.(en_revoke_hash) e.(en_size)) claim m.(mb_entries)) m.

(** [Mailbox::fetch_plan]. *)
Definition fetch_plan (claim : Token) (now : Z) (m : Mailbox)
    : result FetchPlan MailboxError * Mailbox :=
  match row claim m with
  | Err e => (Err e, m)
  | Ok (encapped_key, expires_at, max_downloads, downloads) =>
      if i64_as_u64 expires_at <=? now then (Err Expired, delete_entry claim m)
      else if max_downloads <=? downloads then (Err Exhausted, delete_entry claim m)
      else
        let burn := max_downloads <=? downloads + 1 in
        let m := if burn then with_entries (delete claim m.(mb_entries)) m
                 else set_downloads claim (downloads + 1) m in
        (Ok (mkFetchPlan encapped_key (blob_path claim) burn), m)
  end.

(** [Mailbox::fetch_plan_held]. *)
Definition fetch_plan_held (claim : Token) (now : Z) (m : Mailbox)
    : result FetchPlan MailboxError * Mailbox :=
  match row claim m with
  | Err e => (Err e, m)
  | Ok (encapped_key, expires_at, max_downloads, downloads) =>
      if i64_as_u64 expires_at <=? now then (Err Expired, delete_entry claim m)
      else if max_downloads <=? downloads then (Err Exhausted, delete_entry claim m)
      else (Ok (mkFetchPlan encapped_key (blob_path claim) false), m)
  end.

(** [Mailbox::ack_fetch]. *)
Definition ack_fetch (claim : Token) (now : Z) (m : Mailbox)
    : result unit MailboxError * Mailbox :=
  match row claim m with
  | Err e => (Err e, m)
  | Ok (_, expires_at, max_downloads, downloads) =>
      if (i64_as_u64 expires_at <=? now) || (max_downloads <=? downloads + 1)
      then (Ok tt, delete_entry claim m)
      else (Ok tt, set_downloads claim (downloads + 1) m)
  end.

(** Reading the planned file, and removing it once it was the last download:
    the second half of [Mailbox::fetch] and of the HTTP [fetch_handler]. *)
Definition serve_plan (plan : FetchPlan) (m : Mailbox) : result Claimed MailboxError * Mailbox :=
  match m.(mb_files) !! plan.(fp_blob_path) with
  | None => (Err (Backend "No such file or directory"), m)
  | Some f =>
      let m := if plan.(fp_burn) then with_files (delete plan.(fp_blob_path) m.(mb_files)) m else m in
      (Ok (mkClaimed plan.(fp_encapped_key) f.(f_bytes)), m)
  end.

(** [Mailbox::fetch]. *)
Definition fetch (claim : Token) (now : Z) (m : Mailbox) : result Claimed MailboxError * Mailbox :=
  let '(plan, m) := fetch_plan claim now m in
  match plan with
  | Err e => (Err e, m)
  | Ok plan => serve_plan plan m
  end.

(** [fetch_handler] ([relay/src/http.rs]): [hold] selects the held plan. *)
Definition fetch_handler (hold : bool) (claim : Token) (now : Z) (m : Mailbox)
    : result Claimed MailboxError * Mailbox :=
  let '(plan, m) := if hold then fetch_plan_held claim now m else fetch_plan claim now m in
  match plan with
  | Err e => (Err e, m)
  | Ok plan => serve_plan plan m
  end.

(** [Mailbox::entry_exists] and [Mailbox::entry_counts]. *)
Definition entry_exists (claim : Token) (now : Z) (m : Mailbox) : bool :=
  match m.(mb_entries) !! claim with Some e => as_i64 now <? e.(en_expires_at) | None => false end.
Definition entry_counts (claim : Token) (now : Z) (m : Mailbox) : option (Z * Z) :=
  match m.(mb_entries) !! claim with
  | Some e => if as_i64 now <? e.(en_expires_at)
              then Some (wrap_u32 (Z.max 0 e.(en_downloads)), wrap_u32 (Z.max 0 e.(en_max_downloads)))
              else None
  | None => None
  end.

(** ** The reaper and the sweep *)

(** [Mailbox::reap]. *)
Definition reap (now : Z) (m : Mailbox) : Z * Mailbox :=
  let claims := (map_to_list (filter (fun p => p.2.(en_expires_at) <= as_i64 now) m.(mb_entries))).*1 in
  (Z.of_nat (length claims), foldl (fun m claim => delete_entry claim m) m claims).

(** [Mailbox::claims] and [Mailbox::open_upload_ids]. *)
Definition claims (m : Mailbox) : gset Token := dom m.(mb_entries).
Definition open_upload_ids (m : Mailbox) : gset Token :=
  dom (filter (fun p => upload_open p.2 = true) m.(mb_uploads)).

(** [sweep_orphan_files] ([relay/src/util.rs]): a file dated in the future is left. *)
Definition sweep_orphan_files (now grace_secs : Z) (keep : string → bool) (dir : gmap string File)
    : Z * gmap string File :=
  let removed name (f : File) :=
    negb (keep name) && negb ((now <? f.(f_mtime)) || (now - f.(f_mtime) <? grace_secs)) in
  (count_where removed dir, delete_where removed dir).

(** Which names of the blob directory the two row sets account for. *)
Definition keep_blob (claims uploads : gset Token) (name : string) : bool :=
  match strip_suffix ".bin" name with
  | Some claim => bool_decide (claim ∈ claims)
  | None =>
      match strip_suffix ".part" name with
      | Some id => bool_decide (id ∈ uploads)
      | None => true
      end
  end.

(** [Mailbox::sweep_orphan_blobs] reads the claims, then the open uploads, then walks
    the directory: three moments, of which the store may differ. *)
Definition sweep_walk (claims uploads : gset Token) (now grace_secs : Z) (m : Mailbox) : Z * Mailbox :=
  let '(n, files) := sweep_orphan_files now grace_secs (keep_blob claims uploads) m.(mb_files) in
  (n, with_files files m).
Definition sweep_orphan_blobs (now grace_secs : Z) (m : Mailbox) : Z * Mailbox :=
  sweep_walk (claims m) (open_upload_ids m) now grace_secs m.

(** ** Seeded chunks *)

(** [Mailbox::record_seed]. *)
Definition record_seed (token : Token) (hash : string) (expires_at : Z) (m : Mailbox) : Mailbox :=
  with_seeded (<[(token, hash) := as_i64 expires_at]> m.(mb_seeded)) m.
(** [Mailbox::seed_exists]. *)
Definition seed_exists (token : Token) (hash : string) (m : Mailbox) : bool :=
  bool_decide (is_Some (m.(mb_seeded) !! (token, hash))).
(** [Mailbox::delete_seed_one]. *)
Definition delete_seed_one (token : Token) (hash : string) (m : Mailbox) : Mailbox :=
  with_seeded (delete (token, hash) m.(mb_seeded)) m.
(** [Mailbox::seed_expiries]. *)
Definition seed_expiries (token : Token) (m : Mailbox) : list Z :=
  (fun p => Z.max 0 p.2) <$> map_to_list (filter (fun p => p.1.1 = token) m.(mb_seeded)).
(** [Mailbox::take_seeds_by_token]. *)
Definition take_seeds_by_token (token : Token) (m : Mailbox) : list string * Mailbox :=
  ((map_to_list (filter (fun p => p.1.1 = token) m.(mb_seeded))).*1.*2,
   with_seeded (delete_where (fun k _ => bool_decide (k.1 = token)) m.(mb_seeded)) m).
(** [Mailbox::expired_seeds]. *)
Definition expired_seeds (now : Z) (m : Mailbox) : list (Token * string) :=
  (map_to_list (filter (fun p => p.2 <= as_i64 now) m.(mb_seeded))).*1.
(** [Mailbox::seeded_hashes]. *)
Definition seeded_hashes (m : Mailbox) : gset string := set_map snd (dom m.(mb_seeded)).

(** [Mailbox::sweep_orphan_chunks], on the directory of the chunk store. *)
Definition is_hex_lower (c : Ascii.ascii) : bool :=
  let n := Ascii.N_of_ascii c in
  ((48 <=? n) && (n <=? 57))%N || ((97 <=? n) && (n <=? 102))%N.
Fixpoint string_all (p : Ascii.ascii → bool) (s : string) : bool :=
  match s with String c s => p c && string_all p s | "" => true end%string.
Definition looks_like_chunk (name : string) : bool :=
  (String.length name =? 64)%nat && string_all is_hex_lower name.
Definition sweep_orphan_chunks (seeded : gset string) (now grace_secs : Z) (store_dir : gmap string File)
    : Z * gmap string File :=
  sweep_orphan_files now grace_secs
    (fun name => negb (looks_like_chunk name) || bool_decide (name ∈ seeded)) store_dir.

(** ** Session meters *)

(** [Mailbox::session_bytes]. *)
Definition session_bytes (swarm_id : string) (now : Z) (m : Mailbox) : Z :=
  match m.(mb_session_bytes) !! swarm_id with
  | Some r => if as_i64 now <? r.(sb_expires_at) then Z.max 0 (i64_or_zero r.(sb_bytes)) else 0
  | None => 0
  end.
(** [Mailbox::add_session_bytes]. *)
Definition add_session_bytes (swarm_id : string) (delta expires_at : Z) (m : Mailbox) : Mailbox :=
  let row :=
    match m.(mb_session_bytes) !! swarm_id with
    | Some r => mkSessionRow (r.(sb_bytes) + as_i64 delta) (as_i64 expires_at)
    | None => mkSessionRow (as_i64 delta) (as_i64 expires_at)
    end in
  with_session_bytes (<[swarm_id := row]> m.(mb_session_bytes)) m.
(** [Mailbox::reap_session_bytes]. *)
Definition reap_session_bytes (now : Z) (m : Mailbox) : Mailbox :=
  with_session_bytes (delete_where (fun _ r => r.(sb_expires_at) <=? as_i64 now) m.(mb_session_bytes)) m.

(** * Resumable uploads ([relay/src/mailbox/upload.rs])

    A deposit that arrives in pieces: open a session, append to its partial file,
    commit it into an ordinary mailbox entry.  How much has arrived is the length
    of the partial file. *)
Local Open Scope Z_scope.

Definition UPLOAD_IDLE_SECS : Z := 24 * 3600.
Definition UPLOAD_COMMITTED_GRACE_SECS : Z := 3600.
Definition DEFAULT_MAX_OPEN_UPLOADS : Z := 256.

Record UploadInfo := mkUploadInfo {
  ui_length : Z; ui_received : Z; ui_committed : option (Token * Z) }.

Record UploadOpen := mkUploadOpen {
  uo_encapped_key : bytes; uo_revoke_hash : bytes; uo_ttl_secs : Z; uo_max_downloads : Z;
  uo_length : Z }.

(** [Mailbox::open_upload]; [id] is the fresh token. A conflict takes the file back. *)
Definition open_upload (lim : Limits) (id : Token) (open : UploadOpen) (now : Z) (m : Mailbox)
    : result Token MailboxError * Mailbox :=
  let open_now := count_where (fun _ u => upload_open u) m.(mb_uploads) in
  if lim.(max_open_uploads) <=? open_now then (Err Capacity, m)
  else
    let m := with_files (<[upload_path id := mkFile [] now]> m.(mb_files)) m in
    let revoke_hash := match open.(uo_revoke_hash) with [] => None | h => Some h end in
    match m.(mb_uploads) !! id with
    | Some _ =>
        (Err (Backend "UNIQUE constraint failed"),
         with_files (delete (upload_path id) m.(mb_files)) m)
    | None =>
        (Ok id,
         with_uploads
           (<[id := mkUploadRow open.(uo_encapped_key) revoke_hash
                      (Z.min open.(uo_ttl_secs) I64_MAX) open.(uo_max_downloads)
                      (Z.min open.(uo_length) I64_MAX)
                      (as_i64 (sat_add now UPLOAD_IDLE_SECS)) None None]> m.(mb_uploads)) m)
    end.

(** [Mailbox::upload_info]. *)
Definition upload_info (id : Token) (now : Z) (m : Mailbox) : result UploadInfo MailboxError :=
  match m.(mb_uploads) !! id with
  | None => Err NotFound
  | Some u =>
      let length_ := Z.max 0 u.(up_length) in
      match u.(up_claim) with
      | Some claim =>
          Ok (mkUploadInfo length_ length_
                (Some (claim, Z.max 0 (default 0 u.(up_granted)))))
      | None =>
          if i64_as_u64 u.(up_idle_expires) <=? now then Err NotFound
          else
            match m.(mb_files) !! upload_path id with
            | None => Err NotFound
            | Some f => Ok (mkUploadInfo length_ (Z.min (Z.of_nat (length f.(f_bytes))) length_) None)
            end
      end
  end.

(** [Mailbox::begin_append]: [None] when another request holds the upload. *)
Definition begin_append (id : Token) (m : Mailbox) : option Mailbox :=
  if bool_decide (id ∈ m.(mb_uploads_busy)) then None
  else Some (with_busy ({[id]} ∪ m.(mb_uploads_busy)) m).
(** [Drop for AppendGuard]. *)
Definition end_append (id : Token) (m : Mailbox) : Mailbox :=
  with_busy (m.(mb_uploads_busy) ∖ {[id]}) m.

(** [Mailbox::touch_upload]. *)
Definition touch_upload (id : Token) (now : Z) (m : Mailbox) : Mailbox :=
  with_uploads
    (alter (fun u => if upload_open u
                     then mkUploadRow u.(up_encapped_key) u.(up_revoke_hash) u.(up_ttl)
                            u.(up_max_downloads) u.(up_length)
                            (as_i64 (sat_add now UPLOAD_IDLE_SECS)) u.(up_claim) u.(up_granted)
                     else u) id m.(mb_uploads)) m.

(** [std::fs::rename] within the blob directory. *)
Definition rename (from to : string) (files : gmap string File) : option (gmap string File) :=
  match files !! from with
  | None => None
  | Some f => Some (<[to := f]> (delete from files))
  end.

(** [Mailbox::commit_upload]; [claim] is the fresh token of the entry. The inner
    result is [Err received] while bytes are missing. *)
Definition commit_upload (lim : Limits) (id claim : Token) (now : Z) (m : Mailbox)
    : result (result (Token * Z) Z) MailboxError * Mailbox :=
  match upload_info id now m with
  | Err e => (Err e, m)
  | Ok info =>
      match info.(ui_committed) with
      | Some done => (Ok (Ok done), m)
      | None =>
          if negb (info.(ui_received) =? info.(ui_length)) then (Ok (Err info.(ui_received)), m)
          else
            match m.(mb_uploads) !! id with
            | None => (Err (Backend "Query returned no rows"), m)
            | Some u =>
                match rename (upload_path id) (blob_path claim) m.(mb_files) with
                | None => (Err (Backend "No such file or directory"), m)
                | Some files =>
                    let m := with_files files m in
                    let '(granted, m) := commit_deposit lim claim u.(up_encapped_key)
                      (Z.max 0 u.(up_ttl)) (clamp 0 U32_MAX u.(up_max_downloads))
                      (default [] u.(up_revoke_hash)) info.(ui_length) now m in
                    match granted with
                    | Err e =>
                        (Err e,
                         with_files (default m.(mb_files)
                           (rename (blob_path claim) (upload_path id) m.(mb_files))) m)
                    | Ok g =>
                        (Ok (Ok (claim, g)),
                         with_uploads
                           (alter (fun u => mkUploadRow u.(up_encapped_key) u.(up_revoke_hash)
                                     u.(up_ttl) u.(up_max_downloads) u.(up_length)
                                     (as_i64 (sat_add now UPLOAD_COMMITTED_GRACE_SECS))
                                     (Some claim) (Some (as_i64 g))) id m.(mb_uploads)) m)
                    end
                end
            end
      end
  end.

(** Removing an open session: its partial file, then its row. *)
Definition drop_upload (id : Token) (u : UploadRow) (m : Mailbox) : Mailbox :=
  let m := if upload_open u then with_files (delete (upload_path id) m.(mb_files)) m else m in
  with_uploads (delete id m.(mb_uploads)) m.

(** [Mailbox::abort_upload]. *)
Definition abort_upload (id : Token) (m : Mailbox) : result unit MailboxError * Mailbox :=
  match m.(mb_uploads) !! id with
  | None => (Err NotFound, m)
  | Some u => (Ok tt, drop_upload id u m)
  end.

(** [Mailbox::upload_reap]: sessions being appended to are left for the next pass,
    though the count returned includes them. *)
Definition upload_reap (now : Z) (m : Mailbox) : Z * Mailbox :=
  let rows := map_to_list (filter (fun p => p.2.(up_idle_expires) <= as_i64 now) m.(mb_uploads)) in
  (Z.of_nat (length rows),
   foldl (fun m p => if bool_decide (p.1 ∈ m.(mb_uploads_busy)) then m else drop_upload p.1 p.2 m)
     m rows).
