(* ===== verification/UploadHttp.v ===== *)
(** * Deposits over HTTP ([relay/src/http/upload.rs], [relay/src/http.rs])

    The handlers of [/v1/upload] and the streaming [/v1/deposit].  A request is
    what its extractors yield: the decoded headers, the path, the body as the
    events of its stream.  A response keeps the status, the headers that carry a
    number, and a text; texts with formatted detail are shortened to their constant
    part, and those of an append's outcome are left out. *)
From S2P Require Import Prelude.
From S2P Require Import Limits.
From S2P Require Import Store.
From S2P Require Import Mailbox.
Local Open Scope Z_scope.

(** The part of [AppState] and of the process environment the handlers read. *)
Record App := mkApp {
  app_limits : Limits;
  app_links_enabled : bool;
  app_uploads_enabled : bool }.

Record Response := mkResponse {
  status : Z;
  offset_header : option Z;        (* x-arvolo-upload-offset *)
  length_header : option Z;        (* x-arvolo-upload-length *)
  granted_ttl_header : option Z;   (* x-arvolo-ttl *)
  max_blob_header : option Z;      (* x-arvolo-max-blob *)
  body : string }.

Definition plain (code : Z) (text : string) : Response := mkResponse code None None None None text.
Definition OK : Z := 200.
Definition CREATED : Z := 201.
Definition NO_CONTENT : Z := 204.
Definition BAD_REQUEST : Z := 400.
Definition FORBIDDEN : Z := 403.
Definition NOT_FOUND : Z := 404.
Definition CONFLICT : Z := 409.
Definition GONE : Z := 410.
Definition PAYLOAD_TOO_LARGE : Z := 413.
Definition INTERNAL_SERVER_ERROR : Z := 500.
Definition INSUFFICIENT_STORAGE : Z := 507.

(** [status_for] and [err_response]. *)
Definition status_for (e : MailboxError) : Z :=
  match e with
  | NotFound => NOT_FOUND
  | Expired | Exhausted => GONE
  | TooLarge => PAYLOAD_TOO_LARGE
  | Capacity => INSUFFICIENT_STORAGE
  | Forbidden => FORBIDDEN
  | Backend _ => INTERNAL_SERVER_ERROR
  end.

Definition error_text (e : MailboxError) : string :=
  match e with
  | NotFound => "no such claim"
  | Expired => "expired"
  | Exhausted => "download limit reached"
  | TooLarge => "blob too large"
  | Capacity => "relay at capacity"
  | Forbidden => "not allowed (wrong or missing revoke token)"
  | Backend e => ("backend error: " +:+ e)%string
  end.

Definition err_response (e : MailboxError) : Response :=
  match e with
  | Backend _ => plain INTERNAL_SERVER_ERROR "internal error"
  | other => plain (status_for other) (error_text other)
  end.

(** [gone] and [offset_conflict]. *)
Definition gone : Response := plain NOT_FOUND "no such upload".
Definition offset_conflict (at_ : Z) (why : string) : Response :=
  mkResponse CONFLICT (Some at_) None None None why.
Definition busy : Response := plain CONFLICT "upload is busy with another request".

(** The decoded headers of an open or a deposit: [None] when missing or invalid. *)
Record DepositRequest := mkDepositRequest {
  rq_encapped_key : option bytes;
  rq_revoke_hash : option bytes;
  rq_upload_length : option Z;
  rq_ttl : Z;
  rq_max : Z }.

(** [open_handler], after [write_rate_limit] admitted the request. *)
Definition open_handler (app : App) (id : Token) (rq : DepositRequest) (now : Z) (m : Mailbox)
    : Response * Mailbox :=
  if negb app.(app_uploads_enabled) then (gone, m)
  else
    match rq.(rq_encapped_key) with
    | None => (plain BAD_REQUEST "missing/invalid encapped key", m)
    | Some encapped_key =>
        if negb app.(app_links_enabled) && bool_decide (encapped_key = []) then
          (plain FORBIDDEN "links disabled", m)
        else
          match rq.(rq_upload_length) with
          | None => (plain BAD_REQUEST "missing/invalid upload length", m)
          | Some length_ =>
              let lim := app.(app_limits) in
              let per_blob := lim.(max_blob_bytes) in
              if negb (per_blob =? 0) && (per_blob <? length_) then
                (mkResponse PAYLOAD_TOO_LARGE None None None (Some per_blob) "blob too large", m)
              else if at_capacity lim m then (plain INSUFFICIENT_STORAGE "relay at capacity", m)
              else
                let total_cap := lim.(max_total_blob_bytes) in
                if negb (total_cap =? 0) && (total_cap <? sat_add (disk_bytes m) length_) then
                  (plain INSUFFICIENT_STORAGE "relay at storage capacity", m)
                else
                  match open_upload lim id
                    (mkUploadOpen encapped_key (default [] rq.(rq_revoke_hash)) rq.(rq_ttl)
                       rq.(rq_max) length_) now m with
                  | (Ok id, m) => (plain CREATED id, m)
                  | (Err e, m) => (err_response e, m)
                  end
          end
    end.

(** [status_handler]. *)
Definition status_handler (app : App) (id : Token) (now : Z) (m : Mailbox) : Response :=
  if negb app.(app_uploads_enabled) then gone
  else
    match upload_info id now m with
    | Ok info => mkResponse NO_CONTENT (Some info.(ui_received)) (Some info.(ui_length)) None None ""
    | Err NotFound => gone
    | Err e => err_response e
    end.

(** What the body stream of an append does next, and what its write did: a chunk
    written whole, a chunk of which only the first [n] bytes landed before the write
    failed, a body that breaks off. *)
Inductive BodyEvent :=
  | Chunk (b : bytes)
  | TornChunk (b : bytes) (n : nat)
  | BodyError.

(** The append loop: the bytes on disk, the [end] the handler tracks, and the failure
    that stopped it. *)
Fixpoint append_loop (length_ : Z) (events : list BodyEvent) (disk : bytes) (end_ : Z)
    : bytes * Z * option Z :=
  match events with
  | [] => (disk, end_, None)
  | BodyError :: _ => (disk, end_, Some BAD_REQUEST)
  | Chunk b :: events =>
      if length_ <? sat_add end_ (Z.of_nat (length b)) then (disk, end_, Some BAD_REQUEST)
      else append_loop length_ events (disk ++ b) (end_ + Z.of_nat (length b))
  | TornChunk b n :: _ =>
      if length_ <? sat_add end_ (Z.of_nat (length b)) then (disk, end_, Some BAD_REQUEST)
      else (disk ++ take n b, end_, Some INTERNAL_SERVER_ERROR)
  end.

(** [File::set_len]: cut back, or padded with zeros. *)
Definition set_len (n : Z) (b : bytes) : bytes :=
  take (Z.to_nat n) b ++ replicate (Z.to_nat n - length b) Byte.x00.

(** [append_handler]; [t_end] is when the body had been read. [cancelled] is a request
    whose connection went away: the handler is dropped where it stands, its guard is
    released, and neither the cut nor the deadline of the success path is reached. *)
Definition append_handler (app : App) (id : Token) (offset : option Z) (events : list BodyEvent)
    (cancelled : bool) (now t_end : Z) (m : Mailbox) : option Response * Mailbox :=
  if negb app.(app_uploads_enabled) then (Some gone, m)
  else
    match offset with
    | None => (Some (plain BAD_REQUEST "missing/invalid offset"), m)
    | Some offset =>
        match begin_append id m with
        | None => (Some busy, m)
        | Some m =>
            match upload_info id now m with
            | Err NotFound => (Some gone, end_append id m)
            | Err e => (Some (err_response e), end_append id m)
            | Ok info =>
                if bool_decide (is_Some info.(ui_committed)) then
                  (Some (offset_conflict info.(ui_length) "upload already committed"), end_append id m)
                else if negb (offset =? info.(ui_received)) then
                  (Some (offset_conflict info.(ui_received) "offset does not match the upload"),
                   end_append id m)
                else
                  let path := upload_path id in
                  match m.(mb_files) !! path with
                  | None => (Some gone, end_append id m)
                  | Some f =>
                      let '(disk, end_, outcome) :=
                        append_loop info.(ui_length) events f.(f_bytes) offset in
                      let write b m := with_files (<[path := mkFile b t_end]> m.(mb_files)) m in
                      if cancelled then (None, end_append id (write disk m))
                      else
                        let disk := if bool_decide (is_Some outcome) then set_len end_ disk else disk in
                        let m := touch_upload id t_end (write disk m) in
                        let code := default NO_CONTENT outcome in
                        (Some (mkResponse code (Some end_) None None None ""), end_append id m)
                  end
            end
        end
    end.

(** [commit_handler], after [write_rate_limit] admitted the request. *)
Definition commit_handler (app : App) (id claim : Token) (now : Z) (m : Mailbox)
    : Response * Mailbox :=
  if negb app.(app_uploads_enabled) then (gone, m)
  else
    match begin_append id m with
    | None => (busy, m)
    | Some m =>
        let '(r, m) := commit_upload app.(app_limits) id claim now m in
        (match r with
         | Ok (Ok (claim, granted)) => mkResponse OK None None (Some granted) None claim
         | Ok (Err received) => offset_conflict received "upload is not complete"
         | Err NotFound => gone
         | Err e => err_response e
         end, end_append id m)
    end.

(** [abort_handler]. *)
Definition abort_handler (app : App) (id : Token) (m : Mailbox) : Response * Mailbox :=
  if negb app.(app_uploads_enabled) then (gone, m)
  else
    match begin_append id m with
    | None => (busy, m)
    | Some m =>
        let '(r, m) := abort_upload id m in
        (match r with
         | Ok _ | Err NotFound => plain NO_CONTENT ""
         | Err e => err_response e
         end, end_append id m)
    end.

(** The loop of [deposit_handler]: [Err] is the response of a refused body, whose
    partial file is removed. *)
Fixpoint deposit_loop (per_blob remaining_total : Z) (events : list BodyEvent) (disk : bytes)
    (written : Z) : result (bytes * Z) Response :=
  match events with
  | [] => Ok (disk, written)
  | BodyError :: _ => Err (plain BAD_REQUEST "body read")
  | (Chunk b | TornChunk b _) as ev :: events =>
      let written := sat_add written (Z.of_nat (length b)) in
      if negb (per_blob =? 0) && (per_blob <? written) then
        Err (mkResponse PAYLOAD_TOO_LARGE None None None (Some per_blob) "blob too large")
      else if remaining_total <? written then
        Err (plain INSUFFICIENT_STORAGE "relay at storage capacity")
      else
        match ev with
        | TornChunk _ _ => Err (plain INTERNAL_SERVER_ERROR "write blob")
        | _ => deposit_loop per_blob remaining_total events (disk ++ b) written
        end
  end.

(** [deposit_handler], after [write_rate_limit] admitted the request; [t_end] is when
    the body had been read. *)
Definition deposit_handler (app : App) (claim : Token) (rq : DepositRequest)
    (events : list BodyEvent) (t_end : Z) (m : Mailbox) : Response * Mailbox :=
  match rq.(rq_encapped_key) with
  | None => (plain BAD_REQUEST "missing/invalid encapped key", m)
  | Some encapped_key =>
      if negb app.(app_links_enabled) && bool_decide (encapped_key = []) then
        (plain FORBIDDEN "links disabled", m)
      else
        let lim := app.(app_limits) in
        if at_capacity lim m then (plain INSUFFICIENT_STORAGE "relay at capacity", m)
        else
          let total_cap := lim.(max_total_blob_bytes) in
          let stored := disk_bytes m in
          if negb (total_cap =? 0) && (total_cap <=? stored) then
            (plain INSUFFICIENT_STORAGE "relay at storage capacity", m)
          else
            let remaining_total := if total_cap =? 0 then U64_MAX else total_cap - stored in
            let path := blob_path claim in
            match deposit_loop lim.(max_blob_bytes) remaining_total events [] 0 with
            | Err r => (r, with_files (delete path m.(mb_files)) m)
            | Ok (disk, written) =>
                let m := with_files (<[path := mkFile disk t_end]> m.(mb_files)) m in
                let '(granted, m) := commit_deposit lim claim encapped_key rq.(rq_ttl) rq.(rq_max)
                  (default [] rq.(rq_revoke_hash)) written t_end m in
                match granted with
                | Ok g => (mkResponse OK None None (Some g) None claim, m)
                | Err e => (err_response e, with_files (delete path m.(mb_files)) m)
                end
            end
  end.
