(* ===== verification/MailboxFacts.v ===== *)
(** * Single operations of the mailbox

    What each operation of [Mailbox] does to one entry, one file and
    one upload: the lemmas the invariants of whole runs are made of, and the
    properties that concern one operation. *)
From S2P Require Import Prelude.
From S2P Require Import Limits.
From S2P Require Import Store.
From S2P Require Import Mailbox.
From S2P Require Import UploadHttp.
Local Open Scope Z_scope.

Lemma lookup_delete_at {K A} `{Countable K} (t : gmap K A) k i :
  delete k t !! i = if decide (i = k) then None else t !! i.
Proof.
  case_decide as Hd; [subst; apply lookup_delete_eq|by rewrite lookup_delete_ne].
Qed.

Lemma lookup_insert_dec {K A} `{Countable K} (t : gmap K A) k v i :
  <[k := v]> t !! i = if decide (i = k) then Some v else t !! i.
Proof.
  case_decide as Hd; [subst; apply lookup_insert_eq|by rewrite lookup_insert_ne].
Qed.

Lemma lookup_alter_dec {K A} `{Countable K} (f : A → A) (t : gmap K A) k i :
  alter f k t !! i = if decide (i = k) then f <$> t !! i else t !! i.
Proof.
  case_decide as Hd; [subst; apply lookup_alter_eq|by rewrite lookup_alter_ne].
Qed.

#[export] Hint Rewrite @lookup_delete_at @lookup_insert_dec @lookup_alter_dec : arvolo_lookup.

Ltac look := autorewrite with arvolo_lookup in *.

Lemma clamp_bounds lo hi x : lo <= hi → lo <= clamp lo hi x <= hi.
Proof. unfold clamp. repeat case_bool; zbool; lia. Qed.

Lemma sat_add_bounds x y : 0 <= x → 0 <= y → 0 <= sat_add x y <= U64_MAX.
Proof. unfold sat_add, U64_MAX. lia. Qed.

(** ** Reaping *)

Lemma foldl_delete_entry cs m :
  let m' := foldl (fun m claim => delete_entry claim m) m cs in
  (∀ c, m'.(mb_entries) !! c = if decide (c ∈ cs) then None else m.(mb_entries) !! c) ∧
  (∀ n, (∀ c, c ∈ cs → n ≠ blob_path c) → m'.(mb_files) !! n = m.(mb_files) !! n) ∧
  m'.(mb_uploads) = m.(mb_uploads) ∧ m'.(mb_uploads_busy) = m.(mb_uploads_busy).
Proof.
  revert m. induction cs as [|x cs IH]; intros m; cbn.
  { split_and!; try done. }
  destruct (IH (delete_entry x m)) as (H1 & H2 & H3 & H4). split_and!; try done.
  - intros c. rewrite H1. cbn. rewrite lookup_delete_at.
    repeat case_decide; set_solver.
  - intros n Hn. rewrite H2 by set_solver. cbn. rewrite lookup_delete_at.
    case_decide as Hd; [|done]. exfalso. apply (Hn x); set_solver.
Qed.

Lemma elem_of_expired now (m : Mailbox) c :
  c ∈ (map_to_list (filter (fun p => p.2.(en_expires_at) <= as_i64 now) m.(mb_entries))).*1 ↔
  ∃ e, m.(mb_entries) !! c = Some e ∧ e.(en_expires_at) <= as_i64 now.
Proof.
  rewrite list_elem_of_fmap. split.
  - intros ([c' e] & -> & Hin%elem_of_map_to_list). apply map_lookup_filter_Some in Hin. eauto.
  - intros (e & He & Hx). exists (c, e). split; [done|].
    apply elem_of_map_to_list. by apply map_lookup_filter_Some.
Qed.

(** Exactly the expired entries go, each with its file. *)
Lemma reap_spec now m c :
  (reap now m).2.(mb_entries) !! c =
    match m.(mb_entries) !! c with
    | Some e => if e.(en_expires_at) <=? as_i64 now then None else Some e
    | None => None
    end.
Proof.
  unfold reap. cbn. rewrite (proj1 (foldl_delete_entry _ m)).
  case_decide as Hd; rewrite elem_of_expired in Hd; case_match eqn:E; try done.
  - destruct Hd as (e' & [= <-] & Hle). by rewrite (proj2 (Z.leb_le _ _) Hle).
  - case_bool; zbool; [|done]. exfalso. eauto.
Qed.

Lemma reap_files now m n :
  (∀ c e, m.(mb_entries) !! c = Some e → e.(en_expires_at) <= as_i64 now → n ≠ blob_path c) →
  (reap now m).2.(mb_files) !! n = m.(mb_files) !! n.
Proof.
  intros Hn. unfold reap. cbn. apply foldl_delete_entry.
  intros c (e & He & Hx)%elem_of_expired. eauto.
Qed.

(** ** Sweeping *)

Lemma strip_bin_part id : strip_suffix ".bin" (upload_path id) = None.
Proof.
  destruct (strip_suffix ".bin" (upload_path id)) as [c|] eqn:E; [|done]. exfalso.
  apply strip_suffix_spec in E. by apply (blob_upload_disjoint c id).
Qed.

Lemma keep_blob_bin cs us c : keep_blob cs us (blob_path c) = bool_decide (c ∈ cs).
Proof. unfold keep_blob. by rewrite (proj2 (strip_suffix_spec ".bin" (blob_path c) c) eq_refl). Qed.

Lemma keep_blob_part cs us id : keep_blob cs us (upload_path id) = bool_decide (id ∈ us).
Proof.
  unfold keep_blob. rewrite strip_bin_part.
  by rewrite (proj2 (strip_suffix_spec ".part" (upload_path id) id) eq_refl).
Qed.

Lemma elem_of_open_upload_ids m id :
  id ∈ open_upload_ids m ↔ ∃ u, m.(mb_uploads) !! id = Some u ∧ upload_open u = true.
Proof.
  unfold open_upload_ids. rewrite elem_of_dom. unfold is_Some.
  setoid_rewrite map_lookup_filter_Some. done.
Qed.

(** A file survives a walk when its name is accounted for or it is recent. *)
Lemma sweep_walk_files cs us now grace m n f :
  m.(mb_files) !! n = Some f →
  keep_blob cs us n = true ∨ now - f.(f_mtime) < grace ∨ now < f.(f_mtime) →
  (sweep_walk cs us now grace m).2.(mb_files) !! n = Some f.
Proof.
  intros Hf Hk. unfold sweep_walk, sweep_orphan_files. cbn.
  rewrite lookup_delete_where, Hf.
  destruct (keep_blob cs us n) eqn:E; [done|]. cbn.
  destruct Hk as [|[Hk|Hk]]; [done| |].
  - by rewrite (proj2 (Z.ltb_lt _ _) Hk), orb_true_r.
  - by rewrite (proj2 (Z.ltb_lt _ _) Hk).
Qed.

Lemma sweep_walk_gone cs us now grace m n f :
  m.(mb_files) !! n = Some f → keep_blob cs us n = false →
  f.(f_mtime) <= now → grace <= now - f.(f_mtime) →
  (sweep_walk cs us now grace m).2.(mb_files) !! n = None.
Proof.
  intros Hf Hk H1 H2. unfold sweep_walk, sweep_orphan_files. cbn.
  rewrite lookup_delete_where, Hf, Hk. cbn.
  by rewrite (proj2 (Z.ltb_ge _ _) H1), (proj2 (Z.ltb_ge _ _) H2).
Qed.

Lemma sweep_walk_tables cs us now grace m :
  (sweep_walk cs us now grace m).2.(mb_entries) = m.(mb_entries) ∧
  (sweep_walk cs us now grace m).2.(mb_uploads) = m.(mb_uploads) ∧
  (sweep_walk cs us now grace m).2.(mb_uploads_busy) = m.(mb_uploads_busy).
Proof. done. Qed.

(** ** One entry under a fetch *)

Lemma commit_deposit_ok lim claim k ttl mx rh size now m g m' :
  commit_deposit lim claim k ttl mx rh size now m = (Ok g, m') →
  m.(mb_entries) !! claim = None ∧ g = Z.min ttl lim.(max_ttl_secs) ∧
  ∃ e, m' = with_entries (<[claim := e]> m.(mb_entries)) m ∧
    e.(en_encapped_key) = k ∧ e.(en_expires_at) = as_i64 (sat_add now g) ∧
    e.(en_downloads) = 0 ∧ e.(en_max_downloads) = clamp 1 MAX_DOWNLOADS_CAP mx ∧
    e.(en_size) = Some (as_i64 size) ∧
    e.(en_revoke_hash) = match rh with [] => None | _ => Some rh end.
Proof.
  unfold commit_deposit. destruct (mb_entries m !! claim); [done|]. intros [= <- <-].
  split_and!; try done. eexists. split; [done|]. done.
Qed.

(** The invariant of a stored entry. *)
Definition entry_wf (e : Entry) : Prop :=
  0 <= e.(en_downloads) < e.(en_max_downloads) ∧ e.(en_max_downloads) <= MAX_DOWNLOADS_CAP.

Lemma fetch_plan_ok claim now m plan m' :
  fetch_plan claim now m = (Ok plan, m') →
  ∃ e, m.(mb_entries) !! claim = Some e ∧ now < i64_as_u64 e.(en_expires_at) ∧
    e.(en_downloads) < e.(en_max_downloads) ∧
    plan = mkFetchPlan e.(en_encapped_key) (blob_path claim)
             (e.(en_max_downloads) <=? e.(en_downloads) + 1) ∧
    m' = if plan.(fp_burn) then with_entries (delete claim m.(mb_entries)) m
         else set_downloads claim (e.(en_downloads) + 1) m.
Proof.
  unfold fetch_plan, row. destruct (mb_entries m !! claim) as [e|]; [|done]. cbn zeta.
  destruct (i64_as_u64 _ <=? now) eqn:E1; [done|].
  destruct (_ <=? en_downloads e) eqn:E2; [done|]. zbool.
  destruct (_ <=? en_downloads e + 1) eqn:E3; intros [= <- <-]; exists e; rewrite E3; done.
Qed.

Lemma fetch_plan_err claim now m e m' :
  fetch_plan claim now m = (Err e, m') → m' = m ∨ m' = delete_entry claim m.
Proof.
  unfold fetch_plan, row. destruct (mb_entries m !! claim) as [x|]; [|intros [= <- <-]; by left].
  repeat case_bool; try done; intros [= <- <-]; by right.
Qed.

Lemma fetch_plan_held_cases claim now m r m' :
  fetch_plan_held claim now m = (r, m') →
  (m' = m ∧ (r = Err NotFound ∨ ∃ e, m.(mb_entries) !! claim = Some e ∧
     now < i64_as_u64 e.(en_expires_at) ∧
     r = Ok (mkFetchPlan e.(en_encapped_key) (blob_path claim) false))) ∨
  (m' = delete_entry claim m ∧ ∃ x, r = Err x).
Proof.
  unfold fetch_plan_held, row. destruct (mb_entries m !! claim) as [e|]; [|intros [= <- <-]; auto].
  repeat case_bool; intros [= <- <-]; eauto. left. split; [done|]. right.
  exists e. zbool. split; [done|]. split; [lia|done].
Qed.

Lemma ack_fetch_cases claim now m r m' :
  ack_fetch claim now m = (r, m') →
  (r = Err NotFound ∧ m' = m) ∨
  (r = Ok tt ∧ ∃ e, m.(mb_entries) !! claim = Some e ∧
     (m' = delete_entry claim m ∨
      (e.(en_downloads) + 1 < e.(en_max_downloads) ∧
       m' = set_downloads claim (e.(en_downloads) + 1) m))).
Proof.
  unfold ack_fetch, row. destruct (mb_entries m !! claim) as [e|]; [|intros [= <- <-]; auto].
  case_bool; intros [= <- <-]; right; split; [done|eauto|done|].
  exists e. split; [done|]. right. zbool. split; [lia|done].
Qed.

Lemma serve_plan_tables plan m r m' :
  serve_plan plan m = (r, m') →
  m'.(mb_entries) = m.(mb_entries) ∧ m'.(mb_uploads) = m.(mb_uploads) ∧
  m'.(mb_uploads_busy) = m.(mb_uploads_busy).
Proof.
  unfold serve_plan. destruct (mb_files m !! fp_blob_path plan); [case_bool|]; by intros [= <- <-].
Qed.

(** * Appends and commits

    What one append leaves on disk, what a commit turns it into, and that an upload
    one request holds is touched by no other. *)
Local Open Scope Z_scope.


(** Everything a body stream offers, whether or not it was written. *)
Definition body_bytes (events : list BodyEvent) : bytes :=
  mjoin ((fun ev => match ev with Chunk b | TornChunk b _ => b | BodyError => [] end) <$> events).

Definition event_bytes (ev : BodyEvent) : bytes :=
  match ev with Chunk b | TornChunk b _ => b | BodyError => [] end.

Lemma body_bytes_cons ev events : body_bytes (ev :: events) = event_bytes ev ++ body_bytes events.
Proof. done. Qed.

Lemma append_loop_spec length_ events disk end_ disk' end' outcome :
  append_loop length_ events disk end_ = (disk', end', outcome) →
  0 <= end_ <= length_ → length_ < U64_MAX →
  ∃ pre torn, disk' = disk ++ pre ++ torn ∧ (pre ++ torn) `prefix_of` body_bytes events ∧
    end' = end_ + zlen pre ∧ end_ + zlen (pre ++ torn) <= length_ ∧
    (outcome = None → torn = [] ∧ pre = body_bytes events).
Proof.
  revert disk end_. induction events as [|ev events IH]; intros disk end_ Hloop Hend Hlen; cbn in *.
  { injection Hloop as <- <- <-. exists [], []. cbn. rewrite app_nil_r. split_and!; done || apply prefix_nil || lia. }
  assert (∀ x, 0 <= x → (length_ <? sat_add end_ x) = false → end_ + x <= length_) as Hfit.
  { unfold sat_add. intros x Hx Hf. zbool. lia. }
  assert (∀ o, (disk, end_, Some o) = (disk', end', outcome) → ∃ pre torn,
    disk' = disk ++ pre ++ torn ∧ (pre ++ torn) `prefix_of` body_bytes (ev :: events) ∧
    end' = end_ + zlen pre ∧ end_ + zlen (pre ++ torn) <= length_ ∧
    (outcome = None → torn = [] ∧ pre = body_bytes (ev :: events))) as Hstop.
  { intros o [= <- <- <-]. exists [], []. cbn. rewrite app_nil_r. split_and!; done || apply prefix_nil || lia. }
  destruct ev as [b|b n|]; [| |by apply (Hstop BAD_REQUEST)].
  - destruct (length_ <? sat_add end_ (zlen b)) eqn:E; [by apply (Hstop BAD_REQUEST)|].
    pose proof (Hfit (zlen b) ltac:(lia) E) as Hb.
    destruct (IH _ _ Hloop ltac:(lia) Hlen) as (pre & torn & -> & Hp & -> & Hl & Ho).
    exists (b ++ pre), torn. rewrite !length_app in *. split_and!.
    + by rewrite <- !app_assoc.
    + cbn. rewrite <- app_assoc. by apply prefix_app.
    + lia.
    + lia.
    + intros Hn. destruct (Ho Hn) as [-> ->]. done.
  - destruct (length_ <? sat_add end_ (zlen b)) eqn:E; [by apply (Hstop BAD_REQUEST)|].
    pose proof (Hfit (zlen b) ltac:(lia) E) as Hb. injection Hloop as <- <- <-.
    exists [], (take n b). cbn. rewrite length_take. split_and!; try done; try lia.
    trans b; [apply prefix_take|by exists (mjoin ((fun ev => match ev with Chunk b | TornChunk b _ => b
      | BodyError => [] end) <$> events))].
Qed.

Lemma append_loop_failure length_ events disk end_ disk' end' code :
  append_loop length_ events disk end_ = (disk', end', Some code) → code ≠ NO_CONTENT.
Proof.
  revert disk end_. induction events as [|[b|b n|] events IH]; intros disk end_; cbn; try done.
  - case_bool; [by intros [= _ _ <-]|apply IH].
  - case_bool; by intros [= _ _ <-].
  - by intros [= _ _ <-].
Qed.

(** Cutting the file back to the tracked end drops exactly the torn tail. *)
Lemma set_len_torn disk pre torn :
  set_len (zlen disk + zlen pre) (disk ++ pre ++ torn) = disk ++ pre.
Proof.
  unfold set_len. rewrite app_assoc. replace (Z.to_nat _) with (length (disk ++ pre))
    by (rewrite length_app; lia).
  rewrite take_app_length, (length_app (disk ++ pre)).
  replace (_ - _)%nat with 0%nat by lia. cbn. by rewrite app_nil_r.
Qed.

(** ** An open upload of a known ciphertext *)

(** The session [id] is open for [ct], and what is on disk is a beginning of it. *)
Definition uploading (id : Token) (ct : bytes) (m : Mailbox) : Prop :=
  ∃ u f, m.(mb_uploads) !! id = Some u ∧ upload_open u = true ∧ u.(up_length) = zlen ct ∧
    m.(mb_files) !! upload_path id = Some f ∧ f.(f_bytes) `prefix_of` ct.

(** Where an honest client's append starts and what it sends: the rest of the
    ciphertext from the offset it names. *)
Definition honest (ct : bytes) (offset : Z) (events : list BodyEvent) : Prop :=
  body_bytes events `prefix_of` drop (Z.to_nat offset) ct.

Lemma uploading_info id ct m now info :
  uploading id ct m → upload_info id now m = Ok info →
  ∃ f, m.(mb_files) !! upload_path id = Some f ∧ f.(f_bytes) `prefix_of` ct ∧
    info = mkUploadInfo (zlen ct) (zlen f.(f_bytes)) None.
Proof.
  intros (u & f & Hu & Ho & Hl & Hf & Hp) Hi. exists f. split; [done|]. split; [done|].
  unfold upload_info in Hi. rewrite Hu in Hi. unfold upload_open in Ho.
  destruct (up_claim u) as [c|]; [by rewrite bool_decide_true in Ho by eauto|].
  case_bool; [done|]. rewrite Hf, Hl in Hi. injection Hi as <-.
  apply prefix_length in Hp. f_equal; lia.
Qed.

Lemma prefix_extend (disk pre ct : bytes) :
  disk `prefix_of` ct → pre `prefix_of` drop (length disk) ct → (disk ++ pre) `prefix_of` ct.
Proof. intros [k ->] Hp. rewrite drop_app_length in Hp. by apply prefix_app. Qed.

Lemma with_file_uploading id ct m f b t :
  uploading id ct m → b `prefix_of` ct → m.(mb_files) !! upload_path id = Some f →
  uploading id ct (with_files (<[upload_path id := mkFile b t]> m.(mb_files)) m).
Proof.
  intros (u & f' & Hu & Ho & Hl & Hf & Hp) Hb _. exists u, (mkFile b t).
  split_and!; try done. cbn. by rewrite lookup_insert_eq.
Qed.

Lemma touch_uploading id ct id' t m : uploading id ct m → uploading id ct (touch_upload id' t m).
Proof.
  intros (u & f & Hu & Ho & Hl & Hf & Hp). unfold uploading, touch_upload. cbn.
  rewrite lookup_alter_dec. case_decide as Hd.
  - rewrite Hu. cbn. rewrite Ho. eexists _, f. split; [done|]. done.
  - exists u, f. done.
Qed.

(** What an append may have done to the upload [id] of [ct], and what it answers. *)
Definition append_outcome (id : Token) (ct : bytes) (offset : option Z) (events : list BodyEvent)
    (m : Mailbox) (r : option Response) (m' : Mailbox) : Prop :=
  uploading id ct m' ∧
  (∀ f, m.(mb_files) !! upload_path id = Some f →
     ∃ f', m'.(mb_files) !! upload_path id = Some f' ∧ f.(f_bytes) `prefix_of` f'.(f_bytes) ∧
       ∀ resp o, r = Some resp → resp.(offset_header) = Some o → o = zlen f'.(f_bytes)) ∧
  (r = Some (mkResponse NO_CONTENT (Some (default 0 offset + zlen (body_bytes events)))
               None None None "") ∨
   ∀ resp, r = Some resp → resp.(status) ≠ NO_CONTENT).

Lemma append_handler_resumes app id ct offset events cancelled now t_end m :
  uploading id ct m → zlen ct < U64_MAX → (∀ o, offset = Some o → honest ct o events) →
  let '(r, m') := append_handler app id offset events cancelled now t_end m in
  append_outcome id ct offset events m r m'.
Proof.
  intros Hup Hsize Hhonest.
  assert (∀ b resp, resp.(status) ≠ NO_CONTENT →
    (∀ o, resp.(offset_header) = Some o → ∀ f, m.(mb_files) !! upload_path id = Some f →
       o = zlen f.(f_bytes)) →
    append_outcome id ct offset events m (Some resp) (with_busy b m)) as Hrefuse.
  { intros b resp Hs Ho. split; [done|]. split.
    - intros f Hf. exists f. split; [done|]. split; [done|]. intros resp' o [= <-] Hoff. eauto.
    - right. by intros resp' [= <-]. }
  unfold append_handler.
  destruct (app_uploads_enabled app); [|by apply (Hrefuse m.(mb_uploads_busy))].
  destruct offset as [o|]; [|by apply (Hrefuse m.(mb_uploads_busy))]. cbn [negb].
  unfold begin_append. case_bool; [by apply (Hrefuse m.(mb_uploads_busy))|].
  destruct (upload_info id now _) as [info|e] eqn:Ei;
    [|by destruct e; apply (Hrefuse (_ ∖ {[id]}))].
  assert (uploading id ct (with_busy ({[id]} ∪ mb_uploads_busy m) m)) as Hup' by exact Hup.
  destruct (uploading_info _ _ _ _ _ Hup' Ei) as (f & Hf & Hp & ->). clear Hup' Ei. cbn in *.
  destruct (o =? zlen (f_bytes f)) eqn:Eo; cbn [negb].
  2: { apply (Hrefuse (_ ∖ {[id]})); [done|]. cbn. intros o' [= <-] f' Hf'. congruence. }
  zbool. subst o. rewrite Hf.
  destruct (append_loop _ _ _ _) as [[disk end_] outcome] eqn:Eloop.
  pose proof (prefix_length _ _ Hp) as Hplen.
  destruct (append_loop_spec _ _ _ _ _ _ _ Eloop ltac:(lia) Hsize)
    as (pre & torn & -> & Hpre & -> & Hlen & Hout).
  pose proof (Hhonest _ eq_refl) as Hh. unfold honest in Hh. rewrite Nat2Z.id in Hh.
  assert ((f_bytes f ++ pre ++ torn) `prefix_of` ct) as Hall.
  { apply prefix_extend; [done|]. by etrans. }
  assert ((f_bytes f ++ pre) `prefix_of` ct) as Hpart.
  { etrans; [|exact Hall]. apply prefix_app. by exists torn. }
  destruct cancelled.
  - split; [by apply (with_file_uploading id ct m f)|]. split; [|by right].
    intros f' Hf'. simplify_eq. cbn. rewrite lookup_insert_eq. eexists. split; [done|].
    split; [by exists (pre ++ torn)|done].
  - set (final := if bool_decide (is_Some outcome) then _ else _).
    assert (final = f_bytes f ++ pre) as ->.
    { unfold final. case_bool; [apply set_len_torn|]. apply bool_decide_eq_false in Heqb0.
      destruct outcome; [by destruct Heqb0|]. destruct (Hout eq_refl) as [-> _].
      by rewrite app_nil_r. }
    split; [apply (touch_uploading id ct id t_end), (with_file_uploading id ct m f); done|].
    split.
    + intros f' Hf'. simplify_eq. cbn. rewrite lookup_insert_eq. eexists. split; [done|].
      split; [by exists pre|]. intros resp o [= <-] [= <-]. cbn. rewrite length_app. lia.
    + destruct outcome as [code|]; cbn.
      * right. intros resp [= <-]. cbn. by apply (append_loop_failure _ _ _ _ _ _ _ Eloop).
      * left. by destruct (Hout eq_refl) as [_ ->].
Qed.


(** ** Commit *)

(** The file of a complete upload, moved under the name of the entry. *)
Lemma commit_upload_ok lim id claim now m ct c g m' :
  uploading id ct m → commit_upload lim id claim now m = (Ok (Ok (c, g)), m') →
  ∃ u e f, m.(mb_uploads) !! id = Some u ∧ m.(mb_files) !! upload_path id = Some f ∧
    f.(f_bytes) = ct ∧ c = claim ∧ m.(mb_entries) !! claim = None ∧
    g = Z.min (Z.max 0 u.(up_ttl)) lim.(max_ttl_secs) ∧
    e.(en_encapped_key) = u.(up_encapped_key) ∧ e.(en_downloads) = 0 ∧
    e.(en_max_downloads) = clamp 1 MAX_DOWNLOADS_CAP (clamp 0 U32_MAX u.(up_max_downloads)) ∧
    e.(en_expires_at) = as_i64 (sat_add now g) ∧ e.(en_size) = Some (as_i64 (zlen ct)) ∧
    m'.(mb_entries) = <[claim := e]> m.(mb_entries) ∧
    m'.(mb_files) = <[blob_path claim := f]> (delete (upload_path id) m.(mb_files)) ∧
    m'.(mb_uploads) = <[id := mkUploadRow u.(up_encapped_key) u.(up_revoke_hash) u.(up_ttl)
        u.(up_max_downloads) u.(up_length) (as_i64 (sat_add now UPLOAD_COMMITTED_GRACE_SECS))
        (Some claim) (Some (as_i64 g))]> m.(mb_uploads) ∧
    m'.(mb_uploads_busy) = m.(mb_uploads_busy).
Proof.
  intros Hup Hc. unfold commit_upload in Hc.
  destruct (upload_info id now m) as [info|e] eqn:Ei; [|done].
  destruct (uploading_info _ _ _ _ _ Hup Ei) as (f & Hf & Hp & ->). cbn in Hc.
  destruct (zlen (f_bytes f) =? zlen ct) eqn:El; cbn in Hc; [zbool|done].
  assert (f_bytes f = ct) as Hct.
  { destruct Hp as [k ->]. rewrite length_app in El. destruct k; [by rewrite app_nil_r|cbn in El; lia]. }
  destruct Hup as (u & f' & Hu & _ & _ & Hf' & _). rewrite Hu in Hc.
  unfold rename in Hc. rewrite Hf in Hc.
  destruct (commit_deposit _ _ _ _ _ _ _ _ _) as [[g'|e] m1] eqn:Ed; [|done].
  apply commit_deposit_ok in Ed as (Hn & -> & e & -> & H1 & H2 & H3 & H4 & H5 & _).
  cbn in Hc. injection Hc as <- <- <-. exists u, e, f. cbn.
  split_and!; try done. apply map_eq. intros i. rewrite lookup_alter_dec, lookup_insert_dec.
  case_decide; [subst; by rewrite Hu|done].
Qed.

Lemma as_i64_nonneg_u64 x : 0 <= x <= I64_MAX → i64_as_u64 (as_i64 x) = x.
Proof. intros H. rewrite as_i64_small by lia. apply i64_as_u64_small. lia. Qed.

(** A live entry whose file is in place is served whole. *)
Lemma fetch_serves claim now m e f :
  m.(mb_entries) !! claim = Some e → m.(mb_files) !! blob_path claim = Some f →
  now < i64_as_u64 e.(en_expires_at) → e.(en_downloads) < e.(en_max_downloads) →
  (fetch claim now m).1 = Ok (mkClaimed e.(en_encapped_key) f.(f_bytes)).
Proof.
  intros He Hf Hn Hd. unfold fetch, fetch_plan, row. rewrite He. cbn zeta.
  rewrite (proj2 (Z.leb_gt _ _)) by lia. rewrite (proj2 (Z.leb_gt _ _)) by lia.
  unfold serve_plan. case_bool; cbn; by rewrite Hf.
Qed.

Lemma commit_upload_whole lim id claim now m ct c g m' :
  uploading id ct m → commit_upload lim id claim now m = (Ok (Ok (c, g)), m') →
  0 <= now → 0 <= g → now + g <= I64_MAX →
  (∃ key, ∀ now', now' < now + g → (fetch c now' m').1 = Ok (mkClaimed key ct)) ∧
  (∀ claim' now', commit_upload lim id claim' now' m' = (Ok (Ok (c, g)), m')) ∧
  m'.(mb_files) !! upload_path id = None.
Proof.
  intros Hup Hcommit Hnow Hg Hroom.
  destruct (commit_upload_ok _ _ _ _ _ _ _ _ _ Hup Hcommit) as
    (u & e & f & Hu & Hf & Hct & -> & Hn & Hg' & Hk & Hd & Hmx & Hx & _ & He & Hfs & Hus & _).
  assert (sat_add now g = now + g) as Hsat by (apply sat_add_small; unfold I64_MAX, U64_MAX in *; lia).
  split_and!.
  - exists e.(en_encapped_key). intros now' Hlt. rewrite <- Hct. apply fetch_serves.
    + rewrite He. apply lookup_insert_eq.
    + rewrite Hfs. apply lookup_insert_eq.
    + rewrite Hx, Hsat, as_i64_nonneg_u64 by lia. done.
    + rewrite Hd, Hmx. pose proof (clamp_bounds 1 MAX_DOWNLOADS_CAP (clamp 0 U32_MAX u.(up_max_downloads))).
      unfold MAX_DOWNLOADS_CAP in *. lia.
  - intros claim' now'. unfold commit_upload, upload_info. rewrite Hus, lookup_insert_eq. cbn.
    rewrite (as_i64_small g) by lia. by rewrite Z.max_r.
  - rewrite Hfs, lookup_insert_dec. case_decide as Hb; [by apply eq_sym, blob_upload_disjoint in Hb|].
    apply lookup_delete_eq.
Qed.

(** A committed upload is the file, whole: the claim it answers with is served as
    exactly the ciphertext the session was opened for until the granted TTL, and
    committing again, at any time and under any fresh token, answers with the same
    claim and changes nothing. *)
Theorem commit_is_whole lim id claim now m ct c g m'
    (Hup : uploading id ct m)
    (Hcommit : commit_upload lim id claim now m = (Ok (Ok (c, g)), m'))
    (Hnow : 0 <= now) (Hg : 0 <= g) (Hroom : now + g <= I64_MAX) :
  (∃ key, ∀ now', now' < now + g → (fetch c now' m').1 = Ok (mkClaimed key ct)) ∧
  (∀ claim' now', commit_upload lim id claim' now' m' = (Ok (Ok (c, g)), m')) ∧
  m'.(mb_files) !! upload_path id = None.
Proof. by apply (commit_upload_whole lim id claim now m). Qed.

(** ** Other requests while one appends *)

Lemma drop_upload_other id u m i :
  i ≠ id →
  (drop_upload id u m).(mb_uploads) !! i = m.(mb_uploads) !! i ∧
  (drop_upload id u m).(mb_files) !! upload_path i = m.(mb_files) !! upload_path i.
Proof.
  intros Hne. unfold drop_upload. split.
  - case_bool; cbn; by rewrite lookup_delete_ne by congruence.
  - case_bool; cbn; [|done]. rewrite lookup_delete_at. case_decide as Hp; [|done].
    by apply upload_path_inj in Hp.
Qed.

Lemma drop_upload_frame id u m :
  (drop_upload id u m).(mb_entries) = m.(mb_entries) ∧
  (drop_upload id u m).(mb_uploads_busy) = m.(mb_uploads_busy) ∧
  (∀ n, n ≠ upload_path id → (drop_upload id u m).(mb_files) !! n = m.(mb_files) !! n).
Proof.
  unfold drop_upload. split_and!; try by case_bool.
  intros n Hn. case_bool; cbn; [|done]. by rewrite lookup_delete_ne.
Qed.

Definition reap_one (m : Mailbox) (p : Token * UploadRow) : Mailbox :=
  if bool_decide (p.1 ∈ m.(mb_uploads_busy)) then m else drop_upload p.1 p.2 m.

Lemma foldl_reap_one rows m :
  let m' := foldl reap_one m rows in
  m'.(mb_entries) = m.(mb_entries) ∧ m'.(mb_uploads_busy) = m.(mb_uploads_busy) ∧
  (∀ i, i ∈ m.(mb_uploads_busy) ∨ i ∉ rows.*1 →
     m'.(mb_uploads) !! i = m.(mb_uploads) !! i ∧
     m'.(mb_files) !! upload_path i = m.(mb_files) !! upload_path i) ∧
  (∀ n, (∀ i, n ≠ upload_path i) → m'.(mb_files) !! n = m.(mb_files) !! n).
Proof.
  revert m. induction rows as [|[id u] rows IH]; intros m; [done|].
  change (foldl reap_one m ((id, u) :: rows)) with (foldl reap_one (reap_one m (id, u)) rows). cbn zeta.
  destruct (IH (reap_one m (id, u))) as (H1 & H2 & H3 & H4).
  destruct (drop_upload_frame id u m) as (E1 & E2 & E3).
  unfold reap_one in H1, H2, H3, H4 |- *. cbn [fst snd] in *. case_bool.
  - split_and!; try done. intros i Hi. apply H3. set_solver.
  - apply bool_decide_eq_false in Heqb. split_and!; [congruence|congruence| |].
    + intros i Hi. assert (i ≠ id) as Hne by set_solver.
      destruct (H3 i) as [-> ->]; [rewrite E2; set_solver|]. by apply drop_upload_other.
    + intros n Hn. rewrite H4 by done. by apply E3.
Qed.

(** Nobody else touches an upload one request is appending to: a second append, a
    commit and an abort are answered 409 and change nothing, and the reaper leaves
    both its row and its file for the next pass. *)
Theorem busy_upload_untouched app id claim offset events cancelled now t_end m
    (Hon : app.(app_uploads_enabled) = true)
    (Hbusy : id ∈ m.(mb_uploads_busy)) :
  commit_handler app id claim now m = (busy, m) ∧
  abort_handler app id m = (busy, m) ∧
  (∀ o, offset = Some o → append_handler app id offset events cancelled now t_end m = (Some busy, m)) ∧
  let m' := (upload_reap now m).2 in
  m'.(mb_uploads) !! id = m.(mb_uploads) !! id ∧
  m'.(mb_files) !! upload_path id = m.(mb_files) !! upload_path id ∧
  id ∈ m'.(mb_uploads_busy).
Proof.
  unfold commit_handler, abort_handler, append_handler, begin_append.
  rewrite Hon, bool_decide_true by done.
  destruct (foldl_reap_one (map_to_list (filter (fun p => p.2.(up_idle_expires) <= as_i64 now)
    m.(mb_uploads))) m) as (_ & H2 & H3 & _).
  destruct (H3 id (or_introl Hbusy)) as [Hu Hf].
  split_and!; [done|done|by intros o ->|exact Hu|exact Hf|].
  change (id ∈ mb_uploads_busy (foldl reap_one m (map_to_list
    (filter (fun p => p.2.(up_idle_expires) <= as_i64 now) m.(mb_uploads))))). by rewrite H2.
Qed.
