(* ===== verification/Relay.v ===== *)
(** * Runs of the relay's store

    Every request and every background pass that touches entries, uploads and the
    blob directory, as one step of a run; the invariant that ties rows to files and
    its preservation; what a whole run can and cannot do to one deposit. *)
From S2P Require Import Prelude.
From S2P Require Import Limits.
From S2P Require Import Store.
From S2P Require Import Mailbox.
From S2P Require Import UploadHttp.
From S2P Require Import MailboxFacts.
Local Open Scope Z_scope.

Inductive Op :=
  | ODeposit (claim : Token) (rq : DepositRequest) (events : list BodyEvent) (t_end : Z)
  | ODropped (claim : Token) (partial : bytes) (now : Z)   (* the deposit's connection went away *)
  | OFetch (hold : bool) (claim : Token) (now : Z)
  | OAck (claim : Token) (now : Z)
  | ORevoke (claim token : Token)
  | OOpen (id : Token) (rq : DepositRequest) (now : Z)
  | OAppend (id : Token) (offset : option Z) (events : list BodyEvent) (cancelled : bool) (now t_end : Z)
  | OCommit (id claim : Token) (now : Z)
  | OAbort (id : Token)
  | OReap (now : Z)
  | OUploadReap (now : Z)
  | OSweep (now grace : Z).

Section steps.
Context `{!Blake3Hash} (app : App).

Definition step (op : Op) (m : Mailbox) : Mailbox :=
  match op with
  | ODeposit claim rq events t_end => (deposit_handler app claim rq events t_end m).2
  | ODropped claim partial now =>
      with_files (<[blob_path claim := mkFile partial now]> m.(mb_files)) m
  | OFetch hold claim now => (fetch_handler hold claim now m).2
  | OAck claim now => (ack_fetch claim now m).2
  | ORevoke claim token => (revoke claim token m).2
  | OOpen id rq now => (open_handler app id rq now m).2
  | OAppend id offset events cancelled now t_end =>
      (append_handler app id offset events cancelled now t_end m).2
  | OCommit id claim now => (commit_handler app id claim now m).2
  | OAbort id => (abort_handler app id m).2
  | OReap now => (reap now m).2
  | OUploadReap now => (upload_reap now m).2
  | OSweep now grace => (sweep_orphan_blobs now grace m).2
  end.

Definition run (ops : list Op) (m : Mailbox) : Mailbox := foldl (fun m op => step op m) m ops.

(** The fresh tokens an operation draws. *)
Definition new_claim (op : Op) : option Token :=
  match op with ODeposit c _ _ _ | ODropped c _ _ | OCommit _ c _ => Some c | _ => None end.
Definition new_upload (op : Op) : option Token :=
  match op with OOpen id _ _ => Some id | _ => None end.

(** What the random tokens and the [u64]/[u32] types of a request guarantee. *)
Definition op_ok (op : Op) (m : Mailbox) : Prop :=
  (∀ c, new_claim op = Some c → m.(mb_entries) !! c = None) ∧
  (∀ id, new_upload op = Some id → m.(mb_uploads) !! id = None) ∧
  match op with
  | ODeposit _ _ events _ => zlen (body_bytes events) <= I64_MAX
  | OOpen _ rq _ => ∀ n, rq.(rq_upload_length) = Some n → 0 <= n
  | _ => True
  end.

Fixpoint run_ok (ops : list Op) (m : Mailbox) : Prop :=
  match ops with [] => True | op :: ops => op_ok op m ∧ run_ok ops (step op m) end.

(** The same, decided. *)
Definition op_okb (op : Op) (m : Mailbox) : bool :=
  match new_claim op with Some c => bool_decide (m.(mb_entries) !! c = None) | None => true end
  && match new_upload op with Some i => bool_decide (m.(mb_uploads) !! i = None) | None => true end
  && match op with
     | ODeposit _ _ events _ => zlen (body_bytes events) <=? I64_MAX
     | OOpen _ rq _ => match rq.(rq_upload_length) with Some n => 0 <=? n | None => true end
     | _ => true
     end.

Lemma op_okb_ok op m : op_okb op m = true → op_ok op m.
Proof.
  unfold op_okb. intros [[H1 H2]%andb_true_iff H3]%andb_true_iff. split_and!.
  - intros c Hc. rewrite Hc in H1. by apply bool_decide_eq_true in H1.
  - intros i Hi. rewrite Hi in H2. by apply bool_decide_eq_true in H2.
  - destruct op; try done; [by zbool|]. intros n Hn. rewrite Hn in H3. by zbool.
Qed.

(** ** The invariant: rows name files *)

Definition entry_backed (m : Mailbox) (c : Token) (e : Entry) : Prop :=
  entry_wf e ∧ ∃ f, m.(mb_files) !! blob_path c = Some f ∧ e.(en_size) = Some (zlen f.(f_bytes)) ∧
    zlen f.(f_bytes) <= I64_MAX.
Definition upload_backed (m : Mailbox) (id : Token) (u : UploadRow) : Prop :=
  0 <= u.(up_length) <= I64_MAX ∧
  ∃ f, m.(mb_files) !! upload_path id = Some f ∧ zlen f.(f_bytes) <= u.(up_length).

Definition store_inv (m : Mailbox) : Prop :=
  (∀ c e, m.(mb_entries) !! c = Some e → entry_backed m c e) ∧
  (∀ id u, m.(mb_uploads) !! id = Some u → upload_open u = true → upload_backed m id u).

(** Operations that change no file but of names nothing claims, and only shrink or
    advance the rows. *)
Lemma store_inv_shrink m m' :
  store_inv m →
  (∀ c e', m'.(mb_entries) !! c = Some e' →
     ∃ e, m.(mb_entries) !! c = Some e ∧ (entry_wf e → entry_wf e') ∧ e'.(en_size) = e.(en_size) ∧
       m'.(mb_files) !! blob_path c = m.(mb_files) !! blob_path c) →
  (∀ id u', m'.(mb_uploads) !! id = Some u' → upload_open u' = true →
     ∃ u, m.(mb_uploads) !! id = Some u ∧ upload_open u = true ∧ u'.(up_length) = u.(up_length) ∧
       m'.(mb_files) !! upload_path id = m.(mb_files) !! upload_path id) →
  store_inv m'.
Proof.
  intros [He Hu] Hse Hsu. split.
  - intros c e' Hc. destruct (Hse c e' Hc) as (e & Hce & Hwf & Hsz & Hf).
    destruct (He c e Hce) as (Hw & f & Hff & Hs & Hl). split; [auto|]. exists f. split_and!; congruence.
  - intros id u' Hi Ho. destruct (Hsu id u' Hi Ho) as (u & Hiu & Hou & Hlen & Hf).
    destruct (Hu id u Hiu Hou) as (Hb & f & Hff & Hl). unfold upload_backed. rewrite Hlen.
    split; [done|]. exists f. split; congruence.
Qed.

Lemma store_inv_delete_entry c m : store_inv m → store_inv (delete_entry c m).
Proof.
  intros Hinv. apply (store_inv_shrink m); [done| |].
  - intros d e. cbn. rewrite !lookup_delete_at. case_decide as Hd; [done|]. intros He.
    exists e. split_and!; try done. case_decide as Hp; [by apply blob_path_inj in Hp|done].
  - intros id u Hi Ho. exists u. split_and!; try done. cbn. rewrite lookup_delete_at.
    case_decide as Hp; [by apply eq_sym, blob_upload_disjoint in Hp|done].
Qed.

Lemma store_inv_unlist c m :
  store_inv m → store_inv (with_entries (delete c m.(mb_entries)) m).
Proof.
  intros Hinv. apply (store_inv_shrink m); [done| |].
  - intros d e. cbn. rewrite lookup_delete_at. case_decide; [done|]. eauto.
  - cbn. eauto 10.
Qed.

Lemma store_inv_set_downloads c e m :
  store_inv m → m.(mb_entries) !! c = Some e → e.(en_downloads) + 1 < e.(en_max_downloads) →
  store_inv (set_downloads c (e.(en_downloads) + 1) m).
Proof.
  intros Hinv He Hlt. apply (store_inv_shrink m); [done| |].
  - intros d e'. cbn. rewrite lookup_alter_dec. case_decide as Hd; [subst|eauto].
    rewrite He. intros [= <-]. exists e. split_and!; try done. unfold entry_wf. cbn. lia.
  - cbn. eauto 10.
Qed.

(** Removing the file of a claim no row holds, and writing one. *)
Lemma store_inv_free_file c m :
  store_inv m → m.(mb_entries) !! c = None →
  store_inv (with_files (delete (blob_path c) m.(mb_files)) m).
Proof.
  intros Hinv Hn. apply (store_inv_shrink m); [done| |].
  - intros d e He. exists e. split_and!; try done. cbn. rewrite lookup_delete_at.
    case_decide as Hp; [apply blob_path_inj in Hp; cbn in *; congruence|done].
  - intros id u Hi Ho. exists u. split_and!; try done. cbn. rewrite lookup_delete_at.
    case_decide as Hp; [by apply eq_sym, blob_upload_disjoint in Hp|done].
Qed.

Lemma store_inv_new_file c f m :
  store_inv m → m.(mb_entries) !! c = None →
  store_inv (with_files (<[blob_path c := f]> m.(mb_files)) m).
Proof.
  intros Hinv Hn. apply (store_inv_shrink m); [done| |].
  - intros d e He. exists e. split_and!; try done. cbn. rewrite lookup_insert_dec.
    case_decide as Hp; [apply blob_path_inj in Hp; cbn in *; congruence|done].
  - intros id u Hi Ho. exists u. split_and!; try done. cbn. rewrite lookup_insert_dec.
    case_decide as Hp; [by apply eq_sym, blob_upload_disjoint in Hp|done].
Qed.

Lemma fetch_handler_inv hold c now m : store_inv m → store_inv (fetch_handler hold c now m).2.
Proof.
  intros Hinv. unfold fetch_handler.
  destruct (if hold then _ else _) as [[plan|e] m1] eqn:E; cbn; destruct hold.
  - destruct (fetch_plan_held_cases _ _ _ _ _ E) as [[-> [?|(e & _ & _ & [= ->])]]|[_ [? ?]]]; try done.
    unfold serve_plan. by destruct (mb_files m !! _).
  - apply fetch_plan_ok in E as (e & He & _ & Hd & -> & ->). cbn.
    unfold serve_plan. cbn. destruct (_ <=? _ + 1) eqn:Eb; zbool.
    + cbn. destruct (mb_files m !! blob_path c); [|by apply store_inv_unlist].
      apply (store_inv_free_file c (with_entries (delete c m.(mb_entries)) m));
        [by apply store_inv_unlist|apply lookup_delete_eq].
    + assert (store_inv (set_downloads c (en_downloads e + 1) m)) by by apply store_inv_set_downloads.
      by destruct (mb_files _ !! blob_path c).
  - destruct (fetch_plan_held_cases _ _ _ _ _ E) as [[-> _]|[-> _]]; [done|by apply store_inv_delete_entry].
  - destruct (fetch_plan_err _ _ _ _ _ E) as [->| ->]; [done|by apply store_inv_delete_entry].
Qed.

Lemma ack_fetch_inv c now m : store_inv m → store_inv (ack_fetch c now m).2.
Proof.
  intros Hinv. destruct (ack_fetch c now m) as [r m'] eqn:E.
  destruct (ack_fetch_cases _ _ _ _ _ E) as [[_ ->]|(_ & e & He & [->|[Hlt ->]])]; cbn.
  - done.
  - by apply store_inv_delete_entry.
  - by apply store_inv_set_downloads.
Qed.

Lemma revoke_inv c token m : store_inv m → store_inv (revoke c token m).2.
Proof.
  intros Hinv. unfold revoke. destruct (mb_entries m !! c) as [e|]; [|done].
  destruct (en_revoke_hash e); [|done]. case_bool; [done|]. by apply store_inv_delete_entry.
Qed.

Lemma reap_inv now m : store_inv m → store_inv (reap now m).2.
Proof.
  unfold reap. cbn. generalize (map_to_list (filter (fun p : Token * Entry =>
    p.2.(en_expires_at) <= as_i64 now) m.(mb_entries))).*1.
  intros l. revert m. induction l as [|c l IH]; intros m Hinv; cbn; [done|].
  by apply IH, store_inv_delete_entry.
Qed.

Lemma drop_upload_inv id u m : store_inv m → store_inv (drop_upload id u m).
Proof.
  intros Hinv. destruct (drop_upload_frame id u m) as (E1 & _ & E3).
  apply (store_inv_shrink m); [done| |].
  - intros c e. rewrite E1. intros He. exists e. split_and!; try done.
    apply E3, blob_upload_disjoint.
  - intros i v Hi Ho. destruct (decide (i = id)) as [->|Hne].
    + exfalso. revert Hi. unfold drop_upload. case_bool; cbn; by rewrite lookup_delete_eq.
    + destruct (drop_upload_other id u m i Hne) as [H1 H2]. rewrite H1 in Hi. eauto 10.
Qed.

Lemma upload_reap_inv now m : store_inv m → store_inv (upload_reap now m).2.
Proof.
  unfold upload_reap. cbn. generalize (map_to_list (filter (fun p : Token * UploadRow =>
    p.2.(up_idle_expires) <= as_i64 now) m.(mb_uploads))).
  intros l. revert m. induction l as [|[id u] l IH]; intros m Hinv; cbn; [done|].
  apply IH. case_bool; [done|]. by apply drop_upload_inv.
Qed.

(** Read in one moment, the row sets account for every file a row names. *)
Lemma sweep_inv now grace m : store_inv m → store_inv (sweep_orphan_blobs now grace m).2.
Proof.
  intros Hinv. unfold sweep_orphan_blobs.
  destruct (sweep_walk_tables (claims m) (open_upload_ids m) now grace m) as (E1 & E2 & _).
  destruct Hinv as [He Hu]. split.
  - intros c e. rewrite E1. intros Hc. destruct (He c e Hc) as (Hw & f & Hf & Hs & Hl).
    split; [done|]. exists f. split; [|done]. apply sweep_walk_files; [done|]. left.
    rewrite keep_blob_bin. apply bool_decide_eq_true, elem_of_dom. eauto.
  - intros id u. rewrite E2. intros Hi Ho. destruct (Hu id u Hi Ho) as (Hb & f & Hf & Hl).
    split; [done|]. exists f. split; [|done]. apply sweep_walk_files; [done|]. left.
    rewrite keep_blob_part. apply bool_decide_eq_true, elem_of_open_upload_ids. eauto.
Qed.

(** ** Writers *)

Lemma store_inv_new_entry c e f m :
  store_inv m → m.(mb_entries) !! c = None → m.(mb_files) !! blob_path c = Some f →
  entry_wf e → e.(en_size) = Some (zlen f.(f_bytes)) → zlen f.(f_bytes) <= I64_MAX →
  store_inv (with_entries (<[c := e]> m.(mb_entries)) m).
Proof.
  intros [He Hu] Hn Hf Hw Hs Hl. split; [|exact Hu].
  intros d e'. cbn. rewrite lookup_insert_dec. case_decide as Hd; [|by apply He].
  intros [= <-]. subst. split; [done|]. exists f. done.
Qed.

Lemma new_entry_wf e mx :
  e.(en_downloads) = 0 → e.(en_max_downloads) = clamp 1 MAX_DOWNLOADS_CAP mx → entry_wf e.
Proof.
  intros Hd Hm. pose proof (clamp_bounds 1 MAX_DOWNLOADS_CAP mx ltac:(unfold MAX_DOWNLOADS_CAP; lia)).
  unfold entry_wf. lia.
Qed.

Lemma deposit_loop_spec per_blob remaining events disk written disk' written' :
  deposit_loop per_blob remaining events disk written = Ok (disk', written') →
  written = zlen disk → zlen disk + zlen (body_bytes events) <= I64_MAX →
  disk' = disk ++ body_bytes events ∧ written' = zlen disk' ∧
  (per_blob = 0 ∨ zlen disk <= per_blob → per_blob = 0 ∨ written' <= per_blob) ∧
  (zlen disk <= remaining → written' <= remaining).
Proof.
  revert disk written. induction events as [|ev events IH]; intros disk written Hloop -> Hsz.
  { injection Hloop as <- <-. cbn. rewrite app_nil_r. done. }
  rewrite body_bytes_cons in *. cbn [deposit_loop] in Hloop.
  destruct ev as [b|b n|]; [| |done].
  2: { revert Hloop. by repeat case_bool. }
  cbn [event_bytes] in *. rewrite length_app in Hsz.
  rewrite sat_add_small in Hloop by (unfold I64_MAX, U64_MAX in *; lia).
  destruct (negb (per_blob =? 0) && (per_blob <? zlen disk + zlen b)) eqn:E1; [done|].
  destruct (remaining <? zlen disk + zlen b) eqn:E2; [done|].
  assert (zlen (disk ++ b) = zlen disk + zlen b) as Hl by (rewrite length_app; lia).
  destruct (IH (disk ++ b) _ Hloop (eq_sym Hl) ltac:(lia)) as (-> & -> & H3 & H4).
  rewrite Hl in H3, H4. split; [by rewrite <- app_assoc|]. split; [done|]. split.
  - intros _. apply H3. apply andb_false_iff in E1 as [E1|E1]; zbool; [by left|right; lia].
  - intros _. apply H4. zbool. lia.
Qed.

Lemma deposit_loop_err per_blob remaining events disk written r :
  deposit_loop per_blob remaining events disk written = Err r → r.(status) ≠ OK.
Proof.
  revert disk written. induction events as [|[b|b n|] events IH]; intros disk written; cbn; [done| | |].
  - repeat case_bool; [by intros [= <-]..|apply IH].
  - repeat case_bool; by intros [= <-].
  - by intros [= <-].
Qed.

(** A streaming deposit that is answered with a claim. *)
Lemma deposit_handler_cases claim rq events t_end m r m' :
  deposit_handler app claim rq events t_end m = (r, m') →
  m.(mb_entries) !! claim = None → zlen (body_bytes events) <= I64_MAX →
  (m' = m ∧ r.(status) ≠ OK) ∨
  (m' = with_files (delete (blob_path claim) m.(mb_files)) m ∧ r.(status) ≠ OK) ∨
  (let lim := app.(app_limits) in
   let size := zlen (body_bytes events) in
   (lim.(max_blob_bytes) = 0 ∨ 0 <= lim.(max_blob_bytes) → lim.(max_blob_bytes) = 0 ∨ size <= lim.(max_blob_bytes)) ∧
   (lim.(max_total_blob_bytes) = 0 ∨ disk_bytes m + size <= lim.(max_total_blob_bytes)) ∧
   at_capacity lim m = false ∧
   ∃ e key, rq.(rq_encapped_key) = Some key ∧
     r = mkResponse OK None None (Some (Z.min rq.(rq_ttl) lim.(max_ttl_secs))) None claim ∧
     m' = with_entries (<[claim := e]> m.(mb_entries))
            (with_files (<[blob_path claim := mkFile (body_bytes events) t_end]> m.(mb_files)) m) ∧
     e.(en_encapped_key) = key ∧
     e.(en_expires_at) = as_i64 (sat_add t_end (Z.min rq.(rq_ttl) lim.(max_ttl_secs))) ∧
     e.(en_downloads) = 0 ∧ e.(en_max_downloads) = clamp 1 MAX_DOWNLOADS_CAP rq.(rq_max) ∧
     e.(en_size) = Some size ∧
     e.(en_revoke_hash) = match default [] rq.(rq_revoke_hash) with [] => None | h => Some h end).
Proof.
  intros Hd Hn Hsz. unfold deposit_handler in Hd.
  destruct (rq_encapped_key rq) as [key|]; [|injection Hd as <- <-; by left].
  case_bool; [injection Hd as <- <-; by left|].
  destruct (at_capacity _ m) eqn:Ecap; [injection Hd as <- <-; by left|].
  destruct (negb _ && _) eqn:Etot in Hd; [injection Hd as <- <-; by left|].
  destruct (deposit_loop _ _ _ _ _) as [[disk written]|resp] eqn:El.
  2: { injection Hd as <- <-. right; left. split; [done|]. by apply (deposit_loop_err _ _ _ _ _ _ El). }
  apply deposit_loop_spec in El as (-> & -> & Hblob & Htot); [|done|cbn; lia]. change ([] ++ body_bytes events) with (body_bytes events) in *.
  unfold commit_deposit in Hd. cbn [mb_entries with_files] in Hd. rewrite Hn in Hd.
  injection Hd as <- <-. right; right. cbn zeta.
  split; [intros Hb; apply Hblob; destruct Hb; [by left|right; cbn; lia]|].
  split.
  { apply andb_false_iff in Etot as [Et|Et]; zbool; [by left|].
    destruct (decide (max_total_blob_bytes (app_limits app) = 0)) as [|Hne]; [by left|right].
    rewrite (proj2 (Z.eqb_neq _ _) Hne) in Htot. cbn in Htot. lia. }
  split; [done|].
  eexists _, key. split; [done|]. split; [done|]. split; [done|]. cbn.
  rewrite (as_i64_small (zlen _)) by done. split_and!; try done.
  by destruct (default [] (rq_revoke_hash rq)).
Qed.

Lemma deposit_handler_inv claim rq events t_end m :
  store_inv m → op_ok (ODeposit claim rq events t_end) m →
  store_inv (deposit_handler app claim rq events t_end m).2.
Proof.
  intros Hinv (Hn & _ & Hsz). specialize (Hn claim eq_refl).
  destruct (deposit_handler app claim rq events t_end m) as [r m'] eqn:E.
  destruct (deposit_handler_cases _ _ _ _ _ _ _ E Hn Hsz) as [[-> _]|[[-> _]|(_ & _ & _ & Hok)]]; cbn.
  - done.
  - by apply store_inv_free_file.
  - destruct Hok as (e & key & _ & _ & -> & _ & _ & Hd & Hmx & Hs & _).
    eapply (store_inv_new_entry claim e (mkFile (body_bytes events) t_end)
      (with_files (<[blob_path claim := mkFile (body_bytes events) t_end]> m.(mb_files)) m)); try done.
    + by apply store_inv_new_file.
    + cbn. apply lookup_insert_eq.
    + by eapply new_entry_wf.
Qed.

Lemma open_handler_inv id rq now m :
  store_inv m → op_ok (OOpen id rq now) m → store_inv (open_handler app id rq now m).2.
Proof.
  intros Hinv (_ & Hn & Hlen). specialize (Hn id eq_refl). unfold open_handler.
  case_bool; [done|]. destruct (rq_encapped_key rq) as [key|]; [|done]. case_bool; [done|].
  destruct (rq_upload_length rq) as [n|]; [|done]. specialize (Hlen n eq_refl).
  do 3 (case_bool; [done|]).
  destruct (open_upload _ _ _ _ m) as [r m'] eqn:Ho.
  assert (store_inv m'); [|by destruct r]. unfold open_upload in Ho.
  case_bool; [by injection Ho as <- <-|].
  cbn [mb_uploads with_files] in Ho. rewrite Hn in Ho. injection Ho as <- <-.
  destruct Hinv as [He Hu]. split.
  - intros c e Hc. destruct (He c e Hc) as (Hw & f & Hf & Hrest). split; [done|].
    exists f. split; [|done]. cbn. rewrite lookup_insert_dec.
    case_decide as Hp; [by apply blob_upload_disjoint in Hp|done].
  - intros i u. cbn. rewrite lookup_insert_dec. case_decide as Hi.
    + intros [= <-] _. subst. split; [cbn; unfold I64_MAX; lia|].
      exists (mkFile [] now). cbn. rewrite lookup_insert_eq. split; [done|]. cbn. unfold I64_MAX. lia.
    + intros Hiu Ho. destruct (Hu i u Hiu Ho) as (Hb & f & Hf & Hl). split; [done|].
      exists f. split; [|done]. cbn. rewrite lookup_insert_dec.
      case_decide as Hp; [by apply upload_path_inj in Hp|done].
Qed.

(** An append rewrites at most one partial file and one deadline. *)
Lemma append_handler_effect id offset events cancelled now t_end m r m' :
  append_handler app id offset events cancelled now t_end m = (r, m') →
  m'.(mb_entries) = m.(mb_entries) ∧
  (m'.(mb_files) = m.(mb_files) ∧ m'.(mb_uploads) = m.(mb_uploads) ∨
   ∃ u f b, m.(mb_uploads) !! id = Some u ∧ upload_open u = true ∧
     m.(mb_files) !! upload_path id = Some f ∧
     (zlen f.(f_bytes) <= u.(up_length) → 0 <= u.(up_length) < U64_MAX → zlen b <= u.(up_length)) ∧
     m'.(mb_files) = <[upload_path id := mkFile b t_end]> m.(mb_files) ∧
     (m'.(mb_uploads) = m.(mb_uploads) ∨ m'.(mb_uploads) = (touch_upload id t_end m).(mb_uploads))).
Proof.
  unfold append_handler, begin_append.
  case_bool; [intros [= <- <-]; auto|]. destruct offset as [o|]; [|intros [= <- <-]; auto].
  case_bool; [intros [= <- <-]; auto|].
  destruct (upload_info id now _) as [info|e] eqn:Ei; [|destruct e; intros [= <- <-]; auto].
  case_bool; [intros [= <- <-]; auto|].
  destruct (negb (o =? _)) eqn:Eo; [intros [= <- <-]; auto|]. zbool. subst o. cbn [mb_files with_busy].
  destruct (mb_files m !! upload_path id) as [f|] eqn:Ef; [|intros [= <- <-]; auto].
  destruct (append_loop _ _ _ _) as [[disk end_] outcome] eqn:El.
  assert (∃ u, m.(mb_uploads) !! id = Some u ∧ upload_open u = true ∧
    ui_length info = Z.max 0 u.(up_length) ∧
    ui_received info = Z.min (zlen f.(f_bytes)) (Z.max 0 u.(up_length))) as (u & Hu & Ho & Hlen & Hrec).
  { unfold upload_info in Ei. cbn in Ei. destruct (mb_uploads m !! id) as [u|]; [|done]. exists u.
    unfold upload_open. destruct (up_claim u) as [c|]; [injection Ei as <-; by rewrite bool_decide_true in * by eauto|].
    case_bool; [done|]. rewrite Ef in Ei. injection Ei as <-. by split_and!. }
  set (b := if cancelled then disk else if bool_decide (is_Some outcome) then set_len end_ disk else disk).
  assert (zlen f.(f_bytes) <= u.(up_length) → 0 <= u.(up_length) < U64_MAX → zlen b <= u.(up_length)) as Hb.
  { intros H1 H2. rewrite Hlen, Hrec in El. rewrite Z.max_r, Z.min_l in El by lia.
    destruct (append_loop_spec _ _ _ _ _ _ _ El ltac:(lia) ltac:(lia))
      as (pre & torn & -> & _ & -> & Hl & _). unfold b.
    rewrite set_len_torn, !length_app in *. repeat case_bool; rewrite ?length_app; lia. }
  intros Hr. assert (m'.(mb_entries) = m.(mb_entries) ∧
    m'.(mb_files) = <[upload_path id := mkFile b t_end]> m.(mb_files) ∧
    (m'.(mb_uploads) = m.(mb_uploads) ∨ m'.(mb_uploads) = (touch_upload id t_end m).(mb_uploads)))
    as (-> & -> & Hups).
  { unfold b. destruct cancelled; injection Hr as <- <-; auto. }
  split; [done|]. right. exists u, f, b. done.
Qed.

Lemma touch_lookup id t m i :
  (touch_upload id t m).(mb_uploads) !! i =
    if decide (i = id)
    then (fun u => if upload_open u
                   then mkUploadRow u.(up_encapped_key) u.(up_revoke_hash) u.(up_ttl)
                          u.(up_max_downloads) u.(up_length)
                          (as_i64 (sat_add t UPLOAD_IDLE_SECS)) u.(up_claim) u.(up_granted)
                   else u) <$> m.(mb_uploads) !! i
    else m.(mb_uploads) !! i.
Proof. unfold touch_upload. cbn. apply lookup_alter_dec. Qed.

Lemma append_handler_inv id offset events cancelled now t_end m :
  store_inv m → store_inv (append_handler app id offset events cancelled now t_end m).2.
Proof.
  intros [He Hu]. destruct (append_handler _ _ _ _ _ _ _ _) as [r m'] eqn:E.
  apply append_handler_effect in E as (Ee & [[Ef Eu]|(u & f & b & Hiu & Ho & Hf & Hb & Ef & Eu)]); cbn.
  { split; unfold entry_backed, upload_backed; rewrite ?Ee, ?Ef, ?Eu; assumption. }
  destruct (Hu id u Hiu Ho) as (Hr & f' & Hf' & Hl). rewrite Hf in Hf'. injection Hf' as <-. split.
  - intros c e. rewrite Ee. intros Hc. destruct (He c e Hc) as (Hw & g & Hg & Hrest). split; [done|].
    exists g. split; [|done]. rewrite Ef, lookup_insert_dec.
    case_decide as Hp; [by apply blob_upload_disjoint in Hp|done].
  - intros i v Hi Hov.
    assert (∃ v', m.(mb_uploads) !! i = Some v' ∧ upload_open v' = true ∧ up_length v' = up_length v)
      as (v' & Hi' & Ho' & Hlen).
    { destruct Eu as [Eu|Eu]; rewrite Eu in Hi; [eauto|].
      rewrite touch_lookup in Hi. case_decide; [|eauto].
      destruct (mb_uploads m !! i) as [w|]; [|done]. injection Hi as <-. exists w.
      destruct (upload_open w) eqn:Ew; [done|congruence]. }
    destruct (Hu i v' Hi' Ho') as (Hr' & g & Hg & Hgl). rewrite Hlen in Hr', Hgl.
    split; [done|]. rewrite Ef, lookup_insert_dec. case_decide as Hp; [|eauto].
    apply upload_path_inj in Hp as ->. exists (mkFile b t_end). split; [done|]. cbn.
    assert (u = v') as -> by congruence. rewrite Hlen in Hb, Hl. apply Hb; [done|].
    unfold I64_MAX, U64_MAX in *. lia.
Qed.

Lemma with_busy_inv b m : store_inv m → store_inv (with_busy b m).
Proof. done. Qed.

Lemma commit_upload_inv lim id claim now m :
  store_inv m → m.(mb_entries) !! claim = None → store_inv (commit_upload lim id claim now m).2.
Proof.
  intros Hinv Hn. unfold commit_upload.
  destruct (upload_info id now m) as [info|e] eqn:Ei; [|done].
  destruct (ui_committed info) eqn:Ecom; [done|].
  case_bool; [done|]. zbool. unfold upload_info in Ei.
  destruct (mb_uploads m !! id) as [u|] eqn:Eu; [|done].
  assert (upload_open u = true) as Ho.
  { unfold upload_open. destruct (up_claim u); [by injection Ei as <-|].
    by rewrite bool_decide_false by (by intros []). }
  destruct Hinv as [He Hu]. destruct (Hu id u Eu Ho) as (Hr & f & Hf & Hl).
  unfold rename. rewrite Hf.
  assert (info = mkUploadInfo (Z.max 0 (up_length u))
    (Z.min (zlen (f_bytes f)) (Z.max 0 (up_length u))) None) as ->.
  { destruct (up_claim u); [injection Ei as <-; done|]. case_bool; [done|].
    rewrite Hf in Ei. by injection Ei as <-. }
  cbn in *. unfold commit_deposit. cbn [mb_entries with_files]. rewrite Hn. cbn.
  split; cbn.
  - intros c e. rewrite lookup_insert_dec. unfold entry_backed. cbn. rewrite lookup_insert_dec.
    case_decide as Hc.
    + intros [= <-]. subst. rewrite decide_True by done. split; [by eapply new_entry_wf|].
      exists f. split; [done|]. rewrite Z.max_r in * by lia. cbn. rewrite as_i64_small by lia.
      split; [f_equal; lia|lia].
    + intros Hce. destruct (He c e Hce) as (Hw & g & Hg & Hrest). split; [done|].
      rewrite decide_False by (intros ?%blob_path_inj; congruence).
      rewrite lookup_delete_at. rewrite decide_False by (apply blob_upload_disjoint). eauto.
  - intros i v. rewrite lookup_alter_dec. case_decide as Hi.
    + rewrite Hi, Eu. cbn. intros [= <-]. done.
    + intros Hiv Hov. destruct (Hu i v Hiv Hov) as (Hb & g & Hg & Hgl). split; [done|]. exists g.
      split; [|done]. cbn. rewrite lookup_insert_dec.
      rewrite decide_False by (intros Hp; by apply eq_sym, blob_upload_disjoint in Hp).
      rewrite lookup_delete_at. by rewrite decide_False by (intros Hp; by apply upload_path_inj in Hp).
Qed.

Lemma step_inv op m : store_inv m → op_ok op m → store_inv (step op m).
Proof.
  intros Hinv Hop. destruct op; cbn [step] in *.
  - by apply deposit_handler_inv.
  - apply store_inv_new_file; [done|]. by apply Hop.
  - by apply fetch_handler_inv.
  - by apply ack_fetch_inv.
  - by apply revoke_inv.
  - by apply open_handler_inv.
  - by apply append_handler_inv.
  - unfold commit_handler, begin_append. case_bool; [done|]. case_bool; [done|].
    pose proof (commit_upload_inv (app_limits app) id claim now (with_busy ({[id]} ∪ mb_uploads_busy m) m)
      Hinv (proj1 Hop claim eq_refl)) as Hc.
    by destruct (commit_upload _ _ _ _ _).
  - unfold abort_handler, begin_append. case_bool; [done|]. case_bool; [done|].
    unfold abort_upload. cbn. destruct (mb_uploads m !! id) as [u|]; [|done]. cbn.
    apply (drop_upload_inv id u (with_busy ({[id]} ∪ mb_uploads_busy m) m) Hinv).
  - by apply reap_inv.
  - by apply upload_reap_inv.
  - by apply sweep_inv.
Qed.

End steps.
