(* ===== verification/RelayRuns.v ===== *)
(** * What a run of the relay can do to one deposit

    Download accounting, expiry, revocation and durability of one entry over any run
    of requests and background passes; the fate of one upload, from its opening to
    its commit; the race between a commit and the sweep. *)
From S2P Require Import Prelude.
From S2P Require Import Limits.
From S2P Require Import Store.
From S2P Require Import Mailbox.
From S2P Require Import UploadHttp.
From S2P Require Import MailboxFacts.
From S2P Require Import Relay.
Local Open Scope Z_scope.

Section runs.
Context `{!Blake3Hash} (app : App).

(** ** One entry under one step *)

(** The step spends a download of [c]: a fetch that serves it, or the
    acknowledgement of a held one. *)
Definition spends (c : Token) (op : Op) (m : Mailbox) : bool :=
  match op with
  | OFetch false d now => bool_decide (d = c) && is_ok (fetch_handler false d now m).1
  | OAck d now => bool_decide (d = c) && is_ok (ack_fetch d now m).1
  | _ => false
  end.

Fixpoint count_spends (c : Token) (ops : list Op) (m : Mailbox) : Z :=
  match ops with
  | [] => 0
  | op :: ops => Z.b2z (spends c op m) + count_spends c ops (step app op m)
  end.

Definition remaining (c : Token) (m : Mailbox) : Z :=
  match m.(mb_entries) !! c with Some e => e.(en_max_downloads) - e.(en_downloads) | None => 0 end.

(** The steps that are requests about [c]. *)
Definition about (c : Token) (op : Op) : bool :=
  match op with
  | OFetch _ d _ | OAck d _ | ORevoke d _ => bool_decide (d = c)
  | _ => false
  end.

Lemma delete_entry_other c d m :
  c ≠ d → (delete_entry d m).(mb_entries) !! c = m.(mb_entries) !! c ∧
          (delete_entry d m).(mb_files) !! blob_path c = m.(mb_files) !! blob_path c.
Proof.
  intros Hne. cbn. rewrite !lookup_delete_at. rewrite decide_False by done.
  by rewrite decide_False by (intros ?%blob_path_inj; congruence).
Qed.

Lemma fetch_handler_other hold c d now m :
  c ≠ d → (fetch_handler hold d now m).2.(mb_entries) !! c = m.(mb_entries) !! c ∧
          (fetch_handler hold d now m).2.(mb_files) !! blob_path c = m.(mb_files) !! blob_path c.
Proof.
  intros Hne. unfold fetch_handler.
  assert (∀ plan m1 , fp_blob_path plan = blob_path d →
    (serve_plan plan m1).2.(mb_entries) !! c = m1.(mb_entries) !! c ∧
    (serve_plan plan m1).2.(mb_files) !! blob_path c = m1.(mb_files) !! blob_path c) as Hs.
  { intros plan m1 Hp. unfold serve_plan. destruct (mb_files m1 !! _); [case_bool|]; cbn; try done.
    rewrite Hp, lookup_delete_at. by rewrite decide_False by (intros ?%blob_path_inj; congruence). }
  destruct (if hold then _ else _) as [[plan|e] m1] eqn:E; cbn; destruct hold.
  - destruct (fetch_plan_held_cases _ _ _ _ _ E) as [[-> [?|(e & _ & _ & [= ->])]]|[_ [? ?]]]; try done.
    by apply Hs.
  - apply fetch_plan_ok in E as (e & He & _ & Hd & -> & ->).
    match goal with |- context [serve_plan ?p ?x] => destruct (Hs p x eq_refl) as [-> ->] end.
    cbn. case_bool; cbn; [by rewrite lookup_delete_ne|by rewrite lookup_alter_ne].
  - destruct (fetch_plan_held_cases _ _ _ _ _ E) as [[-> _]|[-> _]]; [done|by apply delete_entry_other].
  - destruct (fetch_plan_err _ _ _ _ _ E) as [->| ->]; [done|by apply delete_entry_other].
Qed.

Lemma revoke_entry c token m c' :
  (revoke c token m).2 = m ∨ (revoke c token m).2 = delete_entry c m ∧ (c' = c → True).
Proof.
  unfold revoke. destruct (mb_entries m !! c) as [e|]; [|by left].
  destruct (en_revoke_hash e); [|by left]. case_bool; [by left|by right].
Qed.

Lemma reap_keeps now m c e :
  m.(mb_entries) !! c = Some e → as_i64 now < e.(en_expires_at) →
  (reap now m).2.(mb_entries) !! c = Some e ∧
  (reap now m).2.(mb_files) !! blob_path c = m.(mb_files) !! blob_path c.
Proof.
  intros He Hn. split.
  - rewrite reap_spec, He. by rewrite (proj2 (Z.leb_gt _ _)) by lia.
  - apply reap_files. intros d e' Hd Hx Hp. apply blob_path_inj in Hp as ->. simplify_eq. lia.
Qed.

Lemma upload_reap_frame now m :
  (upload_reap now m).2.(mb_entries) = m.(mb_entries) ∧
  ∀ c, (upload_reap now m).2.(mb_files) !! blob_path c = m.(mb_files) !! blob_path c.
Proof.
  destruct (foldl_reap_one (map_to_list (filter (fun p => p.2.(up_idle_expires) <= as_i64 now)
    m.(mb_uploads))) m) as (H1 & _ & _ & H4).
  split; [exact H1|]. intros c. apply H4. intros i. apply blob_upload_disjoint.
Qed.

Lemma commit_handler_frame id d now m c :
  c ≠ d → store_inv m → m.(mb_entries) !! d = None →
  (commit_handler app id d now m).2.(mb_entries) !! c = m.(mb_entries) !! c ∧
  (commit_handler app id d now m).2.(mb_files) !! blob_path c = m.(mb_files) !! blob_path c.
Proof.
  intros Hne Hinv Hn. unfold commit_handler, begin_append. case_bool; [done|]. case_bool; [done|].
  set (m1 := with_busy _ m).
  assert ((commit_upload (app_limits app) id d now m1).2.(mb_entries) !! c = m1.(mb_entries) !! c ∧
    (commit_upload (app_limits app) id d now m1).2.(mb_files) !! blob_path c = m1.(mb_files) !! blob_path c)
    as Hc; [|by destruct (commit_upload _ _ _ _ _)].
  unfold commit_upload. destruct (upload_info id now m1) as [info|]; [|done].
  destruct (ui_committed info); [done|]. case_bool; [done|].
  destruct (mb_uploads m1 !! id) as [u|]; [|done]. unfold rename.
  destruct (mb_files m1 !! upload_path id) as [f|] eqn:Ef; [|done].
  unfold commit_deposit. cbn [mb_entries with_files]. change (mb_entries m1) with (mb_entries m).
  rewrite Hn. cbn. rewrite !lookup_insert_dec, lookup_delete_at, decide_False by done.
  rewrite decide_False by (intros ?%blob_path_inj; congruence).
  by rewrite decide_False by apply blob_upload_disjoint.
Qed.

Lemma abort_handler_frame id m c :
  (abort_handler app id m).2.(mb_entries) !! c = m.(mb_entries) !! c ∧
  (abort_handler app id m).2.(mb_files) !! blob_path c = m.(mb_files) !! blob_path c.
Proof.
  unfold abort_handler, begin_append. case_bool; [done|]. case_bool; [done|].
  unfold abort_upload. cbn. destruct (mb_uploads m !! id) as [u|]; [|done]. cbn.
  destruct (drop_upload_frame id u (with_busy ({[id]} ∪ mb_uploads_busy m) m)) as (E1 & _ & E3).
  split; [exact (f_equal (fun t => t !! c) E1)|]. exact (E3 (blob_path c) (blob_upload_disjoint c id)).
Qed.

Lemma open_handler_frame id rq now m c :
  m.(mb_uploads) !! id = None →
  (open_handler app id rq now m).2.(mb_entries) !! c = m.(mb_entries) !! c ∧
  (open_handler app id rq now m).2.(mb_files) !! blob_path c = m.(mb_files) !! blob_path c.
Proof.
  intros Hn. unfold open_handler.
  case_bool; [done|]. destruct (rq_encapped_key rq) as [key|]; [|done]. case_bool; [done|].
  destruct (rq_upload_length rq) as [n|]; [|done]. do 3 (case_bool; [done|]).
  unfold open_upload. case_bool; [done|]. cbn [mb_uploads with_files]. rewrite Hn. cbn.
  rewrite lookup_insert_dec. by rewrite decide_False by apply blob_upload_disjoint.
Qed.

Lemma append_handler_frame id offset events cancelled now t_end m c :
  let m' := (append_handler app id offset events cancelled now t_end m).2 in
  m'.(mb_entries) !! c = m.(mb_entries) !! c ∧
  m'.(mb_files) !! blob_path c = m.(mb_files) !! blob_path c.
Proof.
  cbn zeta. destruct (append_handler _ _ _ _ _ _ _ _) as [r m'] eqn:E.
  apply append_handler_effect in E as (Ee & [[Ef _]|(u & f & b & _ & _ & _ & _ & Ef & _)]); cbn;
    rewrite Ee, Ef; [done|]. rewrite lookup_insert_dec.
  by rewrite decide_False by apply blob_upload_disjoint.
Qed.

Lemma deposit_handler_frame d rq events t_end m c :
  c ≠ d → m.(mb_entries) !! d = None → zlen (body_bytes events) <= I64_MAX →
  let m' := (deposit_handler app d rq events t_end m).2 in
  m'.(mb_entries) !! c = m.(mb_entries) !! c ∧
  m'.(mb_files) !! blob_path c = m.(mb_files) !! blob_path c.
Proof.
  intros Hne Hn Hsz. cbn zeta. destruct (deposit_handler _ _ _ _ _ _) as [r m'] eqn:E.
  destruct (deposit_handler_cases _ _ _ _ _ _ _ _ E Hn Hsz)
    as [[-> _]|[[-> _]|(_ & _ & _ & e & key & _ & _ & -> & _)]]; cbn; [done| |].
  - rewrite lookup_delete_at. by rewrite decide_False by (intros ?%blob_path_inj; congruence).
  - rewrite !lookup_insert_dec, decide_False by done.
    by rewrite decide_False by (intros ?%blob_path_inj; congruence).
Qed.

(** A step that is not a request about [c] keeps it, and its file, until it expires. *)
Lemma step_keeps op m c e :
  store_inv m → op_ok op m → new_claim op ≠ Some c → about c op = false →
  m.(mb_entries) !! c = Some e →
  (∀ now, op = OReap now → as_i64 now < e.(en_expires_at)) →
  (step app op m).(mb_entries) !! c = Some e ∧
  (step app op m).(mb_files) !! blob_path c = m.(mb_files) !! blob_path c.
Proof.
  intros Hinv (Hn & Hu & Hsz) Hnew Hab He Hreap. rewrite <- He.
  destruct op as [d rq evs t|d p now|hold d now|d now|d tk|id rq now|id o evs cc now t|id d now|id|now|now|now gr];
    cbn [step new_claim new_upload about] in *; try apply bool_decide_eq_false in Hab.
  - apply deposit_handler_frame; auto; congruence.
  - split; [done|]. cbn. rewrite lookup_insert_dec. by rewrite decide_False by (intros ?%blob_path_inj; congruence).
  - by apply fetch_handler_other.
  - destruct (ack_fetch d now m) as [r m'] eqn:E.
    destruct (ack_fetch_cases _ _ _ _ _ E) as [[_ ->]|(_ & x & Hx & [->|[_ ->]])]; cbn; [done| |].
    + by apply delete_entry_other.
    + by rewrite lookup_alter_ne.
  - destruct (revoke_entry d tk m c) as [->|[-> _]]; [done|]. by apply delete_entry_other.
  - apply open_handler_frame; auto.
  - apply append_handler_frame.
  - apply commit_handler_frame; auto; congruence.
  - apply abort_handler_frame.
  - rewrite He. apply reap_keeps; auto.
  - destruct (upload_reap_frame now m) as [-> Hf]. split; [done|apply Hf].
  - destruct Hinv as [Hb _]. destruct (Hb c e He) as (_ & f & Hf & _).
    split; [done|]. rewrite Hf. unfold sweep_orphan_blobs. apply sweep_walk_files; [done|]. left.
    rewrite keep_blob_bin. apply bool_decide_eq_true, elem_of_dom. eauto.
Qed.

Lemma step_gone op m c :
  store_inv m → op_ok op m → new_claim op ≠ Some c → m.(mb_entries) !! c = None →
  (step app op m).(mb_entries) !! c = None ∧ spends c op m = false.
Proof.
  intros Hinv (Hn & Hu & Hsz) Hnew Hc.
  destruct op as [d rq evs t|d p now|hold d now|d now|d tk|id rq now|id o evs cc now t|id d now|id|now|now|now gr];
    cbn [step spends new_claim op_ok] in *.
  - split; [|done]. rewrite <- Hc. apply deposit_handler_frame; auto; congruence.
  - done.
  - destruct (decide (c = d)) as [->|Hne].
    + unfold fetch_handler, fetch_plan_held, fetch_plan, row. rewrite Hc. destruct hold; cbn; [done|].
      by rewrite andb_false_r.
    + split; [rewrite <- Hc; by apply fetch_handler_other|]. destruct hold; [done|].
      by rewrite bool_decide_false by congruence.
  - unfold ack_fetch, row. destruct (decide (c = d)) as [->|Hne].
    + rewrite Hc. cbn. split; [done|]. by rewrite andb_false_r.
    + rewrite bool_decide_false by congruence. split; [|done].
      destruct (mb_entries m !! d) as [x|] eqn:Ex; [|done].
      case_bool; cbn; [by rewrite lookup_delete_ne|by rewrite lookup_alter_ne].
  - split; [|done]. destruct (revoke_entry d tk m c) as [->|[-> _]]; [done|].
    cbn. rewrite lookup_delete_at. by case_decide.
  - split; [|done]. rewrite <- Hc. apply open_handler_frame; auto.
  - split; [|done]. rewrite <- Hc. apply append_handler_frame.
  - split; [|done]. rewrite <- Hc. apply commit_handler_frame; auto; congruence.
  - split; [|done]. rewrite <- Hc. apply abort_handler_frame.
  - split; [|done]. by rewrite reap_spec, Hc.
  - split; [|done]. by destruct (upload_reap_frame now m) as [-> _].
  - done.
Qed.

(** ** Download accounting *)

Lemma fetch_handler_entries hold c t m :
  (fetch_handler hold c t m).2.(mb_entries) =
    (if hold then fetch_plan_held c t m else fetch_plan c t m).2.(mb_entries).
Proof.
  unfold fetch_handler. destruct (if hold then _ else _) as [[plan|x] m1]; [|done].
  destruct (serve_plan plan m1) as [r m'] eqn:E. cbn. by apply serve_plan_tables in E as (-> & _).
Qed.

Lemma fetch_handler_plan c t m :
  Z.b2z (is_ok (fetch_handler false c t m).1) <= Z.b2z (is_ok (fetch_plan c t m).1).
Proof.
  unfold fetch_handler. destruct (fetch_plan c t m) as [[plan|x] m1]; [|done].
  destruct (is_ok (serve_plan plan m1).1); cbn; lia.
Qed.

Lemma step_remaining op m c :
  store_inv m → op_ok op m → new_claim op ≠ Some c →
  Z.b2z (spends c op m) + remaining c (step app op m) <= remaining c m ∧ 0 <= remaining c m.
Proof.
  intros Hinv Hop Hnew. unfold remaining. destruct (mb_entries m !! c) as [e|] eqn:He.
  2: { destruct (step_gone op m c Hinv Hop Hnew He) as [-> ->]. cbn. lia. }
  destruct (proj1 Hinv c e He) as ([Hw _] & _). split; [|lia].
  destruct (about c op) eqn:Hab.
  - destruct op as [| |hold d t|d t|d tk| | | | | | |]; try done; cbn [about step spends] in *;
      apply bool_decide_eq_true in Hab as ->; rewrite ?bool_decide_true by done.
    + rewrite fetch_handler_entries. destruct hold.
      * destruct (fetch_plan_held c t m) as [r m1] eqn:E. cbn [snd].
        destruct (fetch_plan_held_cases _ _ _ _ _ E) as [[-> _]|[-> _]]; [rewrite He; cbn; lia|].
        cbn. rewrite lookup_delete_eq. cbn. lia.
      * pose proof (fetch_handler_plan c t m) as Hp. cbn [andb].
        generalize dependent (Z.b2z (is_ok (fetch_handler false c t m).1)). intros k Hp.
        destruct (fetch_plan c t m) as [[plan|x] m1] eqn:E; cbn [fst snd is_ok] in *.
        -- apply fetch_plan_ok in E as (e' & He' & _ & Hlt & -> & ->). rewrite He in He'.
           injection He' as <-. cbn [fp_burn]. cbn in Hp. case_bool; zbool; cbn.
           ++ rewrite lookup_delete_eq. lia.
           ++ rewrite lookup_alter_eq, He. cbn. lia.
        -- destruct (fetch_plan_err _ _ _ _ _ E) as [-> | ->]; [rewrite He; cbn in *; lia|].
           cbn in *. rewrite lookup_delete_eq. lia.
    + destruct (ack_fetch c t m) as [r m1] eqn:E.
      destruct (ack_fetch_cases _ _ _ _ _ E) as [[-> ->]|(-> & e' & He' & [->|[Hlt ->]])]; cbn.
      * rewrite He. lia.
      * rewrite lookup_delete_eq. lia.
      * rewrite He in He'. injection He' as <-. rewrite lookup_alter_eq, He. cbn. lia.
    + destruct (revoke_entry c tk m c) as [->|[-> _]]; cbn.
      * rewrite He. lia.
      * rewrite lookup_delete_eq. lia.
  - assert (spends c op m = false) as ->.
    { destruct op as [| |hold d t|d t| | | | | | | |]; try done; cbn in *; [destruct hold; [done|]|];
        apply bool_decide_eq_false in Hab; by rewrite bool_decide_false by done. }
    assert ((∃ t, op = OReap t) ∨ (∀ t, op ≠ OReap t)) as [[t ->]|Hno] by (destruct op; eauto).
    + cbn [step]. rewrite reap_spec, He. case_bool; cbn; lia.
    + destruct (step_keeps op m c e Hinv Hop Hnew Hab He) as [-> _]; [|cbn; lia].
      intros t ->. by destruct (Hno t).
Qed.

Lemma count_spends_bound c ops m :
  store_inv m → run_ok app ops m → (∀ op, op ∈ ops → new_claim op ≠ Some c) →
  count_spends c ops m <= remaining c m.
Proof.
  revert m. induction ops as [|op ops IH]; intros m Hinv Hok Hnew; cbn in *.
  - unfold remaining. destruct (mb_entries m !! c) as [e|] eqn:He; [|lia].
    destruct (proj1 Hinv c e He) as ([Hw _] & _). lia.
  - destruct Hok as [Hop Hok].
    destruct (step_remaining op m c Hinv Hop (Hnew op ltac:(set_solver))).
    specialize (IH _ (step_inv app _ _ Hinv Hop) Hok ltac:(set_solver)). lia.
Qed.

(** C30. A deposit is served at most as many times as the sender allowed: however
    fetches, held fetches, acknowledgements and everything else interleave after
    it, the downloads spent on its claim never exceed the granted maximum, which is
    the requested one within [1 .. 10000]. *)
Theorem downloads_bounded claim rq events t_end m r m' ops
    (Hinv : store_inv m) (Hop : op_ok (ODeposit claim rq events t_end) m)
    (Hdep : deposit_handler app claim rq events t_end m = (r, m')) (Hr : r.(status) = OK)
    (Hok : run_ok app ops m') (Hfresh : ∀ op, op ∈ ops → new_claim op ≠ Some claim) :
  count_spends claim ops m' <= clamp 1 MAX_DOWNLOADS_CAP rq.(rq_max).
Proof.
  pose proof (deposit_handler_inv app claim rq events t_end m Hinv Hop) as Hinv'.
  rewrite Hdep in Hinv'. cbn in Hinv'.
  etrans; [by apply count_spends_bound|]. destruct Hop as (Hn & _ & Hsz).
  destruct (deposit_handler_cases _ _ _ _ _ _ _ _ Hdep (Hn claim eq_refl) Hsz)
    as [[-> ?]|[[-> ?]|(_ & _ & _ & e & key & _ & _ & -> & _ & _ & Hd & Hm & _)]]; [done|done|].
  unfold remaining. cbn. rewrite lookup_insert_eq. lia.
Qed.

(** Gone is gone: once a claim has no row — burned, expired, revoked — no run
    that does not deposit under it again serves it, acknowledges it, or brings it
    back. *)
Theorem gone_stays_gone c ops m
    (Hinv : store_inv m) (Hgone : m.(mb_entries) !! c = None)
    (Hok : run_ok app ops m) (Hfresh : ∀ op, op ∈ ops → new_claim op ≠ Some c) :
  let m' := run app ops m in
  count_spends c ops m = 0 ∧ m'.(mb_entries) !! c = None ∧
  ∀ hold now, fetch_handler hold c now m' = (Err NotFound, m').
Proof.
  revert m Hinv Hgone Hok. induction ops as [|op ops IH]; intros m Hinv Hgone Hok; cbn zeta in *.
  - split_and!; [done|done|]. intros hold now.
    unfold fetch_handler, fetch_plan_held, fetch_plan, row. cbn. rewrite Hgone. by destruct hold.
  - destruct Hok as [Hop Hok].
    destruct (step_gone op m c Hinv Hop (Hfresh op ltac:(set_solver)) Hgone) as [Hg Hs].
    destruct (IH ltac:(set_solver) _ (step_inv app _ _ Hinv Hop) Hg Hok) as (H1 & H2 & H3).
    cbn [count_spends run foldl]. rewrite Hs, H1. done.
Qed.

(** Only the holder of the revoke token takes a deposit back: a revocation
    succeeds exactly when the entry records the hash of the presented token; then the
    row and the ciphertext are both gone, and any refusal leaves the store as it was. *)
Theorem revoke_authorised c token m r m' (Hrev : revoke c token m = (r, m')) :
  (r = Ok tt ↔ ∃ e, m.(mb_entries) !! c = Some e ∧
     e.(en_revoke_hash) = Some (blake3_hash (as_bytes token))) ∧
  (r = Err NotFound ↔ m.(mb_entries) !! c = None) ∧
  (r = Ok tt → m'.(mb_entries) !! c = None ∧ m'.(mb_files) !! blob_path c = None) ∧
  (r ≠ Ok tt → m' = m).
Proof.
  unfold revoke in Hrev. destruct (mb_entries m !! c) as [e|].
  2: { injection Hrev as <- <-. split_and!; [|done..]. split; [done|]. by intros (? & ? & _). }
  destruct (en_revoke_hash e) as [stored|] eqn:Es.
  2: { injection Hrev as <- <-. split_and!; [|done..]. split; [done|].
       intros (x & [= <-] & Hx). congruence. }
  assert (negb (length stored =? length (blake3_hash (as_bytes token)))%nat
    || negb (constant_time_eq stored (blake3_hash (as_bytes token)))
    = negb (bool_decide (stored = blake3_hash (as_bytes token)))) as Hb.
  { case_bool_decide as Hd.
    - subst. rewrite Nat.eqb_refl, (proj2 (constant_time_eq_spec _ _) eq_refl). done.
    - apply orb_true_iff. right. apply negb_true_iff, not_true_is_false.
      by intros ?%constant_time_eq_spec. }
  rewrite Hb in Hrev. case_bool_decide as Hd; cbn in Hrev; injection Hrev as <- <-.
  - split_and!; try done.
    + split; [|done]. intros _. exists e. by rewrite Es, Hd.
    + cbn. by rewrite !lookup_delete_eq.
  - split_and!; try done. split; [done|]. intros (x & [= <-] & Hx). congruence.
Qed.

(** ** Expiry and durability *)

(** Nothing is served past its deadline, and nothing but the recorded bytes is
    ever served: a fetch that answers finds the entry unexpired, under its budget,
    and returns its encapsulated key and the contents of its file. *)
Theorem fetch_serves_live hold c now m out m'
    (Hfetch : fetch_handler hold c now m = (Ok out, m')) :
  ∃ e f, m.(mb_entries) !! c = Some e ∧ m.(mb_files) !! blob_path c = Some f ∧
    now < i64_as_u64 e.(en_expires_at) ∧ out = mkClaimed e.(en_encapped_key) f.(f_bytes) ∧
    (hold = true → m' = m).
Proof.
  unfold fetch_handler in Hfetch. destruct hold.
  - destruct (fetch_plan_held c now m) as [[plan|x] m1] eqn:E; [|done].
    destruct (fetch_plan_held_cases _ _ _ _ _ E) as [[-> [?|(e & He & Hx & [= ->])]]|[_ [? ?]]]; try done.
    unfold serve_plan in Hfetch. cbn in Hfetch.
    destruct (mb_files m !! blob_path c) as [f|]; [|done]. injection Hfetch as <- <-.
    exists e, f. done.
  - destruct (fetch_plan c now m) as [[plan|x] m1] eqn:E; [|done].
    apply fetch_plan_ok in E as (e & He & Hx & _ & -> & ->). exists e.
    unfold serve_plan in Hfetch. cbn in Hfetch.
    assert (∀ (b : bool), mb_files (if b then with_entries (delete c (mb_entries m)) m
      else set_downloads c (en_downloads e + 1) m) = mb_files m) as Hf by by intros [].
    rewrite Hf in Hfetch. destruct (mb_files m !! blob_path c) as [f|]; [|done].
    injection Hfetch as <- <-. exists f. done.
Qed.

Lemma run_keeps_entry c e ops m :
  store_inv m → run_ok app ops m → (∀ op, op ∈ ops → new_claim op ≠ Some c ∧ about c op = false) →
  (∀ now, OReap now ∈ ops → as_i64 now < e.(en_expires_at)) →
  m.(mb_entries) !! c = Some e →
  (run app ops m).(mb_entries) !! c = Some e ∧
  (run app ops m).(mb_files) !! blob_path c = m.(mb_files) !! blob_path c.
Proof.
  revert m. induction ops as [|op ops IH]; intros m Hinv Hok Hnew Hreap He; [done|].
  destruct Hok as [Hop Hok]. destruct (Hnew op ltac:(set_solver)) as [Hn Ha].
  destruct (step_keeps op m c e Hinv Hop Hn Ha He) as [He' Hf']; [intros t ->; apply Hreap; set_solver|].
  destruct (IH (step app op m) (step_inv app _ _ Hinv Hop) Hok ltac:(set_solver) ltac:(set_solver) He') as [H1 H2].
  cbn [run foldl]. split; [exact H1|]. etrans; [exact H2|exact Hf'].
Qed.

(** C5. A deposit survives until someone asks for it: after any run of other
    people's requests, reaps before its deadline and orphan sweeps, a fetch within
    the granted TTL returns exactly the encapsulated key and the bytes deposited. *)
Theorem deposit_survives claim rq events t_end m r m' ops now
    (Hinv : store_inv m) (Hop : op_ok (ODeposit claim rq events t_end) m)
    (Hdep : deposit_handler app claim rq events t_end m = (r, m')) (Hr : r.(status) = OK)
    (Hok : run_ok app ops m')
    (Hothers : ∀ op, op ∈ ops → new_claim op ≠ Some claim ∧ about claim op = false)
    (Ht : 0 <= t_end) (Hg : 0 <= default 0 r.(granted_ttl_header))
    (Hroom : t_end + default 0 r.(granted_ttl_header) <= I64_MAX)
    (Hnow : now < t_end + default 0 r.(granted_ttl_header))
    (Hreap : ∀ t, OReap t ∈ ops → 0 <= t < t_end + default 0 r.(granted_ttl_header)) :
  ∃ key, rq.(rq_encapped_key) = Some key ∧ r.(body) = claim ∧
    (fetch claim now (run app ops m')).1 = Ok (mkClaimed key (body_bytes events)).
Proof.
  pose proof (deposit_handler_inv app claim rq events t_end m Hinv Hop) as Hinv'.
  rewrite Hdep in Hinv'. cbn in Hinv'. destruct Hop as (Hn & _ & Hsz).
  destruct (deposit_handler_cases _ _ _ _ _ _ _ _ Hdep (Hn claim eq_refl) Hsz)
    as [[-> ?]|[[-> ?]|(_ & _ & _ & e & key & Hkey & -> & -> & Hk & Hx & Hd & Hm & _)]]; [done|done|].
  exists key. split; [done|]. split; [done|]. cbn in Hg, Hroom, Hnow, Hreap.
  rewrite sat_add_small in Hx by (unfold I64_MAX, U64_MAX in *; lia).
  rewrite as_i64_small in Hx by lia.
  destruct (run_keeps_entry claim e ops _ Hinv' Hok Hothers) as [He Hf].
  - intros t Hin. specialize (Hreap t Hin). rewrite as_i64_small by lia. lia.
  - cbn. apply lookup_insert_eq.
  - cbn in Hf. rewrite lookup_insert_eq in Hf. rewrite <- Hk.
    apply (fetch_serves claim now _ e (mkFile (body_bytes events) t_end)); [done|done| |].
    + rewrite Hx, i64_as_u64_small by lia. lia.
    + pose proof (clamp_bounds 1 MAX_DOWNLOADS_CAP (rq_max rq) ltac:(unfold MAX_DOWNLOADS_CAP; lia)). lia.
Qed.
End runs.
