(* ===== verification/UploadRuns.v ===== *)
(** * One upload over a whole run

    A session opened for a ciphertext and fed by honest appends holds a beginning of
    it through every run that does not end it; its commit is then the deposit of that
    ciphertext. And the one interleaving that can lose it: a sweep that read its
    claims before the commit. *)
From S2P Require Import Prelude.
From S2P Require Import Limits.
From S2P Require Import Store.
From S2P Require Import Mailbox.
From S2P Require Import UploadHttp.
From S2P Require Import MailboxFacts.
From S2P Require Import Relay.
From S2P Require Import RelayRuns.
Local Open Scope Z_scope.

Section uploads.
Context `{!Blake3Hash} (app : App).

(** Nothing in the step ends the session, and an append to it is honest. *)
Definition upload_safe (id : Token) (ct : bytes) (op : Op) (m : Mailbox) : Prop :=
  match op with
  | OAppend d o events _ _ _ => d = id → ∀ x, o = Some x → honest ct x events
  | OCommit d _ _ | OAbort d => d ≠ id
  | OUploadReap now => ∀ u, m.(mb_uploads) !! id = Some u → as_i64 now < u.(up_idle_expires)
  | _ => True
  end.

Fixpoint run_safe (id : Token) (ct : bytes) (ops : list Op) (m : Mailbox) : Prop :=
  match ops with
  | [] => True
  | op :: ops => upload_safe id ct op m ∧ run_safe id ct ops (step app op m)
  end.

(** The row and the partial file of a session, untouched. *)
Definition upload_kept (id : Token) (m m' : Mailbox) : Prop :=
  m'.(mb_uploads) !! id = m.(mb_uploads) !! id ∧
  m'.(mb_files) !! upload_path id = m.(mb_files) !! upload_path id.

Lemma upload_kept_uploading id ct m m' : upload_kept id m m' → uploading id ct m → uploading id ct m'.
Proof. intros [H1 H2] (u & f & Hu & Hf). exists u, f. by rewrite H1, H2. Qed.

Lemma blob_insert_kept id c f (files : gmap string File) :
  <[blob_path c := f]> files !! upload_path id = files !! upload_path id.
Proof.
  rewrite lookup_insert_dec. by rewrite decide_False by (intros Hp; by apply eq_sym, blob_upload_disjoint in Hp).
Qed.

Lemma blob_delete_kept id c (files : gmap string File) :
  delete (blob_path c) files !! upload_path id = files !! upload_path id.
Proof.
  rewrite lookup_delete_at. by rewrite decide_False by (intros Hp; by apply eq_sym, blob_upload_disjoint in Hp).
Qed.

Lemma delete_entry_kept id c m : upload_kept id m (delete_entry c m).
Proof. split; [done|]. apply blob_delete_kept. Qed.

Lemma fetch_handler_kept id hold c now m : upload_kept id m (fetch_handler hold c now m).2.
Proof.
  unfold fetch_handler.
  assert (∀ plan m1, fp_blob_path plan = blob_path c → upload_kept id m m1 →
    upload_kept id m (serve_plan plan m1).2) as Hs.
  { intros plan m1 Hp Hk. unfold serve_plan. destruct (mb_files m1 !! _); [case_bool|]; try done.
    destruct Hk as [H1 H2]. split; [done|]. cbn. by rewrite Hp, blob_delete_kept. }
  destruct (if hold then _ else _) as [[plan|e] m1] eqn:E; cbn; destruct hold.
  - destruct (fetch_plan_held_cases _ _ _ _ _ E) as [[-> [?|(e & _ & _ & [= ->])]]|[_ [? ?]]]; try done.
    by apply Hs.
  - apply fetch_plan_ok in E as (e & He & _ & Hd & -> & ->). apply Hs; [done|]. by case_bool.
  - destruct (fetch_plan_held_cases _ _ _ _ _ E) as [[-> _]|[-> _]]; [done|apply delete_entry_kept].
  - destruct (fetch_plan_err _ _ _ _ _ E) as [->| ->]; [done|apply delete_entry_kept].
Qed.

Lemma reap_kept id now m : upload_kept id m (reap now m).2.
Proof.
  split.
  - exact (f_equal (fun t => t !! id) (proj1 (proj2 (proj2 (foldl_delete_entry _ m))))).
  - apply reap_files. intros c e _ _ Hp. by apply eq_sym, blob_upload_disjoint in Hp.
Qed.

Lemma commit_handler_kept id d c now m :
  d ≠ id → m.(mb_entries) !! c = None → upload_kept id m (commit_handler app d c now m).2.
Proof.
  intros Hne Hn. unfold commit_handler, begin_append. case_bool; [done|]. case_bool; [done|].
  set (m1 := with_busy _ m).
  assert (upload_kept id m1 (commit_upload (app_limits app) d c now m1).2) as Hk;
    [|by destruct (commit_upload _ _ _ _ _)].
  unfold commit_upload. destruct (upload_info d now m1) as [info|]; [|done].
  destruct (ui_committed info); [done|]. case_bool; [done|].
  destruct (mb_uploads m1 !! d) as [u|]; [|done]. unfold rename.
  destruct (mb_files m1 !! upload_path d) as [f|] eqn:Ef; [|done].
  unfold commit_deposit. cbn [mb_entries with_files]. change (mb_entries m1) with (mb_entries m).
  rewrite Hn. split; cbn.
  - by rewrite lookup_alter_ne by congruence.
  - rewrite blob_insert_kept, lookup_delete_at.
    by rewrite decide_False by (intros ?%upload_path_inj; congruence).
Qed.

Lemma append_handler_kept id d offset events cancelled now t_end m :
  d ≠ id → upload_kept id m (append_handler app d offset events cancelled now t_end m).2.
Proof.
  intros Hne. destruct (append_handler _ _ _ _ _ _ _ _) as [r m'] eqn:E.
  apply append_handler_effect in E as (_ & [[Ef Eu]|(u & f & b & _ & _ & _ & _ & Ef & Eu)]); cbn.
  - split; by rewrite ?Ef, ?Eu.
  - split.
    + destruct Eu as [-> | ->]; [done|]. rewrite touch_lookup. by rewrite decide_False by congruence.
    + rewrite Ef, lookup_insert_dec. by rewrite decide_False by (intros ?%upload_path_inj; congruence).
Qed.

(** Nothing in the step is a request about the session or reaps it. *)
Definition leaves_upload (id : Token) (op : Op) (m : Mailbox) : Prop :=
  match op with
  | OAppend d _ _ _ _ _ | OCommit d _ _ | OAbort d => d ≠ id
  | OUploadReap now => ∀ u, m.(mb_uploads) !! id = Some u → as_i64 now < u.(up_idle_expires)
  | _ => True
  end.

Lemma sweep_kept id now grace m :
  (sweep_orphan_blobs now grace m).2.(mb_uploads) = m.(mb_uploads) ∧
  ∀ u f, m.(mb_uploads) !! id = Some u → upload_open u = true →
    m.(mb_files) !! upload_path id = Some f →
    (sweep_orphan_blobs now grace m).2.(mb_files) !! upload_path id = Some f.
Proof.
  split; [done|]. intros u f Hu Ho Hf. apply sweep_walk_files; [done|]. left.
  rewrite keep_blob_part. apply bool_decide_eq_true, elem_of_open_upload_ids. eauto.
Qed.

(** Such a step keeps the row, and the partial file of an open session. *)
Lemma step_upload_kept id op m u :
  m.(mb_uploads) !! id = Some u → op_ok op m → leaves_upload id op m →
  (step app op m).(mb_uploads) !! id = Some u ∧
  ∀ f, upload_open u = true → m.(mb_files) !! upload_path id = Some f →
    (step app op m).(mb_files) !! upload_path id = Some f.
Proof.
  intros Hrow (Hn & Hu & Hb) Hleave.
  assert (∀ m', upload_kept id m m' → m'.(mb_uploads) !! id = Some u ∧
    ∀ f, upload_open u = true → m.(mb_files) !! upload_path id = Some f →
      m'.(mb_files) !! upload_path id = Some f) as Hkept.
  { intros m' [H1 H2]. split; [by rewrite H1|]. intros f _ Hf. by rewrite H2. }
  destruct op as [d rq evs t|d p now|hold d now|d now|d tk|i rq now|i o evs cc now t|i d now|i|now|now|now gr];
    cbn [step new_claim new_upload leaves_upload] in *.
  - apply Hkept. destruct (deposit_handler _ _ _ _ _ _) as [r m'] eqn:E.
    destruct (deposit_handler_cases _ _ _ _ _ _ _ _ E (Hn d eq_refl) Hb)
      as [[-> _]|[[-> _]|(_ & _ & _ & e & key & _ & _ & -> & _)]]; split; cbn;
      rewrite ?blob_delete_kept, ?blob_insert_kept; done.
  - apply Hkept. split; [done|]. apply blob_insert_kept.
  - apply Hkept, fetch_handler_kept.
  - apply Hkept. destruct (ack_fetch d now m) as [r m'] eqn:E.
    destruct (ack_fetch_cases _ _ _ _ _ E) as [[_ ->]|(_ & x & Hx & [->|[_ ->]])]; try done.
    apply delete_entry_kept.
  - apply Hkept. destruct (revoke_entry d tk m d) as [->|[-> _]]; [done|]. apply delete_entry_kept.
  - apply Hkept. specialize (Hu i eq_refl). assert (i ≠ id) as Hne by (intros ->; congruence).
    unfold open_handler.
    case_bool; [done|]. destruct (rq_encapped_key rq) as [key|]; [|done]. case_bool; [done|].
    destruct (rq_upload_length rq) as [n|]; [|done]. do 3 (case_bool; [done|]).
    unfold open_upload. case_bool; [done|]. cbn [mb_uploads with_files]. rewrite Hu. split; cbn.
    + by rewrite lookup_insert_ne by congruence.
    + rewrite lookup_insert_dec. by rewrite decide_False by (intros ?%upload_path_inj; congruence).
  - by apply Hkept, append_handler_kept.
  - apply Hkept, commit_handler_kept; auto.
  - apply Hkept. unfold abort_handler, begin_append. case_bool; [done|]. case_bool; [done|].
    unfold abort_upload. cbn [mb_uploads with_busy]. destruct (mb_uploads m !! i) as [v|]; [|done].
    exact (drop_upload_other i v (with_busy ({[i]} ∪ mb_uploads_busy m) m) id (not_eq_sym Hleave)).
  - apply Hkept, reap_kept.
  - apply Hkept.
    destruct (foldl_reap_one (map_to_list (filter (fun p => p.2.(up_idle_expires) <= as_i64 now)
      m.(mb_uploads))) m) as (_ & _ & H3 & _). apply H3. right.
    intros ([i v] & Hi & Hin%elem_of_map_to_list)%list_elem_of_fmap. cbn in Hi. subst i.
    apply map_lookup_filter_Some in Hin as [Hin Hx]. specialize (Hleave v Hin). cbn in Hx. lia.
  - destruct (sweep_kept id now gr m) as [-> Hs]. split; [done|]. intros f Ho Hf. by apply (Hs u).
Qed.

Lemma uploading_step id ct op m :
  uploading id ct m → zlen ct < U64_MAX → op_ok op m → upload_safe id ct op m →
  uploading id ct (step app op m).
Proof.
  intros Hup Hsz Hop Hsafe.
  assert ((∃ o evs cc now t, op = OAppend id o evs cc now t) ∨ leaves_upload id op m) as [(o & evs & cc & now & t & ->)|Hl].
  { destruct op as [| | | | | |d o evs cc now t| | | | |]; cbn in *; try by right.
    destruct (decide (d = id)) as [->|]; [left; eauto 10|by right]. }
  - pose proof (append_handler_resumes app id ct o evs cc now t m Hup Hsz (Hsafe eq_refl)) as Ha.
    cbn [step]. destruct (append_handler _ _ _ _ _ _ _ _). apply Ha.
  - destruct Hup as (u & f & Hu & Ho & Hlen & Hf & Hp).
    destruct (step_upload_kept id op m u Hu Hop Hl) as [Hu' Hf']. exists u, f. split_and!; auto.
Qed.

(** A step leaves no upload held that was not, and opens no session but its own. *)
Definition calm_step (op : Op) (m m' : Mailbox) : Prop :=
  m'.(mb_uploads_busy) ⊆ m.(mb_uploads_busy) ∧
  ∀ id, new_upload op ≠ Some id → m.(mb_uploads) !! id = None → m'.(mb_uploads) !! id = None.

Lemma calm_same op m m' :
  m'.(mb_uploads_busy) = m.(mb_uploads_busy) → m'.(mb_uploads) = m.(mb_uploads) → calm_step op m m'.
Proof. intros Hb Hu. split; [by rewrite Hb|]. intros id _. by rewrite Hu. Qed.

Lemma calm_released op id m m1 :
  m1.(mb_uploads_busy) ⊆ {[id]} ∪ m.(mb_uploads_busy) →
  (∀ i, m.(mb_uploads) !! i = None → m1.(mb_uploads) !! i = None) → calm_step op m (end_append id m1).
Proof. intros Hb Hu. split; [cbn; set_solver|]. intros i _. apply Hu. Qed.

Lemma alter_none {A} (f : A → A) (i j : Token) (t : gmap Token A) : t !! j = None → alter f i t !! j = None.
Proof. intros Hj. rewrite lookup_alter_dec. case_decide; [subst; by rewrite Hj|done]. Qed.

Lemma fetch_handler_calm op hold c now m : calm_step op m (fetch_handler hold c now m).2.
Proof.
  unfold fetch_handler.
  assert (∀ plan m1, m1.(mb_uploads_busy) = m.(mb_uploads_busy) → m1.(mb_uploads) = m.(mb_uploads) →
    calm_step op m (serve_plan plan m1).2) as Hs.
  { intros plan m1 Hb Hu. destruct (serve_plan plan m1) as [r m'] eqn:E.
    apply serve_plan_tables in E as (_ & Eu & Eb). apply calm_same; cbn; congruence. }
  destruct (if hold then _ else _) as [[plan|e] m1] eqn:E; cbn; destruct hold.
  - destruct (fetch_plan_held_cases _ _ _ _ _ E) as [[-> _]|[_ [? ?]]]; [by apply Hs|done].
  - apply fetch_plan_ok in E as (e & _ & _ & _ & -> & ->). apply Hs; by case_bool.
  - destruct (fetch_plan_held_cases _ _ _ _ _ E) as [[-> _]|[-> _]]; by apply calm_same.
  - destruct (fetch_plan_err _ _ _ _ _ E) as [->| ->]; by apply calm_same.
Qed.

Lemma open_handler_calm i rq now m : calm_step (OOpen i rq now) m (open_handler app i rq now m).2.
Proof.
  unfold open_handler. repeat (case_match; try by apply calm_same).
  all: unfold open_upload in *; repeat (case_match; simplify_eq); try by apply calm_same.
  all: split; [done|]; intros j Hj Hn; cbn in *; rewrite lookup_insert_ne; congruence.
Qed.

Lemma append_handler_calm i o evs cc now t m :
  calm_step (OAppend i o evs cc now t) m (append_handler app i o evs cc now t m).2.
Proof.
  unfold append_handler, begin_append. repeat (case_match; simplify_eq; try by apply calm_same).
  all: apply calm_released; cbn; try done; intros j Hj; by repeat apply alter_none.
Qed.

Lemma commit_handler_calm i d now m :
  calm_step (OCommit i d now) m (commit_handler app i d now m).2.
Proof.
  unfold commit_handler, begin_append. do 2 (case_match; simplify_eq; try by apply calm_same).
  destruct (commit_upload _ _ _ _ _) as [r m1] eqn:E. cbn. unfold commit_upload, commit_deposit in E.
  repeat (case_match; simplify_eq); apply calm_released; cbn; try done; intros j Hj; by apply alter_none.
Qed.

Lemma step_calm op m : calm_step op m (step app op m).
Proof.
  destruct op as [d rq evs t|d p now|hold d now|d now|d tk|i rq now|i o evs cc now t|i d now|i|now|now|now gr];
    cbn [step].
  - unfold deposit_handler. repeat (case_match; simplify_eq; try by apply calm_same).
    all: unfold commit_deposit in *; repeat (case_match; simplify_eq); by apply calm_same.
  - by apply calm_same.
  - apply fetch_handler_calm.
  - destruct (ack_fetch d now m) as [r m'] eqn:E.
    destruct (ack_fetch_cases _ _ _ _ _ E) as [[_ ->]|(_ & x & Hx & [->|[_ ->]])]; by apply calm_same.
  - destruct (revoke_entry d tk m d) as [->|[-> _]]; by apply calm_same.
  - apply open_handler_calm.
  - apply append_handler_calm.
  - apply commit_handler_calm.
  - unfold abort_handler, begin_append. case_bool; [by apply calm_same|]. case_bool; [by apply calm_same|].
    unfold abort_upload. cbn [mb_uploads with_busy].
    destruct (mb_uploads m !! i) as [u|]; [|by apply (calm_released (OAbort i) i m)].
    destruct (drop_upload_frame i u (with_busy ({[i]} ∪ mb_uploads_busy m) m)) as (_ & Hb & _).
    apply calm_released; cbn [fst snd]; [by rewrite Hb|]. intros j Hj.
    unfold drop_upload. case_bool; cbn; rewrite lookup_delete_at; by destruct (decide (j = i)).
  - destruct (foldl_delete_entry (map_to_list (filter (fun p => p.2.(en_expires_at) <= as_i64 now)
      m.(mb_entries))).*1 m) as (_ & _ & Hu & Hb). by apply calm_same.
  - destruct (foldl_reap_one (map_to_list (filter (fun p => p.2.(up_idle_expires) <= as_i64 now)
      m.(mb_uploads))) m) as (_ & Hb & Hu & _). split; [exact (eq_ind_r (fun b => b ⊆ m.(mb_uploads_busy)) (reflexivity _) Hb)|].
    intros j _ Hj. etrans; [|exact Hj]. apply Hu. right.
    intros ([x v] & Hi & Hin%elem_of_map_to_list)%list_elem_of_fmap. cbn in Hi. subst x.
    apply map_lookup_filter_Some in Hin as [Hin _]. congruence.
  - by apply calm_same.
Qed.

Lemma run_uploading id ct ops m :
  uploading id ct m → zlen ct < U64_MAX → run_ok app ops m → run_safe id ct ops m →
  uploading id ct (run app ops m).
Proof.
  revert m. induction ops as [|op ops IH]; intros m Hup Hsz Hok Hs; [done|].
  destruct Hok as [Hop Hok], Hs as [Hs1 Hs]. cbn [run foldl].
  apply IH; try done. by apply uploading_step.
Qed.

(** What opening a session leaves. *)
Lemma open_handler_created id rq now m r m' :
  open_handler app id rq now m = (r, m') → r.(status) = CREATED →
  m.(mb_uploads) !! id = None →
  ∃ key n, rq.(rq_encapped_key) = Some key ∧ rq.(rq_upload_length) = Some n ∧
    let lim := app.(app_limits) in
    (lim.(max_blob_bytes) = 0 ∨ n <= lim.(max_blob_bytes)) ∧
    (lim.(max_total_blob_bytes) = 0 ∨ sat_add (disk_bytes m) n <= lim.(max_total_blob_bytes)) ∧
    at_capacity lim m = false ∧
    m' = with_uploads (<[id := mkUploadRow key
             (match default [] rq.(rq_revoke_hash) with [] => None | h => Some h end)
             (Z.min rq.(rq_ttl) I64_MAX) rq.(rq_max) (Z.min n I64_MAX)
             (as_i64 (sat_add now UPLOAD_IDLE_SECS)) None None]> m.(mb_uploads))
           (with_files (<[upload_path id := mkFile [] now]> m.(mb_files)) m).
Proof.
  unfold open_handler. intros Ho Hr Hn.
  case_bool; [by injection Ho as <- <-|]. destruct (rq_encapped_key rq) as [key|]; [|by injection Ho as <- <-].
  case_bool; [by injection Ho as <- <-|].
  destruct (rq_upload_length rq) as [n|]; [|by injection Ho as <- <-].
  case_bool; [by injection Ho as <- <-|]. destruct (at_capacity _ m) eqn:Ecap; [by injection Ho as <- <-|].
  case_bool; [by injection Ho as <- <-|].
  unfold open_upload in Ho. case_bool; [by injection Ho as <- <-|].
  cbn [mb_uploads with_files] in Ho. rewrite Hn in Ho. injection Ho as <- <-. exists key, n. cbn zeta.
  split_and!; try done.
  - apply andb_false_iff in Heqb1 as [Hb|Hb]; zbool; [left|right]; lia.
  - apply andb_false_iff in Heqb2 as [Hb|Hb]; zbool; [left|right]; lia.
Qed.


(** The sweep and a commit may meet: an upload completed and then left alone for
    longer than the sweep's grace keeps that old date when its file is renamed, so a
    sweep that listed the claims just before the commit deletes the ciphertext of a
    deposit whose row is live, and the fetch of the claim the client was given fails
    with a backend error. *)
Theorem sweep_races_commit lim id claim now grace m ct c g m' f
    (Hup : uploading id ct m)
    (Hcommit : commit_upload lim id claim now m = (Ok (Ok (c, g)), m'))
    (Hf : m.(mb_files) !! upload_path id = Some f)
    (Hpast : f.(f_mtime) <= now) (Hidle : grace <= now - f.(f_mtime))
    (Hnow : 0 <= now) (Hg : 0 < g) (Hroom : now + g <= I64_MAX) :
  let swept := (sweep_walk (claims m) (open_upload_ids m') now grace m').2 in
  is_Some (swept.(mb_entries) !! c) ∧ swept.(mb_files) !! blob_path c = None ∧
  (fetch c now swept).1 = Err (Backend "No such file or directory").
Proof.
  cbn zeta. destruct (commit_upload_ok _ _ _ _ _ _ _ _ _ Hup Hcommit) as
    (u & e & f' & Hu & Hf' & Hct & -> & Hn & Hg' & Hk & Hd & Hmx & Hx & _ & He & Hfs & _).
  rewrite Hf in Hf'. injection Hf' as <-.
  assert ((sweep_walk (claims m) (open_upload_ids m') now grace m').2.(mb_files) !! blob_path claim = None)
    as Hgone.
  { apply (sweep_walk_gone _ _ now grace m' _ f); [|rewrite keep_blob_bin|done|done].
    - rewrite Hfs. apply lookup_insert_eq.
    - apply bool_decide_eq_false. unfold claims. rewrite elem_of_dom. rewrite Hn. by intros []. }
  destruct (sweep_walk_tables (claims m) (open_upload_ids m') now grace m') as (Ee & _ & _).
  generalize dependent (sweep_walk (claims m) (open_upload_ids m') now grace m').2.
  intros swept Hgone Ee. assert (swept.(mb_entries) !! claim = Some e) as Hes.
  { rewrite Ee, He. apply lookup_insert_eq. }
  split; [eauto|]. split; [done|].
  unfold fetch, fetch_plan, row. rewrite Hes. cbn zeta.
  rewrite Hx, sat_add_small by (unfold I64_MAX, U64_MAX in *; lia).
  rewrite as_i64_small, i64_as_u64_small by lia.
  rewrite (proj2 (Z.leb_gt _ _)) by lia.
  pose proof (clamp_bounds 1 MAX_DOWNLOADS_CAP (clamp 0 U32_MAX (up_max_downloads u))
    ltac:(unfold MAX_DOWNLOADS_CAP; lia)).
  rewrite (proj2 (Z.leb_gt _ _)) by lia. unfold serve_plan. by case_bool; cbn; rewrite Hgone.
Qed.
End uploads.
