(* ===== verification/SealedLayout.v ===== *)
(** * The ciphertext of a deposit, described ([core/src/upload.rs], [SealedLayout])

    A deposit's ciphertext as a prefix and a sequence of sealed chunks, any byte range
    of which can be produced on demand. The source ([core/src/source.rs]) is what a
    positional read finds at that moment: [None] when it cannot be opened or read, and
    the file's bytes otherwise; the chunks of one stream are read at different moments,
    so a stream takes one such reading per chunk. *)
From S2P Require Import Prelude.
From S2P Require Import ChunkCipher.
From S2P Require Import Store.
Local Open Scope Z_scope.
Local Open Scope arvolo_scope.

(** [SendSource::read_at_full] and [read_full_at]: up to [want] bytes from [offset]. *)
Definition read_at_full (file : option bytes) (want offset : Z) : option bytes :=
  (fun f => take (Z.to_nat want) (drop (Z.to_nat offset) f)) <$> file.

Definition TAG : Z := 16.

Record SealedLayout := mkSealedLayout {
  sl_key : bytes;
  sl_chunk_size : Z;
  sl_size : Z;
  sl_total_chunks : Z;
  sl_prefix : bytes;
  sl_len_prefixed : bool }.

(** [SealedLayout::new] and [SealedLayout::mailbox]. *)
Definition new_layout (key : bytes) (chunk_size size : Z) (prefix : bytes) (len_prefixed : bool)
    : SealedLayout :=
  mkSealedLayout key chunk_size size (wrap_u32 (div_ceil size chunk_size)) prefix len_prefixed.
Definition mailbox_layout (key : bytes) (size : Z) : SealedLayout :=
  new_layout key CHUNK_SIZE size [] false.

Definition framing (l : SealedLayout) : Z := if l.(sl_len_prefixed) then 4 else 0.

(** [SealedLayout::len]. *)
Definition layout_len (l : SealedLayout) : Z :=
  wrap_u64 (Z.of_nat (length l.(sl_prefix)) + l.(sl_size)
            + l.(sl_total_chunks) * (TAG + framing l)).

(** [SealedLayout::plain_offset]; the product is computed in 128 bits. *)
Definition plain_offset (l : SealedLayout) (cipher_offset : Z) : Z :=
  let len := layout_len l in
  if len =? 0 then 0 else wrap_u64 (Z.min cipher_offset len * l.(sl_size) / len).

(** [SealedLayout::unit_len]. *)
Definition unit_len (l : SealedLayout) (i : Z) : Z :=
  let pt := if i + 1 =? l.(sl_total_chunks) then l.(sl_size) - i * l.(sl_chunk_size)
            else l.(sl_chunk_size) in
  pt + TAG + framing l.

Section layout.
Context `{!Aes256Gcm}.

(** [SealedLayout::unit]. *)
Definition seal_unit (l : SealedLayout) (file : option bytes) (i : Z) : result bytes string :=
  let want := unit_len l i - TAG - framing l in
  match read_at_full file want (i * l.(sl_chunk_size)) with
  | None => Err "read source"
  | Some buf =>
      if negb (Z.of_nat (length buf) =? want) then Err "got shorter while it was being sent"
      else
        try! ct := seal_chunk l.(sl_key) (Z.to_N i) (Z.to_N l.(sl_total_chunks)) buf in
        if negb l.(sl_len_prefixed) then Ok ct
        else Ok (u32_to_le_bytes (Z.to_N (wrap_u32 (Z.of_nat (length ct)))) ++ ct)
  end.

(** The loop of [SealedLayout::stream] over the [n] chunks from [i] on: what it yields,
    and the fault it parks when it breaks off. *)
Fixpoint stream_loop (n : nat) (l : SealedLayout) (file : Z → option bytes) (to pos i skip : Z)
    : list bytes * option string :=
  match n with
  | O => ([], None)
  | S n =>
      if to <=? pos then ([], None)
      else
        match seal_unit l (file i) i with
        | Err e => ([], Some e)
        | Ok u =>
            let end_ := Z.min (skip + (to - pos)) (Z.of_nat (length u)) in
            let pos := pos + (end_ - skip) in
            let '(out, fault) := stream_loop n l file to pos (i + 1) 0 in
            (slice (Z.to_nat skip) (Z.to_nat end_) u :: out, fault)
        end
  end.

(** [SealedLayout::stream]. *)
Definition stream (l : SealedLayout) (file : Z → option bytes) (from to : Z)
    : list bytes * option string :=
  let to := Z.min to (layout_len l) in
  let plen := Z.of_nat (length l.(sl_prefix)) in
  let '(head, pos) :=
    if (from <? plen) && (from <? to) then
      let end_ := Z.min to plen in
      ([slice (Z.to_nat from) (Z.to_nat end_) l.(sl_prefix)], end_)
    else ([], from) in
  if to <=? pos then (head, None)
  else
    let full := unit_len l 0 in
    let i := wrap_u32 ((pos - plen) / full) in
    let skip := (pos - plen) mod full in
    let '(out, fault) :=
      stream_loop (Z.to_nat (l.(sl_total_chunks) - i)) l file to pos i skip in
    (head ++ out, fault).

(** [SealedLayout::to_vec]. *)
Fixpoint seal_units (n : nat) (l : SealedLayout) (file : Z → option bytes) (i : Z)
    : result (list bytes) string :=
  match n with
  | O => Ok []
  | S n =>
      try! u := seal_unit l (file i) i in
      try! us := seal_units n l file (i + 1) in
      Ok (u :: us)
  end.
Definition to_vec (l : SealedLayout) (file : Z → option bytes) : result bytes string :=
  try! us := seal_units (Z.to_nat l.(sl_total_chunks)) l file 0 in
  Ok (l.(sl_prefix) ++ mjoin us).
End layout.

(** * Any range of a sealed layout

    The length of a layout is what it produces, and the bytes made for a range are
    that range of the whole: what lets an interrupted upload carry on. *)
Local Open Scope Z_scope.


(** A layout whose sizes fit the integers they are kept in. *)
Definition layout_ok (l : SealedLayout) : Prop :=
  0 < l.(sl_chunk_size) ∧ 0 <= l.(sl_size) ∧
  l.(sl_total_chunks) = div_ceil l.(sl_size) l.(sl_chunk_size) ∧
  l.(sl_total_chunks) <= U32_MAX ∧
  zlen l.(sl_prefix) + l.(sl_size) + l.(sl_total_chunks) * (TAG + framing l) <= U64_MAX.

(** The reading of a source that had [plain]: at most cut short since, or unreadable. *)
Definition reads_of (plain : bytes) (file : option bytes) : Prop :=
  match file with Some f => f `prefix_of` plain | None => True end.

(** ** Lists of pieces *)

Lemma mjoin_cons {A} (x : list A) xs : mjoin (x :: xs) = x ++ mjoin xs.
Proof. done. Qed.

Lemma take_drop_app {A} n skip (u rest : list A) :
  (skip + n ≤ length u)%nat → take n (drop skip (u ++ rest)) = take n (drop skip u).
Proof.
  intros H. rewrite drop_app_le by lia. apply take_app_le. rewrite length_drop. lia.
Qed.

Lemma take_drop_over {A} n skip (u rest : list A) :
  (skip ≤ length u ≤ skip + n)%nat →
  take n (drop skip (u ++ rest)) = drop skip u ++ take (n - (length u - skip)) rest.
Proof.
  intros H. rewrite drop_app_le by lia. rewrite take_app_ge by (rewrite length_drop; lia).
  by rewrite length_drop.
Qed.

(** Skipping whole pieces of one length. *)
Lemma drop_mjoin_full {A} (full : nat) (us : list (list A)) i skip :
  (i ≤ length us)%nat → (∀ j u, (j < i)%nat → us !! j = Some u → length u = full) →
  drop (i * full + skip) (mjoin us) = drop skip (mjoin (drop i us)).
Proof.
  revert us. induction i as [|i IH]; intros [|u us] Hi Hf; cbn in Hi; try done; try lia.
  rewrite mjoin_cons. rewrite drop_app_ge; rewrite (Hf 0%nat u) by (done || lia); [|lia].
  replace (S i * full + skip - full)%nat with (i * full + skip)%nat by lia.
  apply (IH us); [lia|]. intros j v Hj Hv. by apply (Hf (S j)); [lia|].
Qed.

Section facts.
Context `{!Aes256Gcm}.

(** The loop yields a beginning of the range it was asked for, all of it unless it
    breaks off; [us] are the chunks a whole run would produce. *)
Lemma stream_loop_spec n l file to pos i skip us :
  length us = n → pos <= to → 0 <= skip →
  (∀ k u, (k < n)%nat → seal_unit l (file (i + Z.of_nat k)) (i + Z.of_nat k) = Ok u → us !! k = Some u) →
  (∀ u us', us = u :: us' → skip <= zlen u) →
  let r := stream_loop n l file to pos i skip in
  let want := take (Z.to_nat (to - pos)) (drop (Z.to_nat skip) (mjoin us)) in
  mjoin r.1 `prefix_of` want ∧ (r.2 = None → mjoin r.1 = want).
Proof.
  revert pos i skip us. induction n as [|n IH]; intros pos i skip us Hlen Hpos Hskip Hu Hs.
  { apply nil_length_inv in Hlen as ->. cbn. rewrite drop_nil, take_nil. done. }
  destruct us as [|u us]; [done|]. cbn [stream_loop].
  destruct (Z.leb_spec to pos) as [Hle|Hlt].
  { cbn. replace (Z.to_nat (to - pos)) with 0%nat by lia. rewrite take_0. split; done. }
  destruct (seal_unit l (file i) i) as [v|e] eqn:E; [|cbn; split; [apply prefix_nil|done]].
  specialize (Hs u us eq_refl).
  assert (u = v) as <-.
  { specialize (Hu 0%nat v ltac:(lia)). rewrite Z.add_0_r in Hu. specialize (Hu E). by injection Hu. }
  set (end_ := Z.min (skip + (to - pos)) (zlen u)).
  specialize (IH (pos + (end_ - skip)) (i + 1) 0 us ltac:(by injection Hlen) ltac:(lia) ltac:(lia)).
  destruct (stream_loop n l file to (pos + (end_ - skip)) (i + 1) 0) as [out fault].
  destruct IH as [IH1 IH2].
  { intros k w Hk Hw. specialize (Hu (S k) w ltac:(lia)).
    replace (i + Z.of_nat (S k)) with (i + 1 + Z.of_nat k) in Hu by lia. by apply Hu. }
  { intros; lia. }
  cbn [fst snd] in *. rewrite !mjoin_cons. change (Z.to_nat 0) with 0%nat in *. rewrite drop_0 in IH1, IH2.
  destruct (Z.le_gt_cases (skip + (to - pos)) (zlen u)) as [Hin|Hout].
  - rewrite take_drop_app by lia.
    replace (Z.to_nat (to - (pos + (end_ - skip)))) with 0%nat in IH1, IH2 by lia.
    rewrite take_0 in IH1, IH2. apply prefix_nil_inv in IH1. rewrite IH1, app_nil_r.
    unfold slice. replace (Z.to_nat end_ - Z.to_nat skip)%nat with (Z.to_nat (to - pos)) by lia. done.
  - rewrite take_drop_over by lia.
    replace (Z.to_nat (to - pos) - (length u - Z.to_nat skip))%nat
      with (Z.to_nat (to - (pos + (end_ - skip)))) by lia.
    assert (slice (Z.to_nat skip) (Z.to_nat end_) u = drop (Z.to_nat skip) u) as ->.
    { unfold slice. apply take_ge. rewrite length_drop. lia. }
    split; [by apply prefix_app|]. intros Hn. by rewrite IH2.
Qed.

(** ** One chunk *)

Lemma framing_nonneg l : 0 <= framing l <= 4.
Proof. unfold framing. destruct (sl_len_prefixed l); lia. Qed.

Lemma read_at_full_prefix plain file want offset buf :
  reads_of plain file → read_at_full file want offset = Some buf → zlen buf = want →
  read_at_full (Some plain) want offset = Some buf.
Proof.
  destruct file as [f|]; [|done]. cbn. intros [rest ->] [= <-] Hlen. f_equal.
  destruct (decide (Z.to_nat want = 0%nat)) as [->|Hw]; [by rewrite !take_0|].
  rewrite length_take, length_drop in Hlen. apply take_drop_app. lia.
Qed.

(** What a later reading of the source yields for a chunk is what it always was. *)
Lemma seal_unit_stable plain file l i u :
  reads_of plain file → seal_unit l file i = Ok u → seal_unit l (Some plain) i = Ok u.
Proof.
  intros Hr. unfold seal_unit. destruct (read_at_full file _ _) as [buf|] eqn:E; [|done].
  case_bool; [done|]. zbool. by rewrite (read_at_full_prefix _ _ _ _ _ Hr E) by done; rewrite Heqb, Z.eqb_refl.
Qed.

Context `{!Aes256GcmLaws}.

Lemma seal_unit_length l file i u : seal_unit l file i = Ok u → zlen u = unit_len l i.
Proof.
  unfold seal_unit. destruct (read_at_full _ _ _) as [buf|]; [|done]. case_bool; [done|]. zbool.
  destruct (seal_chunk _ _ _ _) as [ct|] eqn:E; [|done]. cbn [result_bind].
  apply length_seal_chunk in E. unfold TAG, CHUNK_TAG_LEN in *.
  assert (framing l = if sl_len_prefixed l then 4 else 0) as Hf by done.
  destruct (sl_len_prefixed l); cbn [negb]; intros [= <-];
    cbn [length]; lia.
Qed.

(** ** The whole *)

Lemma seal_units_spec n l file i us :
  seal_units n l file i = Ok us →
  length us = n ∧
  ∀ k, (k < n)%nat → ∃ u, us !! k = Some u ∧ seal_unit l (file (i + Z.of_nat k)) (i + Z.of_nat k) = Ok u.
Proof.
  revert i us. induction n as [|n IH]; intros i us Hus; cbn in Hus.
  { injection Hus as <-. split; [done|lia]. }
  destruct (seal_unit l (file i) i) as [u|] eqn:E; [|done].
  destruct (seal_units n l file (i + 1)) as [vs|] eqn:Ev; [|done]. injection Hus as <-.
  destruct (IH _ _ Ev) as [<- Hk]. split; [done|]. intros [|k] Hlt.
  - rewrite Z.add_0_r. eauto.
  - replace (i + Z.of_nat (S k)) with (i + 1 + Z.of_nat k) by lia. apply Hk. lia.
Qed.

(** The lengths of the chunks from [i] on add up to the rest of the file and their
    overhead. *)
Lemma seal_units_length l file i n us :
  layout_ok l → 0 <= i → i + Z.of_nat n = l.(sl_total_chunks) →
  seal_units n l file i = Ok us →
  zlen (mjoin us) = (if (n =? 0)%nat then 0 else l.(sl_size) - i * l.(sl_chunk_size))
                    + Z.of_nat n * (TAG + framing l).
Proof.
  intros (Hcs & Hsz & Ht & _ & _) Hi. revert i us Hi. induction n as [|n IH]; intros i us Hi Hn Hus; cbn in Hus.
  { injection Hus as <-. cbn. lia. }
  destruct (seal_unit l (file i) i) as [u|] eqn:E; [|done].
  destruct (seal_units n l file (i + 1)) as [vs|] eqn:Ev; [|done]. injection Hus as <-.
  rewrite mjoin_cons, length_app, Nat2Z.inj_add, (seal_unit_length _ _ _ _ E).
  rewrite (IH (i + 1) vs) by (lia || done).
  unfold unit_len. destruct (Z.eqb_spec (i + 1) (sl_total_chunks l)) as [Hlast|Hmore].
  - replace n with 0%nat by lia. cbn [Nat.eqb]. lia.
  - destruct n; [lia|]. cbn [Nat.eqb]. lia.
Qed.

Lemma to_vec_length l file whole :
  layout_ok l → to_vec l file = Ok whole → zlen whole = layout_len l.
Proof.
  intros Hok. pose proof Hok as (Hcs & Hsz & Ht & Hmax & Hfit). pose proof (framing_nonneg l).
  pose proof (div_ceil_spec (sl_size l) (sl_chunk_size l) Hsz Hcs) as (_ & _ & Hn & Hz).
  unfold to_vec. destruct (seal_units _ l file 0) as [us|] eqn:E; [|done]. cbn [result_bind].
  intros [= <-]. rewrite length_app.
  pose proof (seal_units_length l file 0 (Z.to_nat (sl_total_chunks l)) us Hok ltac:(lia) ltac:(lia) E) as Hl.
  assert (0 <= sl_total_chunks l * (TAG + framing l)) by (unfold TAG; nia).
  unfold layout_len. rewrite wrap_u64_small by (unfold is_u64; lia).
  destruct (Z.to_nat (sl_total_chunks l)) eqn:En; cbn [Nat.eqb] in Hl; lia.
Qed.

Lemma stream_loop_shift n l file to pos d i skip :
  stream_loop n l file (to + d) (pos + d) i skip = stream_loop n l file to pos i skip.
Proof.
  revert pos i skip. induction n as [|n IH]; intros pos i skip; [done|]. cbn [stream_loop].
  replace (to + d <=? pos + d) with (to <=? pos) by (destruct (Z.leb_spec to pos), (Z.leb_spec (to + d) (pos + d)); lia).
  case_bool; [done|]. destruct (seal_unit l (file i) i) as [u|]; [|done].
  replace (to + d - (pos + d)) with (to - pos) by lia.
  replace (pos + d + (Z.min (skip + (to - pos)) (zlen u) - skip))
    with (pos + (Z.min (skip + (to - pos)) (zlen u) - skip) + d) by lia.
  by rewrite IH.
Qed.

(** The loop breaks off only when a chunk cannot be sealed. *)
Lemma stream_loop_fault n l file to pos i skip :
  (∀ k, (k < n)%nat → is_ok (seal_unit l (file (i + Z.of_nat k)) (i + Z.of_nat k)) = true) →
  (stream_loop n l file to pos i skip).2 = None.
Proof.
  revert pos i skip. induction n as [|n IH]; intros pos i skip Hk; [done|]. cbn [stream_loop].
  case_bool; [done|]. pose proof (Hk 0%nat ltac:(lia)) as H1. rewrite Z.add_0_r in H1.
  destruct (seal_unit l (file i) i) as [u|]; [|done].
  pose proof (IH (pos + (Z.min (skip + (to - pos)) (zlen u) - skip)) (i + 1) 0) as Hn.
  destruct (stream_loop _ _ _ _ _ _ _). cbn in *. apply Hn. intros k Hlt.
  specialize (Hk (S k) ltac:(lia)). by replace (i + 1 + Z.of_nat k) with (i + Z.of_nat (S k)) by lia.
Qed.

Lemma unit_len_pos l i :
  layout_ok l → 0 <= i < l.(sl_total_chunks) →
  0 < unit_len l i <= unit_len l 0 ∧ (i + 1 < l.(sl_total_chunks) → unit_len l i = unit_len l 0).
Proof.
  intros (Hcs & Hsz & Ht & _ & _) Hi. pose proof (framing_nonneg l) as Hfr.
  pose proof (div_ceil_spec _ _ Hsz Hcs) as (D1 & D2 & D3 & D4). rewrite <- Ht in *.
  unfold unit_len, TAG.
  destruct (Z.eqb_spec (i + 1) (sl_total_chunks l)), (Z.eqb_spec (0 + 1) (sl_total_chunks l));
    (split; [split|]); nia.
Qed.

Lemma units_lookup l file us j u :
  seal_units (Z.to_nat l.(sl_total_chunks)) l file 0 = Ok us → us !! j = Some u →
  zlen u = unit_len l (Z.of_nat j) ∧ 0 <= Z.of_nat j < l.(sl_total_chunks).
Proof.
  intros Hus Hj. destruct (seal_units_spec _ _ _ _ _ Hus) as [Hlen Hk].
  pose proof (lookup_lt_Some _ _ _ Hj). destruct (Hk j ltac:(lia)) as (v & Hv & Hs).
  rewrite Hj in Hv. injection Hv as <-. split; [|lia]. by apply seal_unit_length in Hs.
Qed.

Lemma units_bound l file us :
  layout_ok l → seal_units (Z.to_nat l.(sl_total_chunks)) l file 0 = Ok us →
  zlen (mjoin us) <= zlen us * unit_len l 0.
Proof.
  intros Hok Hus. assert (∀ u, u ∈ us → zlen u <= unit_len l 0) as Hle.
  { intros u [j Hj]%list_elem_of_lookup. destruct (units_lookup _ _ _ _ _ Hus Hj) as [-> Hlt].
    by apply unit_len_pos. }
  clear Hus. induction us as [|u us IH]; [done|]. rewrite mjoin_cons, length_app.
  pose proof (Hle u ltac:(set_solver)). cbn [length].
  assert (zlen (mjoin us) <= zlen us * unit_len l 0) by (apply IH; set_solver). lia.
Qed.

(** Where a position falls: its chunk, and how far into it. *)
Lemma units_position l file us pos :
  layout_ok l → seal_units (Z.to_nat l.(sl_total_chunks)) l file 0 = Ok us →
  0 <= pos < zlen (mjoin us) →
  let full := unit_len l 0 in let i := pos / full in
  0 <= i < l.(sl_total_chunks) ∧ 0 <= pos mod full < full ∧
  drop (Z.to_nat pos) (mjoin us) = drop (Z.to_nat (pos mod full)) (mjoin (drop (Z.to_nat i) us)) ∧
  ∀ u us', drop (Z.to_nat i) us = u :: us' → pos mod full <= zlen u.
Proof.
  intros Hok Hus Hpos full i.
  destruct (seal_units_spec _ _ _ _ _ Hus) as [Hlen _]. set (total := sl_total_chunks l) in *.
  assert (0 < total) as Htot.
  { destruct us as [|u us]; [cbn in Hpos; lia|]. cbn in Hlen. lia. }
  pose proof (unit_len_pos l 0 Hok ltac:(lia)) as [Hfull _]. fold full in Hfull.
  pose proof (units_bound _ _ _ Hok Hus) as Hbound. fold full in Hbound.
  pose proof (Z.div_mod pos full ltac:(lia)) as Hdm. fold i in Hdm.
  pose proof (Z.mod_pos_bound pos full ltac:(lia)) as Hmod.
  assert (0 <= i < total) as Hi by nia.
  assert (drop (Z.to_nat pos) (mjoin us) = drop (Z.to_nat (pos mod full)) (mjoin (drop (Z.to_nat i) us)))
    as Hdrop.
  { rewrite <- (drop_mjoin_full (Z.to_nat full)); [f_equal; nia|lia|].
    intros j u Hj Hju. destruct (units_lookup _ _ _ _ _ Hus Hju) as [Hz Hlt].
    destruct (unit_len_pos l (Z.of_nat j) Hok Hlt) as [_ Hf]. fold full total in Hf. lia. }
  split_and!; try done; try lia. intros u us' Hd.
  assert (us !! Z.to_nat i = Some u) as Hl.
  { rewrite <- (Nat.add_0_r (Z.to_nat i)), <- lookup_drop, Hd. done. }
  destruct (units_lookup _ _ _ _ _ Hus Hl) as [-> Hlt]. rewrite Z2Nat.id by lia.
  destruct (decide (i + 1 < total)) as [Hm|Hm].
  { destruct (unit_len_pos l i Hok ltac:(lia)) as [_ ->]; [|done]. fold full. lia. }
  apply (f_equal length) in Hdrop. rewrite Hd, !length_drop, mjoin_cons, length_app in Hdrop.
  assert (us' = []) as ->.
  { apply (f_equal length) in Hd. rewrite length_drop in Hd. cbn in Hd. apply nil_length_inv. lia. }
  cbn in Hdrop. pose proof (units_lookup _ _ _ _ _ Hus Hl) as [Hz _]. rewrite Z2Nat.id in Hz by lia. lia.
Qed.

(** From a position past the prefix on, the chunks of the layout. *)
Lemma stream_chunks l plain file us to pos :
  layout_ok l → (∀ i, reads_of plain (file i)) →
  seal_units (Z.to_nat l.(sl_total_chunks)) l (fun _ => Some plain) 0 = Ok us →
  0 <= pos < to → to <= zlen (mjoin us) →
  let i := pos / unit_len l 0 in
  wrap_u32 i = i ∧
  let r := stream_loop (Z.to_nat (l.(sl_total_chunks) - i)) l file to pos i (pos mod unit_len l 0) in
  let want := slice (Z.to_nat pos) (Z.to_nat to) (mjoin us) in
  mjoin r.1 `prefix_of` want ∧ (r.2 = None → mjoin r.1 = want) ∧
  ((∀ i, file i = Some plain) → r.2 = None).
Proof.
  intros Hok Hread Hus Hpos Hto. cbn zeta.
  destruct (seal_units_spec _ _ _ _ _ Hus) as [Hlen Hk].
  destruct (units_position _ _ _ pos Hok Hus ltac:(lia)) as (Hi & Hmod & Hdrop & Hskip).
  set (total := sl_total_chunks l) in *. set (full := unit_len l 0) in *. set (i := pos / full) in *.
  assert (total <= U32_MAX) as Hmax by apply Hok.
  split; [apply wrap_u32_small; unfold is_u32; lia|].
  assert (∀ k, (k < Z.to_nat (total - i))%nat → ∃ u, us !! (Z.to_nat i + k)%nat = Some u ∧
    seal_unit l (Some plain) (i + Z.of_nat k) = Ok u) as Hunit.
  { intros k Hlt. destruct (Hk (Z.to_nat i + k)%nat ltac:(lia)) as (v & Hv & Hsv). exists v.
    by replace (0 + Z.of_nat (Z.to_nat i + k)) with (i + Z.of_nat k) in Hsv by lia. }
  pose proof (stream_loop_spec (Z.to_nat (total - i)) l file to pos i (pos mod full)
    (drop (Z.to_nat i) us)) as Hspec.
  rewrite <- Hdrop in Hspec. unfold slice. replace (Z.to_nat to - Z.to_nat pos)%nat with (Z.to_nat (to - pos)) by lia.
  destruct Hspec as [P1 P2]; [rewrite length_drop; lia|lia|lia| |done|].
  - intros k u Hlt Hsu. apply (seal_unit_stable plain) in Hsu; [|done].
    destruct (Hunit k Hlt) as (v & Hv & Hsv). rewrite lookup_drop, Hv. congruence.
  - split; [done|]. split; [done|]. intros Hsame. apply stream_loop_fault. intros k Hlt.
    rewrite Hsame. by destruct (Hunit k Hlt) as (v & _ & ->).
Qed.
(** The same with the prefix in front. *)
Lemma stream_tail l plain file us pos top :
  layout_ok l → (∀ i, reads_of plain (file i)) →
  seal_units (Z.to_nat l.(sl_total_chunks)) l (fun _ => Some plain) 0 = Ok us →
  let pre := l.(sl_prefix) in
  top <= zlen pre + zlen (mjoin us) → zlen pre <= pos < top →
  let i := (pos - zlen pre) / unit_len l 0 in
  wrap_u32 i = i ∧
  let r := stream_loop (Z.to_nat (l.(sl_total_chunks) - i)) l file top pos i
             ((pos - zlen pre) mod unit_len l 0) in
  let want := slice (Z.to_nat pos) (Z.to_nat top) (pre ++ mjoin us) in
  mjoin r.1 `prefix_of` want ∧ (r.2 = None → mjoin r.1 = want) ∧
  ((∀ i, file i = Some plain) → r.2 = None).
Proof.
  intros Hok Hread E pre Htop Hpos. cbn zeta.
  assert (slice (Z.to_nat pos) (Z.to_nat top) (pre ++ mjoin us) =
    slice (Z.to_nat (pos - zlen pre)) (Z.to_nat (top - zlen pre)) (mjoin us)) as ->.
  { unfold slice. rewrite drop_app_ge by lia. f_equal; [lia|]. f_equal. lia. }
  destruct (stream_chunks l plain file us (top - zlen pre) (pos - zlen pre) Hok Hread E
    ltac:(lia) ltac:(lia)) as [Hw Hr]. split; [done|].
  rewrite <- (stream_loop_shift _ _ _ _ _ (zlen pre)) in Hr. by rewrite !Z.sub_add in Hr.
Qed.

Lemma layout_ranges_ok l plain whole file from to
    (Hok : layout_ok l) (Hvec : to_vec l (fun _ => Some plain) = Ok whole)
    (Hread : ∀ i, reads_of plain (file i)) (Hfrom : 0 <= from) :
  zlen whole = layout_len l ∧
  let r := stream l file from to in
  let want := slice (Z.to_nat from) (Z.to_nat (Z.min to (layout_len l))) whole in
  mjoin r.1 `prefix_of` want ∧ (r.2 = None → mjoin r.1 = want) ∧
  ((∀ i, file i = Some plain) → r.2 = None).
Proof.
  pose proof (to_vec_length _ _ _ Hok Hvec) as Hlen. split; [done|]. cbn zeta.
  unfold to_vec in Hvec. destruct (seal_units _ l _ 0) as [us|] eqn:E; [|done]. injection Hvec as <-.
  rewrite length_app in Hlen. unfold stream. set (top := Z.min to (layout_len l)).
  set (pre := sl_prefix l) in *.
  assert (top <= zlen pre + zlen (mjoin us)) as Htop by lia.
  pose proof (fun pos => stream_tail l plain file us pos top Hok Hread E Htop) as Hchunks. fold pre in Hchunks.
  destruct ((from <? zlen pre) && (from <? top)) eqn:Ehead.
  - zbool. destruct (Z.leb_spec top (Z.min top (zlen pre))) as [Hend|Hmore].
    + cbn zeta. cbn [fst snd]. assert (mjoin [slice (Z.to_nat from) (Z.to_nat (Z.min top (zlen pre))) pre]
        = slice (Z.to_nat from) (Z.to_nat top) (pre ++ mjoin us)) as ->; [|done].
      cbn. rewrite app_nil_r, Z.min_l by lia. unfold slice. by rewrite take_drop_app by lia.
    + rewrite Z.min_r in * by lia. destruct (Hchunks (zlen pre) ltac:(lia)) as (Hw & Hr). cbn zeta in Hw, Hr.
      rewrite Hw. destruct (stream_loop _ _ _ _ _ _ _) as [out fault]. cbn [fst snd] in *.
      rewrite <- (slice_app (Z.to_nat from) (Z.to_nat (zlen pre)) (Z.to_nat top)) by lia.
      assert (slice (Z.to_nat from) (Z.to_nat (zlen pre)) (pre ++ mjoin us)
        = slice (Z.to_nat from) (Z.to_nat (zlen pre)) pre) as -> by (unfold slice; by rewrite take_drop_app by lia).
      change (?x :: out) with ([x] ++ out). cbn [app]. rewrite mjoin_cons.
      destruct Hr as (R1 & R2 & R3). split; [by apply prefix_app|]. split; [|done].
      intros Hn. by rewrite R2.
  - destruct (Z.leb_spec top from) as [Hend|Hmore].
    + cbn zeta. cbn [fst snd]. unfold slice. replace (Z.to_nat top - Z.to_nat from)%nat with 0%nat by lia. by rewrite take_0.
    + assert (zlen pre <= from < top) as Hp.
      { split; [|done]. apply andb_false_iff in Ehead as [Hb|Hb]; zbool; lia. }
      destruct (Hchunks from Hp) as (Hw & Hr). cbn zeta in Hw, Hr. rewrite Hw.
      destruct (stream_loop _ _ _ _ _ _ _) as [out fault]. exact Hr.
Qed.
(** C16. A layout announces the length it produces, and the bytes it makes for a range
    are that range of the whole, wherever it starts and ends: inside the prefix, on a
    chunk's edge, inside a length prefix or a chunk. A source that has since been cut
    short or become unreadable breaks the stream off, and what came before is still a
    beginning of the range. *)
Theorem layout_ranges l plain whole file from to
    (Hok : layout_ok l) (Hvec : to_vec l (fun _ => Some plain) = Ok whole)
    (Hread : ∀ i, reads_of plain (file i)) (Hfrom : 0 <= from) :
  zlen whole = layout_len l ∧
  let r := stream l file from to in
  let want := slice (Z.to_nat from) (Z.to_nat (Z.min to (layout_len l))) whole in
  mjoin r.1 `prefix_of` want ∧ (r.2 = None → mjoin r.1 = want) ∧
  ((∀ i, file i = Some plain) → r.2 = None).
Proof. by apply layout_ranges_ok. Qed.
End facts.
