(* ===== verification/Link.v ===== *)
(** * The browser-download container ([core/src/link.rs])

    A file sealed for a download page: a header with the sealed name, then
    length-prefixed sealed chunks. The container is a layout ([SealedLayout.v]);
    [decrypt_link] is the decoder, over a cursor. *)
From S2P Require Import Prelude.
From S2P Require Import Text.
From S2P Require Import ChunkCipher.
From S2P Require Import SealedLayout.
Local Open Scope Z_scope.
Local Open Scope arvolo_scope.

Definition MAGIC : bytes := bytes_of "ARVLNK01".
Definition LINK_CHUNK_SIZE : Z := 1024 * 1024.
Definition META_INDEX : Z := U32_MAX.

Definition total_chunks_for (size chunk_size : Z) : Z := wrap_u32 (div_ceil size chunk_size).

Record LinkSeal := mkLinkSeal {
  ls_key : bytes; ls_revoke_token : string; ls_name : string; ls_size : Z }.

(** [Cursor] and its readers. *)
Record Cursor := mkCursor { cu_buf : bytes; cu_pos : Z }.

Definition cursor_take (n : Z) (c : Cursor) : result (bytes * Cursor) string :=
  let end_ := c.(cu_pos) + n in
  if (U64_MAX <? end_) || negb (end_ <=? Z.of_nat (length c.(cu_buf)))
  then Err "truncated link container"
  else Ok (slice (Z.to_nat c.(cu_pos)) (Z.to_nat end_) c.(cu_buf), mkCursor c.(cu_buf) end_).
Definition cursor_u32 (c : Cursor) : result (Z * Cursor) string :=
  try! (b, c) := cursor_take 4 c in Ok (Z.of_N (le_value b), c).
Definition cursor_u64 (c : Cursor) : result (Z * Cursor) string :=
  try! (b, c) := cursor_take 8 c in Ok (Z.of_N (le_value b), c).

Section link.
Context `{!Aes256Gcm}.

(** [link_layout]. *)
Definition link_layout (seal : LinkSeal) : result SealedLayout string :=
  let chunk_size := LINK_CHUNK_SIZE in
  let total_chunks := total_chunks_for seal.(ls_size) chunk_size in
  try! meta_ct := context "seal meta" (result_ok
    (seal_chunk seal.(ls_key) (Z.to_N META_INDEX) (Z.to_N total_chunks) (bytes_of seal.(ls_name)))) in
  let prefix := MAGIC ++ u32_to_le_bytes (Z.to_N chunk_size)
    ++ u64_to_le_bytes (Z.to_N seal.(ls_size))
    ++ u32_to_le_bytes (Z.to_N (wrap_u32 (Z.of_nat (length meta_ct)))) ++ meta_ct in
  Ok (new_layout seal.(ls_key) chunk_size seal.(ls_size) prefix true).

(** [encrypt_link], under a given seal. *)
Definition encrypt_link (seal : LinkSeal) (plain : bytes) : result bytes string :=
  try! l := link_layout seal in to_vec l (fun _ => Some plain).

(** The loop of [decrypt_link] over the [n] chunks from [i] on. *)
Fixpoint decrypt_chunks (n : nat) (key : bytes) (total_chunks i : Z) (c : Cursor)
    : result bytes string :=
  match n with
  | O => Ok []
  | S n =>
      try! (ct_len, c) := cursor_u32 c in
      try! (ct, c) := cursor_take ct_len c in
      try! pt := context "decrypt chunk" (result_ok
        (open_chunk key (Z.to_N i) (Z.to_N total_chunks) ct)) in
      try! rest := decrypt_chunks n key total_chunks (i + 1) c in
      Ok (pt ++ rest)
  end.

(** [decrypt_link]. *)
Definition decrypt_link (blob key : bytes) : result (string * bytes) string :=
  let c := mkCursor blob 0 in
  try! (magic, c) := cursor_take 8 c in
  if negb (bool_decide (magic = MAGIC)) then Err "not an arvolo link container"
  else
    try! (chunk_size, c) := cursor_u32 c in
    if negb (0 <? chunk_size) then Err "invalid chunk size"
    else
      try! (size, c) := cursor_u64 c in
      let total_chunks := total_chunks_for size chunk_size in
      try! (meta_len, c) := cursor_u32 c in
      try! (meta_ct, c) := cursor_take meta_len c in
      try! meta_pt := context "decrypt metadata" (result_ok
        (open_chunk key (Z.to_N META_INDEX) (Z.to_N total_chunks) meta_ct)) in
      try! name := context "file name is not valid UTF-8" (from_utf8 meta_pt) in
      try! out := decrypt_chunks (Z.to_nat total_chunks) key total_chunks 0 c in
      if negb (Z.of_nat (length out) =? size) then Err "recovered size mismatch"
      else Ok (name, out).
End link.

(** ** Reading what was written *)

(** What the cursor has left is [rest]. *)
Definition cursor_at (c : Cursor) (rest : bytes) : Prop :=
  0 <= c.(cu_pos) ∧ zlen c.(cu_buf) <= U64_MAX ∧ drop (Z.to_nat c.(cu_pos)) c.(cu_buf) = rest ∧
  c.(cu_pos) <= zlen c.(cu_buf).

Lemma cursor_take_app c x rest n :
  cursor_at c (x ++ rest) → zlen x = n →
  ∃ c', cursor_take n c = Ok (x, c') ∧ cursor_at c' rest.
Proof.
  intros (Hpos & Hmax & Hdrop & Hle) Hn. destruct c as [buf pos]. cbn in *.
  assert (pos + n <= zlen buf).
  { apply (f_equal length) in Hdrop. rewrite length_drop, length_app in Hdrop. lia. }
  exists (mkCursor buf (pos + n)). unfold cursor_take. cbn.
  rewrite (proj2 (Z.ltb_ge _ _)), (proj2 (Z.leb_le _ _)) by lia. cbn.
  split; [f_equal; f_equal|].
  - unfold slice. rewrite Hdrop. replace (_ - _)%nat with (length x) by lia. apply take_app_length.
  - unfold cursor_at. cbn. split_and!; try lia.
    replace (Z.to_nat (pos + n)) with (Z.to_nat pos + length x)%nat by lia.
    rewrite <- drop_drop, Hdrop. apply drop_app_length.
Qed.

Lemma cursor_u32_app c x rest :
  cursor_at c (u32_to_le_bytes (Z.to_N x) ++ rest) → is_u32 x →
  ∃ c', cursor_u32 c = Ok (x, c') ∧ cursor_at c' rest.
Proof.
  intros Hc Hx. destruct (cursor_take_app _ _ _ 4 Hc) as (c' & Ht & Hc').
  { unfold u32_to_le_bytes. by rewrite length_le_bytes. }
  exists c'. unfold cursor_u32. rewrite Ht. cbn [result_bind]. split; [|done].
  unfold is_u32, U32_MAX, u32_to_le_bytes in *. rewrite le_value_bytes by (cbn; lia). do 2 f_equal. lia.
Qed.

Lemma cursor_u64_app c x rest :
  cursor_at c (u64_to_le_bytes (Z.to_N x) ++ rest) → is_u64 x →
  ∃ c', cursor_u64 c = Ok (x, c') ∧ cursor_at c' rest.
Proof.
  intros Hc Hx. destruct (cursor_take_app _ _ _ 8 Hc) as (c' & Ht & Hc').
  { unfold u64_to_le_bytes. by rewrite length_le_bytes. }
  exists c'. unfold cursor_u64. rewrite Ht. cbn [result_bind]. split; [|done].
  unfold is_u64, U64_MAX, u64_to_le_bytes in *. rewrite le_value_bytes by (cbn; lia). do 2 f_equal. lia.
Qed.

Section roundtrip.
Context `{!Aes256Gcm, !Aes256GcmLaws}.

(** One chunk as the container holds it. *)
Lemma seal_unit_framed l plain i u :
  layout_ok l → l.(sl_len_prefixed) = true → zlen plain = l.(sl_size) →
  0 <= i < l.(sl_total_chunks) → l.(sl_chunk_size) <= LINK_CHUNK_SIZE →
  seal_unit l (Some plain) i = Ok u →
  ∃ ct pt, u = u32_to_le_bytes (Z.to_N (zlen ct)) ++ ct ∧ is_u32 (zlen ct) ∧
    open_chunk l.(sl_key) (Z.to_N i) (Z.to_N l.(sl_total_chunks)) ct = Ok pt ∧
    drop (Z.to_nat (i * l.(sl_chunk_size))) plain
      = pt ++ drop (Z.to_nat ((i + 1) * l.(sl_chunk_size))) plain.
Proof.
  intros (Hcs & Hsz & Ht & _ & _) Hp Hplain Hi Hsmall. unfold seal_unit.
  pose proof (div_ceil_spec _ _ Hsz Hcs) as (D1 & D2 & _). rewrite <- Ht in *.
  cbn [read_at_full fmap option_fmap option_map]. case_bool; [done|]. zbool.
  destruct (seal_chunk _ _ _ _) as [ct|] eqn:E; [|done]. cbn [result_bind]. rewrite Hp. cbn [negb].
  intros [= <-]. exists ct. eexists. pose proof (length_seal_chunk _ _ _ _ _ E) as Hlen.
  unfold CHUNK_TAG_LEN in Hlen.
  set (cs := sl_chunk_size l) in *. set (want := unit_len l i - TAG - framing l) in *.
  assert (want = if i + 1 =? sl_total_chunks l then sl_size l - i * cs else cs) as Hwant
    by (unfold want, unit_len; fold cs; lia).
  assert (want <= cs) by (destruct (Z.eqb_spec (i + 1) (sl_total_chunks l)); nia).
  assert (is_u32 (zlen ct)) as Hct by (unfold is_u32, U32_MAX, LINK_CHUNK_SIZE in *; lia).
  split_and!; [by rewrite wrap_u32_small|done|by eapply open_seal_chunk|].
  fold cs want.
  destruct (Z.eqb_spec (i + 1) (sl_total_chunks l)) as [Hlast|Hmore].
  - rewrite take_ge by (rewrite length_drop, Hwant; nia).
    rewrite (drop_ge plain (Z.to_nat ((i + 1) * cs))) by nia. by rewrite app_nil_r.
  - rewrite Hwant. replace (Z.to_nat ((i + 1) * cs)) with (Z.to_nat (i * cs) + Z.to_nat cs)%nat by nia.
    by rewrite <- drop_drop, take_drop.
Qed.

Lemma decrypt_chunks_units l plain n i us c rest :
  layout_ok l → l.(sl_len_prefixed) = true → zlen plain = l.(sl_size) →
  l.(sl_chunk_size) <= LINK_CHUNK_SIZE → 0 <= i → i + Z.of_nat n = l.(sl_total_chunks) →
  seal_units n l (fun _ => Some plain) i = Ok us → cursor_at c (mjoin us ++ rest) →
  decrypt_chunks n l.(sl_key) l.(sl_total_chunks) i c
    = Ok (drop (Z.to_nat (i * l.(sl_chunk_size))) plain).
Proof.
  intros Hok Hp Hplain Hsmall. revert i us c. induction n as [|n IH]; intros i us c Hi Hn Hus Hc; cbn [seal_units decrypt_chunks] in Hus |- *.
  - destruct Hok as (Hcs & Hsz & Ht & _). pose proof (div_ceil_spec _ _ Hsz Hcs) as (D1 & _).
    rewrite <- Ht in D1. by rewrite drop_ge by nia.
  - destruct (seal_unit l (Some plain) i) as [u|] eqn:E; [|done].
    destruct (seal_units n l _ (i + 1)) as [vs|] eqn:Ev; [|done]. injection Hus as <-.
    destruct (seal_unit_framed l plain i u) as (ct & pt & -> & Hct & Hopen & Hdrop); try done; [lia|].
    rewrite mjoin_cons, <- !app_assoc in Hc.
    apply cursor_u32_app in Hc as (c1 & -> & Hc1); [|done]. cbn [result_bind].
    destruct (cursor_take_app _ _ _ (zlen ct) Hc1 eq_refl) as (c2 & -> & Hc2). cbn [result_bind].
    rewrite Hopen. cbn [result_ok context result_bind].
    rewrite (IH (i + 1) vs c2) by (lia || done). cbn [result_bind]. by rewrite Hdrop.
Qed.

Lemma total_chunks_small size :
  0 <= size <= U32_MAX * LINK_CHUNK_SIZE →
  total_chunks_for size LINK_CHUNK_SIZE = div_ceil size LINK_CHUNK_SIZE ∧
  0 <= div_ceil size LINK_CHUNK_SIZE <= U32_MAX.
Proof.
  intros Hsize. pose proof (div_ceil_spec size LINK_CHUNK_SIZE ltac:(lia) eq_refl) as (D1 & D2 & D3 & D4).
  assert (div_ceil size LINK_CHUNK_SIZE <= U32_MAX) as Hn.
  { destruct (decide (size = 0)) as [Hz|Hz]; [apply D4 in Hz as ->; unfold U32_MAX; lia|].
    specialize (D2 ltac:(lia)). unfold U32_MAX, LINK_CHUNK_SIZE in *. lia. }
  split; [|lia]. apply wrap_u32_small. unfold is_u32. lia.
Qed.

(** The header of a container, and the layout it heads. *)
Lemma link_layout_spec seal l :
  link_layout seal = Ok l → 0 <= seal.(ls_size) <= U32_MAX * LINK_CHUNK_SIZE →
  zlen (bytes_of seal.(ls_name)) <= 65536 →
  layout_ok l ∧ l.(sl_key) = seal.(ls_key) ∧ l.(sl_size) = seal.(ls_size) ∧
  l.(sl_chunk_size) = LINK_CHUNK_SIZE ∧ l.(sl_len_prefixed) = true ∧
  ∃ meta, is_u32 (zlen meta) ∧
    l.(sl_prefix) = MAGIC ++ u32_to_le_bytes (Z.to_N LINK_CHUNK_SIZE)
      ++ u64_to_le_bytes (Z.to_N seal.(ls_size)) ++ u32_to_le_bytes (Z.to_N (zlen meta)) ++ meta ∧
    seal_chunk seal.(ls_key) (Z.to_N META_INDEX) (Z.to_N l.(sl_total_chunks)) (bytes_of seal.(ls_name))
      = Ok meta.
Proof.
  unfold link_layout. intros Hl Hsize Hname. destruct (total_chunks_small _ Hsize) as [Htot Hn].
  destruct (seal_chunk _ _ _ _) as [meta|] eqn:Em; [|done]. cbn [result_bind result_ok context] in Hl.
  apply Ok_inj in Hl as <-. pose proof (length_seal_chunk _ _ _ _ _ Em) as Hmeta. unfold CHUNK_TAG_LEN in Hmeta.
  assert (is_u32 (zlen meta)) as Hu by (unfold is_u32, U32_MAX; lia).
  rewrite wrap_u32_small by done. split; [|split_and!; try done; exists meta; by split_and!].
  unfold layout_ok, new_layout, framing. cbn [sl_prefix sl_size sl_chunk_size sl_total_chunks sl_len_prefixed].
  fold (total_chunks_for (ls_size seal) LINK_CHUNK_SIZE). rewrite Htot.
  rewrite !length_app, (length_le_bytes 4), (length_le_bytes 8), (length_le_bytes 4).
  change (length MAGIC) with 8%nat. unfold TAG, U32_MAX, U64_MAX, LINK_CHUNK_SIZE, is_u32 in *.
  split_and!; try lia.
Qed.

Lemma link_opens seal plain blob
    (Hkey : encrypt_link seal plain = Ok blob) (Hplain : zlen plain = seal.(ls_size))
    (Hsize : seal.(ls_size) <= U32_MAX * LINK_CHUNK_SIZE)
    (Hname : utf8_valid (bytes_of seal.(ls_name)) = true)
    (Hshort : zlen (bytes_of seal.(ls_name)) <= 65536) :
  decrypt_link blob seal.(ls_key) = Ok (seal.(ls_name), plain).
Proof.
  unfold encrypt_link in Hkey. destruct (link_layout seal) as [l|] eqn:El; [|done]. cbn [result_bind] in Hkey.
  destruct (link_layout_spec _ _ El ltac:(lia) Hshort)
    as (Hok & Ek & Esz & Ecs & Ep & meta & Hmeta & Hpre & Em).
  pose proof (to_vec_length _ _ _ Hok Hkey) as Hblob. unfold to_vec in Hkey.
  destruct (seal_units _ l _ 0) as [us|] eqn:Eu; [|done]. injection Hkey as <-.
  assert (cursor_at (mkCursor (sl_prefix l ++ mjoin us) 0) (sl_prefix l ++ mjoin us)) as Hc.
  { unfold cursor_at. cbn [cu_buf cu_pos]. rewrite Hblob. unfold layout_len, wrap_u64, U64_MAX.
    pose proof (Z.mod_pos_bound (zlen (sl_prefix l) + sl_size l + sl_total_chunks l * (TAG + framing l))
      (2 ^ 64) eq_refl). split_and!; try done; lia. }
  unfold decrypt_link. rewrite Hpre in Hc at 2. rewrite <- !app_assoc in Hc.
  destruct (cursor_take_app _ MAGIC _ 8 Hc eq_refl) as (c1 & -> & C1). cbn [result_bind].
  rewrite bool_decide_true by done. cbn [negb].
  apply cursor_u32_app in C1 as (c2 & -> & C2); [|done]. cbn [result_bind].
  change (negb (0 <? LINK_CHUNK_SIZE)) with false. cbn match.
  apply cursor_u64_app in C2 as (c3 & -> & C3); [|unfold is_u64, U32_MAX, LINK_CHUNK_SIZE, U64_MAX in *; lia].
  cbn [result_bind]. apply cursor_u32_app in C3 as (c4 & -> & C4); [|done]. cbn [result_bind].
  destruct (cursor_take_app _ meta _ (zlen meta) C4 eq_refl) as (c5 & -> & C5). cbn [result_bind].
  destruct (total_chunks_small (ls_size seal) ltac:(lia)) as [-> Hn].
  assert (div_ceil (ls_size seal) LINK_CHUNK_SIZE = sl_total_chunks l) as Ht
    by (rewrite (proj1 (proj2 (proj2 Hok))); congruence). rewrite Ht in *.
  rewrite (open_seal_chunk _ _ _ _ _ Em). cbn [result_ok context result_bind].
  rewrite from_utf8_bytes_of by done. cbn [context result_bind]. rewrite <- Ek.
  rewrite (decrypt_chunks_units l plain _ 0 us c5 [])
    by (first [done | lia | by rewrite Esz | by rewrite Ecs | by rewrite app_nil_r]).
  cbn [result_bind]. rewrite drop_0. by rewrite Hplain, Z.eqb_refl.
Qed.

(** C17. A download page gets back what was linked: decoding the container of a file
    under its key gives the file's name and its bytes, for every file whose chunk
    count fits, the empty one included. *)
Theorem link_roundtrip seal plain blob
    (Hkey : encrypt_link seal plain = Ok blob) (Hplain : zlen plain = seal.(ls_size))
    (Hsize : seal.(ls_size) <= U32_MAX * LINK_CHUNK_SIZE)
    (Hname : utf8_valid (bytes_of seal.(ls_name)) = true)
    (Hshort : zlen (bytes_of seal.(ls_name)) <= 65536) :
  decrypt_link blob seal.(ls_key) = Ok (seal.(ls_name), plain).
Proof. by apply link_opens. Qed.

(** No nonce is used twice under a link's key: the sealed name and the chunks of one
    container are sealed under pairwise different nonces. *)
Theorem link_nonces_distinct seal l i
    (Hl : link_layout seal = Ok l) (Hsize : 0 <= seal.(ls_size) <= U32_MAX * LINK_CHUNK_SIZE)
    (Hi : 0 <= i < l.(sl_total_chunks)) :
  chunk_nonce (Z.to_N i) ≠ chunk_nonce (Z.to_N META_INDEX) ∧
  ∀ j, 0 <= j < l.(sl_total_chunks) → chunk_nonce (Z.to_N i) = chunk_nonce (Z.to_N j) → i = j.
Proof.
  assert (l.(sl_total_chunks) <= U32_MAX) as Hmax.
  { unfold link_layout in Hl. destruct (seal_chunk _ _ _ _); [|done]. injection Hl as <-. cbn.
    change (total_chunks_for (ls_size seal) LINK_CHUNK_SIZE <= U32_MAX).
    destruct (total_chunks_small _ Hsize) as [-> ?]. lia. }
  unfold META_INDEX, U32_MAX in *.
  split; [|intros j Hj]; intros ?%chunk_nonce_inj; lia.
Qed.
End roundtrip.
