(* ===== verification/UploadClient.v ===== *)
(** * The uploading client ([core/src/upload.rs], [upload] and [drive])

    Open a session, append from wherever the relay says it stands, commit; retry a
    little while, start over when the session is lost, hand back otherwise. Everything
    the client does not decide — the relay, the network between them, the file being
    read — is the world behind the class [Outside]; a request is a function of the
    world to an answer and the next one.

    What is left out: the progress ticks inside one request and its stall timer (to the
    client a stalled request is one that failed), and the request headers. *)
From S2P Require Import Prelude.
From S2P Require Import Text.
From S2P Require Import ChunkCipher.
From S2P Require Import SealedLayout.
Local Open Scope Z_scope.

Definition SEGMENT_BYTES : Z := 32 * 1024 * 1024.
Definition MAX_QUIET_RETRIES : Z := 4.

(** What the client reads of a response: its status, the headers that parse as a
    number, and the text, which can break off. *)
Record HttpResp := mkHttpResp {
  hr_status : Z;
  hr_offset : option Z;
  hr_ttl : option Z;
  hr_max_blob : option Z;
  hr_text : result string string }.

Definition is_success (status : Z) : bool := (200 <=? status) && (status <=? 299).
Definition is_server_error (status : Z) : bool := (500 <=? status) && (status <=? 599).

Record UploadSession := mkUploadSession { us_relay : string; us_id : string; us_length : Z }.
Record DepositMeta := mkDepositMeta {
  dm_encapped_key : bytes; dm_revoke_hash : bytes; dm_ttl : Z; dm_max : Z }.
Record Committed := mkCommitted { co_claim : string; co_ttl_secs : Z }.

Record TooLargeForRelay := mkTooLargeForRelay { tl_size : Z; tl_limit : option Z }.

Inductive UploadError :=
  | UploadTooLarge (e : TooLargeForRelay)
  | UploadBusy
  | LinksDisabled
  | Unavailable (why : string)
  | Fatal (why : string).

Inductive Step :=
  | Retry (why : string)
  | Restart
  | Stop (e : UploadError).

(** [granted_ttl] and [blob_limit] ([core/src/flow/offline.rs]). *)
Definition granted_ttl (resp : HttpResp) (asked : Z) : Z :=
  match resp.(hr_ttl) with Some granted => Z.min granted asked | None => asked end.
Definition blob_limit (resp : HttpResp) : option Z :=
  match resp.(hr_max_blob) with Some n => if 0 <? n then Some n else None | None => None end.

(** [refusal]. *)
Definition refusal (resp : HttpResp) (size : Z) : option Step :=
  let s := resp.(hr_status) in
  if s =? 413 then Some (Stop (UploadTooLarge (mkTooLargeForRelay size (blob_limit resp))))
  else if s =? 507 then Some (Stop UploadBusy)
  else if s =? 403 then Some (Stop LinksDisabled)
  else if s =? 404 then Some Restart
  else if (s =? 429) || is_server_error s then Some (Retry "relay returned an error")
  else None.

(** The closure [backoff] of [upload], in seconds. *)
Definition backoff (n : Z) : Z := Z.min (Z.shiftl 1 (Z.min n 5)) 30.

(** [str::trim_end_matches('/')]. *)
Fixpoint trim_slashes_rev (l : bytes) : bytes :=
  match l with
  | b :: l' => if decide (b = Byte.x2f) then trim_slashes_rev l' else l
  | [] => []
  end.
Definition trim_slashes (s : string) : string := string_of (reverse (trim_slashes_rev (reverse (bytes_of s)))).

(** What is outside the client. An append also says which local fault its body left
    parked, if its reading got that far. *)
Class Outside (W : Type) : Type := {
  net_supports : W → bool * W;
  net_open : Z → DepositMeta → W → result HttpResp string * W;
  net_status : string → W → result HttpResp string * W;
  net_append : string → Z → list bytes * option string → W →
    result HttpResp string * option string * W;
  net_commit : string → W → result HttpResp string * W;
  net_deposit : DepositMeta → list bytes * option string → W →
    result HttpResp string * option string * W;
  net_sleep : Z → W → W;
  net_source : W → Z → option bytes;
}.

(** The client's state: the world, the fault parked in the layout, and what its hooks
    were told, latest first. *)
Record Client (W : Type) := mkClient {
  cl_world : W;
  cl_fault : option string;
  cl_sessions : list (option UploadSession);
  cl_progress : list Z }.
Arguments mkClient {W}.
Arguments cl_world {W}. Arguments cl_fault {W}. Arguments cl_sessions {W}. Arguments cl_progress {W}.

Section client.
Context {W : Type} `{!Outside W} `{!Aes256Gcm}.
Context (l : SealedLayout) (meta : DepositMeta).

Definition with_world (w : W) (c : Client W) : Client W :=
  mkClient w c.(cl_fault) c.(cl_sessions) c.(cl_progress).
Definition note_session (s : option UploadSession) (c : Client W) : Client W :=
  mkClient c.(cl_world) c.(cl_fault) (s :: c.(cl_sessions)) c.(cl_progress).
Definition note_progress (n : Z) (c : Client W) : Client W :=
  mkClient c.(cl_world) c.(cl_fault) c.(cl_sessions) (n :: c.(cl_progress)).
(** A stream parks its fault, and [take_fault] collects it. *)
Definition park_fault (fault : option string) (c : Client W) : Client W :=
  mkClient c.(cl_world) (match fault with Some f => Some f | None => c.(cl_fault) end)
    c.(cl_sessions) c.(cl_progress).
Definition clear_fault (c : Client W) : Client W :=
  mkClient c.(cl_world) None c.(cl_sessions) c.(cl_progress).

(** [open]. *)
Definition open_session (c : Client W) : result string Step * Client W :=
  let '(r, w) := net_open (layout_len l) meta c.(cl_world) in
  let c := with_world w c in
  match r with
  | Err e => (Err (Retry e), c)
  | Ok resp =>
      if is_success resp.(hr_status) then
        match resp.(hr_text) with
        | Err e => (Err (Retry e), c)
        | Ok id => (Ok (str_trim id), c)
        end
      else
        (Err (match refusal resp l.(sl_size) with
              | Some Restart | None => Stop (Fatal "relay refused the upload")
              | Some step => step
              end), c)
  end.

Definition retry_unless_refused (resp : HttpResp) : Step :=
  match refusal resp l.(sl_size) with Some step => step | None => Retry "relay returned an error" end.

(** [status]. *)
Definition ask_status (s : UploadSession) (c : Client W) : result Z Step * Client W :=
  let '(r, w) := net_status s.(us_id) c.(cl_world) in
  let c := with_world w c in
  match r with
  | Err e => (Err (Retry e), c)
  | Ok resp =>
      if is_success resp.(hr_status) then
        match resp.(hr_offset) with
        | Some at_ => (Ok at_, c)
        | None => (Err (Retry "relay sent no upload offset"), c)
        end
      else (Err (retry_unless_refused resp), c)
  end.

(** The commit at the end of [drive]: [inr at_] goes on appending from there. *)
Definition send_commit (s : UploadSession) (progressed : bool) (c : Client W)
    : result Committed (Step * bool) + Z :=
  let r := (net_commit s.(us_id) c.(cl_world)).1 in
  match r with
  | Err e => inl (Err (Retry e, progressed))
  | Ok resp =>
      if is_success resp.(hr_status) then
        match resp.(hr_text) with
        | Err e => inl (Err (Retry e, progressed))
        | Ok claim => inl (Ok (mkCommitted (str_trim claim) (granted_ttl resp meta.(dm_ttl))))
        end
      else if resp.(hr_status) =? 409 then
        match resp.(hr_offset) with
        | Some new_at =>
            if new_at <? s.(us_length) then inr new_at
            else inl (Err (Retry "the relay would not commit the upload", progressed))
        | None => inl (Err (Retry "upload busy", progressed))
        end
      else inl (Err (retry_unless_refused resp, progressed))
  end.

(** The loop of [drive]: one request per turn. [None] is out of fuel. *)
Fixpoint drive_loop (fuel : nat) (s : UploadSession) (at_ : Z) (progressed : bool) (c : Client W)
    : option (result Committed (Step * bool) * Client W) :=
  match fuel with
  | O => None
  | S fuel =>
      if at_ <? s.(us_length) then
        let to := Z.min (wrap_u64 (at_ + SEGMENT_BYTES)) s.(us_length) in
        let body := stream l (net_source c.(cl_world)) at_ to in
        let '(sent, fault, w) := net_append s.(us_id) at_ body c.(cl_world) in
        let c := park_fault fault (with_world w c) in
        match sent with
        | Err e =>
            match c.(cl_fault) with
            | Some f => Some (Err (Stop (Fatal f), progressed), clear_fault c)
            | None => Some (Err (Retry e, progressed), c)
            end
        | Ok resp =>
            if is_success resp.(hr_status) || (resp.(hr_status) =? 409) then
              match resp.(hr_offset) with
              | Some new_at =>
                  if new_at =? at_
                  then Some (Err (Retry "the relay did not take the bytes", progressed), c)
                  else drive_loop fuel s new_at (progressed || (at_ <? new_at)) (note_progress new_at c)
              | None => Some (Err (Retry "upload busy", progressed), c)
              end
            else
              let further := match resp.(hr_offset) with Some new_at => at_ <? new_at | None => false end in
              let c := match resp.(hr_offset) with
                       | Some new_at => if further then note_progress new_at c else c
                       | None => c
                       end in
              Some (Err (retry_unless_refused resp, progressed || further), c)
        end
      else
        let w := (net_commit s.(us_id) c.(cl_world)).2 in
        match send_commit s progressed c with
        | inl r => Some (r, with_world w c)
        | inr new_at => drive_loop fuel s new_at progressed (with_world w c)
        end
  end.

(** [drive]. *)
Definition drive (fuel : nat) (s : UploadSession) (c : Client W)
    : option (result Committed (Step * bool) * Client W) :=
  match ask_status s c with
  | (Err e, c) => Some (Err (e, false), c)
  | (Ok at_, c) => drive_loop fuel s at_ false (note_progress at_ c)
  end.

(** The loop of [upload]. *)
Fixpoint upload_loop (fuel dfuel : nat) (relay : string) (session : option UploadSession)
    (quiet restarts : Z) (c : Client W) : option (result Committed UploadError * Client W) :=
  match fuel with
  | O => None
  | S fuel =>
      let give_up_or k why quiet c :=
        if MAX_QUIET_RETRIES <? quiet then Some (Err (Unavailable why), c)
        else k (with_world (net_sleep (backoff quiet) c.(cl_world)) c) in
      let go s c :=
        match drive dfuel s c with
        | None => None
        | Some (Ok done, c) => Some (Ok done, note_session None c)
        | Some (Err (Retry why, progressed), c) =>
            let quiet := (if progressed then 0 else quiet) + 1 in
            give_up_or (upload_loop fuel dfuel relay (Some s) quiet restarts) why quiet c
        | Some (Err (Restart, _), c) =>
            let restarts := restarts + 1 in
            let c := note_session None c in
            if 2 <? restarts then Some (Err (Unavailable "the relay keeps losing the upload"), c)
            else upload_loop fuel dfuel relay None quiet restarts c
        | Some (Err (Stop e, _), c) => Some (Err e, c)
        end in
      match session with
      | Some s => go s c
      | None =>
          match open_session c with
          | (Ok id, c) =>
              let s := mkUploadSession relay id (layout_len l) in
              go s (note_session (Some s) c)
          | (Err (Retry why), c) =>
              let quiet := quiet + 1 in
              give_up_or (upload_loop fuel dfuel relay None quiet restarts) why quiet c
          | (Err (Stop e), c) => Some (Err e, c)
          | (Err Restart, c) => None
          end
      end
  end.

(** [single_request]. *)
Definition single_request (c : Client W) : result Committed UploadError * Client W :=
  let body := stream l (net_source c.(cl_world)) 0 (layout_len l) in
  let '(sent, fault, w) := net_deposit meta body c.(cl_world) in
  let c := park_fault fault (with_world w c) in
  match sent with
  | Err e =>
      match c.(cl_fault) with
      | Some f => (Err (Fatal f), clear_fault c)
      | None => (Err (Unavailable e), c)
      end
  | Ok resp =>
      if is_success resp.(hr_status) then
        match resp.(hr_text) with
        | Err e => (Err (Unavailable e), c)
        | Ok claim =>
            (Ok (mkCommitted (str_trim claim) (granted_ttl resp meta.(dm_ttl))),
             note_progress (layout_len l) c)
        end
      else
        (Err (match refusal resp l.(sl_size) with
              | Some (Stop e) => e
              | Some (Retry why) => Unavailable why
              | Some Restart | None => Unavailable "relay returned an error"
              end), c)
  end.

(** [upload]. *)
Definition upload (fuel dfuel : nat) (relay : string) (session : option UploadSession) (w : W)
    : option (result Committed UploadError * Client W) :=
  let relay := trim_slashes relay in
  let '(supports, w) := net_supports w in
  let c := mkClient w None [] [] in
  if negb supports then Some (single_request c)
  else
    let session :=
      match session with
      | Some s => if bool_decide (s.(us_relay) = relay) && (s.(us_length) =? layout_len l)
                  then Some s else None
      | None => None
      end in
    upload_loop fuel dfuel relay session 0 0 c.
End client.
