(* ===== verification/UploadClientFacts.v ===== *)
(** * What the uploading client relies on and achieves

    [OutsideLaws] is the contract of a relay and a network the client can finish its
    work against: a session holds a beginning of the ciphertext and forgets nothing, an
    undisturbed request is answered as the protocol says, and only so many requests are
    disturbed. Against that contract the client's loops end, and end with a claim. *)
From S2P Require Import Prelude.
From S2P Require Import Text.
From S2P Require Import ChunkCipher.
From S2P Require Import SealedLayout.
From S2P Require Import UploadClient.
Local Open Scope Z_scope.

(** Where a session stands: open with so many bytes, or committed under a claim. *)
Inductive Sess := SOpen (n : Z) | SDone (claim : string).

(** An answer, or the lack of one, after which the client tries again. *)
Definition transient (r : result HttpResp string) : Prop :=
  match r with
  | Err _ => True
  | Ok resp =>
      (resp.(hr_status) = 429 ∨ (500 <= resp.(hr_status) <= 599 ∧ resp.(hr_status) ≠ 507)) ∨
      (resp.(hr_status) = 409 ∧ resp.(hr_offset) = None)
  end.

(** A relay that will not take the upload at all: no transient status. *)
Definition refused (r : result HttpResp string) : Prop :=
  ∃ resp, r = Ok resp ∧ is_success resp.(hr_status) = false ∧ resp.(hr_status) ≠ 429 ∧
    (is_server_error resp.(hr_status) = true → resp.(hr_status) = 507).

(** An answer 2xx. *)
Definition answered (r : result HttpResp string) (P : HttpResp → Prop) : Prop :=
  ∃ resp, r = Ok resp ∧ is_success resp.(hr_status) = true ∧ P resp.

Definition reached (whole : bytes) (st : Sess) : Z :=
  match st with SOpen n => n | SDone _ => zlen whole end.

Class OutsideLaws {W : Type} `{!Outside W} (plain whole : bytes) (meta : DepositMeta)
    (held : W → string → Sess → Prop) (ready : W → Prop) (calm : W → nat → Prop) : Prop := {
  (** The file does not change. *)
  law_source : ∀ w i, net_source w i = Some plain;
  law_held_range : ∀ w id n, held w id (SOpen n) → 0 <= n <= zlen whole;
  (** Waiting and asking for features disturb nothing. *)
  law_sleep : ∀ w n, (∀ id st, held w id st → held (net_sleep n w) id st) ∧
    (ready w → ready (net_sleep n w)) ∧ (∀ k, calm w k → calm (net_sleep n w) k);
  law_supports : ∀ w, (net_supports w).1 = true ∧
    (∀ id st, held w id st → held (net_supports w).2 id st) ∧
    (ready w → ready (net_supports w).2) ∧ (∀ k, calm w k → calm (net_supports w).2 k);
  (** A request is answered properly, or its answer is transient and one disturbance is
      used up. *)
  law_open : ∀ w k, ready w → calm w k →
    let '(r, w') := net_open (zlen whole) meta w in
    (answered r (fun resp => ∃ id, resp.(hr_text) = Ok id ∧ held w' (str_trim id) (SOpen 0)) ∧ calm w' k) ∨
    refused r ∨
    (transient r ∧ (∀ resp, r = Ok resp → resp.(hr_status) ≠ 409) ∧ ready w' ∧ ∃ j, k = S j ∧ calm w' j);
  law_status : ∀ w k id st, held w id st → calm w k →
    let '(r, w') := net_status id w in
    ∃ st', reached whole st <= reached whole st' ∧ held w' id st' ∧
      ((answered r (fun resp => resp.(hr_offset) = Some (reached whole st')) ∧ calm w' k) ∨
       (transient r ∧ ∃ j, k = S j ∧ calm w' j));
  law_append : ∀ w k id n pieces, held w id (SOpen n) → n < zlen whole → calm w k →
    pieces ≠ [] → mjoin pieces `prefix_of` drop (Z.to_nat n) whole →
    let '(r, f, w') := net_append id n (pieces, None) w in
    f = None ∧ ∃ n', n <= n' ∧ held w' id (SOpen n') ∧
      ((answered r (fun resp => resp.(hr_offset) = Some n') ∧ n' = n + zlen (mjoin pieces) ∧ calm w' k) ∨
       (transient r ∧ ∃ j, k = S j ∧ calm w' j));
  law_commit : ∀ w k id st, held w id st → reached whole st = zlen whole → calm w k →
    let '(r, w') := net_commit id w in
    ∃ st', reached whole st' = zlen whole ∧ held w' id st' ∧
      ((answered r (fun resp => ∃ c, resp.(hr_text) = Ok c ∧ str_trim c = c ∧ st' = SDone c) ∧ calm w' k) ∨
       (transient r ∧ ∃ j, k = S j ∧ calm w' j));
}.

Section client.
Context {W : Type} `{!Outside W} `{!Aes256Gcm, !Aes256GcmLaws}.
Context (l : SealedLayout) (meta : DepositMeta) (plain whole : bytes).
Context (held : W → string → Sess → Prop) (ready : W → Prop) (calm : W → nat → Prop).
Context {HL : OutsideLaws plain whole meta held ready calm}.
Context (Hok : layout_ok l) (Hvec : to_vec l (fun _ => Some plain) = Ok whole).
Context (Hfit : zlen whole + SEGMENT_BYTES <= U64_MAX).

Lemma transient_step resp :
  transient (Ok resp) → resp.(hr_status) ≠ 409 →
  is_success resp.(hr_status) = false ∧ ∃ why, refusal resp l.(sl_size) = Some (Retry why).
Proof.
  unfold transient, refusal, is_success, is_server_error. intros [Hs|[Hs _]] Hn; [|done].
  repeat match goal with |- context [?a =? ?b] => destruct (Z.eqb_spec a b) end; try lia; cbn [orb].
  - split; [|eauto]. destruct Hs as [->|[Hr _]]; [done|]. apply andb_false_iff. right. apply Z.leb_gt. lia.
  - destruct Hs as [Hs|[[H5 H6] _]]; [done|].
    rewrite (proj2 (Z.leb_le _ _) H5), (proj2 (Z.leb_le _ _) H6). cbn [andb]. split; [|eauto].
    apply andb_false_iff. right. apply Z.leb_gt. lia.
Qed.

Lemma layout_whole : layout_len l = zlen whole.
Proof. symmetry. by eapply to_vec_length. Qed.

(** The body of a segment is the ciphertext from where the relay stands. *)
Lemma segment_body (w : W) n :
  0 <= n < zlen whole →
  let to := Z.min (wrap_u64 (n + SEGMENT_BYTES)) (zlen whole) in
  ∃ pieces, stream l (net_source w) n to = (pieces, None) ∧ pieces ≠ [] ∧
    mjoin pieces `prefix_of` drop (Z.to_nat n) whole ∧ n < n + zlen (mjoin pieces) <= zlen whole.
Proof.
  intros Hn. cbn zeta. rewrite wrap_u64_small by (unfold is_u64, SEGMENT_BYTES in *; lia).
  set (to := Z.min _ _). assert (n < to <= zlen whole) as Hto by (unfold to, SEGMENT_BYTES; lia).
  destruct (layout_ranges_ok l plain whole (net_source w) n to Hok Hvec) as (Hlen & _ & Hall & Hnone);
    [intros i; rewrite law_source; exact (reflexivity plain)|lia|].
  destruct (stream l (net_source w) n to) as [pieces fault]. cbn [fst snd] in *.
  specialize (Hnone (law_source w)). subst fault. specialize (Hall eq_refl).
  rewrite <- Hlen in Hall. rewrite Z.min_l in Hall by lia.
  assert (zlen (mjoin pieces) = to - n) as Hz by (rewrite Hall, length_slice by lia; lia).
  exists pieces. split_and!; try lia; [done| |].
  - intros ->. cbn in Hz. lia.
  - rewrite Hall. apply prefix_take.
Qed.

(** How a turn of the client ends: with the claim of a committed session, or with a
    retry that some disturbance is to blame for. *)
Definition turn_ends (id : string) (k : nat) (r : result Committed (Step * bool)) (c c' : Client W) : Prop :=
  c'.(cl_fault) = None ∧ c'.(cl_sessions) = c.(cl_sessions) ∧
  ∃ st, held c'.(cl_world) id st ∧
    ((∃ done, r = Ok done ∧ st = SDone done.(co_claim) ∧ calm c'.(cl_world) k) ∨
     (∃ why p j, r = Err (Retry why, p) ∧ k = S j ∧ calm c'.(cl_world) j)).

Lemma turn_ends_same id k r (c1 c2 c' : Client W) :
  cl_sessions c1 = cl_sessions c2 → turn_ends id k r c1 c' → turn_ends id k r c2 c'.
Proof. intros Hs (H1 & H2 & H3). by rewrite Hs in H2. Qed.

Lemma turn_retry id k j st why p (c c' : Client W) :
  c'.(cl_fault) = None → c'.(cl_sessions) = c.(cl_sessions) → held c'.(cl_world) id st →
  k = S j → calm c'.(cl_world) j → turn_ends id k (Err (Retry why, p)) c c'.
Proof. intros Hf Hs Hh Hk Hc. split; [done|]. split; [done|]. exists st. split; [done|]. right. by exists why, p, j. Qed.

Lemma transient_cases r :
  transient r →
  match r with
  | Err _ => True
  | Ok resp =>
      (is_success resp.(hr_status) || (resp.(hr_status) =? 409)) = false ∧
        (∃ why, retry_unless_refused l resp = Retry why) ∨
      is_success resp.(hr_status) = false ∧ resp.(hr_status) = 409 ∧ resp.(hr_offset) = None
  end.
Proof.
  destruct r as [resp|]; [|done]. intros Ht. destruct (decide (resp.(hr_status) = 409)) as [H4|H4].
  - right. rewrite H4. split; [done|]. split; [done|]. cbn in Ht. rewrite H4 in Ht. destruct Ht as [[?|?]|[_ ?]]; [lia..|done].
  - left. destruct (transient_step resp Ht H4) as [-> [why Hw]].
    split; [by apply Z.eqb_neq|]. unfold retry_unless_refused. rewrite Hw. eauto.
Qed.

(** The commit ends the turn. *)
Lemma commit_turn s st progressed (c : Client W) k :
  held c.(cl_world) s.(us_id) st → reached whole st = zlen whole → calm c.(cl_world) k → c.(cl_fault) = None →
  ∃ r, send_commit l meta s progressed c = inl r ∧
    turn_ends s.(us_id) k r c (with_world (net_commit s.(us_id) c.(cl_world)).2 c).
Proof.
  intros Hh Hr Hc Hf. pose proof (law_commit _ _ _ _ Hh Hr Hc) as Hl. unfold send_commit.
  destruct (net_commit s.(us_id) c.(cl_world)) as [r w]. cbn [fst snd].
  destruct Hl as (st' & Hr' & Hh' & [[(resp & -> & Hs & cl & Ht & Htrim & ->) Hc']|[Ht (j & -> & Hc')]]).
  - rewrite Hs, Ht. eexists. split; [done|]. split; [done|]. split; [done|]. eexists. split; [done|].
    left. eexists. split; [done|]. cbn. by rewrite Htrim.
  - pose proof (transient_cases r Ht) as Hcase.
    destruct r as [resp|e].
    + destruct Hcase as [[Hn [why Hw]]|(Hn & H4 & Ho)].
      * apply orb_false_iff in Hn as [-> ->]. rewrite Hw. eexists. split; [done|].
        by eapply turn_retry.
      * rewrite Hn, H4, Ho. eexists. split; [done|]. by eapply turn_retry.
    + eexists. split; [done|]. by eapply turn_retry.
Qed.

(** The loop of [drive] ends, with one request per turn and a turn per segment. *)
Lemma drive_loop_ends fuel s st progressed (c : Client W) k :
  s.(us_length) = zlen whole → held c.(cl_world) s.(us_id) st → calm c.(cl_world) k →
  c.(cl_fault) = None → (Z.to_nat (zlen whole - reached whole st) < fuel)%nat →
  ∃ r c', drive_loop l meta fuel s (reached whole st) progressed c = Some (r, c') ∧
    turn_ends s.(us_id) k r c c'.
Proof.
  intros Hlen. revert st progressed c k. induction fuel as [|fuel IH]; intros st progressed c k Hh Hc Hf Hfuel; [lia|].
  cbn [drive_loop]. rewrite Hlen.
  destruct (Z.ltb_spec (reached whole st) (zlen whole)) as [Hlt|Hge].
  - destruct st as [n|cl]; [|cbn in Hlt; lia]. cbn [reached] in *.
    pose proof (law_held_range _ _ _ Hh) as Hr.
    destruct (segment_body c.(cl_world) n ltac:(lia)) as (pieces & -> & Hne & Hpre & Hsz).
    pose proof (law_append _ _ _ _ _ Hh Hlt Hc Hne Hpre) as Hl.
    destruct (net_append (us_id s) n (pieces, None) (cl_world c)) as [[r f] w].
    destruct Hl as (-> & n' & Hn' & Hh' & [[(resp & -> & Hs & Ho) [-> Hc']]|[Ht (j & -> & Hc')]]).
    + rewrite Hs, Ho. cbn [orb]. rewrite (proj2 (Z.eqb_neq _ _)) by lia.
      destruct (IH (SOpen (n + zlen (mjoin pieces))) (progressed || (n <? n + zlen (mjoin pieces)))
        (note_progress (n + zlen (mjoin pieces)) (park_fault None (with_world w c))) k)
        as (r & c' & Hd & Hend); [done..|cbn [reached]; lia|]. cbn [reached] in Hd. rewrite Hd.
      exists r, c'. split; [done|]. by eapply turn_ends_same, Hend.
    + pose proof (transient_cases r Ht) as Hcase. destruct r as [resp|e].
      * destruct Hcase as [[Hn [why Hw]]|(Hn & H4 & Ho)].
        -- rewrite Hn, Hw. eexists _, _. split; [done|].
           destruct (hr_offset resp) as [a|]; [case_bool|]; by eapply turn_retry.
        -- rewrite Hn, H4, Ho. eexists _, _. split; [done|]. by eapply turn_retry.
      * cbn [park_fault with_world cl_fault]. rewrite Hf. eexists _, _. split; [done|]. by eapply turn_retry.
  - assert (reached whole st = zlen whole) as Hall.
    { destruct st as [n|]; [|done]. cbn in *. pose proof (law_held_range _ _ _ Hh). lia. }
    destruct (commit_turn s st progressed c k Hh Hall Hc Hf) as (r & -> & Hend). eauto.
Qed.

Lemma drive_ends fuel s st (c : Client W) k :
  s.(us_length) = zlen whole → held c.(cl_world) s.(us_id) st → calm c.(cl_world) k →
  c.(cl_fault) = None → (Z.to_nat (zlen whole) < fuel)%nat →
  ∃ r c', drive l meta fuel s c = Some (r, c') ∧ turn_ends s.(us_id) k r c c'.
Proof.
  intros Hlen Hh Hc Hf Hfuel. pose proof (law_status _ _ _ _ Hh Hc) as Hl. unfold drive, ask_status.
  destruct (net_status (us_id s) (cl_world c)) as [r w].
  destruct Hl as (st' & Hst & Hh' & [[(resp & -> & Hs & Ho) Hc']|[Ht (j & -> & Hc')]]).
  - rewrite Hs, Ho. assert (0 <= reached whole st') as Hpos.
    { destruct st' as [n|]; cbn; [|lia]. by apply law_held_range in Hh' as [? _]. }
    destruct (drive_loop_ends fuel s st' false (note_progress (reached whole st') (with_world w c)) k)
      as (r & c' & -> & Hend); [done..|lia|].
    eexists _, _. split; [done|]. by eapply turn_ends_same, Hend.
  - pose proof (transient_cases r Ht) as Hcase. destruct r as [resp|e].
    + destruct Hcase as [[Hn [why Hw]]|(Hn & H4 & Ho)].
      * apply orb_false_iff in Hn as [-> _]. rewrite Hw. eexists _, _. split; [done|]. by eapply turn_retry.
      * rewrite Hn. unfold retry_unless_refused, refusal. rewrite H4. eexists _, _. split; [done|]. by eapply turn_retry.
    + eexists _, _. split; [done|]. by eapply turn_retry.
Qed.

(** Why a relay that will not take the upload ends it: an error that is final. *)
Lemma refused_final (r : result HttpResp string) :
  refused r →
  ∃ resp e, r = Ok resp ∧ is_success resp.(hr_status) = false ∧
    (match refusal resp l.(sl_size) with
     | Some Restart | None => Stop (Fatal "relay refused the upload")
     | Some step => step
     end) = Stop e ∧ ∀ why, e ≠ Unavailable why.
Proof.
  intros (resp & -> & Hs & H4 & H5). exists resp. unfold refusal.
  destruct (hr_status resp =? 413); [by eexists; split_and!|].
  destruct (Z.eqb_spec (hr_status resp) 507); [by eexists; split_and!|].
  destruct (hr_status resp =? 403); [by eexists; split_and!|].
  destruct (hr_status resp =? 404); [by eexists; split_and!|].
  rewrite (proj2 (Z.eqb_neq _ _) H4). destruct (is_server_error (hr_status resp)); [by specialize (H5 eq_refl)|].
  by eexists; split_and!.
Qed.

(** What a caller hands [upload] to resume, or nothing. *)
Definition session_good (session : option UploadSession) (w : W) : Prop :=
  match session with
  | Some s => s.(us_length) = zlen whole ∧ ∃ st, held w s.(us_id) st
  | None => ready w
  end.

Definition upload_ends (session : option UploadSession) (r : result Committed UploadError)
    (c' : Client W) : Prop :=
  (∃ done id, r = Ok done ∧ held c'.(cl_world) id (SDone done.(co_claim)) ∧
     head c'.(cl_sessions) = Some None) ∨
  (session = None ∧ ∃ e, r = Err e ∧ ∀ why, e ≠ Unavailable why).

Lemma after_pause session quiet (c : Client W) j :
  session_good session c.(cl_world) → calm c.(cl_world) j → c.(cl_fault) = None →
  let c' := with_world (net_sleep (backoff quiet) c.(cl_world)) c in
  session_good session c'.(cl_world) ∧ calm c'.(cl_world) j ∧ c'.(cl_fault) = None.
Proof.
  intros Hg Hc Hf. cbn. destruct (law_sleep c.(cl_world) (backoff quiet)) as (H1 & H2 & H3).
  split_and!; [|by apply H3|done]. destruct session as [s|]; cbn in *; [|by apply H2].
  destruct Hg as (Hl & st & Hh). split; [done|]. exists st. by apply H1.
Qed.

(** How opening a session ends. *)
Lemma open_turn (c : Client W) k :
  ready c.(cl_world) → calm c.(cl_world) k →
  ∃ w, (∃ id, open_session l meta c = (Ok id, with_world w c) ∧ held w id (SOpen 0) ∧ calm w k) ∨
       (∃ e, open_session l meta c = (Err (Stop e), with_world w c) ∧ ∀ why, e ≠ Unavailable why) ∨
       (∃ why j, open_session l meta c = (Err (Retry why), with_world w c) ∧ ready w ∧
          k = S j ∧ calm w j).
Proof.
  intros Hg Hc. pose proof (law_open _ _ Hg Hc) as Hl. unfold open_session. rewrite layout_whole.
  destruct (net_open (zlen whole) meta (cl_world c)) as [r w]. exists w.
  destruct Hl as [[(resp & -> & Hs & id & Ht & Hh) Hc']|[Href|(Ht & H4 & Hg' & j & -> & Hc')]].
  - left. exists (str_trim id). by rewrite Hs, Ht.
  - right. left. apply refused_final in Href as (resp & e & -> & -> & -> & He). eauto.
  - right. right. destruct r as [resp|e]; [|by exists e, j].
    destruct (transient_step resp Ht (H4 resp eq_refl)) as [-> [why ->]]. by exists why, j.
Qed.

Lemma upload_loop_ends fuel dfuel relay session quiet restarts (c : Client W) k :
  session_good session c.(cl_world) → calm c.(cl_world) k → c.(cl_fault) = None →
  0 <= quiet → quiet + Z.of_nat k <= MAX_QUIET_RETRIES →
  (k < fuel)%nat → (Z.to_nat (zlen whole) < dfuel)%nat →
  ∃ r c', upload_loop l meta fuel dfuel relay session quiet restarts c = Some (r, c') ∧
    upload_ends session r c'.
Proof.
  intros Hg Hc Hf Hq Hk Hfuel Hdf.
  revert session quiet restarts c k Hg Hc Hf Hq Hk Hfuel.
  induction fuel as [|fuel IH]; intros session quiet restarts c k Hg Hc Hf Hq Hk Hfuel; [lia|].
  assert (∀ s c, s.(us_length) = zlen whole → (∃ st, held c.(cl_world) s.(us_id) st) →
    calm c.(cl_world) k → c.(cl_fault) = None → ∃ r c',
    match drive l meta dfuel s c with
    | None => None
    | Some (Ok done, c) => Some (Ok done, note_session None c)
    | Some (Err (Retry why, progressed), c) =>
        let quiet := (if progressed then 0 else quiet) + 1 in
        if MAX_QUIET_RETRIES <? quiet then Some (Err (Unavailable why), c)
        else upload_loop l meta fuel dfuel relay (Some s) quiet restarts
               (with_world (net_sleep (backoff quiet) c.(cl_world)) c)
    | Some (Err (Restart, _), c) =>
        let restarts := restarts + 1 in
        let c := note_session None c in
        if 2 <? restarts then Some (Err (Unavailable "the relay keeps losing the upload"), c)
        else upload_loop l meta fuel dfuel relay None quiet restarts c
    | Some (Err (Stop e, _), c) => Some (Err e, c)
    end = Some (r, c') ∧ upload_ends (Some s) r c') as Hgo.
  { clear c Hg Hc Hf. intros s c Hlen [st Hh] Hc Hf.
    destruct (drive_ends dfuel s st c k Hlen Hh Hc Hf Hdf) as (r & c' & -> & Hf' & _ & st' & Hh' & Hend).
    destruct Hend as [(done & -> & -> & Hc')|(why & p & j & -> & -> & Hc')].
    - eexists _, _. split; [done|]. left. exists done, (us_id s). done.
    - cbn zeta. set (q := (if p then 0 else quiet) + 1).
      assert (0 <= q ∧ q + Z.of_nat j <= MAX_QUIET_RETRIES) as [Hq0 Hqj] by (unfold q; destruct p; lia).
      rewrite (proj2 (Z.ltb_ge _ _)) by lia.
      assert (session_good (Some s) c'.(cl_world)) as Hg by (split; eauto).
      destruct (after_pause (Some s) q c' j Hg Hc' Hf') as (Hg2 & Hc2 & Hf2).
      apply (IH _ _ _ _ j); done || lia. }
  cbn [upload_loop]. destruct session as [s|].
  { destruct Hg as [Hlen Hst]. exact (Hgo s c Hlen Hst Hc Hf). }
  destruct (open_turn c k Hg Hc) as (w & [(id & -> & Hh & Hc')|[(e & -> & He)|(why & j & -> & Hg' & -> & Hc')]]).
  - set (s := mkUploadSession relay id (layout_len l)).
    destruct (Hgo s (note_session (Some s) (with_world w c))) as (r & c' & Hd & Hend);
      [apply layout_whole|eauto|done|done|].
    exists r, c'. split; [exact Hd|]. destruct Hend as [Hend|[? _]]; [by left|done].
  - eexists _, _. split; [done|]. right. eauto.
  - cbn zeta. rewrite (proj2 (Z.ltb_ge _ _)) by lia.
    destruct (after_pause None (quiet + 1) (with_world w c) j Hg' Hc' Hf) as (Hg2 & Hc2 & Hf2).
    apply (IH _ _ _ _ j); done || lia.
Qed.

(** Against such a world an upload ends, within as many turns as there can be
    disturbances: with a claim, unless the relay refuses to open a session. *)
Lemma upload_completes relay session w k :
  session_good session w → calm w k → Z.of_nat k <= MAX_QUIET_RETRIES →
  (∀ s, session = Some s → s.(us_relay) = trim_slashes relay) →
  ∃ r c', upload l meta (S k) (S (Z.to_nat (zlen whole))) relay session w = Some (r, c') ∧
    upload_ends session r c'.
Proof.
  intros Hg Hc Hk Hs. destruct (law_supports w) as (H1 & H2 & H3 & H4). unfold upload.
  destruct (net_supports w) as [b w']. cbn in H1, H2, H3, H4. subst b. cbn [negb].
  assert ((match session with
    | Some s => if bool_decide (s.(us_relay) = trim_slashes relay) && (s.(us_length) =? layout_len l)
                then Some s else None
    | None => None end) = session) as ->.
  { destruct session as [s|]; [|done]. rewrite bool_decide_true by auto.
    destruct Hg as [Hl _]. by rewrite layout_whole, Hl, Z.eqb_refl. }
  apply (upload_loop_ends _ _ _ _ 0 0 (mkClient w' None [] []) k); cbn; try done; try lia; [|by apply H4].
  destruct session as [s|]; cbn in *; [|by apply H3]. destruct Hg as (Hl & st & Hh). split; [done|].
  exists st. by apply H2.
Qed.
End client.
