(* ===== verification/UploadNet.v ===== *)
(** * The client's uploads, over the relay's handlers

    The world of an uploading client, made of the relay model: its mailbox, other
    people's traffic between the client's requests, and a network that may lose a
    request, lose its answer, break its body off, or answer in the relay's place. Each
    request consumes one [Event], which fixes when it arrives, what happened before and
    what becomes of it.

    Traffic respects what random tokens guarantee: it neither draws nor names a token
    of this client ([mine]); and the reapers' clocks have not passed the client's
    deadlines. Operations that would are not part of the run. *)
From S2P Require Import Prelude.
From S2P Require Import Text.
From S2P Require Import ChunkCipher.
From S2P Require Import Limits.
From S2P Require Import Store.
From S2P Require Import Mailbox.
From S2P Require Import UploadHttp.
From S2P Require Import MailboxFacts.
From S2P Require Import Relay.
From S2P Require Import RelayRuns.
From S2P Require Import UploadRuns.
From S2P Require Import SealedLayout.
From S2P Require Import UploadClient.
From S2P Require Import UploadClientFacts.
Local Open Scope Z_scope.

(** What becomes of a request. *)
Inductive Fate :=
  | Fine                                             (* answered *)
  | Lost                                             (* never arrives *)
  | Unanswered                                       (* arrives, its answer does not *)
  | Turned (code : Z)                                (* a proxy or the rate limit answers *)
  | Draining                                         (* the previous attempt still holds the upload *)
  | Broken (events : list BodyEvent) (cancelled : bool).  (* its body breaks off *)

Record Event := mkEvent { ev_traffic : list Op; ev_now : Z; ev_t_end : Z; ev_fate : Fate }.

Record World := mkWorld { wd_mailbox : Mailbox; wd_turn : nat }.

Section net.
Context `{!Blake3Hash} (app : App) (plain : bytes).
Context (tok : nat → Token) (mine : Token → bool) (events : nat → Event).

(** Whether an operation draws or names a token of the client. *)
Definition names_mine (op : Op) : bool :=
  match op with
  | ODeposit c _ _ _ | ODropped c _ _ | OFetch _ c _ | OAck c _ | ORevoke c _ => mine c
  | OOpen id _ _ | OAppend id _ _ _ _ _ | OAbort id => mine id
  | OCommit id c _ => mine id || mine c
  | OReap _ | OUploadReap _ | OSweep _ _ => false
  end.

(** Whether a reaper leaves the client's rows. *)
Definition timely (op : Op) (m : Mailbox) : bool :=
  match op with
  | OReap now =>
      bool_decide (map_Forall (fun c e => mine c = true → as_i64 now < e.(en_expires_at)) m.(mb_entries))
  | OUploadReap now =>
      bool_decide (map_Forall (fun id u => mine id = true → as_i64 now < u.(up_idle_expires)) m.(mb_uploads))
  | _ => true
  end.

Definition traffic_step (m : Mailbox) (op : Op) : Mailbox :=
  if op_okb op m && negb (names_mine op) && timely op m then step app op m else m.
Definition traffic (ops : list Op) (m : Mailbox) : Mailbox := foldl traffic_step m ops.

(** The event of the next request, the mailbox it finds, and the world after it. *)
Definition arrival (w : World) : Event * Mailbox :=
  let ev := events w.(wd_turn) in (ev, traffic ev.(ev_traffic) w.(wd_mailbox)).
Definition next (m : Mailbox) (w : World) : World := mkWorld m (S w.(wd_turn)).

Definition to_resp (r : Response) : HttpResp :=
  mkHttpResp r.(status) r.(offset_header) r.(granted_ttl_header) r.(max_blob_header) (Ok r.(body)).

Definition transient_code (code : Z) : bool :=
  (code =? 429) || (is_server_error code && negb (code =? 507)).

(** A request without a body: [handle] is what the relay does with it; [drains] is
    whether the session's guard stands in its way. *)
Definition exchange (drains : bool) (handle : Event → Mailbox → Response * Mailbox) (w : World)
    : result HttpResp string * World :=
  let '(ev, m) := arrival w in
  match ev.(ev_fate) with
  | Fine => let '(r, m) := handle ev m in (Ok (to_resp r), next m w)
  | Unanswered => (Err "connection lost"%string, next (handle ev m).2 w)
  | Turned code =>
      if transient_code code then (Ok (mkHttpResp code None None None (Ok ""%string)), next m w)
      else (Err "connection lost"%string, next m w)
  | Draining => if drains then (Ok (to_resp busy), next m w) else (Err "connection lost"%string, next m w)
  | Lost | Broken _ _ => (Err "connection lost"%string, next m w)
  end.

Definition open_request (len : Z) (meta : DepositMeta) : DepositRequest :=
  mkDepositRequest (Some meta.(dm_encapped_key)) (Some meta.(dm_revoke_hash)) (Some len)
    meta.(dm_ttl) meta.(dm_max).

Definition body_of (pieces : list bytes) (fault : option string) : list BodyEvent :=
  (Chunk <$> pieces) ++ match fault with Some _ => [BodyError] | None => [] end.

(** An append: a body that breaks off reaches the relay as a beginning of what was
    sent, and its answer does not come back. *)
Definition exchange_append (id : string) (offset : Z) (body : list bytes * option string) (w : World)
    : result HttpResp string * option string * World :=
  let '(pieces, fault) := body in
  let '(ev, m) := arrival w in
  let handle evs cancelled :=
    append_handler app id (Some offset) evs cancelled ev.(ev_now) ev.(ev_t_end) m in
  match ev.(ev_fate) with
  | Fine =>
      let '(r, m) := handle (body_of pieces fault) false in
      match fault, r with
      | None, Some r => (Ok (to_resp r), None, next m w)
      | _, _ => (Err "connection lost"%string, fault, next m w)
      end
  | Unanswered => (Err "connection lost"%string, fault, next (handle (body_of pieces fault) false).2 w)
  | Broken evs cancelled =>
      if bool_decide (body_bytes evs `prefix_of` mjoin pieces)
      then (Err "connection lost"%string, None, next (handle evs cancelled).2 w)
      else (Err "connection lost"%string, None, next m w)
  | Turned code =>
      if transient_code code then (Ok (mkHttpResp code None None None (Ok ""%string)), None, next m w)
      else (Err "connection lost"%string, None, next m w)
  | Draining => (Ok (to_resp busy), None, next m w)
  | Lost => (Err "connection lost"%string, None, next m w)
  end.

Definition exchange_deposit (meta : DepositMeta) (body : list bytes * option string) (w : World)
    : result HttpResp string * option string * World :=
  let '(pieces, fault) := body in
  let '(r, w') := exchange false (fun ev m =>
    deposit_handler app (tok w.(wd_turn)) (open_request 0 meta) (body_of pieces fault) ev.(ev_t_end) m) w in
  match fault with None => (r, None, w') | Some _ => (Err "connection lost"%string, fault, w') end.

#[export] Instance relay_outside : Outside World := {
  net_supports w := (app.(app_uploads_enabled), w);
  net_open len meta w :=
    exchange false (fun ev m =>
      open_handler app (tok w.(wd_turn)) (open_request len meta) ev.(ev_now) m) w;
  net_status id w := exchange false (fun ev m => (status_handler app id ev.(ev_now) m, m)) w;
  net_append := exchange_append;
  net_commit id w :=
    exchange true (fun ev m => commit_handler app id (tok w.(wd_turn)) ev.(ev_now) m) w;
  net_deposit := exchange_deposit;
  net_sleep _ w := w;
  net_source _ _ := Some plain;
}.
End net.

(** * The relay's handlers keep the client's contract

    The world of [UploadNet.v] meets [OutsideLaws], so the client's theorem holds of
    it: an upload ends with a deposit of the whole ciphertext. *)
Local Open Scope Z_scope.

(** ** One request on the mailbox *)

Section handlers.
Context `{!Blake3Hash} (app : App) (ct : bytes) (meta : DepositMeta) (lo hi : Z).

(** An open session holding [n] bytes of the ciphertext, its deadline after [hi]. *)
Definition open_at (id : Token) (n : Z) (m : Mailbox) : Prop :=
  ∃ u f, m.(mb_uploads) !! id = Some u ∧ upload_open u = true ∧ u.(up_length) = zlen ct ∧
    u.(up_encapped_key) = meta.(dm_encapped_key) ∧ u.(up_ttl) = Z.min meta.(dm_ttl) I64_MAX ∧
    hi <= u.(up_idle_expires) ∧
    m.(mb_files) !! upload_path id = Some f ∧ f.(f_bytes) `prefix_of` ct ∧ zlen f.(f_bytes) = n.

(** A committed one, and the deposit it became. *)
Definition done_at (id c : Token) (m : Mailbox) : Prop :=
  ∃ u e f g, m.(mb_uploads) !! id = Some u ∧ u.(up_claim) = Some c ∧ u.(up_granted) = Some g ∧
    0 <= g ∧ u.(up_length) = zlen ct ∧
    m.(mb_entries) !! c = Some e ∧ e.(en_encapped_key) = meta.(dm_encapped_key) ∧
    e.(en_downloads) < e.(en_max_downloads) ∧
    lo + Z.min meta.(dm_ttl) app.(app_limits).(max_ttl_secs) <= e.(en_expires_at) ∧
    m.(mb_files) !! blob_path c = Some f ∧ f.(f_bytes) = ct.

Definition sess_at (id : Token) (st : Sess) (m : Mailbox) : Prop :=
  match st with SOpen n => open_at id n m | SDone c => done_at id c m end.

Lemma open_at_uploading id n m : open_at id n m → uploading id ct m.
Proof. intros (u & f & ? & ? & ? & _ & _ & _ & ? & ? & _). by exists u, f. Qed.

Lemma open_at_range id n m : open_at id n m → 0 <= n <= zlen ct.
Proof. intros (u & f & _ & _ & _ & _ & _ & _ & _ & Hp & <-). apply prefix_length in Hp. lia. Qed.

(** What [upload_info] reports of either. *)
Lemma open_at_info id n now b m :
  open_at id n m → 0 <= now < hi →
  upload_info id now (with_busy b m) = Ok (mkUploadInfo (zlen ct) n None).
Proof.
  intros (u & f & Hu & Ho & Hl & _ & _ & Hx & Hf & Hp & <-) Hnow. unfold upload_info. cbn. rewrite Hu.
  unfold upload_open in Ho. destruct (up_claim u); [by rewrite bool_decide_true in Ho by eauto|].
  rewrite i64_as_u64_small by lia. rewrite (proj2 (Z.leb_gt _ _)) by lia. rewrite Hf, Hl.
  apply prefix_length in Hp. f_equal. f_equal; lia.
Qed.

Lemma done_at_info id c now b m :
  done_at id c m →
  ∃ g, upload_info id now (with_busy b m) = Ok (mkUploadInfo (zlen ct) (zlen ct) (Some (c, g))).
Proof.
  intros (u & e & f & g & Hu & Hc & Hg & Hg0 & Hl & _). exists g. unfold upload_info. cbn.
  rewrite Hu, Hc, Hg, Hl. cbn. rewrite (Z.max_r 0 g) by done. rewrite Z.max_r by lia. done.
Qed.

Lemma with_busy_same m : with_busy m.(mb_uploads_busy) m = m.
Proof. by destruct m. Qed.

Context (Hen : app.(app_uploads_enabled) = true).

(** [status_handler]. *)
Lemma status_fine id st now m :
  sess_at id st m → 0 <= now < hi →
  (status_handler app id now m).(status) = NO_CONTENT ∧
  (status_handler app id now m).(offset_header) = Some (reached ct st).
Proof.
  intros Hs Hnow. unfold status_handler. rewrite Hen. cbn [negb]. rewrite <- (with_busy_same m).
  destruct st as [n|c]; cbn in Hs.
  - by rewrite (open_at_info _ _ _ _ _ Hs Hnow).
  - destruct (done_at_info _ _ now m.(mb_uploads_busy) _ Hs) as [g ->]. done.
Qed.

(** [open_handler]: a session, or a refusal that trying again does not change. *)
Lemma open_fine id now m :
  0 <= now → now + UPLOAD_IDLE_SECS <= I64_MAX → hi <= now + UPLOAD_IDLE_SECS → zlen ct <= I64_MAX →
  m.(mb_uploads) !! id = None →
  let '(r, m') := open_handler app id (open_request (zlen ct) meta) now m in
  (r.(status) = CREATED ∧ r.(body) = id ∧ open_at id 0 m') ∨
  r.(status) = FORBIDDEN ∨ r.(status) = PAYLOAD_TOO_LARGE ∨ r.(status) = INSUFFICIENT_STORAGE.
Proof.
  intros Hnow Hroom Hhi Hsz Hnew. unfold open_handler. rewrite Hen. cbn [negb open_request rq_encapped_key rq_upload_length].
  case_bool; [by right; left|]. case_bool; [by right; right; left|].
  destruct (at_capacity _ m); [by right; right; right|]. case_bool; [by right; right; right|].
  unfold open_upload. case_bool; [by right; right; right|]. cbn [mb_uploads with_files]. rewrite Hnew.
  left. split; [done|]. split; [done|]. eexists _, (mkFile [] now). cbn. rewrite !lookup_insert_eq.
  split_and!; try done; cbn; [lia| |apply prefix_nil].
  rewrite sat_add_small by (unfold I64_MAX, U64_MAX in *; lia). by rewrite as_i64_small by lia.
Qed.

Lemma body_bytes_chunks pieces : body_bytes (Chunk <$> pieces) = mjoin pieces.
Proof. induction pieces as [|p ps IH]; [done|]. rewrite fmap_cons, body_bytes_cons, IH. done. Qed.

(** Chunks that fit are all written. *)
Lemma append_loop_chunks length_ pieces disk end_ :
  end_ + zlen (mjoin pieces) <= length_ → length_ < U64_MAX → 0 <= end_ →
  append_loop length_ (Chunk <$> pieces) disk end_
    = (disk ++ mjoin pieces, end_ + zlen (mjoin pieces), None).
Proof.
  revert disk end_. induction pieces as [|p pieces IH]; intros disk end_ Hfit Hl He.
  { cbn. by rewrite app_nil_r, Z.add_0_r. }
  rewrite mjoin_cons, length_app in Hfit |- *. cbn [fmap list_fmap append_loop].
  rewrite sat_add_small by lia. rewrite (proj2 (Z.ltb_ge _ _)) by lia.
  change (list_fmap _ _ Chunk pieces) with (Chunk <$> pieces).
  rewrite IH by lia. rewrite <- app_assoc. do 2 f_equal. lia.
Qed.

(** [append_handler] at the right offset, undisturbed. *)
Lemma append_fine id n pieces now t m :
  open_at id n m → 0 <= now < hi → hi <= t + UPLOAD_IDLE_SECS → 0 <= t → t + UPLOAD_IDLE_SECS <= I64_MAX →
  zlen ct <= I64_MAX → id ∉ m.(mb_uploads_busy) →
  mjoin pieces `prefix_of` drop (Z.to_nat n) ct →
  ∃ m', append_handler app id (Some n) (Chunk <$> pieces) false now t m
      = (Some (mkResponse NO_CONTENT (Some (n + zlen (mjoin pieces))) None None None ""), m') ∧
    open_at id (n + zlen (mjoin pieces)) m'.
Proof.
  intros Ho Hnow Hdl Ht Hroom Hsz Hfree Hpre. unfold append_handler. rewrite Hen. cbn [negb].
  unfold begin_append. rewrite bool_decide_false by done.
  rewrite (open_at_info _ _ _ _ _ Ho Hnow). cbn [ui_committed ui_received ui_length].
  rewrite bool_decide_false by (by intros []). rewrite Z.eqb_refl. cbn [negb].
  destruct Ho as (u & f & Hu & Hop & Hl & Hk & Htt & Hx & Hf & Hp & <-). cbn [mb_files with_busy]. rewrite Hf.
  assert (zlen f.(f_bytes) + zlen (mjoin pieces) <= zlen ct) as Hfit.
  { apply prefix_length in Hpre, Hp. rewrite length_drop in Hpre. lia. }
  rewrite append_loop_chunks by (unfold I64_MAX, U64_MAX in *; lia).
  rewrite bool_decide_false by (by intros []). eexists. split; [done|].
  unfold open_at. cbn. rewrite lookup_alter_eq, Hu, lookup_insert_eq. cbn. rewrite Hop.
  eexists _, _. split_and!; try done; cbn.
  - rewrite sat_add_small by (unfold I64_MAX, U64_MAX in *; lia). by rewrite as_i64_small by lia.
  - apply prefix_extend; [done|]. by rewrite Nat2Z.id in Hpre.
  - rewrite length_app. lia.
Qed.

(** [append_handler] whatever happens to it. *)
Lemma append_any id n evs cancelled now t m :
  open_at id n m → hi <= t + UPLOAD_IDLE_SECS → 0 <= t → t + UPLOAD_IDLE_SECS <= I64_MAX →
  zlen ct <= I64_MAX → honest ct n evs →
  ∃ n', n <= n' ∧ open_at id n' (append_handler app id (Some n) evs cancelled now t m).2.
Proof.
  intros Ho Hdl Ht Hroom Hsz Hh. pose proof (open_at_uploading _ _ _ Ho) as Hup.
  pose proof (append_handler_resumes app id ct (Some n) evs cancelled now t m Hup
    ltac:(unfold I64_MAX, U64_MAX in *; lia) ltac:(by intros o [= <-])) as Hr.
  destruct (append_handler _ _ _ _ _ _ _ _) as [r m'] eqn:E. destruct Hr as [Hup' [Hfile _]].
  destruct Ho as (u & f & Hu & Hop & Hl & Hk & Htt & Hx & Hf & Hp & <-).
  destruct (Hfile f Hf) as (f' & Hf' & Hpf & _). exists (zlen f'.(f_bytes)).
  split; [apply prefix_length in Hpf; lia|].
  destruct Hup' as (u' & f2 & Hu' & Hop' & Hl' & Hf2 & Hp2). simplify_eq. cbn [snd].
  apply append_handler_effect in E as [_ Heff].
  assert (m'.(mb_uploads) = m.(mb_uploads) ∨ m'.(mb_uploads) = (touch_upload id t m).(mb_uploads)) as [E|E]
    by (destruct Heff as [[_ ->]|(? & ? & ? & _ & _ & _ & _ & _ & ?)]; auto).
  - rewrite E in Hu'. simplify_eq. exists u, f2. split_and!; congruence || done.
  - rewrite E in Hu'. cbn in Hu'. rewrite lookup_alter_eq, Hu in Hu'. cbn in Hu'. rewrite Hop in Hu'.
    injection Hu' as <-. eexists _, f2. rewrite E. cbn. rewrite lookup_alter_eq, Hu. cbn. rewrite Hop.
    split_and!; try done. cbn.
    rewrite sat_add_small by (unfold I64_MAX, U64_MAX in *; lia). by rewrite as_i64_small by lia.
Qed.

Context (Httl : 0 <= meta.(dm_ttl) <= I64_MAX) (Hmaxttl : 0 <= app.(app_limits).(max_ttl_secs)).

(** [commit_handler] of a complete upload. *)
Lemma commit_fine id claim now m :
  open_at id (zlen ct) m → lo <= now → 0 <= now < hi → hi + meta.(dm_ttl) <= I64_MAX →
  id ∉ m.(mb_uploads_busy) → m.(mb_entries) !! claim = None →
  let '(r, m') := commit_handler app id claim now m in
  r.(status) = OK ∧ r.(body) = claim ∧ done_at id claim m'.
Proof.
  intros Ho Hlo Hnow Hroom Hfree Hnew. unfold commit_handler. rewrite Hen. cbn [negb].
  unfold begin_append. rewrite bool_decide_false by done.
  unfold commit_upload. rewrite (open_at_info _ _ _ _ _ Ho Hnow). cbn [ui_committed ui_received ui_length].
  rewrite Z.eqb_refl. cbn [negb].
  destruct Ho as (u & f & Hu & Hop & Hl & Hk & Htt & Hx & Hf & Hp & Hn).
  cbn [mb_uploads with_busy mb_files]. rewrite Hu. unfold rename. rewrite Hf.
  unfold commit_deposit. cbn [mb_entries with_files with_busy]. rewrite Hnew. cbn [status body].
  split; [done|]. split; [done|]. unfold done_at. cbn. rewrite lookup_alter_eq, Hu, lookup_insert_eq. cbn.
  rewrite lookup_insert_eq. rewrite Htt, (Z.min_l (dm_ttl meta) I64_MAX) by lia.
  rewrite (Z.max_r 0 (dm_ttl meta)) by lia. set (g := Z.min (dm_ttl meta) _).
  assert (0 <= g <= dm_ttl meta) as Hg by (unfold g; lia).
  eexists _, _, _, g. split; [done|]. cbn. rewrite (as_i64_small g) by lia.
  split_and!; try done; cbn; try lia.
  - pose proof (clamp_bounds 1 MAX_DOWNLOADS_CAP (clamp 0 U32_MAX u.(up_max_downloads))
      ltac:(unfold MAX_DOWNLOADS_CAP; lia)). lia.
  - rewrite sat_add_small by (unfold I64_MAX, U64_MAX in *; lia). rewrite as_i64_small by lia. lia.
  - destruct Hp as [k ->]. rewrite length_app in Hn. destruct k; [by rewrite app_nil_r|cbn in Hn; lia].
Qed.

(** [commit_handler] asked again. *)
Lemma commit_again id c claim now m :
  done_at id c m → id ∉ m.(mb_uploads_busy) →
  let '(r, m') := commit_handler app id claim now m in
  r.(status) = OK ∧ r.(body) = c ∧ done_at id c m'.
Proof.
  intros Hd Hfree. unfold commit_handler. rewrite Hen. cbn [negb].
  unfold begin_append. rewrite bool_decide_false by done. unfold commit_upload.
  destruct (done_at_info id c now ({[id]} ∪ mb_uploads_busy m) m Hd) as [g ->].
  cbn [ui_committed status body]. done.
Qed.

End handlers.

(** ** Everything else the relay does meanwhile *)

Section traffic.
Context `{!Blake3Hash} (app : App) (ct : bytes) (meta : DepositMeta) (lo hi : Z).
Context (tok : nat → Token) (mine : Token → bool).
Context (Hmine : ∀ i, mine (tok i) = true).

(** Rows name files, no upload of the client is held, and its tokens from the [n]th on
    are unused. *)
Definition mailbox_inv (n : nat) (m : Mailbox) : Prop :=
  store_inv m ∧ (∀ id, mine id = true → id ∉ m.(mb_uploads_busy)) ∧
  ∀ i, (n ≤ i)%nat → m.(mb_entries) !! tok i = None ∧ m.(mb_uploads) !! tok i = None.

Lemma mailbox_inv_step n n' op m :
  mailbox_inv n m → (n ≤ n')%nat → op_ok op m →
  (∀ i, (n' ≤ i)%nat → new_claim op ≠ Some (tok i) ∧ new_upload op ≠ Some (tok i)) →
  mailbox_inv n' (step app op m).
Proof.
  intros (Hi & Hb & Hf) Hn Hop Hnew. destruct (step_calm app op m) as [Hbusy Hup]. split_and!.
  - by apply step_inv.
  - intros id Hid Hin. apply (Hb id Hid). set_solver.
  - intros i Hle. destruct (Hf i ltac:(lia)) as [He Hu], (Hnew i Hle) as [Hc Hd]. split; [|auto].
    by apply (step_gone app op m (tok i)).
Qed.

Lemma not_names_mine op :
  names_mine mine op = false →
  (∀ c, mine c = true → new_claim op ≠ Some c ∧ new_upload op ≠ Some c ∧ about c op = false) ∧
  ∀ id m, mine id = true → timely mine op m = true → leaves_upload id op m.
Proof.
  intros Hop. split.
  - intros c Hc.
    destruct op; cbn in *; try apply orb_false_iff in Hop as [? ?]; split_and!; try done;
      try (intros [= ->]; congruence); apply bool_decide_eq_false; intros ->; congruence.
  - intros id m Hid Ht. destruct op; cbn in *; try done; try apply orb_false_iff in Hop as [? ?];
      try (intros ->; congruence).
    apply bool_decide_eq_true in Ht. intros u Hu. by apply (Ht id u Hu).
Qed.

Lemma traffic_step_keeps n op m :
  mailbox_inv n m →
  mailbox_inv n (traffic_step app mine m op) ∧
  ∀ id st, mine id = true → (∀ c, st = SDone c → mine c = true) → sess_at app ct meta lo hi id st m →
    sess_at app ct meta lo hi id st (traffic_step app mine m op).
Proof.
  intros Hinv. unfold traffic_step. destruct (op_okb op m && _ && _) eqn:E; [|done].
  apply andb_true_iff in E as [[Hok%op_okb_ok Hnot%negb_true_iff]%andb_true_iff Ht].
  destruct (not_names_mine op Hnot) as [Hnew Hleave]. split.
  - apply (mailbox_inv_step n n); [done..|]. intros i _. by destruct (Hnew (tok i) (Hmine i)) as (? & ? & _).
  - intros id st Hid Hst Hs. destruct st as [k|c]; cbn in *.
    + destruct Hs as (u & f & Hu & Ho & Hl & Hk & Htt & Hx & Hf & Hp & Hn).
      destruct (step_upload_kept app id op m u Hu Hok (Hleave id m Hid Ht)) as [Hu' Hf'].
      exists u, f. split_and!; auto.
    + specialize (Hst c eq_refl).
      destruct Hs as (u & e & f & g & Hu & Hc & Hg & Hg0 & Hl & He & Hk & Hd & Hx & Hf & Hct).
      destruct (step_upload_kept app id op m u Hu Hok (Hleave id m Hid Ht)) as [Hu' _].
      destruct (Hnew c Hst) as (Hcl & _ & Hab).
      destruct (step_keeps app op m c e (proj1 Hinv) Hok Hcl Hab He) as [He' Hf'].
      { intros now ->. cbn in Ht. apply bool_decide_eq_true in Ht. by apply (Ht c e He). }
      exists u, e, f, g. rewrite Hf'. split_and!; auto.
Qed.

Lemma traffic_keeps n ops m :
  mailbox_inv n m →
  mailbox_inv n (traffic app mine ops m) ∧
  ∀ id st, mine id = true → (∀ c, st = SDone c → mine c = true) → sess_at app ct meta lo hi id st m →
    sess_at app ct meta lo hi id st (traffic app mine ops m).
Proof.
  revert m. induction ops as [|op ops IH]; intros m Hinv; [done|].
  destruct (traffic_step_keeps n op m Hinv) as [H1 H2]. destruct (IH _ H1) as [H3 H4].
  cbn [traffic foldl]. split; [exact H3|]. intros id st Hid Hst Hs. apply H4; auto.
Qed.
End traffic.

(** ** The world meets the contract *)

Section world.
Context `{!Blake3Hash} (app : App) (plain ct : bytes) (meta : DepositMeta).
Context (tok : nat → Token) (mine : Token → bool) (events : nat → Event) (lo hi : Z).
Context (Hen : app.(app_uploads_enabled) = true).
Context (Hsz : zlen ct <= I64_MAX).
Context (Httl : 0 <= meta.(dm_ttl)) (Hmaxttl : 0 <= app.(app_limits).(max_ttl_secs)).
Context (Hlo : 0 <= lo) (Hday : hi <= lo + UPLOAD_IDLE_SECS)
  (Hroom : hi + UPLOAD_IDLE_SECS + meta.(dm_ttl) <= I64_MAX).
Context (Hmine : ∀ i, mine (tok i) = true) (Hinj : ∀ i j, tok i = tok j → i = j)
  (Htrim : ∀ i, str_trim (tok i) = tok i).
Context (Hclock : ∀ i, lo <= (events i).(ev_now) < hi ∧ lo <= (events i).(ev_t_end) < hi).

Definition world_held (w : World) (id : string) (st : Sess) : Prop :=
  mailbox_inv tok mine w.(wd_turn) w.(wd_mailbox) ∧ mine id = true ∧
  (∀ c, st = SDone c → mine c = true ∧ str_trim c = c) ∧
  sess_at app ct meta lo hi id st w.(wd_mailbox).
Definition world_ready (w : World) : Prop := mailbox_inv tok mine w.(wd_turn) w.(wd_mailbox).
(** All but [k] of the requests to come are undisturbed. *)
Definition world_calm (w : World) (k : nat) : Prop :=
  ∃ bad : gset nat, (size bad ≤ k)%nat ∧
    ∀ i, (w.(wd_turn) ≤ i)%nat → i ∉ bad → (events i).(ev_fate) = Fine.

Lemma calm_next w m k :
  world_calm w k →
  world_calm (next m w) k ∧
  ((events w.(wd_turn)).(ev_fate) ≠ Fine → ∃ j, k = S j ∧ world_calm (next m w) j).
Proof.
  intros (bad & Hsize & Hfine). split.
  { exists bad. split; [done|]. intros i Hi. apply Hfine. cbn in Hi. lia. }
  intros Hne. assert (wd_turn w ∈ bad) as Hin.
  { destruct (decide (wd_turn w ∈ bad)); [done|]. by destruct Hne; apply Hfine. }
  pose proof (size_difference bad {[wd_turn w]} ltac:(set_solver)) as Hd. rewrite size_singleton in Hd.
  assert (0 < size bad)%nat by (apply Nat.neq_0_lt_0; intros H0%size_empty_inv; set_solver).
  exists (k - 1)%nat. split; [lia|]. exists (bad ∖ {[wd_turn w]}). split; [lia|].
  intros i Hi Hn. cbn in Hi. apply Hfine; [lia|]. intros Hb. apply Hn. set_solver by lia.
Qed.

Lemma arrival_keeps w :
  mailbox_inv tok mine w.(wd_turn) w.(wd_mailbox) →
  let m := (arrival app mine events w).2 in
  mailbox_inv tok mine w.(wd_turn) m ∧
  ∀ id st, world_held w id st → sess_at app ct meta lo hi id st m.
Proof.
  intros Hinv. cbn. destruct (traffic_keeps app ct meta lo hi tok mine Hmine w.(wd_turn)
    (events w.(wd_turn)).(ev_traffic) _ Hinv) as [H1 H2].
  split; [done|]. intros id st (_ & Hid & Hst & Hs). apply H2; [done| |done]. intros c Hc. by apply Hst.
Qed.

(** The next world after one of the client's own operations. *)
Lemma turn_step w op :
  mailbox_inv tok mine w.(wd_turn) w.(wd_mailbox) →
  op_ok op (arrival app mine events w).2 →
  (∀ c, new_claim op = Some c ∨ new_upload op = Some c → c = tok w.(wd_turn)) →
  mailbox_inv tok mine (S w.(wd_turn)) (step app op (arrival app mine events w).2).
Proof.
  intros Hinv Hop Hnew. destruct (arrival_keeps w Hinv) as [Hm _].
  apply (mailbox_inv_step app tok mine Hmine w.(wd_turn)); [done|lia|done|].
  intros i Hi. split; intros Hc.
  - assert (tok i = tok w.(wd_turn)) as ?%Hinj by (apply Hnew; auto). lia.
  - assert (tok i = tok w.(wd_turn)) as ?%Hinj by (apply Hnew; auto). lia.
Qed.

Lemma transient_turned code :
  transient_code code = true →
  transient (Ok (mkHttpResp code None None None (Ok ""%string))) ∧ code ≠ 409.
Proof.
  unfold transient_code, is_server_error, transient. cbn. intros [Hc|Hc]%orb_true_iff.
  - apply Z.eqb_eq in Hc as ->. split; [left; by left|done].
  - apply andb_true_iff in Hc as [[H1 H2]%andb_true_iff H3%negb_true_iff]. zbool.
    split; [left; right; lia|lia].
Qed.

(** A request without a body whose handling is one of the client's operations. *)
Lemma exchange_cases drains handle op w k :
  mailbox_inv tok mine w.(wd_turn) w.(wd_mailbox) → world_calm w k →
  (∀ ev m, ev = events w.(wd_turn) → m = (arrival app mine events w).2 → (handle ev m).2 = step app op m ∨ (handle ev m).2 = m) →
  op_ok op (arrival app mine events w).2 →
  (∀ c, new_claim op = Some c ∨ new_upload op = Some c → c = tok w.(wd_turn)) →
  let ev := events w.(wd_turn) in
  let m := (arrival app mine events w).2 in
  let '(r, w') := exchange app mine events drains handle w in
  mailbox_inv tok mine w'.(wd_turn) w'.(wd_mailbox) ∧
  ((r = Ok (to_resp (handle ev m).1) ∧ w' = next (handle ev m).2 w ∧ world_calm w' k) ∨
   (transient r ∧ (drains = false → ∀ resp, r = Ok resp → resp.(hr_status) ≠ 409) ∧
    (w' = next m w ∨ w' = next (handle ev m).2 w) ∧ ∃ j, k = S j ∧ world_calm w' j)).
Proof.
  intros Hinv Hc Hop Hok Hnew. cbn zeta.
  pose proof (turn_step w op Hinv Hok Hnew) as Hstep. destruct (arrival_keeps w Hinv) as [Hm _].
  assert (mailbox_inv tok mine (S (wd_turn w)) (arrival app mine events w).2) as Hm'.
  { destruct Hm as (? & ? & Hf). split_and!; try done. intros i Hi. apply Hf. lia. }
  assert (mailbox_inv tok mine (S (wd_turn w)) (handle (events (wd_turn w)) (arrival app mine events w).2).2) as Hh
    by (destruct (Hop _ _ eq_refl eq_refl) as [->| ->]; done).
  unfold exchange. rewrite (surjective_pairing (arrival _ _ _ w)).
  change (arrival app mine events w).1 with (events (wd_turn w)).
  set (m := (arrival app mine events w).2) in *. set (ev := events (wd_turn w)) in *.
  pose proof (fun m' => calm_next w m' k Hc) as Hn. fold ev in Hn.
  destruct (handle ev m) as [r m'] eqn:E. cbn [fst snd] in *.
  destruct (ev_fate ev) as [| | |code| |evs cc] eqn:Ef.
  - split; [done|]. left. rewrite E. split; [done|]. split; [done|]. apply Hn.
  - split; [done|]. right. split; [done|]. split; [done|]. split; [by left|]. by apply Hn.
  - split; [done|]. right. split; [done|]. split; [done|]. rewrite E. split; [by right|]. by apply Hn.
  - destruct (transient_code code) eqn:Et.
    + apply transient_turned in Et as [Et H4]. split; [done|]. right. split; [done|].
      split; [by intros _ resp [= <-]|]. split; [by left|]. by apply Hn.
    + split; [done|]. right. split; [done|]. split; [done|]. split; [by left|]. by apply Hn.
  - destruct drains.
    + split; [done|]. right. split; [by right|]. split; [done|]. split; [by left|]. by apply Hn.
    + split; [done|]. right. split; [done|]. split; [done|]. split; [by left|]. by apply Hn.
  - split; [done|]. right. split; [done|]. split; [done|]. split; [by left|]. by apply Hn.
Qed.

Notation world_outside := (relay_outside app plain tok mine events).

(** An append, whatever becomes of it. *)
Lemma append_exchange w k id n pieces :
  world_held w id (SOpen n) → world_calm w k → n < zlen ct →
  mjoin pieces `prefix_of` drop (Z.to_nat n) ct →
  let '(r, f, w') := exchange_append app mine events id n (pieces, None) w in
  f = None ∧ ∃ n', n <= n' ∧ world_held w' id (SOpen n') ∧
    ((answered r (fun resp => resp.(hr_offset) = Some n') ∧ n' = n + zlen (mjoin pieces) ∧ world_calm w' k) ∨
     (transient r ∧ ∃ j, k = S j ∧ world_calm w' j)).
Proof.
  intros Hh Hc Hlt Hpre. pose proof Hh as (Hinv & Hid & Hst & _).
  destruct (arrival_keeps w Hinv) as [Hm Hs]. specialize (Hs _ _ Hh).
  pose proof (fun m' => calm_next w m' k Hc) as Hn. pose proof (Hclock w.(wd_turn)) as [Hnow Hend].
  unfold exchange_append. rewrite (surjective_pairing (arrival _ _ _ w)).
  change (arrival app mine events w).1 with (events (wd_turn w)).
  set (m := (arrival app mine events w).2) in *. set (ev := events (wd_turn w)) in *.
  cbn [sess_at] in Hs. pose proof (proj1 (proj2 Hm) id Hid) as Hfree.
  assert (∀ n' op, open_at ct meta hi id n' (step app op m) → op_ok op m → new_claim op = None →
    new_upload op = None → world_held (next (step app op m) w) id (SOpen n')) as Hnext.
  { intros n' op Ho Hok Hc1 Hc2. split_and!; try done. apply turn_step; [done..|].
    rewrite Hc1, Hc2. by intros c [?|?]. }
  assert (world_held (next m w) id (SOpen n)) as Hstay.
  { split_and!; try done. destruct Hm as (? & ? & Hf). split_and!; try done. intros i Hi. apply Hf. cbn in Hi. lia. }
  assert (∀ evs cc, honest ct n evs → ∃ n', n <= n' ∧
    world_held (next (append_handler app id (Some n) evs cc (ev_now ev) (ev_t_end ev) m).2 w) id (SOpen n')) as Hany.
  { intros evs cc Hhon. destruct (append_any app ct meta hi id n evs cc (ev_now ev) (ev_t_end ev) m Hs)
      as (n' & Hle & Ho); try done; try lia.
    exists n'. split; [done|]. by apply (Hnext n' (OAppend id (Some n) evs cc (ev_now ev) (ev_t_end ev))). }
  assert (honest ct n (Chunk <$> pieces)) as Hhonest.
  { unfold honest. by rewrite body_bytes_chunks. }
  unfold body_of. cbn match. rewrite app_nil_r.
  destruct (ev_fate ev) as [| | |code| |evs cc] eqn:Ef.
  - destruct (append_fine app ct meta hi Hen id n pieces (ev_now ev) (ev_t_end ev) m Hs)
      as (m' & E & Ho); try done; try lia.
    rewrite E. split; [done|]. exists (n + zlen (mjoin pieces)). split; [lia|]. split.
    + pose proof (Hnext (n + zlen (mjoin pieces))
        (OAppend id (Some n) (Chunk <$> pieces) false (ev_now ev) (ev_t_end ev))) as Hx.
      cbn [step] in Hx. rewrite E in Hx. by apply Hx.
    + left. split; [by eexists|]. split; [done|]. apply Hn.
  - split; [done|]. exists n. split; [lia|]. split; [done|]. right. split; [done|]. by apply Hn.
  - destruct (Hany _ false Hhonest) as (n' & Hle & Hw). split; [done|]. exists n'. split; [done|].
    split; [exact Hw|]. right. split; [done|]. by apply Hn.
  - assert (∀ r, transient r → ∃ n', n <= n' ∧ world_held (next m w) id (SOpen n') ∧
      ((answered r (fun resp => resp.(hr_offset) = Some n') ∧ n' = n + zlen (mjoin pieces) ∧ world_calm (next m w) k) ∨
       (transient r ∧ ∃ j, k = S j ∧ world_calm (next m w) j))) as Hr.
    { intros r Hr. exists n. split; [lia|]. split; [done|]. right. split; [done|]. by apply Hn. }
    destruct (transient_code code) eqn:Et; (split; [done|]); apply Hr; [|done].
    by apply transient_turned in Et as [Et _].
  - split; [done|]. exists n. split; [lia|]. split; [done|]. right. split; [by right|]. by apply Hn.
  - case_bool.
    + apply bool_decide_eq_true in Heqb. destruct (Hany evs cc ltac:(unfold honest; by etrans)) as (n' & Hle & Hw).
      split; [done|]. exists n'. split; [done|]. split; [exact Hw|]. right. split; [done|]. by apply Hn.
    + split; [done|]. exists n. split; [lia|]. split; [done|]. right. split; [done|]. by apply Hn.
Qed.

(** A commit, and a commit asked again. *)
Lemma commit_exchange w k id st :
  world_held w id st → world_calm w k → reached ct st = zlen ct →
  let '(r, w') := exchange app mine events true (fun ev m =>
    commit_handler app id (tok w.(wd_turn)) ev.(ev_now) m) w in
  ∃ st', reached ct st' = zlen ct ∧ world_held w' id st' ∧
    ((answered r (fun resp => ∃ c, resp.(hr_text) = Ok c ∧ str_trim c = c ∧ st' = SDone c) ∧ world_calm w' k) ∨
     (transient r ∧ ∃ j, k = S j ∧ world_calm w' j)).
Proof.
  intros Hh Hc Hall. pose proof Hh as (Hinv & Hid & Hst & _).
  destruct (arrival_keeps w Hinv) as [Hm Hs]. specialize (Hs _ _ Hh).
  pose proof (Hclock w.(wd_turn)) as [Hnow _]. pose proof (proj1 (proj2 Hm) id Hid) as Hfree.
  destruct (proj2 (proj2 Hm) w.(wd_turn) ltac:(lia)) as [Hnew _].
  pose proof (exchange_cases true (fun ev m => commit_handler app id (tok w.(wd_turn)) ev.(ev_now) m)
    (OCommit id (tok w.(wd_turn)) (events w.(wd_turn)).(ev_now)) w k Hinv Hc) as Hx.
  cbn zeta in Hx. set (m := (arrival app mine events w).2) in *. set (ev := events (wd_turn w)) in *.
  destruct (exchange _ _ _ _ _ w) as [r w'].
  destruct Hx as [Hinv' Hx]; [by intros ? ? -> ->; left| |by intros c [[= ->]|?]|].
  { split_and!; [by intros c [= <-]|done|done]. }
  assert (∃ c, (commit_handler app id (tok (wd_turn w)) (ev_now ev) m).1.(status) = OK ∧
    (commit_handler app id (tok (wd_turn w)) (ev_now ev) m).1.(body) = c ∧ mine c = true ∧ str_trim c = c ∧
    done_at app ct meta lo id c (commit_handler app id (tok (wd_turn w)) (ev_now ev) m).2)
    as (c & Hst1 & Hbody & Hmc & Htc & Hdone).
  { destruct st as [n|c]; cbn [sess_at reached] in *.
    - subst n. pose proof (commit_fine app ct meta lo hi Hen ltac:(lia) Hmaxttl id (tok (wd_turn w))
        (ev_now ev) m Hs ltac:(lia) ltac:(lia) ltac:(unfold UPLOAD_IDLE_SECS in *; lia) Hfree Hnew) as Hf.
      destruct (commit_handler _ _ _ _ _). exists (tok (wd_turn w)). cbn [fst snd]. by destruct Hf as (-> & -> & ?).
    - pose proof (commit_again app ct meta lo Hen id c (tok (wd_turn w)) (ev_now ev) m Hs Hfree) as Hf.
      destruct (commit_handler _ _ _ _ _). exists c. cbn [fst snd].
      destruct (Hst c eq_refl). by destruct Hf as (-> & -> & ?). }
  assert (∀ m', m' = (commit_handler app id (tok (wd_turn w)) (ev_now ev) m).2 →
    mailbox_inv tok mine (S (wd_turn w)) m' → world_held (next m' w) id (SDone c)) as Hheld.
  { intros m' -> Hi. split_and!; try done. by intros c' [= <-]. }
  destruct Hx as [(-> & -> & Hc')|(Ht & _ & [-> | ->] & j & -> & Hc')].
  - exists (SDone c). split; [done|]. split; [by apply Hheld|]. left. split; [|done].
    eexists. split; [done|]. cbn [hr_status hr_text to_resp]. rewrite Hst1, Hbody. split; [done|]. by exists c.
  - exists st. split; [done|]. split; [|right; eauto]. by split_and!.
  - exists (SDone c). split; [done|]. split; [by apply Hheld|]. right. eauto.
Qed.

#[export] Instance world_laws :
  @OutsideLaws World world_outside plain ct meta world_held world_ready world_calm.
Proof.
  split.
  - done.
  - intros w id n (_ & _ & _ & Hs). by apply open_at_range in Hs.
  - done.
  - intros w. cbn. by rewrite Hen.
  - intros w k Hr Hc. cbn [net_open relay_outside]. destruct (arrival_keeps w Hr) as [Hm _].
    pose proof (Hclock w.(wd_turn)) as [Hnow _]. destruct (proj2 (proj2 Hm) w.(wd_turn) ltac:(lia)) as [_ Hnew].
    pose proof (exchange_cases false (fun ev m => open_handler app (tok w.(wd_turn)) (open_request (zlen ct) meta) ev.(ev_now) m)
      (OOpen (tok w.(wd_turn)) (open_request (zlen ct) meta) (events w.(wd_turn)).(ev_now)) w k Hr Hc) as Hx.
    cbn zeta in Hx. set (m := (arrival app mine events w).2) in *. set (ev := events (wd_turn w)) in *.
    destruct (exchange _ _ _ _ _ w) as [r w'].
    destruct Hx as [Hinv' Hx]; [by intros ? ? -> ->; left| |by intros c [?|[= ->]]|].
    { split_and!; [done|by intros c [= <-]|]. intros n [= <-]. lia. }
    pose proof (open_fine app ct meta hi Hen (tok (wd_turn w)) (ev_now ev) m ltac:(lia) ltac:(lia) ltac:(lia) Hsz Hnew) as Ho.
    destruct Hx as [(-> & -> & Hc')|(Ht & H4 & Hw & j & -> & Hc')].
    + destruct (open_handler _ _ _ _ _) as [resp m']. cbn [fst snd] in *.
      destruct Ho as [(Hs & Hb & Ho)|Hs].
      * left. split; [|done]. eexists. split; [done|]. cbn. rewrite Hs. split; [done|].
        exists (tok (wd_turn w)). rewrite Hb. split; [done|]. rewrite Htrim. split_and!; done.
      * right. left. eexists. split; [done|]. cbn.
        destruct Hs as [->|[->| ->]]; split_and!; done.
    + right. right. split; [done|]. split; [by apply H4|]. split; [done|]. eauto.
  - intros w k id st Hh Hc. cbn [net_status relay_outside].
    pose proof Hh as (Hinv & Hid & Hst & _). destruct (arrival_keeps w Hinv) as [Hm Hs]. specialize (Hs _ _ Hh).
    pose proof (Hclock w.(wd_turn)) as [Hnow _].
    pose proof (exchange_cases false (fun ev m => (status_handler app id ev.(ev_now) m, m))
      (OSweep 0 0) w k Hinv Hc) as Hx.
    cbn zeta in Hx. set (m := (arrival app mine events w).2) in *. set (ev := events (wd_turn w)) in *.
    destruct (exchange _ _ _ _ _ w) as [r w'].
    destruct Hx as [Hinv' Hx]; [by intros ? ? -> ->; right|by split_and!|by intros c [?|?]|].
    exists st. split; [lia|]. destruct (status_fine app ct meta lo hi Hen id st (ev_now ev) m Hs ltac:(lia)) as [H1 H2].
    destruct Hx as [(-> & -> & Hc')|(Ht & H4 & Hw & j & -> & Hc')].
    + split; [by split_and!|]. left. split; [|done]. eexists. split; [done|]. cbn [hr_status hr_offset to_resp fst]. by rewrite H1.
    + split; [|right; eauto]. destruct Hw as [-> | ->]; by split_and!.
  - intros w k id n pieces Hh Hlt Hc _ Hpre. exact (append_exchange w k id n pieces Hh Hc Hlt Hpre).
  - intros w k id st Hh Hall Hc. exact (commit_exchange w k id st Hh Hc Hall).
Qed.
End world.
