(* ===== verification/UploadDelivery.v ===== *)
(** * An interrupted upload delivers

    The client ([UploadClient.v]) over the relay ([UploadNet.v]): with few enough
    disturbed requests an upload ends, and what its claim fetches is the ciphertext
    the layout describes. *)
From S2P Require Import Prelude.
From S2P Require Import Text.
From S2P Require Import ChunkCipher.
From S2P Require Import Limits.
From S2P Require Import Store.
From S2P Require Import Mailbox.
From S2P Require Import UploadHttp.
From S2P Require Import MailboxFacts.
From S2P Require Import Relay.
From S2P Require Import SealedLayout.
From S2P Require Import Link.
From S2P Require Import UploadClient.
From S2P Require Import UploadClientFacts.
From S2P Require Import UploadNet.
Local Open Scope Z_scope.

(** What a run is about: the relay takes resumable uploads, the requests come in
    between [lo] and [hi], less than a day apart, and the tokens the relay draws for
    this client are fresh ones without white space around them. *)
Record net_ok `{!Blake3Hash} (app : App) (meta : DepositMeta) (tok : nat → Token)
    (mine : Token → bool) (events : nat → Event) (lo hi : Z) : Prop := {
  net_enabled : app.(app_uploads_enabled) = true;
  net_ttl : 0 <= meta.(dm_ttl);
  net_max_ttl : 0 <= app.(app_limits).(max_ttl_secs);
  net_lo : 0 <= lo;
  net_day : hi <= lo + UPLOAD_IDLE_SECS;
  net_room : hi + UPLOAD_IDLE_SECS + meta.(dm_ttl) <= I64_MAX;
  net_mine : ∀ i, mine (tok i) = true;
  net_fresh : ∀ i j, tok i = tok j → i = j;
  net_trim : ∀ i, str_trim (tok i) = tok i;
  net_clock : ∀ i, lo <= (events i).(ev_now) < hi ∧ lo <= (events i).(ev_t_end) < hi }.

(** At most [k] requests meet anything but an answer. *)
Definition disturbed_at_most (k : nat) (events : nat → Event) : Prop :=
  ∃ bad : gset nat, (size bad ≤ k)%nat ∧ ∀ i, i ∉ bad → (events i).(ev_fate) = Fine.

(** What the caller hands in: nothing, or a session of this relay still open. *)
Definition resumable (ct : bytes) (meta : DepositMeta) (mine : Token → bool) (hi : Z)
    (relay : string) (session : option UploadSession) (m : Mailbox) : Prop :=
  match session with
  | Some s => s.(us_relay) = trim_slashes relay ∧ s.(us_length) = zlen ct ∧
      mine s.(us_id) = true ∧ ∃ n, open_at ct meta hi s.(us_id) n m
  | None => True
  end.

Section delivery.
Context `{!Blake3Hash, !Aes256Gcm, !Aes256GcmLaws}.
Context (app : App) (meta : DepositMeta) (tok : nat → Token) (mine : Token → bool)
  (events : nat → Event) (lo hi : Z) (Hnet : net_ok app meta tok mine events lo hi).

(** A committed session is a deposit anyone with the claim fetches. *)
Lemma done_fetches ct id c m now :
  done_at app ct meta lo id c m →
  lo <= now < lo + Z.min meta.(dm_ttl) app.(app_limits).(max_ttl_secs) →
  (fetch c now m).1 = Ok (mkClaimed meta.(dm_encapped_key) ct).
Proof.
  intros (u & e & f & g & _ & _ & _ & _ & _ & He & Hk & Hd & Hx & Hf & <-) Hnow. rewrite <- Hk.
  pose proof (net_lo _ _ _ _ _ _ _ Hnet). pose proof (net_ttl _ _ _ _ _ _ _ Hnet).
  pose proof (net_max_ttl _ _ _ _ _ _ _ Hnet).
  apply (fetch_serves c now m e f); [done|done| |done].
  rewrite i64_as_u64_small by lia. lia.
Qed.

Lemma delivers l plain whole relay session m k
    (Hlay : layout_ok l) (Hvec : to_vec l (fun _ => Some plain) = Ok whole)
    (Hsz : zlen whole <= I64_MAX)
    (Hm : mailbox_inv tok mine 0 m) (Hstart : resumable whole meta mine hi relay session m)
    (Hcalm : disturbed_at_most k events) (Hk : Z.of_nat k <= MAX_QUIET_RETRIES) :
  ∃ r c, @upload World (relay_outside app plain tok mine events) _ l meta
      (S k) (S (length whole)) relay session (mkWorld m 0) = Some (r, c) ∧
    ((∃ done, r = Ok done ∧ head c.(cl_sessions) = Some None ∧
        ∀ now, lo <= now < lo + Z.min meta.(dm_ttl) app.(app_limits).(max_ttl_secs) →
          (fetch done.(co_claim) now c.(cl_world).(wd_mailbox)).1 = Ok (mkClaimed meta.(dm_encapped_key) whole)) ∨
     (session = None ∧ ∃ e, r = Err e ∧ ∀ why, e ≠ Unavailable why)).
Proof.
  destruct Hnet as [Hen Httl Hmax Hlo Hday Hroom Hmine Hinj Htrim Hclock].
  pose proof (world_laws app plain whole meta tok mine events lo hi Hen Hsz Httl Hmax Hlo Hday Hroom
    Hmine Hinj Htrim Hclock) as HL.
  destruct (@upload_completes World (relay_outside app plain tok mine events) _ _ l meta plain whole _ _ _ HL
    Hlay Hvec ltac:(unfold I64_MAX, U64_MAX, SEGMENT_BYTES in *; lia) relay session (mkWorld m 0) k)
    as (r & c & Hup & Hend); try done.
  - destruct session as [s|]; [|done]. destruct Hstart as (_ & Hl & Hid & n & Ho). split; [done|].
    by exists (SOpen n).
  - destruct Hcalm as (bad & Hs & Hf). exists bad. auto.
  - intros s ->. by destruct Hstart.
  - exists r, c. rewrite Nat2Z.id in Hup. split; [done|]. destruct Hend as [(done & id & -> & Hh & Hs)|Hend]; [left|by right].
    exists done. split; [done|]. split; [done|]. intros now Hnow. destruct Hh as (_ & _ & _ & Hh).
    by eapply done_fetches.
Qed.


End delivery.
