(* ===== verification/RelayExamples.v ===== *)
(** * The relay's store and the client that uploads to it, concretely

    A relay with small limits, a stand-in for the hash, and runs of requests on it; then a
    linked file of seven bytes and a network that loses the first request and an answer:
    the theorems about deposits, uploads, layouts, links and the uploading client applied
    where their hypotheses hold. *)
From S2P Require Import Prelude.
From S2P Require Import Text.
From S2P Require Import ChunkCipher.
From S2P Require Import SyncExamples.
From S2P Require Import Limits.
From S2P Require Import Store.
From S2P Require Import Mailbox.
From S2P Require Import UploadHttp.
From S2P Require Import MailboxFacts.
From S2P Require Import Relay.
From S2P Require Import RelayRuns.
From S2P Require Import UploadRuns.
From S2P Require Import SealedLayout.
From S2P Require Import Link.
From S2P Require Import UploadClient.
From S2P Require Import UploadClientFacts.
From S2P Require Import UploadNet.
From S2P Require Import UploadDelivery.
Local Open Scope Z_scope.

(** A 32-byte stand-in for [blake3]. *)
#[export] Instance toy_blake3 : Blake3Hash :=
  {| blake3_hash b := take 32 (b ++ replicate 32 Byte.x00) |}.

Definition ex_limits : Limits := mkLimits 604800 10 16 100 4 10 10 10 10 1000 3600.
Definition ex_app : App := mkApp ex_limits true true.

Definition ex_ct : bytes := [Byte.x01; Byte.x02; Byte.x03; Byte.x04].
Definition ex_rq : DepositRequest :=
  mkDepositRequest (Some [Byte.x09]) (Some (blake3_hash (as_bytes "token"))) (Some 4) 100 2.
Definition ex_body : list BodyEvent := [Chunk [Byte.x01; Byte.x02]; Chunk [Byte.x03; Byte.x04]].
Definition ex_deposited : Response * Mailbox := deposit_handler ex_app "a" ex_rq ex_body 1000 in_memory.

(** ** Deciding the side conditions of a run *)

Fixpoint run_okb (ops : list Op) (m : Mailbox) : bool :=
  match ops with [] => true | op :: ops => op_okb op m && run_okb ops (step ex_app op m) end.

Lemma run_okb_ok ops m : run_okb ops m = true → run_ok ex_app ops m.
Proof.
  revert m. induction ops as [|op ops IH]; intros m; [done|]. cbn.
  intros [H1%op_okb_ok H2%IH]%andb_true_iff. done.
Qed.

(** No operation of the run draws the claim again, or is a request about it. *)
Definition freshb (c : Token) (ops : list Op) : bool :=
  forallb (fun op => bool_decide (new_claim op ≠ Some c)) ops.
Lemma freshb_ok c ops : freshb c ops = true → ∀ op, op ∈ ops → new_claim op ≠ Some c.
Proof.
  unfold freshb. rewrite forallb_forall. intros H op Hin%list_elem_of_In.
  by apply H, bool_decide_eq_true in Hin.
Qed.
Definition othersb (c : Token) (ops : list Op) : bool :=
  forallb (fun op => bool_decide (new_claim op ≠ Some c) && negb (about c op)) ops.
Lemma othersb_ok c ops :
  othersb c ops = true → ∀ op, op ∈ ops → new_claim op ≠ Some c ∧ about c op = false.
Proof.
  unfold othersb. rewrite forallb_forall. intros H op Hin%list_elem_of_In.
  apply H, andb_true_iff in Hin as [H1%bool_decide_eq_true H2%negb_true_iff]. done.
Qed.

Lemma store_inv_empty : store_inv in_memory.
Proof. split; intros ? ? Hl; cbn in Hl; by rewrite lookup_empty in Hl. Qed.

Ltac ex_decide :=
  first [ exact store_inv_empty | exact (surjective_pairing _)
        | apply op_okb_ok; vm_compute; reflexivity | apply run_okb_ok; vm_compute; reflexivity
        | apply freshb_ok; vm_compute; reflexivity | apply othersb_ok; vm_compute; reflexivity
        | vm_compute; reflexivity | vm_compute; congruence ].

(** ** Deposits *)

(** Downloads, held and not, and what is left for others. *)
Definition ex_ops : list Op :=
  [OFetch true "a" 1010; OAck "a" 1011; OOpen "u" ex_rq 1012; OFetch false "a" 1013;
   OFetch false "a" 1014; OReap 1020].

Lemma downloads_bounded_witness :
  count_spends ex_app "a" ex_ops ex_deposited.2 = 2 ∧
  count_spends ex_app "a" ex_ops ex_deposited.2 <= clamp 1 MAX_DOWNLOADS_CAP 2.
Proof.
  split; [vm_compute; reflexivity|].
  apply (downloads_bounded ex_app "a" ex_rq ex_body 1000 in_memory ex_deposited.1 ex_deposited.2 ex_ops);
    ex_decide.
Defined.


Lemma gone_stays_gone_witness :
  let ops := [OFetch false "a" 1000; ODeposit "b" ex_rq ex_body 1001; OAck "a" 1002; OReap 1003] in
  count_spends ex_app "a" ops in_memory = 0 ∧ (run ex_app ops in_memory).(mb_entries) !! "a" = None ∧
  ∀ hold now, fetch_handler hold "a" now (run ex_app ops in_memory) = (Err NotFound, run ex_app ops in_memory).
Proof.
  intros ops. apply (gone_stays_gone ex_app "a" ops in_memory); ex_decide.
Defined.

Lemma revoke_authorised_witness :
  let '(r, m') := revoke "a" "token" ex_deposited.2 in
  r = Ok tt ∧ m'.(mb_entries) !! "a" = None ∧ m'.(mb_files) !! blob_path "a" = None.
Proof.
  destruct (revoke_authorised "a" "token" ex_deposited.2 _ _ (surjective_pairing _)) as (_ & _ & H & _).
  split; [reflexivity|]. apply H. reflexivity.
Defined.

Lemma fetch_serves_live_witness :
  ∃ e f, ex_deposited.2.(mb_entries) !! "a" = Some e ∧ ex_deposited.2.(mb_files) !! blob_path "a" = Some f ∧
    1050 < i64_as_u64 e.(en_expires_at) ∧
    mkClaimed [Byte.x09] ex_ct = mkClaimed e.(en_encapped_key) f.(f_bytes) ∧
    (true = true → ex_deposited.2 = ex_deposited.2).
Proof. apply (fetch_serves_live true "a" 1050 ex_deposited.2). vm_compute. reflexivity. Defined.

Definition ex_others : list Op :=
  [ODeposit "b" ex_rq ex_body 1001; OFetch false "b" 1002; OReap 1050; OSweep 50000 21600].

Lemma deposit_survives_witness :
  ∃ key, ex_rq.(rq_encapped_key) = Some key ∧ body ex_deposited.1 = "a"%string ∧
    (fetch "a" 1099 (run ex_app ex_others ex_deposited.2)).1 = Ok (mkClaimed key (body_bytes ex_body)).
Proof.
  apply (deposit_survives ex_app "a" ex_rq ex_body 1000 in_memory ex_deposited.1 ex_deposited.2 ex_others
    1099); try ex_decide.
  intros t Ht. unfold ex_others in Ht. set_unfold in Ht.
  destruct Ht as [Ht|[Ht|[Ht|[Ht|Ht]]]]; try done. injection Ht as ->. vm_compute. split; congruence.
Defined.

(** ** Uploads *)

(** Opened, torn, resumed at the wrong place, cancelled, then finished. *)
Definition ex_opened : Response * Mailbox := open_handler ex_app "u" ex_rq 1000 in_memory.
Definition ex_appends : list Op :=
  [OAppend "u" (Some 0) [Chunk [Byte.x01]; TornChunk [Byte.x02; Byte.x03] 1] false 1001 1002;
   OAppend "u" (Some 2) [Chunk [Byte.x03]] false 1003 1004;
   OAppend "u" (Some 1) [Chunk [Byte.x02]; Chunk [Byte.x03]; BodyError] true 1005 1006;
   OSweep 50000 21600; OUploadReap 1007;
   OAppend "u" (Some 3) [Chunk [Byte.x04]] false 1008 1009].
Definition ex_complete : Mailbox := run ex_app ex_appends ex_opened.2.
Definition ex_committed := commit_upload ex_limits "u" "c" 1010 ex_complete.

Fixpoint run_safeb (id : Token) (ct : bytes) (ops : list Op) (m : Mailbox) : bool :=
  match ops with
  | [] => true
  | op :: ops =>
      match op with
      | OAppend d (Some o) events _ _ _ =>
          negb (bool_decide (d = id)) || bool_decide (body_bytes events `prefix_of` drop (Z.to_nat o) ct)
      | OCommit d _ _ | OAbort d => bool_decide (d ≠ id)
      | OUploadReap now =>
          match m.(mb_uploads) !! id with Some u => as_i64 now <? u.(up_idle_expires) | None => true end
      | _ => true
      end && run_safeb id ct ops (step ex_app op m)
  end.

Lemma run_safeb_ok id ct ops m : run_safeb id ct ops m = true → run_safe ex_app id ct ops m.
Proof.
  revert m. induction ops as [|op ops IH]; intros m; [done|]. cbn [run_safeb].
  intros [Hop Hops%IH]%andb_true_iff. split; [|done].
  destruct op; cbn [upload_safe]; try done; try by apply bool_decide_eq_true in Hop.
  - intros -> x Hx. rewrite Hx in Hop. rewrite bool_decide_true in Hop by done.
    by apply bool_decide_eq_true in Hop.
  - intros u Hu. rewrite Hu in Hop. by apply Z.ltb_lt.
Qed.

(** A complete upload, decided. *)
Definition uploadingb (id : Token) (ct : bytes) (m : Mailbox) : bool :=
  match m.(mb_uploads) !! id, m.(mb_files) !! upload_path id with
  | Some u, Some f => upload_open u && (u.(up_length) =? zlen ct) && bool_decide (f.(f_bytes) `prefix_of` ct)
  | _, _ => false
  end.

Lemma uploadingb_ok id ct m : uploadingb id ct m = true → uploading id ct m.
Proof.
  unfold uploadingb. destruct (mb_uploads m !! id) as [u|] eqn:Eu; [|done].
  destruct (mb_files m !! upload_path id) as [f|] eqn:Ef; [|done].
  intros [[H1 H2%Z.eqb_eq]%andb_true_iff H3%bool_decide_eq_true]%andb_true_iff. by exists u, f.
Qed.

Definition ex_torn := append_handler ex_app "u" (Some 0)
  [Chunk [Byte.x01]; TornChunk [Byte.x02; Byte.x03] 1] false 1001 1002 ex_opened.2.


Lemma commit_is_whole_witness :
  (∃ key, ∀ now', now' < 1010 + 100 → (fetch "c" now' ex_committed.2).1 = Ok (mkClaimed key ex_ct)) ∧
  (∀ claim' now', commit_upload ex_limits "u" claim' now' ex_committed.2
     = (Ok (Ok ("c"%string, 100)), ex_committed.2)) ∧
  ex_committed.2.(mb_files) !! upload_path "u" = None.
Proof.
  apply (commit_is_whole ex_limits "u" "c" 1010 ex_complete ex_ct "c" 100 ex_committed.2); [apply uploadingb_ok|..]; ex_decide.
Defined.

Lemma busy_upload_untouched_witness :
  let m := with_busy {["u"%string]} ex_opened.2 in
  commit_handler ex_app "u" "c" 1010 m = (busy, m) ∧ abort_handler ex_app "u" m = (busy, m) ∧
  "u"%string ∈ (upload_reap 100000 m).2.(mb_uploads_busy).
Proof.
  cbn zeta.
  destruct (busy_upload_untouched ex_app "u" "c" None [] false 100000 100000
    (with_busy {["u"%string]} ex_opened.2) eq_refl (proj2 (elem_of_singleton _ _) eq_refl))
    as (_ & H2 & _ & _ & _ & H6).
  destruct (busy_upload_untouched ex_app "u" "c" None [] false 1010 1010
    (with_busy {["u"%string]} ex_opened.2) eq_refl (proj2 (elem_of_singleton _ _) eq_refl)) as (H1 & _).
  split; [exact H1|]. split; [exact H2|exact H6].
Defined.


(** Completed at 1009, committed more than six hours later, swept at that moment. *)
Definition ex_late := commit_upload ex_limits "u" "c" 30000 ex_complete.

Lemma sweep_races_commit_witness :
  let swept := (sweep_walk (claims ex_complete) (open_upload_ids ex_late.2) 30000 21600 ex_late.2).2 in
  is_Some (swept.(mb_entries) !! "c") ∧ swept.(mb_files) !! blob_path "c" = None ∧
  (fetch "c" 30000 swept).1 = Err (Backend "No such file or directory").
Proof.
  apply (sweep_races_commit ex_limits "u" "c" 30000 21600 ex_complete ex_ct "c" 100 ex_late.2
    (mkFile ex_ct 1009)); [apply uploadingb_ok|..]; ex_decide.
Defined.

(** ** A linked file delivered *)

Definition ex_plain : bytes := bytes_of "hello w".
Definition ex_key : bytes := replicate 32 Byte.x07.
Definition ex_seal : LinkSeal := mkLinkSeal ex_key "revoke" "note.txt" 7.
Definition ex_link : SealedLayout :=
  match link_layout ex_seal with Ok l => l | Err _ => mailbox_layout ex_key 7 end.
Definition ex_blob : bytes :=
  match to_vec ex_link (fun _ => Some ex_plain) with Ok b => b | Err _ => [] end.

(** A layout of three chunks of at most three bytes, behind a prefix of two. *)
Definition ex_small : SealedLayout := new_layout ex_key 3 7 (bytes_of "AB") true.
Definition ex_small_whole : bytes :=
  match to_vec ex_small (fun _ => Some ex_plain) with Ok b => b | Err _ => [] end.

Lemma layout_ranges_witness :
  let r := stream ex_small (fun i => if i <? 2 then Some ex_plain else Some (bytes_of "hello")) 1 1000 in
  mjoin r.1 `prefix_of` slice 1 78 ex_small_whole ∧ zlen ex_small_whole = 69.
Proof.
  pose proof (layout_ranges ex_small ex_plain ex_small_whole
    (fun i => if i <? 2 then Some ex_plain else Some (bytes_of "hello")) 1 1000) as H.
  destruct H as (Hlen & Hpre & _).
  - vm_compute. split_and!; done || discriminate.
  - vm_compute. reflexivity.
  - intros i. destruct (i <? 2); [exists []|exists (bytes_of " w")]; vm_compute; reflexivity.
  - done.
  - split; [|done]. exact Hpre.
Defined.

Lemma link_roundtrip_witness :
  encrypt_link ex_seal ex_plain = Ok ex_blob ∧ decrypt_link ex_blob ex_key = Ok ("note.txt"%string, ex_plain).
Proof.
  assert (encrypt_link ex_seal ex_plain = Ok ex_blob) as H by (vm_compute; reflexivity).
  split; [exact H|]. apply (link_roundtrip ex_seal ex_plain ex_blob H); vm_compute; done || discriminate.
Defined.

(** ** The network *)

(** The tokens of this client are runs of the letter [t]. *)
Definition ex_tok (i : nat) : Token := string_of (replicate (S i) Byte.x74).
Definition ex_mine (c : Token) : bool := bool_decide (head (bytes_of c) = Some Byte.x74).
Definition ex_meta : DepositMeta := mkDepositMeta [Byte.x09] (blake3_hash (bytes_of "revoke")) 100 2.

Lemma ex_tok_mine i : ex_mine (ex_tok i) = true.
Proof. unfold ex_mine, ex_tok. rewrite bytes_of_string_of. by apply bool_decide_eq_true. Qed.

Lemma ex_tok_inj i j : ex_tok i = ex_tok j → i = j.
Proof.
  intros H%(f_equal bytes_of)%(f_equal length). unfold ex_tok in H.
  rewrite !bytes_of_string_of, !length_replicate in H. by injection H.
Qed.

Lemma ex_tok_trim i : str_trim (ex_tok i) = ex_tok i.
Proof.
  unfold str_trim, ex_tok. rewrite bytes_of_string_of. f_equal.
  assert (trim_start (replicate (S i) Byte.x74) = replicate (S i) Byte.x74) as ->.
  { apply strip_many_id. reflexivity. }
  unfold trim_end. rewrite reverse_replicate, strip_many_id by reflexivity. apply reverse_replicate.
Qed.

(** The first request is lost, the answer to the third is, and someone else deposits
    in between. *)
Definition ex_events (i : nat) : Event :=
  mkEvent (if decide (i = 1%nat) then [ODeposit "b" ex_rq ex_body 1001] else [])
    (1000 + Z.of_nat (i `mod` 8)) (1001 + Z.of_nat (i `mod` 8))
    (if decide (i = 0%nat) then Lost else if decide (i = 2%nat) then Unanswered else Fine).

Definition ex_big_app : App := mkApp (mkLimits 604800 100000 100000 200000 4 10 10 10 10 1000 3600) true true.

Lemma ex_net : net_ok ex_big_app ex_meta ex_tok ex_mine ex_events 1000 1020.
Proof.
  split; [done..|exact ex_tok_mine|exact ex_tok_inj|exact ex_tok_trim|].
  intros i. cbn. pose proof (Nat.mod_upper_bound i 8 ltac:(lia)). lia.
Qed.

Lemma ex_disturbed : disturbed_at_most 2 ex_events.
Proof.
  exists {[0%nat; 2%nat]}. split; [vm_compute; lia|]. intros i Hi. cbn.
  rewrite !decide_False by set_solver. done.
Qed.

Lemma ex_mailbox_inv n : mailbox_inv ex_tok ex_mine n in_memory.
Proof.
  split; [apply store_inv_empty|]. split; [set_solver|]. done.
Qed.

(** Running it: the claim is the token drawn for the commit. *)
Definition ex_run := @upload World (relay_outside ex_big_app ex_plain ex_tok ex_mine ex_events) _
  ex_link ex_meta 3 (S (length ex_blob)) "https://relay/" None (mkWorld in_memory 0).

Example ex_run_ends :
  match ex_run with Some (Ok done, _) => bool_decide (ex_mine (co_claim done) = true) | _ => false end = true.
Proof. vm_compute. reflexivity. Qed.


