(* ===== verification/Rendezvous.v ===== *)
(** * The rendezvous ([relay/src/mailbox.rs], [relay/src/http.rs])

    The short-code pairing board: a slot is a nameplate, its rows are values posted
    under short keys.  First the operations of [Mailbox] on the table, then the
    handlers of [/v1/rz/{slot}/{key}].  A slot speaks the old protocol (keys [ms],
    [mr], [tkt]) or, once it holds an [own] row, the long-lived one, in which every
    receiver has its own session. *)
From Stdlib Require Import Ascii.
From S2P Require Import Prelude.
From S2P Require Import Text.
From S2P Require Import Limits.
From S2P Require Import Store.
From S2P Require Import Mailbox.
From S2P Require Import UploadHttp.
Local Open Scope Z_scope.

(** ** The table *)

(** SQL's [LIKE]: [%] is any string, [_] any character, letters match in either case. *)
Definition ascii_lower (c : Ascii.ascii) : Ascii.ascii :=
  let n := Ascii.N_of_ascii c in
  if ((65 <=? n) && (n <=? 90))%N then Ascii.ascii_of_N (n + 32) else c.
Fixpoint drop_continuation (s : string) : string :=
  match s with
  | String c s' => let n := Ascii.N_of_ascii c in
                   if ((128 <=? n) && (n <? 192))%N then drop_continuation s' else s
  | "" => ""
  end%string.
Fixpoint sql_like (p s : string) : bool :=
  match p with
  | "" => bool_decide (s = "")
  | String "%"%char p =>
      (fix any s := sql_like p s || match s with String _ s => any s | "" => false end) s
  | String "_"%char p => match s with String _ s => sql_like p (drop_continuation s) | "" => false end
  | String c p =>
      match s with
      | String d s => bool_decide (ascii_lower c = ascii_lower d) && sql_like p s
      | "" => false
      end
  end%string.

(** [Mailbox::rz_claim]: [INSERT OR IGNORE]. *)
Definition rz_claim (slot key : string) (value : bytes) (expires_at : Z) (m : Mailbox)
    : bool * Mailbox :=
  match m.(mb_rendezvous) !! (slot, key) with
  | Some _ => (false, m)
  | None => (true, with_rendezvous
                     (<[(slot, key) := mkRzRow value (as_i64 expires_at)]> m.(mb_rendezvous)) m)
  end.

(** [Mailbox::rz_get]. *)
Definition rz_get (slot key : string) (now : Z) (m : Mailbox) : option bytes :=
  match m.(mb_rendezvous) !! (slot, key) with
  | Some r => if as_i64 now <? r.(rz_expires_at) then Some r.(rz_value) else None
  | None => None
  end.

(** [Mailbox::rz_touch_slot]. *)
Definition rz_touches (slot : string) (expires_at now : Z) (k : string * string) (r : RzRow) : bool :=
  bool_decide (k.1 = slot) && (as_i64 now <? r.(rz_expires_at)) && (r.(rz_expires_at) <? as_i64 expires_at).
Definition rz_touch_slot (slot : string) (expires_at now : Z) (m : Mailbox) : Z * Mailbox :=
  (count_where (rz_touches slot expires_at now) m.(mb_rendezvous),
   with_rendezvous
     (map_imap (fun k r => Some (if rz_touches slot expires_at now k r
                                 then mkRzRow r.(rz_value) (as_i64 expires_at) else r))
        m.(mb_rendezvous)) m).

(** [Mailbox::rz_delete_keys] and [Mailbox::rz_delete_slot]. *)
Definition rz_delete_keys (slot : string) (keys : list string) (m : Mailbox) : Mailbox :=
  foldl (fun m key => with_rendezvous (delete (slot, key) m.(mb_rendezvous)) m) m keys.
Definition rz_delete_slot (slot : string) (m : Mailbox) : Mailbox :=
  with_rendezvous (delete_where (fun k _ => bool_decide (k.1 = slot)) m.(mb_rendezvous)) m.

(** [Mailbox::rz_slot_keys_prefixed]. *)
Definition rz_slot_keys_prefixed (slot prefix : string) (now : Z) (m : Mailbox) : list string :=
  merge_sort String.le
    ((map_to_list (filter (fun p => p.1.1 = slot ∧ sql_like (prefix +:+ "%") p.1.2 = true ∧
        as_i64 now < p.2.(rz_expires_at)) m.(mb_rendezvous))).*1.*2).

(** [Mailbox::rz_slot_row_count], [Mailbox::rz_count] and [Mailbox::rz_reap]. *)
Definition rz_slot_row_count (slot : string) (now : Z) (m : Mailbox) : Z :=
  count_where (fun k r => bool_decide (k.1 = slot) && (as_i64 now <? r.(rz_expires_at))) m.(mb_rendezvous).
Definition rz_count (m : Mailbox) : Z := Z.of_nat (size m.(mb_rendezvous)).
Definition rz_reap (now : Z) (m : Mailbox) : Z * Mailbox :=
  (count_where (fun _ r => r.(rz_expires_at) <=? as_i64 now) m.(mb_rendezvous),
   with_rendezvous (delete_where (fun _ r => r.(rz_expires_at) <=? as_i64 now) m.(mb_rendezvous)) m).

(** ** Keys and authorisation *)

Definition RZ_TTL : Z := 600.
Definition RZ_CLAIM_KEY : string := "ms".
Definition RZ_TICKET_KEY : string := "tkt".
Definition MAX_RZ_KEYS_PER_SLOT : Z := 32.
Definition RZ_OWN_KEY : string := "own".
Definition RZ_SESSIONS_KEY : string := "sessions".
Definition RZ_P_RECV : string := "r.".
Definition RZ_P_SEND : string := "s.".
Definition RZ_P_CONF : string := "c.".
Definition RZ_P_TKT : string := "t.".
Definition RZ_P_BACK : string := "b.".
Definition RZ_P_XTRA : string := "x.".
Definition RZ_V2_MARKER : bytes := bytes_of "2".
Definition RZ_OWN_ROW_LEN : nat := 40.
Definition RZ_V2_LEASE_SECS : Z := 3600.
Definition RZ_MAX_SLOT_LIFETIME : Z := 24 * 3600.
Definition RZ_SESSIONS_MAX_WAIT : Z := 30.
Definition MAX_RZ_VALUE_BYTES : Z := 64 * 1024.

(** [data_encoding::BASE32_NOPAD]. *)
Class Base32 : Type := { base32_decode : string → option bytes }.

Fixpoint to_ascii_uppercase (s : string) : string :=
  match s with
  | String c s =>
      let n := Ascii.N_of_ascii c in
      String (if ((97 <=? n) && (n <=? 122))%N then Ascii.ascii_of_N (n - 32) else c)
        (to_ascii_uppercase s)
  | "" => ""
  end%string.

(** [str::starts_with], and the rest of the string after a prefix. *)
Definition after (p s : string) : option string :=
  string_of <$> strip_prefix (bytes_of p) (bytes_of s).

(** [rz_bearer]: [auth] is the [Authorization] header, when it reads as text. *)
Definition rz_bearer `{!Base32} (auth : option string) : option bytes :=
  match auth with
  | None => None
  | Some auth =>
      match (match after "Bearer " auth with Some t => Some t | None => after "bearer " auth end) with
      | None => None
      | Some token => base32_decode (to_ascii_uppercase (str_trim token))
      end
  end.

(** [u64::from_le_bytes] and [u64::to_le_bytes]. *)
Definition u64_from_le (b : bytes) : Z := Z.of_N (le_value b).
Definition u64_to_le (x : Z) : bytes := le_bytes 8 (Z.to_N x).

(** [rz_own_row]: the token hash and the creation stamp of a live slot. *)
Definition rz_own_row (slot : string) (now : Z) (m : Mailbox) : option (bytes * Z) :=
  match rz_get slot RZ_OWN_KEY now m with
  | None => None
  | Some row =>
      if negb (length row =? RZ_OWN_ROW_LEN)%nat then None
      else Some (take 32 row, u64_from_le (drop 32 row))
  end.

(** A refusal: the status and its text. *)
Abbreviation Refusal := (Z * string)%type.
Definition TOO_MANY_REQUESTS : Z := 429.
Definition METHOD_NOT_ALLOWED : Z := 405.

(** [rz_owner]. *)
Definition rz_owner `{!Blake3Hash, !Base32} (auth : option string) (slot : string) (now : Z)
    (m : Mailbox) : result Z Refusal :=
  match rz_own_row slot now m with
  | None => Err (NOT_FOUND, "no such rendezvous slot"%string)
  | Some (want, created) =>
      match rz_bearer auth with
      | None => Err (FORBIDDEN, "slot owner token required"%string)
      | Some token =>
          if negb (constant_time_eq (blake3_hash token) want)
          then Err (FORBIDDEN, "not the owner of this slot"%string)
          else Ok created
      end
  end.

(** [rz_v2_expiry]. *)
Definition rz_v2_expiry (created now : Z) : Z :=
  Z.min (sat_add now RZ_V2_LEASE_SECS) (sat_add created RZ_MAX_SLOT_LIFETIME).

(** [rz_session_prefix]. *)
Definition rz_session_prefix (key : string) : option string :=
  find (fun p => match after p key with
                 | Some _ => (String.length p <? String.length key)%nat
                 | None => false
                 end)
    [RZ_P_RECV; RZ_P_SEND; RZ_P_CONF; RZ_P_TKT; RZ_P_BACK; RZ_P_XTRA].

(** [valid_rz_key]. *)
Definition ascii_lower_or_digit (c : Ascii.ascii) : bool :=
  let n := Ascii.N_of_ascii c in
  ((97 <=? n) && (n <=? 122))%N || ((48 <=? n) && (n <=? 57))%N.
Definition rz_key_char (c : Ascii.ascii) : bool :=
  ascii_lower_or_digit c || bool_decide (c ∈ ["."; "_"; "-"]%char).
Definition valid_rz_key (k : string) : bool :=
  match k with
  | String c _ => (String.length k <=? 64)%nat && ascii_lower_or_digit c && string_all rz_key_char k
  | "" => false
  end%string.

(** ** The handlers *)

(** What a GET answers: a body, or the sessions listing, which is held open. *)
Inductive RzReply := Body (b : bytes) | Held (slot : string) (deadline : Z).

(** One look of the sessions listing: the receivers waiting for an answer. *)
Definition rz_pending (slot : string) (now : Z) (m : Mailbox) : list string :=
  let answered := omap (after RZ_P_SEND) (rz_slot_keys_prefixed slot RZ_P_SEND now m) in
  filter (fun sid => sid ∉ answered) (omap (after RZ_P_RECV) (rz_slot_keys_prefixed slot RZ_P_RECV now m)).

(** The loop of [rz_sessions]: the looks it takes, each at its moment and on the
    store as it is then, until one has a session to report or the deadline passed. *)
Fixpoint rz_sessions_loop (slot : string) (deadline : Z) (looks : list (Z * Mailbox)) : option bytes :=
  match looks with
  | [] => None
  | (now, m) :: looks =>
      match rz_pending slot now m with
      | (_ :: _) as pending => Some (bytes_of (String.concat (String "010" "") pending))
      | [] => if deadline <=? now then Some [] else rz_sessions_loop slot deadline looks
      end
  end.

Section handlers.
Context `{!Blake3Hash, !Base32} {Ip : Type} `{Countable Ip} (lim : Limits) (caps : RzCaps).

Definition rz_limit (L : RzLimiter Ip) (ip : option Ip) (action : RzAction) (now : Z)
    : result unit Refusal * RzLimiter Ip :=
  let '(r, L) := rz_rate_limit L ip action now (post_cap_of caps action) caps.(cap_slots) in
  (match r with Ok _ => Ok tt | Err e => Err (TOO_MANY_REQUESTS, e) end, L).

(** Which protocol a write belongs to: when its row expires, or why it is refused. *)
Definition rz_write_expiry (L : RzLimiter Ip) (ip : option Ip) (auth : option string)
    (slot key : string) (body : bytes) (now : Z) (m : Mailbox)
    : result Z Refusal * RzLimiter Ip :=
  let own := rz_own_row slot now m in
  if bool_decide (key = RZ_OWN_KEY) then
    let '(r, L) := rz_limit L ip Claim now in
    (match r with
     | Err e => Err e
     | Ok _ =>
         if negb (length body =? 32)%nat then Err (BAD_REQUEST, "own takes a 32-byte token hash"%string)
         else if bool_decide (is_Some (rz_get slot RZ_CLAIM_KEY now m))
         then Err (CONFLICT, "slot already taken"%string)
         else Ok (sat_add now RZ_V2_LEASE_SECS)
     end, L)
  else
    (match rz_session_prefix key with
     | Some prefix =>
         match own with
         | None => Err (NOT_FOUND, "no such rendezvous slot"%string)
         | Some (_, created) =>
             let owner := if bool_decide (prefix = RZ_P_SEND ∨ prefix = RZ_P_TKT)
                          then rz_owner auth slot now m else Ok created in
             match owner with
             | Err e => Err e
             | Ok _ =>
                 let exp := rz_v2_expiry created now in
                 if exp <=? now then Err (GONE, "rendezvous slot has expired"%string) else Ok exp
             end
         end
     | None =>
         if bool_decide (is_Some own) then Err (CONFLICT, "slot already taken"%string)
         else Ok (sat_add now RZ_TTL)
     end, L).

(** [rz_post_handler]. *)
Definition rz_post_handler (ip : option Ip) (auth : option string) (slot key : string)
    (body : bytes) (now : Z) (L : RzLimiter Ip) (m : Mailbox)
    : result string Refusal * RzLimiter Ip * Mailbox :=
  let '(r, L) := rz_limit L ip Post now in
  match r with
  | Err e => (Err e, L, m)
  | Ok _ =>
      if negb (valid_rz_key key) then (Err (BAD_REQUEST, "invalid rendezvous key"%string), L, m)
      else if bool_decide (key = RZ_SESSIONS_KEY)
      then (Err (METHOD_NOT_ALLOWED, "sessions is read-only"%string), L, m)
      else if MAX_RZ_VALUE_BYTES <? Z.of_nat (length body)
      then (Err (PAYLOAD_TOO_LARGE, "rendezvous value too large"%string), L, m)
      else if lim.(max_rz_rows) <=? rz_count m
      then (Err (INSUFFICIENT_STORAGE, "relay at capacity"%string), L, m)
      else if MAX_RZ_KEYS_PER_SLOT <=? rz_slot_row_count slot now m
      then (Err (INSUFFICIENT_STORAGE, "rendezvous slot is full"%string), L, m)
      else
        let '(exp, L) := rz_write_expiry L ip auth slot key body now m in
        match exp with
        | Err e => (Err e, L, m)
        | Ok exp =>
            let value := if bool_decide (key = RZ_OWN_KEY) then body ++ u64_to_le now else body in
            let '(claimed, m) := rz_claim slot key value exp m in
            if negb claimed then
              (Err (CONFLICT, if bool_decide (key = RZ_CLAIM_KEY ∨ key = RZ_OWN_KEY)
                              then "slot already taken"%string
                              else "rendezvous key already written"%string), L, m)
            else (Ok "ok"%string, L, m)
        end
  end.

(** The head of [rz_sessions]: it authenticates, renews the slot and is then held. *)
Definition rz_sessions (auth : option string) (slot : string) (wait now : Z) (m : Mailbox)
    : result RzReply Refusal * Mailbox :=
  match rz_owner auth slot now m with
  | Err e => (Err e, m)
  | Ok created =>
      let exp := rz_v2_expiry created now in
      if exp <=? now then (Err (GONE, "rendezvous slot has expired"%string), m)
      else (Ok (Held slot (sat_add now (Z.min wait RZ_SESSIONS_MAX_WAIT))),
            (rz_touch_slot slot exp now m).2)
  end.

(** The keys one answered session leaves behind when its payload is collected. *)
Definition rz_session_keys (sid : string) : list string :=
  (fun p => (p +:+ sid)%string) <$> [RZ_P_RECV; RZ_P_SEND; RZ_P_CONF; RZ_P_TKT].

(** [rz_get_handler], after its rate limit. *)
Definition rz_read (auth : option string) (slot key : string) (wait now : Z) (m : Mailbox)
    : result RzReply Refusal * Mailbox :=
  let not_yet := Err (NOT_FOUND, "not yet"%string) in
  if bool_decide (key = RZ_OWN_KEY) then
    (match rz_own_row slot now m with Some _ => Ok (Body RZ_V2_MARKER) | None => not_yet end, m)
  else if bool_decide (key = RZ_SESSIONS_KEY) then rz_sessions auth slot wait now m
  else
    match rz_session_prefix key with
    | Some prefix =>
        let owner := if bool_decide (prefix ∈ [RZ_P_RECV; RZ_P_CONF; RZ_P_BACK; RZ_P_XTRA])
                     then rz_owner auth slot now m else Ok 0 in
        match owner with
        | Err e => (Err e, m)
        | Ok _ =>
            match rz_get slot key now m with
            | None => (not_yet, m)
            | Some v =>
                let m := if bool_decide (prefix = RZ_P_TKT)
                         then rz_delete_keys slot (rz_session_keys (default "" (after RZ_P_TKT key))) m
                         else m in
                let m := if bool_decide (prefix = RZ_P_BACK ∨ prefix = RZ_P_XTRA)
                         then rz_delete_keys slot [key] m else m in
                (Ok (Body v), m)
            end
        end
    | None =>
        if bool_decide (key = RZ_CLAIM_KEY) && bool_decide (is_Some (rz_own_row slot now m))
        then (Err (GONE, "this code needs a newer arvolo (rendezvous v2)"%string), m)
        else
          match rz_get slot key now m with
          | Some v => (Ok (Body v), if bool_decide (key = RZ_TICKET_KEY) then rz_delete_slot slot m else m)
          | None => (not_yet, m)
          end
    end.

Definition rz_get_handler (ip : option Ip) (auth : option string) (slot key : string)
    (wait now : Z) (L : RzLimiter Ip) (m : Mailbox)
    : result RzReply Refusal * RzLimiter Ip * Mailbox :=
  if negb (valid_rz_key key) then (Err (BAD_REQUEST, "invalid rendezvous key"%string), L, m)
  else
    let '(r, L) := rz_limit L ip (GetSlot slot) now in
    match r with
    | Err e => (Err e, L, m)
    | Ok _ => let '(r, m) := rz_read auth slot key wait now m in (r, L, m)
    end.

(** [rz_delete_handler]. *)
Definition rz_delete_handler (ip : option Ip) (auth : option string) (slot key : string)
    (now : Z) (L : RzLimiter Ip) (m : Mailbox)
    : result string Refusal * RzLimiter Ip * Mailbox :=
  let '(r, L) := rz_limit L ip (GetSlot slot) now in
  match r with
  | Err e => (Err e, L, m)
  | Ok _ =>
      if negb (bool_decide (key = RZ_OWN_KEY))
      then (Err (METHOD_NOT_ALLOWED, "only the slot claim can be deleted"%string), L, m)
      else
        match rz_owner auth slot now m with
        | Err e => (Err e, L, m)
        | Ok _ => (Ok "ok"%string, L, rz_delete_slot slot m)
        end
  end.
End handlers.
