(* ===== verification/RendezvousFacts.v ===== *)
(** * What the rendezvous guarantees

    Posts, reads and deletions of [/v1/rz] as the steps of a run: what a step can do
    to a row, and what follows for every run. *)
From Stdlib Require Import Ascii.
From S2P Require Import Prelude.
From S2P Require Import Text.
From S2P Require Import Limits.
From S2P Require Import Store.
From S2P Require Import Mailbox.
From S2P Require Import UploadHttp.
From S2P Require Import MailboxFacts.
From S2P Require Import Rendezvous.
Local Open Scope Z_scope.

(** ** Strings *)

Lemma bytes_of_inj a b : bytes_of a = bytes_of b → a = b.
Proof. intros Hb. rewrite <- (string_of_bytes_of a), <- (string_of_bytes_of b). by rewrite Hb. Qed.

Lemma after_Some p s t : after p s = Some t ↔ s = (p +:+ t)%string.
Proof.
  unfold after. rewrite fmap_Some. split.
  - intros (b & Hs%strip_prefix_Some & ->). apply bytes_of_inj.
    by rewrite bytes_of_app, bytes_of_string_of.
  - intros ->. exists (bytes_of t). rewrite bytes_of_app, strip_prefix_app, string_of_bytes_of. done.
Qed.

Lemma session_key_split key p :
  rz_session_prefix key = Some p →
  p ∈ [RZ_P_RECV; RZ_P_SEND; RZ_P_CONF; RZ_P_TKT; RZ_P_BACK; RZ_P_XTRA] ∧
  ∃ sid, key = (p +:+ sid)%string.
Proof.
  intros Hf%find_some. destruct Hf as [Hin Hp]. split; [by apply list_elem_of_In|].
  destruct (after p key) as [sid|] eqn:E; [|done]. exists sid. by apply after_Some.
Qed.

(** A lower-case string is its own lower-case form, and a prefix without wildcards
    followed by [%] matches exactly the strings that extend it. *)
Lemma sql_like_any s : sql_like "%" s = true.
Proof. induction s as [|c s IH]; [done|]. cbn in *. by rewrite IH, orb_true_r. Qed.

Definition plain_char (c : Ascii.ascii) : bool :=
  bool_decide (ascii_lower c = c) && negb (bool_decide (c ∈ ["%"; "_"]%char)).

Lemma ascii_lower_key c : rz_key_char c = true → ascii_lower c = c.
Proof. by destruct c as [[] [] [] [] [] [] [] []]. Qed.

Lemma sql_like_prefix p s :
  string_all plain_char p = true → string_all rz_key_char s = true →
  sql_like (p +:+ "%") s = true ↔ ∃ t, s = (p +:+ t)%string.
Proof.
  revert s. induction p as [|c p IH]; intros s Hp Hs.
  - rewrite string_app_nil, sql_like_any. split; [|done]. intros _. by exists s.
  - cbn [string_all] in Hp. apply andb_true_iff in Hp as [Hc Hp]. rewrite string_app_cons.
    assert (∀ q, sql_like (String c q) s = match s with
      | String d s => bool_decide (ascii_lower c = ascii_lower d) && sql_like q s | "" => false end%string) as E.
    { intros q. destruct c as [[] [] [] [] [] [] [] []]; try done. }
    rewrite E. destruct s as [|d s].
    + split; [done|]. intros [t Ht]. by rewrite string_app_cons in Ht.
    + cbn [string_all] in Hs. apply andb_true_iff in Hs as [Hd Hs].
      apply andb_true_iff in Hc as [Hc%bool_decide_eq_true _]. apply ascii_lower_key in Hd.
      rewrite Hc, Hd, andb_true_iff, bool_decide_eq_true, IH by done. split.
      * intros [-> [t ->]]. exists t. by rewrite string_app_cons.
      * intros [t Ht]. rewrite string_app_cons in Ht. injection Ht as -> ->. eauto.
Qed.

(** ** Little-endian stamps *)

Lemma u64_from_to_le x : is_u64 x → u64_from_le (u64_to_le x) = x.
Proof.
  intros Hx. unfold u64_from_le, u64_to_le. rewrite le_value_bytes; [unfold is_u64 in *; lia|].
  unfold is_u64, U64_MAX in *. change (256 ^ N.of_nat 8)%N with (2 ^ 64)%N. lia.
Qed.

(** ** The table *)

Lemma lookup_rz_touch slot e now m k :
  (rz_touch_slot slot e now m).2.(mb_rendezvous) !! k =
    (fun r => if rz_touches slot e now k r then mkRzRow r.(rz_value) (as_i64 e) else r)
      <$> m.(mb_rendezvous) !! k.
Proof. unfold rz_touch_slot. cbn. rewrite map_lookup_imap. by destruct (_ !! k). Qed.

Lemma lookup_rz_delete_keys slot keys m k :
  (rz_delete_keys slot keys m).(mb_rendezvous) !! k =
    if bool_decide (k.1 = slot ∧ k.2 ∈ keys) then None else m.(mb_rendezvous) !! k.
Proof.
  revert m. induction keys as [|key keys IH]; intros m.
  - rewrite bool_decide_false by set_solver. done.
  - change (rz_delete_keys slot (key :: keys) m) with
      (rz_delete_keys slot keys (with_rendezvous (delete (slot, key) m.(mb_rendezvous)) m)).
    rewrite IH. cbn. rewrite lookup_delete_at. destruct k as [s j]. cbn.
    repeat (case_bool_decide || case_decide); simplify_eq; try done; set_solver.
Qed.

Lemma lookup_rz_delete_slot slot m k :
  (rz_delete_slot slot m).(mb_rendezvous) !! k =
    if bool_decide (k.1 = slot) then None else m.(mb_rendezvous) !! k.
Proof. cbn. rewrite lookup_delete_where. destruct (_ !! k); case_bool_decide; done. Qed.

(** ** Steps *)

Inductive RzOp {Ip : Type} :=
  | RzPost (ip : option Ip) (auth : option string) (slot key : string) (body : bytes) (now : Z)
  | RzGet (ip : option Ip) (auth : option string) (slot key : string) (wait now : Z)
  | RzDelete (ip : option Ip) (auth : option string) (slot key : string) (now : Z)
  | RzReap (now : Z).
Arguments RzOp : clear implicits.

Definition rz_time {Ip} (op : RzOp Ip) : Z :=
  match op with
  | RzPost _ _ _ _ _ now | RzGet _ _ _ _ _ now | RzDelete _ _ _ _ now | RzReap now => now
  end.

Section facts.
Context `{!Blake3Hash, !Base32} {Ip : Type} `{Countable Ip} (lim : Limits) (caps : RzCaps).

Definition rz_step (op : RzOp Ip) (s : RzLimiter Ip * Mailbox) : RzLimiter Ip * Mailbox :=
  let '(L, m) := s in
  match op with
  | RzPost ip auth slot key body now =>
      let '(_, L, m) := rz_post_handler lim caps ip auth slot key body now L m in (L, m)
  | RzGet ip auth slot key wait now =>
      let '(_, L, m) := rz_get_handler caps ip auth slot key wait now L m in (L, m)
  | RzDelete ip auth slot key now =>
      let '(_, L, m) := rz_delete_handler caps ip auth slot key now L m in (L, m)
  | RzReap now => (L, (rz_reap now m).2)
  end.

Definition rz_run (ops : list (RzOp Ip)) s := foldl (fun s op => rz_step op s) s ops.

(** What an accepted post passed. *)
Lemma rz_post_ok ip auth slot key body now (L : RzLimiter Ip) m r L' m' :
  rz_post_handler lim caps ip auth slot key body now L m = (r, L', m') →
  (m' = m ∧ ∃ e, r = Err e) ∨
  (r = Ok "ok"%string ∧ valid_rz_key key = true ∧ key ≠ RZ_SESSIONS_KEY ∧
   rz_count m < lim.(max_rz_rows) ∧ rz_slot_row_count slot now m < MAX_RZ_KEYS_PER_SLOT ∧
   m.(mb_rendezvous) !! (slot, key) = None ∧
   ∃ (L1 : RzLimiter Ip) exp, (rz_write_expiry caps L1 ip auth slot key body now m).1 = Ok exp ∧
     m' = with_rendezvous (<[(slot, key) := mkRzRow
            (if bool_decide (key = RZ_OWN_KEY) then body ++ u64_to_le now else body) (as_i64 exp)]>
            m.(mb_rendezvous)) m).
Proof.
  unfold rz_post_handler. intros Hp.
  destruct (rz_limit caps L ip Post now) as [[u|e] L1]; [|left; injection Hp as <- <- <-; eauto].
  do 5 (case_in Hp; [left; injection Hp as <- <- <-; eauto|]).
  destruct (rz_write_expiry caps L1 ip auth slot key body now m) as [[exp|e] L2] eqn:Ew;
    [|left; injection Hp as <- <- <-; eauto].
  unfold rz_claim in Hp. destruct (mb_rendezvous m !! (slot, key)) eqn:Er.
  { left. injection Hp as <- <- <-. eauto. }
  right. injection Hp as <- <- <-. apply negb_false_iff in Heqb.
  apply bool_decide_eq_false in Heqb0. zbool. split_and!; try done. exists L1, exp. by rewrite Ew.
Qed.

(** What can happen to the row [k] in one step. *)
Inductive row_change (op : RzOp Ip) (m : Mailbox) (k : string * string)
    : option RzRow → option RzRow → Prop :=
  | rc_same o : row_change op m k o o
  | rc_burn r : row_change op m k (Some r) None
  | rc_renew r ip auth wait now created :
      op = RzGet ip auth k.1 RZ_SESSIONS_KEY wait now →
      rz_owner auth k.1 now m = Ok created →
      as_i64 now < r.(rz_expires_at) < as_i64 (rz_v2_expiry created now) →
      row_change op m k (Some r) (Some (mkRzRow r.(rz_value) (as_i64 (rz_v2_expiry created now))))
  | rc_post ip auth body now exp (L : RzLimiter Ip) :
      op = RzPost ip auth k.1 k.2 body now → valid_rz_key k.2 = true →
      (rz_write_expiry caps L ip auth k.1 k.2 body now m).1 = Ok exp →
      row_change op m k None (Some (mkRzRow
        (if bool_decide (k.2 = RZ_OWN_KEY) then body ++ u64_to_le now else body) (as_i64 exp))).

Lemma row_change_delete op m k (b : bool) o : row_change op m k o (if b then None else o).
Proof. destruct b, o; constructor. Qed.

Lemma rz_read_change ip auth slot key wait now m k :
  row_change (RzGet ip auth slot key wait now) m k (m.(mb_rendezvous) !! k)
    ((rz_read auth slot key wait now m).2.(mb_rendezvous) !! k).
Proof.
  unfold rz_read. case_bool_decide as Ho; [apply rc_same|]. case_bool_decide as Hs.
  - subst key. unfold rz_sessions.
    destruct (rz_owner auth slot now m) as [created|e] eqn:Eo; [|apply rc_same].
    case_bool; [apply rc_same|]. cbn [snd]. rewrite lookup_rz_touch.
    destruct (mb_rendezvous m !! k) as [r|] eqn:Er; [|apply rc_same]. cbn [fmap option_fmap option_map].
    destruct (rz_touches _ _ _ k r) eqn:Et; [|apply rc_same].
    unfold rz_touches in Et. apply andb_true_iff in Et as [[<-%bool_decide_eq_true Hl]%andb_true_iff Hg].
    zbool. by eapply rc_renew.
  - destruct (rz_session_prefix key) as [p|].
    + destruct (if bool_decide (p ∈ _) then _ else _); [|apply rc_same].
      clear Ho Hs.
      destruct (rz_get slot key now m); [|apply rc_same]. cbn [snd].
      case_bool_decide as Ht; case_bool_decide as Hb; rewrite ?lookup_rz_delete_keys.
      * exfalso. destruct Ht as [Ht|Ht]; rewrite Ht in Hb; discriminate Hb.
      * apply row_change_delete.
      * apply row_change_delete.
      * apply rc_same.
    + case_bool; [apply rc_same|]. destruct (rz_get slot key now m); [|apply rc_same]. cbn [snd].
      destruct (bool_decide (key = RZ_TICKET_KEY)); [|apply rc_same].
      rewrite lookup_rz_delete_slot. apply row_change_delete.
Qed.

Lemma rz_step_change op s k :
  row_change op s.2 k (s.2.(mb_rendezvous) !! k) ((rz_step op s).2.(mb_rendezvous) !! k).
Proof.
  destruct s as [L m]. destruct op as [ip auth slot key body now|ip auth slot key wait now
    |ip auth slot key now|now]; cbn [rz_step].
  - destruct (rz_post_handler _ _ _ _ _ _ _ _ _ _) as [[r L'] m'] eqn:E. cbn [snd].
    destruct (rz_post_ok _ _ _ _ _ _ _ _ _ _ _ E) as [[-> _]|(_ & Hv & _ & _ & _ & Hn & L1 & exp & Hx & ->)];
      [apply rc_same|]. cbn [mb_rendezvous with_rendezvous]. rewrite lookup_insert_dec.
    destruct (decide (k = (slot, key))) as [->|Hk]; [|apply rc_same]. rewrite Hn. by eapply (rc_post _ _ (slot, key)).
  - unfold rz_get_handler. case_bool; [apply rc_same|].
    destruct (rz_limit caps L ip (GetSlot slot) now) as [[u|e] L1]; [|apply rc_same].
    pose proof (rz_read_change ip auth slot key wait now m k) as Hc.
    by destruct (rz_read auth slot key wait now m).
  - unfold rz_delete_handler. destruct (rz_limit caps L ip (GetSlot slot) now) as [[u|e] L1]; [|apply rc_same].
    case_bool; [apply rc_same|]. destruct (rz_owner auth slot now m); [|apply rc_same].
    cbn [snd]. rewrite lookup_rz_delete_slot. apply row_change_delete.
  - cbn. rewrite lookup_delete_where. destruct (mb_rendezvous m !! k); [|apply rc_same].
    apply row_change_delete.
Qed.

(** Where a row that is there after a step comes from. *)
Lemma row_change_into op m k o r' :
  row_change op m k o (Some r') →
  o = Some r' ∨
  (∃ r ip auth wait now created, o = Some r ∧ op = RzGet ip auth k.1 RZ_SESSIONS_KEY wait now ∧
     rz_owner auth k.1 now m = Ok created ∧
     as_i64 now < r.(rz_expires_at) < as_i64 (rz_v2_expiry created now) ∧
     r' = mkRzRow r.(rz_value) (as_i64 (rz_v2_expiry created now))) ∨
  (∃ ip auth body now exp (L : RzLimiter Ip), o = None ∧ op = RzPost ip auth k.1 k.2 body now ∧
     valid_rz_key k.2 = true ∧ (rz_write_expiry caps L ip auth k.1 k.2 body now m).1 = Ok exp ∧
     r' = mkRzRow (if bool_decide (k.2 = RZ_OWN_KEY) then body ++ u64_to_le now else body) (as_i64 exp)).
Proof. intros Hc. inversion Hc; subst; [by left|right; left|right; right]; repeat eexists; eauto; lia. Qed.

(** ** First writer wins *)

Lemma row_change_first op m k r o :
  row_change op m k (Some r) o →
  o = None ∨ ∃ r', o = Some r' ∧ r'.(rz_value) = r.(rz_value) ∧ r.(rz_expires_at) <= r'.(rz_expires_at).
Proof.
  intros Hc. inversion Hc; subst; [right; exists r; split_and!; [done|done|lia]|by left|].
  right. eexists. split; [done|]. cbn. split; [done|lia].
Qed.

(** First writer wins: a value once posted is never replaced. A post under a key
    that has a row is refused and changes nothing in the store, and through any run
    in which the row is not removed its value stays and its expiry only moves out. *)
Theorem rz_first_write_wins k r (s : RzLimiter Ip * Mailbox)
    (Hr : s.2.(mb_rendezvous) !! k = Some r) :
  (∀ ip auth body now, let '(ans, _, m') := rz_post_handler lim caps ip auth k.1 k.2 body now s.1 s.2 in
     is_ok ans = false ∧ m' = s.2) ∧
  ∀ ops, (∀ n, is_Some ((rz_run (take n ops) s).2.(mb_rendezvous) !! k)) →
    ∃ r', (rz_run ops s).2.(mb_rendezvous) !! k = Some r' ∧ r'.(rz_value) = r.(rz_value) ∧
      r.(rz_expires_at) <= r'.(rz_expires_at).
Proof.
  split.
  - intros ip auth body now. destruct (rz_post_handler _ _ _ _ _ _ _ _ _ _) as [[ans L'] m'] eqn:E.
    destruct (rz_post_ok _ _ _ _ _ _ _ _ _ _ _ E) as [[-> [e ->]]|(_ & _ & _ & _ & _ & Hn & _)]; [done|].
    rewrite <- surjective_pairing in Hn. congruence.
  - intros ops. revert s r Hr. induction ops as [|op ops IH]; intros s r Hr Hkeep;
      [exists r; split_and!; [done|done|lia]|].
    assert (is_Some ((rz_step op s).2.(mb_rendezvous) !! k)) as [r1 Hr1] by exact (Hkeep 1%nat).
    pose proof (rz_step_change op s k) as Hc. rewrite Hr, Hr1 in Hc.
    destruct (row_change_first _ _ _ _ _ Hc) as [?|(r1' & [= <-] & Hv & He)]; [done|].
    destruct (IH _ r1 Hr1 (fun n => Hkeep (S n))) as (r' & H3 & H4 & H5).
    exists r'. split; [exact H3|]. split; [congruence|lia].
Qed.

(** ** The owner's authority *)

Lemma rz_owner_ok auth slot now m created :
  rz_owner auth slot now m = Ok created ↔
  ∃ token, rz_bearer auth = Some token ∧ rz_own_row slot now m = Some (blake3_hash token, created).
Proof.
  unfold rz_owner. destruct (rz_own_row slot now m) as [[want c]|]; [|split; [done|by intros (? & _ & ?)]].
  destruct (rz_bearer auth) as [token|]; [|split; [done|by intros (? & ? & _)]].
  case_bool; zbool.
  - split; [done|]. intros (t & [= <-] & [= -> <-]).
    by rewrite (proj2 (constant_time_eq_spec _ _) eq_refl) in Heqb.
  - apply constant_time_eq_spec in Heqb. split.
    + intros [= <-]. exists token. by rewrite Heqb.
    + by intros (t & [= <-] & [= _ <-]).
Qed.

(** The request carries the token whose hash the slot records. *)
Definition owns (auth : option string) (slot : string) (now : Z) (m : Mailbox) : Prop :=
  ∃ token created, rz_bearer auth = Some token ∧
    rz_own_row slot now m = Some (blake3_hash token, created).

Lemma rz_owner_owns auth slot now m c : rz_owner auth slot now m = Ok c → owns auth slot now m.
Proof. intros (token & ?)%rz_owner_ok. by exists token, c. Qed.

(** Only the holder of the slot's token speaks for its sender or listens for it:
    a row under [s.] or [t.] appears only by a post that carries that token, a read
    of [r.], [c.], [b.], [x.] or of the sessions answers only a request that does,
    and so does the deletion of the slot. *)
Theorem rz_owner_only (s : RzLimiter Ip * Mailbox) slot key :
  (∀ op p r, rz_session_prefix key = Some p → p ∈ [RZ_P_SEND; RZ_P_TKT] →
     s.2.(mb_rendezvous) !! (slot, key) = None →
     (rz_step op s).2.(mb_rendezvous) !! (slot, key) = Some r →
     ∃ ip auth body now, op = RzPost ip auth slot key body now ∧ owns auth slot now s.2 ∧
       r.(rz_value) = body) ∧
  (∀ auth wait now rep m', rz_read auth slot key wait now s.2 = (Ok rep, m') →
     key = RZ_SESSIONS_KEY ∨ (∃ p, rz_session_prefix key = Some p ∧
       p ∈ [RZ_P_RECV; RZ_P_CONF; RZ_P_BACK; RZ_P_XTRA]) →
     owns auth slot now s.2) ∧
  (∀ ip auth now L' m' ans, rz_delete_handler caps ip auth slot key now s.1 s.2 = (Ok ans, L', m') →
     key = RZ_OWN_KEY ∧ owns auth slot now s.2).
Proof.
  split_and!.
  - intros op p r Hp Hin Hn Hr. pose proof (rz_step_change op s (slot, key)) as Hc.
    rewrite Hn, Hr in Hc. apply row_change_into in Hc as [?|[(? & ? & ? & ? & ? & ? & ? & _)
      |(ip & auth & body & now & exp & L & _ & -> & Hv & Hx & ->)]]; [done|done|]. cbn [fst snd] in *.
    unfold rz_write_expiry in Hx.
    destruct (bool_decide (key = RZ_OWN_KEY)) eqn:Eo.
    { apply bool_decide_eq_true in Eo as ->. by cbn in Hp. }
    exists ip, auth, body, now. split; [done|]. rewrite Hp in Hx. cbn [fst] in Hx.
    destruct (rz_own_row slot now s.2) as [[h c]|]; [|done].
    assert (bool_decide (p = RZ_P_SEND ∨ p = RZ_P_TKT) = true) as Hb.
    { apply bool_decide_eq_true. set_solver. }
    rewrite Hb in Hx. destruct (rz_owner auth slot now s.2) as [c'|] eqn:Ow; [|done].
    split; [by eapply rz_owner_owns|done].
  - intros auth wait now rep m' Hread Hkey. unfold rz_read in Hread.
    destruct Hkey as [->|(p & Hp & Hin)].
    + cbn in Hread. unfold rz_sessions in Hread.
      destruct (rz_owner auth slot now s.2) as [c|] eqn:Ow; [|done]. by eapply rz_owner_owns.
    + case_bool_decide as Ho; [subst key; by cbn in Hp|].
      case_bool_decide as Hs; [subst key; by cbn in Hp|].
      rewrite Hp, bool_decide_true in Hread by done.
      destruct (rz_owner auth slot now s.2) as [c|] eqn:Ow; [|done]. by eapply rz_owner_owns.
  - intros ip auth now L' m' ans Hd. unfold rz_delete_handler in Hd.
    destruct (rz_limit _ _ _ _ _) as [[u|e] L1]; [|done].
    case_bool_decide as Ho; [|done]. cbn in Hd.
    destruct (rz_owner auth slot now s.2) as [c|] eqn:Ow; [|done].
    split; [done|]. by eapply rz_owner_owns.
Qed.

(** ** Collecting a payload *)

Lemma rz_session_prefix_tkt sid :
  sid ≠ ""%string → rz_session_prefix (RZ_P_TKT +:+ sid) = Some RZ_P_TKT.
Proof.
  intros Hs. unfold rz_session_prefix. cbn [find].
  rewrite (proj2 (after_Some RZ_P_TKT _ sid) eq_refl).
  assert ((String.length RZ_P_TKT <? String.length (RZ_P_TKT +:+ sid))%nat = true) as ->.
  { rewrite string_app_length. by destruct sid. }
  assert (∀ q, q ∈ [RZ_P_RECV; RZ_P_SEND; RZ_P_CONF] → after q (RZ_P_TKT +:+ sid) = None) as Hq.
  { intros q Hq. set_unfold in Hq. by destruct Hq as [->|[->|[->|[]]]]. }
  by rewrite !Hq by set_solver.
Qed.

Lemma rz_get_none slot key now m :
  m.(mb_rendezvous) !! (slot, key) = None → rz_get slot key now m = None.
Proof. unfold rz_get. by intros ->. Qed.

(** A payload is collected once. Reading [t.sid] answers what was posted and
    removes exactly the four rows of that session, so the slot goes on serving every
    other one; reading the old protocol's ticket removes the whole slot; either way
    the next read finds nothing, whoever asks and whenever. *)
Theorem rz_collected_once auth slot sid wait now m v m' (Hsid : sid ≠ ""%string) :
  (rz_read auth slot (RZ_P_TKT +:+ sid) wait now m = (Ok (Body v), m') →
     rz_get slot (RZ_P_TKT +:+ sid) now m = Some v ∧
     (∀ k, m'.(mb_rendezvous) !! k =
        if bool_decide (k.1 = slot ∧ k.2 ∈ rz_session_keys sid) then None else m.(mb_rendezvous) !! k) ∧
     ∀ auth' now', rz_read auth' slot (RZ_P_TKT +:+ sid) wait now' m'
       = (Err (NOT_FOUND, "not yet"%string), m')) ∧
  (rz_read auth slot RZ_TICKET_KEY wait now m = (Ok (Body v), m') →
     rz_get slot RZ_TICKET_KEY now m = Some v ∧
     (∀ k, m'.(mb_rendezvous) !! k = if bool_decide (k.1 = slot) then None else m.(mb_rendezvous) !! k) ∧
     ∀ auth' now', rz_read auth' slot RZ_TICKET_KEY wait now' m'
       = (Err (NOT_FOUND, "not yet"%string), m')).
Proof.
  assert (∀ a t x, rz_read a slot (RZ_P_TKT +:+ sid) wait t x =
    match rz_get slot (RZ_P_TKT +:+ sid) t x with
    | None => (Err (NOT_FOUND, "not yet"%string), x)
    | Some w => (Ok (Body w), rz_delete_keys slot (rz_session_keys sid) x)
    end) as Htkt.
  { intros a t x. unfold rz_read. rewrite rz_session_prefix_tkt by done.
    rewrite (proj2 (after_Some RZ_P_TKT _ sid) eq_refl).
    rewrite !(bool_decide_false (RZ_P_TKT +:+ sid = _)%string) by done.
    by destruct (rz_get slot (RZ_P_TKT +:+ sid) t x). }
  assert (∀ a t x, rz_read a slot RZ_TICKET_KEY wait t x =
    match rz_get slot RZ_TICKET_KEY t x with
    | None => (Err (NOT_FOUND, "not yet"%string), x)
    | Some w => (Ok (Body w), rz_delete_slot slot x)
    end) as Hold by done.
  split; intros Hr.
  - rewrite Htkt in Hr. destruct (rz_get slot _ now m) as [w|] eqn:Eg; [|done].
    apply pair_equal_spec in Hr as [[= ->] <-]. split; [done|]. split; [intros k; apply lookup_rz_delete_keys|].
    intros a t. rewrite Htkt, rz_get_none; [done|]. rewrite lookup_rz_delete_keys.
    rewrite bool_decide_true; [done|]. cbn [fst snd]. split; [done|]. unfold rz_session_keys. set_solver.
  - rewrite Hold in Hr. destruct (rz_get slot _ now m) as [w|] eqn:Eg; [|done].
    apply pair_equal_spec in Hr as [[= ->] <-]. split; [done|]. split; [intros k; apply lookup_rz_delete_slot|].
    intros a t. rewrite Hold, rz_get_none; [done|]. rewrite lookup_rz_delete_slot.
    by rewrite bool_decide_true.
Qed.

(** ** The life of a slot *)

(** Clock readings small enough for every deadline to be an [i64]. *)
Definition clock_ok (t : Z) : Prop := 0 <= t <= I64_MAX - RZ_MAX_SLOT_LIFETIME.

Fixpoint rz_timed (last : Z) (ops : list (RzOp Ip)) : Prop :=
  match ops with
  | [] => True
  | op :: ops => last <= rz_time op ∧ clock_ok (rz_time op) ∧ rz_timed (rz_time op) ops
  end.
Definition last_time (t0 : Z) (ops : list (RzOp Ip)) : Z := foldl (fun _ op => rz_time op) t0 ops.

Definition own_ok (t : Z) (r : RzRow) : Prop :=
  ∃ hash created, length hash = 32%nat ∧ r.(rz_value) = hash ++ u64_to_le created ∧
    0 <= created <= t ∧ r.(rz_expires_at) <= created + RZ_MAX_SLOT_LIFETIME.
Definition slots_ok (t : Z) (m : Mailbox) : Prop :=
  ∀ slot r, m.(mb_rendezvous) !! (slot, RZ_OWN_KEY) = Some r → own_ok t r.

Lemma clock_u64 t : clock_ok t → is_u64 t.
Proof. unfold clock_ok, is_u64, RZ_MAX_SLOT_LIFETIME, I64_MAX, U64_MAX. lia. Qed.

Lemma rz_own_row_spec slot now m t h created :
  slots_ok t m → clock_ok t → rz_own_row slot now m = Some (h, created) →
  ∃ r, m.(mb_rendezvous) !! (slot, RZ_OWN_KEY) = Some r ∧ as_i64 now < r.(rz_expires_at) ∧
    r.(rz_value) = h ++ u64_to_le created ∧
    0 <= created <= t ∧ r.(rz_expires_at) <= created + RZ_MAX_SLOT_LIFETIME.
Proof.
  unfold rz_own_row, rz_get. intros Hok Ht Ho.
  destruct (mb_rendezvous m !! (slot, RZ_OWN_KEY)) as [r|] eqn:Er; [|done].
  destruct (as_i64 now <? rz_expires_at r) eqn:El; [|done]. zbool.
  destruct (Hok slot r Er) as (hash & c & Hlen & Hv & Hc & He).
  rewrite Hv in Ho. case_bool; [done|]. injection Ho as Hh Hcr.
  rewrite <- Hlen, take_app_length in Hh. rewrite <- Hlen, drop_app_length in Hcr.
  rewrite u64_from_to_le in Hcr by (unfold clock_ok, is_u64, RZ_MAX_SLOT_LIFETIME, I64_MAX, U64_MAX in *; lia).
  subst. exists r. done.
Qed.

Lemma as_i64_clock t d :
  clock_ok t → 0 <= d <= RZ_MAX_SLOT_LIFETIME → as_i64 (sat_add t d) = t + d.
Proof.
  unfold clock_ok. intros Ht Hd.
  rewrite sat_add_small by (unfold I64_MAX, U64_MAX in *; lia). apply as_i64_small. lia.
Qed.

Lemma rz_write_expiry_own (L : RzLimiter Ip) ip auth slot body now m exp :
  (rz_write_expiry caps L ip auth slot RZ_OWN_KEY body now m).1 = Ok exp →
  length body = 32%nat ∧ exp = sat_add now RZ_V2_LEASE_SECS ∧ rz_get slot RZ_CLAIM_KEY now m = None.
Proof.
  unfold rz_write_expiry. rewrite bool_decide_true by done.
  destruct (rz_limit caps L ip Claim now) as [[u|e] L1]; [|done]. cbn [fst].
  case_bool; [done|]. case_bool_decide as Hg; [done|]. intros [= <-].
  apply negb_false_iff, Nat.eqb_eq in Heqb. split_and!; [done|done|].
  destruct (rz_get slot RZ_CLAIM_KEY now m); [by destruct Hg|done].
Qed.

Lemma rz_step_slots_ok op s t :
  slots_ok t s.2 → t <= rz_time op → clock_ok t → clock_ok (rz_time op) →
  slots_ok (rz_time op) (rz_step op s).2.
Proof.
  intros Hok Hle Hct Hclock slot r' Hr'.
  pose proof (rz_step_change op s (slot, RZ_OWN_KEY)) as Hc. rewrite Hr' in Hc.
  apply row_change_into in Hc as [Ho|[(r & ip & auth & wait & now & created & Ho & -> & Hown & Hexp & ->)
    |(ip & auth & body & now & exp & L & Ho & -> & Hv & Hx & ->)]]; cbn [fst snd rz_time] in *.
  - destruct (Hok slot r' Ho) as (h & c & H3 & H4 & H5 & H6). exists h, c. split_and!; try done; lia.
  - destruct (Hok slot r Ho) as (h & c & H3 & H4 & H5 & H6).
    apply rz_owner_ok in Hown as (tok & _ & Hown).
    destruct (rz_own_row_spec slot now s.2 t _ _ Hok Hct Hown) as (r0 & Hr0 & _ & Hv0 & Hc0 & He0).
    rewrite Ho in Hr0. injection Hr0 as <-.
    exists (blake3_hash tok), created. cbn [rz_value rz_expires_at]. split_and!; try done; try lia.
    + assert (length (blake3_hash tok ++ u64_to_le created) = length (h ++ u64_to_le c)) as Hl by congruence.
      rewrite !length_app in Hl. unfold u64_to_le in Hl. rewrite !length_le_bytes in Hl. lia.
    + unfold rz_v2_expiry. rewrite as_i64_small.
      * unfold sat_add. lia.
      * unfold clock_ok, sat_add in *. unfold RZ_V2_LEASE_SECS, RZ_MAX_SLOT_LIFETIME in *. lia.
  - apply rz_write_expiry_own in Hx as (Hlen & -> & _). exists body, now.
    cbn [rz_value rz_expires_at]. rewrite bool_decide_true by done.
    rewrite as_i64_clock by (done || unfold RZ_V2_LEASE_SECS, RZ_MAX_SLOT_LIFETIME; lia).
    split_and!; try done; unfold clock_ok, RZ_V2_LEASE_SECS, RZ_MAX_SLOT_LIFETIME in *; lia.
Qed.

Lemma rz_run_slots_ok ops s t :
  slots_ok t s.2 → clock_ok t → rz_timed t ops →
  slots_ok (last_time t ops) (rz_run ops s).2 ∧ t <= last_time t ops ∧ clock_ok (last_time t ops).
Proof.
  revert s t. induction ops as [|op ops IH]; intros s t Hok Hc Ht; [split_and!; [done|cbn; lia|done]|].
  destruct Ht as (Ht1 & Ht2 & Ht3).
  destruct (IH (rz_step op s) (rz_time op)) as (H4 & H5 & H6); [by eapply rz_step_slots_ok|done|done|].
  unfold last_time in *. cbn [foldl]. split_and!; [done|lia|done].
Qed.

(** No slot outlives its day: however often its owner renews it, a slot claimed
    at [created] is not answered for from [created + 24h] on, and the stamp that says
    so is one the clock has already shown. *)
Theorem rz_slot_lifetime ops (L : RzLimiter Ip) slot now h created
    (Htimed : rz_timed 0 ops)
    (Hnow : last_time 0 ops <= now) (Hclock : clock_ok now)
    (Hown : rz_own_row slot now (rz_run ops (L, in_memory)).2 = Some (h, created)) :
  0 <= created <= now ∧ now < created + RZ_MAX_SLOT_LIFETIME.
Proof.
  destruct (rz_run_slots_ok ops (L, in_memory) 0) as (Hok & _ & Hc).
  { intros s r Hr. cbn in Hr. by rewrite lookup_empty in Hr. }
  { unfold clock_ok, I64_MAX, RZ_MAX_SLOT_LIFETIME. lia. }
  { done. }
  destruct (rz_own_row_spec _ _ _ _ _ _ Hok Hc Hown) as (r & _ & Hl & _ & Hb & He).
  rewrite as_i64_small in Hl by (unfold clock_ok, RZ_MAX_SLOT_LIFETIME in *; lia). lia.
Qed.

(** ** Room on a slot *)

Definition live_in (slot : string) (t : Z) (k : string * string) (r : RzRow) : bool :=
  bool_decide (k.1 = slot) && (as_i64 t <? r.(rz_expires_at)).

(** A step creates at most the one row of an accepted post. *)
Lemma rz_step_cases op s :
  (∀ k r', (rz_step op s).2.(mb_rendezvous) !! k = Some r' → s.2.(mb_rendezvous) !! k ≠ None) ∨
  (∃ ip auth slot key body now value exp, op = RzPost ip auth slot key body now ∧
     rz_count s.2 < lim.(max_rz_rows) ∧ rz_slot_row_count slot now s.2 < MAX_RZ_KEYS_PER_SLOT ∧
     s.2.(mb_rendezvous) !! (slot, key) = None ∧ valid_rz_key key = true ∧
     (rz_step op s).2.(mb_rendezvous) = <[(slot, key) := mkRzRow value exp]> s.2.(mb_rendezvous)).
Proof.
  assert ((∀ ip auth slot key body now, op ≠ RzPost ip auth slot key body now) →
    ∀ k r', (rz_step op s).2.(mb_rendezvous) !! k = Some r' → s.2.(mb_rendezvous) !! k ≠ None) as Hother.
  { intros Hop k r' Hr'. pose proof (rz_step_change op s k) as Hc. rewrite Hr' in Hc.
    apply row_change_into in Hc as [->|[(r & ? & ? & ? & ? & ? & -> & _)|(? & ? & ? & ? & ? & ? & _ & Hp & _)]];
      [done|done|]. by apply Hop in Hp. }
  destruct op as [ip auth slot key body now| | |]; [|left; by apply Hother..].
  destruct s as [L m]. cbn [rz_step snd].
  destruct (rz_post_handler _ _ _ _ _ _ _ _ _ _) as [[r L'] m'] eqn:E. cbn [snd].
  destruct (rz_post_ok _ _ _ _ _ _ _ _ _ _ _ E)
    as [[-> _]|(_ & Hv & _ & Hcap & Hslot & Hn & L1 & exp & _ & ->)].
  - left. intros k r' ->. done.
  - right. repeat eexists; done.
Qed.

(** What is live after a step was live before it, but for the row it posts. *)
Lemma rz_step_live op s slot t k r' :
  0 <= rz_time op → rz_time op <= t → t <= I64_MAX →
  (rz_step op s).2.(mb_rendezvous) !! k = Some r' → live_in slot t k r' = true →
  s.2.(mb_rendezvous) !! k ≠ None →
  ∃ r, s.2.(mb_rendezvous) !! k = Some r ∧ live_in slot (rz_time op) k r = true.
Proof.
  intros Hpos Hle Ht Hr' Hlive Hsome. pose proof (rz_step_change op s k) as Hc. rewrite Hr' in Hc.
  assert (as_i64 (rz_time op) <= as_i64 t) as Hmono by (rewrite !as_i64_small by lia; done).
  unfold live_in in *. apply andb_true_iff in Hlive as [Hs Hl]. rewrite Hs. zbool.
  apply row_change_into in Hc as [Ho|[(r & ip & auth & wait & now & created & Ho & -> & _ & Hexp & _)
    |(? & ? & ? & ? & ? & ? & Ho & _)]]; [| |done]; cbn [rz_time] in *.
  - exists r'. split; [done|]. apply Z.ltb_lt. lia.
  - exists r. split; [done|]. apply Z.ltb_lt. lia.
Qed.

(** The bounds a run keeps, looked at no earlier than [t0]. *)
Definition rz_bounded (t0 : Z) (m : Mailbox) : Prop :=
  rz_count m <= Z.max 0 lim.(max_rz_rows) ∧
  ∀ slot t, t0 <= t <= I64_MAX → rz_slot_row_count slot t m <= MAX_RZ_KEYS_PER_SLOT.

Lemma rz_step_bounded op s t0 :
  rz_bounded t0 s.2 → 0 <= t0 <= rz_time op → rz_time op <= I64_MAX →
  rz_bounded (rz_time op) (rz_step op s).2.
Proof.
  intros [Hc Hs] Ht Hmax. unfold rz_bounded, rz_count, rz_slot_row_count in *.
  destruct (rz_step_cases op s) as [Hold|(ip & auth & sl & key & body & now & value & exp & -> & H3 & H4 & H5 & _ & Heq)].
  - rewrite !size_count_where in *. split.
    + eapply Z.le_trans; [|exact Hc]. apply count_where_le. intros k r Hr _. specialize (Hold k r Hr).
      destruct (s.2.(mb_rendezvous) !! k) as [r0|]; [by exists r0|done].
    + intros slot t Htt. etrans; [|apply (Hs slot (rz_time op)); lia].
      apply count_where_le. intros k r Hr Hl.
      destruct (rz_step_live op s slot t k r ltac:(lia) ltac:(lia) ltac:(lia) Hr Hl (Hold k r Hr))
        as (r0 & H3 & H4).
      by exists r0.
  - rewrite Heq. unfold rz_count, rz_slot_row_count in *. cbn [rz_time] in *. split.
    + rewrite map_size_insert_None by done. lia.
    + intros slot t Htt. rewrite count_where_insert by done. cbn [fst].
      assert (count_where (fun k r => bool_decide (k.1 = slot) && (as_i64 t <? rz_expires_at r)) s.2.(mb_rendezvous)
        <= count_where (fun k r => bool_decide (k.1 = slot) && (as_i64 now <? rz_expires_at r)) s.2.(mb_rendezvous)) as Hle.
      { apply count_where_le. intros k r Hr Hl. exists r. split; [done|].
        apply andb_true_iff in Hl as [-> Hl]. zbool. rewrite as_i64_small in Hl |- * by lia.
        apply Z.ltb_lt. rewrite as_i64_small in * by lia. lia. }
      pose proof (Hs slot now ltac:(lia)) as Hb.
      destruct (decide (sl = slot)) as [->|Hne].
      * destruct (_ && _); cbn; lia.
      * rewrite bool_decide_false by done. cbn. lia.
Qed.

(** Nobody fills the board: whatever is posted, read and renewed, the table
    never exceeds the relay's row cap, and no slot ever holds more than 32 rows that
    are still live. *)
Theorem rz_board_bounded ops (L : RzLimiter Ip) (Htimed : rz_timed 0 ops) :
  rz_bounded (last_time 0 ops) (rz_run ops (L, in_memory)).2.
Proof.
  assert (∀ ops s t, rz_bounded t s.2 → 0 <= t → rz_timed t ops →
    rz_bounded (last_time t ops) (rz_run ops s).2) as Hrun.
  { intros os. induction os as [|op os IH]; intros s t Hb Ht Hti; [done|].
    destruct Hti as (Ht1 & Ht2 & Ht3). apply (IH (rz_step op s) (rz_time op)); [|lia|done].
    apply (rz_step_bounded op s t); [done|lia|]. unfold clock_ok, RZ_MAX_SLOT_LIFETIME in *. lia. }
  apply Hrun; [|lia|done]. split; [by apply Z.le_max_l|].
  intros slot t _. by vm_compute.
Qed.

(** ** The sessions listing *)

Definition keys_valid (m : Mailbox) : Prop :=
  ∀ k r, m.(mb_rendezvous) !! k = Some r → valid_rz_key k.2 = true.

Lemma rz_run_keys_valid ops s : keys_valid s.2 → keys_valid (rz_run ops s).2.
Proof.
  revert s. induction ops as [|op ops IH]; intros s Hv; [done|]. apply (IH (rz_step op s)).
  intros k r Hr. destruct (rz_step_cases op s) as [Hold|(ip & auth & sl & key & body & now & value & exp & _ & _ & _ & _ & Hk & Heq)].
  - specialize (Hold k r Hr). destruct (s.2.(mb_rendezvous) !! k) as [r0|] eqn:E; [by eapply Hv|done].
  - rewrite Heq, lookup_insert_dec in Hr. case_decide as Hd; [by subst k|by eapply Hv].
Qed.

Lemma elem_of_keys_prefixed slot p now m sid :
  keys_valid m → string_all plain_char p = true →
  sid ∈ omap (after p) (rz_slot_keys_prefixed slot p now m) ↔
  is_Some (rz_get slot (p +:+ sid) now m).
Proof.
  intros Hv Hp. rewrite list_elem_of_omap. unfold rz_slot_keys_prefixed, rz_get. split.
  - intros (key & Hin & ->%after_Some). revert Hin. rewrite merge_sort_Permutation.
    rewrite <- list_fmap_compose, list_elem_of_fmap. intros ([[s k] r] & -> & Hin).
    apply elem_of_map_to_list, map_lookup_filter_Some in Hin as (Hl & Hs & _ & He). cbn in *. subst s.
    rewrite Hl, (proj2 (Z.ltb_lt _ _)) by lia. eauto.
  - destruct (mb_rendezvous m !! (slot, p +:+ sid)%string) as [r|] eqn:Er; [|by intros []].
    destruct (as_i64 now <? rz_expires_at r) eqn:El; [|by intros []]. intros _. zbool.
    exists (p +:+ sid)%string. split; [|by apply after_Some]. rewrite merge_sort_Permutation.
    rewrite <- list_fmap_compose, list_elem_of_fmap. exists (slot, p +:+ sid, r)%string. split; [done|].
    apply elem_of_map_to_list, map_lookup_filter_Some. cbn. split; [done|]. split; [done|].
    split; [|lia]. pose proof (Hv _ _ Er) as Hk. cbn in Hk. apply sql_like_prefix; [done| |eauto].
    unfold valid_rz_key in Hk. destruct (p +:+ sid)%string; [done|]. by apply andb_true_iff in Hk as [_ Hk].
Qed.

(** The sessions listing reports exactly the receivers waiting for an answer: on
    any store a run of requests can reach, a session is listed when its receiver's
    message is live and the sender's answer to it is not, and the [LIKE] pattern the
    query is built from reaches nothing else. *)
Theorem rz_pending_exact ops (L : RzLimiter Ip) slot now sid :
  let m := (rz_run ops (L, in_memory)).2 in
  sid ∈ rz_pending slot now m ↔
  is_Some (rz_get slot (RZ_P_RECV +:+ sid) now m) ∧ rz_get slot (RZ_P_SEND +:+ sid) now m = None.
Proof.
  intros m. assert (keys_valid m) as Hv.
  { apply rz_run_keys_valid. intros k r Hr. cbn in Hr. by rewrite lookup_empty in Hr. }
  unfold rz_pending. rewrite list_elem_of_filter, !elem_of_keys_prefixed by done.
  rewrite eq_None_not_Some. tauto.
Qed.
End facts.
