(* ===== verification/Code.v ===== *)
(** * Short-code pairing ([core/src/code.rs], [core/src/pairing.rs])

    A sender shows a code such as [4821-crater-mango@relay]; a receiver types it, and the
    two run a password-authenticated key exchange through the rendezvous board of the
    relay.  First the codes as text, then the two protocols as programs of [Program.v]:
    the old one, in which the sender waits for one receiver with a live handshake, and
    the one of the long-lived slots, in which a [CodeHost] answers each receiver with a
    fresh one.  Durations are in milliseconds.

    SPAKE2, BLAKE3 and base32 are parameters; of a URL the model keeps the relay, the
    slot, the key and the query apart. *)
From stdpp Require Import pretty gmap.
From S2P Require Import Prelude.
From S2P Require Import Program.
From S2P Require Import Text.
From S2P Require Import ChunkCipher.
From S2P Require Import SyncCodec.
From S2P Require Import Limits.
From S2P Require Import Store.
From S2P Require Import Mailbox.
From S2P Require Import UploadHttp.
From S2P Require Import Rendezvous.
From S2P Require Import SealedLayout.
From S2P Require Import UploadClient.
Local Open Scope Z_scope.
Local Open Scope prog_scope.

(** ** Words and codes *)

(** [wordlist::WORDS]. *)
Definition WORDS : list string :=
  ["acid"; "acorn"; "album"; "amber"; "anvil"; "apple"; "apron"; "arch"; "arena"; "armor"; "ash";
   "aspen"; "atlas"; "attic"; "axle"; "bacon"; "badge"; "bagel"; "bamboo"; "banjo"; "barn";
   "basil"; "bay"; "beacon"; "beam"; "bean"; "bear"; "beetle"; "bell"; "berry"; "birch"; "bison";
   "blade"; "blaze"; "bloom"; "board"; "boat"; "bolt"; "bongo"; "bonus"; "boot"; "boulder";
   "brave"; "bread"; "brick"; "bridge"; "broom"; "brush"; "bubble"; "bucket"; "buffalo"; "bugle";
   "bulb"; "bundle"; "cabin"; "cable"; "cactus"; "camel"; "candle"; "canoe"; "canvas"; "canyon";
   "cape"; "cargo"; "carol"; "carrot"; "castle"; "cave"; "cedar"; "cell"; "chalk"; "cherry";
   "chess"; "chime"; "cider"; "cinder"; "cliff"; "cloak"; "clover"; "cluster"; "coal"; "cobra";
   "cocoa"; "comet"; "copper"; "coral"; "cotton"; "cove"; "crane"; "crater"; "crayon"; "creek";
   "crest"; "crow"; "crown"; "cube"; "dagger"; "daisy"; "dawn"; "delta"; "denim"; "desk";
   "diamond"; "dingo"; "dock"; "dolphin"; "donut"; "dove"; "dragon"; "drum"; "dune"; "eagle";
   "ember"; "emu"; "engine"; "fable"; "falcon"; "fang"; "fern"; "ferry"; "fiber"; "field"; "fig";
   "finch"; "flame"; "flask"; "flint"; "flute"; "forest"; "fox"; "frost"; "garlic"; "gecko";
   "ginger"; "glacier"; "globe"; "glove"; "gnome"; "goat"; "gold"; "grape"; "grotto"; "guitar";
   "hammer"; "harbor"; "hawk"; "hazel"; "hedge"; "helm"; "heron"; "hive"; "honey"; "horn"; "hut";
   "igloo"; "indigo"; "ivory"; "ivy"; "jaguar"; "jasmine"; "jelly"; "jet"; "jewel"; "kayak";
   "kelp"; "kettle"; "key"; "kiwi"; "koala"; "lagoon"; "lantern"; "lark"; "laurel"; "leaf";
   "ledger"; "lemon"; "lentil"; "lily"; "lime"; "linen"; "lion"; "llama"; "lobster"; "locket";
   "lotus"; "lynx"; "mango"; "maple"; "marble"; "marsh"; "meadow"; "melon"; "mesa"; "meteor";
   "mint"; "mist"; "moss"; "moth"; "mule"; "nectar"; "needle"; "nest"; "nettle"; "nickel";
   "noble"; "nomad"; "oak"; "oasis"; "ocean"; "olive"; "onyx"; "opal"; "orbit"; "otter"; "owl";
   "oxide"; "paddle"; "palm"; "panda"; "papaya"; "parrot"; "peach"; "pearl"; "pebble"; "pepper";
   "phoenix"; "pigeon"; "pillow"; "pine"; "piston"; "plum"; "pond"; "poppy"; "prairie"; "puma";
   "quartz"; "quill"; "quilt"; "radish"; "raft"; "rapid"; "raven"; "reef"; "ribbon"; "ridge";
   "river"; "robin"; "rocket"; "rose"; "rubble"; "ruby"; "sable"; "saffron"; "sage"; "salmon";
   "sand"]%string.

Definition dash : Byte.byte := Byte.x2d.
Definition at_sign : Byte.byte := Byte.x40.

(** [str::split] at a character, [str::split_once] at [@]. *)
Definition split_dash (s : string) : list string := string_of <$> split_on dash (bytes_of s) [].
Definition split_at_sign (s : string) : option (string * string) :=
  prod_map string_of string_of <$> cut_at at_sign (bytes_of s).

(** [parse_code]: the nameplate, the secret and the relay in the code. *)
Definition parse_code (code : string) : result (string * string * option string) string :=
  let code := str_trim code in
  let '(secret, relay) :=
    match split_at_sign code with
    | Some (s, r) => if decide (r = ""%string) then (code, None) else (s, Some r)
    | None => (code, None)
    end in
  let parts := split_dash secret in
  let nameplate := default ""%string (head parts) in
  if bool_decide (nameplate = ""%string) || (length parts <? 3)%nat
  then Err "invalid code (expected N-word-word[@relay])"%string
  else Ok (nameplate, secret, relay).

(** [normalize_relay] and [compact_relay]. *)
Definition normalize_relay (raw : string) : string :=
  let r := str_trim raw in
  match find_sub (bytes_of "://") (bytes_of r) with
  | Some _ => r
  | None => ("https://" +:+ r)%string
  end.
Definition compact_relay (relay : string) : string :=
  match after "https://" relay with Some host => host | None => relay end.

(** [looks_like_code]. *)
Definition is_ascii_digit (c : Ascii.ascii) : bool :=
  let n := Ascii.N_of_ascii c in ((48 <=? n) && (n <=? 57))%N.
Definition looks_like_code (s : string) : bool :=
  let head_ := match split_at_sign s with Some (l, _) => l | None => s end in
  match split_dash head_ with
  | first :: _ :: _ :: _ => string_all is_ascii_digit first && negb (bool_decide (first = ""%string))
  | _ => false
  end.

(** The code of a nameplate and two words. *)
Definition secret_of (nameplate w1 w2 : string) : string :=
  (nameplate +:+ "-" +:+ w1 +:+ "-" +:+ w2)%string.

(** ** Keys *)

(** [spake2::Spake2::<Ed25519Group>::start_symmetric] and [finish], of a password, an
    identity and the random scalar; [blake3::keyed_hash]; [BASE32_NOPAD.encode] put in
    lower case. *)
Class Spake2 : Type := {
  spake_start : bytes → bytes → bytes → bytes;
  spake_finish : bytes → bytes → bytes → bytes → option bytes }.
Class Blake3Keyed : Type := { blake3_keyed : bytes → bytes → bytes }.
Class Base32Lower : Type := { base32_lower : bytes → string }.

(** Equal passwords derive equal keys; a keyed hash is 32 bytes; and the text of a token
    is read back by the relay. *)
Class Spake2Laws `{!Spake2} : Prop := {
  spake_agree : ∀ pw id a b, ∃ k,
    spake_finish pw id a (spake_start pw id b) = Some k ∧
    spake_finish pw id b (spake_start pw id a) = Some k }.
Class Blake3KeyedLaws `{!Blake3Keyed} : Prop := {
  blake3_keyed_length : ∀ k x, length (blake3_keyed k x) = 32%nat }.
Class Base32LowerLaws `{!Base32Lower, !Base32} : Prop := {
  base32_lower_plain : ∀ b, string_all ascii_lower_or_digit (base32_lower b) = true;
  base32_lower_read : ∀ b, base32_decode (to_ascii_uppercase (base32_lower b)) = Some b;
  base32_lower_length : ∀ b, (length b <= String.length (base32_lower b) <= 2 * length b)%nat }.

Section keys.
Context `{!Spake2, !Blake3Kdf, !Blake3Keyed, !Base32Lower}.

(** [pairing::start] and [Pairing::finish]. *)
Definition PAIR_ID : bytes := bytes_of "arvolo/pair/v1".
Record Pairing := mkPairing { pr_code : bytes; pr_scalar : bytes }.
Definition pairing_message (p : Pairing) : bytes := spake_start p.(pr_code) PAIR_ID p.(pr_scalar).
Definition pairing_finish (p : Pairing) (peer_message : bytes) : result bytes string :=
  context "pairing failed" (spake_finish p.(pr_code) PAIR_ID p.(pr_scalar) peer_message).

(** [key32], [ticket_key32], [extras_key32], [reply_key32] and [confirm_mac]. *)
Definition key32 (pake_key : bytes) : bytes := derive_key "arvolo/code/ticket-key/v1" pake_key.
Definition key_input (pake_key : bytes) (slot sid : string) : bytes :=
  pake_key ++ [Byte.x00] ++ bytes_of slot ++ [Byte.x00] ++ bytes_of sid.
Definition ticket_key32 (pake_key : bytes) (slot sid : string) : bytes :=
  derive_key "arvolo/code/ticket-key/v2" (key_input pake_key slot sid).
Definition extras_key32 (pake_key : bytes) (slot sid : string) : bytes :=
  derive_key "arvolo/code/extras-key/v1" (key_input pake_key slot sid).
Definition reply_key32 (pake_key : bytes) (slot sid : string) : bytes :=
  derive_key "arvolo/code/reply-key/v2" (key_input pake_key slot sid).
Definition confirm_mac (pake_key : bytes) (slot sid : string) : bytes :=
  blake3_keyed (derive_key "arvolo/code/confirm-recv/v2" pake_key)
    (bytes_of slot ++ [Byte.x00] ++ bytes_of sid).

Definition token_string (token : bytes) : string := base32_lower token.
End keys.

(** ** Requests *)

Definition K_MS : string := "ms".
Definition K_MR : string := "mr".
Definition K_TKT : string := "tkt".
Definition K_OWN : string := "own".
Definition K_SESSIONS : string := "sessions".
Definition P_RECV : string := "r.".
Definition P_SEND : string := "s.".
Definition P_CONF : string := "c.".
Definition P_TKT : string := "t.".
Definition P_BACK : string := "b.".
Definition P_XTRA : string := "x.".
Definition POLL_TIMEOUT : Z := 120 * 1000.
Definition REPLY_WAIT : Z := 15 * 1000.
Definition SESSIONS_WAIT_SECS : Z := 30.
Definition SESSION_STEP_TIMEOUT : Z := 10 * 1000.
Definition MAX_CLAIM_ATTEMPTS : nat := 32.
Definition TICKET_WAIT : Z := 60 * 1000.

Inductive Verb := Get | Post | Delete.
(** [rz_url], with [?wait=] for the sessions listing, and [/v1/features]. *)
Inductive Url :=
  | RzUrl (relay slot key : string) (wait : option Z)
  | FeaturesUrl (relay : string).
Record Request := mkRequest { rq_verb : Verb; rq_url : Url; rq_token : option string; rq_body : bytes }.
(** The body is missing when reading it failed. *)
Record Response := mkResponse { rs_status : Z; rs_body : option bytes }.

Definition rz_url (relay slot key : string) : Url := RzUrl (trim_slashes relay) slot key None.
Definition get (url : Url) (token : option string) : Request := mkRequest Get url token [].
Definition post (url : Url) (token : option string) (body : bytes) : Request := mkRequest Post url token body.

(** What the loop of a host reports ([on_event]) and has stored ([on_state]). *)
Inductive CloseReason := MaxSessions | TooManyFailures | SlotExpired | SlotTaken | HostCancelled.
Record HostState := mkHostState { hs_sessions_done : Z; hs_failures : Z }.
Inductive HostEvent :=
  | Listening
  | HostPaired (sid : string) (done : Z) (reply extras : option bytes)
  | BadCode (sid : string) (failures max : Z)
  | SessionRejected (sid : string)
  | HostClosed (reason : CloseReason).
Inductive Note := OnEvent (e : HostEvent) | OnState (s : HostState).

(** A client: it sends requests, of which [None] says that no response came. *)
Definition client (A : Type) : Type := prog Request (option Response) Note A.
Definition fails (A : Type) : Type := client (result A string).

(** [error_for_status]. *)
Definition is_error (status : Z) : bool := (400 <=? status) && (status <=? 599).
(** [.send().await.context(..)?], and with [.error_for_status().context(..)?]. *)
Definition send (r : Request) (what : string) : fails Response :=
  Send r (fun x => Ret (context what x)).
Definition send_ok (r : Request) (what : string) : fails unit :=
  let? resp := send r what in
  Ret (if is_error resp.(rs_status) then Err what else Ok tt).

(** [poll_get_for]; [poll_get]. *)
Definition poll_round (url : Url) (what : string) (token : option string) (timeout start : Z) (_ : unit)
    : client (unit + result bytes string) :=
  Send (get url token) (fun x =>
    match x with
    | None => Ret (inr (Err "rendezvous poll"%string))
    | Some resp =>
        if is_success resp.(rs_status)
        then Ret (inr (context "read rendezvous value" resp.(rs_body)))
        else if negb (resp.(rs_status) =? NOT_FOUND) && is_error resp.(rs_status)
        then Ret (inr (Err "rendezvous poll"%string))
        else Clock (fun now =>
          if timeout <? now - start then Ret (inr (Err ("timed out waiting for " +:+ what)%string))
          else Sleep 500 (Ret (inl tt)))
    end).
Definition poll_get_for (url : Url) (what : string) (token : option string) (timeout : Z) : fails bytes :=
  Clock (fun start => loop (poll_round url what token timeout start) tt).
Definition poll_get (url : Url) (what : string) : fails bytes := poll_get_for url what None POLL_TIMEOUT.

Section client.
Context `{!Aes256Gcm, !Blake3Hash, !Spake2, !Blake3Kdf, !Blake3Keyed, !Base32Lower}.

(** [pairing::start], [gen_secret] and [gen_sid]. *)
Definition pairing_start (code : string) : client (Pairing * bytes) :=
  Draw (fun scalar => let p := mkPairing (bytes_of code) scalar in Ret (p, pairing_message p)).
Definition gen_secret : client (string * string) :=
  Pick 10000 (fun n => Pick (zlen WORDS) (fun i => Pick (zlen WORDS) (fun j =>
    let nameplate := pretty (Z.to_N n) in
    let word k := default ""%string (WORDS !! Z.to_nat k) in
    Ret (nameplate, secret_of nameplate (word i) (word j))))).
Definition gen_sid : client string := Draw (fun raw => Ret (base32_lower raw)).

(** ** The old protocol *)

Record PairComplete := mkPairComplete {
  pc_slot_ : string; pc_relay_ : string; pc_payload_ : bytes; pc_pairing : Pairing }.

(** [publish_bytes]: a nameplate that is taken is tried again with another, for ever. *)
Definition publish_try (relay : string) (_ : unit)
    : client (unit + result (string * string * Pairing) string) :=
  let* (slot, secret) := gen_secret in
  let* (p, ms) := pairing_start secret in
  Send (post (rz_url relay slot K_MS) None ms) (fun x =>
    match x with
    | None => Ret (inr (Err "rendezvous claim"%string))
    | Some resp =>
        if resp.(rs_status) =? CONFLICT then Ret (inl tt)
        else if is_error resp.(rs_status) then Ret (inr (Err "rendezvous claim"%string))
        else Ret (inr (Ok (slot, secret, p)))
    end).
Definition publish_bytes (payload : bytes) (relay : string) : fails (string * PairComplete) :=
  let relay := trim_slashes relay in
  let? (slot, secret, p) := loop (publish_try relay) tt in
  Ret (Ok ((secret +:+ "@" +:+ compact_relay relay)%string, mkPairComplete slot relay payload p)).
Definition publish_ticket (ticket relay : string) : fails (string * PairComplete) :=
  publish_bytes (bytes_of ticket) relay.

(** [PairComplete::run]. *)
Definition pair_complete_run (c : PairComplete) : fails unit :=
  let? mr := poll_get (rz_url c.(pc_relay_) c.(pc_slot_) K_MR) "the receiver" in
  try? pake := pairing_finish c.(pc_pairing) mr in
  try? ct := seal_chunk (key32 pake) 0 1 c.(pc_payload_) in
  send_ok (post (rz_url c.(pc_relay_) c.(pc_slot_) K_TKT) None ct) "publish ticket".

(** [resolve_v1]. *)
Definition resolve_v1 (relay slot secret : string) (timeout : Z) : fails bytes :=
  let? ms := poll_get_for (rz_url relay slot K_MS) "the sender" None timeout in
  let* (p, mr) := pairing_start secret in
  let? _ := send_ok (post (rz_url relay slot K_MR) None mr) "post pairing message" in
  try? pake := pairing_finish p ms in
  let? ct := poll_get_for (rz_url relay slot K_TKT) "the ticket" None timeout in
  Ret (context "decrypt ticket (wrong code?)" (result_ok (open_chunk (key32 pake) 0 1 ct))).

(** ** What a relay says of itself *)

Inductive RzVersion := V1 | V2.

(** [split_whitespace().collect()]. *)
Fixpoint squeeze (fuel : nat) (l : bytes) : bytes :=
  match fuel, l with
  | S fuel, b :: l' =>
      match strip_one white_space l with
      | Some rest => squeeze fuel rest
      | None => b :: squeeze fuel l'
      end
  | _, _ => []
  end.
Definition squeezed (text : bytes) : bytes := squeeze (length text) text.
Definition quote : Byte.byte := Byte.x22.
Definition quoted (s : string) : bytes := quote :: bytes_of s ++ [quote].

(** [relay_rz_version]: anything unclear is the old protocol. *)
Definition relay_rz_version (relay : string) : client RzVersion :=
  Send (get (FeaturesUrl (trim_slashes relay)) None) (fun x =>
    Ret (match x with
         | None => V1
         | Some resp =>
             if negb (is_success resp.(rs_status)) then V1
             else match find_sub (quoted "rz2" ++ bytes_of ":true") (squeezed (default [] resp.(rs_body))) with
                  | Some _ => V2
                  | None => V1
                  end
         end)).

Record RelayProbe := mkRelayProbe { rp_reachable : bool; rp_version : option string }.

(** [parse_version] and [relay_probe]. *)
Definition parse_version (body : bytes) : option string :=
  '(_, rest) ← find_sub (quoted "version" ++ bytes_of ":" ++ [quote]) (squeezed body);
  let piece := match find_sub (quoted "version" ++ bytes_of ":" ++ [quote]) rest with
               | Some (b, _) => b | None => rest end in
  let value := match cut_at quote piece with Some (b, _) => b | None => piece end in
  if decide (value = []) then None else Some (string_of value).
Definition relay_probe (relay : string) : client RelayProbe :=
  Send (get (FeaturesUrl (trim_slashes relay)) None) (fun x =>
    Ret (match x with
         | Some (mkResponse status (Some body)) =>
             if is_success status then mkRelayProbe true (parse_version body) else mkRelayProbe false None
         | _ => mkRelayProbe false None
         end)).

(** ** The host of a long-lived code *)

Record CodeHost := mkCodeHost {
  ch_slot : string; ch_secret : string; ch_relay : string; ch_owner_token : bytes }.
Record HostOpts := mkHostOpts {
  ho_max_sessions : option Z; ho_max_failures : Z; ho_wait_secs : Z; ho_await_reply : bool }.
Definition HostOpts_default : HostOpts := mkHostOpts (Some 1) 3 SESSIONS_WAIT_SECS false.
Inductive Reattach := ReattachOk | ReattachExpired | ReattachTaken.

(** [CodeHost::shown], [CodeHost::token] and the URL of one of its keys. *)
Definition shown (h : CodeHost) : string := (h.(ch_secret) +:+ "@" +:+ compact_relay h.(ch_relay))%string.
Definition host_token (h : CodeHost) : option string := Some (token_string h.(ch_owner_token)).
Definition host_url (h : CodeHost) (key : string) : Url := rz_url h.(ch_relay) h.(ch_slot) key.

(** [claim_code]: a bounded number of nameplates is tried. *)
Fixpoint claim_attempts (n : nat) (relay : string) (owner_token : bytes) : fails (string * CodeHost) :=
  match n with
  | O => Ret (Err "could not find a free pairing code"%string)
  | S n =>
      let* (slot, secret) := gen_secret in
      let? resp := send (post (rz_url relay slot K_OWN) None (blake3_hash owner_token)) "rendezvous claim" in
      if resp.(rs_status) =? CONFLICT then claim_attempts n relay owner_token
      else if is_error resp.(rs_status) then Ret (Err "rendezvous claim"%string)
      else let host := mkCodeHost slot secret relay owner_token in Ret (Ok (shown host, host))
  end.
Definition claim_code (relay : string) : fails (string * CodeHost) :=
  Draw (fun owner_token => claim_attempts MAX_CLAIM_ATTEMPTS (trim_slashes relay) owner_token).

(** [CodeHost::reattach], [reclaim] and [close]. *)
Definition reattach (h : CodeHost) : fails Reattach :=
  let? resp := send (get (host_url h K_SESSIONS) (host_token h)) "reattach to rendezvous slot" in
  let s := resp.(rs_status) in
  Ret (if is_success s then Ok ReattachOk
       else if s =? FORBIDDEN then Ok ReattachTaken
       else if (s =? NOT_FOUND) || (s =? GONE) then Ok ReattachExpired
       else Err "rendezvous relay refused the slot"%string).
Definition reclaim (h : CodeHost) : fails Reattach :=
  let? resp := send (post (host_url h K_OWN) None (blake3_hash h.(ch_owner_token))) "reclaim rendezvous slot" in
  let s := resp.(rs_status) in
  Ret (if is_success s then Ok ReattachOk
       else if s =? CONFLICT then Ok ReattachTaken
       else Err "rendezvous relay refused the claim"%string).
Definition close (h : CodeHost) : fails unit :=
  let? _ := send (mkRequest Delete (host_url h K_OWN) (host_token h) []) "close rendezvous slot" in
  Ret (Ok tt).

(** [CodeHost::put] and [get_once]. *)
Definition put (h : CodeHost) (key : string) (value : bytes) : fails unit :=
  send_ok (post (host_url h key) (host_token h) value) "post rendezvous value".
Definition get_once (h : CodeHost) (key : string) : client (option bytes) :=
  Send (get (host_url h key) (host_token h)) (fun x =>
    Ret (resp ← x; if is_success resp.(rs_status) then resp.(rs_body) else None)).

Inductive Answer :=
  | Paired (reply extras : option bytes)
  | BadCodeAnswer
  | Rejected
  | Abandoned.

(** [CodeHost::answer], after the receiver's message: the answer, and the messages put
    on the relay so far. *)
Definition answer_confirmed (h : CodeHost) (sid : string) (payload pake_key : bytes) (await_reply : bool)
    : fails Answer :=
  try? sealed := seal_chunk (ticket_key32 pake_key h.(ch_slot) sid) 0 1 payload in
  let? _ := put h (P_TKT +:+ sid) sealed in
  let* reply :=
    if await_reply then
      let* r := poll_get_for (host_url h (P_BACK +:+ sid)) "the other side's reply" (host_token h) REPLY_WAIT in
      Ret (ct ← result_ok r; result_ok (open_chunk (reply_key32 pake_key h.(ch_slot) sid) 0 1 ct))
    else Ret None in
  let* extras :=
    if await_reply then
      let* x := get_once h (P_XTRA +:+ sid) in
      Ret (ct ← x; result_ok (open_chunk (extras_key32 pake_key h.(ch_slot) sid) 0 1 ct))
    else Ret None in
  Ret (Ok (Paired reply extras)).
Definition answer_proof (h : CodeHost) (sid : string) (payload pake_key : bytes) (await_reply : bool)
    : fails Answer :=
  let* got := poll_get_for (host_url h (P_CONF +:+ sid)) "the receiver's confirmation" (host_token h)
                SESSION_STEP_TIMEOUT in
  match got with
  | Err _ => Ret (Ok Abandoned)
  | Ok got =>
      if bool_decide (got = confirm_mac pake_key h.(ch_slot) sid)
      then answer_confirmed h sid payload pake_key await_reply
      else
        Draw (fun noise =>
          let* _ := put h (P_TKT +:+ sid) noise in
          Ret (Ok BadCodeAnswer))
  end.
Definition answer (h : CodeHost) (sid : string) (payload : bytes) (emitted : gset bytes) (await_reply : bool)
    : client (result Answer string * gset bytes) :=
  let* mr := poll_get_for (host_url h (P_RECV +:+ sid)) "the receiver's message" (host_token h)
               SESSION_STEP_TIMEOUT in
  match mr with
  | Err e => Ret (Err e, emitted)
  | Ok mr =>
      let* (p, ms) := pairing_start h.(ch_secret) in
      if bool_decide (mr ∈ emitted) then
        let* _ := put h (P_SEND +:+ sid) ms in
        Ret (Ok Rejected, emitted)
      else
        let emitted := {[ms]} ∪ emitted in
        let* r :=
          let? _ := put h (P_SEND +:+ sid) ms in
          try? pake_key := pairing_finish p mr in
          answer_proof h sid payload pake_key await_reply in
        Ret (r, emitted)
  end.

(** [CodeHost::finish]. *)
Definition finish_host (h : CodeHost) (reason : CloseReason) : client CloseReason :=
  let* _ := close h in
  Tell (OnEvent (HostClosed reason)) (Ret reason).

(** [CodeHost::drain]: a receiver has collected when its [r.] row is gone. *)
Fixpoint drain_asks (h : CodeHost) (sids : list string) : client (list string) :=
  match sids with
  | [] => Ret []
  | sid :: sids =>
      Send (get (host_url h (P_RECV +:+ sid)) (host_token h)) (fun x =>
        let* rest := drain_asks h sids in
        Ret (match x with
             | Some resp => if is_success resp.(rs_status) then rest else sid :: rest
             | None => sid :: rest
             end))
  end.
Definition drain_round (h : CodeHost) (start : Z) (outstanding : gset string)
    : client (gset string + unit) :=
  if bool_decide (outstanding = ∅) then Ret (inr tt)
  else Clock (fun now =>
    if SESSION_STEP_TIMEOUT <=? now - start then Ret (inr tt)
    else
      let* collected := drain_asks h (elements outstanding) in
      let outstanding := outstanding ∖ list_to_set collected in
      if bool_decide (outstanding = ∅) then Ret (inr tt) else Sleep 200 (Ret (inl outstanding))).
Definition drain (h : CodeHost) (outstanding : gset string) : client unit :=
  Clock (fun start => loop (drain_round h start) outstanding).

(** [CodeHost::poll_sessions], from its response: [str::lines], trimmed. *)
Definition session_lines (body : bytes) : list string :=
  filter (fun s => s ≠ ""%string) ((fun l => str_trim (string_of l)) <$> split_on Byte.x0a body []).
Definition sessions_answer (x : option Response) : result (result (list string) CloseReason) string :=
  match x with
  | None => Err "poll rendezvous sessions"%string
  | Some resp =>
      let s := resp.(rs_status) in
      if is_success s then Ok (Ok (session_lines (default [] resp.(rs_body))))
      else if s =? FORBIDDEN then Ok (Err SlotTaken)
      else if (s =? NOT_FOUND) || (s =? GONE) then Ok (Err SlotExpired)
      else Err "rendezvous relay refused the sessions poll"%string
  end.
Definition sessions_request (h : CodeHost) (wait_secs : Z) : Request :=
  get (RzUrl (trim_slashes h.(ch_relay)) h.(ch_slot) K_SESSIONS (Some wait_secs)) (host_token h).

(** What the loop of [CodeHost::run] carries. *)
Record HostLoop := mkHostLoop { hl_state : HostState; hl_emitted : gset bytes; hl_outstanding : gset string }.

(** [return Ok(self.finish(reason, ..).await)]. *)
Definition ends_with_reason (h : CodeHost) (reason : CloseReason) : client (HostLoop + result CloseReason string) :=
  let* r := finish_host h reason in Ret (inr (Ok r)).

Definition sessions_used_up (opts : HostOpts) (s : HostState) : bool :=
  match opts.(ho_max_sessions) with Some max => max <=? s.(hs_sessions_done) | None => false end.
Definition too_many_failures (opts : HostOpts) (s : HostState) : bool :=
  opts.(ho_max_failures) <=? s.(hs_failures).

(** The end of one session; the counters are [u32]. *)
Definition session_over (opts : HostOpts) (sid : string) (r : result Answer string) (s : HostState)
    (outstanding : gset string) (k : HostState → gset string → client (HostLoop + result CloseReason string))
    : client (HostLoop + result CloseReason string) :=
  match r with
  | Ok (Paired reply extras) =>
      let s := mkHostState (wrap_u32 (s.(hs_sessions_done) + 1)) s.(hs_failures) in
      Tell (OnState s) (Tell (OnEvent (HostPaired sid s.(hs_sessions_done) reply extras))
        (k s ({[sid]} ∪ outstanding)))
  | Ok BadCodeAnswer =>
      let s := mkHostState s.(hs_sessions_done) (wrap_u32 (s.(hs_failures) + 1)) in
      Tell (OnState s) (Tell (OnEvent (BadCode sid s.(hs_failures) opts.(ho_max_failures))) (k s outstanding))
  | Ok Rejected | Ok Abandoned => Tell (OnEvent (SessionRejected sid)) (k s outstanding)
  | Err _ => k s outstanding
  end.

(** The loop over the sessions of one listing. *)
Fixpoint answer_all (h : CodeHost) (payload : bytes) (opts : HostOpts) (sids : list string) (s : HostState)
    (emitted : gset bytes) (outstanding : gset string) : client (HostLoop + result CloseReason string) :=
  match sids with
  | [] => Ret (inl (mkHostLoop s emitted outstanding))
  | sid :: sids =>
      Stopped (fun stopped =>
        if stopped then ends_with_reason h HostCancelled
        else if too_many_failures opts s || sessions_used_up opts s
        then Ret (inl (mkHostLoop s emitted outstanding))
        else
          let* (r, emitted) := answer h sid payload emitted opts.(ho_await_reply) in
          session_over opts sid r s outstanding (fun s outstanding =>
            answer_all h payload opts sids s emitted outstanding))
  end.

Definition host_round (h : CodeHost) (payload : bytes) (opts : HostOpts) (l : HostLoop)
    : client (HostLoop + result CloseReason string) :=
  let s := l.(hl_state) in
  Stopped (fun stopped =>
    if stopped then ends_with_reason h HostCancelled
    else if sessions_used_up opts s then
      let* _ := drain h l.(hl_outstanding) in
      ends_with_reason h MaxSessions
    else if too_many_failures opts s then
      ends_with_reason h TooManyFailures
    else
      Race (sessions_request h opts.(ho_wait_secs)) (fun x =>
        match x with
        | None => ends_with_reason h HostCancelled
        | Some x =>
            match sessions_answer x with
            | Err e => Ret (inr (Err e))
            | Ok (Err reason) => Tell (OnEvent (HostClosed reason)) (Ret (inr (Ok reason)))
            | Ok (Ok sids) => answer_all h payload opts sids s l.(hl_emitted) l.(hl_outstanding)
            end
        end)).

(** [CodeHost::run]. *)
Definition host_run (h : CodeHost) (payload : bytes) (opts : HostOpts) (state : HostState)
    : fails CloseReason :=
  Tell (OnEvent Listening) (loop (host_round h payload opts) (mkHostLoop state ∅ ∅)).

(** [publish_auto]. *)
Inductive CodeSender := SenderV1 (c : PairComplete) | SenderV2 (h : CodeHost).
Definition publish_auto (payload : bytes) (relay : string) : fails (string * CodeSender) :=
  let* version := relay_rz_version relay in
  match version with
  | V2 => let? (code, host) := claim_code relay in Ret (Ok (code, SenderV2 host))
  | V1 => let? (code, pc) := publish_bytes payload relay in Ret (Ok (code, SenderV1 pc))
  end.

(** ** The receiver *)

(** [detect_version]: whichever marker of the slot appears first. *)
Definition detect_round (relay slot : string) (timeout start : Z) (_ : unit)
    : client (unit + result RzVersion string) :=
  let probe key version k :=
    Send (get (rz_url relay slot key) None) (fun x =>
      match x with
      | None => Ret (inr (Err "rendezvous probe"%string))
      | Some resp =>
          if is_success resp.(rs_status) then Ret (inr (Ok version))
          else if resp.(rs_status) =? GONE then Ret (inr (Ok V2))
          else k
      end) in
  probe K_OWN V2 (probe K_MS V1
    (Clock (fun now =>
      if timeout <? now - start then Ret (inr (Err "timed out waiting for the sender"%string))
      else Sleep 500 (Ret (inl tt))))).
Definition detect_version (relay slot : string) (timeout : Z) : fails RzVersion :=
  Clock (fun start => loop (detect_round relay slot timeout start) tt).

(** [resolve_v2], in two parts: up to the payload, and what is sent back. *)
Definition resolve_v2_back (relay slot sid : string) (pake_key payload : bytes) (reply extras : option bytes)
    : fails (bytes * bool) :=
  let? replied :=
    match reply with
    | None => Ret (Ok false)
    | Some body =>
        try? sealed := seal_chunk (reply_key32 pake_key slot sid) 0 1 body in
        Send (post (rz_url relay slot (P_BACK +:+ sid)) None sealed) (fun x =>
          Ret (Ok (match x with Some resp => is_success resp.(rs_status) | None => false end)))
    end in
  let* _ :=
    match extras with
    | None => Ret tt
    | Some body =>
        match seal_chunk (extras_key32 pake_key slot sid) 0 1 body with
        | Ok sealed => Send (post (rz_url relay slot (P_XTRA +:+ sid)) None sealed) (fun _ => Ret tt)
        | Err _ => Ret tt
        end
    end in
  Ret (Ok (payload, replied)).
Definition resolve_v2 (relay slot secret : string) (timeout : Z) (reply extras : option bytes)
    : fails (bytes * bool) :=
  let* sid := gen_sid in
  let* (p, mr) := pairing_start secret in
  let? _ := send_ok (post (rz_url relay slot (P_RECV +:+ sid)) None mr) "open pairing session" in
  let? ms := poll_get_for (rz_url relay slot (P_SEND +:+ sid)) "the sender" None timeout in
  try? pake_key := pairing_finish p ms in
  let? _ := send_ok (post (rz_url relay slot (P_CONF +:+ sid)) None (confirm_mac pake_key slot sid))
              "post key confirmation" in
  let? ct :=
    let* r := poll_get_for (rz_url relay slot (P_TKT +:+ sid)) "the ticket" None (Z.min timeout TICKET_WAIT) in
    Ret (context "the sender never handed over the file: wrong code, or it stopped serving" (result_ok r)) in
  try? payload := context "decrypt ticket (wrong code?)"
                    (result_ok (open_chunk (ticket_key32 pake_key slot sid) 0 1 ct)) in
  resolve_v2_back relay slot sid pake_key payload reply extras.

(** [exchange_bytes_with], [resolve_bytes_with], [resolve_bytes] and [resolve_code]. *)
Definition exchange_relay (in_code default_relay : option string) : result string string :=
  match (match in_code with Some r => Some r | None => default_relay end) with
  | Some relay => Ok (normalize_relay (trim_slashes relay))
  | None => Err "no relay: the code has no @relay and no default relay is configured"%string
  end.
Definition exchange_bytes_with (code : string) (default_relay : option string) (timeout : Z)
    (reply extras : option bytes) : fails (bytes * bool) :=
  try? (slot, secret, relay_in_code) := parse_code code in
  try? relay := exchange_relay relay_in_code default_relay in
  let? version := detect_version relay slot timeout in
  match version with
  | V2 => resolve_v2 relay slot secret timeout reply extras
  | V1 => let? payload := resolve_v1 relay slot secret timeout in Ret (Ok (payload, false))
  end.
Definition resolve_bytes_with (code : string) (default_relay : option string) (timeout : Z) : fails bytes :=
  let? (payload, _) := exchange_bytes_with code default_relay timeout None None in Ret (Ok payload).
Definition resolve_bytes (code : string) (default_relay : option string) : fails bytes :=
  resolve_bytes_with code default_relay POLL_TIMEOUT.
Definition resolve_code (code : string) (default_relay : option string) : fails string :=
  let? b := resolve_bytes code default_relay in
  Ret (context "ticket is not valid UTF-8" (from_utf8 b)).
End client.
