(* ===== verification/CodeFacts.v ===== *)
(** * What a code and its host promise

    A shown code reads back as what it was made of; the host of a code seals nothing for
    a receiver that has not proved it knows the code; and the guesses it allows are
    bounded over all its lives.  The relay and the receivers answer what they like. *)
From stdpp Require Import pretty gmap.
From S2P Require Import Prelude.
From S2P Require Import Program.
From S2P Require Import Text.
From S2P Require Import ChunkCipher.
From S2P Require Import SyncCodec.
From S2P Require Import Limits.
From S2P Require Import Store.
From S2P Require Import Mailbox.
From S2P Require Import UploadHttp.
From S2P Require Import UploadClient.
From S2P Require Import Rendezvous.
From S2P Require Import RendezvousFacts.
From S2P Require Import Code.
Local Open Scope Z_scope.
Local Open Scope prog_scope.

Notation Log := (list (Obs Request (option Response) Note)).

(** ** Codes as text *)

(** A byte that can stand in a code before its [@]: a digit or a letter of a word. *)
Definition code_byte (b : Byte.byte) : bool :=
  let n := Byte.to_N b in ((48 <=? n) && (n <=? 57) || (97 <=? n) && (n <=? 122))%N.
Definition code_text (s : string) : Prop := Forall (fun b => code_byte b = true) (bytes_of s).

Lemma words_code_text : Forall code_text WORDS.
Proof.
  assert (forallb (fun w => forallb code_byte (bytes_of w)) WORDS = true) as H by (vm_compute; reflexivity).
  apply Forall_forall. intros w Hw. rewrite forallb_forall in H. apply list_elem_of_In in Hw.
  specialize (H w Hw). rewrite forallb_forall in H. apply Forall_forall. intros b Hb. by apply H, list_elem_of_In.
Qed.
Lemma pretty_code_text (n : N) : code_text (pretty n).
Proof. apply pretty_bytes. intros d. unfold pretty_N_char. by repeat case_match. Qed.

Lemma code_byte_not b x : code_byte b = true → code_byte x = false → b ≠ x.
Proof. congruence. Qed.
Lemma code_text_without s x : code_text s → code_byte x = false → x ∉ bytes_of s.
Proof. intros Hs Hx Hin. unfold code_text in Hs. rewrite Forall_forall in Hs. specialize (Hs _ Hin). congruence. Qed.
Lemma code_byte_trim_safe b : code_byte b = true → trim_safe b = true.
Proof. destruct b; done. Qed.

Lemma cut_at_first sep a b : sep ∉ a → cut_at sep (a ++ sep :: b) = Some (a, b).
Proof.
  induction a as [|x a IH]; intros Ha; cbn; [by rewrite decide_True|].
  apply not_elem_of_cons in Ha as [Hx Ha]. rewrite decide_False by congruence. by rewrite IH.
Qed.
Lemma split_on_cons sep a b cur : sep ∉ a → split_on sep (a ++ sep :: b) cur = (reverse cur ++ a) :: split_on sep b [].
Proof.
  revert cur. induction a as [|x a IH]; intros cur Ha; cbn.
  - rewrite decide_True by done. by rewrite app_nil_r.
  - apply not_elem_of_cons in Ha as [Hx Ha]. rewrite decide_False by congruence. rewrite IH by done.
    by rewrite reverse_cons, <- app_assoc.
Qed.

Lemma split_secret n w1 w2 :
  code_text n → code_text w1 → code_text w2 → split_dash (secret_of n w1 w2) = [n; w1; w2].
Proof.
  intros Hn H1 H2. unfold split_dash, secret_of. rewrite !bytes_of_app. change (bytes_of "-") with [dash]. cbn [app].
  rewrite split_on_cons, split_on_cons, split_on_none by by apply code_text_without.
  rewrite !reverse_nil, !app_nil_l. cbn [fmap list_fmap]. by rewrite !string_of_bytes_of.
Qed.

Lemma string_all_bytes p s :
  Forall (fun b => p (Ascii.ascii_of_byte b) = true) (bytes_of s) → string_all p s = true.
Proof.
  induction s as [|c s IH]; [done|]. intros Hs. inversion Hs as [|b l Hc Hr]. subst. cbn.
  rewrite Ascii.ascii_of_byte_of_ascii in Hc. rewrite Hc. by apply IH.
Qed.

(** A relay as a code carries it: an [https] address without its scheme, or one with
    another scheme; no white space, and no slash at the end. *)
Definition tidy (s : string) : Prop :=
  s ≠ ""%string ∧ trim_slashes s = s ∧ Forall (fun b => trim_safe b = true) (bytes_of s).
Definition relay_address (r : string) : Prop :=
  (∃ host, r = ("https://" +:+ host)%string ∧ tidy host ∧ find_sub (bytes_of "://") (bytes_of host) = None) ∨
  (after "https://" r = None ∧ tidy r ∧ is_Some (find_sub (bytes_of "://") (bytes_of r))).

Lemma compact_normal r : relay_address r →
  tidy (compact_relay r) ∧ normalize_relay (trim_slashes (compact_relay r)) = r.
Proof.
  unfold compact_relay, normalize_relay. intros [(host & -> & (Hne & Ht & Hs) & Hn)|(Ha & (Hne & Ht & Hs) & [x Hx])].
  - assert (after "https://" ("https://" +:+ host)%string = Some host) as -> by by apply after_Some.
    split; [done|]. rewrite Ht, str_trim_safe by by apply Forall_forall. by rewrite Hn.
  - rewrite Ha. split; [done|]. rewrite Ht, str_trim_safe by by apply Forall_forall. by rewrite Hx.
Qed.

(** The code that a host of ours shows (a decimal nameplate, two words of the list and
    the relay) is taken for a code, and reads back as the nameplate, the secret and the
    relay that it was made of, whatever the default relay is. *)
Theorem shown_code_reads_back h default_relay n i j w1 w2 :
  WORDS !! i = Some w1 → WORDS !! j = Some w2 →
  h.(ch_slot) = pretty (n : N) → h.(ch_secret) = secret_of (pretty n) w1 w2 → relay_address h.(ch_relay) →
  looks_like_code (shown h) = true ∧
  parse_code (shown h) = Ok (h.(ch_slot), h.(ch_secret), Some (compact_relay h.(ch_relay))) ∧
  exchange_relay (Some (compact_relay h.(ch_relay))) default_relay = Ok h.(ch_relay).
Proof.
  intros H1 H2 Hslot Hsec Hrel. destruct (compact_normal _ Hrel) as [(Hne & Ht & Hsafe) Hnorm].
  pose proof words_code_text as Hw. rewrite Forall_lookup in Hw.
  pose proof (Hw _ _ H1) as Hw1. pose proof (Hw _ _ H2) as Hw2. pose proof (pretty_code_text n) as Hn.
  set (c := compact_relay _) in *.
  assert (Forall (fun b => code_byte b = true ∨ b = dash) (bytes_of h.(ch_secret))) as Hs.
  { rewrite Hsec. unfold secret_of. rewrite !bytes_of_app, !Forall_app. unfold code_text in *.
    split_and!; try (eapply Forall_impl; [eassumption|]; auto); repeat constructor; by right. }
  assert (split_at_sign (shown h) = Some (h.(ch_secret), c)) as Hat.
  { unfold split_at_sign, shown. fold c. rewrite !bytes_of_app. change (bytes_of "@") with [at_sign]. cbn [app].
    rewrite cut_at_first; [cbn [fmap option_fmap option_map prod_map fst snd]; by rewrite !string_of_bytes_of|].
    intros Hin. rewrite Forall_forall in Hs. by destruct (Hs _ Hin). }
  split_and!.
  - unfold looks_like_code. rewrite Hat, Hsec, split_secret by done. cbn.
    rewrite bool_decide_false by apply pretty_nonempty.
    pose proof (pretty_bytes (fun b => is_ascii_digit (Ascii.ascii_of_byte b) = true) n) as Hd.
    rewrite string_all_bytes; [done|]. apply Hd. intros d. unfold pretty_N_char. by repeat case_match.
  - unfold parse_code. rewrite str_trim_safe.
    2:{ intros b. unfold shown. fold c. rewrite !bytes_of_app, !elem_of_app. intros [Hb|[Hb|Hb]].
        - rewrite Forall_forall in Hs. destruct (Hs _ Hb) as [Hc| ->]; [by apply code_byte_trim_safe|done].
        - by apply list_elem_of_singleton in Hb as ->.
        - rewrite Forall_forall in Hsafe. by apply Hsafe. }
    rewrite Hat, decide_False by done. rewrite Hsec, split_secret by done. cbn [head default].
    rewrite bool_decide_false by apply pretty_nonempty. cbn. by rewrite Hslot.
  - unfold exchange_relay. by rewrite Hnorm.
Qed.

(** ** Logic of the client's parts *)

Section rules.
Context (may : Log → Request → Prop) (lets : Log → Request → option Response → Prop) (lots : Log → bytes → Prop)
  (says : Log → Note → Prop).
Notation holds := (holds may lets lots says).

(** A request is answered with a body. *)
Definition told_body (r : Request) (v : bytes) (o : Obs Request (option Response) Note) : Prop :=
  ∃ s, is_success s = true ∧ o = Sent r (Some (Some (mkResponse s (Some v)))).

(** Polling sends one request again and again; what it yields was the answer to it. *)
Lemma holds_poll_get_for url what token timeout (l : Log) (Q : result bytes string → Log → Prop) :
  (∀ l', l `prefix_of` l' → may l' (get url token)) →
  (∀ l' r, l `prefix_of` l' →
     (∀ v, r = Ok v → ∃ o, o ∈ l' ∧ told_body (get url token) v o ∧ ∃ l0, allowed lets lots l0 o) → Q r l') →
  holds (poll_get_for url what token timeout) l Q.
Proof.
  intros Hm HQ. unfold poll_get_for. cbn. intros start.
  exists (fun _ l' => l `prefix_of` l'). split; [by apply prefix_app_r|]. intros [] l1 Hl1. cbn.
  split; [by apply Hm|]. intros [resp|] Hlet; cbn; [|apply HQ; [by apply prefix_app_r|done]].
  destruct (is_success _) eqn:Es; cbn.
  - apply HQ; [by apply prefix_app_r|]. intros v Hv. destruct resp as [s [b|]]; cbn in *; [|done].
    injection Hv as <-. eexists. split; [apply elem_of_app; right; by left|]. split; [by exists s|by exists l1].
  - destruct (_ && _); cbn; [apply HQ; [by apply prefix_app_r|done]|]. intros t.
    destruct (_ <? _); cbn; [apply HQ; [|done]|]; by do 2 apply prefix_app_r.
Qed.

Lemma holds_send_ok r what (l : Log) (Q : result unit string → Log → Prop) :
  may l r → (∀ x res, Q res (l ++ [Sent r (Some x)])) → holds (send_ok r what) l Q.
Proof.
  intros Hm HQ. cbn. split; [done|]. intros [resp|] _; cbn; [destruct (is_error _)|]; apply HQ.
Qed.
End rules.

(** ** What a host sends *)

Section host.
Context `{!Aes256Gcm, !Blake3Hash, !Spake2, !Blake3Kdf, !Blake3Keyed, !Base32Lower}
  (h : CodeHost) (payload : bytes) (opts : HostOpts).

Definition host_get (key : string) : Request := get (host_url h key) (host_token h).
Definition host_post (key : string) (body : bytes) : Request := post (host_url h key) (host_token h) body.
Definition host_pairing (scalar : bytes) : Pairing := mkPairing (bytes_of h.(ch_secret)) scalar.

(** The receiver of session [sid] proved that it knows the code: it answered the message
    of a handshake of its own with the code of the key that handshake derives, and [body]
    is the payload sealed under that key. *)
Definition met (l : Log) (sid : string) (scalar mr pake : bytes) : Prop :=
  Drew scalar ∈ l ∧ (∃ o, o ∈ l ∧ told_body (host_get (P_RECV +:+ sid)) mr o) ∧
  pairing_finish (host_pairing scalar) mr = Ok pake ∧
  (∃ x, Sent (host_post (P_SEND +:+ sid) (pairing_message (host_pairing scalar))) x ∈ l).
Definition proved (l : Log) (sid : string) (body : bytes) : Prop :=
  ∃ scalar mr pake, met l sid scalar mr pake ∧
    (∃ o, o ∈ l ∧ told_body (host_get (P_CONF +:+ sid)) (confirm_mac pake h.(ch_slot) sid) o) ∧
    seal_chunk (ticket_key32 pake h.(ch_slot) sid) 0 1 payload = Ok body.

(** Everything a host may send: requests that post nothing, the messages of its own
    handshakes, and tickets, which are noise or proved. *)
Definition host_may (l : Log) (r : Request) : Prop :=
  r.(rq_verb) ≠ Post ∨
  (∃ sid scalar, Drew scalar ∈ l ∧ r = host_post (P_SEND +:+ sid) (pairing_message (host_pairing scalar))) ∨
  (∃ sid body, r = host_post (P_TKT +:+ sid) body ∧ (Drew body ∈ l ∨ proved l sid body)).

Context (lets : Log → Request → option Response → Prop) (lots : Log → bytes → Prop).
Notation holds := (holds host_may lets lots (fun _ _ => True)).

Lemma prefix_in (l l' : Log) o : l `prefix_of` l' → o ∈ l → o ∈ l'.
Proof. intros [k ->] Ho. apply elem_of_app. by left. Qed.

Lemma met_later l l' sid scalar mr pake : l `prefix_of` l' → met l sid scalar mr pake → met l' sid scalar mr pake.
Proof.
  intros Hl (Hd & (o & Ho & Ht) & Hf & x & Hx). split_and!; [by eapply prefix_in| |done|].
  - exists o. split; [by eapply prefix_in|done].
  - exists x. by eapply prefix_in.
Qed.

Lemma may_get l key : host_may l (host_get key).
Proof. by left. Qed.

Lemma holds_get_once key l (Q : option bytes → Log → Prop) :
  (∀ r l', l `prefix_of` l' → Q r l') → holds (get_once h key) l Q.
Proof. intros HQ. cbn. split; [apply may_get|]. intros x _. apply HQ. by apply prefix_app_r. Qed.

Lemma holds_finish reason l (Q : CloseReason → Log → Prop) :
  (∀ l', Q reason l') → holds (finish_host h reason) l Q.
Proof. intros HQ. cbn. split; [by left|]. intros [resp|] _; cbn; (split; [done|apply HQ]). Qed.

Lemma holds_confirmed sid scalar mr pake await l (Q : result Answer string → Log → Prop) :
  met l sid scalar mr pake →
  (∃ o, o ∈ l ∧ told_body (host_get (P_CONF +:+ sid)) (confirm_mac pake h.(ch_slot) sid) o) →
  (∀ r l', l `prefix_of` l' → Q r l') → holds (answer_confirmed h sid payload pake await) l Q.
Proof.
  intros Hmet Hc HQ. unfold answer_confirmed. destruct (seal_chunk _ _ _ _) as [sealed|e] eqn:Es; [|by apply HQ].
  apply holds_bind_ok, holds_send_ok.
  { right; right. exists sid, sealed. split; [done|]. right. by exists scalar, mr, pake. }
  intros x [[]|e]; [|apply HQ; by apply prefix_app_r].
  destruct await; cbn [bind]; [|apply HQ; by apply prefix_app_r].
  apply holds_bind, holds_bind. set (l1 := l ++ _). assert (l `prefix_of` l1) as Hl1 by by apply prefix_app_r.
  apply holds_poll_get_for; [intros; apply may_get|]. intros l2 r Hl2 _. cbn.
  split; [apply may_get|]. intros y _. cbn. apply HQ. apply prefix_app_r. by trans l1.
Qed.

Lemma holds_answer_proof sid scalar mr pake await l (Q : result Answer string → Log → Prop) :
  met l sid scalar mr pake → (∀ r l', l `prefix_of` l' → Q r l') →
  holds (answer_proof h sid payload pake await) l Q.
Proof.
  intros Hmet HQ. unfold answer_proof. apply holds_bind, holds_poll_get_for; [intros; apply may_get|].
  intros l1 [got|e] Hl1 Hgot; [|by apply HQ]. destruct (Hgot got eq_refl) as (o & Ho & Ht & _).
  case_bool_decide as Hc.
  - subst got. eapply holds_confirmed; [by eapply met_later|by exists o|]. intros r l2 Hl2. apply HQ. by trans l1.
  - cbn [Program.holds]. intros noise _. apply holds_bind, holds_send_ok.
    + right; right. exists sid, noise. split; [done|]. left. apply elem_of_app. right. by left.
    + intros x r. cbn. apply HQ. by do 2 apply prefix_app_r.
Qed.

Lemma holds_answer (sid : string) (emitted : gset bytes) (await : bool) (l : Log) (Q : result Answer string * gset bytes → Log → Prop) :
  (∀ r l', l `prefix_of` l' → Q r l') → holds (answer h sid payload emitted await) l Q.
Proof.
  intros HQ. unfold answer. apply holds_bind, holds_poll_get_for; [intros; apply may_get|].
  intros l1 [mr|e] Hl1 Hmr; [|by apply HQ]. destruct (Hmr mr eq_refl) as (o & Ho & Ht & _).
  unfold pairing_start. cbn [bind Program.holds]. intros scalar _. set (p := mkPairing _ _).
  assert (host_may (l1 ++ [Drew scalar]) (host_post (P_SEND +:+ sid) (pairing_message p))) as Hmay.
  { right; left. exists sid, scalar. split; [|done]. apply elem_of_app. right. by left. }
  case_bool_decide.
  - apply holds_bind, holds_send_ok; [exact Hmay|]. intros x r. cbn. apply HQ. by do 2 apply prefix_app_r.
  - apply holds_bind, holds_bind_ok, holds_send_ok; [exact Hmay|].
    intros x r. set (l2 := _ ++ [Sent _ _]).
    assert (l `prefix_of` l2) as Hl2 by (by do 2 apply prefix_app_r).
    destruct r as [[]|e]; [|cbn; by apply HQ].
    destruct (pairing_finish p mr) as [pake|e] eqn:Ef; [|cbn; by apply HQ].
    apply (holds_answer_proof sid scalar mr pake); [|intros r l' Hl'; cbn; apply HQ; by trans l2].
    split_and!; [| |done|].
    + apply elem_of_app. left. apply elem_of_app. right. by left.
    + exists o. split; [|done]. apply elem_of_app. left. apply elem_of_app. by left.
    + eexists. apply elem_of_app. right. by left.
Qed.

Lemma holds_drain_asks sids l (Q : list string → Log → Prop) :
  (∀ r l', Q r l') → holds (drain_asks h sids) l Q.
Proof.
  revert l Q. induction sids as [|sid sids IH]; intros l Q HQ; cbn; [apply HQ|].
  split; [apply may_get|]. intros x _. apply holds_bind, IH. intros r l'. apply HQ.
Qed.

Lemma holds_drain (outstanding : gset string) (l : Log) (Q : unit → Log → Prop) : (∀ l', Q () l') → holds (drain h outstanding) l Q.
Proof.
  intros HQ. unfold drain. cbn. intros start. apply (holds_loop _ _ _ _ (fun _ _ => True)); [done|].
  intros o l1 _. unfold drain_round. case_bool_decide; [apply HQ|]. cbn. intros now.
  destruct (_ <=? _); [apply HQ|]. apply holds_bind, holds_drain_asks. intros r l2.
  case_bool_decide; cbn; [apply HQ|done].
Qed.

Lemma holds_answer_all (sids : list string) (s : HostState) (emitted : gset bytes) (outstanding : gset string) (l : Log) (Q : HostLoop + result CloseReason string → Log → Prop) :
  (∀ r l', Q r l') → holds (answer_all h payload opts sids s emitted outstanding) l Q.
Proof.
  revert s emitted outstanding l. induction sids as [|sid sids IH]; intros s emitted outstanding l HQ;
    cbn [answer_all Program.holds]; [apply HQ|].
  intros [].
  - apply holds_bind, holds_finish. intros. apply HQ.
  - destruct (_ || _); [apply HQ|]. apply holds_bind, holds_answer. intros [r e] l1 _.
    destruct r as [[reply extras| | |]|err]; cbn; auto.
Qed.

Lemma holds_host_run st l : holds (host_run h payload opts st) l (fun _ _ => True).
Proof.
  unfold host_run. cbn [Program.holds]. split; [done|]. apply (holds_loop _ _ _ _ (fun _ _ => True)); [done|].
  intros s l1 _. unfold host_round. cbn [Program.holds].
  assert (∀ reason l2, holds (ends_with_reason h reason) l2
    (λ x (_ : Log), match x with inl _ => True | inr _ => True end)) as Hfin.
  { intros reason l2. apply holds_bind, holds_finish. done. }
  intros []; [apply Hfin|]. destruct (sessions_used_up _ _).
  { apply holds_bind, holds_drain. intros. apply Hfin. }
  destruct (too_many_failures _ _); [apply Hfin|]. cbn [Program.holds]. split; [by left|]. intros [x|] _; [|apply Hfin].
  destruct (sessions_answer x) as [[sids|reason]|e]; cbn; [|done..].
  apply holds_answer_all. by intros [] ?.
Qed.
End host.

(** C22. In every run of a host, whatever the relay and the receivers answer, a request it
    sends posts nothing, or the message of a handshake of its own, or a ticket; and a
    ticket is noise it drew, or the payload sealed under the key of a handshake whose
    other side had posted the proof that it derives the same key. *)
Theorem sealed_only_after_proof `{!Aes256Gcm, !Blake3Hash, !Spake2, !Blake3Kdf, !Blake3Keyed, !Base32Lower}
    h payload opts st ins p l pre r x post :
  run (host_run h payload opts st) ins = Some (p, l) → l = pre ++ Sent r x :: post →
  host_may h payload pre r.
Proof.
  intros Hr Hl. destruct (run_holds (host_may h payload) (fun _ _ _ => True) (fun _ _ => True) (fun _ _ => True)
    _ _ [] _ _ _ (holds_host_run h payload opts _ _ st []) Hr) as [Hp _].
  { intros ? [? []| | |] ? _; done. }
  exact (Hp _ _ _ Hl).
Qed.

(** ** The budget of a code *)

(** Nothing but the loop of the host reports. *)
Section budget.
Context `{!Aes256Gcm, !Blake3Hash, !Spake2, !Blake3Kdf, !Blake3Keyed, !Base32Lower}
  (h : CodeHost) (payload : bytes) (opts : HostOpts).

Lemma silent_poll url what token timeout : silent (poll_get_for url what token timeout).
Proof. unfold poll_get_for, poll_round. quiet. Qed.
Lemma silent_put key value : silent (put h key value).
Proof. unfold put, send_ok, send. quiet. Qed.
#[local] Hint Resolve silent_poll silent_put : core.

Lemma silent_answer sid emitted await : silent (answer h sid payload emitted await).
Proof.
  unfold answer, answer_proof, answer_confirmed, pairing_start, get_once. quiet; auto.
Qed.
Lemma silent_asks sids : silent (drain_asks h sids).
Proof. induction sids as [|sid sids IH]; [done|]. cbn. intros x. by quiet. Qed.
#[local] Hint Resolve silent_asks : core.
Lemma silent_drain outstanding : silent (drain h outstanding).
Proof. unfold drain, drain_round. quiet; auto. Qed.
Lemma silent_close : silent (close h).
Proof. unfold close, send. quiet. Qed.

(** Wrong guesses and pairings that a log reports, and the counters it had stored last. *)
Definition is_bad (o : Obs Request (option Response) Note) : bool :=
  match o with Told (OnEvent (BadCode _ _ _)) => true | _ => false end.
Definition is_paired (o : Obs Request (option Response) Note) : bool :=
  match o with Told (OnEvent (HostPaired _ _ _ _)) => true | _ => false end.
Definition how_many (f : Obs Request (option Response) Note → bool) (l : Log) : Z :=
  Z.of_nat (length (List.filter f l)).
Definition stored (st : HostState) (l : Log) : HostState :=
  foldl (fun s o => match o with Told (OnState s) => s | _ => s end) st l.

Lemma how_many_app f l k : how_many f (l ++ k) = how_many f l + how_many f k.
Proof. unfold how_many. rewrite List.filter_app, length_app. lia. Qed.
Lemma untold_counts st l k : Forall untold k →
  how_many is_bad (l ++ k) = how_many is_bad l ∧ how_many is_paired (l ++ k) = how_many is_paired l ∧
  stored st (l ++ k) = stored st l.
Proof.
  intros Hk. rewrite !how_many_app. unfold stored. rewrite foldl_app.
  assert (how_many is_bad k = 0 ∧ how_many is_paired k = 0 ∧
    ∀ s, foldl (λ s o, match o with Told (OnState s) => s | _ => s end) s k = s) as (-> & -> & Hs);
    [|rewrite Hs; split_and!; [lia|lia|done]].
  induction Hk as [|o k Ho Hk (IH1 & IH2 & IH3)]; [done|].
  destruct o as [r x|t|b|n]; [split_and!; [exact IH1|exact IH2|exact IH3]..|]. destruct Ho.
Qed.

Context (st : HostState).
Hypothesis Hf : 0 <= st.(hs_failures).
Hypothesis Hd : 0 <= st.(hs_sessions_done) <= U32_MAX.
Hypothesis Hmaxf : opts.(ho_max_failures) <= U32_MAX.
Hypothesis Hmaxs : ∀ max, opts.(ho_max_sessions) = Some max → max <= U32_MAX.

Definition counters (paired bad : Z) : HostState :=
  mkHostState (wrap_u32 (st.(hs_sessions_done) + paired)) (st.(hs_failures) + bad).
Definition counted (l : Log) : HostState := counters (how_many is_paired l) (how_many is_bad l).
Definition room_bad (l : Log) : Prop := st.(hs_failures) + how_many is_bad l < opts.(ho_max_failures).
Definition room_paired (l : Log) : Prop :=
  ∀ max, opts.(ho_max_sessions) = Some max → st.(hs_sessions_done) + how_many is_paired l < max.

(** What may be reported: a counter is stored before the session it counts is reported,
    and only while there is room for it. *)
Definition says_counted (l : Log) (n : Note) : Prop :=
  match n with
  | OnState s =>
      s = counters (how_many is_paired l + 1) (how_many is_bad l) ∧ room_paired l ∨
      s = counters (how_many is_paired l) (how_many is_bad l + 1) ∧ room_bad l
  | OnEvent (HostPaired _ _ _ _) =>
      stored st l = counters (how_many is_paired l + 1) (how_many is_bad l) ∧ room_paired l
  | OnEvent (BadCode _ _ _) =>
      stored st l = counters (how_many is_paired l) (how_many is_bad l + 1) ∧ room_bad l
  | _ => True
  end.

Definition within (l : Log) : Prop :=
  st.(hs_failures) + how_many is_bad l <= Z.max st.(hs_failures) opts.(ho_max_failures) ∧
  ∀ max, opts.(ho_max_sessions) = Some max →
    st.(hs_sessions_done) + how_many is_paired l <= Z.max st.(hs_sessions_done) max.
Definition budget (l : Log) (s : HostState) : Prop := s = counted l ∧ stored st l = s ∧ within l.

Notation holds := (holds (fun _ _ => True) (fun _ _ _ => True) (fun _ _ => True) says_counted).
Notation kept := (λ (x : HostLoop + result CloseReason string) (l : Log),
  match x with inl s => budget l s.(hl_state) | inr _ => True end).

Lemma budget_untold l k s : Forall untold k → budget l s → budget (l ++ k) s.
Proof.
  intros Hk (-> & Hs & Hw). destruct (untold_counts st l k Hk) as (E1 & E2 & E3).
  unfold budget, within, counted in *. by rewrite E1, E2, E3.
Qed.

Lemma holds_ends reason l : holds (ends_with_reason h reason) l kept.
Proof.
  unfold ends_with_reason, finish_host. do 2 apply holds_bind. apply holds_silent; [done|apply silent_close|].
  intros r k _. by cbn.
Qed.

Lemma stored_told l s : stored st (l ++ [Told (OnState s)]) = s.
Proof. unfold stored. by rewrite foldl_app. Qed.
Lemma stored_event l e : stored st (l ++ [Told (OnEvent e)]) = stored st l.
Proof. unfold stored. by rewrite foldl_app. Qed.
Lemma how_many_one f l o : how_many f (l ++ [o]) = how_many f l + if f o then 1 else 0.
Proof. rewrite how_many_app. f_equal. unfold how_many. cbn. by destruct (f o). Qed.

Lemma counted_paired l :
  mkHostState (wrap_u32 (hs_sessions_done (counted l) + 1)) (hs_failures (counted l))
  = counters (how_many is_paired l + 1) (how_many is_bad l).
Proof.
  unfold counted, counters. cbn. f_equal. unfold wrap_u32. rewrite Zplus_mod_idemp_l. f_equal. lia.
Qed.
Lemma counted_bad l : room_bad l →
  mkHostState (hs_sessions_done (counted l)) (wrap_u32 (hs_failures (counted l) + 1))
  = counters (how_many is_paired l) (how_many is_bad l + 1).
Proof.
  unfold counted, counters, room_bad. cbn. intros Hr. f_equal. rewrite wrap_u32_small; [lia|].
  unfold is_u32, how_many in *. lia.
Qed.

(** Counts after a report: by what the report is. *)
Ltac recount :=
  unfold budget, within, counted, room_bad, room_paired in *; rewrite ?stored_event, ?stored_told, ?how_many_one;
  cbn [is_bad is_paired]; rewrite ?Z.add_0_r.

Lemma holds_session_over sid r s outstanding l k :
  budget l s → room_bad l → room_paired l →
  (∀ s o l, budget l s → holds (k s o) l kept) →
  holds (session_over opts sid r s outstanding k) l kept.
Proof.
  intros (-> & Hs & Hwb & Hwp) Hrb Hrp Hk. destruct r as [[reply extras| | |]|e]; cbn [session_over Program.holds].
  - rewrite counted_paired. split; [by left|]. split; [split; recount; [done|]|apply Hk]; [|recount; split_and!; try done];
      intros max Hm; specialize (Hrp max Hm); recount; lia.
  - rewrite counted_bad by done. split; [by right|]. split; [split; recount; [done|lia]|apply Hk].
    recount. split_and!; try done. lia.
  - split; [done|]. apply Hk. by recount.
  - split; [done|]. apply Hk. by recount.
  - by apply Hk.
Qed.

Lemma budget_room l s :
  budget l s → too_many_failures opts s || sessions_used_up opts s = false → room_bad l ∧ room_paired l.
Proof.
  intros (-> & _ & Hwb & Hwp) [Hb Hp]%orb_false_iff. unfold too_many_failures, sessions_used_up, counted, counters in *.
  cbn in *. zbool. split; [done|]. intros max Hm. rewrite Hm in Hp. zbool.
  specialize (Hwp max Hm). specialize (Hmaxs max Hm). rewrite wrap_u32_small in Hp; [done|].
  unfold is_u32, how_many in *. lia.
Qed.

Lemma holds_answers (sids : list string) (s : HostState) (emitted : gset bytes) (outstanding : gset string) (l : Log) :
  budget l s → holds (answer_all h payload opts sids s emitted outstanding) l kept.
Proof.
  revert s emitted outstanding l. induction sids as [|sid sids IH]; intros s emitted outstanding l Hb;
    cbn [answer_all Program.holds]; [done|].
  intros []; [apply holds_ends|]. destruct (_ || _) eqn:Hroom; [done|].
  destruct (budget_room l s Hb Hroom) as [Hrb Hrp].
  apply holds_bind, holds_silent; [done|apply silent_answer|]. intros [r e] k Hk.
  destruct (untold_counts st l k Hk) as (E1 & E2 & _).
  apply holds_session_over; [by apply budget_untold|unfold room_bad; by rewrite E1|unfold room_paired; by rewrite E2|].
  intros s' o l' Hb'. by apply IH.
Qed.

Lemma holds_budget : holds (host_run h payload opts st) [] (fun _ _ => True).
Proof.
  unfold host_run. cbn [Program.holds app]. split; [done|].
  apply (holds_loop _ _ _ _ (fun s l => budget l s.(hl_state))).
  { unfold budget, counted, counters, within. cbn. rewrite !Z.add_0_r, wrap_u32_small by done.
    split_and!; [by destruct st|done|lia|lia]. }
  intros [s emitted outstanding] l Hb. cbn in Hb. unfold host_round. cbn [Program.holds hl_state hl_emitted hl_outstanding].
  intros []; [apply holds_ends|]. destruct (sessions_used_up opts s) eqn:Hu.
  { apply holds_bind, holds_silent; [done|apply silent_drain|]. intros. apply holds_ends. }
  destruct (too_many_failures opts s) eqn:Ht; [apply holds_ends|]. cbn [Program.holds]. split; [done|].
  intros [x|] _; [|apply holds_ends].
  destruct (sessions_answer x) as [[sids|reason]|e]; cbn [Program.holds]; [|done..].
  apply holds_answers. apply budget_untold; [by repeat constructor|done].
Qed.

(** At any moment of a run: what is stored counts what was reported, and is in bounds. *)
Lemma log_budget l :
  (∀ pre o post, l = pre ++ o :: post → proper (fun _ _ => True) says_counted pre o) →
  ∃ dp db, 0 <= dp ∧ 0 <= db ∧ stored st l = counters (how_many is_paired l + dp) (how_many is_bad l + db) ∧
    st.(hs_failures) + how_many is_bad l + db <= Z.max st.(hs_failures) opts.(ho_max_failures) ∧
    ∀ max, opts.(ho_max_sessions) = Some max →
      st.(hs_sessions_done) + how_many is_paired l + dp <= Z.max st.(hs_sessions_done) max.
Proof.
  induction l as [|o l IH] using rev_ind; intros Hp.
  { exists 0, 0. unfold counters. cbn. rewrite !Z.add_0_r, wrap_u32_small by done. split_and!; try lia. by destruct st. }
  destruct IH as (dp & db & Hdp & Hdb & Hs & Hb & Hw).
  { intros pre o' post ->. apply (Hp pre o' (post ++ [o])). by rewrite <- app_assoc. }
  specialize (Hp l o [] eq_refl). assert (untold o →
    ∃ dp db, 0 <= dp ∧ 0 <= db ∧ stored st (l ++ [o]) = counters (how_many is_paired (l ++ [o]) + dp) (how_many is_bad (l ++ [o]) + db) ∧
    st.(hs_failures) + how_many is_bad (l ++ [o]) + db <= Z.max st.(hs_failures) opts.(ho_max_failures) ∧
    ∀ max, opts.(ho_max_sessions) = Some max →
      st.(hs_sessions_done) + how_many is_paired (l ++ [o]) + dp <= Z.max st.(hs_sessions_done) max) as Hq.
  { intros Hu. destruct (untold_counts st l [o]) as (-> & -> & ->); [by constructor|]. by exists dp, db. }
  destruct o as [r x|t|b|[e|s]]; [by apply Hq..|destruct e|]; cbn in Hp.
  - exists dp, db. recount. by split_and!.
  - destruct Hp as [Hs' Hr]. exists 0, 0. recount. rewrite Hs'. split_and!; try lia; [done|].
    intros mx Hm. specialize (Hr mx Hm). lia.
  - destruct Hp as [Hs' Hr]. exists 0, 0. recount. rewrite Hs'. split_and!; try lia; [done|].
    intros mx Hm. specialize (Hw mx Hm). lia.
  - exists dp, db. recount. by split_and!.
  - exists dp, db. recount. by split_and!.
  - destruct Hp as [[-> Hr]|[-> Hr]].
    + exists 1, 0. recount. split_and!; try lia; [done|]. intros mx Hm. specialize (Hr mx Hm). lia.
    + exists 0, 1. recount. split_and!; try lia; [done|]. intros mx Hm. specialize (Hw mx Hm). lia.
Qed.

Lemma life_budget ins p l :
  run (host_run h payload opts st) ins = Some (p, l) →
  st.(hs_failures) + how_many is_bad l <= (stored st l).(hs_failures)
    <= Z.max st.(hs_failures) opts.(ho_max_failures) ∧
  0 <= (stored st l).(hs_sessions_done) <= U32_MAX ∧
  ∀ max, opts.(ho_max_sessions) = Some max →
    st.(hs_sessions_done) + how_many is_paired l <= (stored st l).(hs_sessions_done)
      <= Z.max st.(hs_sessions_done) max.
Proof.
  intros Hr. destruct (run_holds (fun _ _ => True) (fun _ _ _ => True) (fun _ _ => True) says_counted _ _ [] _ _ _ holds_budget Hr) as [Hp _].
  { intros ? [? []| | |] ? _; done. }
  destruct (log_budget l Hp) as (dp & db & Hdp & Hdb & -> & Hb & Hw). unfold counters. cbn.
  assert (0 <= wrap_u32 (hs_sessions_done st + (how_many is_paired l + dp)) <= U32_MAX) as Hu.
  { unfold wrap_u32, U32_MAX. pose proof (Z.mod_pos_bound (hs_sessions_done st + (how_many is_paired l + dp)) (2 ^ 32)). lia. }
  split_and!; [lia..|]. intros max Hm. specialize (Hw max Hm). specialize (Hmaxs max Hm).
  rewrite wrap_u32_small; [lia|]. unfold is_u32, how_many in *. lia.
Qed.
End budget.

(** A host over its lives: each starts from the counters that the one before had stored
    when it stopped, wherever it stopped. The wrong guesses and the pairings of all. *)
Fixpoint lives `{!Aes256Gcm, !Blake3Hash, !Spake2, !Blake3Kdf, !Blake3Keyed, !Base32Lower}
    (h : CodeHost) (payload : bytes) (opts : HostOpts) (st : HostState) (inss : list (list (Input (option Response))))
    : option (HostState * Z * Z) :=
  match inss with
  | [] => Some (st, 0, 0)
  | ins :: inss =>
      '(_, l) ← run (host_run h payload opts st) ins;
      '(st', bad, paired) ← lives h payload opts (stored st l) inss;
      Some (st', how_many is_bad l + bad, how_many is_paired l + paired)
  end.

