(* ===== verification/CodeNet.v ===== *)
(** * A host, a receiver and the relay between them

    The two programs of [Code.v] with the rendezvous board of [Rendezvous.v] serving
    their requests.  A run interleaves the turns of the two and the requests of anyone
    else in any order; a request of theirs, or its answer, may be lost, and the sessions
    listing is held open and looked at again until it answers. *)
From S2P Require Import Prelude.
From S2P Require Import Program.
From S2P Require Import Text.
From S2P Require Import ChunkCipher.
From S2P Require Import SyncCodec.
From S2P Require Import Limits.
From S2P Require Import Store.
From S2P Require Import Mailbox.
From S2P Require Import UploadHttp.
From S2P Require Import MailboxFacts.
From S2P Require Import UploadClient.
From S2P Require Import Rendezvous.
From S2P Require Import RendezvousFacts.
From S2P Require Import Code.
From S2P Require Import CodeFacts.
Local Open Scope Z_scope.
Local Open Scope prog_scope.

(** ** The parties and their turns *)

Record Party (A : Type) := mkParty { pa_prog : client A; pa_log : Log; pa_held : option (string * Z) }.
Arguments mkParty {A} _ _ _.
Arguments pa_prog {A} _.
Arguments pa_log {A} _.
Arguments pa_held {A} _.

Inductive Served := Replied (r : Response) | Holding (slot : string) (deadline : Z).
Inductive Fate := Delivered | RequestLost | AnswerLost.
Inductive Turn {Ip : Type} :=
  | Net (ip : option Ip) (now : Z) (fate : Fate)
  | Look (now : Z)
  | Inner (i : Input (option Response)).
Arguments Turn : clear implicits.
Inductive Move {Ip : Type} := HostMove (t : Turn Ip) | RecvMove (t : Turn Ip) | OtherMove (op : RzOp Ip).
Arguments Move : clear implicits.

Definition party {A} (p : client A) : Party A := mkParty p [] None.

Section net.
Context `{!Aes256Gcm, !Blake3Hash, !Spake2, !Blake3Kdf, !Blake3Keyed, !Base32Lower, !Base32}
  {Ip : Type} `{Countable Ip} (lim : Limits) (caps : RzCaps) (features : Response).

Notation Board := (RzLimiter Ip * Mailbox)%type.

Definition text_reply (r : result string Refusal) : Response :=
  match r with
  | Ok t => mkResponse OK (Some (bytes_of t))
  | Err (status, t) => mkResponse status (Some (bytes_of t))
  end.

(** The router, for the routes that a code uses. *)
Definition serve (ip : option Ip) (r : Request) (now : Z) (b : Board) : Served * Board :=
  let '(L, m) := b in
  let auth := (fun t => ("Bearer " +:+ t)%string) <$> r.(rq_token) in
  match r.(rq_url) with
  | FeaturesUrl _ => (Replied features, b)
  | RzUrl _ slot key wait =>
      match r.(rq_verb) with
      | Get =>
          let '(ans, L, m) := rz_get_handler caps ip auth slot key (default 0 wait) now L m in
          (match ans with
           | Ok (Body v) => Replied (mkResponse OK (Some v))
           | Ok (Held slot deadline) => Holding slot deadline
           | Err e => Replied (text_reply (Err e))
           end, (L, m))
      | Post =>
          let '(ans, L, m) := rz_post_handler lim caps ip auth slot key r.(rq_body) now L m in
          (Replied (text_reply ans), (L, m))
      | Delete =>
          let '(ans, L, m) := rz_delete_handler caps ip auth slot key now L m in
          (Replied (text_reply ans), (L, m))
      end
  end.

Definition request_of {A} (p : client A) : option Request :=
  match p with Send r _ => Some r | Race r _ => Some r | _ => None end.
Definition answer_with {A} (p : client A) (x : option Response) : option (client A * Log) :=
  match p with Send _ _ => resume p (Answers x) | _ => resume p (Raced (Some x)) end.

Definition goes_on {A} (p : Party A) (r : option (client A * Log)) : option (Party A) :=
  '(q, l) ← r; Some (mkParty q (p.(pa_log) ++ l) None).

(** A request waits for its answer; a race can be lost while it does. *)
Definition turn {A} (t : Turn Ip) (p : Party A) (b : Board) : option (Party A * Board) :=
  match t with
  | Net ip now fate =>
      match p.(pa_held), request_of p.(pa_prog) with
      | None, Some r =>
          match fate with
          | RequestLost => p ← goes_on p (answer_with p.(pa_prog) None); Some (p, b)
          | AnswerLost => p ← goes_on p (answer_with p.(pa_prog) None); Some (p, (serve ip r now b).2)
          | Delivered =>
              match serve ip r now b with
              | (Replied resp, b) => p ← goes_on p (answer_with p.(pa_prog) (Some resp)); Some (p, b)
              | (Holding slot deadline, b) => Some (mkParty p.(pa_prog) p.(pa_log) (Some (slot, deadline)), b)
              end
          end
      | _, _ => None
      end
  | Look now =>
      '(slot, deadline) ← p.(pa_held);
      match rz_sessions_loop slot deadline [(now, b.2)] with
      | None => Some (p, b)
      | Some body => p ← goes_on p (answer_with p.(pa_prog) (Some (mkResponse OK (Some body)))); Some (p, b)
      end
  | Inner (Answers _) | Inner (Raced (Some _)) => None
  | Inner i => p ← goes_on p (resume p.(pa_prog) i); Some (p, b)
  end.

Record World := mkWorld {
  wo_host : Party (result CloseReason string); wo_recv : Party (result (bytes * bool) string); wo_board : Board }.

Definition move (mv : Move Ip) (w : World) : option World :=
  match mv with
  | HostMove t => '(p, b) ← turn t w.(wo_host) w.(wo_board); Some (mkWorld p w.(wo_recv) b)
  | RecvMove t => '(p, b) ← turn t w.(wo_recv) w.(wo_board); Some (mkWorld w.(wo_host) p b)
  | OtherMove op => Some (mkWorld w.(wo_host) w.(wo_recv) (rz_step lim caps op w.(wo_board)))
  end.
Definition moves_run (mvs : list (Move Ip)) (w : World) : option World :=
  foldl (fun w mv => w ← w; move mv w) (Some w) mvs.
End net.

(** ** What a receiver ends with *)

Section payload.
Context `{!Aes256Gcm, !Aes256GcmLaws, !Blake3Hash, !Spake2, !Blake3Kdf, !Blake3Keyed, !Base32Lower, !Base32, !Base32LowerLaws}
  {Ip : Type} `{Countable Ip} (lim : Limits) (caps : RzCaps) (features : Response)
  (h : CodeHost) (payload : bytes) (drawn : bytes → Prop).
Notation slot := h.(ch_slot).
Notation Board := (RzLimiter Ip * Mailbox)%type.

(** A ticket is noise that the host drew or the payload sealed under some key. *)
Definition ticket_ok (sid : string) (v : bytes) : Prop :=
  drawn v ∨ ∃ pake, seal_chunk (ticket_key32 pake slot sid) 0 1 payload = Ok v.
Definition message_ok (v : bytes) : Prop := ∃ scalar, v = pairing_message (host_pairing h scalar).

(** What the board shows of the slot: it is the host's, and what is under the host's keys
    was put there by it. *)
Definition board_ok (m : Mailbox) : Prop :=
  (∀ row, m.(mb_rendezvous) !! (slot, RZ_OWN_KEY) = Some row → take 32 row.(rz_value) = blake3_hash h.(ch_owner_token)) ∧
  (∀ sid row, sid ≠ ""%string → m.(mb_rendezvous) !! (slot, P_SEND +:+ sid)%string = Some row → message_ok row.(rz_value)) ∧
  (∀ sid row, sid ≠ ""%string → m.(mb_rendezvous) !! (slot, P_TKT +:+ sid)%string = Some row → ticket_ok sid row.(rz_value)).

Definition stranger (auth : option string) : Prop :=
  ∀ token, rz_bearer auth = Some token → blake3_hash token ≠ blake3_hash h.(ch_owner_token).
(** Others neither have the host's token nor claim its slot. *)
Definition harmless (op : RzOp Ip) : Prop :=
  match op with
  | RzPost _ auth sl key _ _ => sl = slot → key ≠ RZ_OWN_KEY ∧ stranger auth
  | _ => True
  end.
Definition op_fine (op : RzOp Ip) : Prop :=
  match op with
  | RzPost _ auth sl key body _ => sl = slot → key ≠ RZ_OWN_KEY ∧
      (stranger auth ∨ (∀ sid, key = (P_SEND +:+ sid)%string → message_ok body) ∧
                       (∀ sid, key = (P_TKT +:+ sid)%string → ticket_ok sid body))
  | _ => True
  end.

Lemma session_prefix_of p sid :
  p ∈ [RZ_P_SEND; RZ_P_TKT; RZ_P_RECV; RZ_P_CONF; RZ_P_BACK; RZ_P_XTRA] → sid ≠ ""%string → rz_session_prefix (p +:+ sid) = Some p.
Proof.
  intros Hp Hs. destruct sid as [|c sid]; [done|].
  assert (∀ q, String.length q = 2%nat → (String.length q <? String.length (q +:+ String c sid))%nat = true) as Hlen.
  { intros q Hq. rewrite string_app_length. cbn. apply Nat.ltb_lt. lia. }
  assert (∀ q t, after q (q +:+ t)%string = Some t) as Ha by (intros; by apply after_Some).
  set_unfold in Hp. destruct_or?; subst p; unfold rz_session_prefix; cbn [find]; rewrite Ha, Hlen by done;
    repeat match goal with |- context [after ?q (?p +:+ ?t)%string] => change (after q (p +:+ t)%string) with (@None string) end; done.
Qed.

Lemma board_step op (s : Board) : board_ok s.2 → op_fine op → board_ok (rz_step lim caps op s).2.
Proof.
  intros (Ho & Hs & Ht) Hop.
  (* a row after the step was there before, or has been posted *)
  assert (∀ key row, (rz_step lim caps op s).2.(mb_rendezvous) !! (slot, key) = Some row →
    (∃ row0, s.2.(mb_rendezvous) !! (slot, key) = Some row0 ∧ row.(rz_value) = row0.(rz_value)) ∨
    (∃ ip auth body now, op = RzPost ip auth slot key body now ∧
       (key = RZ_OWN_KEY ∨ row.(rz_value) = body ∧
          ∀ p, rz_session_prefix key = Some p → p ∈ [RZ_P_SEND; RZ_P_TKT] → owns auth slot now s.2))) as Hrow.
  { intros key row Hr. pose proof (rz_step_change lim caps op s (slot, key)) as Hc. rewrite Hr in Hc.
    apply row_change_into in Hc as [Hold|[(r0 & ip & auth & wait & now & c & Hold & _ & _ & _ & ->)
      |(ip & auth & body & now & exp & L & Hold & -> & _ & Hx & ->)]]; cbn [fst snd rz_value] in *.
    - left. by exists row.
    - left. by exists r0.
    - right. exists ip, auth, body, now. split; [done|]. destruct (decide (key = RZ_OWN_KEY)) as [->|Hne]; [by left|right].
      split; [by rewrite bool_decide_false|]. intros p Hp Hin. unfold rz_write_expiry in Hx.
      rewrite bool_decide_false, Hp in Hx by done. cbn [fst] in Hx.
      destruct (rz_own_row slot now s.2) as [[hs c]|]; [|done].
      rewrite bool_decide_true in Hx by set_solver.
      destruct (rz_owner auth slot now s.2) eqn:Ow; [|done]. by eapply rz_owner_owns. }
  assert (∀ auth now, owns auth slot now s.2 → stranger auth → False) as Hown.
  { intros auth now (token & c & Hb & Hrow') Hstr. refine (Hstr token Hb _).
    unfold rz_own_row, rz_get in Hrow'. destruct (mb_rendezvous s.2 !! (slot, RZ_OWN_KEY)) as [r|] eqn:E; [|done].
    specialize (Ho r eq_refl). destruct (_ <? _); [|done]. destruct (negb _); [done|]. congruence. }
  split_and!.
  - intros row Hr. destruct (Hrow _ _ Hr) as [(r0 & Hr0 & ->)|(ip & auth & body & now & -> & _)]; [by apply Ho|].
    by destruct (Hop eq_refl).
  - intros sid row Hsid Hr. destruct (Hrow _ _ Hr) as [(r0 & Hr0 & ->)|(ip & auth & body & now & -> & [Hk|[-> Hw]])];
      [by eapply Hs|done|]. destruct (Hop eq_refl) as [_ [Hstr|[Hm _]]]; [|by eapply Hm].
    exfalso. eapply Hown; [|exact Hstr]. eapply (Hw RZ_P_SEND); [apply session_prefix_of|]; set_solver.
  - intros sid row Hsid Hr. destruct (Hrow _ _ Hr) as [(r0 & Hr0 & ->)|(ip & auth & body & now & -> & [Hk|[-> Hw]])];
      [by eapply Ht|done|]. destruct (Hop eq_refl) as [_ [Hstr|[_ Hm]]]; [|by eapply Hm].
    exfalso. eapply Hown; [|exact Hstr]. eapply (Hw RZ_P_TKT); [apply session_prefix_of|]; set_solver.
Qed.

(** *** Requests on the board *)

Definition auth_of (r : Request) : option string := (fun t => ("Bearer " +:+ t)%string) <$> r.(rq_token).
Definition op_of (ip : option Ip) (r : Request) (now : Z) : option (RzOp Ip) :=
  match r.(rq_url) with
  | FeaturesUrl _ => None
  | RzUrl _ sl key wait =>
      Some (match r.(rq_verb) with
            | Get => RzGet ip (auth_of r) sl key (default 0 wait) now
            | Post => RzPost ip (auth_of r) sl key r.(rq_body) now
            | Delete => RzDelete ip (auth_of r) sl key now
            end)
  end.
Notation served := (serve lim caps features).

Lemma serve_step ip r now (b : Board) :
  (served ip r now b).2 = match op_of ip r now with Some op => rz_step lim caps op b | None => b end.
Proof.
  destruct b as [L m]. unfold serve, op_of, rz_step, auth_of. destruct (rq_url r) as [relay sl key w|relay]; [|done].
  destruct (rq_verb r); cbn; by repeat case_match.
Qed.

Lemma serve_board ip r now (b : Board) :
  board_ok b.2 → (∀ op, op_of ip r now = Some op → op_fine op) → board_ok (served ip r now b).2.2.
Proof.
  intros Hb Hop. rewrite serve_step. destruct (op_of ip r now) as [op|]; [|done]. apply board_step; auto.
Qed.

Lemma host_op_fine l ip r now op :
  host_may h payload l r → (∀ b, Drew b ∈ l → drawn b) → op_of ip r now = Some op → op_fine op.
Proof.
  intros Hm Hn Hop. unfold op_of in Hop. destruct Hm as [Hv|[(sid & scalar & _ & ->)|(sid & body & -> & Hbody)]].
  - destruct (rq_url r) as [relay sl key w|]; [|done]. injection Hop as <-. by destruct (rq_verb r).
  - injection Hop as <-. intros _. split; [done|]. right. split; [|done]. intros ? _. by exists scalar.
  - injection Hop as <-. intros _. split; [done|]. right. split; [done|]. intros sid' Hsid.
    apply string_app_inj_l in Hsid as <-. destruct Hbody as [Hd|(scalar & mr & pake & _ & _ & Hs)]; [left; by apply Hn|right; by exists pake].
Qed.

(** What a receiver sends, and what the board answers it. *)
Definition recv_may (_ : Log) (r : Request) : Prop :=
  r.(rq_token) = None ∧ ∃ relay key w, r.(rq_url) = RzUrl relay slot key w ∧ key ≠ RZ_OWN_KEY ∧ key ≠ RZ_SESSIONS_KEY.
Definition recv_lets (_ : Log) (r : Request) (x : option Response) : Prop :=
  ∀ relay key w s v, r.(rq_verb) = Get → r.(rq_url) = RzUrl relay slot key w →
    x = Some (mkResponse s (Some v)) → is_success s = true →
    (∀ sid, sid ≠ ""%string → key = (P_SEND +:+ sid)%string → message_ok v) ∧
    (∀ sid, sid ≠ ""%string → key = (P_TKT +:+ sid)%string → ticket_ok sid v).

Lemma recv_op_fine l ip r now op : recv_may l r → op_of ip r now = Some op → op_fine op.
Proof.
  intros [Htok (relay & key & w & Hu & Ho & _)] Hop. unfold op_of in Hop. rewrite Hu in Hop. injection Hop as <-.
  destruct (rq_verb r); [done| |done]. intros _. split; [done|]. left. intros token. unfold auth_of. by rewrite Htok.
Qed.

Lemma rz_limit_status (L : RzLimiter Ip) ip action now e L' :
  rz_limit caps L ip action now = (Err e, L') → e.1 = TOO_MANY_REQUESTS.
Proof. unfold rz_limit. destruct (rz_rate_limit _ _ _ _ _ _) as [[[]|e'] L1]; by intros [= <- <-]. Qed.
Lemma rz_owner_status auth sl now m e : rz_owner auth sl now m = Err e → is_success e.1 = false.
Proof. unfold rz_owner. repeat case_match; by intros [= <-]. Qed.
Lemma rz_read_status auth sl key wait now m e m' :
  rz_read auth sl key wait now m = (Err e, m') → is_success e.1 = false.
Proof.
  unfold rz_read, rz_sessions. intros Hr.
  repeat match type of Hr with
    | context [match ?x with _ => _ end] => destruct x eqn:?; try discriminate Hr
    | (Err _, _) = _ => injection Hr as <- <-
    end; try done; try by eapply rz_owner_status.
  destruct (bool_decide _) in Heqr; [by eapply rz_owner_status|done].
Qed.

Lemma rz_read_row auth sid p wait now m v m' :
  p ∈ [RZ_P_SEND; RZ_P_TKT] → sid ≠ ""%string →
  rz_read auth slot (p +:+ sid) wait now m = (Ok (Body v), m') →
  ∃ row, m.(mb_rendezvous) !! (slot, p +:+ sid)%string = Some row ∧ row.(rz_value) = v.
Proof.
  intros Hp Hsid Hr. unfold rz_read in Hr. rewrite session_prefix_of in Hr by (done || set_solver).
  rewrite !bool_decide_false in Hr by (set_unfold in Hp; by destruct_or?; subst p).
  rewrite bool_decide_false in Hr by (set_unfold in Hp; destruct_or?; subst p; set_solver).
  unfold rz_get in Hr. destruct (mb_rendezvous m !! _) as [row|]; [|done]. destruct (_ <? _); [|done].
  injection Hr as Hv _. by exists row.
Qed.

Lemma serve_lets l ip r now (b b' : Board) resp :
  board_ok b.2 → served ip r now b = (Replied resp, b') → recv_lets l r (Some resp).
Proof.
  intros (_ & Hs & Ht) Hserve relay key w s v Hv Hu [= ->] Hok.
  unfold serve in Hserve. destruct b as [L m]. rewrite Hu, Hv in Hserve. cbn [snd] in *.
  unfold rz_get_handler in Hserve. destruct (negb _); [by injection Hserve as <- <- <-|].
  destruct (rz_limit caps L ip (GetSlot slot) now) as [[u|e] L1] eqn:El.
  2:{ apply rz_limit_status in El. destruct e as [e1 e2]. cbn in El. subst e1. by injection Hserve as <- <- <-. }
  destruct (rz_read _ slot key _ now m) as [[[v'|]|e] m1] eqn:Er; [|done|].
  2:{ apply rz_read_status in Er. destruct e as [e1 e2]. cbn in *. injection Hserve as <- <- <-. congruence. }
  injection Hserve as _ -> _. split; intros sid Hsid ->.
  - apply (rz_read_row _ _ RZ_P_SEND) in Er as (row & Hrow & <-); [by eapply Hs|set_solver|done].
  - apply (rz_read_row _ _ RZ_P_TKT) in Er as (row & Hrow & <-); [by eapply Ht|set_solver|done].
Qed.

Lemma serve_replies ip r now (b b' : Board) sl dl :
  recv_may [] r → served ip r now b ≠ (Holding sl dl, b').
Proof.
  intros (_ & relay & key & w & Hu & Ho & Hk) Hserve. unfold serve in Hserve. destruct b as [L m]. rewrite Hu in Hserve.
  destruct (rq_verb r); [|by destruct (rz_post_handler _ _ _ _ _ _ _ _ _ _) as [[? ?] ?]
    |by destruct (rz_delete_handler _ _ _ _ _ _ _ _) as [[? ?] ?]].
  destruct (rz_get_handler _ _ _ _ _ _ _ _ _) as [[ans L'] m'] eqn:E. destruct ans as [[]|]; try discriminate Hserve.
  unfold rz_get_handler in E. destruct (negb _); [done|]. destruct (rz_limit _ _ _ _ _) as [[u|e] L1]; [|done].
  destruct (rz_read _ _ _ _ _ _) as [r0 m0] eqn:Er. injection E as -> _ _. revert Er. unfold rz_read.
  rewrite (bool_decide_false (key = RZ_OWN_KEY)), (bool_decide_false (key = RZ_SESSIONS_KEY)) by done.
  repeat case_match; intros [=].
Qed.

(** *** The receiver's program *)

(** A forgery: under the key it derived the receiver opened what had not been sealed
    under it, the noise of the host or the payload under another key. *)
Definition forged (p : bytes) : Prop :=
  ∃ k c, open_chunk k 0 1 c = Ok p ∧ (drawn c ∨ ∃ k', k' ≠ k ∧ seal_chunk k' 0 1 payload = Ok c).

Definition recv_lots (_ : Log) (b : bytes) : Prop := b ≠ [].
Definition recv_ends (r : result (bytes * bool) string) (_ : Log) : Prop :=
  ∀ p replied, r = Ok (p, replied) → p = payload ∨ forged p.
Notation recv_holds := (holds recv_may recv_lets recv_lots (fun _ _ => True)).

Lemma recv_may_session v relay p sid body l :
  p ∈ [P_RECV; P_SEND; P_CONF; P_TKT; P_BACK; P_XTRA] →
  recv_may l (mkRequest v (rz_url relay slot (p +:+ sid)) None body).
Proof.
  intros Hp. split; [done|]. exists (trim_slashes relay), (p +:+ sid)%string, None. split; [done|].
  set_unfold in Hp. by destruct_or?; subst p.
Qed.

Lemma holds_resolve_v2 relay secret timeout reply extras l :
  recv_holds (resolve_v2 relay slot secret timeout reply extras) l recv_ends.
Proof.
  unfold resolve_v2, gen_sid, pairing_start. cbn [bind Program.holds]. intros raw Hraw scalar _. unfold recv_lots in Hraw.
  assert (base32_lower raw ≠ ""%string) as Hsid.
  { pose proof (base32_lower_length raw) as Hl. intros E. rewrite E in Hl. destruct raw; [done|cbn in Hl; lia]. }
  set (sid := base32_lower raw) in *. set (p := mkPairing _ _).
  assert (∀ e l, recv_ends (Err e) l) as Herr by done.
  apply holds_bind_ok, holds_send_ok; [apply recv_may_session; set_solver|]. intros x [[]|e]; [|done].
  apply holds_bind_ok, holds_poll_get_for; [intros; apply recv_may_session; set_solver|].
  intros l1 [ms|e] _ Hms; [|done]. destruct (pairing_finish p ms) as [pake|e]; [|done].
  apply holds_bind_ok, holds_send_ok; [apply recv_may_session; set_solver|]. intros y [[]|e]; [|done].
  apply holds_bind_ok, holds_bind, holds_poll_get_for; [intros; apply recv_may_session; set_solver|].
  intros l2 [ct|e] _ Hct; cbn [result_ok context Program.holds]; [|done].
  destruct (Hct ct eq_refl) as (o & _ & (s & Hs & ->) & l0 & Hlet). cbn [allowed] in Hlet.
  destruct (Hlet _ _ _ _ _ eq_refl eq_refl eq_refl Hs) as [_ Ht]. specialize (Ht sid Hsid eq_refl).
  destruct (open_chunk (ticket_key32 pake slot sid) 0 1 ct) as [plain|e] eqn:Eo; cbn [result_ok context]; [|done].
  assert (plain = payload ∨ forged plain) as Hplain.
  { destruct Ht as [Hn|(pake' & Hsl)]; [right; by eexists _, _; eauto|].
    destruct (decide (ticket_key32 pake' slot sid = ticket_key32 pake slot sid)) as [Hk|Hk].
    - left. rewrite Hk in Hsl. apply open_seal_chunk in Hsl. congruence.
    - right. eexists _, _. eauto. }
  assert (∀ b l, recv_ends (Ok (plain, b)) l) as Hok by (by intros b l' ? ? [= <- <-]).
  assert (∀ replied l, recv_holds (let* _ := match extras with
      | None => Ret tt
      | Some body => match seal_chunk (extras_key32 pake slot sid) 0 1 body with
                     | Ok sealed => Send (post (rz_url relay slot (P_XTRA +:+ sid)) None sealed) (fun _ => Ret tt)
                     | Err _ => Ret tt end end in Ret (Ok (plain, replied))) l recv_ends) as Hx.
  { intros replied l'. destruct extras as [body|]; [|apply Hok]. destruct (seal_chunk _ _ _ body); [|apply Hok].
    cbn [bind Program.holds]. split; [apply recv_may_session; set_solver|]. intros z _. apply Hok. }
  unfold resolve_v2_back. apply holds_bind_ok. destruct reply as [body|]; [|apply Hx].
  destruct (seal_chunk _ _ _ body); [|done]. cbn [bind Program.holds].
  split; [apply recv_may_session; set_solver|]. intros z _. apply Hx.
Qed.

(** *** The turns of a party *)

Lemma turn_holds {A} may lets lots (Q : A → Log → Prop) t (p p' : Party A) (b b' : Board) :
  holds may lets lots (fun _ _ => True) p.(pa_prog) p.(pa_log) Q →
  turn lim caps features t p b = Some (p', b') →
  (∀ x, t = Inner (Drawn x) → lots p.(pa_log) x) → (∀ r, lets p.(pa_log) r None) →
  (∀ r ip now resp b1, may p.(pa_log) r → served ip r now b = (Replied resp, b1) → lets p.(pa_log) r (Some resp)) →
  (p.(pa_held) ≠ None → ∀ r body, lets p.(pa_log) r (Some (mkResponse OK (Some body)))) →
  holds may lets lots (fun _ _ => True) p'.(pa_prog) p'.(pa_log) Q ∧
  (b' = b ∨ ∃ ip r now, may p.(pa_log) r ∧ b' = (served ip r now b).2) ∧
  (∀ x, Drew x ∈ p'.(pa_log) → Drew x ∈ p.(pa_log) ∨ t = Inner (Drawn x)) ∧
  (p'.(pa_held) = None ∨ p'.(pa_held) = p.(pa_held) ∨ ∃ ip r now sl dl, may p.(pa_log) r ∧ served ip r now b = (Holding sl dl, b')).
Proof.
  intros Hp Ht Hlots Hnone Hserve Hlook. destruct p as [q l held]. cbn [pa_prog pa_log pa_held] in *.
  (* feeding one input *)
  assert (∀ i q' os, resume q i = Some (q', os) → Forall (allowed lets lots l) os →
    holds may lets lots (fun _ _ => True) q' (l ++ os) Q) as Hfeed.
  { intros i q' os Hr Ho. by destruct (holds_resume _ _ _ _ _ _ _ _ _ _ Hp Hr Ho). }
  assert (∀ r, request_of q = Some r → may l r) as Hmay.
  { intros r Hr. destruct q; try discriminate Hr; injection Hr as <-; apply Hp. }
  assert (∀ x q' os, answer_with q x = Some (q', os) → ∃ r, request_of q = Some r ∧ os = [Sent r (Some x)] ∧
    (lets l r x → holds may lets lots (fun _ _ => True) q' (l ++ os) Q)) as Hans.
  { intros x q' os Hr. destruct q; try discriminate Hr; cbn in Hr; injection Hr as <- <-; eexists; split_and!; try done;
      intros Hl; first [eapply (Hfeed (Answers x)); [done|] | eapply (Hfeed (Raced (Some x))); [done|]]; by apply Forall_singleton. }
  assert (∀ x r q' os, os = [Sent r x] → Drew q' ∈ l ++ os → Drew q' ∈ l) as Hdr.
  { intros x r q' os -> [?|Hin]%elem_of_app; [done|]. by apply list_elem_of_singleton in Hin. }
  destruct t as [ip now fate|now|i]; cbn [turn pa_held pa_prog] in Ht.
  - destruct held as [[]|]; [done|]. destruct (request_of q) as [r|] eqn:Er; [|done].
    destruct fate.
    + destruct (served ip r now b) as [[resp|sl dl] b1] eqn:Es.
      * destruct (answer_with q (Some resp)) as [[q' os]|] eqn:Ea; [|done]. cbn in Ht. injection Ht as <- <-.
        destruct (Hans _ _ _ Ea) as (r' & Hr' & Hos & Hh). injection Hr' as <-.
        cbn. split_and!; [apply Hh; eapply Hserve, Es; by apply Hmay|right; exists ip, r, now; split; [by apply Hmay|by rewrite Es]| |by left].
        intros x Hin. left. by eapply Hdr.
      * injection Ht as <- <-. cbn. split_and!; [done|right; exists ip, r, now; split; [by apply Hmay|by rewrite Es]|by left|].
        right; right. exists ip, r, now, sl, dl. split; [by apply Hmay|done].
    + destruct (answer_with q None) as [[q' os]|] eqn:Ea; [|done]. cbn in Ht. injection Ht as <- <-.
      destruct (Hans _ _ _ Ea) as (r' & Hr' & Hos & Hh). cbn. split_and!; [by apply Hh|by left| |by left].
      intros x Hin. left. by eapply Hdr.
    + destruct (answer_with q None) as [[q' os]|] eqn:Ea; [|done]. cbn in Ht. injection Ht as <- <-.
      destruct (Hans _ _ _ Ea) as (r' & Hr' & Hos & Hh). cbn.
      split_and!; [by apply Hh|right; exists ip, r, now; split; [by apply Hmay|done]| |by left].
      intros x Hin. left. by eapply Hdr.
  - destruct held as [[sl dl]|]; [|done]. cbn [mbind option_bind] in Ht.
    destruct (rz_sessions_loop _ _ _) as [body|].
    + destruct (answer_with q _) as [[q' os]|] eqn:Ea; [|done]. cbn in Ht. injection Ht as <- <-.
      destruct (Hans _ _ _ Ea) as (r' & Hr' & Hos & Hh). cbn. split_and!; [by apply Hh, Hlook|by left| |by left].
      intros x Hin. left. by eapply Hdr.
    + injection Ht as <- <-. cbn. split_and!; [done|by left|by left|right; by left].
  - assert (∃ q' os, resume q i = Some (q', os) ∧ p' = mkParty q' (l ++ os) None ∧ b' = b) as (q' & os & Er & -> & ->).
    { destruct i as [|[]| | | | | | |]; try discriminate Ht;
        (destruct (resume q _) as [[q' os]|] eqn:Er; [|done]); cbn in Ht; injection Ht as <- <-; by exists q', os. }
    assert (Forall (allowed lets lots l) os ∧ ∀ x, Drew x ∈ l ++ os → Drew x ∈ l ∨ i = Drawn x) as [Hal Hdw].
    { destruct q; destruct i as [|[]| | | | | | |]; cbn in Er; try discriminate Er; try discriminate Ht;
        try (destruct (_ && _)%Z in Er; [|discriminate Er]); injection Er as <- <-;
        (split; [repeat constructor; cbn; auto|intros x [?|Hin]%elem_of_app; [by left|]];
         set_unfold in Hin; destruct_or?; by simplify_eq; auto). }
    cbn. split_and!; [by eapply Hfeed|by left| |by left].
    intros x Hin. destruct (Hdw x Hin) as [?| ->]; auto.
Qed.

(** *** Every move keeps the board and the two parties in order *)

(** A session has a name, and others stay off the slot. *)
Definition fine (mv : Move Ip) : Prop :=
  match mv with
  | HostMove (Inner (Drawn b)) => drawn b
  | RecvMove (Inner (Drawn b)) => b ≠ []
  | OtherMove op => harmless op
  | _ => True
  end.

Notation host_holds := (holds (host_may h payload) (fun _ _ _ => True) (fun _ b => drawn b) (fun _ _ => True)).
Definition in_order (w : World (Ip:=Ip)) : Prop :=
  board_ok w.(wo_board).2 ∧
  host_holds w.(wo_host).(pa_prog) w.(wo_host).(pa_log) (fun _ _ => True) ∧
  (∀ x, Drew x ∈ w.(wo_host).(pa_log) → drawn x) ∧
  recv_holds w.(wo_recv).(pa_prog) w.(wo_recv).(pa_log) recv_ends ∧
  w.(wo_recv).(pa_held) = None.

Lemma move_in_order mv w w' : in_order w → fine mv → move lim caps features mv w = Some w' → in_order w'.
Proof.
  intros (Hb & Hh & Hd & Hr & Hheld) Hf Hm. destruct w as [hp rp b]. cbn [wo_host wo_recv wo_board] in *.
  destruct mv as [t|t|op]; cbn [move wo_host wo_recv wo_board] in Hm.
  - destruct (turn lim caps features t hp b) as [[hp' b']|] eqn:Et; [|done]. cbn in Hm. injection Hm as <-.
    destruct (turn_holds _ _ _ _ t hp hp' b b' Hh Et) as (Hh' & Hb' & Hd' & _); [by intros x ->|done..|].
    split_and!; cbn; [|done| |done..].
    + destruct Hb' as [->|(ip & r & now & Hmay & ->)]; [done|]. apply serve_board; [done|].
      intros op. by apply host_op_fine with (l := pa_log hp).
    + intros x Hx. destruct (Hd' x Hx) as [?| ->]; [by apply Hd|done].
  - destruct (turn lim caps features t rp b) as [[rp' b']|] eqn:Et; [|done]. cbn in Hm. injection Hm as <-.
    destruct (turn_holds _ _ _ _ t rp rp' b b' Hr Et) as (Hr' & Hb' & _ & Hheld');
      [by intros x ->|done|by intros; eapply serve_lets|by intros []|].
    split_and!; cbn; [|done..|].
    + destruct Hb' as [->|(ip & r & now & Hmay & ->)]; [done|]. apply serve_board; [done|].
      intros op. by apply recv_op_fine with (l := pa_log rp).
    + destruct Hheld' as [?|[->|(ip & r & now & sl & dl & Hmay & Hs)]]; [done..|]. by apply serve_replies in Hs.
  - injection Hm as <-. split_and!; cbn; [|done..]. apply board_step; [done|].
    destruct op; [|done..]. intros E. destruct (Hf E). auto.
Qed.

Lemma moves_in_order mvs w w' :
  in_order w → Forall fine mvs → moves_run lim caps features mvs w = Some w' → in_order w'.
Proof.
  unfold moves_run. intros Hw Hf. revert w Hw.
  induction Hf as [|mv mvs Hmv Hf IH]; intros w Hw Hr; cbn in Hr; [by injection Hr as <-|].
  destruct (move _ _ _ mv w) as [w1|] eqn:E; [by eapply IH, Hr; eapply move_in_order|].
  exfalso. clear -Hr. induction mvs; [done|by apply IHmvs].
Qed.

End payload.

(** C21. However the requests of a host, of a receiver and of strangers interleave on the
    board, and whichever of them or of their answers are lost: a receiver that ends with a
    payload has the one the host hands out, unless what it opened was forged.  Strangers
    hold no token of the host and do not claim its slot. *)
Theorem receiver_gets_the_payload
    `{!Aes256Gcm, !Aes256GcmLaws, !Blake3Hash, !Spake2, !Blake3Kdf, !Blake3Keyed, !Base32Lower, !Base32, !Base32LowerLaws}
    {Ip : Type} `{Countable Ip} (lim : Limits) (caps : RzCaps) (features : Response)
    h payload opts st relay secret timeout reply extras L m (mvs : list (Move Ip)) w p replied :
  let drawn b := HostMove (Inner (Drawn b)) ∈ mvs in
  board_ok h payload drawn m →
  (∀ b, RecvMove (Inner (Drawn b)) ∈ mvs → b ≠ []) → (∀ op, OtherMove op ∈ mvs → harmless h op) →
  moves_run lim caps features mvs (mkWorld (party (host_run h payload opts st))
    (party (resolve_v2 relay h.(ch_slot) secret timeout reply extras)) (L, m)) = Some w →
  w.(wo_recv).(pa_prog) = Ret (Ok (p, replied)) → p = payload ∨ forged payload drawn p.
Proof.
  intros drawn Hm Hd Ho Hr Hp.
  assert (in_order h payload drawn w) as (_ & _ & _ & Hrecv & _).
  { eapply moves_in_order, Hr.
    - split; [done|]. split; [apply holds_host_run|]. split; [by intros x Hx%elem_of_nil|].
      split; [apply holds_resolve_v2|done].
    - apply Forall_forall. intros [[]|[]|op] Hin; try done; [by destruct i|destruct i; try done; by apply Hd|by apply Ho]. }
  rewrite Hp in Hrecv. by apply (Hrecv p replied).
Qed.
