(* ===== verification/Inbox.v ===== *)
(** * Reading an inbox: the session handshake ([relay/src/http.rs], [core/src/presence.rs])

    A slot is the base32 of a key.  The relay hands out a challenge that it alone can
    authenticate, the owner signs it with the secret of that key, and the result is
    the bearer token of later reads.  The relay keeps no session: everything is
    checked again from the token.  Serialisation, the keyed hash and the signature
    scheme are parameters. *)
From Stdlib Require Import Ascii.
From S2P Require Import Prelude.
From S2P Require Import Text.
From S2P Require Import Limits.
From S2P Require Import Store.
From S2P Require Import Mailbox.
From S2P Require Import UploadHttp.
From S2P Require Import Rendezvous.
From S2P Require Import RendezvousFacts.
Local Open Scope Z_scope.

Definition INBOX_SESSION_TTL : Z := 3600.
Definition INBOX_NONCE_LEN : nat := 16.
Definition KEY_LEN : nat := 32.
Definition SIG_LEN : nat := 64.
Definition SESSION_SIG_CONTEXT : bytes := bytes_of "arvolo/inbox/session/v2".
Definition UNAUTHORIZED : Z := 401.

Record SessionChallenge := mkSessionChallenge { sc_nonce : bytes; sc_exp : Z; sc_mac : bytes }.
Record SessionToken := mkSessionToken {
  st_nonce : bytes; st_exp : Z; st_mac : bytes; st_sig : bytes }.

(** [data_encoding::BASE32_NOPAD]: encoding in lower case, decoding of the text in
    upper case, as the code always uses them; [postcard] on the two messages;
    [blake3::keyed_hash]; [VerifyingKey::from_bytes] and [verify_strict]. *)
Class SessionCodec : Type := {
  base32_encode_lower : bytes → string;
  base32_decode_upper : string → option bytes;
  challenge_to_vec : SessionChallenge → bytes;
  challenge_from_bytes : bytes → option SessionChallenge;
  token_to_vec : SessionToken → bytes;
  token_from_bytes : bytes → option SessionToken;
  keyed_hash : bytes → bytes → bytes;
  verify_strict : bytes → bytes → bytes → bool }.

(** What is encoded reads back, and an encoding carries no surrounding space. *)
Class SessionCodecLaws `{!SessionCodec} : Prop := {
  base32_round : ∀ b, base32_decode_upper (base32_encode_lower b) = Some b;
  base32_trim : ∀ b, str_trim (base32_encode_lower b) = base32_encode_lower b;
  challenge_round : ∀ c, challenge_from_bytes (challenge_to_vec c) = Some c;
  token_round : ∀ t, token_from_bytes (token_to_vec t) = Some t }.

(** The keyed hash, as the relay relies on it: no two messages share a tag. *)
Class KeyedHashLaws `{!SessionCodec} : Prop := {
  keyed_hash_inj : ∀ k x y, keyed_hash k x = keyed_hash k y → x = y }.

Section auth.
Context `{!SessionCodec}.

(** [presence::slot_key]. *)
Definition slot_key (slot : string) : option bytes :=
  match base32_decode_upper (str_trim slot) with
  | Some k => if (length k =? KEY_LEN)%nat then Some k else None
  | None => None
  end.

(** [presence::session_signing_input]. *)
Definition session_signing_input (slot : string) (nonce : bytes) (exp : Z) : bytes :=
  SESSION_SIG_CONTEXT ++ bytes_of slot ++ nonce ++ u64_to_le exp.

(** [presence::decode_session_token]. *)
Definition decode_session_token (bearer : string) : option SessionToken :=
  base32_decode_upper (str_trim bearer) ≫= token_from_bytes.

(** [crypto::blinded::verify]. *)
Definition blinded_verify (key msg sig : bytes) : bool :=
  if negb (length key =? KEY_LEN)%nat then false
  else if negb (length sig =? SIG_LEN)%nat then false
  else verify_strict key msg sig.

(** [inbox_mac]. *)
Definition inbox_mac (secret : bytes) (slot : string) (nonce : bytes) (exp : Z) : bytes :=
  keyed_hash secret (bytes_of slot ++ nonce ++ u64_to_le exp).

(** [inbox_authorized]: [auth] is the [Authorization] header, when it reads as text. *)
Definition inbox_authorized (auth : option string) (slot : string) (secret : bytes) (now : Z) : bool :=
  match auth with
  | None => false
  | Some auth =>
      match (match after "Bearer " auth with Some t => Some t | None => after "bearer " auth end) with
      | None => false
      | Some token =>
          match decode_session_token (str_trim token) with
          | None => false
          | Some t =>
              if t.(st_exp) <=? now then false
              else
                let expected := inbox_mac secret slot t.(st_nonce) t.(st_exp) in
                if negb (length t.(st_mac) =? length expected)%nat
                   || negb (constant_time_eq t.(st_mac) expected) then false
                else
                  match slot_key slot with
                  | None => false
                  | Some key =>
                      blinded_verify key (session_signing_input slot t.(st_nonce) t.(st_exp)) t.(st_sig)
                  end
          end
      end
  end.

(** [inbox_session_handler], after [write_rate_limit] admitted the request; [nonce]
    is the random draw. *)
Definition inbox_session_handler (secret : bytes) (slot : string) (nonce : bytes) (now : Z)
    : result bytes Refusal :=
  match slot_key slot with
  | None => Err (BAD_REQUEST, "not an inbox slot"%string)
  | Some _ =>
      let exp := sat_add now INBOX_SESSION_TTL in
      Ok (challenge_to_vec (mkSessionChallenge nonce exp (inbox_mac secret slot nonce exp)))
  end.

(** The reader's half ([InboxSubscription::ensure_session]): sign what the relay
    sent, and present it; [sign] is the slot's blinded secret at work. *)
Definition session_bearer (sign : bytes → bytes) (slot : string) (challenge : bytes) : option string :=
  match challenge_from_bytes challenge with
  | None => None
  | Some c =>
      let sig := sign (session_signing_input slot c.(sc_nonce) c.(sc_exp)) in
      Some (base32_encode_lower
              (token_to_vec (mkSessionToken c.(sc_nonce) c.(sc_exp) c.(sc_mac) sig)))
  end.

Lemma authorized_token auth slot secret now :
  inbox_authorized auth slot secret now = true ↔
  ∃ header bearer t key, auth = Some header ∧
    (header = ("Bearer " +:+ bearer)%string ∨ header = ("bearer " +:+ bearer)%string) ∧
    decode_session_token (str_trim bearer) = Some t ∧ now < t.(st_exp) ∧
    t.(st_mac) = inbox_mac secret slot t.(st_nonce) t.(st_exp) ∧ slot_key slot = Some key ∧
    blinded_verify key (session_signing_input slot t.(st_nonce) t.(st_exp)) t.(st_sig) = true.
Proof.
  unfold inbox_authorized. split.
  - intros Ha. destruct auth as [header|]; [|done].
    destruct (match after "Bearer " header with Some t => Some t | None => after "bearer " header end)
      as [bearer|] eqn:Eb; [|done].
    destruct (decode_session_token (str_trim bearer)) as [t|] eqn:Et; [|done].
    case_in Ha; [done|]. cbn zeta in Ha. case_in Ha; [done|].
    destruct (slot_key slot) as [key|] eqn:Ek; [|done]. zbool.
    exists header, bearer, t, key. split_and!; try done.
    + destruct (after "Bearer " header) as [x|] eqn:E1; simplify_eq; [left|right]; by apply after_Some.
    + by apply constant_time_eq_spec.
  - intros (header & bearer & t & key & -> & Hh & Ht & Hnow & Hm & Hk & Hv).
    assert ((match after "Bearer " header with Some t => Some t | None => after "bearer " header end)
      = Some bearer) as ->.
    { destruct Hh as [->| ->].
      - by rewrite (proj2 (after_Some _ _ bearer) eq_refl).
      - rewrite (proj2 (after_Some "bearer " _ bearer) eq_refl).
        destruct (after "Bearer " _) eqn:E; [|done]. by apply after_Some in E. }
    rewrite Ht, Hm, Nat.eqb_refl, (proj2 (constant_time_eq_spec _ _) eq_refl), Hk.
    by rewrite (proj2 (Z.leb_gt _ _)) by lia.
Qed.

(** The handshake works and ends when it says: a challenge the relay issued at
    [t0], signed by whoever holds the key the slot spells, opens that slot for
    exactly the next hour. *)
Theorem inbox_session_opens `{!SessionCodecLaws} secret slot key nonce sign t0 challenge bearer now
    (Hkey : slot_key slot = Some key) (Ht0 : t0 + INBOX_SESSION_TTL <= U64_MAX)
    (Hsign : ∀ msg, verify_strict key msg (sign msg) = true ∧ length (sign msg) = SIG_LEN)
    (Hissue : inbox_session_handler secret slot nonce t0 = Ok challenge)
    (Hbearer : session_bearer sign slot challenge = Some bearer) :
  inbox_authorized (Some ("Bearer " +:+ bearer)%string) slot secret now
    = (now <? t0 + INBOX_SESSION_TTL).
Proof.
  unfold inbox_session_handler in Hissue. rewrite Hkey in Hissue.
  assert (challenge = challenge_to_vec (mkSessionChallenge nonce (sat_add t0 INBOX_SESSION_TTL)
    (inbox_mac secret slot nonce (sat_add t0 INBOX_SESSION_TTL)))) as -> by congruence. clear Hissue.
  unfold session_bearer in Hbearer. rewrite challenge_round in Hbearer. cbn [sc_nonce sc_exp sc_mac] in Hbearer.
  rewrite sat_add_small in Hbearer by done.
  set (exp := t0 + INBOX_SESSION_TTL) in *. set (msg := session_signing_input slot nonce exp) in *.
  set (tok := mkSessionToken nonce exp (inbox_mac secret slot nonce exp) (sign msg)) in *.
  assert (bearer = base32_encode_lower (token_to_vec tok)) as -> by congruence.
  assert (decode_session_token (str_trim (base32_encode_lower (token_to_vec tok))) = Some tok) as Hdec.
  { unfold decode_session_token. rewrite !base32_trim, base32_round. apply token_round. }
  apply eq_true_iff_eq. rewrite authorized_token, Z.ltb_lt. split.
  - intros (h & b & t & k & [= <-] & Hh & Ht & Hnow & _).
    assert (b = base32_encode_lower (token_to_vec tok)) as -> by (destruct Hh as [Hh|Hh]; [by injection Hh|done]).
    rewrite Hdec in Ht. by injection Ht as <-.
  - intros Hnow. exists ("Bearer " +:+ base32_encode_lower (token_to_vec tok))%string,
      (base32_encode_lower (token_to_vec tok)), tok, key.
    destruct (Hsign msg) as [Hv Hl]. split_and!; try done; [by left|].
    change (blinded_verify key msg (sign msg) = true). unfold blinded_verify. rewrite Hl, Hv.
    unfold slot_key in Hkey. destruct (base32_decode_upper (str_trim slot)) as [k|]; [|done].
    case_in Hkey; [|done]. injection Hkey as <-. by rewrite Heqb.
Qed.

Lemma length_bytes_of s : length (bytes_of s) = String.length s.
Proof. unfold bytes_of. induction s as [|c s IH]; [done|]. cbn. by f_equal. Qed.

Lemma le_bytes_app_inj (a b : bytes) n x y :
  a ++ le_bytes n x = b ++ le_bytes n y → a = b ∧ le_bytes n x = le_bytes n y.
Proof. intros Heq. apply app_inj_2 in Heq; [done|]. by rewrite !length_le_bytes. Qed.

(** A session opens the slot it was issued for and no other: a token the relay
    accepts for one slot, carrying a tag it issued for a slot of the same length,
    was issued for that very slot, nonce and expiry, has not expired, and carries a
    signature by the slot's own key over exactly these. *)
Theorem inbox_session_scoped `{!KeyedHashLaws} secret auth slot now slot' nonce' exp' t bearer
    (Hok : inbox_authorized auth slot secret now = true)
    (Hauth : auth = Some ("Bearer " +:+ bearer)%string)
    (Htoken : decode_session_token (str_trim bearer) = Some t)
    (Hissued : t.(st_mac) = inbox_mac secret slot' nonce' exp')
    (Hexp : is_u64 t.(st_exp)) (Hexp' : is_u64 exp')
    (Hcanon : String.length slot = String.length slot') :
  slot = slot' ∧ t.(st_nonce) = nonce' ∧ t.(st_exp) = exp' ∧ now < exp' ∧
  ∃ key, slot_key slot = Some key ∧
    verify_strict key (session_signing_input slot nonce' exp') t.(st_sig) = true.
Proof.
  apply authorized_token in Hok as (h & b & t1 & key & Ha & Hh & Ht & Hnow & Hm & Hk & Hv).
  rewrite Hauth in Ha. injection Ha as <-.
  assert (b = bearer) as -> by (destruct Hh as [Hh|Hh]; [by injection Hh|done]).
  rewrite Htoken in Ht. injection Ht as <-. rewrite Hissued in Hm. unfold inbox_mac in Hm.
  apply keyed_hash_inj in Hm. rewrite !app_assoc in Hm. apply le_bytes_app_inj in Hm as [Hm He].
  assert (length (bytes_of slot) = length (bytes_of slot')) as Hl.
  { by rewrite !length_bytes_of, Hcanon. }
  apply app_inj_1 in Hm as [Hs Hn]; [|done]. apply bytes_of_inj in Hs.
  apply le_bytes_inj in He; [|unfold is_u64, U64_MAX in *; change (256 ^ N.of_nat 8)%N with (2 ^ 64)%N; lia..].
  assert (st_exp t = exp') as Hx by (unfold is_u64 in *; lia).
  subst. split_and!; try done. exists key. split; [done|].
  unfold blinded_verify in Hv. repeat case_in Hv; done.
Qed.

(** Slots of different lengths can share a signing input: a slot spelled with a
    trailing space is the same key, and the space may belong to the nonce. *)
Lemma session_input_ambiguous slot nonce exp :
  session_signing_input (slot +:+ " ") nonce exp = session_signing_input slot (Byte.x20 :: nonce) exp.
Proof. unfold session_signing_input. by rewrite bytes_of_app, <- !app_assoc. Qed.
End auth.

(** * The inbox and the presence beacons ([relay/src/mailbox.rs], [relay/src/http.rs])

    Sealed offers queued in a recipient's slot, and what the poster can learn of
    them.  First the operations of [Mailbox] on the two tables, then the handlers.
    A long-poll is a sequence of looks: each look is one definition, at its moment
    and on the store as it is then. *)
Local Open Scope Z_scope.

(** ** The tables *)

(** [Mailbox::inbox_put]: [INSERT OR REPLACE], with neither stamp. *)
Definition inbox_put (slot id : string) (value : bytes) (expires_at : Z) (poster_hash : bytes)
    (m : Mailbox) : Mailbox :=
  let poster_hash := match poster_hash with [] => None | h => Some h end in
  with_inbox (<[(slot, id) := mkInboxRow value (as_i64 expires_at) poster_hash None None]> m.(mb_inbox)) m.

(** Whether the presented token is the one whose hash a row records. *)
Definition poster_token_ok `{!Blake3Hash} (stored : bytes) (token : string) : bool :=
  let presented := blake3_hash (as_bytes token) in
  negb (negb (length stored =? length presented)%nat || negb (constant_time_eq stored presented)).

(** [Mailbox::inbox_delete_by_poster]. *)
Definition inbox_delete_by_poster `{!Blake3Hash} (slot id token : string) (m : Mailbox)
    : bool * Mailbox :=
  match m.(mb_inbox) !! (slot, id) ≫= ib_poster_hash with
  | None => (false, m)
  | Some stored =>
      if negb (poster_token_ok stored token) then (false, m)
      else (true, with_inbox (delete (slot, id) m.(mb_inbox)) m)
  end.

(** [Mailbox::inbox_mark_arrived]. *)
Definition arrive (now : Z) (r : InboxRow) : InboxRow :=
  match r.(ib_fetched_at) with
  | Some _ => r
  | None => mkInboxRow r.(ib_value) r.(ib_expires_at) r.(ib_poster_hash) (Some (as_i64 now)) r.(ib_taken_at)
  end.
Definition inbox_mark_arrived (slot : string) (ids : list string) (now : Z) (m : Mailbox) : Mailbox :=
  foldl (fun m id => with_inbox (alter (arrive now) (slot, id) m.(mb_inbox)) m) m ids.

(** [Mailbox::inbox_status_by_poster]. *)
Definition inbox_status_by_poster `{!Blake3Hash} (slot id token : string) (m : Mailbox) : InboxStatus :=
  match m.(mb_inbox) !! (slot, id) with
  | None => Gone
  | Some r =>
      match r.(ib_poster_hash) with
      | None => BadToken
      | Some stored =>
          if negb (poster_token_ok stored token) then BadToken
          else if bool_decide (is_Some r.(ib_taken_at)) then Taken
          else if bool_decide (is_Some r.(ib_fetched_at)) then Arrived
          else Pending
      end
  end.

(** Unexpired and not a tombstone. *)
Definition listed (now : Z) (r : InboxRow) : bool :=
  (as_i64 now <? r.(ib_expires_at)) && negb (bool_decide (is_Some r.(ib_taken_at))).

(** [Mailbox::inbox_list], soonest to expire first; rows of one expiry in any order. *)
Definition expires_le (p q : string * InboxRow) : Prop := p.2.(ib_expires_at) <= q.2.(ib_expires_at).
#[export] Instance expires_le_dec p q : Decision (expires_le p q) := Z.le_dec _ _.
Definition inbox_list (slot : string) (now : Z) (m : Mailbox) : list (string * bytes) :=
  (fun p => (p.1, p.2.(ib_value))) <$> merge_sort expires_le
    ((fun p => (p.1.2, p.2)) <$> map_to_list
       (filter (fun p => p.1.1 = slot ∧ listed now p.2 = true) m.(mb_inbox))).

(** [Mailbox::inbox_mark_taken]. *)
Definition take_row (now : Z) (r : InboxRow) : InboxRow :=
  match r.(ib_taken_at) with
  | Some _ => r
  | None => mkInboxRow [] r.(ib_expires_at) r.(ib_poster_hash) r.(ib_fetched_at) (Some (as_i64 now))
  end.
Definition inbox_mark_taken (slot id : string) (now : Z) (m : Mailbox) : Mailbox :=
  with_inbox (alter (take_row now) (slot, id) m.(mb_inbox)) m.

(** [Mailbox::inbox_count], [Mailbox::inbox_count_slot] and [Mailbox::inbox_reap]. *)
Definition inbox_count (m : Mailbox) : Z := Z.of_nat (size m.(mb_inbox)).
Definition inbox_count_slot (slot : string) (now : Z) (m : Mailbox) : Z :=
  count_where (fun k r => bool_decide (k.1 = slot) && listed now r) m.(mb_inbox).
Definition inbox_reap (now : Z) (m : Mailbox) : Z * Mailbox :=
  (count_where (fun _ r => r.(ib_expires_at) <=? as_i64 now) m.(mb_inbox),
   with_inbox (delete_where (fun _ r => r.(ib_expires_at) <=? as_i64 now) m.(mb_inbox)) m).

(** [Mailbox::beacon_put], [beacon_alive], [beacon_count] and [beacon_reap]. *)
Definition beacon_put (slot : string) (expires_at : Z) (m : Mailbox) : Mailbox :=
  with_beacon (<[slot := as_i64 expires_at]> m.(mb_beacon)) m.
Definition beacon_alive (slot : string) (now : Z) (m : Mailbox) : bool :=
  match m.(mb_beacon) !! slot with Some e => as_i64 now <? e | None => false end.
Definition beacon_count (m : Mailbox) : Z := Z.of_nat (size m.(mb_beacon)).
Definition beacon_reap (now : Z) (m : Mailbox) : Z * Mailbox :=
  (count_where (fun _ e => e <=? as_i64 now) m.(mb_beacon),
   with_beacon (delete_where (fun _ e => e <=? as_i64 now) m.(mb_beacon)) m).

(** ** The handlers *)

Definition MAX_INBOX_VALUE_BYTES : Z := 512 * 1024.
Definition MAX_INBOX_PER_SLOT : Z := 64.
Definition INBOX_TTL_SECS : Z := 600.
Definition INBOX_MAX_TTL_SECS : Z := 30 * 24 * 3600.
Definition PRESENCE_TTL_SECS : Z := 30.
Definition INBOX_MAX_WAIT_SECS : Z := 30.
Definition MAX_HAVE_IDS : nat := 128.

(** [inbox_have]: the ids of the [have] header. *)
Fixpoint split_comma (s : string) : list string :=
  match s with
  | "" => [""]
  | String c s =>
      if bool_decide (c = ","%char) then "" :: split_comma s
      else match split_comma s with
           | [] => [String c ""]
           | w :: ws => String c w :: ws
           end
  end%string.
Definition inbox_have (header : option string) : gset string :=
  match header with
  | None => ∅
  | Some s => list_to_set (take MAX_HAVE_IDS (filter (fun id => id ≠ "") (str_trim <$> split_comma s)))
  end%string.

(** What one look of a held read does: wait on, give up, or answer with the slot. *)
Inductive Look := Hold | TimedOut | Rows (rows : list (string * bytes)).

(** What one look of a held status question does. *)
Inductive StatusLook := Refused | Word (word : string) | HoldStatus.

Section handlers.
Context `{!Blake3Hash, !SessionCodec} (lim : Limits) (secret : bytes).

(** [inbox_post_handler], after [write_rate_limit] admitted the request; [id] is the
    fresh token. *)
Definition inbox_post_handler (slot : string) (ttl : option Z) (poster_header : option string)
    (id : Token) (body : bytes) (now : Z) (m : Mailbox) : result string Refusal * Mailbox :=
  if MAX_INBOX_VALUE_BYTES <? Z.of_nat (length body)
  then (Err (PAYLOAD_TOO_LARGE, "offer too large"%string), m)
  else if lim.(max_inbox_rows) <=? inbox_count m
  then (Err (INSUFFICIENT_STORAGE, "relay at capacity"%string), m)
  else if MAX_INBOX_PER_SLOT <=? inbox_count_slot slot now m
  then (Err (INSUFFICIENT_STORAGE, "inbox full"%string), m)
  else
    let poster_hash := default [] (poster_header ≫= fun s => base32_decode_upper (str_trim s)) in
    let ttl := Z.min (default INBOX_TTL_SECS ttl) INBOX_MAX_TTL_SECS in
    let exp := sat_add now ttl in
    (Ok id, inbox_put slot id body exp poster_hash m).

(** [presence_post_handler] and [presence_get_handler]. *)
Definition presence_post_handler (slot : string) (now : Z) (m : Mailbox) : result Z Refusal * Mailbox :=
  if (lim.(max_presence_rows) <=? beacon_count m) && negb (beacon_alive slot now m)
  then (Err (INSUFFICIENT_STORAGE, "relay at capacity"%string), m)
  else (Ok NO_CONTENT, beacon_put slot (sat_add now PRESENCE_TTL_SECS) m).
Definition presence_get_handler (slot : string) (now : Z) (m : Mailbox) : Z :=
  if beacon_alive slot now m then OK else NOT_FOUND.

(** The head of [inbox_get_handler]: the deadline of the hold, and the ids whose
    presence alone does not end it. *)
Definition inbox_get_open (auth : option string) (slot : string) (wait : Z)
    (header : option string) (now : Z) : result (Z * gset string) Refusal :=
  if negb (inbox_authorized auth slot secret now)
  then Err (UNAUTHORIZED, "inbox read requires a session"%string)
  else
    let wait := Z.min wait INBOX_MAX_WAIT_SECS in
    Ok (sat_add now wait, if wait =? 0 then ∅ else inbox_have header).

(** One turn of its loop. *)
Definition inbox_get_look (slot : string) (deadline : Z) (have : gset string) (now : Z)
    (m : Mailbox) : Look * Mailbox :=
  let rows := inbox_list slot now m in
  if existsb (fun p => negb (bool_decide (p.1 ∈ have))) rows
  then (Rows rows, inbox_mark_arrived slot rows.*1 now m)
  else if deadline <=? now then (TimedOut, m)
  else (Hold, m).

(** [inbox_get_handler], opened at [now], taking one of its looks at [at_]. *)
Definition inbox_get_handler (auth : option string) (slot : string) (wait : Z)
    (header : option string) (now at_ : Z) (m : Mailbox) : result Look Refusal * Mailbox :=
  match inbox_get_open auth slot wait header now with
  | Err e => (Err e, m)
  | Ok (deadline, have) =>
      let '(look, m) := inbox_get_look slot deadline have at_ m in (Ok look, m)
  end.

(** [inbox_delete_handler]. *)
Definition inbox_delete_handler (auth token : option string) (slot id : string) (now : Z)
    (m : Mailbox) : Z * Mailbox :=
  let '(retracted, m) :=
    match token with
    | Some token => inbox_delete_by_poster slot id (str_trim token) m
    | None => (false, m)
    end in
  if retracted then (NO_CONTENT, m)
  else if negb (inbox_authorized auth slot secret now) then (UNAUTHORIZED, m)
  else (NO_CONTENT, inbox_mark_taken slot id now m).

(** One turn of the loop of [inbox_status_handler]; [token] and [since] are trimmed
    by its head, which also fixes the deadline. *)
Definition inbox_status_open (wait now : Z) : Z := sat_add now (Z.min wait INBOX_MAX_WAIT_SECS).
Definition inbox_status_look (token : option string) (slot id since : string) (deadline now : Z)
    (m : Mailbox) : StatusLook :=
  match token with
  | None => Refused
  | Some token =>
      let since := str_trim since in
      let answer word :=
        let unchanged := if bool_decide (since = ""%string) then negb (bool_decide (word = "taken"%string))
                         else bool_decide (word = since) in
        if negb unchanged || (deadline <=? now) then Word word else HoldStatus in
      match inbox_status_by_poster slot id (str_trim token) m with
      | BadToken => Refused
      | Gone => Word "gone"
      | Pending => answer "pending"%string
      | Arrived => answer "fetched"%string
      | Taken => answer "taken"%string
      end
  end.
End handlers.
