(* ===== verification/InboxFacts.v ===== *)
(** * What the inbox guarantees

    Posts, looks of held reads, deletions and reaps as the steps of a run: who can
    change a row and how, what the poster can read off it, and that an offer posted
    is an offer delivered. *)
From S2P Require Import Prelude.
From S2P Require Import Text.
From S2P Require Import Limits.
From S2P Require Import Store.
From S2P Require Import Mailbox.
From S2P Require Import UploadHttp.
From S2P Require Import MailboxFacts.
From S2P Require Import Rendezvous.
From S2P Require Import RendezvousFacts.
From S2P Require Import Inbox.
Local Open Scope Z_scope.

(** ** The table *)

Lemma poster_token_ok_spec `{!Blake3Hash} stored token :
  poster_token_ok stored token = true ↔ stored = blake3_hash (as_bytes token).
Proof.
  unfold poster_token_ok. rewrite negb_true_iff, orb_false_iff, !negb_false_iff, constant_time_eq_spec.
  split; [by intros [_ ?]|]. intros ->. by rewrite Nat.eqb_refl.
Qed.

Lemma lookup_mark_arrived slot ids now m k :
  (inbox_mark_arrived slot ids now m).(mb_inbox) !! k =
    if bool_decide (k.1 = slot ∧ k.2 ∈ ids) then arrive now <$> m.(mb_inbox) !! k
    else m.(mb_inbox) !! k.
Proof.
  revert m. induction ids as [|id ids IH]; intros m.
  - rewrite bool_decide_false by set_solver. done.
  - change (inbox_mark_arrived slot (id :: ids) now m) with
      (inbox_mark_arrived slot ids now (with_inbox (alter (arrive now) (slot, id) m.(mb_inbox)) m)).
    rewrite IH. cbn [mb_inbox with_inbox]. rewrite lookup_alter_dec. destruct k as [s i]. cbn [fst snd].
    assert (∀ r, arrive now (arrive now r) = arrive now r) as Hidem.
    { intros r. unfold arrive at 2 3. destruct (ib_fetched_at r) eqn:E; [unfold arrive; by rewrite E|done]. }
    destruct (decide ((s, i) = (slot, id))) as [[= -> ->]|Hne].
    + rewrite (bool_decide_true (slot = slot ∧ id ∈ id :: ids)) by set_solver.
      clear IH. case_bool_decide; [|done]. destruct (mb_inbox m !! (slot, id)); [|done]. cbn. by rewrite Hidem.
    + rewrite (bool_decide_ext (s = slot ∧ i ∈ ids) (s = slot ∧ i ∈ id :: ids)); [done|].
      rewrite elem_of_cons. naive_solver.
Qed.

Lemma elem_of_inbox_list slot now m id v :
  (id, v) ∈ inbox_list slot now m ↔
  ∃ r, m.(mb_inbox) !! (slot, id) = Some r ∧ listed now r = true ∧ r.(ib_value) = v.
Proof.
  unfold inbox_list. rewrite list_elem_of_fmap. setoid_rewrite merge_sort_Permutation.
  setoid_rewrite list_elem_of_fmap. split.
  - intros ([i r] & [= -> ->] & ([[s j] r'] & [= -> ->] & Hin)).
    apply elem_of_map_to_list, map_lookup_filter_Some in Hin as (Hl & Hs & Hli). cbn in *. subst.
    by exists r'.
  - intros (r & Hl & Hli & <-). exists (id, r). split; [done|]. exists (slot, id, r). split; [done|].
    by apply elem_of_map_to_list, map_lookup_filter_Some.
Qed.

Lemma elem_of_list_ids slot now m id :
  id ∈ (inbox_list slot now m).*1 ↔ ∃ r, m.(mb_inbox) !! (slot, id) = Some r ∧ listed now r = true.
Proof.
  rewrite list_elem_of_fmap. split.
  - intros ([i v] & -> & Hin). apply elem_of_inbox_list in Hin as (r & ? & ? & _). by exists r.
  - intros (r & Hl & Hli). exists (id, r.(ib_value)). split; [done|]. apply elem_of_inbox_list. by exists r.
Qed.

(** ** Steps *)

Inductive InboxOp :=
  | IPost (slot : string) (ttl : option Z) (poster : option string) (id : Token) (body : bytes) (now : Z)
  | ILook (auth : option string) (slot : string) (wait : Z) (header : option string) (now at_ : Z)
  | IDelete (auth token : option string) (slot id : string) (now : Z)
  | IReap (now : Z).

Section facts.
Context `{!Blake3Hash, !SessionCodec} (lim : Limits) (secret : bytes).

Definition inbox_step (op : InboxOp) (m : Mailbox) : Mailbox :=
  match op with
  | IPost slot ttl poster id body now => (inbox_post_handler lim slot ttl poster id body now m).2
  | ILook auth slot wait header now at_ => (inbox_get_handler secret auth slot wait header now at_ m).2
  | IDelete auth token slot id now => (inbox_delete_handler secret auth token slot id now m).2
  | IReap now => (inbox_reap now m).2
  end.
Definition inbox_run (ops : list InboxOp) (m : Mailbox) : Mailbox :=
  foldl (fun m op => inbox_step op m) m ops.

(** The request carries the poster's token for the row. *)
Definition poster_of (token : option string) (r : InboxRow) : Prop :=
  ∃ t, token = Some t ∧ r.(ib_poster_hash) = Some (blake3_hash (as_bytes (str_trim t))).

(** What can happen to the row [k] in one step. *)
Inductive inbox_change (op : InboxOp) (m : Mailbox) (k : string * string)
    : option InboxRow → option InboxRow → Prop :=
  | ic_same o : inbox_change op m k o o
  | ic_put o ttl poster body now r :
      op = IPost k.1 ttl poster k.2 body now → r.(ib_value) = body →
      r.(ib_expires_at) = as_i64 (sat_add now (Z.min (default INBOX_TTL_SECS ttl) INBOX_MAX_TTL_SECS)) →
      r.(ib_fetched_at) = None → r.(ib_taken_at) = None →
      inbox_change op m k o (Some r)
  | ic_arrive r auth wait header now at_ :
      op = ILook auth k.1 wait header now at_ → inbox_authorized auth k.1 secret now = true →
      listed at_ r = true → inbox_change op m k (Some r) (Some (arrive at_ r))
  | ic_take r auth token now :
      op = IDelete auth token k.1 k.2 now → inbox_authorized auth k.1 secret now = true →
      inbox_change op m k (Some r) (Some (take_row now r))
  | ic_retract r auth token now :
      op = IDelete auth token k.1 k.2 now → poster_of token r → inbox_change op m k (Some r) None
  | ic_expire r now :
      op = IReap now → r.(ib_expires_at) <= as_i64 now → inbox_change op m k (Some r) None.

Lemma delete_by_poster_cases slot id token m :
  (∃ r, m.(mb_inbox) !! (slot, id) = Some r ∧
     r.(ib_poster_hash) = Some (blake3_hash (as_bytes token)) ∧
     inbox_delete_by_poster slot id token m = (true, with_inbox (delete (slot, id) m.(mb_inbox)) m)) ∨
  inbox_delete_by_poster slot id token m = (false, m).
Proof.
  unfold inbox_delete_by_poster. destruct (mb_inbox m !! (slot, id)) as [r|] eqn:Er; [|by right].
  cbn. destruct (ib_poster_hash r) as [stored|] eqn:Es; [|by right].
  destruct (poster_token_ok stored token) eqn:Et; [|by right]. left. exists r.
  apply poster_token_ok_spec in Et as <-. done.
Qed.

Lemma inbox_get_look_cases slot deadline have now m :
  inbox_get_look slot deadline have now m =
    (Rows (inbox_list slot now m), inbox_mark_arrived slot (inbox_list slot now m).*1 now m) ∨
  (inbox_get_look slot deadline have now m).2 = m.
Proof. unfold inbox_get_look. case_bool; [by left|]. right. by case_bool. Qed.

Lemma inbox_step_change op m k :
  inbox_change op m k (m.(mb_inbox) !! k) ((inbox_step op m).(mb_inbox) !! k).
Proof.
  destruct op as [slot ttl poster id body now|auth slot wait header now at_|auth token slot id now|now];
    cbn [inbox_step].
  - unfold inbox_post_handler. do 3 (case_bool; [apply ic_same|]). cbn [snd inbox_put mb_inbox with_inbox].
    rewrite lookup_insert_dec. destruct (decide (k = (slot, id))) as [->|]; [|apply ic_same].
    by eapply ic_put.
  - unfold inbox_get_handler, inbox_get_open.
    destruct (inbox_authorized auth slot secret now) eqn:Ea; [|apply ic_same]. cbn [negb].
    destruct (inbox_get_look_cases slot (sat_add now (Z.min wait INBOX_MAX_WAIT_SECS))
      (if Z.min wait INBOX_MAX_WAIT_SECS =? 0 then ∅ else inbox_have header) at_ m) as [Hc|Hc].
    + rewrite Hc. cbn [snd]. rewrite lookup_mark_arrived. case_bool_decide as Hk; [|apply ic_same].
      destruct k as [s i]. cbn [fst snd] in Hk. destruct Hk as [-> (r & Hr & Hl)%elem_of_list_ids].
      rewrite Hr. cbn. by eapply (ic_arrive _ _ (slot, i)).
    + destruct (inbox_get_look _ _ _ _ _) as [look m']. cbn [snd] in *. subst m'. apply ic_same.
  - unfold inbox_delete_handler.
    assert (inbox_change (IDelete auth token slot id now) m k (m.(mb_inbox) !! k)
      ((if negb (inbox_authorized auth slot secret now) then (UNAUTHORIZED, m)
        else (NO_CONTENT, inbox_mark_taken slot id now m)).2.(mb_inbox) !! k)) as Htake.
    { destruct (inbox_authorized auth slot secret now) eqn:Ea; [|apply ic_same].
      cbn [negb snd inbox_mark_taken mb_inbox with_inbox]. rewrite lookup_alter_dec.
      destruct (decide (k = (slot, id))) as [->|]; [|apply ic_same].
      destruct (mb_inbox m !! (slot, id)) as [r|]; [|apply ic_same]. cbn. by eapply ic_take. }
    destruct token as [token|]; [|exact Htake].
    destruct (delete_by_poster_cases slot id (str_trim token) m) as [(r & Hr & Hp & ->)| ->]; [|exact Htake].
    cbn [snd mb_inbox with_inbox]. rewrite lookup_delete_at.
    destruct (decide (k = (slot, id))) as [->|]; [|apply ic_same]. rewrite Hr.
    eapply ic_retract; [done|]. by exists token.
  - cbn [snd inbox_reap mb_inbox with_inbox]. rewrite lookup_delete_where.
    destruct (mb_inbox m !! k) as [r|]; [|apply ic_same].
    destruct (ib_expires_at r <=? as_i64 now) eqn:E; [|apply ic_same]. zbool. by eapply ic_expire.
Qed.

(** ** The ladder *)

Definition rank (s : InboxStatus) : Z :=
  match s with Pending => 0 | Arrived => 1 | Taken => 2 | Gone => 3 | BadToken => -1 end.

Definition posts (k : string * string) (op : InboxOp) : bool :=
  match op with IPost slot _ _ id _ _ => bool_decide (k = (slot, id)) | _ => false end.

Lemma status_row slot id token m :
  inbox_status_by_poster slot id token m =
    match m.(mb_inbox) !! (slot, id) with
    | None => Gone
    | Some r =>
        if bool_decide (r.(ib_poster_hash) = Some (blake3_hash (as_bytes token))) then
          if bool_decide (is_Some r.(ib_taken_at)) then Taken
          else if bool_decide (is_Some r.(ib_fetched_at)) then Arrived else Pending
        else BadToken
    end.
Proof.
  unfold inbox_status_by_poster. destruct (mb_inbox m !! (slot, id)) as [r|]; [|done].
  destruct (ib_poster_hash r) as [stored|]; [|by rewrite (bool_decide_false (None = Some _))].
  destruct (poster_token_ok stored token) eqn:E; cbn [negb].
  - apply poster_token_ok_spec in E as ->. by rewrite (bool_decide_true (Some _ = Some _)).
  - rewrite (bool_decide_false (Some _ = Some _)); [done|]. intros [= ->].
    by rewrite (proj2 (poster_token_ok_spec _ _) eq_refl) in E.
Qed.

Lemma arrive_fields now r :
  (arrive now r).(ib_value) = r.(ib_value) ∧ (arrive now r).(ib_expires_at) = r.(ib_expires_at) ∧
  (arrive now r).(ib_poster_hash) = r.(ib_poster_hash) ∧ (arrive now r).(ib_taken_at) = r.(ib_taken_at) ∧
  is_Some (arrive now r).(ib_fetched_at).
Proof. unfold arrive. destruct (ib_fetched_at r) eqn:E; split_and!; try done; rewrite ?E; eauto. Qed.

Lemma take_row_fields now r :
  (take_row now r).(ib_expires_at) = r.(ib_expires_at) ∧
  (take_row now r).(ib_poster_hash) = r.(ib_poster_hash) ∧
  (take_row now r).(ib_fetched_at) = r.(ib_fetched_at) ∧ is_Some (take_row now r).(ib_taken_at).
Proof. unfold take_row. destruct (ib_taken_at r) eqn:E; split_and!; try done; rewrite ?E; eauto. Qed.

(** A row that survives a step keeps its poster and its deadline, and its stamps. *)
Lemma inbox_step_row op m k r :
  m.(mb_inbox) !! k = Some r → posts k op = false →
  (inbox_step op m).(mb_inbox) !! k = None ∨
  ∃ r', (inbox_step op m).(mb_inbox) !! k = Some r' ∧
    r'.(ib_poster_hash) = r.(ib_poster_hash) ∧ r'.(ib_expires_at) = r.(ib_expires_at) ∧
    (is_Some r.(ib_fetched_at) → is_Some r'.(ib_fetched_at)) ∧
    (is_Some r.(ib_taken_at) → is_Some r'.(ib_taken_at)).
Proof.
  intros Hr Hp. pose proof (inbox_step_change op m k) as Hc. rewrite Hr in Hc.
  generalize dependent ((inbox_step op m).(mb_inbox) !! k). intros o Hc.
  inversion Hc; subst; try by left.
  - right. by exists r.
  - exfalso. cbn in Hp. rewrite <- surjective_pairing, bool_decide_true in Hp by done. done.
  - right. destruct (arrive_fields at_ r) as (F1 & F2 & F3 & F4 & F5). eexists. split; [done|].
    split_and!; [done|done|done|by rewrite F4].
  - right. destruct (take_row_fields now r) as (F1 & F2 & F3 & F4). eexists. split; [done|].
    split_and!; [done|done|by rewrite F3|done].
Qed.

Lemma inbox_step_absent op m k :
  m.(mb_inbox) !! k = None → posts k op = false → (inbox_step op m).(mb_inbox) !! k = None.
Proof.
  intros Hr Hp. pose proof (inbox_step_change op m k) as Hc. rewrite Hr in Hc.
  generalize dependent ((inbox_step op m).(mb_inbox) !! k). intros o Hc.
  inversion Hc; subst; [done|]. cbn in Hp. by rewrite <- surjective_pairing, bool_decide_true in Hp.
Qed.

Lemma status_step op m slot id token :
  posts (slot, id) op = false → inbox_status_by_poster slot id token m ≠ BadToken →
  rank (inbox_status_by_poster slot id token m)
    <= rank (inbox_status_by_poster slot id token (inbox_step op m)) ∧
  inbox_status_by_poster slot id token (inbox_step op m) ≠ BadToken.
Proof.
  intros Hp. rewrite !status_row. destruct (mb_inbox m !! (slot, id)) as [r|] eqn:Er.
  2: { intros _. by rewrite (inbox_step_absent op m _ Er Hp). }
  case_bool_decide as Hh; [|done]. intros _.
  destruct (inbox_step_row op m _ r Er Hp) as [->|(r' & -> & H1 & _ & H3 & H4)].
  { split; [|done]. by repeat case_bool_decide. }
  rewrite H1. rewrite (bool_decide_true (ib_poster_hash r = _)) by done.
  split; [|by repeat case_bool_decide]. repeat case_bool_decide; cbn; try lia; naive_solver.
Qed.

Lemma status_listed slot id token m now :
  2 <= rank (inbox_status_by_poster slot id token m) → id ∉ (inbox_list slot now m).*1.
Proof.
  rewrite status_row, elem_of_list_ids. intros Hr (r & Hl & Hli). rewrite Hl in Hr.
  unfold listed in Hli. zbool. revert Hr. repeat case_bool_decide; cbn; try lia; done.
Qed.

(** The poster's reading only ever climbs: pending, fetched, taken, gone. Through
    any run that does not reuse the row's id the status the poster is told never
    steps back and its token is never turned away, and from [taken] on the offer is
    in no listing again, at any time. *)
Theorem inbox_status_ladder slot id token m ops
    (Hfresh : Forall (fun op => posts (slot, id) op = false) ops)
    (Hknown : inbox_status_by_poster slot id token m ≠ BadToken) :
  let s := inbox_status_by_poster slot id token in
  rank (s m) <= rank (s (inbox_run ops m)) ∧ s (inbox_run ops m) ≠ BadToken ∧
  ∀ now, (s m = Taken ∨ s m = Gone) → id ∉ (inbox_list slot now (inbox_run ops m)).*1.
Proof.
  cbn zeta. assert (rank (inbox_status_by_poster slot id token m)
    <= rank (inbox_status_by_poster slot id token (inbox_run ops m)) ∧
    inbox_status_by_poster slot id token (inbox_run ops m) ≠ BadToken) as [H1 H2].
  { revert m Hknown. induction Hfresh as [|op ops Hp _ IH]; intros m Hknown; [split; [cbn; lia|done]|].
    destruct (status_step op m slot id token Hp Hknown) as [H1 H2].
    destruct (IH _ H2) as [H3 H4]. cbn [inbox_run foldl] in *. split; [|done].
    etrans; [exact H1|exact H3]. }
  split_and!; [done|done|]. intros now Hs. apply (status_listed _ _ token).
  etrans; [|exact H1]. by destruct Hs as [->| ->].
Qed.

(** The same, with the row's fate spelled out. *)
Lemma inbox_row_changes op m slot id r :
  m.(mb_inbox) !! (slot, id) = Some r → posts (slot, id) op = false →
  let o := (inbox_step op m).(mb_inbox) !! (slot, id) in
  (o = None → (∃ auth token now, op = IDelete auth token slot id now ∧ poster_of token r) ∨
              (∃ now, op = IReap now ∧ r.(ib_expires_at) <= as_i64 now)) ∧
  (∀ r', o = Some r' → r' = r ∨ (∃ at_, r' = arrive at_ r) ∨
     ∃ auth token now, op = IDelete auth token slot id now).
Proof.
  intros Hr Hfresh o. pose proof (inbox_step_change op m (slot, id)) as Hc. rewrite Hr in Hc. fold o in Hc.
  clearbody o. inversion Hc; subst; cbn [fst snd] in *.
  - split; [done|]. intros r' [= <-]. by left.
  - exfalso. cbn in Hfresh. by rewrite bool_decide_true in Hfresh.
  - split; [done|]. intros r' [= <-]. right. left. by eexists.
  - split; [done|]. intros r' [= <-]. right. right. by repeat eexists.
  - split; [|done]. intros _. left. eexists _, _, _. by split; [reflexivity|].
  - split; [|done]. intros _. right. eexists. by split; [reflexivity|].
Qed.

(** Nobody but its two parties disposes of an offer: unless the relay draws the
    same id again, a payload is gone from the slot only because the slot's owner, on
    a valid session, took it — and then the row stays as a tombstone that says so —
    or because its poster withdrew it with the token, or because its time ran out;
    and it is marked as fetched only by the owner's own read. *)
Theorem inbox_row_authority op m slot id r
    (Hr : m.(mb_inbox) !! (slot, id) = Some r) (Hfresh : posts (slot, id) op = false) :
  let o := (inbox_step op m).(mb_inbox) !! (slot, id) in
  (o = None → (∃ auth token now, op = IDelete auth token slot id now ∧ poster_of token r) ∨
              (∃ now, op = IReap now ∧ r.(ib_expires_at) <= as_i64 now)) ∧
  (∀ r', o = Some r' → r'.(ib_value) ≠ r.(ib_value) ∨ r'.(ib_taken_at) ≠ r.(ib_taken_at) →
     ∃ auth token now, op = IDelete auth token slot id now ∧
       inbox_authorized auth slot secret now = true ∧ r' = take_row now r) ∧
  (∀ r', o = Some r' → r'.(ib_fetched_at) ≠ r.(ib_fetched_at) →
     ∃ auth wait header now at_, op = ILook auth slot wait header now at_ ∧
       inbox_authorized auth slot secret now = true ∧ listed at_ r = true).
Proof.
  intros o. pose proof (inbox_step_change op m (slot, id)) as Hc. rewrite Hr in Hc. fold o in Hc.
  clearbody o. inversion Hc; subst; cbn [fst snd] in *.
  - split_and!; [done| |]; intros r' [= <-]; [by intros []|done].
  - exfalso. cbn in Hfresh. by rewrite bool_decide_true in Hfresh.
  - destruct (arrive_fields at_ r) as (F1 & F2 & F3 & F4 & F5).
    split_and!; [done| |]; intros r' [= <-]; [intros []; congruence|]. intros _. by repeat eexists.
  - split_and!; [done| |]; intros r' [= <-].
    + intros _. by repeat eexists.
    + destruct (take_row_fields now r) as (_ & _ & F3 & _). by rewrite F3.
  - split_and!; [|done|done]. intros _. left. eexists _, _, _. by split; [reflexivity|].
  - split_and!; [|done|done]. intros _. right. eexists. by split; [reflexivity|].
Qed.

(** ** Delivery *)

(** Nothing in the run disposes of the offer [(slot, id)], nor reuses its id, nor
    reaps at or after [deadline]. *)
Definition leaves (slot id : string) (deadline : Z) (op : InboxOp) : Prop :=
  posts (slot, id) op = false ∧
  (∀ auth token now, op ≠ IDelete auth token slot id now) ∧
  (∀ now, op = IReap now → as_i64 now < deadline).

Lemma inbox_step_leaves op m slot id r :
  m.(mb_inbox) !! (slot, id) = Some r → leaves slot id r.(ib_expires_at) op →
  ∃ r', (inbox_step op m).(mb_inbox) !! (slot, id) = Some r' ∧ r'.(ib_value) = r.(ib_value) ∧
    r'.(ib_expires_at) = r.(ib_expires_at) ∧ r'.(ib_poster_hash) = r.(ib_poster_hash) ∧
    r'.(ib_taken_at) = r.(ib_taken_at).
Proof.
  intros Hr (Hp & Hd & Hre).
  destruct (inbox_row_changes op m slot id r Hr Hp) as (C1 & C2).
  destruct ((inbox_step op m).(mb_inbox) !! (slot, id)) as [r'|] eqn:Er'.
  2: { exfalso. destruct (C1 eq_refl) as [(auth & token & now & -> & _)|(now & -> & Hx)].
       - by apply (Hd auth token now).
       - specialize (Hre now eq_refl). lia. }
  destruct (C2 r' eq_refl) as [->|[(at_ & ->)|(auth & token & now & Hop)]].
  - by exists r.
  - destruct (arrive_fields at_ r) as (F1 & F2 & F3 & F4 & _). eexists. split_and!; [done|congruence..].
  - by apply Hd in Hop.
Qed.

Lemma inbox_run_leaves ops m slot id r :
  m.(mb_inbox) !! (slot, id) = Some r → Forall (leaves slot id r.(ib_expires_at)) ops →
  ∃ r', (inbox_run ops m).(mb_inbox) !! (slot, id) = Some r' ∧ r'.(ib_value) = r.(ib_value) ∧
    r'.(ib_expires_at) = r.(ib_expires_at) ∧ r'.(ib_poster_hash) = r.(ib_poster_hash) ∧
    r'.(ib_taken_at) = r.(ib_taken_at).
Proof.
  revert m r. induction ops as [|op ops IH]; intros m r Hr Hl; [by exists r|].
  apply Forall_cons in Hl as [Hop Hops].
  destruct (inbox_step_leaves op m slot id r Hr Hop) as (r1 & Hr1 & V1 & E1 & P1 & T1).
  destruct (IH _ r1 Hr1) as (r2 & Hr2 & V2 & E2 & P2 & T2); [by rewrite E1|].
  exists r2. split; [exact Hr2|]. split_and!; congruence.
Qed.

(** What an accepted post leaves. *)
Lemma inbox_post_ok slot ttl poster id body now m ans m' :
  inbox_post_handler lim slot ttl poster id body now m = (Ok ans, m') →
  ans = id ∧ inbox_count m < lim.(max_inbox_rows) ∧
  inbox_count_slot slot now m < MAX_INBOX_PER_SLOT ∧
  m' = inbox_put slot id body (sat_add now (Z.min (default INBOX_TTL_SECS ttl) INBOX_MAX_TTL_SECS))
         (default [] (poster ≫= fun s => base32_decode_upper (str_trim s))) m.
Proof.
  unfold inbox_post_handler. do 3 (case_bool; [done|]). intros [= <- <-]. zbool. done.
Qed.

(** C24. An offer posted is an offer delivered: whatever else happens on the relay, as
    long as neither party disposes of it, the owner's read within the granted time
    answers at once with the sealed offer exactly as posted, unless the reader said
    it holds it already; and from that read on its poster is told it was fetched. *)
Theorem inbox_offer_delivered slot ttl poster id body now ans m m' ops auth wait header now0 at_ token
    (Hpost : inbox_post_handler lim slot ttl poster id body now m = (Ok ans, m'))
    (Hclock : 0 <= now) (Hgranted : 0 <= default INBOX_TTL_SECS ttl)
    (Hroom : now + INBOX_MAX_TTL_SECS <= I64_MAX)
    (Hleaves : Forall (leaves slot id (now + Z.min (default INBOX_TTL_SECS ttl) INBOX_MAX_TTL_SECS)) ops)
    (Hauth : inbox_authorized auth slot secret now0 = true)
    (Hread : 0 <= at_ < now + Z.min (default INBOX_TTL_SECS ttl) INBOX_MAX_TTL_SECS)
    (Hhave : Z.min wait INBOX_MAX_WAIT_SECS = 0 ∨ id ∉ inbox_have header)
    (Htoken : poster ≫= (fun s => base32_decode_upper (str_trim s))
              = Some (blake3_hash (as_bytes token)))
    (Hhash : blake3_hash (as_bytes token) ≠ []) :
  ∃ rows m'', inbox_get_handler secret auth slot wait header now0 at_ (inbox_run ops m') = (Ok (Rows rows), m'') ∧
    (id, body) ∈ rows ∧ inbox_status_by_poster slot id token m'' = Arrived.
Proof.
  apply inbox_post_ok in Hpost as (_ & _ & _ & ->).
  set (ttl' := Z.min (default INBOX_TTL_SECS ttl) INBOX_MAX_TTL_SECS) in *.
  assert (0 <= ttl' <= INBOX_MAX_TTL_SECS) as Httl by (unfold ttl', INBOX_MAX_TTL_SECS in *; lia).
  rewrite Htoken, sat_add_small by (unfold I64_MAX, U64_MAX in *; lia). cbn [default from_option].
  set (m1 := inbox_put _ _ _ _ _ _).
  destruct (inbox_run_leaves ops m1 slot id
    (mkInboxRow body (now + ttl') (Some (blake3_hash (as_bytes token))) None None))
    as (r & Hr & Hv & He & Hp & Ht).
  { unfold m1, inbox_put. cbn [mb_inbox with_inbox]. rewrite lookup_insert_eq, as_i64_small by lia.
    by destruct (blake3_hash (as_bytes token)). }
  { done. }
  cbn [ib_value ib_expires_at ib_poster_hash ib_taken_at] in *.
  assert (listed at_ r = true) as Hli.
  { unfold listed. rewrite He, Ht, as_i64_small by lia. apply andb_true_iff. split; [apply Z.ltb_lt; lia|done]. }
  assert ((id, body) ∈ inbox_list slot at_ (inbox_run ops m1)) as Hin.
  { apply elem_of_inbox_list. by exists r. }
  unfold inbox_get_handler, inbox_get_open. rewrite Hauth. cbn [negb].
  set (have := if _ =? 0 then ∅ else inbox_have header).
  assert (id ∉ have) as Hnh.
  { unfold have. destruct Hhave as [->|Hh]; [set_solver|]. by case_bool; [set_solver|]. }
  unfold inbox_get_look.
  assert (existsb (fun p => negb (bool_decide (p.1 ∈ have))) (inbox_list slot at_ (inbox_run ops m1)) = true) as ->.
  { apply existsb_exists. exists (id, body). split; [by apply list_elem_of_In|]. by rewrite bool_decide_false. }
  eexists _, _. split; [done|]. split; [done|].
  rewrite status_row, lookup_mark_arrived, bool_decide_true.
  2: { split; [done|]. apply elem_of_list_ids. by exists r. }
  rewrite Hr. cbn [fmap option_fmap option_map].
  destruct (arrive_fields at_ r) as (_ & _ & F3 & F4 & F5).
  rewrite F3, F4, Hp, Ht, (bool_decide_true (is_Some (ib_fetched_at _))) by done.
  by rewrite bool_decide_true.
Qed.

(** ** Room in an inbox *)

Definition inbox_time (op : InboxOp) : Z :=
  match op with
  | IPost _ _ _ _ _ now | IDelete _ _ _ _ now | IReap now => now
  | ILook _ _ _ _ _ at_ => at_
  end.
Fixpoint inbox_timed (last : Z) (ops : list InboxOp) : Prop :=
  match ops with
  | [] => True
  | op :: ops => last <= inbox_time op <= I64_MAX ∧ inbox_timed (inbox_time op) ops
  end.
Definition inbox_last (t0 : Z) (ops : list InboxOp) : Z := foldl (fun _ op => inbox_time op) t0 ops.

Definition inbox_bounded (t0 : Z) (m : Mailbox) : Prop :=
  inbox_count m <= Z.max 0 lim.(max_inbox_rows) ∧
  ∀ slot t, t0 <= t <= I64_MAX → inbox_count_slot slot t m <= MAX_INBOX_PER_SLOT.

Lemma count_where_insert_le {K A} `{Countable K} (p : K → A → bool) (t : gmap K A) k v :
  count_where p (<[k := v]> t) <= 1 + count_where p t.
Proof.
  rewrite <- (insert_delete_eq t k v), count_where_insert by apply lookup_delete_eq.
  assert (count_where p (delete k t) <= count_where p t) as Hle.
  { apply count_where_le. intros j w Hj Hp. exists w. split; [|done].
    apply lookup_delete_Some in Hj as [_ ?]. done. }
  destruct (p k v); cbn; lia.
Qed.

(** A step that posts nothing lists nothing new. *)
Lemma inbox_step_listed op m k r' t :
  (∀ slot ttl poster id body now, op ≠ IPost slot ttl poster id body now) →
  (inbox_step op m).(mb_inbox) !! k = Some r' →
  ∃ r, m.(mb_inbox) !! k = Some r ∧ (listed t r' = true → listed t r = true).
Proof.
  intros Hop Hr'. pose proof (inbox_step_change op m k) as Hc. rewrite Hr' in Hc.
  destruct (m.(mb_inbox) !! k) as [r|].
  2: { inversion Hc; subst. by edestruct Hop. }
  exists r. split; [done|]. inversion Hc; subst; [done|by edestruct Hop| |].
  - unfold listed. destruct (arrive_fields at_ r) as (_ & -> & _ & -> & _). done.
  - unfold listed. destruct (take_row_fields now r) as (-> & _ & _ & Ht).
    rewrite (bool_decide_true _ Ht), andb_false_r. done.
Qed.

Lemma listed_later t t' r : 0 <= t <= t' → t' <= I64_MAX → listed t' r = true → listed t r = true.
Proof.
  intros Ht Hm. unfold listed. rewrite !as_i64_small by lia. intros [Hl%Z.ltb_lt ->]%andb_true_iff.
  rewrite andb_true_r. apply Z.ltb_lt. lia.
Qed.

Lemma inbox_step_bounded op m t0 :
  inbox_bounded t0 m → 0 <= t0 <= inbox_time op → inbox_time op <= I64_MAX →
  inbox_bounded (inbox_time op) (inbox_step op m).
Proof.
  intros [Hc Hs] Ht Hm.
  assert ((∀ slot ttl poster id body now, op ≠ IPost slot ttl poster id body now) →
    inbox_bounded (inbox_time op) (inbox_step op m)) as Hother.
  { intros Hop. unfold inbox_bounded, inbox_count, inbox_count_slot in *. split.
    - rewrite !size_count_where in *. eapply Z.le_trans; [|exact Hc]. apply count_where_le.
      intros k r' Hr' _. destruct (inbox_step_listed op m k r' 0 Hop Hr') as (r & Hr & _). by exists r.
    - intros slot t Htt. eapply Z.le_trans; [|apply (Hs slot t); lia]. apply count_where_le.
      intros k r' Hr' Hl. apply andb_true_iff in Hl as [Hk Hl].
      destruct (inbox_step_listed op m k r' t Hop Hr') as (r & Hr & Hli). exists r.
      split; [done|]. by rewrite Hk, Hli. }
  destruct op as [slot ttl poster id body now| | |]; [|by apply Hother..]. clear Hother.
  cbn [inbox_step inbox_time] in *.
  destruct (inbox_post_handler lim slot ttl poster id body now m) as [[ans|e] m'] eqn:E.
  2: { assert (m' = m) as -> by (unfold inbox_post_handler in E; repeat case_in E; congruence).
       split; [done|]. intros s t Htt. apply Hs. lia. }
  apply inbox_post_ok in E as (_ & H1 & H2 & ->). cbn [snd].
  unfold inbox_bounded, inbox_count, inbox_count_slot, inbox_put in *. cbn [mb_inbox with_inbox]. split.
  - rewrite !size_count_where in *. etrans; [apply count_where_insert_le|]. lia.
  - intros s t Htt. destruct (decide (s = slot)) as [->|Hne].
    + etrans; [apply count_where_insert_le|].
      assert (count_where (fun k r => bool_decide (k.1 = slot) && listed t r) m.(mb_inbox)
        <= count_where (fun k r => bool_decide (k.1 = slot) && listed now r) m.(mb_inbox)) as Hle.
      { apply count_where_le. intros k r Hr Hl. exists r. split; [done|].
        apply andb_true_iff in Hl as [-> Hl]. by rewrite (listed_later now t r) by (done || lia). }
      lia.
    + eapply Z.le_trans; [|apply (Hs s t); lia]. apply count_where_le. intros k r Hr Hl.
      apply andb_true_iff in Hl as [Hk Hl]. apply bool_decide_eq_true in Hk.
      exists r. rewrite lookup_insert_ne in Hr by (intros <-; cbn in Hk; congruence).
      rewrite Hl, bool_decide_true by done. done.
Qed.

(** One victim's inbox cannot be filled and the table cannot either: over any run
    the relay holds at most its cap of rows, and no slot ever lists more than 64
    offers. *)
Theorem inbox_run_bounded ops (Htimed : inbox_timed 0 ops) :
  inbox_bounded (inbox_last 0 ops) (inbox_run ops in_memory).
Proof.
  assert (∀ ops m t, inbox_bounded t m → 0 <= t → inbox_timed t ops →
    inbox_bounded (inbox_last t ops) (inbox_run ops m)) as Hrun.
  { intros os. induction os as [|op os IH]; intros m t Hb Ht Hti; [done|].
    destruct Hti as [Ht1 Hti]. apply (IH (inbox_step op m) (inbox_time op)); [|lia|done].
    apply (inbox_step_bounded op m t); [done|lia|lia]. }
  apply Hrun; [|lia|done]. split; [by apply Z.le_max_l|]. intros slot t _. by vm_compute.
Qed.
End facts.
