(* ===== verification/Seeds.v ===== *)
(** * Parked chunks ([relay/src/http.rs], [core/src/backfill.rs], [relay/src/main.rs])

    Seed-to-relay backfill: the relay pulls ciphertext chunks from a sender, keeps each
    as a file named by its hash, and records a row per token and hash.  Receivers
    release chunks as they get them, a sender withdraws all of a token's, the reaper
    expires rows and the sweep removes files no row names.  What a sender's node
    answers when a chunk is pulled is an argument. *)
From S2P Require Import Prelude.
From S2P Require Import Text.
From S2P Require Import SyncTypes.
From S2P Require Import Limits.
From S2P Require Import Store.
From S2P Require Import Mailbox.
From S2P Require Import UploadHttp.
From S2P Require Import MailboxFacts.
From S2P Require Import Rendezvous.
Local Open Scope Z_scope.

(** [data_encoding::HEXLOWER.decode]. *)
Class HexDecode : Type := { hexlower_decode : string → option bytes }.
(** What is written reads back, and has no surrounding white space. *)
Class HexDecodeLaws `{!HexLower, !HexDecode} : Prop := {
  hexlower_round : ∀ b, hexlower_decode (str_trim (hexlower b)) = Some b }.

(** [core/src/hash.rs]: a hash is its 32 bytes. *)
Abbreviation Hash := bytes.

(** The chunk directory of a [BlobNode], one file per hash. *)
Abbreviation ChunkStore := (gmap string File).

Record SeedRequest := mkSeedRequest {
  sr_chunks : list Hash; sr_token : Token; sr_swarm_id : string }.

Definition MAX_SEED_CHUNKS_PER_REQ : Z := 4096.
Definition PAYMENT_REQUIRED : Z := 402.
Definition BAD_GATEWAY : Z := 502.

Section seeds.
Context `{!Blake3Hash, !HexLower, !HexDecode}.

(** [Hash::from_str] and [Display for Hash]. *)
Definition Hash_from_str (s : string) : option Hash :=
  match hexlower_decode (str_trim s) with
  | Some b => if (length b =? 32)%nat then Some b else None
  | None => None
  end.
Definition Hash_to_string (h : Hash) : string := hexlower h.

(** [BlobNode::chunk_path]. *)
Definition chunk_path (h : Hash) : string := Hash_to_string h.

(** [BlobNode::seed_one]: [wire] is what the sender's node answers, a length and a
    ciphertext, or nothing. *)
Definition seed_one (wire : Hash → option (Z * bytes)) (h : Hash) (now : Z) (store : ChunkStore)
    : option ChunkStore :=
  match wire h with
  | None => None
  | Some (total_len, ct) =>
      if negb (Z.of_nat (length ct) =? total_len) || negb (bool_decide (blake3_hash ct = h)) then None
      else Some (<[chunk_path h := mkFile ct now]> store)
  end.

(** [BlobNode::seed_chunks]: a failure takes back what this call wrote. *)
Fixpoint seed_loop (wire : Hash → option (Z * bytes)) (chunks : list Hash) (now : Z)
    (written : list string) (store : ChunkStore) : bool * ChunkStore :=
  match chunks with
  | [] => (true, store)
  | h :: chunks =>
      if bool_decide (is_Some (store !! chunk_path h)) then seed_loop wire chunks now written store
      else
        let written := written ++ [chunk_path h] in
        match seed_one wire h now store with
        | Some store => seed_loop wire chunks now written store
        | None => (false, foldl (fun s p => delete p s) store written)
        end
  end.
Definition seed_chunks wire chunks now store := seed_loop wire chunks now [] store.

(** [BlobNode::has_chunks] and [BlobNode::release_hex]. *)
Definition has_chunks (chunks : list Hash) (store : ChunkStore) : list bool :=
  (fun h => bool_decide (is_Some (store !! chunk_path h))) <$> chunks.
Definition release_hex (hash_hex : string) (store : ChunkStore) : option ChunkStore :=
  match Hash_from_str hash_hex with
  | None => None
  | Some h => Some (delete (chunk_path h) store)
  end.

(** [seed_handler], after [write_rate_limit] admitted the request and it decoded. *)
Definition seed_handler (lim : Limits) (wire : Hash → option (Z * bytes)) (req : SeedRequest)
    (ttl now : Z) (m : Mailbox) (store : ChunkStore) : Response * Mailbox * ChunkStore :=
  let n := Z.of_nat (length req.(sr_chunks)) in
  if MAX_SEED_CHUNKS_PER_REQ <? n then (plain PAYLOAD_TOO_LARGE "too many chunks", m, store)
  else if lim.(max_seeded_rows) <? seeded_count m + n
  then (plain INSUFFICIENT_STORAGE "relay at seed capacity", m, store)
  else
    let add_bytes := sat_mul n CHUNK_SIZE in
    let total_cap := lim.(max_total_blob_bytes) in
    if negb (total_cap =? 0) && (total_cap <? sat_add (disk_bytes m) add_bytes)
    then (plain INSUFFICIENT_STORAGE "relay at storage capacity", m, store)
    else
      let cap := lim.(max_session_relay_bytes) in
      if (0 <? cap) && (cap <? sat_add (session_bytes req.(sr_swarm_id) now m) add_bytes)
      then (plain PAYMENT_REQUIRED "", m, store)
      else
        let '(ok, store) := seed_chunks wire req.(sr_chunks) now store in
        if negb ok then (plain BAD_GATEWAY "seed failed", m, store)
        else
          let granted := if ttl =? 0 then lim.(seed_ttl) else Z.min ttl lim.(max_ttl_secs) in
          let exp := sat_add now granted in
          let m := foldl (fun m h => record_seed req.(sr_token) (Hash_to_string h) exp m) m
                     req.(sr_chunks) in
          let m := if 0 <? cap then add_session_bytes req.(sr_swarm_id) add_bytes exp m else m in
          (mkResponse OK None None (Some granted) None "ok", m, store).

(** [seeded_delete_handler]: the number of chunks forgotten. *)
Definition seeded_delete_handler (token : Token) (m : Mailbox) (store : ChunkStore)
    : Z * Mailbox * ChunkStore :=
  let '(hashes, m) := take_seeds_by_token token m in
  (Z.of_nat (length hashes), m,
   foldl (fun s h => default s (release_hex h s)) store hashes).

(** [release_handler]. *)
Definition release_handler (token : Token) (hash : string) (m : Mailbox) (store : ChunkStore)
    : Response * Mailbox * ChunkStore :=
  if seed_exists token hash m then
    match release_hex hash store with
    | None => (plain INTERNAL_SERVER_ERROR "release failed", m, store)
    | Some store => (plain OK "ok", delete_seed_one token hash m, store)
    end
  else (plain OK "ok", m, store).

(** The seed pass of the reaper ([relay/src/main.rs]). *)
Definition reap_seeds (now : Z) (m : Mailbox) (store : ChunkStore) : Mailbox * ChunkStore :=
  foldl (fun '(m, s) '(token, hash) => (delete_seed_one token hash m, default s (release_hex hash s)))
    (m, store) (expired_seeds now m).

(** The hourly reconciliation of the chunk directory. *)
Definition sweep_chunks (now grace_secs : Z) (m : Mailbox) (store : ChunkStore) : ChunkStore :=
  (sweep_orphan_chunks (seeded_hashes m) now grace_secs store).2.
End seeds.

(** * What the relay promises about parked chunks

    Every file of the chunk directory is what its name says; a chunk parked under one
    token alone stays until that token lets go of it; and the case the code does not
    keep apart, a chunk parked under two. *)
Local Open Scope Z_scope.

Section facts.
Context `{!Blake3Hash, !HexLower, !HexDecode, !HexLowerLaws, !HexDecodeLaws} (lim : Limits).

Inductive SeedOp :=
  | SSeed (wire : Hash → option (Z * bytes)) (req : SeedRequest) (ttl now : Z)
  | SRelease (token : Token) (hash : string)
  | SWithdraw (token : Token)
  | SReap (now : Z)
  | SSweep (now grace : Z).

Definition seed_step (op : SeedOp) (s : Mailbox * ChunkStore) : Mailbox * ChunkStore :=
  let '(m, store) := s in
  match op with
  | SSeed wire req ttl now =>
      let '(_, m, store) := seed_handler lim wire req ttl now m store in (m, store)
  | SRelease token hash => let '(_, m, store) := release_handler token hash m store in (m, store)
  | SWithdraw token => let '(_, m, store) := seeded_delete_handler token m store in (m, store)
  | SReap now => reap_seeds now m store
  | SSweep now grace => (m, sweep_chunks now grace m store)
  end.
Definition seed_run (ops : list SeedOp) s := foldl (fun s op => seed_step op s) s ops.

(** The hashes of a request are 32 bytes by their type. *)
Definition seed_op_ok (op : SeedOp) : Prop :=
  match op with SSeed _ req _ _ => Forall (fun h => length h = 32%nat) req.(sr_chunks) | _ => True end.

(** ** The directory *)

Definition store_honest (store : ChunkStore) : Prop :=
  ∀ name f, store !! name = Some f → name = chunk_path (blake3_hash f.(f_bytes)).

Lemma chunk_path_inj h h' : chunk_path h = chunk_path h' → h = h'.
Proof. apply hexlower_inj. Qed.

Lemma Hash_round h : length h = 32%nat → Hash_from_str (Hash_to_string h) = Some h.
Proof. intros Hl. unfold Hash_from_str, Hash_to_string. by rewrite hexlower_round, Hl. Qed.

(** What pulling chunks leaves, whether it succeeds or not. *)
Lemma seed_loop_spec wire chunks now written store ok store' :
  seed_loop wire chunks now written store = (ok, store') →
  store_honest store → (∀ p, p ∈ written → is_Some (store !! p)) →
  store_honest store' ∧
  (∀ n, n ∉ written → ∀ f, store !! n = Some f → store' !! n = Some f) ∧
  (ok = true → ∀ n f, store !! n = Some f → store' !! n = Some f) ∧
  (ok = true → ∀ h, h ∈ chunks → is_Some (store' !! chunk_path h)).
Proof.
  revert written store. induction chunks as [|h chunks IH]; intros written store Hl Hh Hw; cbn in Hl.
  { injection Hl as <- <-. split_and!; [done|done|done|]. intros _ h Hin. by apply not_elem_of_nil in Hin. }
  case_bool_decide as He.
  { destruct (IH _ _ Hl Hh Hw) as (K1 & K2 & K3 & K4). split_and!; [done|done|done|].
    intros Hok h' Hin. apply elem_of_cons in Hin as [->|Hin]; [|by apply K4].
    destruct He as [f Hf]. exists f. by apply K3. }
  destruct (seed_one wire h now store) as [store1|] eqn:Es.
  - unfold seed_one in Es. destruct (wire h) as [[tl ct]|]; [|done]. case_in Es; [done|].
    apply orb_false_iff in Heqb as [_ Hb]. apply negb_false_iff, bool_decide_eq_true in Hb.
    injection Es as <-.
    destruct (IH _ _ Hl) as (K1 & K2 & K3 & K4).
    + intros n f. rewrite lookup_insert_dec. case_decide as Hn; [|apply Hh].
      intros [= <-]. cbn. congruence.
    + intros p Hp. rewrite lookup_insert_dec. case_decide; [done|]. apply Hw. set_solver.
    + split_and!; [done| | |].
      * intros n Hn f Hf. apply K2; [|by rewrite lookup_insert_ne by (intros <-; rewrite Hf in He; eauto)].
        intros Hn2. apply elem_of_app in Hn2 as [?|Hn2]; [done|]. apply list_elem_of_singleton in Hn2 as ->.
        rewrite Hf in He. eauto.
      * intros Hok n f Hf. apply K3; [done|]. rewrite lookup_insert_ne; [done|].
        intros <-. rewrite Hf in He. eauto.
      * intros Hok h' Hin. apply elem_of_cons in Hin as [->|Hin]; [|by apply K4].
        eexists. apply K3; [done|]. apply lookup_insert_eq.
  - injection Hl as <- <-. split_and!; try done.
    + intros n f. rewrite foldl_delete_lookup. case_decide; [done|]. apply Hh.
    + intros n Hn f Hf. rewrite foldl_delete_lookup, decide_False; [done|].
      intros Hn2. apply elem_of_app in Hn2 as [?|Hn2]; [done|]. apply list_elem_of_singleton in Hn2 as ->.
      rewrite Hf in He. eauto.
Qed.

Lemma seed_chunks_spec wire chunks now store ok store' :
  seed_chunks wire chunks now store = (ok, store') → store_honest store →
  store_honest store' ∧ (∀ n f, store !! n = Some f → store' !! n = Some f) ∧
  (ok = true → ∀ h, h ∈ chunks → is_Some (store' !! chunk_path h)).
Proof.
  intros Hs Hh. destruct (seed_loop_spec _ _ _ _ _ _ _ Hs Hh) as (K1 & K2 & _ & K4); [set_solver|].
  split_and!; [done| |done]. intros n f. apply K2. set_solver.
Qed.

Lemma release_hex_keeps hash store n :
  Hash_from_str hash ≠ Some n →
  default store (release_hex hash store) !! chunk_path n = store !! chunk_path n.
Proof.
  intros Hn. unfold release_hex. destruct (Hash_from_str hash) as [h|]; [|done]. cbn.
  rewrite lookup_delete_ne; [done|]. intros Hp%chunk_path_inj. congruence.
Qed.

Lemma release_hex_honest hash store :
  store_honest store → store_honest (default store (release_hex hash store)).
Proof.
  intros Hh. unfold release_hex. destruct (Hash_from_str hash) as [h|]; [|done].
  intros n f. cbn. rewrite lookup_delete_at. case_decide; [done|]. apply Hh.
Qed.

Lemma sweep_chunks_lookup now grace m store n :
  sweep_chunks now grace m store !! n = store !! n ∨
  (sweep_chunks now grace m store !! n = None ∧ n ∉ seeded_hashes m).
Proof.
  unfold sweep_chunks, sweep_orphan_chunks, sweep_orphan_files. cbn [snd].
  rewrite lookup_delete_where. destruct (store !! n) as [f|]; [|by left].
  destruct (negb _ && negb _) eqn:E; [right|by left]. split; [done|].
  apply andb_true_iff in E as [E _]. apply negb_true_iff, orb_false_iff in E as [_ E].
  by apply bool_decide_eq_false in E.
Qed.

(** ** One parked chunk *)

Definition rows_canon (m : Mailbox) : Prop :=
  ∀ k, is_Some (m.(mb_seeded) !! k) → ∃ h, length h = 32%nat ∧ k.2 = Hash_to_string h.

(** [token] alone parks [h], until [exp], and its file is there. *)
Definition parked (token : Token) (h : Hash) (exp : Z) (s : Mailbox * ChunkStore) : Prop :=
  s.1.(mb_seeded) !! (token, Hash_to_string h) = Some exp ∧
  (∀ token', is_Some (s.1.(mb_seeded) !! (token', Hash_to_string h)) → token' = token) ∧
  is_Some (s.2 !! chunk_path h) ∧ rows_canon s.1 ∧ store_honest s.2.

(** The token does not let go of the chunk, and nobody parks it again. *)
Definition lets_be (token : Token) (h : Hash) (exp : Z) (op : SeedOp) : Prop :=
  match op with
  | SSeed _ req _ _ => seed_op_ok op ∧ h ∉ req.(sr_chunks)
  | SRelease token' hash => token' ≠ token ∨ Hash_from_str hash ≠ Some h
  | SWithdraw token' => token' ≠ token
  | SReap now => as_i64 now < exp
  | SSweep _ _ => True
  end.

(** A row of another token is about another chunk. *)
Lemma other_row token h exp s token' hash :
  length h = 32%nat → parked token h exp s → is_Some (s.1.(mb_seeded) !! (token', hash)) →
  token' ≠ token → Hash_from_str hash ≠ Some h.
Proof.
  intros Hlen (Hrow & Hsole & _ & Hcan & _) Hr Hne Heq. destruct (Hcan _ Hr) as (h' & Hl & Hs).
  cbn in Hs. rewrite Hs, Hash_round in Heq by done. injection Heq as ->.
  apply Hne, Hsole. by rewrite <- Hs.
Qed.

Lemma lookup_record_seeds token chunks exp m k :
  (foldl (fun m h => record_seed token (Hash_to_string h) exp m) m chunks).(mb_seeded) !! k =
    if bool_decide (k.1 = token ∧ k.2 ∈ Hash_to_string <$> chunks) then Some (as_i64 exp)
    else m.(mb_seeded) !! k.
Proof.
  revert m. induction chunks as [|h chunks IH]; intros m; cbn [foldl].
  - by rewrite bool_decide_false by set_solver.
  - rewrite IH. cbn [record_seed mb_seeded with_seeded]. rewrite lookup_insert_dec.
    destruct k as [t x]. cbn [fst snd]. clear IH.
    repeat (case_bool_decide || case_decide); simplify_eq; try done; set_solver.
Qed.

(** What an accepted seeding passed and leaves. *)
Lemma seed_handler_cases wire req ttl now m store r m' store' :
  seed_handler lim wire req ttl now m store = (r, m', store') → store_honest store →
  (r.(status) ≠ OK ∧ m' = m ∧ store_honest store' ∧ (∀ n f, store !! n = Some f → store' !! n = Some f)) ∨
  (r.(status) = OK ∧ store_honest store' ∧
   (∀ n f, store !! n = Some f → store' !! n = Some f) ∧
   (∀ h, h ∈ req.(sr_chunks) → is_Some (store' !! chunk_path h)) ∧
   m'.(mb_seeded) = (foldl (fun m h => record_seed req.(sr_token) (Hash_to_string h)
     (sat_add now (default 0 r.(granted_ttl_header))) m) m req.(sr_chunks)).(mb_seeded)).
Proof.
  unfold seed_handler. intros Hs Hh. cbn zeta in Hs.
  do 4 (case_in Hs; [left; injection Hs as <- <- <-; done|]).
  destruct (seed_chunks wire (sr_chunks req) now store) as [ok store1] eqn:Ec.
  destruct (seed_chunks_spec _ _ _ _ _ _ Ec Hh) as (K1 & K2 & K3).
  destruct ok; cbn [negb] in Hs; [|left; injection Hs as <- <- <-; done].
  right. destruct (0 <? max_session_relay_bytes lim); injection Hs as <- <- <-; split_and!; try done; auto.
Qed.

(** Releasing chunks other than [h], one after another. *)
Lemma release_all_keeps hashes h store :
  (∀ x, x ∈ hashes → Hash_from_str x ≠ Some h) →
  (store_honest store → store_honest (foldl (fun s x => default s (release_hex x s)) store hashes)) ∧
  foldl (fun s x => default s (release_hex x s)) store hashes !! chunk_path h = store !! chunk_path h.
Proof.
  revert store. induction hashes as [|x hashes IH]; intros store Hx; [done|].
  destruct (IH (default store (release_hex x store)) ltac:(set_solver)) as [K1 K2]. cbn [foldl]. split.
  - intros Hh. apply K1. by apply release_hex_honest.
  - rewrite K2. apply release_hex_keeps. set_solver.
Qed.

Lemma parked_released token h exp m store hashes :
  (∀ x, x ∈ hashes → Hash_from_str x ≠ Some h) → parked token h exp (m, store) →
  parked token h exp (m, foldl (fun s x => default s (release_hex x s)) store hashes).
Proof.
  intros Hx (K1 & K2 & K3 & K4 & K5). destruct (release_all_keeps hashes h store Hx) as [K6 K7].
  split_and!; try done; cbn in *; [by rewrite K7|by apply K6].
Qed.

Lemma parked_reaped token h exp now m store :
  length h = 32%nat → parked token h exp (m, store) →
  (∀ t x, (t, x) ∈ expired_seeds now m → Hash_from_str x ≠ Some h) →
  parked token h exp (reap_seeds now m store).
Proof.
  unfold reap_seeds. generalize (expired_seeds now m). intros l Hlen. revert m store.
  induction l as [|[t x] l IH]; intros m store Hp Hx; [done|]. cbn [foldl].
  assert (Hash_from_str x ≠ Some h) as Hne by (apply (Hx t); set_solver).
  apply IH; [|intros t0 x0 Hin; apply (Hx t0); by right]. destruct Hp as (K1 & K2 & K3 & K4 & K5). cbn in *.
  assert (x ≠ Hash_to_string h) as Hh by (intros ->; by rewrite Hash_round in Hne).
  split_and!; cbn; [by rewrite lookup_delete_ne by congruence| | | |by apply release_hex_honest].
  - intros t'. cbn [mb_seeded with_seeded delete_seed_one]. rewrite lookup_delete_ne by congruence. apply K2.
  - by rewrite release_hex_keeps.
  - intros k. cbn [mb_seeded with_seeded delete_seed_one]. rewrite lookup_delete_at.
    case_decide; [by intros []|apply K4].
Qed.

Lemma seed_step_parked token h exp op s :
  length h = 32%nat → parked token h exp s → lets_be token h exp op → parked token h exp (seed_step op s).
Proof.
  intros Hlen Hpk Hop. pose proof Hpk as (Hrow & Hsole & Hfile & Hcan & Hhon). destruct s as [m store].
  cbn [fst snd] in *. destruct op as [wire req ttl now|token' hash|token'|now|now grace]; cbn [seed_step].
  - destruct Hop as [Hok Hnin]. cbn in Hok.
    destruct (seed_handler lim wire req ttl now m store) as [[r m'] store'] eqn:E.
    destruct (seed_handler_cases _ _ _ _ _ _ _ _ _ E Hhon) as [(_ & -> & Hh' & Hk)|(_ & Hh' & Hk & _ & Hm)].
    + split_and!; try done. cbn. destruct Hfile as [f Hf]. exists f. by apply Hk.
    + assert (∀ t, m'.(mb_seeded) !! (t, Hash_to_string h) = m.(mb_seeded) !! (t, Hash_to_string h)) as Hsame.
      { intros t. rewrite Hm, lookup_record_seeds, bool_decide_false; [done|]. cbn.
        intros [_ (h' & Hx & Hin)%list_elem_of_fmap]. apply hexlower_inj in Hx as ->. done. }
      split_and!; cbn; [by rewrite Hsame| | |  |done].
      * intros t. rewrite Hsame. apply Hsole.
      * destruct Hfile as [f Hf]. exists f. by apply Hk.
      * intros k. rewrite Hm, lookup_record_seeds. case_bool_decide as Hd; [|apply Hcan].
        intros _. destruct Hd as [_ (h' & Hx & Hin)%list_elem_of_fmap]. exists h'. split; [|done].
        rewrite Forall_forall in Hok. by apply Hok.
  - unfold release_handler, seed_exists. case_bool_decide as Hex; [|done].
    assert (Hash_from_str hash ≠ Some h) as Hne.
    { destruct Hop as [Hne|Hne]; [|done]. by apply (other_row token h exp (m, store) token' hash). }
    destruct (release_hex hash store) as [store'|] eqn:Er; [|done].
    assert (store' = default store (release_hex hash store)) as -> by by rewrite Er.
    assert (hash ≠ Hash_to_string h) as Hh by (intros ->; by rewrite Hash_round in Hne).
    split_and!; cbn; [by rewrite lookup_delete_ne by congruence| | | |by apply release_hex_honest].
    + intros t. cbn [mb_seeded with_seeded delete_seed_one].
      rewrite lookup_delete_ne by congruence. apply Hsole.
    + by rewrite release_hex_keeps.
    + intros k. cbn [mb_seeded with_seeded delete_seed_one]. rewrite lookup_delete_at.
      case_decide; [by intros []|apply Hcan].
  - unfold seeded_delete_handler, take_seeds_by_token.
    apply parked_released.
    + intros hash Hin. apply list_elem_of_fmap in Hin as ([t x] & -> & Hin).
      apply list_elem_of_fmap in Hin as ([[t' x'] e] & [= -> ->] & Hin).
      apply elem_of_map_to_list, map_lookup_filter_Some in Hin as [Hl Ht]. cbn in *. subst t'.
      apply (other_row token h exp (m, store) token' x'); eauto.
    + split_and!; cbn; try done.
      * rewrite lookup_delete_where, Hrow. cbn. by rewrite bool_decide_false by congruence.
      * intros t. cbn [mb_seeded with_seeded]. rewrite lookup_delete_where.
        destruct (mb_seeded m !! (t, Hash_to_string h)) as [e|] eqn:E; [|by intros []].
        intros _. apply Hsole. by exists e.
      * intros k. cbn [mb_seeded with_seeded]. rewrite lookup_delete_where.
        destruct (mb_seeded m !! k) as [e|] eqn:E; [|by intros []]. intros _. apply Hcan. by exists e.
  - apply parked_reaped; [done|done|]. intros t x Hin.
    unfold expired_seeds in Hin. apply list_elem_of_fmap in Hin as ([[t' x'] e] & [= -> ->] & Hin).
    apply elem_of_map_to_list, map_lookup_filter_Some in Hin as [Hl He]. cbn in *.
    assert (is_Some (mb_seeded m !! (t', x'))) as Hr by eauto. destruct (Hcan _ Hr) as (h' & Hl' & Hx).
    cbn in Hx. intros Heq. rewrite Hx, Hash_round in Heq by done. injection Heq as ->. subst x'.
    assert (t' = token) as -> by eauto. rewrite Hrow in Hl. injection Hl as <-. lia.
  - split_and!; try done.
    + cbn [fst snd]. destruct (sweep_chunks_lookup now grace m store (chunk_path h)) as [->|[_ Hn]]; [done|].
      exfalso. apply Hn. unfold seeded_hashes. apply elem_of_map. exists (token, Hash_to_string h).
      split; [done|]. apply elem_of_dom. eauto.
    + cbn [fst snd]. intros n f Hf. destruct (sweep_chunks_lookup now grace m store n) as [Hs|[Hs _]]; rewrite Hs in Hf;
        [by apply Hhon|done].
Qed.

Lemma seed_run_parked token h exp ops s :
  length h = 32%nat → parked token h exp s → Forall (lets_be token h exp) ops →
  parked token h exp (seed_run ops s).
Proof.
  intros Hlen. revert s. induction ops as [|op ops IH]; intros s Hp Hl; [done|].
  apply Forall_cons in Hl as [Hop Hops]. apply (IH (seed_step op s)); [|done]. by apply seed_step_parked.
Qed.


(** Chunks are not kept apart by token: when two tokens park the same chunk,
    releasing it under one deletes the file while the other's row stays, so the relay
    still counts a chunk it no longer has. *)
Theorem release_ends_others token token' h m store
    (Hlen : length h = 32%nat) (Hne : token ≠ token')
    (Hrow : is_Some (m.(mb_seeded) !! (token, Hash_to_string h)))
    (Hother : is_Some (m.(mb_seeded) !! (token', Hash_to_string h))) :
  let '(r, m', store') := release_handler token (Hash_to_string h) m store in
  r.(status) = OK ∧ is_Some (m'.(mb_seeded) !! (token', Hash_to_string h)) ∧
  has_chunks [h] store' = [false].
Proof.
  unfold release_handler, seed_exists. rewrite bool_decide_true by done.
  unfold release_hex. rewrite Hash_round by done. split_and!; [done| |].
  - cbn. rewrite lookup_delete_ne by congruence. done.
  - cbn. rewrite bool_decide_false; [done|]. intros [f Hf]. by rewrite lookup_delete_eq in Hf.
Qed.
End facts.
