(* ===== verification/BoardExamples.v ===== *)
(** * A pairing on the rendezvous board

    One slot claimed, one receiver answered, and the theorems about the board applied
    to that run. *)
From S2P Require Import Prelude.
From S2P Require Import Text.
From S2P Require Import SyncTypes.
From S2P Require Import SyncExamples.
From S2P Require Import Limits.
From S2P Require Import Store.
From S2P Require Import Mailbox.
From S2P Require Import UploadHttp.
From S2P Require Import RelayExamples.
From S2P Require Import Rendezvous.
From S2P Require Import RendezvousFacts.
From S2P Require Import Inbox.
From S2P Require Import InboxFacts.
From S2P Require Import Seeds.
Local Open Scope Z_scope.

#[export] Instance toy_base32 : Base32 := {| base32_decode s := Some (bytes_of s) |}.

Definition ex_rz_caps : RzCaps := mkRzCaps 30 60 10.
Definition ex_auth : option string := Some "Bearer token"%string.
Definition ex_owner_hash : bytes := blake3_hash (bytes_of "TOKEN").

Definition ex_rz_ops : list (RzOp N) :=
  [RzPost None None "1234" "own" ex_owner_hash 1000;
   RzPost None None "1234" "r.a" [Byte.x01] 1001;
   RzPost None None "1234" "r.b" [Byte.x02] 1002;
   RzPost None ex_auth "1234" "s.a" [Byte.x03] 1003;
   RzPost None ex_auth "1234" "t.a" [Byte.x04] 1004;
   RzPost None None "1234" "s.b" [Byte.x05] 1005;
   RzGet None ex_auth "1234" "sessions" 0 1006].
Definition ex_rz : RzLimiter N * Mailbox := rz_run ex_limits ex_rz_caps ex_rz_ops (∅, in_memory).

(** The stranger's post under [s.b] was refused, so [b] still waits; [a] does not. *)
Example ex_rz_pending : rz_pending "1234" 1007 ex_rz.2 = ["b"%string].
Proof. vm_compute. reflexivity. Qed.

Lemma rz_first_write_wins_witness :
  ∃ r', (rz_run ex_limits ex_rz_caps [RzPost None ex_auth "1234" "s.a" [Byte.x09] 1008] ex_rz).2.(mb_rendezvous)
          !! ("1234", "s.a")%string = Some r' ∧
    r'.(rz_value) = [Byte.x03] ∧ 4606 <= r'.(rz_expires_at).
Proof.
  apply (rz_first_write_wins ex_limits ex_rz_caps ("1234", "s.a")%string (mkRzRow [Byte.x03] 4606) ex_rz).
  - vm_compute. reflexivity.
  - intros [|[|n]]; vm_compute; eexists; reflexivity.
Defined.

Lemma rz_owner_only_witness :
  owns ex_auth "1234" 1007 ex_rz.2 ∧ (rz_read ex_auth "1234" "r.b" 0 1007 ex_rz.2).1 = Ok (Body [Byte.x02]).
Proof.
  split; [|vm_compute; reflexivity].
  destruct (rz_owner_only ex_limits ex_rz_caps ex_rz "1234" "r.b") as (_ & H & _).
  apply (H ex_auth 0 1007 (Body [Byte.x02]) (rz_read ex_auth "1234" "r.b" 0 1007 ex_rz.2).2).
  - vm_compute. reflexivity.
  - right. exists RZ_P_RECV. split; [reflexivity|set_solver].
Defined.

Lemma rz_collected_once_witness :
  let m' := (rz_read None "1234" (RZ_P_TKT +:+ "a") 0 1007 ex_rz.2).2 in
  (∀ k, m'.(mb_rendezvous) !! k =
     if bool_decide (k.1 = "1234"%string ∧ k.2 ∈ rz_session_keys "a") then None
     else ex_rz.2.(mb_rendezvous) !! k) ∧
  rz_read None "1234" (RZ_P_TKT +:+ "a") 0 1008 m' = (Err (NOT_FOUND, "not yet"%string), m').
Proof.
  intros m'.
  destruct (rz_collected_once None "1234" "a" 0 1007 ex_rz.2 [Byte.x04] m' ltac:(discriminate)) as [H _].
  destruct H as (_ & H1 & H2); [vm_compute; reflexivity|]. split; [exact H1|exact (H2 None 1008)].
Defined.

Lemma ex_rz_timed : rz_timed 0 ex_rz_ops.
Proof. unfold ex_rz_ops, clock_ok. cbn. unfold clock_ok, I64_MAX, RZ_MAX_SLOT_LIFETIME. lia. Qed.

Lemma rz_slot_lifetime_witness : 0 <= 1000 <= 2000 ∧ 2000 < 1000 + RZ_MAX_SLOT_LIFETIME.
Proof.
  apply (rz_slot_lifetime ex_limits ex_rz_caps ex_rz_ops (∅ : RzLimiter N) "1234" 2000 ex_owner_hash 1000 ex_rz_timed).
  - vm_compute. discriminate.
  - unfold clock_ok, I64_MAX, RZ_MAX_SLOT_LIFETIME. lia.
  - vm_compute. reflexivity.
Defined.

Lemma rz_board_bounded_witness :
  rz_bounded ex_limits (last_time 0 ex_rz_ops) ex_rz.2.
Proof. apply (rz_board_bounded ex_limits ex_rz_caps ex_rz_ops (∅ : RzLimiter N) ex_rz_timed). Defined.

(** * An offer posted, read and taken

    Stand-ins for the codecs, the keyed hash and the signature, with the laws the
    theorems ask of them, and the life of one offer. *)
Local Open Scope Z_scope.

(** ** A text encoding *)

Fixpoint unhex (s : string) : option bytes :=
  match s with
  | "" => Some []
  | String a (String b s) =>
      match unhex s with
      | Some l => Some (byte_of (unhex_digit a * 16 + unhex_digit b) :: l)
      | None => None
      end
  | String _ "" => None
  end%string.

Lemma unhex_hex_bytes b : unhex (hex b) = Some b.
Proof.
  induction b as [|x b IH]; [done|]. cbn [hex unhex]. rewrite IH, unhex_hex.
  unfold byte_of. by rewrite Byte.of_to_N.
Qed.

(** Hexadecimal digits begin and end no white space. *)
Lemma hex_trim b : str_trim (hex b) = hex b.
Proof.
  apply str_trim_safe. induction b as [|x b IH]; intros y Hy; [by apply not_elem_of_nil in Hy|].
  change (y ∈ Ascii.byte_of_ascii (hex_digit (Byte.to_N x / 16))
    :: Ascii.byte_of_ascii (hex_digit (Byte.to_N x mod 16)) :: bytes_of (hex b)) in Hy.
  apply elem_of_cons in Hy as [->|Hy]; [by destruct x; vm_compute|].
  apply elem_of_cons in Hy as [->|Hy]; [by destruct x; vm_compute|]. by apply IH.
Qed.

(** ** A serialiser: the bits of a countable encoding, one per byte *)

Fixpoint bits (p : positive) : bytes :=
  match p with xI p => Byte.x01 :: bits p | xO p => Byte.x00 :: bits p | xH => [] end.
Fixpoint unbits (b : bytes) : positive :=
  match b with [] => xH | Byte.x01 :: b => xI (unbits b) | _ :: b => xO (unbits b) end.
Lemma unbits_bits p : unbits (bits p) = p.
Proof. by induction p as [p IH|p IH|]; cbn; [rewrite IH|rewrite IH|]. Qed.

#[export] Instance toy_session : SessionCodec := {|
  base32_encode_lower := hex;
  base32_decode_upper := unhex;
  challenge_to_vec c := bits (encode (c.(sc_nonce), c.(sc_exp), c.(sc_mac)));
  challenge_from_bytes b := (fun p => mkSessionChallenge p.1.1 p.1.2 p.2) <$> decode (unbits b);
  token_to_vec t := bits (encode (t.(st_nonce), t.(st_exp), t.(st_mac), t.(st_sig)));
  token_from_bytes b := (fun p => mkSessionToken p.1.1.1 p.1.1.2 p.1.2 p.2) <$> decode (unbits b);
  keyed_hash k x := k ++ x;
  verify_strict key msg sig := true |}.

#[export] Instance toy_session_laws : SessionCodecLaws.
Proof.
  split.
  - apply unhex_hex_bytes.
  - apply hex_trim.
  - intros [n e mc]. cbn. rewrite unbits_bits, decode_encode. done.
  - intros [n e mc sg]. cbn. rewrite unbits_bits, decode_encode. done.
Qed.

#[export] Instance toy_keyed_laws : KeyedHashLaws.
Proof. split. intros k x y Heq. by apply app_inv_head in Heq. Qed.

(** ** A session *)

Definition ex_key : bytes := replicate 32 Byte.x07.
Definition ex_slot : string := hex ex_key.
Definition ex_secret : bytes := [Byte.x2a].
Definition ex_sign (msg : bytes) : bytes := replicate 64 Byte.x00.
Definition ex_challenge : bytes :=
  challenge_to_vec (mkSessionChallenge [Byte.x05] 4600 (inbox_mac ex_secret ex_slot [Byte.x05] 4600)).
Definition ex_token : SessionToken :=
  mkSessionToken [Byte.x05] 4600 (inbox_mac ex_secret ex_slot [Byte.x05] 4600) (ex_sign []).
Definition ex_bearer : string := base32_encode_lower (token_to_vec ex_token).

Lemma ex_slot_key : slot_key ex_slot = Some ex_key.
Proof. vm_compute. reflexivity. Qed.

Lemma ex_decode : decode_session_token (str_trim ex_bearer) = Some ex_token.
Proof.
  unfold decode_session_token, ex_bearer. rewrite !base32_trim, base32_round. apply token_round.
Qed.

Lemma ex_authorized now : inbox_authorized (Some ("Bearer " +:+ ex_bearer)%string) ex_slot ex_secret now
  = (now <? 4600).
Proof.
  apply eq_true_iff_eq. rewrite authorized_token, Z.ltb_lt. split.
  - intros (h & b & t & k & [= <-] & Hh & Ht & Hn & _).
    assert (b = ex_bearer) as -> by (destruct Hh as [Hh|Hh]; [by injection Hh|done]).
    rewrite ex_decode in Ht. by injection Ht as <-.
  - intros Hn. exists ("Bearer " +:+ ex_bearer)%string, ex_bearer, ex_token, ex_key.
    split_and!; first [by left|apply ex_decode|apply ex_slot_key|done].
Qed.

Lemma inbox_session_opens_witness :
  inbox_authorized (Some ("Bearer " +:+ ex_bearer)%string) ex_slot ex_secret 4599
    = (4599 <? 1000 + INBOX_SESSION_TTL).
Proof.
  apply (inbox_session_opens ex_secret ex_slot ex_key [Byte.x05] ex_sign 1000 ex_challenge ex_bearer 4599 ex_slot_key).
  - vm_compute. discriminate.
  - intros msg. split; reflexivity.
  - unfold inbox_session_handler. rewrite ex_slot_key. reflexivity.
  - unfold session_bearer, ex_challenge. rewrite challenge_round. reflexivity.
Defined.

Lemma inbox_session_scoped_witness :
  ex_slot = ex_slot ∧ ex_token.(st_nonce) = [Byte.x05] ∧ ex_token.(st_exp) = 4600 ∧ 2000 < 4600 ∧
  ∃ key, slot_key ex_slot = Some key ∧
    verify_strict key (session_signing_input ex_slot [Byte.x05] 4600) ex_token.(st_sig) = true.
Proof.
  apply (inbox_session_scoped ex_secret (Some ("Bearer " +:+ ex_bearer)%string) ex_slot 2000 ex_slot
    [Byte.x05] 4600 ex_token ex_bearer);
    first [rewrite ex_authorized; reflexivity | apply ex_decode | reflexivity
          | unfold is_u64, U64_MAX; cbn; lia].
Defined.

(** ** An offer *)

Definition ex_offer : bytes := [Byte.x0a; Byte.x0b].
Definition ex_poster : option string := Some (hex (blake3_hash (as_bytes "retract"))).
Definition ex_posted := inbox_post_handler ex_limits ex_slot (Some 500) ex_poster "o1" ex_offer 1000 in_memory.
Definition ex_read : option string := Some ("Bearer " +:+ ex_bearer)%string.
Definition ex_inbox_ops : list InboxOp :=
  [IPost ex_slot None None "o2" [Byte.x01] 1001; IDelete None (Some "wrong"%string) ex_slot "o2" 1002;
   IReap 1003].

Lemma ex_poster_hash :
  ex_poster ≫= (fun s => base32_decode_upper (str_trim s)) = Some (blake3_hash (as_bytes "retract")).
Proof. vm_compute. reflexivity. Qed.

(** The id a request names, to tell requests about different offers apart. *)
Definition op_id (op : InboxOp) : string :=
  match op with IPost _ _ _ id _ _ | IDelete _ _ _ id _ => id | _ => "" end.
Ltac ex_leaves :=
  split_and!;
  [ vm_compute; reflexivity
  | intros ? ? ? Heq; apply (f_equal op_id) in Heq; discriminate Heq
  | intros ? Heq; first [discriminate Heq | injection Heq as <-; vm_compute; reflexivity] ].

Lemma inbox_offer_delivered_witness :
  ∃ rows m'', inbox_get_handler ex_secret ex_read ex_slot 30 (Some "o2"%string) 1004 1010
      (inbox_run ex_limits ex_secret ex_inbox_ops ex_posted.2) = (Ok (Rows rows), m'') ∧
    ("o1"%string, ex_offer) ∈ rows ∧ inbox_status_by_poster ex_slot "o1" "retract" m'' = Arrived.
Proof.
  apply (inbox_offer_delivered ex_limits ex_secret ex_slot (Some 500) ex_poster "o1" ex_offer 1000 "o1"
    in_memory ex_posted.2 ex_inbox_ops ex_read 30 (Some "o2"%string) 1004 1010 "retract").
  - vm_compute. reflexivity.
  - lia.
  - cbn. lia.
  - unfold INBOX_MAX_TTL_SECS, I64_MAX. lia.
  - apply Forall_cons_2, Forall_cons_2, Forall_cons_2; [..|apply Forall_nil; exact I]; ex_leaves.
  - unfold ex_read. rewrite ex_authorized. reflexivity.
  - unfold INBOX_MAX_TTL_SECS. cbn. lia.
  - right. refine (bool_decide_unpack _ _). vm_compute. exact I.
  - apply ex_poster_hash.
  - discriminate.
Defined.

Definition ex_offered : Mailbox := inbox_run ex_limits ex_secret ex_inbox_ops ex_posted.2.
Definition ex_answered : list InboxOp :=
  [ILook ex_read ex_slot 0 None 1010 1010; IDelete ex_read None ex_slot "o1" 1020; IReap 1030].

(** Listed, then taken; the tombstone survives its reap at 1030. *)
Lemma inbox_status_ladder_witness :
  0 <= rank (inbox_status_by_poster ex_slot "o1" "retract" (inbox_run ex_limits ex_secret ex_answered ex_offered)) ∧
  inbox_status_by_poster ex_slot "o1" "retract" (inbox_run ex_limits ex_secret ex_answered ex_offered) ≠ BadToken.
Proof.
  destruct (inbox_status_ladder ex_limits ex_secret ex_slot "o1" "retract" ex_offered ex_answered) as (H1 & H2 & _).
  - repeat constructor.
  - vm_compute. discriminate.
  - split; [|exact H2]. etrans; [|exact H1]. vm_compute. discriminate.
Defined.

Lemma inbox_row_authority_witness :
  let r := mkInboxRow ex_offer 1500 (Some (blake3_hash (as_bytes "retract"))) None None in
  (inbox_step ex_limits ex_secret (IDelete ex_read None ex_slot "o1" 1020) ex_offered).(mb_inbox) !! (ex_slot, "o1"%string)
    = Some (take_row 1020 r) ∧
  ∃ auth token now, IDelete ex_read None ex_slot "o1" 1020 = IDelete auth token ex_slot "o1" now ∧
    inbox_authorized auth ex_slot ex_secret now = true ∧ take_row 1020 r = take_row now r.
Proof.
  intros r.
  assert ((inbox_step ex_limits ex_secret (IDelete ex_read None ex_slot "o1" 1020) ex_offered).(mb_inbox)
    !! (ex_slot, "o1"%string) = Some (take_row 1020 r)) as Hstep.
  { cbn [inbox_step]. unfold inbox_delete_handler, ex_read. rewrite ex_authorized. vm_compute. reflexivity. }
  split; [exact Hstep|].
  destruct (inbox_row_authority ex_limits ex_secret (IDelete ex_read None ex_slot "o1" 1020) ex_offered
    ex_slot "o1" r) as (_ & H & _); [vm_compute; reflexivity|reflexivity|].
  apply H; [exact Hstep|]. left. vm_compute. discriminate.
Defined.

Lemma inbox_run_bounded_witness :
  inbox_bounded ex_limits (inbox_last 0 ex_inbox_ops) (inbox_run ex_limits ex_secret ex_inbox_ops in_memory).
Proof.
  apply (inbox_run_bounded ex_limits ex_secret ex_inbox_ops). cbn. unfold I64_MAX. lia.
Defined.

(** * Parked chunks, run

    One transfer parks a chunk and keeps it through other people's requests; two
    transfers park the same one. *)
Local Open Scope Z_scope.

#[export] Instance toy_hex_decode : HexDecode := {| hexlower_decode := unhex |}.
#[export] Instance toy_hex_decode_laws : HexDecodeLaws.
Proof.
  split. intros b. change (unhex (str_trim (hex b)) = Some b). rewrite hex_trim. apply unhex_hex_bytes.
Qed.

Definition ex_chunk : bytes := replicate 32 Byte.x05.
Definition ex_wire (h : Hash) : option (Z * bytes) :=
  if bool_decide (h = ex_chunk) then Some (32, ex_chunk) else None.
Definition ex_seed_limits : Limits := mkLimits 604800 10 0 0 4 10 10 10 10 0 3600.
Definition ex_seed_req : SeedRequest := mkSeedRequest [ex_chunk] "t1" "swarm".
Definition ex_seeded := seed_handler ex_seed_limits ex_wire ex_seed_req 500 1000 in_memory ∅.
Definition ex_seed_ops : list SeedOp :=
  [SRelease "t2" (Hash_to_string ex_chunk); SWithdraw "t2"; SReap 1499; SSweep 90000 21600].


(** The same chunk parked under [t2] as well. *)
Definition ex_shared := seed_handler ex_seed_limits ex_wire (mkSeedRequest [ex_chunk] "t2" "swarm") 500 1001
  ex_seeded.1.2 ex_seeded.2.

Lemma release_ends_others_witness :
  let '(r, m', store') := release_handler "t1" (Hash_to_string ex_chunk) ex_shared.1.2 ex_shared.2 in
  r.(status) = OK ∧ is_Some (m'.(mb_seeded) !! ("t2"%string, Hash_to_string ex_chunk)) ∧
  has_chunks [ex_chunk] store' = [false].
Proof.
  apply (release_ends_others "t1" "t2" ex_chunk ex_shared.1.2 ex_shared.2).
  - reflexivity.
  - discriminate.
  - vm_compute. eexists. reflexivity.
  - vm_compute. eexists. reflexivity.
Defined.
