(* ===== verification/CodeExamples.v ===== *)
(** * A code shown, typed and answered

    Stand-ins for the key exchange, the keyed hash and the text of a token, with their
    laws; a host and a receiver on one board; and what the runs show of the code. *)
From stdpp Require Import pretty gmap.
From S2P Require Import Prelude.
From S2P Require Import Program.
From S2P Require Import Text.
From S2P Require Import ChunkCipher.
From S2P Require Import SyncCodec.
From S2P Require Import SyncTypes.
From S2P Require Import SyncExamples.
From S2P Require Import Limits.
From S2P Require Import Store.
From S2P Require Import Mailbox.
From S2P Require Import UploadHttp.
From S2P Require Import UploadClient.
From S2P Require Import RelayExamples.
From S2P Require Import Rendezvous.
From S2P Require Import RendezvousFacts.
From S2P Require Import Code.
From S2P Require Import CodeFacts.
From S2P Require Import CodeNet.
From S2P Require Import BoardExamples.
Local Open Scope Z_scope.

(** ** Stand-ins *)

(** The key is the password, and the shared message carries the scalar. *)
#[local] Instance toy_spake : Spake2 := {| spake_start pw id a := a; spake_finish pw id a m := Some pw |}.
#[local] Instance toy_spake_laws : Spake2Laws.
Proof. split. intros pw id a b. by exists pw. Qed.
#[local] Instance toy_keyed : Blake3Keyed :=
  {| blake3_keyed k x := take 32 (k ++ x ++ replicate 32 Byte.x00) |}.
#[local] Instance toy_keyed_length : Blake3KeyedLaws.
Proof. split. intros k x. unfold blake3_keyed, toy_keyed. rewrite length_take, !length_app, length_replicate. lia. Qed.

(** Hexadecimal, read in either case. *)
Fixpoint lower_hex (s : string) : string :=
  match s with
  | String c s => String (if (Ascii.N_of_ascii c <? 65)%N then c else Ascii.ascii_of_N (Ascii.N_of_ascii c + 32)) (lower_hex s)
  | "" => ""
  end%string.
#[local] Instance hex_lower_text : Base32Lower := {| base32_lower := hex |}.
#[local] Instance hex_either_case : Base32 := {| base32_decode s := unhex (lower_hex s) |}.

Lemma lower_upper_hex b : lower_hex (to_ascii_uppercase (hex b)) = hex b.
Proof. induction b as [|x b IH]; [done|]. cbn [hex to_ascii_uppercase lower_hex]. rewrite IH. by destruct x. Qed.
#[local] Instance hex_lower_text_laws : Base32LowerLaws.
Proof.
  split; cbn; intros b.
  - induction b as [|x b IH]; [done|]. cbn. rewrite IH. by destruct x.
  - by rewrite lower_upper_hex, unhex_hex_bytes.
  - assert (String.length (hex b) = 2 * length b)%nat as ->; [|lia].
    induction b as [|x b IH]; [done|]. cbn [hex String.length length]. rewrite IH. lia.
Qed.

(** ** A pairing *)

Definition ex_host : CodeHost := mkCodeHost "7" "7-acid-acorn" "https://relay.example" [Byte.x05; Byte.x06].
Definition ex_payload : bytes := bytes_of "a ticket".
Definition ex_opts : HostOpts := mkHostOpts (Some 1) 3 SESSIONS_WAIT_SECS true.
Definition ex_fresh : HostState := mkHostState 0 0.

Example ex_shown : shown ex_host = "7-acid-acorn@relay.example"%string.
Proof. reflexivity. Qed.

(** The board just after the slot was claimed. *)
Definition ex_claimed : RzLimiter N * Mailbox :=
  rz_run ex_limits ex_rz_caps [RzPost None None "7" "own" (blake3_hash ex_host.(ch_owner_token)) 1000] (∅, in_memory).
Definition ex_features : Response := mkResponse OK (Some (bytes_of "{" ++ quoted "rz2" ++ bytes_of ":true}")).

Definition net_now {A} (now : Z) : Turn A := Net None now Delivered.
Definition ex_moves : list (Move N) :=
  let h i := HostMove (Inner i) in let r i := RecvMove (Inner i) in
  let hn t := HostMove (net_now t) in let rn t := RecvMove (net_now t) in
  [r (Drawn [Byte.x0a]); r (Drawn [Byte.x11]); rn 1001;
   h Heard; h Round; h (Stops false); hn 1002; HostMove (Look 1002); h (Stops false);
   h (Time 0); h Round; hn 1003; h (Drawn [Byte.x22]); hn 1004;
   r (Time 0); r Round; rn 1005; rn 1006;
   h (Time 1); h Round; hn 1007; hn 1008;
   r (Time 1); r Round; rn 1009; rn 1010; rn 1011;
   OtherMove (RzPost (Some 9%N) None "7" "t.bb" [Byte.x00] 1011);
   h (Time 2); h Round; hn 1012; hn 1013; h Heard; h Heard;
   h Round; h (Stops false); h (Time 3); h Round; h (Time 3); hn 1014; hn 1015; h Heard].
Definition ex_start : World :=
  mkWorld (party (host_run ex_host ex_payload ex_opts ex_fresh))
    (party (resolve_v2 "https://relay.example" "7" "7-acid-acorn" 60000 (Some [Byte.x33]) (Some [Byte.x44]))) ex_claimed.
Definition ex_runs : option World := moves_run ex_limits ex_rz_caps ex_features ex_moves ex_start.

(** The receiver has the ticket and its reply arrived; the host reports both, sees the
    ticket collected and closes the slot. *)
Definition reports (l : Log) : list Note := omap (fun o => match o with Told n => Some n | _ => None end) l.
Definition ended {A} (p : client A) : option A := match p with Ret a => Some a | _ => None end.
Example ex_pairs : ∃ w, ex_runs = Some w ∧
  ended w.(wo_recv).(pa_prog) = Some (Ok (ex_payload, true)) ∧
  ended w.(wo_host).(pa_prog) = Some (Ok MaxSessions) ∧
  reports w.(wo_host).(pa_log) = [OnEvent Listening; OnState (mkHostState 1 0);
    OnEvent (HostPaired "0a" 1 (Some [Byte.x33]) (Some [Byte.x44])); OnEvent (HostClosed MaxSessions)] ∧
  map_to_list w.(wo_board).2.(mb_rendezvous) = [].
Proof. eexists. split; [vm_compute; reflexivity|]. split_and!; vm_compute; reflexivity. Qed.

Lemma ex_claimed_rows k row : ex_claimed.2.(mb_rendezvous) !! k = Some row →
  k = ("7", "own")%string ∧ take 32 row.(rz_value) = blake3_hash ex_host.(ch_owner_token).
Proof.
  intros Hr. apply elem_of_map_to_list in Hr. vm_compute in Hr.
  apply list_elem_of_singleton in Hr. injection Hr as -> ->. split; [done|]. vm_compute. reflexivity.
Qed.
Lemma ex_board_ok drawn : board_ok ex_host ex_payload drawn ex_claimed.2.
Proof.
  split_and!.
  - intros row Hr. by apply ex_claimed_rows in Hr as [_ ?].
  - intros sid row _ Hr. by apply ex_claimed_rows in Hr as [[=] _].
  - intros sid row _ Hr. by apply ex_claimed_rows in Hr as [[=] _].
Qed.

Lemma receiver_gets_the_payload_witness :
  ∃ w p, ex_runs = Some w ∧ w.(wo_recv).(pa_prog) = Ret (Ok (p, true)) ∧
    (p = ex_payload ∨ forged ex_payload (fun b => HostMove (Inner (Drawn b)) ∈ ex_moves) p).
Proof.
  assert (∀ mv, mv ∈ ex_moves → match mv with
    | RecvMove (Inner (Drawn b)) => b ≠ [] | OtherMove op => harmless ex_host op | _ => True end) as Hm.
  { apply Forall_forall. unfold ex_moves. repeat constructor; try discriminate; intros ? [=]. }
  eexists _, _. split; [vm_compute; reflexivity|]. split; [vm_compute; reflexivity|].
  eapply (receiver_gets_the_payload ex_limits ex_rz_caps ex_features ex_host ex_payload ex_opts ex_fresh
    "https://relay.example" "7-acid-acorn" 60000 (Some [Byte.x33]) (Some [Byte.x44]) ex_claimed.1 ex_claimed.2 ex_moves).
  - apply ex_board_ok.
  - intros b Hb. exact (Hm _ Hb).
  - intros op Hop. exact (Hm _ Hop).
  - change (ex_claimed.1, ex_claimed.2) with ex_claimed. vm_compute. reflexivity.
  - vm_compute. reflexivity.
Defined.

Lemma shown_code_reads_back_witness :
  looks_like_code (shown ex_host) = true ∧
  parse_code (shown ex_host) = Ok ("7", "7-acid-acorn", Some "relay.example")%string ∧
  exchange_relay (Some "relay.example"%string) None = Ok "https://relay.example"%string.
Proof.
  apply (shown_code_reads_back ex_host None 7%N 0 1 "acid" "acorn"); try reflexivity.
  left. exists "relay.example"%string. split; [reflexivity|]. split; [split; [discriminate|split; [reflexivity|]]|reflexivity].
  repeat constructor.
Defined.

(** ** What a host answers *)

Definition ok_with (b : bytes) : Input (option Response) := Answers (Some (mkResponse OK (Some b))).
Definition ok_text : Input (option Response) := ok_with (bytes_of "ok").
(** The first session of a run up to the answer to the receiver's proof, and the rest of
    an honest one. *)
Definition ex_session (proof : bytes) : list (Input (option Response)) :=
  [Heard; Round; Stops false; Raced (Some (Some (mkResponse OK (Some (bytes_of "0a"))))); Stops false;
   Time 0; Round; ok_with [Byte.x11]; Drawn [Byte.x22]; ok_text; Time 1; Round; ok_with proof].
Definition ex_proof : bytes := confirm_mac (bytes_of "7-acid-acorn") "7" "0a".
Definition ex_quiet : HostOpts := mkHostOpts (Some 1) 3 SESSIONS_WAIT_SECS false.
Definition run_log (st : HostState) (ins : list (Input (option Response))) : Log :=
  match run (host_run ex_host ex_payload ex_quiet st) ins with Some (_, l) => l | None => [] end.

Definition ex_ticket : Request :=
  host_post ex_host "t.0a" (match seal_chunk (ticket_key32 (bytes_of "7-acid-acorn") "7" "0a") 0 1 ex_payload with
                            | Ok c => c | Err _ => [] end).
Lemma sealed_only_after_proof_witness :
  ∃ pre x, run_log ex_fresh (ex_session ex_proof ++ [ok_text]) = pre ++ [Sent ex_ticket x] ∧
    host_may ex_host ex_payload pre ex_ticket.
Proof.
  pose (x := Some (Some (mkResponse OK (Some (bytes_of "ok"))))).
  assert (run_log ex_fresh (ex_session ex_proof ++ [ok_text])
    = take 8 (run_log ex_fresh (ex_session ex_proof ++ [ok_text])) ++ [Sent ex_ticket x]) as Hx by (vm_compute; reflexivity).
  destruct (run (host_run ex_host ex_payload ex_quiet ex_fresh) (ex_session ex_proof ++ [ok_text])) as [[p l]|] eqn:E.
  2:{ unfold run_log in Hx. rewrite E in Hx. discriminate Hx. }
  assert (l = run_log ex_fresh (ex_session ex_proof ++ [ok_text])) as -> by (unfold run_log; rewrite E; reflexivity).
  eexists _, x. split; [exact Hx|].
  exact (sealed_only_after_proof ex_host ex_payload ex_quiet ex_fresh _ p _ _ ex_ticket x [] E Hx).
Defined.

(** Two lives with a wrong guess each; the second starts from what the first had stored. *)
Definition ex_wrong : list (Input (option Response)) := ex_session [Byte.x00] ++ [Drawn [Byte.x09]; ok_text; Heard; Heard].

(** ** What the runs show of the code *)

(** The receiver of a wrong code has its answer before the guess is stored: a host that
    ends in between starts again without it, and the guess was free. *)
Example wrong_guess_is_answered_before_it_is_stored :
  let ins := ex_session [Byte.x00] ++ [Drawn [Byte.x09]; ok_text] in
  last (run_log ex_fresh ins) = Some (Sent (host_post ex_host "t.0a" [Byte.x09]) (Some (Some (mkResponse OK (Some (bytes_of "ok")))))) ∧
  lives ex_host ex_payload ex_quiet ex_fresh [ins; ins; ins; ins] = Some (ex_fresh, 0, 0).
Proof. split; vm_compute; reflexivity. Qed.

(** A stranger fills the slot with sessions: nothing more can be posted to it. The host
    can answer none of them, and goes round again at once. *)
Definition junk_sid (n : nat) : string := pretty (N.of_nat n).
Definition ex_junk : list (RzOp N) :=
  (fun n => RzPost (Some (N.of_nat n)) None "7"%string (P_RECV +:+ junk_sid n)%string [Byte.x01] 1001) <$> seq 10 31.
Definition ex_roomy : Limits := mkLimits 604800 10 16 100 4 100 10 10 10 1000 3600.
Definition ex_full : RzLimiter N * Mailbox := rz_run ex_roomy ex_rz_caps ex_junk ex_claimed.
Definition ex_vain : list (Move N) :=
  (fun i => HostMove i) <$>
  [Inner Heard; Inner Round; Inner (Stops false); net_now 1002; Look 1002] ++
  concat ((fun n => [Inner (Stops false); Inner (Time 0); Inner Round; net_now 1003;
                     Inner (Drawn [Byte.x22; byte_of (N.of_nat n)]); net_now 1003]) <$> seq 10 31) ++
  [Inner Round; Inner (Stops false)].
Example a_full_slot_keeps_its_host_spinning :
  (fun w => (reports w.(wo_host).(pa_log), request_of w.(wo_host).(pa_prog),
     length (rz_pending "7" 1004 w.(wo_board).2),
     (rz_post_handler ex_roomy ex_rz_caps (Some 99%N) None "7" "r.0a" [Byte.x11] 1004 w.(wo_board).1 w.(wo_board).2).1.1))
    <$> moves_run ex_roomy ex_rz_caps ex_features ex_vain (mkWorld ex_start.(wo_host) ex_start.(wo_recv) ex_full)
  = Some ([OnEvent Listening], Some (sessions_request ex_host SESSIONS_WAIT_SECS), 31%nat,
      Err (INSUFFICIENT_STORAGE, "rendezvous slot is full"%string)).
Proof. vm_compute. reflexivity. Qed.
