(* ===== verification/Swarm.v ===== *)
(** * Swarms: piece bitfields and the relay's tracker

    [core/src/swarm.rs] is the wire contract between peers and tracker: the content id
    of a swarm and the have/not bitfields. The tracker is in [relay/src/http.rs]: a
    table of swarms, each a table of peers with a deadline. Its tables are hash maps,
    listed in an order that is not specified: [values] is the listing. *)
From S2P Require Import Prelude.
From S2P Require Import Text.
From S2P Require Import SyncTypes.
From S2P Require Import Store.
From S2P Require Import UploadHttp.
From S2P Require Import Seeds.
Local Open Scope Z_scope.

(** ** [core/src/swarm.rs] *)

(** [swarm_id]. *)
Definition swarm_id `{!Blake3Hash, !HexLower} (chunks : list Hash) (total_size : Z) : string :=
  Hash_to_string (blake3_hash (mjoin chunks ++ u64_to_le_bytes (Z.to_N total_size))).

(** [usize::div_ceil] by 8. *)
Definition bitfield_bytes (n_chunks : nat) : nat := (n_chunks + 7) / 8.

Definition bitfield_new (n_chunks : nat) : bytes := replicate (bitfield_bytes n_chunks) Byte.x00.

(** [b |= 1 << k] and [b & (1 << k) != 0] of a [u8]. *)
Definition byte_of_N (n : N) : Byte.byte := default Byte.x00 (Byte.of_N n).
Definition byte_set (b : Byte.byte) (k : nat) : Byte.byte :=
  byte_of_N (N.lor (Byte.to_N b) (N.shiftl 1 (N.of_nat k))).
Definition byte_has (b : Byte.byte) (k : nat) : bool :=
  negb (N.land (Byte.to_N b) (N.shiftl 1 (N.of_nat k)) =? 0)%N.

Definition bitfield_set (bf : bytes) (i : nat) : bytes :=
  match bf !! (i / 8)%nat with
  | Some b => <[(i / 8)%nat := byte_set b (i mod 8)]> bf
  | None => bf
  end.

Definition bitfield_has (bf : bytes) (i : nat) : bool :=
  match bf !! (i / 8)%nat with Some b => byte_has b (i mod 8) | None => false end.

(** [u8::count_ones], and the sum over the field. *)
Definition count_ones (b : Byte.byte) : nat :=
  length (filter (fun k => byte_has b k = true) (seq 0 8)).
Definition bitfield_count (bf : bytes) : nat := sum_list (count_ones <$> bf).

Record AnnounceReq := mkAnnounceReq {
  an_node_addr : string; an_bitfield : bytes; an_n_chunks : Z; an_event : string; an_want : Z }.
Record PeerInfo := mkPeerInfo { pi_node_addr : string; pi_bitfield : bytes }.

(** ** The tracker ([relay/src/state.rs], [relay/src/http.rs]) *)

Definition SWARM_PEER_TTL_SECS : Z := 60.
Definition MAX_SWARM_PEERS : nat := 100.
Definition MAX_SWARMS : nat := 10000.
Definition MAX_SWARM_CHUNKS : Z := 1000000.
Definition SERVICE_UNAVAILABLE : Z := 503.

Record SwarmPeer := mkSwarmPeer { sw_node_addr : string; sw_bitfield : bytes; sw_expires_at : Z }.

Abbreviation Peers := (gmap string SwarmPeer).
Abbreviation Tracker := (gmap string Peers).

(** [HashMap::values]: every entry once, in some order. *)
Class HashValues : Type := { values : Peers → list SwarmPeer }.
Class HashValuesLaws `{!HashValues} : Prop := {
  values_perm : ∀ m, values m ≡ₚ (map_to_list m).*2 }.

Definition peer_info (e : SwarmPeer) : PeerInfo := mkPeerInfo e.(sw_node_addr) e.(sw_bitfield).

(** [retain(|_, e| e.expires_at > now)]. *)
Definition retain_live (now : Z) (m : Peers) : Peers := filter (fun p => now < p.2.(sw_expires_at)) m.

Section tracker.
Context `{!HashValues}.

(** What the announce handler refuses before it looks at the tracker. *)
Definition bad_announce (req : AnnounceReq) : bool :=
  (MAX_SWARM_CHUNKS <? req.(an_n_chunks)) || bool_decide (req.(an_node_addr) = ""%string)
  || (4096 <? Z.of_nat (length (as_bytes req.(an_node_addr))))
  || (Z.max (div_ceil req.(an_n_chunks) 8) 1 <? Z.of_nat (length req.(an_bitfield))).

(** The peers of the swarm after the announcement. *)
Definition announce_peers (req : AnnounceReq) (now : Z) (peers_map : Peers) : Peers :=
  let peers_map := retain_live now peers_map in
  if bool_decide (req.(an_event) = "stopped"%string) then delete req.(an_node_addr) peers_map
  else if (size peers_map <? MAX_SWARM_PEERS)%nat || bool_decide (is_Some (peers_map !! req.(an_node_addr)))
  then <[req.(an_node_addr) :=
         mkSwarmPeer req.(an_node_addr) req.(an_bitfield) (now + SWARM_PEER_TTL_SECS)]> peers_map
  else peers_map.

(** [swarm_announce_handler], after [write_rate_limit] admitted the request. *)
Definition swarm_announce_handler (swarm : string) (req : AnnounceReq) (now : Z) (tracker : Tracker)
    : (Z * list PeerInfo) * Tracker :=
  if bad_announce req then ((BAD_REQUEST, []), tracker)
  else
    let want := Nat.min (Z.to_nat req.(an_want)) MAX_SWARM_PEERS in
    if negb (bool_decide (is_Some (tracker !! swarm))) && (MAX_SWARMS <=? size tracker)%nat
       && negb (bool_decide (req.(an_event) = "stopped"%string))
    then ((SERVICE_UNAVAILABLE, []), tracker)
    else
      let peers_map := announce_peers req now (default ∅ (tracker !! swarm)) in
      let peers := peer_info <$>
        take want (filter (fun e => e.(sw_node_addr) ≠ req.(an_node_addr)) (values peers_map)) in
      let tracker := if bool_decide (peers_map = ∅) then delete swarm tracker
                     else <[swarm := peers_map]> tracker in
      ((OK, peers), tracker).

(** [swarm_peers_handler]. *)
Definition swarm_peers_handler (swarm : string) (now : Z) (tracker : Tracker)
    : list PeerInfo * Tracker :=
  match tracker !! swarm with
  | Some m =>
      let m := retain_live now m in
      (peer_info <$> take MAX_SWARM_PEERS (values m), <[swarm := m]> tracker)
  | None => ([], tracker)
  end.
End tracker.

(** * What the bitfields and the tracker guarantee *)
Local Open Scope Z_scope.

(** ** Bits *)

Definition all_bytes : list Byte.byte := byte_of_N ∘ N.of_nat <$> seq 0 256.

Lemma elem_of_all_bytes b : b ∈ all_bytes.
Proof.
  unfold all_bytes. apply list_elem_of_fmap. exists (N.to_nat (Byte.to_N b)).
  pose proof (Byte.to_N_bounded b). split; [|apply elem_of_seq; lia].
  cbn. rewrite N2Nat.id. unfold byte_of_N. by rewrite Byte.of_to_N.
Qed.

(** Bits of a byte, by looking at every byte. *)
Lemma byte_bits b k j :
  (k < 8)%nat → (j < 8)%nat →
  byte_has (byte_set b k) j = bool_decide (j = k) || byte_has b j ∧
  count_ones (byte_set b k) = (count_ones b + if byte_has b k then 0 else 1)%nat.
Proof.
  intros Hk Hj.
  assert (forallb (fun b => forallb (fun k => forallb (fun j =>
    Bool.eqb (byte_has (byte_set b k) j) (bool_decide (j = k) || byte_has b j)
    && (count_ones (byte_set b k) =? count_ones b + if byte_has b k then 0 else 1)%nat)
    (seq 0 8)) (seq 0 8)) all_bytes = true) as H by (vm_compute; reflexivity).
  rewrite forallb_forall in H. specialize (H b (proj1 (list_elem_of_In _ _) (elem_of_all_bytes b))).
  rewrite forallb_forall in H. specialize (H k ltac:(apply in_seq; lia)).
  rewrite forallb_forall in H. specialize (H j ltac:(apply in_seq; lia)).
  apply andb_true_iff in H as [H1%Bool.eqb_prop H2%Nat.eqb_eq]. done.
Qed.

Lemma byte_has_zero k : byte_has Byte.x00 k = false.
Proof. unfold byte_has. cbn. done. Qed.

Lemma length_bitfield_set bf i : length (bitfield_set bf i) = length bf.
Proof. unfold bitfield_set. destruct (bf !! _); [apply length_insert|done]. Qed.

Lemma length_bitfield_new n : length (bitfield_new n) = bitfield_bytes n.
Proof. apply length_replicate. Qed.

Lemma bitfield_room n i : (i < n)%nat → (i / 8 < bitfield_bytes n)%nat.
Proof.
  intros Hi. unfold bitfield_bytes. apply Nat.div_lt_upper_bound; [lia|].
  pose proof (Nat.div_mod (n + 7) 8). pose proof (Nat.mod_upper_bound (n + 7) 8). lia.
Qed.

Lemma bitfield_has_new n i : bitfield_has (bitfield_new n) i = false.
Proof.
  unfold bitfield_has, bitfield_new. destruct (replicate _ _ !! _) eqn:E; [|done].
  apply lookup_replicate in E as [-> _]. apply byte_has_zero.
Qed.

Lemma bitfield_has_set bf i j :
  bitfield_has (bitfield_set bf i) j =
    (bool_decide (j = i) && bool_decide (i / 8 < length bf)%nat) || bitfield_has bf j.
Proof.
  unfold bitfield_set, bitfield_has.
  pose proof (Nat.div_mod i 8 ltac:(done)). pose proof (Nat.mod_upper_bound i 8 ltac:(done)).
  pose proof (Nat.div_mod j 8 ltac:(done)). pose proof (Nat.mod_upper_bound j 8 ltac:(done)).
  destruct (bf !! (i / 8)%nat) as [b|] eqn:Eb.
  - pose proof (lookup_lt_Some _ _ _ Eb). rewrite (bool_decide_true (i / 8 < length bf)%nat) by done.
    rewrite andb_true_r. destruct (decide (i / 8 = j / 8)%nat) as [Heq|Hne].
    + rewrite <- Heq, list_lookup_insert_eq by done. rewrite Eb.
      rewrite (proj1 (byte_bits b (i mod 8) (j mod 8) ltac:(lia) ltac:(lia))). f_equal.
      apply bool_decide_ext. lia.
    + rewrite list_lookup_insert_ne by done. rewrite bool_decide_false by (intros ->; lia). done.
  - apply lookup_ge_None in Eb. rewrite (bool_decide_false (i / 8 < length bf)%nat) by lia.
    by rewrite andb_false_r.
Qed.

Lemma bitfield_count_set bf i :
  bitfield_count (bitfield_set bf i) = (bitfield_count bf +
    if bool_decide (i / 8 < length bf)%nat && negb (bitfield_has bf i) then 1 else 0)%nat.
Proof.
  unfold bitfield_set, bitfield_has, bitfield_count.
  destruct (bf !! (i / 8)%nat) as [b|] eqn:Eb.
  - pose proof (lookup_lt_Some _ _ _ Eb). rewrite bool_decide_true by done. cbn [andb].
    apply take_drop_middle in Eb as Hsplit. rewrite <- Hsplit at 2.
    rewrite insert_take_drop by done. pose proof (Nat.mod_upper_bound i 8 ltac:(done)).
    pose proof (proj2 (byte_bits b (i mod 8) 0 ltac:(lia) ltac:(lia))) as Hc.
    rewrite !fmap_app, !fmap_cons, !sum_list_with_app. cbn [sum_list_with]. cbn [id].
    rewrite Hc. destruct (byte_has b (i mod 8)); cbn [negb]; lia.
  - apply lookup_ge_None in Eb. rewrite bool_decide_false by lia. cbn. lia.
Qed.

(** A bitfield of [n] pieces starts empty, marks exactly the pieces it is told to,
    counts them, and neither grows nor is disturbed by an index past its end. *)
Theorem bitfield_is_a_set n (marked : list nat) :
  let bf := foldl bitfield_set (bitfield_new n) marked in
  length bf = bitfield_bytes n ∧
  (∀ i, (i < n)%nat → (bitfield_has bf i = true ↔ i ∈ marked)) ∧
  (∀ i, bitfield_has bf i = true → i ∈ marked) ∧
  ∀ i, bitfield_count (bitfield_set bf i) = (bitfield_count bf +
    if bool_decide (i / 8 < bitfield_bytes n)%nat && negb (bitfield_has bf i) then 1 else 0)%nat.
Proof.
  cbn zeta. induction marked as [|x marked [Hlen [Hin [Hsub _]]]] using rev_ind.
  - cbn [foldl]. split_and!.
    + apply length_bitfield_new.
    + intros i _. rewrite bitfield_has_new. split; [done|]. by intros ?%elem_of_nil.
    + intros i. by rewrite bitfield_has_new.
    + intros i. by rewrite bitfield_count_set, length_bitfield_new.
  - rewrite foldl_app. cbn [foldl]. set (bf := foldl _ _ _) in *. split_and!.
    + by rewrite length_bitfield_set.
    + intros i Hi. rewrite bitfield_has_set, orb_true_iff, Hin, elem_of_app, list_elem_of_singleton by done.
      rewrite Hlen, andb_true_iff, !bool_decide_eq_true.
      split; [intros [[-> _]|?]|intros [?| ->]]; auto using bitfield_room.
    + intros i. rewrite bitfield_has_set, orb_true_iff, elem_of_app, list_elem_of_singleton.
      rewrite andb_true_iff, bool_decide_eq_true. naive_solver.
    + intros i. rewrite bitfield_count_set. by rewrite length_bitfield_set, Hlen.
Qed.

(** A field within another has no more bits, and as many only when it is the same. *)
Lemma filter_count_subset {X} (p q : X → bool) (l : list X) :
  (∀ x, p x = true → q x = true) →
  (length (filter (λ x, p x = true) l) ≤ length (filter (λ x, q x = true) l))%nat ∧
  (length (filter (λ x, p x = true) l) = length (filter (λ x, q x = true) l) → ∀ x, x ∈ l → q x = true → p x = true).
Proof.
  intros Hpq. induction l as [|x l [IH1 IH2]]; [split; [done|by intros ? ? ?%elem_of_nil]|].
  rewrite !filter_cons. destruct (decide (p x = true)) as [Hp|Hp], (decide (q x = true)) as [Hq|Hq]; cbn [length];
    try by (exfalso; auto).
  - split; [lia|]. intros E y [->|Hy]%elem_of_cons; auto.
  - split; [lia|]. lia.
  - split; [done|]. intros E y [->|Hy]%elem_of_cons; auto.
Qed.

Lemma bitfield_has_cons x bf k :
  bitfield_has (x :: bf) k = if (k <? 8)%nat then byte_has x k else bitfield_has bf (k - 8).
Proof.
  unfold bitfield_has. destruct (Nat.ltb_spec k 8) as [Hk|Hk].
  - by rewrite Nat.div_small, Nat.mod_small by done.
  - apply Nat.le_exists_sub in Hk as (m & -> & _). rewrite Nat.add_sub.
    replace (m + 8)%nat with (m + 1 * 8)%nat by lia. by rewrite Nat.div_add, Nat.Div0.mod_add, Nat.add_1_r.
Qed.

Lemma bitfield_count_subset bf1 : ∀ bf2, length bf1 = length bf2 →
  (∀ k, bitfield_has bf1 k = true → bitfield_has bf2 k = true) →
  (bitfield_count bf1 ≤ bitfield_count bf2)%nat ∧
  (bitfield_count bf1 = bitfield_count bf2 → ∀ k, bitfield_has bf2 k = true → bitfield_has bf1 k = true).
Proof.
  induction bf1 as [|x bf1 IH]; intros [|y bf2] Hl Hs; try done.
  destruct (IH bf2) as [I1 I2]; [by injection Hl| |].
  { intros k. specialize (Hs (k + 8)%nat). rewrite !bitfield_has_cons in Hs.
    rewrite Nat.add_sub in Hs. by destruct (Nat.ltb_spec (k + 8) 8); [lia|]. }
  destruct (filter_count_subset (λ k, (k <? 8)%nat && byte_has x k) (λ k, (k <? 8)%nat && byte_has y k) (seq 0 8)) as [C1 C2].
  { intros k [Hk Hb]%andb_true_iff. specialize (Hs k). rewrite !bitfield_has_cons, Hk in Hs. by rewrite Hk, Hs. }
  change (count_ones x ≤ count_ones y)%nat in C1. change (count_ones x = count_ones y → 
    ∀ k, k ∈ seq 0 8 → (k <? 8)%nat && byte_has y k = true → (k <? 8)%nat && byte_has x k = true) in C2.
  change (bitfield_count (x :: bf1)) with (count_ones x + bitfield_count bf1)%nat.
  change (bitfield_count (y :: bf2)) with (count_ones y + bitfield_count bf2)%nat. split; [lia|]. intros E k.
  rewrite !bitfield_has_cons. specialize (C2 ltac:(lia) k). specialize (I2 ltac:(lia)).
  destruct (Nat.ltb_spec k 8) as [Hk|Hk]; [|apply I2]. cbn [andb] in C2. apply C2, elem_of_seq. lia.
Qed.

Lemma bitfield_count_0 bf k : bitfield_count bf = 0%nat → bitfield_has bf k = false.
Proof.
  intros E. destruct (bitfield_has bf k) eqn:Hk; [exfalso|done]. unfold bitfield_has in Hk.
  destruct (bf !! _) as [b|] eqn:Eb; [|done]. apply list_elem_of_lookup_2 in Eb. unfold bitfield_count in E.
  assert (0 < count_ones b)%nat as Hpos.
  { unfold count_ones. destruct (filter _ _) as [|j l] eqn:Ef; [exfalso|cbn; lia].
    assert ((k mod 8)%nat ∈ ([] : list nat)) as Hin; [rewrite <- Ef|by apply elem_of_nil in Hin].
    apply list_elem_of_filter. split; [done|]. apply elem_of_seq. pose proof (Nat.mod_upper_bound k 8). lia. }
  assert (count_ones b ≤ sum_list (count_ones <$> bf))%nat; [|lia]. clear -Eb.
  induction Eb as [b l|b y l _ IH]; [cbn; lia|]. change (count_ones b ≤ count_ones y + sum_list (count_ones <$> l))%nat. lia.
Qed.

(** ** The tracker *)

Section tracker.
Context `{HV : !HashValues, HVL : !HashValuesLaws}.

Inductive TrackerOp :=
  | TAnnounce (swarm : string) (req : AnnounceReq) (now : Z)
  | TPeers (swarm : string) (now : Z).

Definition tracker_step (tracker : Tracker) (op : TrackerOp) : Tracker :=
  match op with
  | TAnnounce swarm req now => (swarm_announce_handler swarm req now tracker).2
  | TPeers swarm now => (swarm_peers_handler swarm now tracker).2
  end.

(** Every peer is filed under its own address, with a bounded bitfield. *)
Definition peers_ok (m : Peers) : Prop :=
  (size m ≤ MAX_SWARM_PEERS)%nat ∧
  map_Forall (fun k e => e.(sw_node_addr) = k ∧ zlen e.(sw_bitfield) <= 125000) m.
Definition tracker_ok (tracker : Tracker) : Prop :=
  (size tracker ≤ MAX_SWARMS)%nat ∧ map_Forall (fun _ m => peers_ok m) tracker.

Lemma retain_live_ok now m : peers_ok m → peers_ok (retain_live now m).
Proof.
  intros [Hs Hf]. split.
  - etrans; [apply map_size_filter|done].
  - intros k e He. apply map_lookup_filter_Some in He as [He _]. by apply Hf.
Qed.

Lemma announce_peers_ok req now m :
  bad_announce req = false → peers_ok m → peers_ok (announce_peers req now m).
Proof.
  intros Hbad Hm. pose proof (retain_live_ok now m Hm) as [Hs Hf]. unfold announce_peers.
  case_bool; [|destruct (_ || _) eqn:E; [|done]].
  - split; [|by apply map_Forall_delete]. rewrite map_size_delete. destruct (_ !! _); cbn [id]; lia.
  - split.
    + rewrite map_size_insert. apply orb_true_iff in E as [E|E].
      * apply Nat.ltb_lt in E. destruct (_ !! an_node_addr req); cbn [id]; lia.
      * apply bool_decide_eq_true in E as [? ->]. done.
    + apply map_Forall_insert_2; [|done]. split; [done|]. cbn.
      unfold bad_announce in Hbad. repeat (apply orb_false_iff in Hbad as [Hbad ?]). zbool.
      unfold MAX_SWARM_CHUNKS, div_ceil in *.
      pose proof (Z.div_le_mono (an_n_chunks req) 1000000 8 ltac:(lia) ltac:(lia)) as Hdiv.
      change (1000000 / 8) with 125000 in Hdiv.
      destruct (Z.ltb_spec 0 (an_n_chunks req mod 8)); [|lia].
      pose proof (Z.div_mod (an_n_chunks req) 8 ltac:(lia)). lia.
Qed.

Lemma tracker_step_ok tracker op : tracker_ok tracker → tracker_ok (tracker_step tracker op).
Proof.
  intros [Hs Hf]. destruct op as [swarm req now|swarm now]; cbn.
  - unfold swarm_announce_handler. destruct (bad_announce req) eqn:Hbad; [done|].
    destruct (negb _ && _ && _) eqn:E; [done|]. cbn [snd].
    set (m := announce_peers _ _ _). assert (peers_ok m) as Hm.
    { apply announce_peers_ok; [done|]. destruct (tracker !! swarm) eqn:El; [by eapply Hf|].
      split; [apply Nat.le_0_l|apply map_Forall_empty]. }
    case_bool.
    + split; [|by apply map_Forall_delete]. rewrite map_size_delete. destruct (_ !! _); cbn [id]; lia.
    + split; [|by apply map_Forall_insert_2]. rewrite map_size_insert.
      destruct (tracker !! swarm) eqn:El; [done|]. rewrite bool_decide_false in E by (by intros []).
      cbn [negb andb] in E. apply andb_false_iff in E as [E|E]; [apply Nat.leb_gt in E; lia|].
      apply negb_false_iff, bool_decide_eq_true in E. exfalso.
      apply (bool_decide_eq_false (m = ∅)); [done|]. unfold m, announce_peers.
      rewrite bool_decide_true by done. apply map_eq. intros k. rewrite lookup_empty.
      apply lookup_delete_None. right. unfold retain_live. by rewrite map_lookup_filter_None; left.
  - unfold swarm_peers_handler. destruct (tracker !! swarm) as [m|] eqn:E; [|done]. cbn [snd].
    split; [|apply map_Forall_insert_2; [apply retain_live_ok; by eapply Hf|done]].
    by rewrite map_size_insert, E.
Qed.

(** Over any run of requests the tracker stays small: at most 10,000 swarms of at
    most 100 peers, each filed under its own address with the bitfield of at most a
    million pieces. *)
Theorem tracker_bounded (ops : list TrackerOp) : tracker_ok (foldl tracker_step ∅ ops).
Proof.
  assert (∀ t, tracker_ok t → tracker_ok (foldl tracker_step t ops)) as Hall.
  { induction ops as [|op ops IH]; intros t Ht; [done|]. cbn. by apply IH, tracker_step_ok. }
  apply Hall. split; [apply Nat.le_0_l|apply map_Forall_empty].
Qed.

Lemma elem_of_values e m : e ∈ values m ↔ ∃ k, m !! k = Some e.
Proof.
  rewrite values_perm. rewrite list_elem_of_fmap. split.
  - intros ([k e'] & -> & Hk%elem_of_map_to_list). by exists k.
  - intros [k Hk]. exists (k, e). by rewrite elem_of_map_to_list.
Qed.

(** An accepted announcement is answered with other peers only, each of them in the
    swarm with time left, no more than were asked for nor than a hundred; and with all
    of them when that many were asked for. The peer itself is then listed to others
    for the next minute, unless it said it stopped or the swarm is full. *)
Theorem announce_answers swarm req now tracker :
  let '((code, peers), tracker') := swarm_announce_handler swarm req now tracker in
  code = OK →
  let mine := default ∅ (tracker' !! swarm) in
  (length peers ≤ Nat.min (Z.to_nat req.(an_want)) MAX_SWARM_PEERS)%nat ∧
  (∀ p, p ∈ peers → p.(pi_node_addr) ≠ req.(an_node_addr) ∧
    ∃ k e, mine !! k = Some e ∧ p = peer_info e ∧ now < e.(sw_expires_at)) ∧
  ((size mine ≤ Nat.min (Z.to_nat req.(an_want)) MAX_SWARM_PEERS)%nat →
    ∀ k e, mine !! k = Some e → e.(sw_node_addr) ≠ req.(an_node_addr) → peer_info e ∈ peers) ∧
  (req.(an_event) ≠ "stopped"%string → (size (retain_live now (default ∅ (tracker !! swarm))) < MAX_SWARM_PEERS)%nat →
    mine !! req.(an_node_addr) =
      Some (mkSwarmPeer req.(an_node_addr) req.(an_bitfield) (now + SWARM_PEER_TTL_SECS))).
Proof.
  unfold swarm_announce_handler. destruct (bad_announce req); [done|]. destruct (negb _ && _ && _); [done|].
  intros _. cbn zeta. set (m := announce_peers _ _ _).
  assert (default ∅ ((if bool_decide (m = ∅) then delete swarm tracker else <[swarm:=m]> tracker) !! swarm) = m) as ->.
  { case_bool; [rewrite lookup_delete_eq; by apply bool_decide_eq_true in Heqb|by rewrite lookup_insert_eq]. }
  assert (∀ k e, m !! k = Some e → now < e.(sw_expires_at)) as Hlive.
  { intros k e. unfold m, announce_peers. case_bool; [|destruct (_ || _)].
    - intros [_ Hk]%lookup_delete_Some. by apply map_lookup_filter_Some in Hk as [_ ?].
    - intros [[_ <-]|[_ Hk]]%lookup_insert_Some; [cbn; unfold SWARM_PEER_TTL_SECS; lia|].
      by apply map_lookup_filter_Some in Hk as [_ ?].
    - intros Hk. by apply map_lookup_filter_Some in Hk as [_ ?]. }
  split_and!.
  - rewrite length_fmap, length_take. lia.
  - intros p (e & -> & He)%list_elem_of_fmap. apply elem_of_take in He as (i & He & _).
    apply list_elem_of_lookup_2, list_elem_of_filter in He as [Hne [k Hk]%elem_of_values].
    split; [done|]. exists k, e. eauto.
  - intros Hsz k e Hk Hne. apply list_elem_of_fmap_2. rewrite take_ge.
    + apply list_elem_of_filter. split; [done|]. apply elem_of_values. eauto.
    + etrans; [apply length_filter|]. rewrite values_perm, length_fmap, length_map_to_list. exact Hsz.
  - intros Hev Hroom. unfold m, announce_peers. rewrite bool_decide_false by done.
    rewrite (proj2 (Nat.ltb_lt _ _)) by done. cbn [orb]. by rewrite lookup_insert_eq.
Qed.

(** The tracker's swarms are only ever dropped by an announcement in the same
    swarm: once ten thousand of them are in it, requests about other swarms are
    refused for ever, though every peer in them expired long ago. *)
Theorem full_tracker_stays_full (ops : list TrackerOp) (tracker : Tracker) :
  (MAX_SWARMS ≤ size tracker)%nat →
  (∀ op, op ∈ ops → match op with
    | TAnnounce swarm req _ => tracker !! swarm = None ∧ req.(an_event) ≠ "stopped"%string
    | TPeers swarm _ => tracker !! swarm = None end) →
  foldl tracker_step tracker ops = tracker ∧
  ∀ swarm req now, tracker !! swarm = None → req.(an_event) ≠ "stopped"%string → bad_announce req = false →
    swarm_announce_handler swarm req now (foldl tracker_step tracker ops) = ((SERVICE_UNAVAILABLE, []), tracker).
Proof.
  intros Hfull Hops.
  assert (∀ swarm req now, tracker !! swarm = None → req.(an_event) ≠ "stopped"%string →
    swarm_announce_handler swarm req now tracker =
      ((if bad_announce req then (BAD_REQUEST, []) else (SERVICE_UNAVAILABLE, [])), tracker)) as Hrej.
  { intros swarm req now Hno Hev. unfold swarm_announce_handler. destruct (bad_announce req); [done|].
    rewrite (bool_decide_false (is_Some _)) by (rewrite Hno; by intros []).
    rewrite (proj2 (Nat.leb_le _ _)) by done. by rewrite bool_decide_false. }
  assert (foldl tracker_step tracker ops = tracker) as Hsame.
  { induction ops as [|op ops IH]; [done|]. cbn [foldl].
    assert (tracker_step tracker op = tracker) as ->; [|apply IH; set_solver].
    specialize (Hops op ltac:(set_solver)). destruct op as [swarm req now|swarm now]; cbn [tracker_step].
    - destruct Hops as [Hno Hev]. by rewrite (Hrej _ _ _ Hno Hev).
    - unfold swarm_peers_handler. by rewrite Hops. }
  split; [done|]. intros swarm req now Hno Hev Hbad. rewrite Hsame, (Hrej _ _ _ Hno Hev). by rewrite Hbad.
Qed.
End tracker.
