(* ===== verification/Tickets.v ===== *)
(** * Tickets

    [core/src/chunked.rs] (tickets, seed and have requests) and
    [core/src/offline.rs]: the strings that two clients, or a client and a relay, hand
    each other.  A ticket is a prefix and the base32 of a [postcard] value; reading
    one trims it, takes the prefix off and reads the rest in upper case. *)
From S2P Require Import Prelude.
From S2P Require Import Text.
From S2P Require Import SyncTypes.
From S2P Require Import Store.
From S2P Require Import Rendezvous.
From S2P Require Import Seeds.
From S2P Require Import Swarm.
Local Open Scope Z_scope.
Local Open Scope arvolo_scope.

(** What [serde] and [postcard] do for one type. *)
Class Wire (T : Type) : Type := { to_allocvec : T → option bytes; from_bytes : bytes → option T }.
Class WireLaws (T : Type) `{!Wire T} : Prop := {
  from_to_bytes : ∀ (x : T) b, to_allocvec x = Some b → from_bytes b = Some x }.

(** [data_encoding::BASE32_NOPAD]: encoding, and decoding of a text put in upper case
    first. *)
Class Base32Text : Type := {
  base32_nopad : bytes → string; base32_of_upper : string → option bytes }.

Definition base32_char (x : Byte.byte) : bool :=
  let n := Byte.to_N x in ((65 <=? n) && (n <=? 90))%N || ((50 <=? n) && (n <=? 55))%N.
Definition to_lowercase (s : string) : string :=
  string_of ((fun x => Ascii.byte_of_ascii (ascii_lower (Ascii.ascii_of_byte x))) <$> bytes_of s).

Class Base32TextLaws `{!Base32Text} : Prop := {
  base32_alphabet : ∀ b, Forall (fun x => base32_char x = true) (bytes_of (base32_nopad b));
  base32_read_back : ∀ b, base32_of_upper (base32_nopad b) = Some b;
  base32_read_lower : ∀ b, base32_of_upper (to_lowercase (base32_nopad b)) = Some b }.

(** ** [core/src/chunked.rs] *)

Definition TICKET_PREFIX : string := "arvc".
Definition SEED_PREFIX : string := "arvs".
Definition HAVE_PREFIX : string := "arvh".

Inductive KeyDelivery :=
| Plain (key : bytes)
| Sealed (encapped_key ciphertext sender : bytes).

(** [backfill::RelayRelease]: the relay's HTTP base, its chunk-node address and the
    transfer's token. *)
Record RelayRelease := mkRelayRelease { rr_http : string; rr_addr : string; rr_token : string }.

(** [ChunkTicket], and its wire form [TicketWire] with the same fields; [A] is the
    address type of the transport library. *)
Record ChunkTicket (A : Type) := mkChunkTicket {
  ct_total_size : Z;
  ct_chunk_size : Z;
  ct_chunks : list Hash;
  ct_providers : list A;
  ct_relay : option RelayRelease;
  ct_key : KeyDelivery;
  ct_name : string;
  ct_archive : bool }.
Arguments mkChunkTicket {_} _ _ _ _ _ _ _ _.
Arguments ct_total_size {_} _.
Arguments ct_chunk_size {_} _.
Arguments ct_chunks {_} _.
Arguments ct_providers {_} _.
Arguments ct_relay {_} _.
Arguments ct_key {_} _.
Arguments ct_name {_} _.
Arguments ct_archive {_} _.

Record SeedRequest (A : Type) := mkSeedRequest {
  sq_sender : A; sq_chunks : list Hash; sq_token : string; sq_swarm_id : string }.
Arguments mkSeedRequest {_} _ _ _ _.
Record HaveRequest := mkHaveRequest { hq_chunks : list Hash }.

Section tickets.
Context `{!Base32Text}.

(** [format!("{PREFIX}{}", BASE32_NOPAD.encode(..))]. *)
Definition ticket_text (prefix : string) (b : bytes) : string := (prefix ++ base32_nopad b)%string.

(** [encode_have_bitfield] and [decode_have_bitfield]. *)
Definition encode_have_bitfield (bf : bytes) : string := to_lowercase (base32_nopad bf).
Definition decode_have_bitfield (s : string) (n_chunks : nat) : result bytes string :=
  try! b := context "decode have bitfield" (base32_of_upper (str_trim s)) in
  if (length b <=? bitfield_bytes n_chunks)%nat then Ok b
  else Err "have bitfield longer than the question asked".

Section chunked.
Context {A : Type} `{!Wire (ChunkTicket A), !Wire (SeedRequest A), !Wire HaveRequest}.

Definition ticket_encode (t : ChunkTicket A) : result string string :=
  try! b := context "serialize chunk ticket" (to_allocvec t) in Ok (ticket_text TICKET_PREFIX b).
Definition ticket_decode (s : string) : result (ChunkTicket A) string :=
  match after TICKET_PREFIX (str_trim s) with
  | None => Err "not a chunk ticket (missing arvc prefix)"
  | Some body =>
      try! b := context "decode chunk ticket" (base32_of_upper body) in
      context "deserialize chunk ticket" (from_bytes b)
  end.
(** [ChunkTicket::looks_like]. *)
Definition looks_like (s : string) : bool :=
  bool_decide (is_Some (after TICKET_PREFIX (string_of (trim_start (bytes_of s))))).
(** [ChunkTicket::content_id]. *)
Definition content_id `{!Blake3Hash, !HexLower} (t : ChunkTicket A) : string :=
  swarm_id t.(ct_chunks) t.(ct_total_size).

Definition seed_encode (q : SeedRequest A) : result string string :=
  try! b := context "serialize seed request" (to_allocvec q) in Ok (ticket_text SEED_PREFIX b).
Definition seed_decode (s : string) : result (SeedRequest A) string :=
  match after SEED_PREFIX (str_trim s) with
  | None => Err "not a seed request"
  | Some body =>
      try! b := context "decode seed request" (base32_of_upper body) in
      context "deserialize seed request" (from_bytes b)
  end.
Definition have_encode (q : HaveRequest) : result string string :=
  try! b := context "serialize have request" (to_allocvec q) in Ok (ticket_text HAVE_PREFIX b).
Definition have_decode (s : string) : result HaveRequest string :=
  match after HAVE_PREFIX (str_trim s) with
  | None => Err "not a have request"
  | Some body =>
      try! b := context "decode have request" (base32_of_upper body) in
      context "deserialize have request" (from_bytes b)
  end.
End chunked.
End tickets.

(** ** [core/src/offline.rs] *)

Definition OFFLINE_PREFIX : string := "arvm".

(** [OfflineTicket] and its wire form; [OfflineWireV1] is the shape without a name. *)
Record OfflineTicket := mkOfflineTicket {
  ot_relay : string;
  ot_claim : string;
  ot_sender : bytes;
  ot_salt : bytes;
  ot_wrapped_key : bytes;
  ot_total_size : Z;
  ot_name : string }.
Record OfflineWireV1 := mkOfflineWireV1 {
  ov_relay : string;
  ov_claim : string;
  ov_sender : bytes;
  ov_salt : bytes;
  ov_wrapped_key : bytes;
  ov_total_size : Z }.

Definition has_password (t : OfflineTicket) : bool := negb (bool_decide (t.(ot_salt) = [])).
Definition upgrade_v1 (w : OfflineWireV1) : OfflineTicket :=
  mkOfflineTicket w.(ov_relay) w.(ov_claim) w.(ov_sender) w.(ov_salt) w.(ov_wrapped_key)
    w.(ov_total_size) "".

Section offline.
Context `{!Base32Text, !Wire OfflineTicket, !Wire OfflineWireV1}.

(** [OfflineTicket::encode]; [None] is the panic of its [expect]. *)
Definition offline_encode (t : OfflineTicket) : option string :=
  ticket_text OFFLINE_PREFIX <$> to_allocvec t.
(** [OfflineTicket::decode]: the newest shape first. *)
Definition offline_decode (s : string) : result OfflineTicket string :=
  match after OFFLINE_PREFIX (str_trim s) with
  | None => Err "not an offline ticket (missing arvm prefix)"
  | Some body =>
      try! b := context "decode offline ticket" (base32_of_upper body) in
      match from_bytes b with
      | Some t => Ok t
      | None => try! w := context "deserialize offline ticket" (from_bytes b) in Ok (upgrade_v1 w)
      end
  end.
End offline.

(** ** Round trips *)

Lemma base32_char_trim_safe x : base32_char x = true → trim_safe x = true.
Proof. destruct x; vm_compute; congruence. Qed.

Section round.
Context `{!Base32Text, !Base32TextLaws}.

Lemma after_app (p s : string) : after p (p ++ s)%string = Some s.
Proof.
  unfold after. rewrite bytes_of_app.
  rewrite (proj2 (strip_prefix_Some (bytes_of p) _ (bytes_of s)) eq_refl). cbn.
  by rewrite string_of_bytes_of.
Qed.

(** A prefix of trim-safe characters in front of base32 is not trimmed. *)
Lemma ticket_text_trim prefix b :
  Forall (fun x => trim_safe x = true) (bytes_of prefix) →
  str_trim (ticket_text prefix b) = ticket_text prefix b.
Proof.
  intros Hp. apply str_trim_safe. intros x. unfold ticket_text. rewrite bytes_of_app, elem_of_app.
  intros [Hx|Hx]; [rewrite Forall_forall in Hp; by apply Hp|].
  apply base32_char_trim_safe. pose proof (base32_alphabet b) as Hb.
  rewrite Forall_forall in Hb. by apply Hb.
Qed.

Lemma ticket_text_after prefix b :
  Forall (fun x => trim_safe x = true) (bytes_of prefix) →
  after prefix (str_trim (ticket_text prefix b)) = Some (base32_nopad b).
Proof. intros Hp. rewrite ticket_text_trim by done. apply after_app. Qed.

Ltac prefix_safe := repeat constructor.
Ltac wire_round :=
  unfold context; intros Henc;
  match type of Henc with context [to_allocvec ?x] =>
    let E := fresh "E" in destruct (to_allocvec x) eqn:E end;
  cbn in Henc; simplify_eq; rewrite ticket_text_after by prefix_safe; cbn; rewrite base32_read_back; cbn;
  erewrite from_to_bytes by done.

Lemma chunk_ticket_round {A} `{!Wire (ChunkTicket A), !WireLaws (ChunkTicket A)} (t : ChunkTicket A) s :
  ticket_encode t = Ok s → ticket_decode s = Ok t.
Proof. unfold ticket_encode, ticket_decode. by wire_round. Qed.

Lemma seed_request_round {A} `{!Wire (SeedRequest A), !WireLaws (SeedRequest A)} (q : SeedRequest A) s :
  seed_encode q = Ok s → seed_decode s = Ok q.
Proof. unfold seed_encode, seed_decode. by wire_round. Qed.

Lemma have_request_round `{!Wire HaveRequest, !WireLaws HaveRequest} (q : HaveRequest) s :
  have_encode q = Ok s → have_decode s = Ok q.
Proof. unfold have_encode, have_decode. by wire_round. Qed.

Lemma offline_ticket_round `{!Wire OfflineTicket, !WireLaws OfflineTicket, !Wire OfflineWireV1} t s :
  offline_encode t = Some s → offline_decode s = Ok t.
Proof.
  unfold offline_encode, offline_decode. intros Henc.
  destruct (to_allocvec t) as [b|] eqn:E; cbn in Henc; simplify_eq.
  rewrite ticket_text_after by prefix_safe. cbn. rewrite base32_read_back. cbn.
  by rewrite (from_to_bytes t b E).
Qed.

(** What an encoder produced is recognised as a live ticket, and a mailbox ticket is not. *)
Lemma trim_start_safe l : Forall (fun x => trim_safe x = true) l → trim_start l = l.
Proof.
  intros Hl. unfold trim_start. destruct l as [|x l]; [done|].
  apply strip_many_none. apply Forall_cons_1 in Hl as [Hx _]. by apply andb_true_iff in Hx as [? _].
Qed.

Lemma ticket_text_safe prefix b :
  Forall (fun x => trim_safe x = true) (bytes_of prefix) →
  Forall (fun x => trim_safe x = true) (bytes_of (ticket_text prefix b)).
Proof.
  intros Hp. unfold ticket_text. rewrite bytes_of_app. apply Forall_app_2; [done|].
  eapply Forall_impl; [apply base32_alphabet|]. apply base32_char_trim_safe.
Qed.

Lemma looks_like_encoded {A} `{!Wire (ChunkTicket A)} (t : ChunkTicket A) s :
  ticket_encode t = Ok s → looks_like s = true.
Proof.
  unfold ticket_encode, context, looks_like. intros Henc.
  destruct (to_allocvec t); cbn in Henc; simplify_eq.
  rewrite trim_start_safe by (apply ticket_text_safe; prefix_safe).
  rewrite string_of_bytes_of. apply bool_decide_eq_true. unfold ticket_text. rewrite after_app. by eexists.
Qed.

Lemma looks_like_offline `{!Wire OfflineTicket} t s : offline_encode t = Some s → looks_like s = false.
Proof.
  unfold offline_encode, looks_like. intros Henc.
  destruct (to_allocvec t) as [b|]; cbn in Henc; simplify_eq.
  rewrite trim_start_safe by (apply ticket_text_safe; prefix_safe).
  rewrite string_of_bytes_of. apply bool_decide_eq_false. unfold ticket_text.
  intros [r Hr]. unfold after in Hr. rewrite bytes_of_app in Hr. by cbn in Hr.
Qed.

Lemma have_bitfield_round bf n :
  length bf = bitfield_bytes n → str_trim (encode_have_bitfield bf) = encode_have_bitfield bf →
  decode_have_bitfield (encode_have_bitfield bf) n = Ok bf.
Proof.
  intros Hlen Htrim. unfold decode_have_bitfield. rewrite Htrim. unfold encode_have_bitfield.
  rewrite base32_read_lower. cbn. rewrite Hlen. by rewrite Nat.leb_refl.
Qed.
End round.
