(* ===== verification/Schedule.v ===== *)
(** * Scheduling decisions of the swarm receiver ([core/src/flow/schedule.rs])

    Who can serve a piece, which piece to fetch next, and from whom. Throughputs are
    [f64]: the operations of [SpecFloat] at 53 bits. Generic over the address type, as
    the source is; an [Instant] is a number. *)
From Stdlib Require Import SpecFloat.
From S2P Require Import Prelude.
From S2P Require Import Text.
From S2P Require Import Swarm.
Local Open Scope Z_scope.

(** ** [f64] *)

Abbreviation f64 := spec_float.
Definition f64_add : f64 → f64 → f64 := SFadd 53 1024.
Definition f64_sub : f64 → f64 → f64 := SFsub 53 1024.
Definition f64_mul : f64 → f64 → f64 := SFmul 53 1024.
Definition f64_div : f64 → f64 → f64 := SFdiv 53 1024.
(** [n as f64]. *)
Definition f64_of_Z (n : Z) : f64 := binary_normalize 53 1024 n 0 false.
Definition f64_is_nan (x : f64) : bool := match x with S754_nan => true | _ => false end.
(** [f64::max]. *)
Definition f64_max (x y : f64) : f64 :=
  if f64_is_nan x then y else if f64_is_nan y then x else if SFltb x y then y else x.

(** [f64::total_cmp]: by sign, then exponent, then significand; the one NaN of
    [SpecFloat] counts as positive. *)
Definition f64_key (x : f64) : Z * (Z * Z) :=
  match x with
  | S754_infinity true => (-3, (0, 0))
  | S754_finite true m e => (-2, (- e, - Z.pos m))
  | S754_zero true => (-1, (0, 0))
  | S754_zero false => (1, (0, 0))
  | S754_finite false m e => (2, (e, Z.pos m))
  | S754_infinity false => (3, (0, 0))
  | S754_nan => (4, (0, 0))
  end.
Definition total_cmp (x y : f64) : comparison :=
  pair_cmp Z.compare (pair_cmp Z.compare Z.compare) (f64_key x) (f64_key y).

Definition f64_zero : f64 := S754_zero false.
Definition f64_one : f64 := f64_of_Z 1.

(** ** Who can serve a piece *)

Section schedule.
Context {A : Type}.

Definition providers_for_piece (piece : nat) (sender : option (string * A))
    (relay : option ((string * A) * gset Z)) (peers : list (string * A * bytes))
    (is_eligible : string → bool) : list (string * A) :=
  match sender with
  | Some (id, addr) => if is_eligible id then [(id, addr)] else []
  | None => []
  end ++
  match relay with
  | Some ((id, addr), on_relay) =>
      if bool_decide (wrap_u32 (Z.of_nat piece) ∈ on_relay) && is_eligible id then [(id, addr)] else []
  | None => []
  end ++
  (fst <$> filter (fun p => bitfield_has p.2 piece && is_eligible p.1.1 = true) peers).

Definition is_eligible (id : string) (banned : gset string) (cooldown : gmap string Z) (now : Z) : bool :=
  negb (bool_decide (id ∈ banned))
  && match cooldown !! id with Some t => t <=? now | None => true end.

(** ** Which piece *)

Definition rarest_set {P} (candidates : list (nat * list P)) : list (nat * list P) :=
  match candidates with
  | [] => []
  | c :: cs =>
      let min := foldl (fun n c => Nat.min n (length c.2)) (length c.2) cs in
      filter (fun c => length c.2 = min) candidates
  end.

Definition offloadable (origin : option string) (provs : list (string * A)) : bool :=
  existsb (fun p => negb (bool_decide (Some p.1 = origin))) provs.

Definition prefer_offloadable (candidates : list (nat * list (string * A)))
    (origin : option string) (origin_busy : bool) : list (nat * list (string * A)) :=
  if negb origin_busy then candidates
  else if existsb (fun c => offloadable origin c.2) candidates
  then filter (fun c => offloadable origin c.2 = true) candidates
  else candidates.

(** ** From whom *)

Definition ORIGIN_OFFLOAD_FACTOR : f64 := f64_of_Z 4.
(** The double nearest to 0.3. *)
Definition RATE_EWMA_ALPHA : f64 := S754_finite false 5404319552844595 (-54).

Record Candidate := mkCandidate {
  cd_id : string; cd_addr : A; cd_is_origin : bool; cd_in_flight : Z; cd_rate_bps : option f64 }.

(** [filter(|r| *r > 0.0)]. *)
Definition positive_rate (r : option f64) : option f64 :=
  match r with Some r => if SFltb f64_zero r then Some r else None | None => None end.

Definition cost (c : Candidate) (prior_rate : f64) : f64 :=
  let rate := f64_max (default prior_rate (positive_rate c.(cd_rate_bps))) f64_one in
  let base := f64_div (f64_add (f64_of_Z c.(cd_in_flight)) f64_one) rate in
  if c.(cd_is_origin) then f64_mul base ORIGIN_OFFLOAD_FACTOR else base.

(** The optimistic rate of a provider nobody has timed. *)
Definition prior_rate (candidates : list Candidate) : f64 :=
  let best_known := foldl f64_max S754_nan (omap (fun c => positive_rate c.(cd_rate_bps)) candidates) in
  if f64_is_nan best_known then f64_one else best_known.

Definition candidate_cmp (prior : f64) (a b : Candidate) : comparison :=
  then_with (total_cmp (cost a prior) (cost b prior))
    (bytes_cmp (bytes_of a.(cd_id)) (bytes_of b.(cd_id))).

(** [Iterator::min_by]: the first of the least. *)
Definition min_by {B} (cmp : B → B → comparison) (l : list B) : option B :=
  match l with
  | [] => None
  | x :: l => Some (foldl (fun x y => match cmp x y with Gt => y | _ => x end) x l)
  end.

Definition choose_provider (candidates : list Candidate) : option Candidate :=
  min_by (candidate_cmp (prior_rate candidates)) candidates.

(** [update_rate]. *)
Definition update_rate (rates : gmap string f64) (id : string) (sample_bps : f64) : gmap string f64 :=
  if SFltb f64_zero sample_bps then
    let e := default sample_bps (rates !! id) in
    <[id := f64_add (f64_mul RATE_EWMA_ALPHA sample_bps)
                    (f64_mul (f64_sub f64_one RATE_EWMA_ALPHA) e)]> rates
  else rates.
End schedule.
Arguments Candidate : clear implicits.

(** The cases the source's own tests fix. *)
Definition ex_cand (id : string) (origin : bool) (load : Z) (rate : option Z) : Candidate unit :=
  mkCandidate id tt origin load (f64_of_Z <$> rate).

Example a_peer_is_preferred :
  cd_id <$> choose_provider [ex_cand "A" true 0 None; ex_cand "B" false 0 None] = Some "B"%string.
Proof. vm_compute. reflexivity. Qed.
Example the_faster_peer_is_preferred :
  cd_id <$> choose_provider [ex_cand "slow" false 0 (Some 1000000); ex_cand "fast" false 0 (Some 8000000)]
  = Some "fast"%string.
Proof. vm_compute. reflexivity. Qed.
Example a_fast_idle_origin_wins :
  cd_id <$> choose_provider [ex_cand "A" true 0 (Some 50000000); ex_cand "B" false 6 (Some 200000)]
  = Some "A"%string.
Proof. vm_compute. reflexivity. Qed.
Example an_unmeasured_peer_is_explored :
  cd_id <$> choose_provider [ex_cand "known" false 0 (Some 4000000); ex_cand "fresh" false 0 None]
  = Some "fresh"%string.
Proof. vm_compute. reflexivity. Qed.
Example two_samples_blend :
  (fun r => SFltb (f64_of_Z 1299999) r && SFltb r (f64_of_Z 1300001)) <$>
    update_rate (update_rate ∅ "P" (f64_of_Z 1000000)) "P" (f64_of_Z 2000000) !! "P"%string = Some true.
Proof. vm_compute. reflexivity. Qed.

(** * The scheduler's decisions are sound *)
Local Open Scope Z_scope.

Lemma elem_of_providers {A} piece sender relay (peers : list (string * A * bytes)) ok id addr :
  (id, addr) ∈ providers_for_piece piece sender relay peers ok ↔
  ok id = true ∧
    (sender = Some (id, addr) ∨
     (∃ on_relay, relay = Some ((id, addr), on_relay) ∧ wrap_u32 (Z.of_nat piece) ∈ on_relay) ∨
     ∃ bf, (id, addr, bf) ∈ peers ∧ bitfield_has bf piece = true).
Proof.
  unfold providers_for_piece. rewrite !elem_of_app, list_elem_of_fmap. split.
  - intros [Hs|[Hr|([[i a] bf] & [= -> ->] & [[Hb Hok]%andb_true_iff Hin]%list_elem_of_filter)]].
    + destruct sender as [[i a]|]; [|by apply elem_of_nil in Hs].
      destruct (ok i) eqn:Ei; [|by apply elem_of_nil in Hs].
      apply list_elem_of_singleton in Hs as [= <- <-]. auto.
    + destruct relay as [[[i a] rel]|]; [|by apply elem_of_nil in Hr].
      destruct (bool_decide _ && ok i) eqn:Ei; [|by apply elem_of_nil in Hr].
      apply andb_true_iff in Ei as [Hin%bool_decide_eq_true Hok].
      apply list_elem_of_singleton in Hr as [= <- <-]. eauto 7.
    + cbn in Hb, Hok. eauto 7.
  - intros [Hok [->|[(rel & -> & Hin)|(bf & Hin & Hb)]]].
    + left. rewrite Hok. by apply list_elem_of_singleton.
    + right; left. rewrite bool_decide_true, Hok by done. by apply list_elem_of_singleton.
    + right; right. exists (id, addr, bf). split; [done|]. apply list_elem_of_filter. cbn. by rewrite Hb, Hok.
Qed.

(** A piece's providers are exactly the eligible sources that hold it — the origin
    while it is live, the relay for what it keeps, each peer for what it announced —
    so while the origin is live and neither banned nor cooling down no piece is
    without one, and the origin comes first. *)
Theorem providers_exact {A} piece sender relay (peers : list (string * A * bytes)) banned cooldown now :
  let ok id := is_eligible id banned cooldown now in
  let provs := providers_for_piece piece sender relay peers ok in
  (∀ id addr, (id, addr) ∈ provs ↔
    id ∉ banned ∧ (∀ t, cooldown !! id = Some t → t <= now) ∧
      (sender = Some (id, addr) ∨
       (∃ on_relay, relay = Some ((id, addr), on_relay) ∧ wrap_u32 (Z.of_nat piece) ∈ on_relay) ∨
       ∃ bf, (id, addr, bf) ∈ peers ∧ bitfield_has bf piece = true)) ∧
  ∀ id addr, sender = Some (id, addr) → ok id = true → head provs = Some (id, addr).
Proof.
  cbn zeta. split.
  - intros id addr. rewrite elem_of_providers. unfold is_eligible.
    rewrite andb_true_iff, negb_true_iff, bool_decide_eq_false.
    assert (match cooldown !! id with Some t => t <=? now | None => true end = true ↔
      ∀ t, cooldown !! id = Some t → t <= now) as ->; [|tauto].
    destruct (cooldown !! id) as [t|].
    + rewrite Z.leb_le. split; [by intros ? ? [= <-]|auto].
    + split; [by intros _ ?|done].
  - intros id addr -> Hok. unfold providers_for_piece. by rewrite Hok.
Qed.

(** ** Choosing the piece *)

Lemma foldl_min_spec {P} (cs : list (nat * list P)) n :
  let m := foldl (fun n c => Nat.min n (length c.2)) n cs in
  (m ≤ n)%nat ∧ (∀ c, c ∈ cs → (m ≤ length c.2)%nat) ∧ (m = n ∨ ∃ c, c ∈ cs ∧ length c.2 = m).
Proof.
  cbn zeta. revert n. induction cs as [|c cs IH]; intros n; cbn; [split_and!; [lia|by intros ? ?%elem_of_nil|by left]|].
  destruct (IH (Nat.min n (length c.2))) as (H1 & H2 & H3). split_and!.
  - lia.
  - intros d [->|Hd]%elem_of_cons; [lia|auto].
  - destruct H3 as [H3|(d & Hd & Hl)].
    + destruct (Nat.min_spec n (length c.2)) as [[? E]|[? E]]; rewrite E in H3 |- *; [by left|].
      right. exists c. split; [set_solver|done].
    + right. exists d. split; [set_solver|done].
Qed.

Lemma rarest_set_spec {P} (cands : list (nat * list P)) c :
  c ∈ rarest_set cands ↔ c ∈ cands ∧ ∀ d, d ∈ cands → (length c.2 ≤ length d.2)%nat.
Proof.
  destruct cands as [|c0 cs]; cbn [rarest_set].
  { split; [by intros ?%elem_of_nil|]. by intros [?%elem_of_nil _]. }
  rewrite list_elem_of_filter. destruct (foldl_min_spec cs (length c0.2)) as (H1 & H2 & H3).
  set (m := foldl _ _ _) in *. split.
  - intros [Hm Hin]. split; [done|]. intros d [->|Hd]%elem_of_cons; [lia|]. rewrite Hm. auto.
  - intros [Hin Hle]. split; [|done]. apply Nat.le_antisymm.
    + destruct H3 as [->|(d & Hd & <-)]; apply Hle; set_solver.
    + apply elem_of_cons in Hin as [->|Hin]; auto.
Qed.

Lemma rarest_set_nonempty {P} (cands : list (nat * list P)) : cands ≠ [] → rarest_set cands ≠ [].
Proof.
  destruct cands as [|c0 cs]; [done|]. intros _ Hnil.
  destruct (foldl_min_spec cs (length c0.2)) as (H1 & H2 & H3).
  assert (∃ c, c ∈ c0 :: cs ∧ length c.2 = foldl (fun n c => Nat.min n (length c.2)) (length c0.2) cs)
    as (c & Hin & Hc) by (destruct H3 as [H3|(d & ? & ?)]; [exists c0|exists d]; split; set_solver || done).
  assert (c ∈ rarest_set (c0 :: cs)) as Hx by (by apply list_elem_of_filter). rewrite Hnil in Hx.
  by apply elem_of_nil in Hx.
Qed.

Lemma offloadable_spec {A} origin (provs : list (string * A)) :
  offloadable origin provs = true ↔ ∃ p, p ∈ provs ∧ Some p.1 ≠ origin.
Proof.
  unfold offloadable. rewrite existsb_exists. setoid_rewrite <- list_elem_of_In.
  by setoid_rewrite negb_true_iff; setoid_rewrite bool_decide_eq_false.
Qed.

Lemma prefer_offloadable_spec {A} (cands : list (nat * list (string * A))) origin busy :
  let out := prefer_offloadable cands origin busy in
  (∀ c, c ∈ out → c ∈ cands) ∧ (cands ≠ [] → out ≠ []) ∧
  (busy = false → out = cands) ∧
  (busy = true → (∃ c, c ∈ cands ∧ offloadable origin c.2 = true) →
    ∀ c, c ∈ out ↔ c ∈ cands ∧ offloadable origin c.2 = true).
Proof.
  unfold prefer_offloadable. destruct busy; cbn [negb]; [|split_and!; done].
  destruct (existsb _ cands) eqn:E.
  - apply existsb_exists in E as (c & Hin%list_elem_of_In & Hc). split_and!; [|intros _ Hnil|done|].
    + intros d [_ ?]%list_elem_of_filter. done.
    + assert (c ∈ filter (fun c => offloadable origin c.2 = true) cands) as Hx by (by apply list_elem_of_filter).
      rewrite Hnil in Hx. by apply elem_of_nil in Hx.
    + intros _ _ d. rewrite list_elem_of_filter. tauto.
  - split_and!; [done|done|done|]. intros _ (c & Hin & Hc).
    assert (existsb (fun c => offloadable origin c.2) cands = true) as Hx
      by (apply existsb_exists; exists c; by rewrite <- list_elem_of_In). congruence.
Qed.

(** Narrowing never starves the download nor invents a piece: from any candidates
    there is something left, all of it among them and among the rarest that were
    considered. While a request to the origin is outstanding, a piece only the origin
    holds is taken only when nobody else could serve any of the candidates. *)
Theorem narrowing_sound {A} (cands : list (nat * list (string * A))) origin busy :
  let narrowed := rarest_set (prefer_offloadable cands origin busy) in
  (cands ≠ [] → narrowed ≠ []) ∧
  (∀ c, c ∈ narrowed → c ∈ cands ∧
    (∀ d, d ∈ cands → (busy = true → offloadable origin d.2 = true) → (length c.2 ≤ length d.2)%nat) ∧
    (busy = true → (∃ d, d ∈ cands ∧ offloadable origin d.2 = true) → offloadable origin c.2 = true)).
Proof.
  cbn zeta. destruct (prefer_offloadable_spec cands origin busy) as (Hsub & Hne & Hidle & Hbusy). split.
  - intros H. by apply rarest_set_nonempty, Hne.
  - intros c [Hin Hmin]%rarest_set_spec. split_and!; [auto| |].
    + intros d Hd Hoff. apply Hmin. destruct busy; [|by rewrite Hidle].
      apply Hbusy; [done| |]; [exists d|]; auto.
    + intros Hb Hex. by apply (Hbusy Hb Hex).
Qed.

(** ** Choosing the provider *)

Lemma f64_key_inj x y : f64_key x = f64_key y → x = y.
Proof. destruct x as [[]|[]| |[]], y as [[]|[]| |[]]; cbn; intros [=]; subst; done || (f_equal; lia). Qed.

#[export] Instance total_cmp_order : CmpOrder total_cmp.
Proof.
  split.
  - intros x y. unfold total_cmp. rewrite (cmp_eq (cmp := pair_cmp _ _)). split; [apply f64_key_inj|by intros ->].
  - intros x y. apply (cmp_flip (cmp := pair_cmp _ _)).
  - intros x y z. apply (cmp_trans (cmp := pair_cmp _ _)).
Qed.

(** Candidates compared through a key are ordered by it. *)
Definition candidate_key {A} (prior : f64) (c : Candidate A) : f64 * bytes :=
  (cost c prior, bytes_of c.(cd_id)).
Lemma candidate_cmp_key {A} prior (a b : Candidate A) :
  candidate_cmp prior a b = pair_cmp total_cmp bytes_cmp (candidate_key prior a) (candidate_key prior b).
Proof. done. Qed.

Section min_by.
Context {B K : Type} (key : B → K) (cmp : K → K → comparison) `{!CmpOrder cmp}.

(** The least, before everything of the list. *)
Lemma min_by_spec (l : list B) :
  match min_by (fun a b => cmp (key a) (key b)) l with
  | Some c => c ∈ l ∧ ∀ d, d ∈ l → cmp_geb cmp (key d) (key c) = true
  | None => l = []
  end.
Proof.
  destruct l as [|x l]; [done|]. cbn [min_by]. revert x. induction l as [|y l IH]; intros x; cbn [foldl].
  - split; [set_solver|]. intros d ->%list_elem_of_singleton. by apply cmp_geb_refl.
  - set (x' := match cmp (key x) (key y) with Gt => y | _ => x end).
    assert (x' ∈ [x; y] ∧ cmp_geb cmp (key x) (key x') = true ∧ cmp_geb cmp (key y) (key x') = true)
      as (Hin & Hx & Hy).
    { pose proof (cmp_flip (cmp := cmp) (key x) (key y)) as Hf. unfold x', cmp_geb.
      destruct (cmp (key x) (key y)) eqn:E; rewrite ?Hf, ?E, ?(cmp_refl (cmp := cmp)); set_solver. }
    clearbody x'. destruct (IH x') as [H1 H2]. split; [set_solver|].
    pose proof (H2 x' ltac:(set_solver)) as Hx'.
    assert (∀ d, d ∈ l → cmp_geb cmp (key d) (key (foldl (λ x y, match cmp (key x) (key y) with Gt => y | _ => x end) x' l)) = true)
      by (intros; apply H2; set_solver).
    intros d [->|[->|Hd]%elem_of_cons]%elem_of_cons; [| |auto]; eapply cmp_geb_trans; eauto.
Qed.

(** Which is the same for every order of the list, when keys are not shared. *)
Lemma min_by_order (l l' : list B) :
  l ≡ₚ l' → NoDup (key <$> l) →
  min_by (fun a b => cmp (key a) (key b)) l = min_by (fun a b => cmp (key a) (key b)) l'.
Proof.
  intros Hp Hnd. pose proof (min_by_spec l) as H1. pose proof (min_by_spec l') as H2.
  destruct (min_by _ l) as [c|], (min_by _ l') as [c'|].
  - destruct H1 as [Hc1 Hm1], H2 as [Hc2 Hm2]. f_equal.
    assert (key c = key c') as Hk.
    { apply cmp_geb_antisym; [apply Hm2; by rewrite <- Hp|apply Hm1; by rewrite Hp]. }
    rewrite <- Hp in Hc2. apply list_elem_of_lookup in Hc1 as [i Hi], Hc2 as [j Hj].
    assert (i = j) as ->; [|congruence]. apply (NoDup_lookup _ i j (key c) Hnd); rewrite list_lookup_fmap.
    + by rewrite Hi. + rewrite Hj, Hk. done.
  - subst l'. apply Permutation_nil_r in Hp. subst l. set_solver.
  - subst l. apply Permutation_nil_l in Hp. subst l'. set_solver.
  - done.
Qed.
End min_by.

(** The best known rate does not depend on the order either: on positive rates
    [f64::max] is the greater of the two in the total order. *)
Lemma f64_max_positive x y :
  SFltb f64_zero x = true → SFltb f64_zero y = true →
  f64_max x y = match total_cmp x y with Lt => y | _ => x end ∧ SFltb f64_zero (f64_max x y) = true.
Proof.
  assert (∀ x, SFltb f64_zero x = true → x = S754_infinity false ∨ ∃ m e, x = S754_finite false m e) as Hpos.
  { intros [[]|[]| |[] m e]; cbn; try discriminate; eauto. }
  intros Hx Hy. pose proof Hx as Hx0. pose proof Hy as Hy0.
  apply Hpos in Hx as [->|(m & e & ->)], Hy as [->|(n & f & ->)]; try done.
  unfold f64_max, total_cmp, SFltb. cbn [f64_is_nan f64_key SFcompare pair_cmp fst snd].
  unfold pair_cmp, then_with. cbn [fst snd Z.compare]. change (Pos.compare_cont Eq m n) with (m ?= n)%positive.
  destruct (e ?= f) eqn:E; [|done|done]. destruct (m ?= n)%positive eqn:Em; done.
Qed.

(** [prior_rate] is a function of the rates, whatever their order. *)
Lemma fold_max_order (rs rs' : list f64) :
  rs ≡ₚ rs' → Forall (fun r => SFltb f64_zero r = true) rs →
  foldl f64_max S754_nan rs = foldl f64_max S754_nan rs'.
Proof.
  assert (∀ l x, SFltb f64_zero x = true → Forall (fun r => SFltb f64_zero r = true) l →
    let m := foldl f64_max x l in m ∈ x :: l ∧ ∀ y, y ∈ x :: l → cmp_geb total_cmp m y = true) as Hmax.
  { induction l as [|y l IH]; intros x Hx Hl; cbn [foldl].
    - split; [set_solver|]. intros z ->%list_elem_of_singleton. apply cmp_geb_refl.
    - apply Forall_cons in Hl as [Hy Hl]. destruct (f64_max_positive x y Hx Hy) as [Hm Hp].
      destruct (IH _ Hp Hl) as [H1 H2].
      assert (f64_max x y ∈ [x; y] ∧ cmp_geb total_cmp (f64_max x y) x = true ∧
        cmp_geb total_cmp (f64_max x y) y = true) as (Hin & Hgx & Hgy).
      { pose proof (cmp_flip (cmp := total_cmp) x y) as Hf. rewrite Hm. unfold cmp_geb.
        destruct (total_cmp x y) eqn:E; rewrite ?Hf, ?E, ?(cmp_refl (cmp := total_cmp)); set_solver. }
      clear Hm Hp IH. revert H1 H2 Hin Hgx Hgy. generalize (foldl f64_max (f64_max x y) l) as m.
      generalize (f64_max x y) as w. intros w m H1 H2 Hin Hgx Hgy. split; [set_solver|].
      pose proof (H2 w ltac:(set_solver)) as Hw.
      intros z [->|[->|Hz]%elem_of_cons]%elem_of_cons; [| |apply H2; set_solver];
        eapply cmp_geb_trans; eauto. }
  intros Hp Hall. destruct rs as [|x l]; [by apply Permutation_nil_l in Hp as ->|].
  destruct rs' as [|x' l']; [by apply Permutation_nil_r in Hp|]. cbn [foldl].
  change (f64_max S754_nan x) with x. change (f64_max S754_nan x') with x'.
  assert (Forall (fun r => SFltb f64_zero r = true) (x' :: l')) as Hall' by (by rewrite <- Hp).
  apply Forall_cons in Hall as [Hx Hl], Hall' as [Hx' Hl'].
  destruct (Hmax l x Hx Hl) as [H1 H2], (Hmax l' x' Hx' Hl') as [H3 H4].
  apply (cmp_geb_antisym (cmp := total_cmp)); [apply H2; by rewrite Hp|apply H4; by rewrite <- Hp].
Qed.

Lemma prior_rate_order {A} (cs cs' : list (Candidate A)) : cs ≡ₚ cs' → prior_rate cs = prior_rate cs'.
Proof.
  intros Hp. unfold prior_rate. erewrite fold_max_order; [done|by apply omap_Permutation|].
  apply Forall_forall. intros r (c & _ & Hr)%list_elem_of_omap. unfold positive_rate in Hr.
  destruct (cd_rate_bps c) as [r'|]; [|done]. destruct (SFltb f64_zero r') eqn:E; [|done]. by injection Hr as <-.
Qed.

(** The provider chosen is one of the candidates, none of them would serve the
    piece sooner by the estimate, and the choice depends neither on the order in which
    the candidates are listed nor on anything else; only no candidates give none. *)
Theorem choice_is_least {A} (cs : list (Candidate A)) :
  match choose_provider cs with
  | Some c => c ∈ cs ∧ ∀ d, d ∈ cs → cmp_geb total_cmp (cost d (prior_rate cs)) (cost c (prior_rate cs)) = true
  | None => cs = []
  end ∧
  ∀ cs', cs ≡ₚ cs' → NoDup (cd_id <$> cs) → choose_provider cs = choose_provider cs'.
Proof.
  split.
  - pose proof (min_by_spec (candidate_key (prior_rate cs)) (pair_cmp total_cmp bytes_cmp) cs) as H.
    unfold choose_provider. change (candidate_cmp (prior_rate cs)) with (fun a b : Candidate A =>
      pair_cmp total_cmp bytes_cmp (candidate_key (prior_rate cs) a) (candidate_key (prior_rate cs) b)).
    destruct (min_by _ cs) as [c|]; [|done]. destruct H as [Hin Hmin]. split; [done|].
    intros d Hd. specialize (Hmin d Hd). unfold cmp_geb, pair_cmp, then_with, candidate_key in *. cbn [fst snd] in *.
    destruct (total_cmp _ _); done.
  - intros cs' Hp Hnd. unfold choose_provider. rewrite (prior_rate_order _ _ Hp).
    apply (min_by_order (candidate_key (prior_rate cs')) (pair_cmp total_cmp bytes_cmp)); [done|].
    apply (NoDup_fmap_1 (snd : f64 * bytes → bytes)). rewrite <- list_fmap_compose.
    change (snd ∘ candidate_key (prior_rate cs')) with (bytes_of ∘ cd_id (A := A)).
    rewrite list_fmap_compose. apply NoDup_fmap_2; [|done].
    intros x y H. by rewrite <- (string_of_bytes_of x), H, string_of_bytes_of.
Qed.
