(* ===== verification/Chunked.v ===== *)
(** * Serving and fetching chunks ([core/src/chunked.rs])

    A file is announced as the hashes of its sealed chunks. A server makes a chunk's
    ciphertext when asked for its hash: from the file (the sender), from its own copy
    of it (a receiver that seeds), or from stored ciphertext (the relay). A fetch
    verifies the hash before a byte of it counts. The connection is what it yields:
    the length announced, then pieces of the body, silence, an error. *)
From Stdlib Require Import SpecFloat.
From S2P Require Import Prelude.
From S2P Require Import Text.
From S2P Require Import ChunkCipher.
From S2P Require Import SyncTypes.
From S2P Require Import Store.
From S2P Require Import SealedLayout.
From S2P Require Import Seeds.
From S2P Require Import Swarm.
From S2P Require Import Schedule.
Local Open Scope Z_scope.
Local Open Scope arvolo_scope.

Definition MAX_CHUNK_CT : Z := CHUNK_SIZE + 16.
Definition CHUNK_MIN_RATE_BYTES_PER_SEC : Z := 1024.
Definition MIN_RATE_GRACE_SECS : Z := 30.

Section chunked.
Context `{!Blake3Hash, !HexLower, !Aes256Gcm}.

(** ** The hashing pass *)

Record PreparedChunks := mkPreparedChunks {
  pc_total_size : Z;
  pc_total_chunks : Z;
  pc_chunks : list Hash;
  pc_index : gmap Hash Z }.

(** The chunks the reader hands out, numbered; [n] bounds how many there are. *)
Fixpoint chunk_jobs (n : nat) (idx : Z) (data : bytes) : list (Z * bytes) :=
  match n, data with
  | S n, _ :: _ => (idx, take (Z.to_nat CHUNK_SIZE) data)
      :: chunk_jobs n (idx + 1) (drop (Z.to_nat CHUNK_SIZE) data)
  | _, _ => []
  end.

(** What a worker answers for a chunk. *)
Definition seal_job (key : bytes) (total_chunks : Z) (job : Z * bytes) : result (Z * Hash) string :=
  try! ct := seal_chunk key (Z.to_N job.1) (Z.to_N total_chunks) job.2 in
  Ok (job.1, blake3_hash ct).

(** [hashes.resize(i + 1, None); hashes[i] = Some(hash)]. *)
Definition place (hashes : list (option Hash)) (i : nat) (h : Hash) : list (option Hash) :=
  <[i := Some h]> (hashes ++ replicate (S i - length hashes) None).

(** The collecting loop, over the answers in the order they arrive. *)
Fixpoint collect_digests (got : list (result (Z * Hash) string)) (hashes : list (option Hash))
    : result (list (option Hash)) string :=
  match got with
  | [] => Ok hashes
  | r :: got => try! (idx, h) := r in collect_digests got (place hashes (Z.to_nat idx) h)
  end.

Definition index_chunks (chunks : list Hash) : gmap Hash Z :=
  foldl (fun index p => <[p.2 := Z.of_nat p.1]> index) ∅ (imap pair chunks).

(** [PreparedChunks::compute] of a source of [total_size] bytes that reads as [data];
    [arrival] is the order in which the workers answer. *)
Definition compute (key : bytes) (total_size : Z) (data : bytes)
    (arrival : list (result (Z * Hash) string) → list (result (Z * Hash) string))
    : result PreparedChunks string :=
  let total_chunks := wrap_u32 (div_ceil total_size CHUNK_SIZE) in
  let done := seal_job key total_chunks <$> chunk_jobs (length data) 0 data in
  try! hashes := collect_digests (arrival done) [] in
  try! chunks := context "a chunk went missing while hashing" (mapM id hashes) in
  Ok (mkPreparedChunks total_size total_chunks chunks (index_chunks chunks)).

(** [PreparedChunks::from_digests]. *)
Definition from_digests (total_size : Z) (chunks : list Hash) : result PreparedChunks string :=
  let total_chunks := wrap_u32 (div_ceil total_size CHUNK_SIZE) in
  if negb (total_chunks =? Z.of_nat (length chunks)) then Err "digests do not describe the payload"
  else Ok (mkPreparedChunks total_size total_chunks chunks (index_chunks chunks)).

(** ** Making a chunk *)

(** [ChunkBackend]: the path or source is what reads at that moment, an argument of
    [produce]. *)
Inductive ChunkBackend :=
  | OnTheFly (key : bytes) (index : gmap Hash Z) (total_chunks : Z)
  | Files
  | Reseal (key : bytes) (index : gmap Hash Z) (total_chunks : Z) (have : bytes).

(** Sealing the chunk at its place in what the file reads as now. *)
Definition reseal_at (key : bytes) (total_chunks idx : Z) (file : option bytes) : option bytes :=
  buf ← read_at_full file CHUNK_SIZE (idx * CHUNK_SIZE);
  result_ok (seal_chunk key (Z.to_N idx) (Z.to_N total_chunks) buf).

(** [ChunkBackend::produce]. *)
Definition produce (backend : ChunkBackend) (file : option bytes) (dir : ChunkStore) (hash : Hash)
    : option bytes :=
  match backend with
  | OnTheFly key index total_chunks =>
      idx ← index !! hash; reseal_at key total_chunks idx file
  | Files => f_bytes <$> dir !! chunk_path hash
  | Reseal key index total_chunks have =>
      idx ← index !! hash;
      if bitfield_has have (Z.to_nat idx) then reseal_at key total_chunks idx file else None
  end.

Record ChunkReq := mkChunkReq { cq_hash : Hash; cq_offset : Z }.

(** One request of [ChunkServer::accept]: the length in the response header, and the
    body sent after it. *)
Definition answer_request (backend : ChunkBackend) (file : option bytes) (dir : ChunkStore)
    (req : ChunkReq) : Z * bytes :=
  match produce backend file dir req.(cq_hash) with
  | Some ct => (Z.of_nat (length ct),
      drop (Z.to_nat (Z.min req.(cq_offset) (Z.of_nat (length ct)))) ct)
  | None => (0, [])
  end.

(** ** Reading a body *)

(** A [Duration]. *)
Record Duration := mkDuration { du_secs : Z; du_nanos : Z }.
Definition as_secs_f64 (d : Duration) : f64 :=
  f64_add (f64_of_Z d.(du_secs)) (f64_div (f64_of_Z d.(du_nanos)) (f64_of_Z 1000000000)).
Definition duration_geb (d e : Duration) : bool :=
  (e.(du_secs) <? d.(du_secs)) || ((e.(du_secs) =? d.(du_secs)) && (e.(du_nanos) <=? d.(du_nanos))).

(** What one bounded read yields: bytes and the time since the start, the end of the
    stream, an error, or nothing for the stall bound. *)
Inductive ReadEvent :=
  | RGot (piece : bytes) (elapsed : Duration)
  | REnd
  | RError
  | RStalled.

(** [read_body_or_stall]: the bytes read once [want] of them are there. A stream that
    yields no further event is one that stays silent. *)
Fixpoint read_body_or_stall (want : Z) (floor : Z) (grace : Duration) (events : list ReadEvent)
    (buf : bytes) : result bytes string :=
  if want <=? Z.of_nat (length buf) then Ok buf
  else
    match events with
    | RGot piece elapsed :: events =>
        let piece := take (Z.to_nat (want - Z.of_nat (length buf))) piece in
        if (length piece =? 0)%nat then Err "ended early"
        else
          let buf := buf ++ piece in
          if (0 <? floor) && duration_geb elapsed grace
             && SFltb (f64_div (f64_of_Z (Z.of_nat (length buf))) (as_secs_f64 elapsed)) (f64_of_Z floor)
          then Err "a trickle is not a working provider"
          else read_body_or_stall want floor grace events buf
    | REnd :: _ => Err "ended early"
    | RError :: _ => Err "read chunk body"
    | RStalled :: _ | [] => Err "nothing for the stall bound"
    end.

(** ** Fetching *)

(** What reaching a provider comes to: nothing in time, an error, or a response header
    and the body after it. *)
Inductive WireAnswer :=
  | WTimeout
  | WError
  | WHeader (total_len : Z) (body : list ReadEvent).

(** [request_chunk_on], the header checks. *)
Definition open_stream (answer : WireAnswer) : result (Z * list ReadEvent) string :=
  match answer with
  | WTimeout => Err "could not reach the chunk provider"
  | WError => Err "connect chunk provider"
  | WHeader total_len body =>
      if total_len =? 0 then Err "chunk not available from this provider"
      else if negb (total_len <=? MAX_CHUNK_CT) then Err "provider claims oversized chunk"
      else Ok (total_len, body)
  end.

(** [ChunkReceiver::fetch_one]: what it leaves in the staging file, and who is banned. *)
Definition fetch_one (id : string) (hash : Hash) (answer : WireAnswer) (floor : Z)
    (banned : gset string) : result bytes string * gset string :=
  match open_stream answer with
  | Err e => (Err e, banned)
  | Ok (total_len, body) =>
      match read_body_or_stall total_len floor (mkDuration MIN_RATE_GRACE_SECS 0) body [] with
      | Err e => (Err e, banned)
      | Ok buf =>
          if negb (bool_decide (blake3_hash buf = hash))
          then (Err "failed integrity check", {[id]} ∪ banned)
          else (Ok buf, banned)
      end
  end.

(** [fetch_chunk_wire]: the length announced and the bytes from [offset] on. *)
Definition fetch_chunk_wire (answer : WireAnswer) (offset floor : Z) : result (Z * bytes) string :=
  try! (total_len, body) := open_stream answer in
  try! buf := read_body_or_stall (Z.max 0 (total_len - offset)) floor
                (mkDuration MIN_RATE_GRACE_SECS 0) body [] in
  Ok (total_len, buf).

(** [ChunkReceiver::fetch_from]: the race over the answers in the order they come in. *)
Fixpoint fetch_from (hash : Hash) (prefix : bytes) (floor : Z) (answers : list WireAnswer)
    (last_err : string) : result (bytes * bytes) string :=
  match answers with
  | [] => Err last_err
  | a :: answers =>
      match fetch_chunk_wire a (Z.of_nat (length prefix)) floor with
      | Err e => fetch_from hash prefix floor answers e
      | Ok (total_len, tail) =>
          let ct := prefix ++ tail in
          if negb (Z.of_nat (length ct) =? total_len) || negb (bool_decide (blake3_hash ct = hash))
          then fetch_from hash prefix floor answers "failed integrity check"
          else Ok (ct, tail)
      end
  end.
End chunked.
