(* ===== verification/ChunkedFacts.v ===== *)
(** * Every chunk of a ticket can be served and is checked *)
From Stdlib Require Import SpecFloat.
From S2P Require Import Prelude.
From S2P Require Import Text.
From S2P Require Import ChunkCipher.
From S2P Require Import SyncTypes.
From S2P Require Import Store.
From S2P Require Import SealedLayout.
From S2P Require Import Seeds.
From S2P Require Import Swarm.
From S2P Require Import Schedule.
From S2P Require Import Chunked.
Local Open Scope Z_scope.

Section facts.
Context `{!Blake3Hash, !HexLower, !Aes256Gcm, !Aes256GcmLaws}.

(** ** The hashing pass is the sequential one *)

(** The digests computed one chunk after the other. *)
Fixpoint digests (key : bytes) (total_chunks : Z) (jobs : list (Z * bytes)) : result (list Hash) string :=
  match jobs with
  | [] => Ok []
  | job :: jobs =>
      match seal_job key total_chunks job with
      | Err e => Err e
      | Ok (_, h) => match digests key total_chunks jobs with Ok hs => Ok (h :: hs) | Err e => Err e end
      end
  end.

Lemma length_place hashes i h : length (place hashes i h) = Nat.max (length hashes) (S i).
Proof. unfold place. rewrite length_insert, length_app, length_replicate. lia. Qed.

Lemma lookup_place hashes i h j :
  place hashes i h !! j =
    if decide (j = i) then Some (Some h)
    else if decide (j < Nat.max (length hashes) (S i))%nat then Some (default None (hashes !! j)) else None.
Proof.
  unfold place. destruct (decide (j = i)) as [->|Hne].
  { rewrite list_lookup_insert_eq; [done|]. rewrite length_app, length_replicate. lia. }
  rewrite list_lookup_insert_ne by done. destruct (decide (j < length hashes)%nat) as [Hl|Hl].
  - rewrite lookup_app_l by done. rewrite decide_True by lia.
    by apply lookup_lt_is_Some in Hl as [x ->].
  - rewrite lookup_app_r by lia. rewrite (lookup_ge_None_2 hashes j) by lia. destruct (decide _).
    + by rewrite lookup_replicate_2 by lia.
    + apply lookup_ge_None. rewrite length_replicate. lia.
Qed.

(** The collecting loop, whatever the order: every answer in its place. *)
Lemma collect_digests_spec (got : list (Z * Hash)) hashes :
  (∀ i h, (i, h) ∈ got → 0 <= i) → NoDup got.*1 →
  ∃ out, collect_digests (Ok <$> got) hashes = Ok out ∧
    (∀ j, (length out ≤ j)%nat ↔ (length hashes ≤ j)%nat ∧ ∀ i h, (i, h) ∈ got → (Z.to_nat i < j)%nat) ∧
    ∀ j : nat, (j < length out)%nat → out !! j =
      Some (match list_to_map (M := gmap Z Hash) got !! Z.of_nat j with
            | Some h => Some h | None => default None (hashes !! j) end).
Proof.
  revert hashes. induction got as [|[i h] got IH]; intros hashes Hpos Hnd; cbn [fmap list_fmap collect_digests].
  - exists hashes. split; [done|]. split.
    + intros j. split; [|tauto]. intros Hj. split; [done|]. by intros i h ?%elem_of_nil.
    + intros j Hj. cbn. rewrite lookup_empty. by apply lookup_lt_is_Some in Hj as [x ->].
  - cbn [fmap list_fmap fst] in Hnd. apply NoDup_cons in Hnd as [Hni Hnd]. cbn [result_bind].
    assert (0 <= i) as Hi by (apply (Hpos i h); set_solver).
    destruct (IH (place hashes (Z.to_nat i) h)) as (out & Ho & Hlen & Hl); [set_solver|done|].
    exists out. split; [done|]. rewrite length_place in Hlen. split.
    + intros j. rewrite Hlen. split.
      * intros [Hj Hall]. split; [lia|]. intros i' h' [[= -> ->]|Hin]%elem_of_cons; [lia|]. by eapply Hall.
      * intros [Hj Hall]. pose proof (Hall i h ltac:(set_solver)). split; [lia|]. set_solver.
    + intros j Hj. rewrite Hl by done. f_equal. cbn [list_to_map foldr]. rewrite lookup_insert.
      change (foldr _ _ _) with (list_to_map (M := gmap Z Hash) got).
      rewrite lookup_place. destruct (decide (j = Z.to_nat i)) as [->|Hne].
      * rewrite Z2Nat.id, decide_True by done.
        rewrite (not_elem_of_list_to_map_1 (M := gmap Z)) by done. done.
      * rewrite (decide_False (P := i = Z.of_nat j)) by lia.
        destruct (list_to_map _ !! _); [done|]. destruct (decide (j < _)%nat); [done|].
        rewrite (lookup_ge_None_2 hashes j); [done|lia].
Qed.

Lemma collect_digests_err got hashes :
  (∃ e, Err e ∈ got) → ∃ e, collect_digests got hashes = Err e.
Proof.
  revert hashes. induction got as [|r got IH]; intros hashes (e & He); [by apply elem_of_nil in He|].
  cbn. destruct r as [[i h]|e']; cbn [result_bind]; [|by exists e'].
  apply IH. exists e. by apply elem_of_cons in He as [?|?].
Qed.

Lemma chunk_jobs_fst n idx data :
  (chunk_jobs n idx data).*1 = (fun k => idx + Z.of_nat k) <$> seq 0 (length (chunk_jobs n idx data)).
Proof.
  revert idx data. induction n as [|n IH]; intros idx [|b data]; [done..|].
  cbn [chunk_jobs fmap list_fmap length seq fst]. f_equal; [lia|].
  rewrite <- fmap_S_seq, <- list_fmap_compose. etrans; [apply IH|]. apply list_fmap_ext. intros k x _. cbn. lia.
Qed.

(** What the workers answer, when every chunk seals. *)
Lemma digests_answers key total jobs :
  match digests key total jobs with
  | Ok hs => seal_job key total <$> jobs = Ok <$> zip jobs.*1 hs ∧ length hs = length jobs
  | Err _ => ∃ e, Err e ∈ seal_job key total <$> jobs
  end.
Proof.
  induction jobs as [|[i buf] jobs IH]; [done|]. cbn [digests fmap list_fmap].
  destruct (seal_job key total (i, buf)) as [[j h]|e] eqn:E; [|exists e; set_solver].
  assert (j = i) as ->.
  { unfold seal_job in E. destruct (seal_chunk _ _ _ _); [|done]. cbn in E. by injection E. }
  destruct (digests key total jobs) as [hs|e].
  - destruct IH as [IH Hl]. split; [|by cbn; f_equal]. cbn [fst zip zip_with fmap list_fmap]. f_equal. exact IH.
  - destruct IH as [e' He]. exists e'. set_solver.
Qed.

Lemma mapM_id_Some {A} (l : list A) : mapM id (Some <$> l) = Some l.
Proof. induction l as [|x l IH]; [done|]. cbn [fmap list_fmap mapM]. cbn. change (list_fmap _ _ Some l) with (Some <$> l). by rewrite IH. Qed.

Lemma collect_in_order idxs hs got :
  idxs = Z.of_nat <$> seq 0 (length hs) → got ≡ₚ zip idxs hs →
  collect_digests (Ok <$> got) [] = Ok (Some <$> hs).
Proof.
  intros -> Hp. set (idxs := Z.of_nat <$> seq 0 (length hs)) in *.
  assert (length idxs = length hs) as Hlen by (unfold idxs; by rewrite length_fmap, length_seq).
  assert (NoDup (zip idxs hs).*1) as Hnd.
  { rewrite fst_zip by lia. apply NoDup_fmap_2; [intros ???; lia|apply NoDup_seq]. }
  assert (∀ i h, (i, h) ∈ zip idxs hs ↔ ∃ k, i = Z.of_nat k ∧ hs !! k = Some h) as Hin.
  { intros i h. rewrite list_elem_of_lookup. setoid_rewrite lookup_zip_with_Some. split.
    - intros (k & a & b & [= <- <-] & Ha & Hb). unfold idxs in Ha. rewrite list_lookup_fmap in Ha.
      apply fmap_Some in Ha as (m & [-> _]%lookup_seq & ->). eauto.
    - intros (k & -> & Hk). exists k, (Z.of_nat k), h. split; [done|]. split; [|done].
      unfold idxs. rewrite list_lookup_fmap, lookup_seq_lt by (by eapply lookup_lt_Some). done. }
  destruct (collect_digests_spec got []) as (out & -> & Hl & Ho).
  { intros i h Hg. rewrite Hp in Hg. apply Hin in Hg as (k & -> & _). lia. }
  { by rewrite Hp. }
  f_equal. apply list_eq. intros j. rewrite list_lookup_fmap.
  destruct (hs !! j) as [h|] eqn:Ej.
  - assert (j < length out)%nat as Hj.
    { destruct (Nat.lt_ge_cases j (length out)) as [?|Hge]; [done|]. apply Hl in Hge as [_ Hge].
      specialize (Hge (Z.of_nat j) h). rewrite Hp in Hge. specialize (Hge ltac:(apply Hin; eauto)). lia. }
    rewrite Ho by done. cbn [fmap option_fmap option_map]. do 2 f_equal.
    rewrite (proj1 (elem_of_list_to_map (M := gmap Z) got (Z.of_nat j) h ltac:(by rewrite Hp))); [done|].
    rewrite Hp. apply Hin. eauto.
  - apply lookup_ge_None. apply Hl. split; [cbn; lia|]. intros i h Hg. rewrite Hp in Hg.
    apply Hin in Hg as (k & -> & Hk). apply lookup_lt_Some in Hk. apply lookup_ge_None in Ej. lia.
Qed.

(** The parallel hashing pass is the sequential one: whatever the order in which
    the workers answer, the digests come out in file order; and it fails exactly when
    some chunk cannot be sealed. *)
Theorem compute_is_sequential key total_size data arrival :
  (∀ l, arrival l ≡ₚ l) →
  match digests key (wrap_u32 (div_ceil total_size CHUNK_SIZE)) (chunk_jobs (length data) 0 data) with
  | Ok hs => compute key total_size data arrival =
      Ok (mkPreparedChunks total_size (wrap_u32 (div_ceil total_size CHUNK_SIZE)) hs (index_chunks hs))
  | Err _ => ∃ e, compute key total_size data arrival = Err e
  end.
Proof.
  intros Harr. unfold compute. set (total := wrap_u32 _). set (jobs := chunk_jobs _ _ _).
  pose proof (digests_answers key total jobs) as Hd. destruct (digests key total jobs) as [hs|e].
  - destruct Hd as [Hd Hlen]. specialize (Harr (seal_job key total <$> jobs)). rewrite Hd in Harr at 2.
    apply Permutation_map_inv in Harr as (got & -> & Hp).
    change (map Ok got) with (Ok (E := string) <$> got).
    rewrite (collect_in_order jobs.*1 hs got); [|unfold jobs; rewrite chunk_jobs_fst|by symmetry].
    + cbn [result_bind]. by rewrite mapM_id_Some.
    + fold jobs. rewrite Hlen. apply list_fmap_ext. intros. lia.
  - destruct Hd as [e' He]. destruct (collect_digests_err (arrival (seal_job key total <$> jobs)) []) as [e2 ->].
    + exists e'. by rewrite (Harr _).
    + by exists e2.
Qed.

(** ** Serving what was announced *)

Lemma chunk_size_pos : (0 < Z.to_nat CHUNK_SIZE)%nat.
Proof. apply Nat.neq_0_lt_0. intros Hz%(f_equal Z.of_nat). by rewrite Z2Nat.id in Hz. Qed.

Lemma index_chunks_spec (hs : list Hash) :
  (∀ h idx, index_chunks hs !! h = Some idx → 0 <= idx ∧ hs !! Z.to_nat idx = Some h) ∧
  ∀ h, h ∈ hs → is_Some (index_chunks hs !! h).
Proof.
  unfold index_chunks. induction hs as [|x hs [IH1 IH2]] using rev_ind.
  { split; [intros h idx; cbn; by rewrite lookup_empty|by intros h ?%elem_of_nil]. }
  rewrite imap_app, foldl_app. cbn [imap foldl]. rewrite Nat.add_0_r. cbn [fst snd]. split.
  - intros h idx [[<- <-]|[Hne Hl]]%lookup_insert_Some.
    + split; [lia|]. rewrite Nat2Z.id. by apply list_lookup_middle.
    + destruct (IH1 _ _ Hl) as [? Hk]. split; [done|]. by apply lookup_app_l_Some.
  - intros h Hin. destruct (decide (x = h)) as [->|Hne]; [rewrite lookup_insert_eq; eauto|].
    rewrite lookup_insert_ne by done. apply IH2. set_solver.
Qed.

#[local] Opaque CHUNK_SIZE.

Lemma chunk_jobs_lookup n idx data k job :
  (length data ≤ n)%nat → chunk_jobs n idx data !! k = Some job →
  job = (idx + Z.of_nat k, take (Z.to_nat CHUNK_SIZE) (drop (k * Z.to_nat CHUNK_SIZE) data)) ∧
  (k * Z.to_nat CHUNK_SIZE < length data)%nat.
Proof.
  pose proof chunk_size_pos as Hcs. set (cs := Z.to_nat CHUNK_SIZE) in *.
  revert idx data k. induction n as [|n IH]; intros idx data k Hn Hk; [by destruct data|].
  destruct data as [|b data]; [done|]. cbn [chunk_jobs] in Hk. fold cs in Hk.
  destruct k as [|k]; cbn in Hk.
  - injection Hk as <-. rewrite drop_0, Z.add_0_r. split; [done|cbn; lia].
  - apply IH in Hk as [-> Hlt]; [|rewrite length_drop; cbn in *; lia]. rewrite length_drop in Hlt.
    rewrite drop_drop. replace (S k * cs)%nat with (cs + k * cs)%nat by lia. split; [f_equal; lia|lia].
Qed.

Lemma digests_lookup key total jobs hs k h :
  digests key total jobs = Ok hs → hs !! k = Some h →
  ∃ i buf ct, jobs !! k = Some (i, buf) ∧ seal_chunk key (Z.to_N i) (Z.to_N total) buf = Ok ct ∧ blake3_hash ct = h.
Proof.
  revert hs k. induction jobs as [|[i buf] jobs IH]; intros hs k; cbn [digests]; [by intros [= <-]|].
  unfold seal_job at 1. cbn [fst snd]. destruct (seal_chunk _ _ _ _) as [ct|] eqn:E; [|done]. cbn [result_bind].
  destruct (digests key total jobs) as [hs'|]; [|done]. intros [= <-]. destruct k as [|k]; cbn.
  - intros [= <-]. eauto 7.
  - intros Hk. by eapply IH.
Qed.

Lemma reseal_at_some key total idx file :
  0 <= idx →
  reseal_at key total idx (Some file) = result_ok (seal_chunk key (Z.to_N idx) (Z.to_N total)
    (take (Z.to_nat CHUNK_SIZE) (drop (Z.to_nat idx * Z.to_nat CHUNK_SIZE) file))).
Proof. intros Hi. unfold reseal_at. cbn [read_at_full fmap option_fmap option_map mbind option_bind]. by rewrite Z2Nat.inj_mul. Qed.

(** C33. What was announced can be served: for every hash of a prepared file the sender
    makes a ciphertext with that hash, which opens to the file's bytes at the place the
    index gives; a receiver that seeds makes the very same once the piece is marked and
    its copy has those bytes there, and nothing before; and a hash that was not
    announced gets nothing. *)
Theorem announced_is_served key total_size data arrival p dir
    (Harr : ∀ l, arrival l ≡ₚ l) (Hp : compute key total_size data arrival = Ok p) (h : Hash) :
  let cs := Z.to_nat CHUNK_SIZE in
  let sender := OnTheFly key p.(pc_index) p.(pc_total_chunks) in
  if decide (h ∈ p.(pc_chunks)) then
    ∃ idx ct, p.(pc_chunks) !! idx = Some h ∧
      produce sender (Some data) dir h = Some ct ∧ blake3_hash ct = h ∧
      open_chunk key (N.of_nat idx) (Z.to_N p.(pc_total_chunks)) ct = Ok (take cs (drop (idx * cs) data)) ∧
      ∀ file have, produce (Reseal key p.(pc_index) p.(pc_total_chunks) have) (Some file) dir h =
        if bitfield_has have idx
        then result_ok (seal_chunk key (N.of_nat idx) (Z.to_N p.(pc_total_chunks)) (take cs (drop (idx * cs) file)))
        else None
  else produce sender (Some data) dir h = None.
Proof.
  cbn zeta. pose proof (compute_is_sequential key total_size data arrival Harr) as Hc.
  destruct (digests _ _ _) as [hs|] eqn:Ed; [|destruct Hc as [e' He]; congruence].
  rewrite Hc in Hp. apply Ok_inj in Hp as <-. cbn [pc_chunks pc_index pc_total_chunks produce].
  destruct (index_chunks_spec hs) as [I1 I2]. destruct (decide (h ∈ hs)) as [Hin|Hni].
  - destruct (I2 h Hin) as [idx Hidx]. destruct (I1 h idx Hidx) as [Hpos Hk].
    destruct (digests_lookup _ _ _ _ _ _ Ed Hk) as (i & buf & ct & Hj & Hs & Hh).
    apply chunk_jobs_lookup in Hj as [[= -> ->] _]; [|done]. rewrite Z.add_0_l, Z2Nat.id in Hs by done.
    exists (Z.to_nat idx), ct. rewrite Hidx. cbn [mbind option_bind]. rewrite reseal_at_some, Hs by done.
    assert (N.of_nat (Z.to_nat idx) = Z.to_N idx) as -> by lia.
    split_and!; try done; [by eapply open_seal_chunk|]. intros file have. by rewrite reseal_at_some.
  - destruct (index_chunks hs !! h) as [idx|] eqn:E; [|done]. destruct (I1 h idx E) as [_ Hk].
    apply list_elem_of_lookup_2 in Hk. done.
Qed.

(** ** Fetching *)

(** The bytes of the events, in order. *)
Definition read_bytes (events : list ReadEvent) : bytes :=
  mjoin ((fun ev => match ev with RGot piece _ => piece | _ => [] end) <$> events).

Lemma read_bytes_got piece el events : read_bytes (RGot piece el :: events) = piece ++ read_bytes events.
Proof. done. Qed.

Lemma read_body_ok want floor grace events buf out :
  read_body_or_stall want floor grace events buf = Ok out →
  zlen out = Z.max want (zlen buf) ∧ out `prefix_of` buf ++ read_bytes events.
Proof.
  revert buf. induction events as [|ev events IH]; intros buf; cbn [read_body_or_stall];
    destruct (Z.leb_spec want (zlen buf)) as [Hge|Hlt].
  1, 3: intros <-%Ok_inj; split; [lia|by apply prefix_app_r].
  - done.
  - destruct ev as [piece el| | |]; try done. destruct (length _ =? 0)%nat; [done|].
    destruct (_ && _ && _); [done|]. intros [Hw Hp]%IH. rewrite length_app, length_take in Hw.
    rewrite read_bytes_got. split; [lia|].
    destruct (Z.le_gt_cases (zlen piece) (want - zlen buf)) as [Hfit|Hover].
    + rewrite take_ge in Hp by lia. by rewrite app_assoc.
    + assert (out = buf ++ take (Z.to_nat (want - zlen buf)) piece) as ->.
      { destruct Hp as [k Hk]. apply (app_inj_1 _ out _ k) in Hk as [-> _]; [done|].
        rewrite length_app, length_take. lia. }
      apply prefix_app. etrans; [apply prefix_take|by apply prefix_app_r].
Qed.

(** A provider that keeps sending what it announced, within the grace. *)
Definition steady (grace : Duration) (events : list ReadEvent) : Prop :=
  Forall (fun ev => match ev with RGot piece el => piece ≠ [] ∧ duration_geb el grace = false | _ => False end) events.

Lemma read_body_steady want floor grace events buf body :
  steady grace events → read_bytes events = body → zlen buf + zlen body = want →
  read_body_or_stall want floor grace events buf = Ok (buf ++ body).
Proof.
  intros Hst. revert buf body. induction Hst as [|ev events Hev Hst IH]; intros buf body Hb Hw; cbn [read_body_or_stall].
  - cbn in Hb. subst body. rewrite (proj2 (Z.leb_le _ _)) by (cbn in Hw; lia). by rewrite app_nil_r.
  - destruct ev as [piece el| | |]; try done. destruct Hev as [Hne Hel].
    rewrite read_bytes_got in Hb. subst body. rewrite length_app in Hw.
    assert (0 < length piece)%nat by (destruct piece; [done|cbn; lia]).
    rewrite (proj2 (Z.leb_gt _ _)) by lia. rewrite take_ge by lia.
    rewrite (proj2 (Nat.eqb_neq _ _)) by lia. rewrite Hel, andb_false_r. cbn [andb].
    rewrite (IH _ (read_bytes events)); [by rewrite <- app_assoc|done|]. rewrite length_app. lia.
Qed.

(** No byte of a fetch counts before the hash does: what a fetch leaves is a whole
    chunk of bounded size with the hash that was asked for, whatever the provider
    sent; only a provider whose complete answer had another hash is banned for it. *)
Theorem fetch_one_verified id hash answer floor banned :
  match fetch_one id hash answer floor banned with
  | (Ok buf, banned') => blake3_hash buf = hash ∧ zlen buf <= MAX_CHUNK_CT ∧ banned' = banned
  | (Err _, banned') => banned' = banned ∨ (banned' = {[id]} ∪ banned ∧
      ∃ total body buf, answer = WHeader total body ∧ zlen buf = Z.max total 0 ∧
        buf `prefix_of` read_bytes body ∧ blake3_hash buf ≠ hash)
  end.
Proof.
  unfold fetch_one, open_stream. destruct answer as [| |total body]; [by left..|].
  destruct (Z.eqb_spec total 0); [by left|]. destruct (Z.leb_spec total MAX_CHUNK_CT) as [Hmax|]; cbn [negb]; [|by left].
  destruct (read_body_or_stall _ _ _ _ _) as [buf|] eqn:E; [|by left].
  apply read_body_ok in E as [Hl Hp]. cbn in Hl, Hp. destruct (decide (blake3_hash buf = hash)) as [Hh|Hh].
  - rewrite bool_decide_true by done. cbn [negb]. split_and!; try done.
    assert (0 <= MAX_CHUNK_CT) by (by apply Z.leb_le). lia.
  - rewrite bool_decide_false by done. cbn [negb]. right. split; [done|]. by exists total, body, buf.
Qed.

(** A chunk crosses: what a server answers for a hash it can make, sent steadily,
    is what the receiver keeps; and in a race one provider that delivers the chunk is
    enough, whatever the others send before or after. *)
Theorem chunk_crosses backend file dir hash ct id floor banned
    (Hmade : produce backend file dir hash = Some ct) (Hhash : blake3_hash ct = hash)
    (Hsize : 0 < zlen ct <= MAX_CHUNK_CT) :
  (∀ body, steady (mkDuration MIN_RATE_GRACE_SECS 0) body →
    read_bytes body = (answer_request backend file dir (mkChunkReq hash 0)).2 →
    fetch_one id hash (WHeader (answer_request backend file dir (mkChunkReq hash 0)).1 body) floor banned
      = (Ok ct, banned)) ∧
  ∀ offset answers body e, 0 <= offset <= zlen ct →
    steady (mkDuration MIN_RATE_GRACE_SECS 0) body →
    read_bytes body = (answer_request backend file dir (mkChunkReq hash offset)).2 →
    WHeader (answer_request backend file dir (mkChunkReq hash offset)).1 body ∈ answers →
    ∃ ct' tail, fetch_from hash (take (Z.to_nat offset) ct) floor answers e = Ok (ct', tail) ∧
      blake3_hash ct' = hash ∧ ct' = take (Z.to_nat offset) ct ++ tail.
Proof.
  unfold answer_request. cbn [cq_hash cq_offset]. rewrite Hmade. cbn [fst snd].
  assert (∀ body, open_stream (WHeader (zlen ct) body) = Ok (zlen ct, body)) as Hopen.
  { intros body. unfold open_stream. rewrite (proj2 (Z.eqb_neq _ _)), (proj2 (Z.leb_le _ _)) by lia. done. }
  split.
  - intros body Hst Hb. unfold fetch_one. rewrite Hopen. rewrite Z.min_l, drop_0 in Hb by lia.
    rewrite (read_body_steady _ _ _ _ [] ct Hst Hb) by (cbn; lia). cbn [app].
    by rewrite bool_decide_true.
  - intros offset answers body e Hoff Hst Hb Hin. rewrite Z.min_l in Hb by lia.
    assert (fetch_chunk_wire (WHeader (zlen ct) body) (zlen (take (Z.to_nat offset) ct)) floor
      = Ok (zlen ct, drop (Z.to_nat offset) ct)) as Hgood.
    { unfold fetch_chunk_wire. rewrite Hopen. cbn [result_bind]. rewrite length_take.
      rewrite (read_body_steady _ _ _ _ [] _ Hst Hb); [done|]. rewrite length_drop. cbn. lia. }
    revert e. induction answers as [|a answers IH]; intros e; [by apply elem_of_nil in Hin|].
    cbn [fetch_from]. destruct (fetch_chunk_wire a _ floor) as [[total tail]|e'] eqn:Ea.
    + destruct (negb _ || negb _) eqn:Ev.
      * apply IH. apply elem_of_cons in Hin as [<-|Hin]; [|done]. rewrite Hgood in Ea. apply Ok_inj in Ea.
        injection Ea as <- <-. rewrite take_drop, bool_decide_true, Z.eqb_refl in Ev by done. done.
      * apply orb_false_iff in Ev as [_ Hh%negb_false_iff%bool_decide_eq_true]. eauto.
    + apply IH. apply elem_of_cons in Hin as [<-|Hin]; [|done]. by rewrite Hgood in Ea.
Qed.
End facts.
