(* ===== verification/ChunkCtrl.v ===== *)
(** * The sender's books on its receivers ([core/src/chunked.rs])

    The control channel: acks and a farewell come in, and decide which chunks a
    departing receiver still lacks and which receivers hold a complete copy. Beside it
    the counters of a chunk server: who is downloading now, how many bytes went to whom,
    and the receiver's pool of warm connections. Endpoint ids are opaque strings. *)
From S2P Require Import Prelude.
Local Open Scope Z_scope.

Abbreviation EndpointId := string.

(** ** The control channel *)

Inductive CtrlMsg :=
  | Hello | Ping | Have (idx : Z) | RelayHas (indices : list Z) | Abort.

(** What waiting for the next message comes to: a message, the end of the stream (or
    bytes that do not decode), nothing for [CTRL_IDLE_SECS]. *)
Inductive CtrlEvent := CMsg (msg : CtrlMsg) | CEof | CIdle.

Abbreviation DeliveredByPeer := (gmap EndpointId (gset Z)).

Inductive CtrlReason := Aborted | Gone.

Definition ack (total : Z) (peer : EndpointId) (idx : Z) (delivered : DeliveredByPeer) : DeliveredByPeer :=
  if idx <? total then <[peer := {[idx]} ∪ default ∅ (delivered !! peer)]> delivered else delivered.

(** The reading loop of [CtrlHandler::accept]; [None] is still reading. *)
Fixpoint ctrl_loop (total : Z) (peer : EndpointId) (events : list CtrlEvent) (delivered : DeliveredByPeer)
    : option CtrlReason * DeliveredByPeer :=
  match events with
  | [] => (None, delivered)
  | CMsg (Have idx) :: events => ctrl_loop total peer events (ack total peer idx delivered)
  | CMsg Abort :: _ => (Some Aborted, delivered)
  | CMsg _ :: events => ctrl_loop total peer events delivered
  | CEof :: _ | CIdle :: _ => (Some Gone, delivered)
  end.

(** What the handler signals at the end: a deliberate farewell, or the tail the
    receiver left without. *)
Inductive CtrlSignal := SAborted (peer : EndpointId) | SGone (peer : EndpointId) (undelivered : list Z).

Definition undelivered (total : Z) (mine : gset Z) : list Z :=
  filter (fun i => i ∉ mine) (Z.of_nat <$> seq 0 (Z.to_nat total)).

(** [CtrlHandler::accept]: the snapshot sent on connecting, the signal, the books. *)
Definition ctrl_accept (total : Z) (peer : EndpointId) (on_relay : gset Z) (events : list CtrlEvent)
    (delivered : DeliveredByPeer) : option (list Z) * option CtrlSignal * DeliveredByPeer :=
  let snapshot := elements on_relay in
  let told := if bool_decide (snapshot = []) then None else Some snapshot in
  let '(reason, delivered) := ctrl_loop total peer events delivered in
  (told,
   match reason with
   | None => None
   | Some Aborted => Some (SAborted peer)
   | Some Gone => Some (SGone peer (undelivered total (default ∅ (delivered !! peer))))
   end, delivered).

(** [ChunkSender::delivered_count], [completed_peers] and [mark_on_relay]. *)
Definition delivered_count (delivered : DeliveredByPeer) : nat :=
  max_list (size <$> (map_to_list delivered).*2).
Definition completed_peers (total : Z) (delivered : DeliveredByPeer) : gset EndpointId :=
  if total =? 0 then ∅ else dom (filter (fun p => total <= Z.of_nat (size p.2)) delivered).
Definition mark_on_relay (indices : list Z) (on_relay : gset Z) : gset Z :=
  list_to_set indices ∪ on_relay.

(** ** Who is downloading now *)

Definition ACTIVE_WINDOW_SECS : Z := 10.

Record PeerEntry := mkPeerEntry { pe_conns : Z; pe_activity : Z }.
Abbreviation PeerCount := (gmap EndpointId PeerEntry).

(** [PeerCount::enter], a stamp of the serve loop, [PeerCount::leave]. *)
Definition peer_enter (id : EndpointId) (now : Z) (m : PeerCount) : PeerCount :=
  let e := default (mkPeerEntry 0 0) (m !! id) in <[id := mkPeerEntry (e.(pe_conns) + 1) now]> m.
Definition peer_stamp (id : EndpointId) (now : Z) (m : PeerCount) : PeerCount :=
  alter (fun e => mkPeerEntry e.(pe_conns) now) id m.
Definition peer_leave (id : EndpointId) (m : PeerCount) : PeerCount :=
  match m !! id with
  | Some e => let conns := e.(pe_conns) - 1 in
      if conns =? 0 then delete id m else <[id := mkPeerEntry conns e.(pe_activity)]> m
  | None => m
  end.
Definition active (now : Z) (e : PeerEntry) : bool :=
  Z.max 0 (now - e.(pe_activity)) <=? ACTIVE_WINDOW_SECS * 1000.
Definition distinct (now : Z) (m : PeerCount) : nat :=
  size (filter (fun p => active now p.2 = true) m).

(** [SentBytes]. *)
Definition sent_add (peer : EndpointId) (n : Z) (m : gmap EndpointId Z) : gmap EndpointId Z :=
  <[peer := default 0 (m !! peer) + n]> m.
Definition sent_best (m : gmap EndpointId Z) : Z :=
  foldr Z.max 0 (map_to_list m).*2.

(** ** Warm connections *)

Definition MAX_POOLED_PER_PROVIDER : nat := 4.

Section pool.
Context {Conn : Type}.

(** [ConnPool::checkout]: the last one that is not [closed]; those passed over are
    dropped. *)
Fixpoint pop_open (closed : Conn → bool) (v : list Conn) : option Conn * list Conn :=
  match v with
  | [] => (None, [])
  | c :: v => if closed c then pop_open closed v else (Some c, v)
  end.
Definition checkout (closed : Conn → bool) (id : EndpointId) (pool : gmap EndpointId (list Conn))
    : option Conn * gmap EndpointId (list Conn) :=
  match pool !! id with
  | None => (None, pool)
  | Some v => let '(c, v) := pop_open closed (reverse v) in (c, <[id := reverse v]> pool)
  end.
(** [ConnPool::checkin]. *)
Definition checkin (closed : Conn → bool) (id : EndpointId) (conn : Conn)
    (pool : gmap EndpointId (list Conn)) : gmap EndpointId (list Conn) :=
  if closed conn then pool
  else
    let v := default [] (pool !! id) in
    <[id := if (length v <? MAX_POOLED_PER_PROVIDER)%nat then v ++ [conn] else v]> pool.
End pool.

(** ** What the books say *)

(** The acks of one connection that count. *)
Fixpoint acked (events : list CtrlEvent) : list Z :=
  match events with
  | CMsg (Have idx) :: events => idx :: acked events
  | CMsg Abort :: _ | CEof :: _ | CIdle :: _ | [] => []
  | CMsg _ :: events => acked events
  end.

Lemma ctrl_loop_delivered total peer events delivered i p :
  i ∈ default ∅ ((ctrl_loop total peer events delivered).2 !! p) ↔
    i ∈ default ∅ (delivered !! p) ∨ (p = peer ∧ i < total ∧ i ∈ acked events).
Proof.
  revert delivered. induction events as [|ev events IH]; intros delivered; cbn [ctrl_loop acked].
  { cbn. split; [auto|]. intros [?|(_ & _ & ?%elem_of_nil)]; done. }
  destruct ev as [[| |idx|l|]| |]; cbn [snd]; try apply IH;
    try (split; [auto|by intros [?|(_ & _ & ?%elem_of_nil)]]).
  rewrite IH. unfold ack. rewrite elem_of_cons. destruct (Z.ltb_spec idx total) as [Hlt|Hge].
  - destruct (decide (p = peer)) as [->|Hne].
    + rewrite lookup_insert_eq. cbn. rewrite elem_of_union, elem_of_singleton. split.
      * intros [[->|?]|?]; tauto || auto.
      * intros [?|(_ & ? & [->|?])]; tauto.
    + rewrite lookup_insert_ne by done. tauto.
  - split; [intros [?|(-> & ? & ?)]; auto|]. intros [?|(-> & ? & [->|?])]; [auto|lia|auto].
Qed.

Lemma ctrl_loop_reason total peer events delivered :
  match (ctrl_loop total peer events delivered).1 with
  | Some Aborted => CMsg Abort ∈ events
  | Some Gone => CEof ∈ events ∨ CIdle ∈ events
  | None => CEof ∉ events ∧ CIdle ∉ events
  end.
Proof.
  revert delivered. induction events as [|ev events IH]; intros delivered; cbn [ctrl_loop fst].
  { split; by intros ?%elem_of_nil. }
  assert (∀ d, match (ctrl_loop total peer events d).1 with
    | Some Aborted => CMsg Abort ∈ ev :: events
    | Some Gone => CEof ∈ ev :: events ∨ CIdle ∈ ev :: events
    | None => ev ≠ CEof → ev ≠ CIdle → CEof ∉ ev :: events ∧ CIdle ∉ ev :: events end) as Hrest.
  { intros d. specialize (IH d). destruct (ctrl_loop _ _ _ _).1 as [[]|]; rewrite !elem_of_cons; naive_solver. }
  destruct ev as [[| |idx|l|]| |]; cbn [fst]; try (rewrite !elem_of_cons; by auto).
  all: match goal with |- context [ctrl_loop _ _ _ ?d] => specialize (Hrest d) end;
    destruct (ctrl_loop _ _ _ _).1 as [[]|]; auto.
Qed.

Definition acks_of (runs : list (EndpointId * list CtrlEvent)) (p : EndpointId) : list Z :=
  r ← filter (fun r => r.1 = p) runs; acked r.2.

(** The books after the connections of [runs]. *)
Definition books (total : Z) (runs : list (EndpointId * list CtrlEvent)) : DeliveredByPeer :=
  foldl (fun d r => (ctrl_loop total r.1 r.2 d).2) ∅ runs.

Lemma books_spec total runs p i :
  i ∈ default ∅ (books total runs !! p) ↔ i < total ∧ i ∈ acks_of runs p.
Proof.
  unfold books. induction runs as [|[q evs] runs IH] using rev_ind.
  { cbn. rewrite lookup_empty. cbn. split; [set_solver|]. by intros [_ ?%elem_of_nil]. }
  rewrite foldl_app. cbn [foldl fst snd]. rewrite ctrl_loop_delivered, IH. unfold acks_of.
  rewrite filter_app, bind_app, elem_of_app. rewrite filter_cons. cbn [fst].
  destruct (decide (q = p)) as [->|Hne].
  - cbn. rewrite app_nil_r. tauto.
  - cbn. rewrite elem_of_nil. split; [|tauto]. intros [?|(-> & _)]; [tauto|done].
Qed.

Lemma size_full (total : Z) (s : gset Z) :
  0 <= total → (∀ i, i ∈ s → 0 <= i < total) → total <= Z.of_nat (size s) ↔ ∀ i, 0 <= i < total → i ∈ s.
Proof.
  intros Ht Hin. set (full := (list_to_set (Z.of_nat <$> seq 0 (Z.to_nat total)) : gset Z)).
  assert (∀ i, i ∈ full ↔ 0 <= i < total) as Hfull.
  { intros i. unfold full. rewrite elem_of_list_to_set, list_elem_of_fmap. setoid_rewrite elem_of_seq. split.
    - intros (k & -> & ?). lia.
    - intros ?. exists (Z.to_nat i). lia. }
  assert (size full = Z.to_nat total) as Hsz.
  { unfold full. rewrite size_list_to_set, length_fmap, length_seq; [done|].
    apply NoDup_fmap_2; [intros ???; lia|apply NoDup_seq]. }
  assert (s ⊆ full) as Hsub by (intros i Hi; apply Hfull; auto). split.
  - intros Hge i Hi. destruct (decide (i ∈ s)) as [?|Hni]; [done|].
    assert (s ⊂ full) as Hss%subset_size; [|lia]. split; [done|]. intros Hs. apply Hni, Hs, Hfull, Hi.
  - intros Hall. pose proof (subseteq_size full s ltac:(intros i Hi; apply Hall, Hfull, Hi)). lia.
Qed.

(** C34. The sender's books are exact, whatever the receivers claim and however their
    connections interleave: a receiver counts as holding a complete copy just when it
    acked every chunk there is, an invented index counts for nothing, and the tail
    reported for one that leaves is what that one never acked, no matter who else has
    it. A deliberate farewell reports no tail. *)
Theorem delivery_books_exact total runs peer events
    (Htotal : 0 <= total)
    (Hu32 : ∀ r i, r ∈ runs ++ [(peer, events)] → i ∈ acked r.2 → 0 <= i) :
  (∀ p, p ∈ completed_peers total (books total runs) ↔
    0 < total ∧ ∀ i, 0 <= i < total → i ∈ acks_of runs p) ∧
  match (ctrl_accept total peer ∅ events (books total runs)).1.2 with
  | Some (SGone p tail) => p = peer ∧ ∀ i, i ∈ tail ↔ 0 <= i < total ∧ i ∉ acks_of (runs ++ [(peer, events)]) peer
  | Some (SAborted p) => p = peer ∧ CMsg Abort ∈ events
  | None => CEof ∉ events ∧ CIdle ∉ events
  end.
Proof.
  assert (∀ rs p i, (∀ r, r ∈ rs → r ∈ runs ++ [(peer, events)]) → i ∈ acks_of rs p → 0 <= i) as Hpos.
  { intros rs p i Hsub Hi. unfold acks_of in Hi. apply list_elem_of_bind in Hi as (r & Hi & Hr).
    apply list_elem_of_filter in Hr as [_ Hr]. by apply (Hu32 r); [apply Hsub|]. }
  split.
  - intros p. unfold completed_peers. destruct (Z.eqb_spec total 0) as [->|Hne].
    { split; [set_solver|]. intros [? _]. lia. }
    rewrite elem_of_dom. unfold is_Some. setoid_rewrite map_lookup_filter_Some. cbn [snd].
    pose proof (books_spec total runs p) as Hb. set (d := books total runs) in *.
    assert (∀ i, i ∈ default ∅ (d !! p) → 0 <= i < total) as Hr.
    { intros i Hi. apply Hb in Hi as [? Hi]. split; [|done]. apply (Hpos runs p); [set_solver|done]. }
    pose proof (size_full total (default ∅ (d !! p)) Htotal Hr) as Hs. split.
    + intros (s & Hs' & Hle). split; [lia|]. intros i Hi. apply Hb. rewrite Hs' in Hs |- *. cbn in Hs |- *. by apply Hs.
    + intros [_ Hall]. destruct (d !! p) as [s|] eqn:E.
      * exists s. split; [done|]. cbn in Hs. apply Hs. intros i Hi. apply Hb. split; [lia|auto].
      * exfalso. specialize (proj2 (Hb 0)). cbn. intros Hx. apply (not_elem_of_empty (C := gset Z) 0), Hx.
        split; [lia|]. apply Hall. lia.
  - unfold ctrl_accept. pose proof (ctrl_loop_delivered total peer events (books total runs)) as Hd.
    assert ((ctrl_loop total peer events (books total runs)).2 = books total (runs ++ [(peer, events)])) as Hbk.
    { unfold books. by rewrite foldl_app. }
    pose proof (ctrl_loop_reason total peer events (books total runs)) as Hreason.
    destruct (ctrl_loop _ _ _ _) as [reason d'] eqn:E. cbn [fst snd] in *. destruct reason as [[]|]; [by split| |done].
    split; [done|]. intros i. subst d'. unfold undelivered. rewrite list_elem_of_filter, list_elem_of_fmap, books_spec.
    setoid_rewrite elem_of_seq. split.
    + intros [Hn (k & -> & Hk)]. split; [lia|]. intros Hi. apply Hn. split; [lia|done].
    + intros [Hi Hn]. split; [tauto|]. exists (Z.to_nat i). lia.
Qed.

(** ** The peer count *)

Inductive PeerOp :=
  | PEnter (id : EndpointId) (now : Z)
  | PStamp (id : EndpointId) (now : Z)
  | PLeave (id : EndpointId).

Definition peer_op (m : PeerCount) (op : PeerOp) : PeerCount :=
  match op with
  | PEnter id now => peer_enter id now m
  | PStamp id now => peer_stamp id now m
  | PLeave id => peer_leave id m
  end.

(** Connections of a peer still open, and the last sign of life on them. *)
Fixpoint open_conns (id : EndpointId) (rev_ops : list PeerOp) : Z :=
  match rev_ops with
  | [] => 0
  | PEnter i _ :: ops => open_conns id ops + if decide (i = id) then 1 else 0
  | PLeave i :: ops => open_conns id ops - if decide (i = id) then 1 else 0
  | PStamp _ _ :: ops => open_conns id ops
  end.
Fixpoint last_sign (id : EndpointId) (rev_ops : list PeerOp) : Z :=
  match rev_ops with
  | [] => 0
  | (PEnter i now | PStamp i now) :: ops => if decide (i = id) then now else last_sign id ops
  | PLeave _ :: ops => last_sign id ops
  end.

(** A connection is entered before it stamps or leaves. *)
Fixpoint well_bracketed (rev_ops : list PeerOp) : Prop :=
  match rev_ops with
  | [] => True
  | PEnter _ _ :: ops => well_bracketed ops
  | (PStamp i _ | PLeave i) :: ops => 0 < open_conns i ops ∧ well_bracketed ops
  end.

Lemma peer_run_spec rev_ops :
  well_bracketed rev_ops → ∀ id,
  match foldr (fun op m => peer_op m op) ∅ rev_ops !! id with
  | Some e => pe_conns e = open_conns id rev_ops ∧ 0 < open_conns id rev_ops ∧ pe_activity e = last_sign id rev_ops
  | None => open_conns id rev_ops = 0
  end.
Proof.
  induction rev_ops as [|op ops IH]; intros Hw id; cbn [foldr]; [by rewrite lookup_empty|].
  set (m := foldr _ _ ops) in *.
  destruct op as [i now|i now|i]; cbn [well_bracketed open_conns last_sign peer_op] in *.
  - specialize (IH Hw). unfold peer_enter. destruct (decide (i = id)) as [->|Hne].
    + rewrite lookup_insert_eq. cbn. specialize (IH id). destruct (m !! id) as [e|]; cbn; [|lia]. lia.
    + rewrite lookup_insert_ne by done. specialize (IH id). destruct (m !! id); lia.
  - destruct Hw as [Hpos Hw]. specialize (IH Hw). unfold peer_stamp. destruct (decide (i = id)) as [->|Hne].
    + rewrite lookup_alter_eq. specialize (IH id). destruct (m !! id) as [e|]; cbn; lia.
    + rewrite lookup_alter_ne by done. specialize (IH id). by destruct (m !! id).
  - destruct Hw as [Hpos Hw]. specialize (IH Hw). unfold peer_leave.
    pose proof (IH i) as Hi. destruct (m !! i) as [e|] eqn:Ei; [|lia].
    destruct (decide (i = id)) as [->|Hne].
    + destruct (Z.eqb_spec (pe_conns e - 1) 0); [rewrite lookup_delete_eq|rewrite lookup_insert_eq; cbn]; lia.
    + specialize (IH id). destruct (pe_conns e - 1 =? 0);
        [rewrite lookup_delete_ne by done|rewrite lookup_insert_ne by done]; destruct (m !! id); lia.
Qed.

(** "Downloading now" is what it says: however connections come and go, the peers
    counted are exactly those with a connection open and a sign of life within the
    window, the count of connections never goes below zero, and a peer whose last
    connection ended is forgotten. *)
Theorem downloading_now_exact rev_ops now
    (Hw : well_bracketed rev_ops) (Hclock : ∀ id, last_sign id rev_ops <= now) :
  let m := foldr (fun op m => peer_op m op) ∅ rev_ops in
  (∀ id, id ∈ dom (filter (fun p => active now p.2 = true) m) ↔
    0 < open_conns id rev_ops ∧ now - last_sign id rev_ops <= ACTIVE_WINDOW_SECS * 1000) ∧
  (∀ id, 0 <= open_conns id rev_ops ∧ (open_conns id rev_ops = 0 → m !! id = None)) ∧
  distinct now m = size (dom (filter (fun p => active now p.2 = true) m)).
Proof.
  cbn zeta. pose proof (peer_run_spec rev_ops Hw) as Hs. set (m := foldr _ _ _) in *. split_and!.
  - intros id. specialize (Hs id). specialize (Hclock id). rewrite elem_of_dom. unfold is_Some.
    setoid_rewrite map_lookup_filter_Some. cbn [snd]. unfold active. setoid_rewrite Z.leb_le. split.
    + intros (e & He & Ha). rewrite He in Hs. destruct Hs as (Hc & Hp & Hl). rewrite Hl in Ha. lia.
    + intros [Hp Ha]. destruct (m !! id) as [e|]; [|lia]. destruct Hs as (Hc & _ & Hl). exists e. split; [done|]. lia.
  - intros id. specialize (Hs id). destruct (m !! id); [|by rewrite Hs]. split; [lia|]. intros H0. lia.
  - unfold distinct. by rewrite size_dom.
Qed.

(** ** The pool *)

Section pool_facts.
Context {Conn : Type}.

Definition pool_ok (pool : gmap EndpointId (list Conn)) : Prop :=
  map_Forall (fun _ v => (length v ≤ MAX_POOLED_PER_PROVIDER)%nat) pool.

Lemma pop_open_spec (closed : Conn → bool) v :
  let '(c, v') := pop_open closed v in
  ∃ dropped, Forall (fun c => closed c = true) dropped ∧
    match c with
    | Some c => v = dropped ++ c :: v' ∧ closed c = false
    | None => v = dropped ∧ v' = []
    end.
Proof.
  induction v as [|x v IH]; cbn; [by exists []|]. destruct (closed x) eqn:E; [|by exists []].
  destruct (pop_open closed v) as [c v']. destruct IH as (d & Hd & Hc). exists (x :: d). split; [by constructor|].
  destruct c; destruct Hc; subst; done.
Qed.

(** The pool hands out a connection at most once and only a live one of the
    provider asked for, passing over those that closed meanwhile; it never keeps more
    than four for a provider nor one already closed. *)
Theorem pool_hands_out_live (closed : Conn → bool) id pool :
  pool_ok pool →
  (let '(c, pool') := checkout closed id pool in
   pool_ok pool' ∧ (∀ i, i ≠ id → pool' !! i = pool !! i) ∧
   match c with
   | Some c => closed c = false ∧ ∃ dropped, Forall (fun c => closed c = true) dropped ∧
       pool !! id = Some (default [] (pool' !! id) ++ c :: dropped)
   | None => Forall (fun c => closed c = true) (default [] (pool !! id))
   end) ∧
  ∀ conn, pool_ok (checkin closed id conn pool) ∧
    ∀ c, c ∈ default [] (checkin closed id conn pool !! id) → c ∈ default [] (pool !! id) ∨ (c = conn ∧ closed c = false).
Proof.
  intros Hok. split.
  - unfold checkout. destruct (pool !! id) as [v|] eqn:E; [|split_and!; [done|done|by constructor]].
    pose proof (pop_open_spec closed (reverse v)) as Hp. destruct (pop_open closed (reverse v)) as [c v'].
    destruct Hp as (d & Hd & Hc). specialize (Hok _ _ E) as Hlen. cbn in Hlen.
    assert (length v' ≤ length v)%nat as Hv.
    { rewrite <- (length_reverse v). destruct c; destruct Hc as [Hc ?]; subst; rewrite ?Hc, ?length_app; cbn; lia. }
    split; [|split].
    + apply map_Forall_insert_2; [rewrite length_reverse; lia|done].
    + intros i Hi. by rewrite lookup_insert_ne.
    + destruct c as [c|]; destruct Hc as [Hc Hx].
      * split; [done|]. exists (reverse d). split; [by apply Forall_reverse|]. rewrite lookup_insert_eq. cbn. f_equal.
        apply (f_equal reverse) in Hc. rewrite reverse_involutive in Hc. rewrite Hc.
        by rewrite reverse_app, reverse_cons, <- app_assoc.
      * cbn. apply (f_equal reverse) in Hc. rewrite reverse_involutive in Hc. rewrite Hc. by apply Forall_reverse.
  - intros conn. unfold checkin. destruct (closed conn) eqn:Ec; [split; [done|auto]|]. split.
    + apply map_Forall_insert_2; [|done].
      assert (length (default [] (pool !! id)) ≤ MAX_POOLED_PER_PROVIDER)%nat as Hl.
      { destruct (pool !! id) as [v|] eqn:E; [by apply (Hok id)|apply Nat.le_0_l]. }
      destruct (Nat.ltb_spec (length (default [] (pool !! id))) MAX_POOLED_PER_PROVIDER); [|done].
      rewrite length_app. cbn [length]. lia.
    + intros c. rewrite lookup_insert_eq. cbn. case_match; [|auto].
      rewrite elem_of_app, list_elem_of_singleton. intros [?| ->]; auto.
Qed.
End pool_facts.
