(* ===== verification/Recv.v ===== *)
(** * Receiving a file in chunks ([core/src/flow/recv.rs], [flow/sidecar.rs])

    [recv_chunked]: what a resumed download keeps, and the loop that assigns pieces to
    providers, runs the fetches and commits what they bring. The loop is a step
    relation, given as a function of an event: an assignment, a step of one of the
    fetch tasks running beside it, the joining of a finished task, the end. What the
    loop sees of the world (the clock, whether the origin is live, what the relay and
    the peers hold) comes with the event, as do the answers of providers and the
    failures of files.

    Fetches stage their ciphertext in files that are shared by name: a name leads to
    an inode, opening one truncates it, a task writes through the inode it opened and
    the commit reads by name. Left out are the connections themselves, the events
    reported to the caller, and the seeding and unpacking that follow a completed
    download. *)
From Stdlib Require Import SpecFloat.
From S2P Require Import Prelude.
From S2P Require Import Text.
From S2P Require Import ChunkCipher.
From S2P Require Import SyncTypes.
From S2P Require Import Store.
From S2P Require Import Seeds.
From S2P Require Import Swarm.
From S2P Require Import Schedule.
From S2P Require Import Chunked.
Local Open Scope Z_scope.

Definition ENDGAME_PIECES : nat := 4.
Definition ENDGAME_PARALLEL : nat := 3.
Definition PROVIDER_COOLDOWN_SECS : Z := 3.
Definition PIECE_BACKOFF_SECS : Z := 2.

(** What the loop uses of a ticket; the key is the recovered content key. *)
Record Ticket (A : Type) := mkTicket {
  tk_total_size : Z;
  tk_chunk_size : Z;
  tk_chunks : list Hash;
  tk_key : bytes;
  tk_sender : option (string * A);
  tk_relay : option (string * A) }.
Arguments mkTicket {A}.
Arguments tk_total_size {A}. Arguments tk_chunk_size {A}. Arguments tk_chunks {A}.
Arguments tk_key {A}. Arguments tk_sender {A}. Arguments tk_relay {A}.

(** ** Staging files *)

(** [{download}.arvpart.{i}] and [{download}.arvpart.{i}.eg{n}]. *)
Abbreviation StageName := (nat * option nat)%type.
Definition stage_path (i : nat) : StageName := (i, None).
Definition stage_dup (i n : nat) : StageName := (i, Some n).

Record Stages := mkStages {
  sg_names : gmap StageName nat; sg_inodes : gmap nat bytes; sg_next : nat }.

(** [create(true).truncate(true).open]. *)
Definition stage_open (name : StageName) (s : Stages) : nat * Stages :=
  match s.(sg_names) !! name with
  | Some ino => (ino, mkStages s.(sg_names) (<[ino := []]> s.(sg_inodes)) s.(sg_next))
  | None => (s.(sg_next), mkStages (<[name := s.(sg_next)]> s.(sg_names))
                            (<[s.(sg_next) := []]> s.(sg_inodes)) (S s.(sg_next)))
  end.
Definition stage_write (ino : nat) (b : bytes) (s : Stages) : Stages :=
  mkStages s.(sg_names) (<[ino := b]> s.(sg_inodes)) s.(sg_next).
Definition stage_read (name : StageName) (s : Stages) : option bytes :=
  ino ← s.(sg_names) !! name; s.(sg_inodes) !! ino.
Definition stage_remove (name : StageName) (s : Stages) : Stages :=
  mkStages (delete name s.(sg_names)) s.(sg_inodes) s.(sg_next).

(** [seek] and [write_all] on the output, which grows with zeros. *)
Definition write_at (file : bytes) (off : nat) (b : bytes) : bytes :=
  take off (file ++ replicate (off - length file) Byte.x00) ++ b ++ drop (off + length b) file.
Definition file_set_len (len : nat) (file : bytes) : bytes :=
  take len (file ++ replicate (len - length file) Byte.x00).

(** ** State *)

(** A fetch task: opening its stage, fetching and verifying, truncating and writing,
    its outcome; an error says whether it is one of local storage. *)
Inductive TaskState :=
  | TSpawned
  | TOpened (ino : nat)
  | TVerified (ino : nat) (buf : bytes)
  | TCut (ino : nat) (buf : bytes)
  | TEnded (outcome : option (result unit bool)).
Record Task := mkTask {
  ta_piece : nat; ta_prov : string; ta_stage : StageName; ta_state : TaskState }.

Record Recv := mkRecv {
  rc_file : bytes;
  rc_sidecar : option bytes;
  rc_have : bytes;
  rc_remaining : gset nat;
  rc_satisfied : gset nat;
  rc_in_flight : gmap string Z;
  rc_piece_srcs : gmap nat (gset string);
  rc_piece_backoff : gmap nat Z;
  rc_cooldown : gmap string Z;
  rc_banned : gset string;
  rc_rates : gmap string f64;
  rc_stages : Stages;
  rc_tasks : gmap nat Task;
  rc_next_task : nat }.

Inductive RecvOutcome := Completed | Cancelled | Paused | Failed.
Inductive Phase := Running (st : Recv) | Ended (outcome : RecvOutcome) (st : Recv).

(** What one look at the world finds. *)
Record View (A : Type) := mkView {
  vw_now : Z; vw_sender_live : bool; vw_on_relay : gset Z; vw_peers : list (string * A * bytes) }.
Arguments mkView {A}. Arguments vw_now {A}. Arguments vw_sender_live {A}.
Arguments vw_on_relay {A}. Arguments vw_peers {A}.

Inductive TaskEvent :=
  | EvOpen (fails : option bool)
  | EvFetch (answer : WireAnswer) (floor : Z)
  | EvTruncate (fails : option bool)
  | EvWrite (fails : option (bool * nat)) (sample : option f64)
  | EvCancelled.

(** How writing a committed chunk goes: done, or broken off after some bytes. *)
Inductive CommitIo := CommitOk (sidecar_written : bool) | CommitFails (local : bool) (written : nat).

Section recv.
Context {A : Type} `{!Blake3Hash, !HexLower, !Aes256Gcm} (t : Ticket A).

Definition total : nat := length t.(tk_chunks).
Definition sender_id : option string := fst <$> t.(tk_sender).

(** ** Assigning *)

(** [providers_having]. *)
Definition providers_having (view : View A) (st : Recv) (i : nat) : list (string * A) :=
  providers_for_piece i (if view.(vw_sender_live) then t.(tk_sender) else None)
    ((fun r => (r, view.(vw_on_relay))) <$> t.(tk_relay)) view.(vw_peers)
    (fun id => is_eligible id st.(rc_banned) st.(rc_cooldown) view.(vw_now)).

Definition fresh_candidates (view : View A) (st : Recv) : list (nat * list (string * A)) :=
  omap (fun i =>
    if match st.(rc_piece_backoff) !! i with Some b => b <=? view.(vw_now) | None => true end
    then match providers_having view st i with [] => None | p => Some (i, p) end
    else None) (elements st.(rc_remaining)).

Definition origin_busy (st : Recv) : bool :=
  match sender_id with Some id => 0 <? default 0 (st.(rc_in_flight) !! id) | None => false end.

Definition srcs (i : nat) (st : Recv) : gset string := default ∅ (st.(rc_piece_srcs) !! i).

(** Pieces in flight, and those of them that may get one more source. *)
Definition live_pieces (st : Recv) : list nat :=
  filter (fun i => srcs i st ≠ ∅) (elements (dom st.(rc_piece_srcs))).
Definition endgame_candidates (view : View A) (st : Recv) : list (nat * list (string * A)) :=
  omap (fun i =>
    if (ENDGAME_PARALLEL <=? size (srcs i st))%nat then None
    else match filter (fun p => p.1 ∉ srcs i st) (providers_having view st i) with
         | [] => None | p => Some (i, p) end) (live_pieces st).

(** The piece and its sources; [choice] stands for the random pick among the rarest, or
    for which tail piece the iteration meets first. *)
Definition pick (choice : nat) (view : View A) (st : Recv) : option (nat * list (string * A) * bool) :=
  match rarest_set (prefer_offloadable (fresh_candidates view st) sender_id (origin_busy st)) with
  | [] =>
      let live := live_pieces st in
      if (length live =? 0)%nat || (ENDGAME_PIECES <? length live)%nat then None
      else (fun c => (c, false)) <$> endgame_candidates view st !! choice
  | rare => (fun c => (c, true)) <$> rare !! choice
  end.

Definition candidate_of (st : Recv) (p : string * A) : Candidate A :=
  mkCandidate p.1 p.2 (bool_decide (sender_id = Some p.1)) (default 0 (st.(rc_in_flight) !! p.1))
    (st.(rc_rates) !! p.1).

(** One turn of the assignment loop; [None] is its [break]. *)
Definition assign (choice : nat) (view : View A) (st : Recv) : option Recv :=
  '(i, provs, is_fresh) ← pick choice view st;
  chosen ← choose_provider (candidate_of st <$> provs);
  let pid := chosen.(cd_id) in
  let used := {[pid]} ∪ srcs i st in
  let n := size used in
  let stage := if (n =? 1)%nat then stage_path i else stage_dup i n in
  Some (mkRecv st.(rc_file) st.(rc_sidecar) st.(rc_have)
    (if is_fresh : bool then st.(rc_remaining) ∖ {[i]} else st.(rc_remaining)) st.(rc_satisfied)
    (<[pid := default 0 (st.(rc_in_flight) !! pid) + 1]> st.(rc_in_flight))
    (<[i := used]> st.(rc_piece_srcs)) st.(rc_piece_backoff) st.(rc_cooldown) st.(rc_banned) st.(rc_rates)
    st.(rc_stages) (<[st.(rc_next_task) := mkTask i pid stage TSpawned]> st.(rc_tasks))
    (S st.(rc_next_task))).

(** ** A fetch task *)

Definition with_task (k : nat) (ta : Task) (state : TaskState) (st : Recv) : Recv :=
  mkRecv st.(rc_file) st.(rc_sidecar) st.(rc_have) st.(rc_remaining) st.(rc_satisfied) st.(rc_in_flight)
    st.(rc_piece_srcs) st.(rc_piece_backoff) st.(rc_cooldown) st.(rc_banned) st.(rc_rates) st.(rc_stages)
    (<[k := mkTask ta.(ta_piece) ta.(ta_prov) ta.(ta_stage) state]> st.(rc_tasks)) st.(rc_next_task).
Definition with_stages (s : Stages) (st : Recv) : Recv :=
  mkRecv st.(rc_file) st.(rc_sidecar) st.(rc_have) st.(rc_remaining) st.(rc_satisfied) st.(rc_in_flight)
    st.(rc_piece_srcs) st.(rc_piece_backoff) st.(rc_cooldown) st.(rc_banned) st.(rc_rates) s st.(rc_tasks)
    st.(rc_next_task).
Definition with_banned (b : gset string) (st : Recv) : Recv :=
  mkRecv st.(rc_file) st.(rc_sidecar) st.(rc_have) st.(rc_remaining) st.(rc_satisfied) st.(rc_in_flight)
    st.(rc_piece_srcs) st.(rc_piece_backoff) st.(rc_cooldown) b st.(rc_rates) st.(rc_stages) st.(rc_tasks)
    st.(rc_next_task).
Definition with_rates (r : gmap string f64) (st : Recv) : Recv :=
  mkRecv st.(rc_file) st.(rc_sidecar) st.(rc_have) st.(rc_remaining) st.(rc_satisfied) st.(rc_in_flight)
    st.(rc_piece_srcs) st.(rc_piece_backoff) st.(rc_cooldown) st.(rc_banned) r st.(rc_stages) st.(rc_tasks)
    st.(rc_next_task).

(** The spawned task; its piece's token is cancelled once the piece is satisfied, and is
    looked at while the task waits for the network. *)
Definition task_step (k : nat) (ev : TaskEvent) (st : Recv) : option Recv :=
  ta ← st.(rc_tasks) !! k;
  match ta.(ta_state), ev with
  | TSpawned, EvOpen None =>
      let '(ino, s) := stage_open ta.(ta_stage) st.(rc_stages) in
      Some (with_stages s (with_task k ta (TOpened ino) st))
  | TSpawned, EvOpen (Some local) => Some (with_task k ta (TEnded (Some (Err local))) st)
  | TOpened ino, EvFetch answer floor =>
      let hash := default [] (t.(tk_chunks) !! ta.(ta_piece)) in
      let '(r, banned) := fetch_one ta.(ta_prov) hash answer floor st.(rc_banned) in
      let state := match r with Ok buf => TVerified ino buf | Err _ => TEnded (Some (Err false)) end in
      Some (with_banned banned (with_task k ta state st))
  | TVerified ino buf, EvTruncate None =>
      Some (with_stages (stage_write ino [] st.(rc_stages)) (with_task k ta (TCut ino buf) st))
  | TVerified ino buf, EvTruncate (Some local) => Some (with_task k ta (TEnded (Some (Err local))) st)
  | TCut ino buf, EvWrite None sample =>
      let rates := match sample with Some s => update_rate st.(rc_rates) ta.(ta_prov) s | None => st.(rc_rates) end in
      Some (with_rates rates (with_stages (stage_write ino buf st.(rc_stages))
        (with_task k ta (TEnded (Some (Ok tt))) st)))
  | TCut ino buf, EvWrite (Some (local, written)) _ =>
      Some (with_stages (stage_write ino (take written buf) st.(rc_stages))
        (with_task k ta (TEnded (Some (Err local))) st))
  | (TSpawned | TOpened _), EvCancelled =>
      if bool_decide (ta.(ta_piece) ∈ st.(rc_satisfied)) then Some (with_task k ta (TEnded None) st) else None
  | _, _ => None
  end.

(** ** Joining *)

(** A task left the set: its source no longer counts. *)
Definition leave_set (k : nat) (ta : Task) (st : Recv) : Recv :=
  mkRecv st.(rc_file) st.(rc_sidecar) st.(rc_have) st.(rc_remaining) st.(rc_satisfied)
    (alter (fun c => Z.max 0 (c - 1)) ta.(ta_prov) st.(rc_in_flight))
    (alter (fun s => s ∖ {[ta.(ta_prov)]}) ta.(ta_piece) st.(rc_piece_srcs))
    st.(rc_piece_backoff) st.(rc_cooldown) st.(rc_banned) st.(rc_rates) st.(rc_stages)
    (delete k st.(rc_tasks)) st.(rc_next_task).

Definition with_satisfied (i : nat) (st : Recv) : Recv :=
  mkRecv st.(rc_file) st.(rc_sidecar) st.(rc_have) st.(rc_remaining) ({[i]} ∪ st.(rc_satisfied)) st.(rc_in_flight)
    st.(rc_piece_srcs) st.(rc_piece_backoff) st.(rc_cooldown) st.(rc_banned) st.(rc_rates) st.(rc_stages)
    st.(rc_tasks) st.(rc_next_task).
Definition with_file (f : bytes) (st : Recv) : Recv :=
  mkRecv f st.(rc_sidecar) st.(rc_have) st.(rc_remaining) st.(rc_satisfied) st.(rc_in_flight)
    st.(rc_piece_srcs) st.(rc_piece_backoff) st.(rc_cooldown) st.(rc_banned) st.(rc_rates) st.(rc_stages)
    st.(rc_tasks) st.(rc_next_task).

(** The stage files of a committed piece. *)
Definition remove_stages (i : nat) (stage : StageName) (s : Stages) : Stages :=
  foldr stage_remove s (stage :: stage_path i :: (stage_dup i <$> seq 1 ENDGAME_PARALLEL)).

(** The books after a commit; a sidecar that cannot be written keeps its content. *)
Definition committed (i : nat) (stage : StageName) (plain : bytes) (sidecar_written : bool) (st : Recv) : Recv :=
  let have := bitfield_set st.(rc_have) i in
  mkRecv (write_at st.(rc_file) (i * Z.to_nat t.(tk_chunk_size)) plain)
    (if sidecar_written then Some have else st.(rc_sidecar)) have
    (st.(rc_remaining) ∖ {[i]}) st.(rc_satisfied) st.(rc_in_flight)
    (delete i st.(rc_piece_srcs)) (delete i st.(rc_piece_backoff)) st.(rc_cooldown) st.(rc_banned) st.(rc_rates)
    (remove_stages i stage st.(rc_stages)) st.(rc_tasks) st.(rc_next_task).

Definition commit (i : nat) (stage : StageName) (io : CommitIo) (st : Recv) : Phase :=
  let st := with_satisfied i st in
  match stage_read stage st.(rc_stages) with
  | None => Ended Failed st
  | Some ct =>
      match open_chunk t.(tk_key) (N.of_nat i) (N.of_nat total) ct with
      | Err _ => Ended Failed st
      | Ok plain =>
          match io with
          | CommitFails local written =>
              Ended (if local then Paused else Failed)
                (with_file (write_at st.(rc_file) (i * Z.to_nat t.(tk_chunk_size)) (take written plain)) st)
          | CommitOk sidecar_written => Running (committed i stage plain sidecar_written st)
          end
      end
  end.

(** A failed source: cool it down, and put the piece back when it was the last. *)
Definition fetch_failed (now : Z) (i : nat) (pid : string) (stage : StageName) (st : Recv) : Recv :=
  let again := negb (bool_decide (i ∈ st.(rc_satisfied))) && bool_decide (srcs i st = ∅) in
  mkRecv st.(rc_file) st.(rc_sidecar) st.(rc_have)
    (if again then {[i]} ∪ st.(rc_remaining) else st.(rc_remaining)) st.(rc_satisfied) st.(rc_in_flight)
    st.(rc_piece_srcs)
    (if again then <[i := now + PIECE_BACKOFF_SECS]> st.(rc_piece_backoff) else st.(rc_piece_backoff))
    (<[pid := now + PROVIDER_COOLDOWN_SECS]> st.(rc_cooldown)) st.(rc_banned) st.(rc_rates)
    (stage_remove stage st.(rc_stages)) st.(rc_tasks) st.(rc_next_task).

(** The body of the loop after [join_next]. *)
Definition join (k : nat) (now : Z) (io : CommitIo) (st : Recv) : option Phase :=
  ta ← st.(rc_tasks) !! k;
  let i := ta.(ta_piece) in
  let stage := ta.(ta_stage) in
  let st := leave_set k ta st in
  match ta.(ta_state) with
  | TEnded None => Some (Running (with_stages (stage_remove stage st.(rc_stages)) st))
  | TEnded (Some (Ok _)) =>
      if bool_decide (i ∈ st.(rc_satisfied))
      then Some (Running (with_stages (stage_remove stage st.(rc_stages)) st))
      else Some (commit i stage io st)
  | TEnded (Some (Err true)) => Some (Ended Paused (with_stages (stage_remove stage st.(rc_stages)) st))
  | TEnded (Some (Err false)) => Some (Running (fetch_failed now i ta.(ta_prov) stage st))
  | _ => None
  end.

(** ** The loop *)

Definition srcs_empty (st : Recv) : bool :=
  bool_decide (map_Forall (fun _ s => s = ∅) st.(rc_piece_srcs)).

(** Leaving the loop, and the finalization of the output. *)
Definition finish (st : Recv) : option Phase :=
  if bool_decide (st.(rc_tasks) = ∅) && bool_decide (st.(rc_remaining) = ∅) && srcs_empty st
  then Some (Ended Completed
         (mkRecv (file_set_len (Z.to_nat t.(tk_total_size)) st.(rc_file)) None st.(rc_have) st.(rc_remaining)
            st.(rc_satisfied) st.(rc_in_flight) st.(rc_piece_srcs) st.(rc_piece_backoff) st.(rc_cooldown)
            st.(rc_banned) st.(rc_rates) st.(rc_stages) st.(rc_tasks) st.(rc_next_task)))
  else None.

Inductive RecvEvent :=
  | EvAssign (choice : nat) (view : View A)
  | EvTask (k : nat) (ev : TaskEvent)
  | EvJoin (k : nat) (now : Z) (io : CommitIo)
  | EvFinish
  | EvCancel.

(** One event; [None] is one that cannot happen. *)
Definition recv_step (ev : RecvEvent) (st : Recv) : option Phase :=
  match ev with
  | EvAssign choice view => Running <$> assign choice view st
  | EvTask k ev => Running <$> task_step k ev st
  | EvJoin k now io => join k now io st
  | EvFinish => finish st
  | EvCancel => Some (Ended Cancelled st)
  end.

Fixpoint recv_run (evs : list RecvEvent) (st : Recv) : option Phase :=
  match evs with
  | [] => Some (Running st)
  | ev :: evs =>
      match recv_step ev st with
      | Some (Running st) => recv_run evs st
      | Some (Ended o st) => match evs with [] => Some (Ended o st) | _ => None end
      | None => None
      end
  end.

(** ** Starting and resuming *)

(** [read_sidecar]. *)
Definition read_sidecar (sidecar : option bytes) : bytes :=
  match sidecar with
  | Some b => if (length b =? bitfield_bytes total)%nat then b else bitfield_new total
  | None => bitfield_new total
  end.

(** The plaintext bytes of piece [i]. *)
Definition piece_start (i : nat) : Z := Z.of_nat i * t.(tk_chunk_size).
Definition piece_len (i : nat) : Z :=
  if (S i =? total)%nat then Z.max 0 (t.(tk_total_size) - piece_start i) else t.(tk_chunk_size).

(** The loop body of [revalidate_have]: whether piece [i] is kept. [deep_file] is the
    output, when it is to be read and can be. *)
Definition keep_piece (file : bytes) (deep_file : option bytes) (i : nat) (want : Hash) : bool :=
  if Z.of_nat (length file) <? sat_add (piece_start i) (piece_len i) then false
  else
    match deep_file with
    | None => true
    | Some f =>
        let plain := take (Z.to_nat (piece_len i)) (drop (Z.to_nat (piece_start i)) f) in
        if negb (Z.of_nat (length plain) =? piece_len i) then false
        else match seal_chunk t.(tk_key) (N.of_nat i) (N.of_nat total) plain with
             | Ok ct => bool_decide (blake3_hash ct = want)
             | Err _ => false
             end
    end.

(** [revalidate_have]. *)
Definition revalidate_have (file : bytes) (deep_file : option bytes) (have : bytes) : bytes :=
  foldl (fun checked p =>
      if bitfield_has have p.1 && keep_piece file deep_file p.1 p.2
      then bitfield_set checked p.1 else checked)
    (bitfield_new total) (imap pair t.(tk_chunks)).

Definition recv_init (file : bytes) (sidecar : option bytes) (have : bytes) (stages : Stages) : Recv :=
  mkRecv file sidecar have
    (list_to_set (filter (fun i => bitfield_has have i = false) (seq 0 total)))
    (list_to_set (filter (fun i => bitfield_has have i = true) (seq 0 total)))
    ∅ ∅ ∅ ∅ ∅ ∅ stages ∅ 0.

(** [recv_chunked] up to the loop: [avail] is the free space when it is known. *)
Definition recv_start (trust deep : bool) (file : bytes) (sidecar : option bytes) (stages : Stages)
    (avail : option Z) : Phase :=
  let have := read_sidecar sidecar in
  let before := bitfield_count have in
  let checked := revalidate_have file (if deep then Some file else None) have in
  let check := (0 <? before)%nat && negb trust in
  let have := if check then checked else have in
  let after := bitfield_count have in
  let sidecar := if check && (after <? before)%nat then Some have else sidecar in
  let st := recv_init file sidecar have stages in
  if check && (after =? 0)%nat then Ended Paused st
  else
    let remaining_bytes := Z.max 0 (t.(tk_total_size) - Z.of_nat after * t.(tk_chunk_size)) in
    match avail with
    | Some avail =>
        if avail <? sat_add remaining_bytes t.(tk_chunk_size) then Ended Paused st else Running st
    | None => Running st
    end.
End recv.
Arguments EvTask {A}. Arguments EvJoin {A}. Arguments EvFinish {A}. Arguments EvCancel {A}.
