(* ===== verification/RecvFacts.v ===== *)
(** * A completed download is the file that was sent

    The invariant of the receive loop and what follows from it. *)
From Stdlib Require Import SpecFloat.
From S2P Require Import Prelude.
From S2P Require Import Text.
From S2P Require Import ChunkCipher.
From S2P Require Import SyncTypes.
From S2P Require Import Store.
From S2P Require Import Seeds.
From S2P Require Import Swarm.
From S2P Require Import Schedule.
From S2P Require Import Chunked.
From S2P Require Import ChunkedFacts.
From S2P Require Import Recv.
Local Open Scope Z_scope.

(** ** The output file *)

Lemma length_write_at file off b :
  length (write_at file off b) = Nat.max (length file) (off + length b).
Proof.
  unfold write_at. rewrite !length_app, length_take, length_app, length_replicate, length_drop. lia.
Qed.

Lemma write_at_same file off b : take (length b) (drop off (write_at file off b)) = b.
Proof.
  unfold write_at. rewrite drop_app_ge; rewrite length_take, length_app, length_replicate; [|lia].
  replace (off - _)%nat with 0%nat by lia. rewrite drop_0. apply take_app_length.
Qed.

(** A range of the file that does not meet the written one stays. *)
Lemma write_at_other file off b lo n :
  (lo + n ≤ length file)%nat → (lo + n ≤ off ∨ off + length b ≤ lo)%nat →
  take n (drop lo (write_at file off b)) = take n (drop lo file).
Proof.
  intros Hlen [Hlo|Hhi].
  - unfold write_at. rewrite drop_app_le by (rewrite length_take, length_app, length_replicate; lia).
    rewrite take_app_le by (rewrite length_drop, length_take, length_app, length_replicate; lia).
    rewrite take_drop_commute, take_take, Nat.min_l by lia.
    rewrite take_app_le by lia. by rewrite <- take_drop_commute.
  - unfold write_at. rewrite app_assoc. rewrite drop_app_ge by (rewrite length_app, length_take, length_app, length_replicate; lia).
    rewrite length_app, length_take, length_app, length_replicate, drop_drop. f_equal. f_equal. lia.
Qed.

(** ** The staging files *)

Section stages.
(** [sealed k ct]: [ct] is the ciphertext of piece [k]. *)
Context (sealed : nat → bytes → Prop).

(** [owner] tells which piece's bytes an inode opened in this run holds. *)
Record stages_inv (owner : gmap nat nat) (s : Stages) : Prop := {
  si_names : ∀ name ino, s.(sg_names) !! name = Some ino →
    (ino < s.(sg_next))%nat ∧ (owner !! ino = None ∨ owner !! ino = Some name.1);
  si_inj : ∀ n1 n2 ino, s.(sg_names) !! n1 = Some ino → s.(sg_names) !! n2 = Some ino → n1 = n2;
  si_owned : ∀ ino k, owner !! ino = Some k → (ino < s.(sg_next))%nat ∧
    ∃ c ct, s.(sg_inodes) !! ino = Some c ∧ sealed k ct ∧ c `prefix_of` ct }.

Lemma stage_open_inv owner name s ct :
  stages_inv owner s → sealed name.1 ct →
  let '(ino, s') := stage_open name s in
  stages_inv (<[ino := name.1]> owner) s' ∧ s'.(sg_names) !! name = Some ino ∧
  (∀ n, n ≠ name → s'.(sg_names) !! n = s.(sg_names) !! n) ∧
  (∀ ino' k, owner !! ino' = Some k → <[ino := name.1]> owner !! ino' = Some k).
Proof.
  intros [Hn Hi Ho] Hs. unfold stage_open. destruct (sg_names s !! name) as [ino|] eqn:E; cbn.
  - destruct (Hn _ _ E) as [Hlt Hown]. split; [split|]; cbn.
    + intros n i Hni. destruct (Hn _ _ Hni) as [? Hc]. split; [done|].
      destruct (decide (i = ino)) as [->|Hne]; [|by rewrite lookup_insert_ne].
      rewrite lookup_insert_eq. right. by rewrite (Hi n name ino).
    + done.
    + intros i k. destruct (decide (i = ino)) as [->|Hne].
      * rewrite !lookup_insert_eq. intros [= <-]. split; [done|]. exists [], ct. split_and!; [done..|apply prefix_nil].
      * rewrite !lookup_insert_ne by done. apply Ho.
    + split; [done|]. split; [done|]. intros i k Hk. destruct (decide (i = ino)) as [->|Hne].
      * rewrite lookup_insert_eq. destruct Hown; congruence.
      * by rewrite lookup_insert_ne.
  - assert (owner !! sg_next s = None) as Hfree.
    { destruct (owner !! sg_next s) eqn:E'; [|done]. apply Ho in E' as [? _]. lia. }
    split; [split|]; cbn.
    + intros n i [[<- <-]|[Hne Hni]]%lookup_insert_Some.
      * rewrite lookup_insert_eq. split; [lia|auto].
      * destruct (Hn _ _ Hni). rewrite lookup_insert_ne by lia. split; [lia|done].
    + intros n1 n2 i [[E1 E2]|[? H1]]%lookup_insert_Some [[E3 E4]|[? H2]]%lookup_insert_Some.
      * congruence.
      * subst i. apply Hn in H2 as [? _]. lia.
      * subst i. apply Hn in H1 as [? _]. lia.
      * by eapply Hi.
    + intros i k. destruct (decide (i = sg_next s)) as [->|Hne].
      * rewrite !lookup_insert_eq. intros [= <-]. split; [lia|]. exists [], ct. split_and!; [done..|apply prefix_nil].
      * rewrite !lookup_insert_ne by done. intros Hk. destruct (Ho _ _ Hk). split; [lia|done].
    + split; [by rewrite lookup_insert_eq|]. split; [intros n Hne; by rewrite lookup_insert_ne|].
      intros i k Hk. rewrite lookup_insert_ne; [done|]. intros <-. congruence.
Qed.

Lemma stage_write_inv owner ino k b ct s :
  stages_inv owner s → owner !! ino = Some k → sealed k ct → b `prefix_of` ct →
  stages_inv owner (stage_write ino b s).
Proof.
  intros [Hn Hi Ho] Hk Hs Hb. split; cbn; [done|done|]. intros i k' Hk'.
  destruct (Ho _ _ Hk') as (Hlt & c & ct' & Hc & Hs' & Hp). split; [done|].
  destruct (decide (i = ino)) as [->|Hne]; [|rewrite lookup_insert_ne by done; eauto].
  rewrite lookup_insert_eq. assert (k' = k) as -> by congruence. eauto.
Qed.

Lemma stage_remove_inv owner name s : stages_inv owner s → stages_inv owner (stage_remove name s).
Proof.
  intros [Hn Hi Ho]. split; cbn; [| |done].
  - intros n i [_ Hni]%lookup_delete_Some. by apply Hn.
  - intros n1 n2 i [_ H1]%lookup_delete_Some [_ H2]%lookup_delete_Some. by eapply Hi.
Qed.

Lemma stage_remove_names name s n ino :
  (stage_remove name s).(sg_names) !! n = Some ino → s.(sg_names) !! n = Some ino.
Proof. cbn. by intros [_ ?]%lookup_delete_Some. Qed.

Lemma remove_stages_inv owner i stage s : stages_inv owner s → stages_inv owner (remove_stages i stage s).
Proof. intros H. unfold remove_stages. induction (_ :: _) as [|x l IH]; [done|]. by apply stage_remove_inv. Qed.

Lemma remove_stages_names i stage s n ino :
  (remove_stages i stage s).(sg_names) !! n = Some ino → s.(sg_names) !! n = Some ino.
Proof. unfold remove_stages. induction (_ :: _) as [|x l IH]; [done|]. intros H%stage_remove_names. by apply IH. Qed.
End stages.

(** ** The loop *)

Section recv.
Context {A : Type} `{!Blake3Hash, !HexLower, !Aes256Gcm, !Aes256GcmLaws} (t : Ticket A) (data : bytes).

Abbreviation cs := (Z.to_nat t.(tk_chunk_size)).
Abbreviation n_chunks := (length t.(tk_chunks)).
Definition slice_of (k : nat) : bytes := take cs (drop (k * cs) data).

Definition sealed (k : nat) (ct : bytes) : Prop :=
  (k < n_chunks)%nat ∧ seal_chunk t.(tk_key) (N.of_nat k) (N.of_nat n_chunks) (slice_of k) = Ok ct.

(** The ticket announces [data]: its size, its chunks in order; and nothing short of a
    whole sealed chunk opens. *)
Record announces : Prop := {
  an_size : t.(tk_total_size) = zlen data;
  an_cs : 0 < t.(tk_chunk_size);
  an_chunks : Z.of_nat n_chunks = div_ceil (zlen data) t.(tk_chunk_size);
  an_sealed : ∀ k, (k < n_chunks)%nat → ∃ ct, sealed k ct ∧ t.(tk_chunks) !! k = Some (blake3_hash ct);
  an_whole : ∀ k ct c plain, sealed k ct → c `prefix_of` ct →
    open_chunk t.(tk_key) (N.of_nat k) (N.of_nat n_chunks) c = Ok plain → c = ct }.

(** No body that was fetched collides with a chunk of the file. *)
Definition genuine (ev : RecvEvent (A := A)) : Prop :=
  match ev with
  | EvTask _ (EvFetch (WHeader len body) floor) =>
      ∀ buf k ct, read_body_or_stall len floor (mkDuration MIN_RATE_GRACE_SECS 0) body [] = Ok buf →
        sealed k ct → blake3_hash buf = blake3_hash ct → buf = ct
  | _ => True
  end.

Definition on_disk (file : bytes) (k : nat) : Prop :=
  take (length (slice_of k)) (drop (k * cs) file) = slice_of k.

Definition holding (ta : Task) : option nat :=
  match ta.(ta_state) with TOpened ino | TVerified ino _ | TCut ino _ => Some ino | _ => None end.
Definition opened (ta : Task) : Prop :=
  match ta.(ta_state) with TOpened _ | TVerified _ _ | TCut _ _ | TEnded (Some (Ok _)) => True | _ => False end.

(** Pieces: what is marked is on disk, and every other piece but [hole] waits or is being
    fetched. *)
Record books_inv (hole : option nat) (st : Recv) : Prop := {
  iv_len : length st.(rc_have) = bitfield_bytes n_chunks;
  iv_sat : ∀ k, k ∈ st.(rc_satisfied) ↔ (k < n_chunks)%nat ∧ bitfield_has st.(rc_have) k = true;
  iv_disk : ∀ k, k ∈ st.(rc_satisfied) → on_disk st.(rc_file) k;
  iv_rem : ∀ k, k ∈ st.(rc_remaining) → (k < n_chunks)%nat ∧ k ∉ st.(rc_satisfied) ∧ srcs k st = ∅;
  iv_cover : ∀ k, (k < n_chunks)%nat → hole ≠ Some k → k ∈ st.(rc_satisfied) ∨ k ∈ st.(rc_remaining) ∨ srcs k st ≠ ∅;
  iv_src : ∀ k pid, pid ∈ srcs k st → (k < n_chunks)%nat ∧ k ∉ st.(rc_satisfied) ∧
    ∃ j ta, st.(rc_tasks) !! j = Some ta ∧ ta.(ta_piece) = k ∧ ta.(ta_prov) = pid;
  iv_task : ∀ j ta, st.(rc_tasks) !! j = Some ta →
    (ta.(ta_piece) < n_chunks)%nat ∧ (j < st.(rc_next_task))%nat ∧ ta.(ta_stage).1 = ta.(ta_piece) ∧
    (ta.(ta_piece) ∈ st.(rc_satisfied) ∨ ta.(ta_prov) ∈ srcs ta.(ta_piece) st) ∧
    (ta.(ta_state) = TEnded None → ta.(ta_piece) ∈ st.(rc_satisfied));
  iv_uniq : ∀ j j' ta ta', st.(rc_tasks) !! j = Some ta → st.(rc_tasks) !! j' = Some ta' →
    ta.(ta_piece) = ta'.(ta_piece) → ta.(ta_prov) = ta'.(ta_prov) → ta.(ta_piece) ∉ st.(rc_satisfied) → j = j' }.

(** Stages: an inode opened in this run holds a beginning of its piece's ciphertext. *)
Record files_inv (owner : gmap nat nat) (tasks : gmap nat Task) (s : Stages) : Prop := {
  fi_stages : stages_inv sealed owner s;
  fi_hold : ∀ j ta ino, tasks !! j = Some ta → holding ta = Some ino → owner !! ino = Some ta.(ta_piece);
  fi_buf : ∀ j ta, tasks !! j = Some ta →
    match ta.(ta_state) with TVerified _ buf | TCut _ buf => sealed ta.(ta_piece) buf | _ => True end;
  fi_open : ∀ j ta ino, tasks !! j = Some ta → opened ta →
    s.(sg_names) !! ta.(ta_stage) = Some ino → owner !! ino = Some ta.(ta_piece) }.

Definition recv_inv (st : Recv) : Prop :=
  books_inv None st ∧ ∃ owner, files_inv owner st.(rc_tasks) st.(rc_stages).

Context (Han : announces).

Lemma cs_pos : (0 < cs)%nat.
Proof. pose proof (an_cs Han). lia. Qed.

Lemma data_chunks : (length data ≤ n_chunks * cs)%nat ∧ (0 < n_chunks → (n_chunks - 1) * cs < length data)%nat.
Proof.
  pose proof (an_cs Han). pose proof (an_chunks Han).
  pose proof (div_ceil_spec (zlen data) t.(tk_chunk_size) ltac:(lia) ltac:(lia)) as (D1 & D2 & D3 & D4).
  split; [nia|]. intros Hn. assert (0 < zlen data) by (destruct (Z.eq_dec (zlen data) 0) as [Hz|]; [apply D4 in Hz; lia|lia]).
  specialize (D2 ltac:(lia)). nia.
Qed.

Lemma slice_bounds k : (k < n_chunks)%nat →
  (0 < length (slice_of k) ≤ cs)%nat ∧ (k * cs + length (slice_of k) ≤ length data)%nat ∧
  (S k < n_chunks → length (slice_of k) = cs)%nat ∧ (S k = n_chunks → k * cs + length (slice_of k) = length data)%nat.
Proof.
  intros Hk. pose proof cs_pos. destruct data_chunks as [D1 D2]. specialize (D2 ltac:(lia)).
  unfold slice_of. rewrite length_take, length_drop. assert (k * cs ≤ (n_chunks - 1) * cs)%nat by nia.
  assert (S k < n_chunks → (S k * cs ≤ (n_chunks - 1) * cs))%nat by nia.
  split_and!; lia.
Qed.

(** A view of a file that has every piece is the file that was sent. *)
Lemma all_on_disk file :
  (∀ k, (k < n_chunks)%nat → on_disk file k) → file_set_len (length data) file = data.
Proof.
  intros Hall. destruct data_chunks as [D1 D2]. pose proof cs_pos as Hcs.
  assert (∀ m, (m ≤ n_chunks)%nat → take (Nat.min (m * cs) (length data)) file = take (m * cs) data) as Hpre.
  { induction m as [|m IH]; intros Hm; [done|]. specialize (IH ltac:(lia)).
    destruct (slice_bounds m ltac:(lia)) as (B1 & B2 & B3 & B4). pose proof (Hall m ltac:(lia)) as Hd. unfold on_disk in Hd.
    assert (Nat.min (m * cs) (length data) = m * cs)%nat as Em by lia. rewrite Em in IH.
    assert (Nat.min (S m * cs) (length data) = m * cs + length (slice_of m))%nat as ->.
    { destruct (decide (S m = n_chunks)) as [E|E]; [specialize (B4 E)|specialize (B3 ltac:(lia))]; nia. }
    rewrite <- take_take_drop, IH, Hd. unfold slice_of.
    replace (S m * cs)%nat with (m * cs + cs)%nat by lia. by rewrite take_take_drop. }
  specialize (Hpre n_chunks ltac:(lia)). rewrite Nat.min_r, (take_ge data) in Hpre by lia.
  unfold file_set_len. assert (length data ≤ length file)%nat.
  { rewrite <- Hpre at 1. rewrite length_take. lia. }
  by rewrite take_app_le by lia.
Qed.

(** *** Assigning *)

Lemma fresh_candidates_spec view st i provs :
  (i, provs) ∈ fresh_candidates t view st → i ∈ st.(rc_remaining) ∧ provs ≠ [].
Proof.
  intros (j & Hj & Hps)%list_elem_of_omap. apply elem_of_elements in Hj.
  destruct (match rc_piece_backoff st !! j with Some b => _ | None => _ end); [|done].
  destruct (providers_having t view st j) as [|q qs] eqn:E; [done|]. injection Hps as <- <-. done.
Qed.

Lemma pick_spec choice view st i provs fresh :
  pick t choice view st = Some (i, provs, fresh) →
  provs ≠ [] ∧
  if fresh : bool then i ∈ st.(rc_remaining) else srcs i st ≠ ∅ ∧ ∀ p, p ∈ provs → p.1 ∉ srcs i st.
Proof.
  unfold pick. destruct (rarest_set _) as [|c0 rare] eqn:Er.
  - destruct (_ || _); [done|]. destruct (endgame_candidates t view st !! choice) as [[j ps]|] eqn:E; [|done].
    cbn. intros [= <- <- <-]. apply list_elem_of_lookup_2 in E.
    unfold endgame_candidates in E. apply list_elem_of_omap in E as (k & Hk & E).
    unfold live_pieces in Hk. apply list_elem_of_filter in Hk as [Hne _].
    destruct (_ <=? _)%nat; [done|]. destruct (filter _ _) as [|q qs] eqn:Ef; [done|]. injection E as <- <-.
    split; [done|]. split; [done|]. intros x Hx. rewrite <- Ef in Hx. by apply list_elem_of_filter in Hx as [? _].
  - destruct ((c0 :: rare) !! choice) as [[j ps]|] eqn:E; [|done]. cbn. intros [= <- <- <-].
    apply list_elem_of_lookup_2 in E. rewrite <- Er in E. apply rarest_set_spec in E as [E _].
    apply (proj1 (prefer_offloadable_spec _ _ _)), fresh_candidates_spec in E as [? ?]. done.
Qed.

Lemma choose_in st (provs : list (string * A)) c :
  choose_provider (candidate_of t st <$> provs) = Some c → ∃ p, p ∈ provs ∧ c.(cd_id) = p.1.
Proof.
  intros Hc. pose proof (min_by_spec (candidate_key (prior_rate (candidate_of t st <$> provs)))
    (pair_cmp total_cmp bytes_cmp) (candidate_of t st <$> provs)) as Hmin.
  unfold choose_provider in Hc.
  change (candidate_cmp (prior_rate (candidate_of t st <$> provs))) with (fun a b : Candidate A =>
    pair_cmp total_cmp bytes_cmp (candidate_key (prior_rate (candidate_of t st <$> provs)) a)
      (candidate_key (prior_rate (candidate_of t st <$> provs)) b)) in Hc.
  rewrite Hc in Hmin. destruct Hmin as [(p & -> & Hp)%list_elem_of_fmap _]. by exists p.
Qed.

Lemma srcs_insert i s st st' k :
  st'.(rc_piece_srcs) = <[i := s]> st.(rc_piece_srcs) → srcs k st' = if decide (k = i) then s else srcs k st.
Proof.
  intros E. unfold srcs. rewrite E. destruct (decide (k = i)) as [->|]; [by rewrite lookup_insert_eq|].
  by rewrite lookup_insert_ne.
Qed.

(** What an assignment does: one more source [pid] for piece [i], in a new task. *)
Record assigned (i : nat) (pid : string) (ta : Task) (st st' : Recv) : Prop := {
  as_task : ta.(ta_piece) = i ∧ ta.(ta_prov) = pid ∧ ta.(ta_stage).1 = i ∧ ta.(ta_state) = TSpawned;
  as_new : pid ∉ srcs i st ∧ (i ∈ st.(rc_remaining) ∨ srcs i st ≠ ∅);
  as_srcs : st'.(rc_piece_srcs) = <[i := {[pid]} ∪ srcs i st]> st.(rc_piece_srcs);
  as_tasks : st'.(rc_tasks) = <[st.(rc_next_task) := ta]> st.(rc_tasks);
  as_next : st'.(rc_next_task) = S st.(rc_next_task);
  as_rem : st'.(rc_remaining) = st.(rc_remaining) ∖ {[i]};
  as_same : st'.(rc_have) = st.(rc_have) ∧ st'.(rc_file) = st.(rc_file) ∧
            st'.(rc_satisfied) = st.(rc_satisfied) ∧ st'.(rc_stages) = st.(rc_stages);
  as_kept : st'.(rc_sidecar) = st.(rc_sidecar) ∧ st'.(rc_cooldown) = st.(rc_cooldown) ∧
            st'.(rc_banned) = st.(rc_banned) }.

Lemma assign_assigned choice view st st' :
  assign t choice view st = Some st' → books_inv None st → ∃ i pid ta, assigned i pid ta st st'.
Proof.
  intros Ha [_ _ _ B4 _ _ _ _]. unfold assign in Ha.
  destruct (pick t choice view st) as [[[i provs] fresh]|] eqn:Ep; [|done]. cbn [mbind option_bind] in Ha.
  destruct (choose_provider _) as [c|] eqn:Ec; [|done]. cbn [mbind option_bind] in Ha.
  apply pick_spec in Ep as [Hne Hi]. apply choose_in in Ec as (p & Hp & Hid). injection Ha as <-.
  set (used := {[cd_id c]} ∪ srcs i st).
  exists i, (cd_id c), (mkTask i (cd_id c) (if (size used =? 1)%nat then stage_path i else stage_dup i (size used)) TSpawned).
  split; cbn; [..|done|done].
  - split_and!; try reflexivity. by destruct (size used =? 1)%nat.
  - destruct fresh; [destruct (B4 i Hi) as (? & ? & ->); split; [set_solver|by left]|].
    destruct Hi as [Hs Hx]. rewrite Hid. auto.
  - done.
  - done.
  - done.
  - destruct fresh; [done|]. destruct Hi as [Hs _]. symmetry. apply difference_disjoint_L.
    intros k Hk ->%elem_of_singleton. by destruct (B4 i Hk) as (_ & _ & ?).
Qed.

Lemma assigned_books i pid ta st st' : assigned i pid ta st st' → books_inv None st → books_inv None st'.
Proof.
  intros [(E1 & E2 & E3 & E4) [Hnew Hi] Es Et En Er (Eh & Ef & Esat & _) _] [B1 B2 B3 B4 B5 B6 B7 B8].
  assert ((i < n_chunks)%nat ∧ i ∉ rc_satisfied st) as [Hlt Hns].
  { destruct Hi as [Hi|[q Hq]%set_choose_L]; [by destruct (B4 i Hi) as (? & ? & _)|by destruct (B6 i q Hq) as (? & ? & _)]. }
  pose proof (λ k, srcs_insert i _ st st' k Es) as Hsrc.
  assert (∀ j ta, rc_tasks st !! j = Some ta → rc_tasks st' !! j = Some ta) as Hold.
  { intros j x Hj. rewrite Et, lookup_insert_ne; [done|]. destruct (B7 j x Hj) as (_ & ? & _). lia. }
  split; rewrite ?Eh, ?Ef, ?Esat, ?Er, ?En; [done..| | | | |].
  - intros k [Hk Hki]%elem_of_difference. rewrite Hsrc, decide_False by set_solver. auto.
  - intros k Hk _. rewrite Hsrc. destruct (decide (k = i)) as [->|Hki]; [right; right; set_solver|].
    destruct (B5 k Hk) as [?|[?|?]]; set_solver.
  - intros k q. rewrite Hsrc. destruct (decide (k = i)) as [->|Hki].
    + intros [->%elem_of_singleton|Hq]%elem_of_union.
      * split_and!; [done..|]. exists (rc_next_task st), ta. by rewrite Et, lookup_insert_eq.
      * destruct (B6 i q Hq) as (? & ? & j & x & Hj & ? & ?). split_and!; [done..|]. exists j, x. auto.
    + intros Hq. destruct (B6 k q Hq) as (? & ? & j & x & Hj & ? & ?). split_and!; [done..|]. exists j, x. auto.
  - intros j x. rewrite Et, Hsrc. intros [[<- <-]|[_ Hx]]%lookup_insert_Some.
    + rewrite E1, E2, E4, decide_True by done. split_and!; [done|lia|done|right; set_solver|done].
    + destruct (B7 j x Hx) as (? & ? & ? & Hor & ?). split_and!; [done|lia|done| |done].
      destruct Hor as [?|?]; [by left|right]. destruct (decide _) as [E|]; [rewrite <- E; set_solver|done].
  - intros j j' x x'. rewrite Et. intros [[<- <-]|[_ Hx]]%lookup_insert_Some [[<- <-]|[_ Hx']]%lookup_insert_Some Hpc Hpv Hs; try done.
    + destruct (B7 j' x' Hx') as (_ & _ & _ & Hor & _). exfalso. rewrite <- Hpc, <- Hpv, E1, E2 in Hor. by destruct Hor.
    + destruct (B7 j x Hx) as (_ & _ & _ & Hor & _). exfalso. rewrite Hpc, Hpv, E1, E2 in Hor. rewrite Hpc, E1 in Hs. by destruct Hor.
    + by apply (B8 j j' x x').
Qed.

Lemma assign_inv choice view st st' :
  assign t choice view st = Some st' → recv_inv st → recv_inv st'.
Proof.
  intros Ha [Hb [owner Hf]]. destruct (assign_assigned _ _ _ _ Ha Hb) as (i & pid & ta & Has).
  split; [by eapply assigned_books|]. destruct Has as [(_ & _ & _ & E) _ _ Et _ _ (_ & _ & _ & Est) _].
  destruct Hf as [F1 F2 F3 F4]. exists owner. rewrite Est. split; [done|..].
  - intros j x ino. rewrite Et. intros [[<- <-]|[_ Hx]]%lookup_insert_Some; [unfold holding; by rewrite E|eauto].
  - intros j x. rewrite Et. intros [[<- <-]|[_ Hx]]%lookup_insert_Some; [by rewrite E|by apply (F3 j)].
  - intros j x ino. rewrite Et. intros [[<- <-]|[_ Hx]]%lookup_insert_Some; [unfold opened; by rewrite E|eauto].
Qed.
(** *** A fetch task *)

Lemma fetch_one_buf id hash answer floor banned buf banned' :
  fetch_one id hash answer floor banned = (Ok buf, banned') →
  blake3_hash buf = hash ∧ ∃ len body, answer = WHeader len body ∧
    read_body_or_stall len floor (mkDuration MIN_RATE_GRACE_SECS 0) body [] = Ok buf.
Proof.
  unfold fetch_one, open_stream. destruct answer as [| |len body]; [done..|].
  destruct (len =? 0); [done|]. destruct (len <=? MAX_CHUNK_CT); [|done]. cbn [negb].
  destruct (read_body_or_stall _ _ _ _ _) as [b|] eqn:E; [|done].
  destruct (bool_decide_reflect (blake3_hash b = hash)) as [Hh|]; [|done]. cbn [negb].
  intros [= -> _]. eauto.
Qed.

Lemma retasked_books hole k ta state st st' :
  st.(rc_tasks) !! k = Some ta → (state = TEnded None → ta.(ta_piece) ∈ st.(rc_satisfied)) →
  st'.(rc_have) = st.(rc_have) → st'.(rc_file) = st.(rc_file) → st'.(rc_satisfied) = st.(rc_satisfied) →
  st'.(rc_remaining) = st.(rc_remaining) → st'.(rc_piece_srcs) = st.(rc_piece_srcs) →
  st'.(rc_next_task) = st.(rc_next_task) →
  st'.(rc_tasks) = <[k := mkTask ta.(ta_piece) ta.(ta_prov) ta.(ta_stage) state]> st.(rc_tasks) →
  books_inv hole st → books_inv hole st'.
Proof.
  intros Hta Hend E1 E2 E3 E4 E5 E6 Et [B1 B2 B3 B4 B5 B6 B7 B8].
  assert (∀ q, srcs q st' = srcs q st) as Hsrc by (intros q; unfold srcs; by rewrite E5).
  assert (∀ j x, rc_tasks st' !! j = Some x → ∃ x0, rc_tasks st !! j = Some x0 ∧ ta_piece x = ta_piece x0 ∧
    ta_prov x = ta_prov x0 ∧ ta_stage x = ta_stage x0 ∧ (ta_state x = TEnded None → ta_piece x0 ∈ rc_satisfied st)) as Hback.
  { intros j x. rewrite Et. intros [[<- <-]|[? Hx]]%lookup_insert_Some; [by exists ta|].
    exists x. split_and!; try done. by apply (B7 j x Hx). }
  split; rewrite ?E1, ?E2, ?E3, ?E4, ?E6; try done.
  - intros q Hq. rewrite Hsrc. auto.
  - intros q Hq. rewrite Hsrc. auto.
  - intros q pid. rewrite Hsrc. intros Hq. destruct (B6 q pid Hq) as (? & ? & j & x & Hj & <- & <-).
    split_and!; [done..|]. rewrite Et. destruct (decide (j = k)) as [->|Hne].
    + eexists k, _. rewrite lookup_insert_eq. split; [reflexivity|]. assert (x = ta) as -> by congruence. done.
    + exists j, x. by rewrite lookup_insert_ne.
  - intros j x Hx. rewrite Hsrc. destruct (Hback j x Hx) as (x0 & Hx0 & -> & -> & -> & Hs).
    destruct (B7 j x0 Hx0) as (? & ? & ? & ? & ?). done.
  - intros j j' x x' Hx Hx' Hpc Hpv Hs. destruct (Hback j x Hx) as (x0 & Hx0 & F1 & F2 & _).
    destruct (Hback j' x' Hx') as (x0' & Hx0' & F1' & F2' & _). apply (B8 j j' x0 x0'); congruence.
Qed.

Lemma retasked_files owner k ta ta' tasks s :
  tasks !! k = Some ta → ta'.(ta_piece) = ta.(ta_piece) →
  (∀ ino, holding ta' = Some ino → owner !! ino = Some ta.(ta_piece)) →
  match ta'.(ta_state) with TVerified _ buf | TCut _ buf => sealed ta.(ta_piece) buf | _ => True end →
  (opened ta' → ∀ ino, s.(sg_names) !! ta'.(ta_stage) = Some ino → owner !! ino = Some ta.(ta_piece)) →
  files_inv owner tasks s → files_inv owner (<[k := ta']> tasks) s.
Proof.
  intros Hta Hp Hh Hb Ho [F1 F2 F3 F4]. split; [done|..].
  - intros j x ino [[<- <-]|[_ Hx]]%lookup_insert_Some; [rewrite Hp; auto|eauto].
  - intros j x [[<- <-]|[_ Hx]]%lookup_insert_Some; [rewrite Hp; auto|by apply (F3 j)].
  - intros j x ino [[<- <-]|[_ Hx]]%lookup_insert_Some; [rewrite Hp; auto|eauto].
Qed.

(** Writing a beginning of the piece's ciphertext through an inode it owns. *)
Lemma written_files owner ino k b ct tasks s :
  owner !! ino = Some k → sealed k ct → b `prefix_of` ct →
  files_inv owner tasks s → files_inv owner tasks (stage_write ino b s).
Proof. intros Ho Hs Hb [F1 F2 F3 F4]. split; [by eapply stage_write_inv|done..]. Qed.

(** Opening a stage of piece [k]. *)
Lemma opened_files owner name ct tasks s :
  sealed name.1 ct → (∀ j ta, tasks !! j = Some ta → ta.(ta_stage).1 = ta.(ta_piece)) →
  files_inv owner tasks s →
  let '(ino, s') := stage_open name s in
  files_inv (<[ino := name.1]> owner) tasks s' ∧ s'.(sg_names) !! name = Some ino.
Proof.
  intros Hs Hst [F1 F2 F3 F4]. pose proof (stage_open_inv sealed owner name s ct F1 Hs) as Hopen.
  destruct (stage_open name s) as [ino s']. destruct Hopen as (G1 & G2 & G3 & G4). split; [|done].
  split; [done|..|done|].
  - intros j ta i Hta Hh. apply G4. eauto.
  - intros j ta i Hta Ho Hi. destruct (decide (ta_stage ta = name)) as [En|En].
    + rewrite En, G2 in Hi. injection Hi as <-. rewrite lookup_insert_eq, <- En. f_equal. eauto.
    + rewrite G3 in Hi by done. apply G4. eauto.
Qed.
Lemma with_task_books k ta state st :
  st.(rc_tasks) !! k = Some ta → (state = TEnded None → ta.(ta_piece) ∈ st.(rc_satisfied)) →
  books_inv None st → books_inv None (with_task k ta state st).
Proof. intros Hta Hs. by apply (retasked_books None k ta state st). Qed.

Lemma same_books hole st st' :
  st'.(rc_have) = st.(rc_have) → st'.(rc_file) = st.(rc_file) → st'.(rc_satisfied) = st.(rc_satisfied) →
  st'.(rc_remaining) = st.(rc_remaining) → st'.(rc_piece_srcs) = st.(rc_piece_srcs) →
  st'.(rc_next_task) = st.(rc_next_task) → st'.(rc_tasks) = st.(rc_tasks) →
  books_inv hole st → books_inv hole st'.
Proof.
  intros E1 E2 E3 E4 E5 E6 E7 [B1 B2 B3 B4 B5 B6 B7 B8].
  assert (∀ q, srcs q st' = srcs q st) as Hsrc by (intros q; unfold srcs; by rewrite E5).
  split; rewrite ?E1, ?E2, ?E3, ?E4, ?E6, ?E7; try done; setoid_rewrite Hsrc; done.
Qed.

(** A task that gave up or failed holds nothing. *)
Lemma gave_up_files owner k ta out tasks s :
  tasks !! k = Some ta → match out with Some (Ok _) => False | _ => True end →
  files_inv owner tasks s →
  files_inv owner (<[k := mkTask ta.(ta_piece) ta.(ta_prov) ta.(ta_stage) (TEnded out)]> tasks) s.
Proof.
  intros Hta Hout. apply (retasked_files _ k ta); [done..|].
  unfold opened. cbn. by destruct out as [[|]|].
Qed.

Lemma fetched_files owner k ta ino answer floor banned tasks s :
  genuine (EvTask k (EvFetch answer floor)) → (ta.(ta_piece) < n_chunks)%nat →
  tasks !! k = Some ta → ta.(ta_state) = TOpened ino → files_inv owner tasks s →
  let state := match (fetch_one ta.(ta_prov) (default [] (t.(tk_chunks) !! ta.(ta_piece))) answer floor banned).1 with
               | Ok buf => TVerified ino buf | Err _ => TEnded (Some (Err false)) end in
  files_inv owner (<[k := mkTask ta.(ta_piece) ta.(ta_prov) ta.(ta_stage) state]> tasks) s.
Proof.
  intros Hg Hlt Hta Es Hf. pose proof Hf as [F1 F2 F3 F4].
  destruct (fetch_one _ _ _ _ _) as [[buf|e] banned'] eqn:E; cbn [fst]; [|by apply gave_up_files].
  apply fetch_one_buf in E as (Hh & len & body & -> & Hr).
  destruct (an_sealed Han _ Hlt) as (ct & Hct & Hc). rewrite Hc in Hh. cbn [default] in Hh.
  assert (buf = ct) as -> by (by apply (Hg buf (ta_piece ta) ct)).
  apply (retasked_files _ k ta); [done|done| |done| |done].
  - intros i [= <-]. apply (F2 k ta); [done|]. unfold holding. by rewrite Es.
  - intros _ i Hi. apply (F4 k ta); [done| |done]. unfold opened. by rewrite Es.
Qed.

Lemma task_step_books k ev st st' : task_step t k ev st = Some st' → books_inv None st → books_inv None st'.
Proof.
  intros Hst Hb. unfold task_step in Hst. destruct (rc_tasks st !! k) as [ta|] eqn:Hta; [|done].
  cbn [mbind option_bind] in Hst.
  destruct (ta_state ta) eqn:Es, ev as [[]|answer floor|[]|[[]|]|]; try done;
    repeat case_match; simplify_eq; first
    [ by apply with_task_books
    | eapply same_books; [..|apply (with_task_books k ta); [exact Hta| |exact Hb]]; done
    | apply with_task_books; [done|by rewrite bool_decide_eq_true in *|done] ].
Qed.

Lemma task_step_files k ev st st' owner :
  task_step t k ev st = Some st' → genuine (EvTask k ev) → books_inv None st →
  files_inv owner st.(rc_tasks) st.(rc_stages) → ∃ owner', files_inv owner' st'.(rc_tasks) st'.(rc_stages).
Proof.
  intros Hst Hg Hb Hf. unfold task_step in Hst. destruct (rc_tasks st !! k) as [ta|] eqn:Hta; [|done].
  cbn [mbind option_bind] in Hst. destruct (iv_task _ _ Hb _ _ Hta) as (Hlt & _ & Hstg & _).
  pose proof Hf as [F1 F2 F3 F4]. pose proof (F2 k ta) as Hhold. pose proof (F3 k ta Hta) as Hbuf.
  pose proof (F4 k ta) as Hopn. unfold holding, opened in Hhold, Hopn.
  destruct (ta_state ta) as [|ino|ino buf|ino buf|out] eqn:Es, ev as [[]|answer floor|[]|[[]|] sample|]; try done.
  - injection Hst as <-. exists owner. by apply gave_up_files.
  - destruct (an_sealed Han _ Hlt) as (ct & Hct & _). rewrite <- Hstg in Hct.
    pose proof (opened_files owner (ta_stage ta) ct _ _ Hct (λ j x Hx, proj1 (proj2 (proj2 (iv_task _ _ Hb j x Hx)))) Hf) as Ho.
    destruct (stage_open _ _) as [ino s]. destruct Ho as [Ho Hn]. injection Hst as <-.
    exists (<[ino := (ta_stage ta).1]> owner). apply (retasked_files _ k ta); [done|done| |done| |done].
    + intros i [= <-]. by rewrite lookup_insert_eq, Hstg.
    + intros _ i. cbn. rewrite Hn. intros [= <-]. by rewrite lookup_insert_eq, Hstg.
  - destruct (bool_decide _); [|done]. injection Hst as <-. exists owner. by apply gave_up_files.
  - pose proof (fetched_files owner k ta ino answer floor (rc_banned st) _ _ Hg Hlt Hta Es Hf) as Hff.
    destruct (fetch_one _ _ _ _ _) as [r b]. injection Hst as <-. exists owner. exact Hff.
  - destruct (bool_decide _); [|done]. injection Hst as <-. exists owner. by apply gave_up_files.
  - injection Hst as <-. exists owner. by apply gave_up_files.
  - injection Hst as <-. exists owner. apply (written_files _ _ (ta_piece ta) _ buf); [by apply Hhold|done|apply prefix_nil|].
    apply (retasked_files _ k ta); auto.
  - injection Hst as <-. exists owner. apply (written_files _ _ (ta_piece ta) _ buf); [by apply Hhold|done|apply prefix_take|].
    by apply gave_up_files.
  - injection Hst as <-. exists owner. apply (written_files _ _ (ta_piece ta) _ buf); [by apply Hhold|done|done|].
    apply (retasked_files _ k ta); auto. done.
Qed.

Lemma task_step_inv k ev st st' :
  task_step t k ev st = Some st' → genuine (EvTask k ev) → recv_inv st → recv_inv st'.
Proof.
  intros Hst Hg [Hb [owner Hf]]. split; [by eapply task_step_books|by eapply task_step_files].
Qed.
(** *** Joining a task *)

Lemma srcs_leave k ta st q :
  srcs q (leave_set k ta st) = if decide (q = ta.(ta_piece)) then srcs q st ∖ {[ta.(ta_prov)]} else srcs q st.
Proof.
  unfold srcs, leave_set. cbn. destruct (decide (q = ta_piece ta)) as [->|].
  - rewrite lookup_alter_eq. destruct (_ !! _); cbn; [done|set_solver].
  - by rewrite lookup_alter_ne.
Qed.

Lemma leave_books k ta st :
  st.(rc_tasks) !! k = Some ta → books_inv None st → books_inv (Some ta.(ta_piece)) (leave_set k ta st).
Proof.
  intros Hta [B1 B2 B3 B4 B5 B6 B7 B8]. pose proof (srcs_leave k ta st) as Hsrc.
  split; cbn [leave_set rc_have rc_file rc_satisfied rc_remaining rc_tasks rc_next_task]; try done.
  - intros q Hq. destruct (B4 q Hq) as (? & ? & E). rewrite Hsrc, E. destruct (decide _); set_solver.
  - intros q Hq Hne. rewrite Hsrc, decide_False by congruence. auto.
  - intros q pid. rewrite Hsrc. destruct (decide (q = ta_piece ta)) as [->|Hne].
    + intros [Hq Hp]%elem_of_difference. destruct (B6 _ pid Hq) as (? & ? & j & x & Hj & E1 & E2).
      split_and!; [done..|]. exists j, x. rewrite lookup_delete_ne; [done|]. intros <-. set_solver.
    + intros Hq. destruct (B6 _ pid Hq) as (? & ? & j & x & Hj & E1 & E2).
      split_and!; [done..|]. exists j, x. rewrite lookup_delete_ne; [done|]. intros <-. congruence.
  - intros j x [Hj Hx]%lookup_delete_Some. destruct (B7 j x Hx) as (? & ? & ? & Hor & ?). split_and!; try done.
    destruct (decide (ta_piece x ∈ rc_satisfied st)) as [|Hns]; [by left|right]. destruct Hor as [|Hin]; [done|].
    rewrite Hsrc. destruct (decide _) as [E|]; [|done]. apply elem_of_difference. split; [done|].
    intros Hp%elem_of_singleton. apply Hj. by apply (B8 k j ta x); rewrite <- ?E.
  - intros j j' x x' [_ Hx]%lookup_delete_Some [_ Hx']%lookup_delete_Some. eauto.
Qed.

Lemma hole_filled i st :
  i ∈ st.(rc_satisfied) ∨ i ∈ st.(rc_remaining) ∨ srcs i st ≠ ∅ → books_inv (Some i) st → books_inv None st.
Proof.
  intros Hi [B1 B2 B3 B4 B5 B6 B7 B8]. split; try done. intros k Hk _.
  destruct (decide (k = i)) as [->|Hne]; [done|]. apply B5; [done|congruence].
Qed.

Lemma failed_books now i pid stage st :
  (i < n_chunks)%nat → books_inv (Some i) st → books_inv None (fetch_failed now i pid stage st).
Proof.
  intros Hi Hb. assert (∀ q, srcs q (fetch_failed now i pid stage st) = srcs q st) as Hsrc by done.
  apply (hole_filled i).
  - rewrite Hsrc. cbn [fetch_failed rc_satisfied rc_remaining].
    destruct (decide (i ∈ rc_satisfied st)); [by left|]. destruct (decide (srcs i st = ∅)) as [E|]; [|by right; right].
    rewrite bool_decide_false, bool_decide_true by done. right; left. set_solver.
  - destruct Hb as [B1 B2 B3 B4 B5 B6 B7 B8].
    split; cbn [fetch_failed rc_have rc_file rc_satisfied rc_remaining rc_tasks rc_next_task]; try done.
    + intros q. rewrite Hsrc. destruct (bool_decide_reflect (i ∈ rc_satisfied st)); [cbn; auto|].
      destruct (bool_decide_reflect (srcs i st = ∅)); cbn; [|auto].
      intros [->%elem_of_singleton|?]%elem_of_union; [done|auto].
    + intros q Hq Hne. rewrite Hsrc. destruct (B5 q Hq Hne) as [?|[?|?]]; [auto| |auto].
      right; left. destruct (negb _ && _); set_solver.
Qed.

Lemma on_disk_length file k : (k < n_chunks)%nat → on_disk file k → (k * cs + length (slice_of k) ≤ length file)%nat.
Proof.
  intros Hk Hd. destruct (slice_bounds k Hk) as ([Hpos _] & _). apply (f_equal length) in Hd.
  rewrite length_take, length_drop in Hd. lia.
Qed.

Lemma commit_on_disk file i k :
  (i < n_chunks)%nat → (k < n_chunks)%nat → k = i ∨ on_disk file k →
  on_disk (write_at file (i * cs) (slice_of i)) k.
Proof.
  intros Hi Hk [->|Hd]; [apply write_at_same|]. destruct (decide (k = i)) as [->|Hne]; [apply write_at_same|].
  pose proof (on_disk_length file k Hk Hd). destruct (slice_bounds k Hk) as ([_ Bk] & _), (slice_bounds i Hi) as ([_ Bi] & _).
  unfold on_disk in *. rewrite write_at_other; [done|done|]. destruct (decide (k < i)%nat); [left|right]; nia.
Qed.

Lemma committed_books i stage written st :
  (i < n_chunks)%nat → books_inv (Some i) st →
  books_inv None (committed t i stage (slice_of i) written (with_satisfied i st)).
Proof.
  intros Hi [B1 B2 B3 B4 B5 B6 B7 B8].
  assert (∀ q, srcs q (committed t i stage (slice_of i) written (with_satisfied i st)) =
    if decide (q = i) then ∅ else srcs q st) as Hsrc.
  { intros q. unfold srcs. cbn. destruct (decide (q = i)) as [->|]; [by rewrite lookup_delete_eq|by rewrite lookup_delete_ne]. }
  split; cbn [committed with_satisfied rc_have rc_file rc_satisfied rc_remaining rc_tasks rc_next_task].
  - by rewrite length_bitfield_set.
  - intros k. rewrite bitfield_has_set, orb_true_iff, andb_true_iff, !bool_decide_eq_true, B1, elem_of_union, elem_of_singleton, B2.
    pose proof (bitfield_room n_chunks i Hi). naive_solver.
  - intros k [->%elem_of_singleton|Hk]%elem_of_union; [apply commit_on_disk; auto|].
    destruct (proj1 (B2 k) Hk). apply commit_on_disk; auto.
  - intros k [Hk Hne]%elem_of_difference. destruct (B4 k Hk) as (? & ? & ?). rewrite Hsrc, decide_False by set_solver. set_solver.
  - intros k Hk _. rewrite Hsrc. destruct (decide (k = i)) as [->|]; [left; set_solver|].
    destruct (B5 k Hk) as [?|[?|?]]; [congruence|set_solver..|auto].
  - intros k pid. rewrite Hsrc. destruct (decide (k = i)); [set_solver|]. intros Hq.
    destruct (B6 k pid Hq) as (? & ? & ?). split_and!; [done|set_solver|done].
  - intros j x Hx. rewrite Hsrc. destruct (B7 j x Hx) as (? & ? & ? & Hor & ?). split_and!; try done; [|set_solver].
    destruct (decide _); set_solver.
  - intros j j' x x' Hx Hx' E1 E2 Hs. apply (B8 j j' x x'); [done..|set_solver].
Qed.

Lemma shrunk_files owner k tasks s s' :
  stages_inv sealed owner s' → (∀ n ino, s'.(sg_names) !! n = Some ino → s.(sg_names) !! n = Some ino) →
  files_inv owner tasks s → files_inv owner (delete k tasks) s'.
Proof.
  intros Hs' Hn [F1 F2 F3 F4]. split; [done|..].
  - intros j ta ino [_ Hta]%lookup_delete_Some. eauto.
  - intros j ta [_ Hta]%lookup_delete_Some. by apply (F3 j).
  - intros j ta ino [_ Hta]%lookup_delete_Some ? Hi%Hn. eauto.
Qed.
End recv.
