(* ===== verification/RecvRuns.v ===== *)
(** * Downloads, from their start to their end

    What a run of the receive loop keeps, started afresh or on what an earlier run
    left: the output of a completed download is the file that was sent, and what any
    other end leaves can be resumed. Then what keeps the loop going. *)
From Stdlib Require Import SpecFloat.
From S2P Require Import Prelude.
From S2P Require Import Text.
From S2P Require Import ChunkCipher.
From S2P Require Import SyncTypes.
From S2P Require Import Store.
From S2P Require Import Seeds.
From S2P Require Import Swarm.
From S2P Require Import Schedule.
From S2P Require Import Chunked.
From S2P Require Import ChunkedFacts.
From S2P Require Import Recv.
From S2P Require Import RecvFacts.
Local Open Scope Z_scope.

Section recv.
Context {A : Type} `{!Blake3Hash, !HexLower, !Aes256Gcm, !Aes256GcmLaws} (t : Ticket A) (data : bytes).

Abbreviation cs := (Z.to_nat t.(tk_chunk_size)).
Abbreviation n_chunks := (length t.(tk_chunks)).

(** What a sidecar marks is on disk. *)
Definition resumable (file : bytes) (sidecar : option bytes) : Prop :=
  ∀ b k, sidecar = Some b → length b = bitfield_bytes n_chunks → (k < n_chunks)%nat →
    bitfield_has b k = true → on_disk t data file k.

(** What the sidecar marks is marked in memory. *)
Definition sidecar_inv (st : Recv) : Prop :=
  ∀ b k, st.(rc_sidecar) = Some b → length b = bitfield_bytes n_chunks → (k < n_chunks)%nat →
    bitfield_has b k = true → k ∈ st.(rc_satisfied).

Definition recv_good (st : Recv) : Prop := recv_inv t data st ∧ sidecar_inv st.

(** The stage files an earlier run left: each its own inode. *)
Definition stages_ok (s : Stages) : Prop :=
  (∀ name ino, s.(sg_names) !! name = Some ino → (ino < s.(sg_next))%nat) ∧
  (∀ n1 n2 ino, s.(sg_names) !! n1 = Some ino → s.(sg_names) !! n2 = Some ino → n1 = n2).

(** What a later run may start from. *)
Definition left_ok (st : Recv) : Prop :=
  resumable st.(rc_file) st.(rc_sidecar) ∧ stages_ok st.(rc_stages).

Definition phase_ok (ph : Phase) : Prop :=
  match ph with
  | Running st => recv_good st ∧ left_ok st
  | Ended Completed st => st.(rc_file) = data ∧ st.(rc_sidecar) = None
  | Ended _ st => left_ok st
  end.

Context (Han : announces t data).

Lemma good_resumable st : recv_good st → resumable st.(rc_file) st.(rc_sidecar).
Proof. intros [[Hb _] Hs] b k E Hl Hk Hbit. apply (iv_disk _ _ _ _ Hb). by eapply Hs. Qed.

Lemma stages_inv_ok owner s : stages_inv (sealed t data) owner s → stages_ok s.
Proof. intros [Hn Hi _]. split; [|done]. intros name ino E. by apply (Hn name). Qed.

Lemma good_left st : recv_good st → left_ok st.
Proof.
  intros Hg. split; [by apply good_resumable|]. destruct Hg as [[_ [owner Hf]] _]. by eapply stages_inv_ok, fi_stages.
Qed.

Lemma good_phase st : recv_good st → phase_ok (Running st).
Proof. intros Hg. split; [done|]. by apply good_left. Qed.

(** ** Joining *)

(** A piece whose ciphertext was fetched opens to the piece. *)
Lemma stage_opens owner k ta st ct plain :
  files_inv t data owner st.(rc_tasks) st.(rc_stages) → st.(rc_tasks) !! k = Some ta →
  ta.(ta_state) = TEnded (Some (Ok tt)) → stage_read ta.(ta_stage) st.(rc_stages) = Some ct →
  open_chunk t.(tk_key) (N.of_nat ta.(ta_piece)) (N.of_nat n_chunks) ct = Ok plain →
  plain = slice_of t data ta.(ta_piece).
Proof.
  intros [F1 _ _ F4] Hta Es Hrd Hop. unfold stage_read in Hrd.
  destruct (sg_names _ !! _) as [ino|] eqn:En; [|done]. cbn [mbind option_bind] in Hrd.
  assert (owner !! ino = Some (ta_piece ta)) as Ho by (apply (F4 k ta ino); [done| |done]; unfold opened; by rewrite Es).
  destruct (si_owned _ _ _ F1 _ _ Ho) as (_ & c & full & Hc & Hsl & Hp). assert (c = ct) as -> by congruence.
  assert (ct = full) as -> by (by eapply an_whole). destruct Hsl as [_ Hsl]. apply open_seal_chunk in Hsl. congruence.
Qed.

Lemma left_good k ta stage st :
  recv_good st → st.(rc_tasks) !! k = Some ta → ta.(ta_piece) ∈ st.(rc_satisfied) →
  recv_good (with_stages (stage_remove stage (leave_set k ta st).(rc_stages)) (leave_set k ta st)).
Proof.
  intros [[Hb [owner Hf]] Hs] Hta Hsat. split; [split|exact Hs].
  - eapply same_books; [..|apply (hole_filled _ _ (ta_piece ta)); [|by apply leave_books]]; try done. by left.
  - exists owner. eapply shrunk_files; [|apply stage_remove_names|exact Hf]. apply stage_remove_inv, Hf.
Qed.

Lemma failed_good now k ta st :
  recv_good st → st.(rc_tasks) !! k = Some ta →
  recv_good (fetch_failed now ta.(ta_piece) ta.(ta_prov) ta.(ta_stage) (leave_set k ta st)).
Proof.
  intros [[Hb [owner Hf]] Hs] Hta. destruct (iv_task _ _ _ _ Hb _ _ Hta) as (Hlt & _). split; [split|exact Hs].
  - by apply failed_books, leave_books.
  - exists owner. eapply shrunk_files; [|apply stage_remove_names|exact Hf]. apply stage_remove_inv, Hf.
Qed.

(** Writing part of an unfinished piece leaves the others as they are. *)
Lemma torn_resumable i written st :
  recv_good st → (i < n_chunks)%nat → i ∉ st.(rc_satisfied) →
  resumable (write_at st.(rc_file) (i * cs) (take written (slice_of t data i))) st.(rc_sidecar).
Proof.
  intros [[Hb _] Hs] Hi Hns b k E Hl Hk Hbit. specialize (Hs b k E Hl Hk Hbit).
  pose proof (iv_disk _ _ _ _ Hb _ Hs) as Hd. pose proof (on_disk_length t data Han _ k Hk Hd).
  destruct (slice_bounds t data Han k Hk) as ([_ Bk] & _), (slice_bounds t data Han i Hi) as ([_ Bi] & _).
  unfold on_disk in *. rewrite write_at_other; [done|done|]. rewrite length_take.
  assert (k ≠ i) by (intros ->; done). destruct (decide (k < i)%nat); [left|right]; nia.
Qed.

Lemma commit_ok k ta io st :
  recv_good st → st.(rc_tasks) !! k = Some ta → ta.(ta_state) = TEnded (Some (Ok tt)) →
  ta.(ta_piece) ∉ st.(rc_satisfied) → phase_ok (commit t ta.(ta_piece) ta.(ta_stage) io (leave_set k ta st)).
Proof.
  intros Hg Hta Es Hns. pose proof Hg as [[Hb [owner Hf]] Hs]. destruct (iv_task _ _ _ _ Hb _ _ Hta) as (Hlt & _).
  unfold commit. cbn [with_satisfied leave_set rc_stages].
  destruct (stage_read _ _) as [ct|] eqn:Er; [|by apply (good_left st)].
  destruct (open_chunk _ _ _ _) as [plain|] eqn:Eo; [|by apply (good_left st)].
  rewrite (stage_opens owner k ta st ct plain) by done. destruct io as [written|local w].
  - apply good_phase. split; [split|].
    + by apply committed_books, leave_books.
    + exists owner. eapply shrunk_files; [|apply remove_stages_names|exact Hf]. apply remove_stages_inv, Hf.
    + intros b q. cbn [committed with_satisfied leave_set rc_sidecar rc_satisfied rc_have]. destruct written.
      * intros [= <-] _ Hq. rewrite bitfield_has_set, orb_true_iff, andb_true_iff, !bool_decide_eq_true.
        intros [[-> _]|Hbit]; [set_solver|]. apply elem_of_union_r. by apply (iv_sat _ _ _ _ Hb).
      * intros E Hl Hq Hbit. apply elem_of_union_r. by eapply Hs.
  - assert (resumable (write_at (rc_file st) (ta_piece ta * cs) (take w (slice_of t data (ta_piece ta)))) (rc_sidecar st))
      by by apply torn_resumable. destruct (good_left st Hg) as [_ Hso]. by destruct local.
Qed.

Lemma join_ok k now io st ph : join t k now io st = Some ph → recv_good st → phase_ok ph.
Proof.
  intros Hj Hg. unfold join in Hj. destruct (rc_tasks st !! k) as [ta|] eqn:Hta; [|done].
  cbn [mbind option_bind] in Hj. pose proof Hg as [[Hb _] _].
  destruct (iv_task _ _ _ _ Hb _ _ Hta) as (_ & _ & _ & _ & Hend).
  destruct (ta_state ta) as [| | | |[[[]|[]]|]] eqn:Es; try done.
  - cbn [leave_set rc_satisfied] in Hj. destruct (bool_decide_reflect (ta_piece ta ∈ rc_satisfied st)); injection Hj as <-.
    + by apply good_phase, left_good.
    + by apply commit_ok.
  - injection Hj as <-. pose proof Hg as [[_ [owner Hf]] _]. split; [by apply (good_left st)|].
    eapply (stages_inv_ok owner), stage_remove_inv, Hf.
  - injection Hj as <-. by apply good_phase, failed_good.
  - injection Hj as <-. apply good_phase, left_good; auto.
Qed.

(** ** Runs *)

Lemma finish_ok st ph : finish t st = Some ph → recv_good st → phase_ok ph.
Proof.
  intros Hf [[Hb _] _]. unfold finish in Hf.
  destruct (bool_decide_reflect (rc_tasks st = ∅)); [|done].
  destruct (bool_decide_reflect (rc_remaining st = ∅)) as [Er|]; [|done]. cbn [andb] in Hf.
  destruct (srcs_empty st) eqn:Es; [|done]. injection Hf as <-. cbn. split; [|done].
  rewrite (an_size _ _ Han), Nat2Z.id. apply (all_on_disk t data Han). intros k Hk. apply (iv_disk _ _ _ _ Hb).
  apply bool_decide_eq_true in Es.
  destruct (iv_cover _ _ _ _ Hb k Hk ltac:(done)) as [?|[Hr|Hs]]; [done|set_solver|]. exfalso. apply Hs.
  unfold srcs. destruct (rc_piece_srcs st !! k) as [x|] eqn:E; [|done]. by apply (Es k x).
Qed.

Lemma recv_step_ok ev st ph : recv_step t ev st = Some ph → genuine t data ev → recv_good st → phase_ok ph.
Proof.
  intros Hst Hgen Hg. pose proof Hg as [Hi Hs]. destruct ev as [choice view|k ev|k now io| |]; cbn [recv_step] in Hst.
  - destruct (assign _ _ _ _) as [st'|] eqn:Ea; [|done]. cbn in Hst. injection Hst as <-. apply good_phase. split.
    + by eapply assign_inv.
    + destruct (assign_assigned t data Han _ _ _ _ Ea (proj1 Hi)) as (i & pid & ta & [_ _ _ _ _ _ (_ & _ & Esat & _) (Esc & _)]).
      intros b q. rewrite Esc, Esat. apply Hs.
  - destruct (task_step _ _ _ _) as [st'|] eqn:Et; [|done]. cbn in Hst. injection Hst as <-. apply good_phase. split.
    + by eapply task_step_inv.
    + unfold task_step in Et. destruct (rc_tasks st !! k) as [ta|]; [|done]. cbn [mbind option_bind] in Et.
      by repeat case_match; simplify_eq.
  - by eapply join_ok.
  - by eapply finish_ok.
  - injection Hst as <-. by apply (good_left st).
Qed.

Lemma recv_run_ok evs : ∀ st ph, recv_run t evs st = Some ph → Forall (genuine t data) evs → recv_good st → phase_ok ph.
Proof.
  induction evs as [|ev evs IH]; intros st ph Hr Hgen Hg; cbn in Hr; [injection Hr as <-; by apply good_phase|].
  apply Forall_cons in Hgen as [Hev Hevs]. destruct (recv_step t ev st) as [[st'|o st']|] eqn:Es; [| |done].
  - apply recv_step_ok in Es as [Hg' _]; eauto.
  - destruct evs; [|done]. injection Hr as <-. by eapply recv_step_ok.
Qed.

(** ** Starting *)

(** Nothing else that the key seals has the digest of a chunk of the file. *)
Definition no_collision : Prop :=
  ∀ j k plain ct ct', seal_chunk t.(tk_key) (N.of_nat j) (N.of_nat n_chunks) plain = Ok ct' →
    sealed t data k ct → blake3_hash ct' = blake3_hash ct → ct' = ct.

Lemma length_piece k : (k < n_chunks)%nat → Z.to_nat (piece_len t k) = length (slice_of t data k).
Proof.
  intros Hk. pose proof (an_cs _ _ Han). pose proof (an_size _ _ Han).
  destruct (slice_bounds t data Han k Hk) as (_ & _ & B3 & B4). unfold piece_len, piece_start, total.
  destruct (Nat.eqb_spec (S k) n_chunks) as [E|E]; [specialize (B4 E)|specialize (B3 ltac:(lia))]; lia.
Qed.

Lemma keep_piece_deep file k want :
  no_collision → t.(tk_chunks) !! k = Some want → keep_piece t file (Some file) k want = true → on_disk t data file k.
Proof.
  intros Hnc Hw Hkeep. assert (k < n_chunks)%nat as Hk by (by apply lookup_lt_Some in Hw).
  destruct (an_sealed _ _ Han k Hk) as (ct & Hct & Hc). assert (want = blake3_hash ct) as -> by congruence.
  unfold keep_piece, total in Hkeep. destruct (_ <? _); [done|]. destruct (negb _); [done|].
  destruct (seal_chunk _ _ _ _) as [ct'|] eqn:Es; [|done]. apply bool_decide_eq_true in Hkeep.
  assert (ct' = ct) as -> by (by eapply Hnc). apply open_seal_chunk in Es. destruct Hct as [_ Hct].
  apply open_seal_chunk in Hct. rewrite Hct in Es. apply Ok_inj in Es. rewrite length_piece in Es by done.
  unfold on_disk. replace (k * cs)%nat with (Z.to_nat (piece_start t k)); [done|].
  unfold piece_start. pose proof (an_cs _ _ Han). nia.
Qed.

(** What [revalidate_have] keeps. *)
Lemma revalidate_spec file deep have :
  length (revalidate_have t file deep have) = bitfield_bytes n_chunks ∧
  ∀ k, bitfield_has (revalidate_have t file deep have) k = true ↔
    ∃ want, t.(tk_chunks) !! k = Some want ∧ bitfield_has have k = true ∧ keep_piece t file deep k want = true.
Proof.
  set (keep := λ p : nat * Hash, bitfield_has have p.1 && keep_piece t file deep p.1 p.2).
  assert (∀ l acc, (∀ p, p ∈ l → (p.1 / 8 < length acc)%nat) →
    let out := foldl (λ checked p, if keep p then bitfield_set checked p.1 else checked) acc l in
    length out = length acc ∧
    ∀ k, bitfield_has out k = true ↔ bitfield_has acc k = true ∨ ∃ p, p ∈ l ∧ p.1 = k ∧ keep p = true) as Hfold.
  { induction l as [|p l IH]; intros acc Hl; cbn [foldl].
    - split; [done|]. intros k. split; [by left|]. intros [?|(? & []%elem_of_nil & _)]; done.
    - destruct (IH (if keep p then bitfield_set acc p.1 else acc)) as [I1 I2].
      { intros q Hq. destruct (keep p); rewrite ?length_bitfield_set; apply Hl; by right. }
      split; [rewrite I1; destruct (keep p); by rewrite ?length_bitfield_set|]. intros k. rewrite I2.
      specialize (Hl p ltac:(by left)). setoid_rewrite elem_of_cons. clear IH I1 I2.
      assert (bitfield_has (if keep p then bitfield_set acc p.1 else acc) k = true ↔
        bitfield_has acc k = true ∨ (p.1 = k ∧ keep p = true)) as ->.
      { destruct (keep p); [|naive_solver].
        rewrite bitfield_has_set, orb_true_iff, andb_true_iff, !bool_decide_eq_true. naive_solver. }
      split; [intros [[?|[]]|(q & ? & ? & ?)]|intros [?|(q & [->|?] & ? & ?)]]; eauto 6. }
  destruct (Hfold (imap pair (tk_chunks t)) (bitfield_new n_chunks)) as [F1 F2].
  { intros p (i & h & -> & Hi)%elem_of_lookup_imap_1. rewrite length_bitfield_new. apply bitfield_room. by apply lookup_lt_Some in Hi. }
  change (revalidate_have t file deep have) with (foldl (λ checked p, if keep p then bitfield_set checked p.1 else checked)
    (bitfield_new n_chunks) (imap pair (tk_chunks t))).
  split; [by rewrite F1, length_bitfield_new|]. intros k. rewrite F2, bitfield_has_new. split.
  - intros [?|(p & (i & h & -> & Hi)%elem_of_lookup_imap_1 & <- & [? ?]%andb_true_iff)]; [done|]. by exists h.
  - intros (h & Hi & ? & ?). right. exists (k, h). split; [|split; [done|]; by apply andb_true_iff].
    by apply (elem_of_lookup_imap_2 _ _ _ k).
Qed.

(** The first state of the loop: [have] marks what is on disk, and the sidecar no more. *)
Lemma recv_init_good file sidecar have stages :
  length have = bitfield_bytes n_chunks → stages_ok stages →
  (∀ k, (k < n_chunks)%nat → bitfield_has have k = true → on_disk t data file k) →
  (∀ b k, sidecar = Some b → length b = bitfield_bytes n_chunks → (k < n_chunks)%nat →
    bitfield_has b k = true → bitfield_has have k = true) →
  recv_good (recv_init t file sidecar have stages).
Proof.
  intros Hl [Hs1 Hs2] Hd Hsc.
  assert (∀ k, k ∈ rc_satisfied (recv_init t file sidecar have stages) ↔ (k < n_chunks)%nat ∧ bitfield_has have k = true) as Hsat.
  { intros k. cbn. unfold total. rewrite elem_of_list_to_set, list_elem_of_filter, elem_of_seq. naive_solver lia. }
  assert (∀ k, k ∈ rc_remaining (recv_init t file sidecar have stages) ↔ (k < n_chunks)%nat ∧ bitfield_has have k = false) as Hrem.
  { intros k. cbn. unfold total. rewrite elem_of_list_to_set, list_elem_of_filter, elem_of_seq. naive_solver lia. }
  split; [split; [split|exists ∅; split; [split|..]]|].
  - done.
  - exact Hsat.
  - intros k [Hk Hb]%Hsat. by apply Hd.
  - intros k [Hk Hb]%Hrem. split_and!; [done| |done]. rewrite Hsat, Hb. by intros [_ ?].
  - intros k Hk _. destruct (bitfield_has have k) eqn:E; [left; by apply Hsat|right; left; by apply Hrem].
  - intros k pid Hq. by apply elem_of_empty in Hq.
  - intros j ta Hj. cbn in Hj; by apply lookup_empty_Some in Hj.
  - intros j j' ta ta' Hj. cbn in Hj; by apply lookup_empty_Some in Hj.
  - intros name ino Hn. split; [by apply (Hs1 name)|by left].
  - exact Hs2.
  - intros ino k Ho. by rewrite lookup_empty in Ho.
  - intros j ta ino Hj. cbn in Hj; by apply lookup_empty_Some in Hj.
  - intros j ta Hj. cbn in Hj; by apply lookup_empty_Some in Hj.
  - intros j ta ino Hj. cbn in Hj; by apply lookup_empty_Some in Hj.
  - intros b k E Hlb Hk Hb. apply Hsat. split; [done|]. by eapply Hsc.
Qed.

Lemma read_sidecar_spec sidecar :
  length (read_sidecar t sidecar) = bitfield_bytes n_chunks ∧
  (∀ b, sidecar = Some b → length b = bitfield_bytes n_chunks → read_sidecar t sidecar = b) ∧
  ∀ k, bitfield_has (read_sidecar t sidecar) k = true → sidecar = Some (read_sidecar t sidecar).
Proof.
  unfold read_sidecar, total. destruct sidecar as [b|].
  - destruct (Nat.eqb_spec (length b) (bitfield_bytes n_chunks)) as [E|E].
    + split_and!; [done| |done]. by intros ? [= ->].
    + split_and!; [apply length_bitfield_new|by intros ? [= ->]|]. intros k. by rewrite bitfield_has_new.
  - split_and!; [apply length_bitfield_new|done|]. intros k. by rewrite bitfield_has_new.
Qed.

(** Starting is safe when the sidecar can be believed or every piece is read again. *)
Lemma recv_start_ok trust deep file sidecar stages avail :
  stages_ok stages → resumable file sidecar ∨ (trust = false ∧ deep = true ∧ no_collision) →
  phase_ok (recv_start t trust deep file sidecar stages avail).
Proof.
  intros Hso Hcase. unfold recv_start. destruct (read_sidecar_spec sidecar) as (R1 & R2 & R3).
  set (have := read_sidecar t sidecar) in *.
  destruct (revalidate_spec file (if deep then Some file else None) have) as [V1 V2].
  set (checked := revalidate_have t file _ have) in *.
  set (check := (0 <? bitfield_count have)%nat && negb trust).
  set (have' := if check then checked else have).
  set (sidecar' := if check && (bitfield_count have' <? bitfield_count have)%nat then Some have' else sidecar).
  assert (recv_good (recv_init t file sidecar' have' stages)) as Hg.
  { assert (∀ k, bitfield_has checked k = true → bitfield_has have k = true) as Hsub by (intros k (? & ? & ? & ?)%V2; done).
    apply recv_init_good; [unfold have'; by destruct check|done| |].
    - intros k Hk Hb. destruct Hcase as [Hres|(-> & -> & Hnc)].
      + assert (bitfield_has have k = true) as Hb' by (unfold have' in Hb; destruct check; auto). by apply (Hres have k (R3 k Hb')).
      + unfold have', check in Hb. destruct (Nat.ltb_spec 0 (bitfield_count have)) as [|Hz]; cbn [negb andb] in Hb.
        * apply V2 in Hb as (want & Hw & _ & Hkp). by eapply keep_piece_deep.
        * rewrite bitfield_count_0 in Hb; [done|lia].
    - intros b k Hs Hl Hk Hb. unfold sidecar', have' in *. destruct check; cbn [andb] in *; [|by rewrite (R2 b)].
      destruct (Nat.ltb_spec (bitfield_count checked) (bitfield_count have)); [by injection Hs as ->|].
      destruct (bitfield_count_subset checked have) as [C1 C2]; [congruence|done|]. apply C2; [lia|]. by rewrite (R2 b). }
  pose proof (good_left _ Hg) as Hleft. destruct (check && (bitfield_count have' =? 0)%nat); [done|].
  destruct avail as [a|]; [|by apply good_phase]. destruct (_ <? _); [done|by apply good_phase].
Qed.

(** ** What keeps the loop going *)

Lemma no_task_no_source st k : recv_inv t data st → st.(rc_tasks) = ∅ → srcs k st = ∅.
Proof.
  intros [Hb _] Ht. destruct (decide (srcs k st = ∅)) as [|Hne]; [done|exfalso].
  apply set_choose_L in Hne as [pid Hp]. destruct (iv_src _ _ _ _ Hb k pid Hp) as (_ & _ & j & ta & Hj & _).
  rewrite Ht in Hj. by apply lookup_empty_Some in Hj.
Qed.

Lemma finish_ready st : recv_inv t data st → st.(rc_tasks) = ∅ → st.(rc_remaining) = ∅ → ∃ st', finish t st = Some (Ended Completed st').
Proof.
  intros Hi Ht Hr. unfold finish. rewrite !bool_decide_true by done. cbn [andb]. unfold srcs_empty. rewrite bool_decide_true; [eauto|].
  intros k s Hk. pose proof (no_task_no_source st k Hi Ht) as E. unfold srcs in E. by rewrite Hk in E.
Qed.

Lemma assign_ready view st i :
  i ∈ st.(rc_remaining) → (∀ b, st.(rc_piece_backoff) !! i = Some b → b <= view.(vw_now)) →
  providers_having t view st i ≠ [] → ∃ st', assign t 0 view st = Some st'.
Proof.
  intros Hi Hb Hp. assert (fresh_candidates t view st ≠ []) as Hf.
  { intros E. apply Hp. assert ((i, providers_having t view st i) ∉ fresh_candidates t view st) as Hn
      by (rewrite E; apply not_elem_of_nil).
    destruct (providers_having t view st i) eqn:Ep; [done|]. exfalso. apply Hn, list_elem_of_omap. exists i.
    split; [by apply elem_of_elements|]. rewrite Ep. destruct (rc_piece_backoff st !! i) as [b|] eqn:Eb; [|done].
    by rewrite (proj2 (Z.leb_le _ _) (Hb b eq_refl)). }
  assert (∃ c, pick t 0 view st = Some c) as [[[j provs] fresh] Hpick].
  { unfold pick. destruct (rarest_set _) as [|c rare] eqn:Er; [exfalso|by exists (c, true)].
    apply (rarest_set_nonempty (prefer_offloadable (fresh_candidates t view st) (sender_id t) (origin_busy t st))); [|done].
    by apply (proj1 (proj2 (prefer_offloadable_spec _ _ _))). }
  unfold assign. rewrite Hpick. cbn [mbind option_bind]. apply pick_spec in Hpick as [Hne _].
  destruct (choose_provider (candidate_of t st <$> provs)) as [c|] eqn:Ec; [by eexists|]. exfalso.
  pose proof (min_by_spec (candidate_key (prior_rate (candidate_of t st <$> provs)))
    (pair_cmp total_cmp bytes_cmp) (candidate_of t st <$> provs)) as Hmin.
  change (min_by _ _) with (choose_provider (candidate_of t st <$> provs)) in Hmin. rewrite Ec in Hmin.
  by apply fmap_nil_inv in Hmin.
Qed.

Lemma recv_run_app evs1 evs2 : ∀ st st',
  recv_run t evs1 st = Some (Running st') → recv_run t (evs1 ++ evs2) st = recv_run t evs2 st'.
Proof.
  induction evs1 as [|ev evs1 IH]; intros st st'; cbn; [by intros [= ->]|].
  destruct (recv_step t ev st) as [[s|o s]|]; [apply IH|by destruct evs1|done].
Qed.

(** The answer of a provider that has the chunk. *)
Definition honest_answer (ct : bytes) : WireAnswer := WHeader (zlen ct) [RGot ct (mkDuration 0 0)].

Lemma honest_read ct : read_body_or_stall (zlen ct) 0 (mkDuration MIN_RATE_GRACE_SECS 0) [RGot ct (mkDuration 0 0)] [] = Ok ct.
Proof.
  cbn [read_body_or_stall length]. destruct (Z.leb_spec (zlen ct) (Z.of_nat 0)) as [Hz|Hz].
  - destruct ct; [done|cbn in Hz; lia].
  - rewrite take_ge by lia. destruct (Nat.eqb_spec (length ct) 0) as [E|E]; [lia|]. cbn [app andb Z.ltb].
    change (0 <? 0) with false. cbn [andb]. by rewrite Z.leb_refl.
Qed.

Lemma honest_fetch id ct banned :
  (0 < length ct)%nat → zlen ct <= MAX_CHUNK_CT → fetch_one id (blake3_hash ct) (honest_answer ct) 0 banned = (Ok ct, banned).
Proof.
  intros Hpos Hmax. unfold fetch_one, open_stream, honest_answer.
  destruct (Z.eqb_spec (zlen ct) 0); [lia|]. rewrite (proj2 (Z.leb_le _ _) Hmax). cbn [negb].
  by rewrite honest_read, bool_decide_true.
Qed.

(** The steps of a task that nothing disturbs, which stage its piece. *)
Lemma with_task_again k ta ta' x y st :
  ta.(ta_piece) = ta'.(ta_piece) → ta.(ta_prov) = ta'.(ta_prov) → ta.(ta_stage) = ta'.(ta_stage) →
  with_task k ta' y (with_task k ta x st) = with_task k ta y st.
Proof. intros E1 E2 E3. unfold with_task. cbn. by rewrite insert_insert_eq, E1, E2, E3. Qed.

Lemma step_open k ta ino s st :
  st.(rc_tasks) !! k = Some ta → ta.(ta_state) = TSpawned → stage_open ta.(ta_stage) st.(rc_stages) = (ino, s) →
  task_step t k (EvOpen None) st = Some (with_stages s (with_task k ta (TOpened ino) st)).
Proof. intros Hta Es Eo. unfold task_step. rewrite Hta. cbn [mbind option_bind]. by rewrite Es, Eo. Qed.

Lemma step_fetch k ta ino ct st :
  st.(rc_tasks) !! k = Some ta → ta.(ta_state) = TOpened ino → sealed t data ta.(ta_piece) ct → zlen ct <= MAX_CHUNK_CT →
  task_step t k (EvFetch (honest_answer ct) 0) st = Some (with_task k ta (TVerified ino ct) st).
Proof.
  intros Hta Es [Hlt Hseal] Hmax. apply length_seal_chunk in Hseal as Hlen. unfold CHUNK_TAG_LEN in Hlen.
  destruct (an_sealed _ _ Han _ Hlt) as (ct' & [_ Hct'] & Hc). assert (ct' = ct) as -> by congruence.
  unfold task_step. rewrite Hta. cbn [mbind option_bind]. rewrite Es, Hc. cbn [default id].
  rewrite honest_fetch by (lia || done). by destruct st.
Qed.

Lemma step_truncate k ta ino buf st :
  st.(rc_tasks) !! k = Some ta → ta.(ta_state) = TVerified ino buf →
  task_step t k (EvTruncate None) st = Some (with_stages (stage_write ino [] st.(rc_stages)) (with_task k ta (TCut ino buf) st)).
Proof. intros Hta Es. unfold task_step. rewrite Hta. cbn [mbind option_bind]. by rewrite Es. Qed.

Lemma step_write k ta ino buf st :
  st.(rc_tasks) !! k = Some ta → ta.(ta_state) = TCut ino buf →
  task_step t k (EvWrite None None) st =
    Some (with_stages (stage_write ino buf st.(rc_stages)) (with_task k ta (TEnded (Some (Ok tt))) st)).
Proof. intros Hta Es. unfold task_step. rewrite Hta. cbn [mbind option_bind]. rewrite Es. by destruct st. Qed.

Lemma recv_run_task k ev evs st st' :
  task_step t k ev st = Some st' → recv_run t (EvTask k ev :: evs) st = recv_run t evs st'.
Proof. intros E. cbn [recv_run recv_step]. by rewrite E. Qed.

Lemma fetch_runs k ta ct st :
  st.(rc_tasks) !! k = Some ta → ta.(ta_state) = TSpawned → sealed t data ta.(ta_piece) ct → zlen ct <= MAX_CHUNK_CT →
  ∃ s, recv_run t (EvTask k <$> [EvOpen None; EvFetch (honest_answer ct) 0; EvTruncate None; EvWrite None None]) st =
    Some (Running (with_stages s (with_task k ta (TEnded (Some (Ok tt))) st))) ∧ stage_read ta.(ta_stage) s = Some ct.
Proof.
  intros Hta Es Hct Hmax.
  assert (∃ ino s, stage_open ta.(ta_stage) st.(rc_stages) = (ino, s) ∧ s.(sg_names) !! ta.(ta_stage) = Some ino) as (ino & s & Eo & En).
  { unfold stage_open. destruct (sg_names _ !! _) eqn:E; eexists _, _; (split; [reflexivity|]); cbn; [done|by rewrite lookup_insert_eq]. }
  exists (stage_write ino ct (stage_write ino [] s)). split; [|unfold stage_read; cbn; rewrite En; cbn; by rewrite lookup_insert_eq].
  assert (∀ x st, rc_tasks (with_task k ta x st) !! k = Some (mkTask ta.(ta_piece) ta.(ta_prov) ta.(ta_stage) x)) as Hk
    by (intros; cbn; by rewrite lookup_insert_eq).
  cbn [fmap list_fmap]. rewrite (recv_run_task k _ _ _ _ (step_open k ta ino s st Hta Es Eo)).
  rewrite (recv_run_task k _ _ _ _ (step_fetch k _ ino ct (with_stages s (with_task k ta (TOpened ino) st)) (Hk _ _) eq_refl Hct Hmax)).
  change (with_task k ?a ?x (with_stages ?s ?st)) with (with_stages s (with_task k a x st)). rewrite with_task_again by done.
  rewrite (recv_run_task k _ _ _ _ (step_truncate k _ ino ct (with_stages s (with_task k ta (TVerified ino ct) st)) (Hk _ _) eq_refl)).
  change (with_task k ?a ?x (with_stages ?s ?st)) with (with_stages s (with_task k a x st)). rewrite with_task_again by done.
  change (rc_stages (with_stages s (with_task k ta (TVerified ino ct) st))) with s.
  change (with_stages ?s (with_stages ?s' ?st)) with (with_stages s st).
  rewrite (recv_run_task k _ _ _ _ (step_write k _ ino ct (with_stages (stage_write ino [] s) (with_task k ta (TCut ino ct) st)) (Hk _ _) eq_refl)).
  change (with_task k ?a ?x (with_stages ?s ?st)) with (with_stages s (with_task k a x st)). by rewrite with_task_again.
Qed.

Lemma map_bounded (m : gmap string Z) : ∃ n, ∀ k v, m !! k = Some v → v <= n.
Proof.
  induction m as [|k v m _ [n IH]] using map_ind; [exists 0; by intros ? ? ?%lookup_empty_Some|].
  exists (Z.max v n). intros k' v' [[_ <-]|[_ Hv]]%lookup_insert_Some; [lia|]. specialize (IH _ _ Hv). lia.
Qed.

(** A turn with nothing in flight: some waiting piece is fetched and committed. *)
Lemma piece_fetched view st i :
  no_collision → t.(tk_chunk_size) + Z.of_nat CHUNK_TAG_LEN <= MAX_CHUNK_CT →
  recv_good st → st.(rc_tasks) = ∅ → i ∈ st.(rc_remaining) →
  (∀ b, st.(rc_piece_backoff) !! i = Some b → b <= view.(vw_now)) → providers_having t view st i ≠ [] →
  ∃ evs st', Forall (genuine t data) evs ∧ recv_run t evs st = Some (Running st') ∧ st'.(rc_tasks) = ∅ ∧
    st'.(rc_cooldown) = st.(rc_cooldown) ∧ st'.(rc_banned) = st.(rc_banned) ∧
    (size st'.(rc_remaining) < size st.(rc_remaining))%nat.
Proof.
  intros Hnc Hmax Hg Ht Hi Hb Hp. pose proof Hg as [Hinv _]. pose proof Hinv as [Hbooks _].
  destruct (assign_ready view st i Hi Hb Hp) as [st1 Ha].
  destruct (assign_assigned t data Han _ _ _ _ Ha Hbooks) as (j & pid & ta & [(E1 & _ & _ & E4) [_ Hj] _ Et _ Er (_ & _ & Esat & _) (_ & Ec & Eb)]).
  destruct Hj as [Hj|Hj]; [|by rewrite (no_task_no_source st j Hinv Ht) in Hj].
  destruct (iv_rem _ _ _ _ Hbooks j Hj) as (Hlt & Hns & _). set (k := rc_next_task st) in *.
  destruct (an_sealed _ _ Han j Hlt) as (ct & Hct & _). pose proof Hct as [_ Hseal].
  pose proof (slice_bounds t data Han j Hlt) as ([_ Hle] & _). pose proof (an_cs _ _ Han). apply length_seal_chunk in Hseal as Hlen.
  rewrite Ht, insert_empty in Et. rewrite <- E1 in Hct.
  destruct (fetch_runs k ta ct st1) as (s & Hrun & Hrd); [by rewrite Et, lookup_singleton_eq|done|done|lia|].
  set (st2 := with_stages s (with_task k ta (TEnded (Some (Ok ()))) st1)) in *.
  set (ta2 := mkTask j ta.(ta_prov) ta.(ta_stage) (TEnded (Some (Ok ())))).
  assert (join t k 0 (CommitOk true) st2 = Some (Running (committed t j ta.(ta_stage) (slice_of t data j) true
    (with_satisfied j (leave_set k ta2 st2))))) as Hjoin.
  { unfold join. cbn [st2 with_stages with_task rc_tasks]. rewrite lookup_insert_eq. cbn [mbind option_bind ta_state ta_piece ta_stage].
    change (rc_satisfied (leave_set k _ _)) with (rc_satisfied st1). rewrite Esat, E1, bool_decide_false by done.
    unfold commit. change (rc_stages _) with s. cbn [ta_stage]. rewrite Hrd. unfold total. by rewrite (open_seal_chunk _ _ _ _ _ Hseal). }
  exists (EvAssign 0 view :: (EvTask k <$> [EvOpen None; EvFetch (honest_answer ct) 0; EvTruncate None; EvWrite None None])
    ++ [EvJoin k 0 (CommitOk true)]). eexists. split_and!.
  - repeat (constructor; [done|]). constructor; [|by repeat constructor]. intros buf q ct' Hbuf Hq Hh. rewrite honest_read in Hbuf.
    apply Ok_inj in Hbuf as <-. by eapply Hnc.
  - cbn [recv_run recv_step]. rewrite Ha. cbn [fmap option_fmap option_map]. rewrite (recv_run_app _ _ _ _ Hrun).
    cbn [recv_run recv_step]. rewrite Hjoin. reflexivity.
  - cbn. rewrite Et, insert_singleton_eq, delete_singleton_eq. done.
  - exact Ec.
  - exact Eb.
  - cbn. rewrite Er. apply subset_size. set_solver.
Qed.

(** ** What a download promises *)

(** One run of the program, and a download over several of them: each starts on what the
    one before left, however that ended, killed in the loop included. *)
Record Session := mkSession {
  ss_trust : bool; ss_deep : bool; ss_avail : option Z; ss_events : list (RecvEvent (A := A)) }.

Definition session (s : Session) (file : bytes) (sidecar : option bytes) (stages : Stages) : option Phase :=
  match recv_start t s.(ss_trust) s.(ss_deep) file sidecar stages s.(ss_avail) with
  | Running st => recv_run t s.(ss_events) st
  | Ended o st => Some (Ended o st)
  end.

Fixpoint sessions (s : Session) (later : list Session) (file : bytes) (sidecar : option bytes) (stages : Stages) : option Phase :=
  match later with
  | [] => session s file sidecar stages
  | s' :: later =>
      match session s file sidecar stages with
      | Some (Running st) => sessions s' later st.(rc_file) st.(rc_sidecar) st.(rc_stages)
      | Some (Ended Completed _) | None => None
      | Some (Ended _ st) => sessions s' later st.(rc_file) st.(rc_sidecar) st.(rc_stages)
      end
  end.

Lemma session_ok s file sidecar stages ph :
  Forall (genuine t data) s.(ss_events) → stages_ok stages →
  resumable file sidecar ∨ (s.(ss_trust) = false ∧ s.(ss_deep) = true ∧ no_collision) →
  session s file sidecar stages = Some ph → phase_ok ph.
Proof.
  intros Hgen Hso Hres Hs. unfold session in Hs.
  pose proof (recv_start_ok s.(ss_trust) s.(ss_deep) file sidecar stages s.(ss_avail) Hso Hres) as Hstart.
  destruct (recv_start _ _ _ _ _ _ _) as [st|o st]; [|by injection Hs as <-].
  destruct Hstart as [Hg _]. by eapply recv_run_ok.
Qed.

Lemma sessions_ok later : ∀ s file sidecar stages ph,
  Forall (λ s, Forall (genuine t data) s.(ss_events)) (s :: later) → stages_ok stages →
  resumable file sidecar ∨ (s.(ss_trust) = false ∧ s.(ss_deep) = true ∧ no_collision) →
  sessions s later file sidecar stages = Some ph → phase_ok ph.
Proof.
  induction later as [|s' later IH]; intros s file sidecar stages ph [Hgen Hlater]%Forall_cons Hso Hres Hs;
    [by eapply session_ok|].
  cbn [sessions] in Hs. destruct (session s file sidecar stages) as [ph'|] eqn:E; [|done].
  apply session_ok in E as Hph; [|done..].
  assert (∃ st, sessions s' later st.(rc_file) st.(rc_sidecar) st.(rc_stages) = Some ph ∧ left_ok st) as (st & Hst & Hr & Hso').
  { destruct ph' as [st|o st]; [exists st; split; [done|by destruct Hph]|].
    destruct o; [done|exists st; by split..]. }
  eapply (IH s'); [done|exact Hso'|by left|done].
Qed.
End recv.

Section theorems.
Context {A : Type} `{!Blake3Hash, !HexLower, !Aes256Gcm, !Aes256GcmLaws} (t : Ticket A) (data : bytes).

(** C2. Over any number of runs, whatever the providers answer (short of a digest
    collision), whatever fails and wherever a run is broken off, a download that is
    reported complete left exactly the announced bytes in the output; and any other end
    leaves a sidecar that marks only pieces whose bytes are in the output. The first run
    may start on an output it cannot trust, when it reads every piece again. *)
Theorem completed_download_is_the_file s later file sidecar stages ph :
  announces t data → stages_ok stages → Forall (λ s, Forall (genuine t data) s.(ss_events)) (s :: later) →
  resumable t data file sidecar ∨ (s.(ss_trust) = false ∧ s.(ss_deep) = true ∧ no_collision t data) →
  sessions t s later file sidecar stages = Some ph →
  match ph with
  | Ended Completed st => st.(rc_file) = data ∧ st.(rc_sidecar) = None
  | Running st | Ended _ st => resumable t data st.(rc_file) st.(rc_sidecar)
  end.
Proof.
  intros Han Hso Hgen Hres Hs. apply (sessions_ok t data Han) in Hs; [|done..].
  destruct ph as [st|[] st]; [by destruct Hs as [_ [? _]]|done|by destruct Hs..].
Qed.

(** C3. From any moment at which no fetch is under way, a download whose sender is not
    banned can still complete: there is a course of events, in which the sender answers
    with the chunks it announced, that ends with the file. *)
Theorem download_can_complete id addr st :
  announces t data → no_collision t data → t.(tk_chunk_size) + Z.of_nat CHUNK_TAG_LEN <= MAX_CHUNK_CT →
  t.(tk_sender) = Some (id, addr) → recv_good t data st → st.(rc_tasks) = ∅ → id ∉ st.(rc_banned) →
  ∃ evs st', Forall (genuine t data) evs ∧ recv_run t evs st = Some (Ended Completed st') ∧ st'.(rc_file) = data.
Proof.
  intros Han Hnc Hmax Hid. remember (size (rc_remaining st)) as n eqn:En. revert st En.
  induction n as [n IH] using lt_wf_ind; intros st -> Hg Ht Hb.
  destruct (decide (rc_remaining st = ∅)) as [Hr|[i Hi]%set_choose_L].
  - destruct (finish_ready t data st (proj1 Hg) Ht Hr) as [st' Hf]. exists [EvFinish], st'.
    split_and!; [by repeat constructor|cbn; by rewrite Hf|]. by apply (finish_ok t data Han st _ Hf Hg).
  - destruct (map_bounded st.(rc_cooldown)) as [c Hc].
    set (view := mkView (Z.max c (default 0 (st.(rc_piece_backoff) !! i))) true ∅ [] : View A).
    destruct (piece_fetched t data Han view st i) as (evs & st' & Hgen & Hrun & Ht' & Ec & Eb & Hlt); try done.
    + intros b E. subst view. rewrite E. cbn. lia.
    + unfold providers_having, providers_for_piece. subst view. cbn. rewrite Hid. unfold is_eligible.
      rewrite bool_decide_false by done. cbn [negb andb]. destruct (rc_cooldown st !! id) as [v|] eqn:E; [|done].
      rewrite (proj2 (Z.leb_le _ _)); [done|]. specialize (Hc _ _ E). lia.
    + destruct (recv_run_ok t data Han evs st _ Hrun Hgen Hg) as [Hg' _].
      destruct (IH _ Hlt st' eq_refl Hg' Ht') as (evs' & st'' & Hgen' & Hrun' & Hfile); [by rewrite Eb|].
      exists (evs ++ evs'), st''. split_and!; [by apply Forall_app|by rewrite (recv_run_app _ _ _ _ _ Hrun)|done].
Qed.

(** Checking a resumed output in depth keeps exactly the marked pieces whose bytes
    are in the output: none that is not, and none less. *)
Theorem deep_check_exact file have k :
  announces t data → no_collision t data → (k < length t.(tk_chunks))%nat →
  bitfield_has (revalidate_have t file (Some file) have) k = true ↔
    bitfield_has have k = true ∧ on_disk t data file k.
Proof.
  intros Han Hnc Hk. destruct (revalidate_spec t file (Some file) have) as [_ Hspec]. rewrite Hspec. split.
  - intros (want & Hw & Hb & Hkp). split; [done|]. by eapply keep_piece_deep.
  - intros [Hb Hd]. destruct (an_sealed _ _ Han k Hk) as (ct & [_ Hct] & Hw). exists (blake3_hash ct). split_and!; [done..|].
    pose proof (on_disk_length t data Han file k Hk Hd) as Hl. pose proof (length_piece t data Han k Hk) as Hp.
    pose proof (an_cs _ _ Han). pose proof (slice_bounds t data Han k Hk) as ([Hpos _] & _).
    assert (piece_start t k = Z.of_nat (k * Z.to_nat (tk_chunk_size t))) as Es by (unfold piece_start; nia).
    unfold keep_piece. destruct (Z.ltb_spec (zlen file) (sat_add (piece_start t k) (piece_len t k))) as [Hlt|_].
    { unfold sat_add in Hlt. lia. }
    rewrite Hp, Es, Nat2Z.id. unfold on_disk in Hd. rewrite Hd.
    rewrite (proj2 (Z.eqb_eq _ _)) by lia. cbn [negb]. unfold total. rewrite Hct. by apply bool_decide_eq_true.
Qed.
End theorems.
