(* ===== verification/Transfers.v ===== *)
(** * The rows of the transfer manager

    [core/src/manager/mod.rs]: the state of a transfer, why it waits or failed, why an
    accept was refused, the row that a client lists and the events that it hears. *)
From stdpp Require Import pretty.
From S2P Require Import Prelude.
From S2P Require Import Text.
From S2P Require Import Seeds.
From S2P Require Import Tickets.
Local Open Scope Z_scope.

Inductive Direction := Send | Recv.
#[export] Instance direction_eq_dec : EqDecision Direction.
Proof. solve_decision. Defined.

Inductive TransferStatus :=
| Active
| Preparing
| Completed
| Deposited
| Waiting (why : string)
| Paused (why : string)
| Cancelled
| Failed (why : string).
#[export] Instance transfer_status_eq_dec : EqDecision TransferStatus.
Proof. solve_decision. Defined.

(** The three groups that the code matches on. *)
Definition is_live (s : TransferStatus) : bool :=
  match s with Active | Preparing | Waiting _ => true | _ => false end.
Definition is_terminal (s : TransferStatus) : bool :=
  match s with Completed | Cancelled | Failed _ => true | _ => false end.
Definition is_paused (s : TransferStatus) : bool :=
  match s with Paused _ => true | _ => false end.

(** ** [WaitingReason] *)

Inductive WaitingReason :=
| Offered
| TooLarge
| RelayRetry (why : string)
| Parked
| RelayCapped (cap : string)
| OffloadFailed (why : string)
| NoRoute
| ForThem
| UploadRetry (why : string).

Definition waiting_code (r : WaitingReason) : string :=
  match r with
  | Offered => "offered"
  | TooLarge => "tooLarge"
  | RelayRetry _ => "relayRetry"
  | Parked => "parked"
  | RelayCapped _ => "relayCapped"
  | OffloadFailed _ => "offloadFailed"
  | NoRoute => "noRoute"
  | ForThem => "forThem"
  | UploadRetry _ => "uploadRetry"
  end.

Definition waiting_text (r : WaitingReason) : string :=
  match r with
  | Offered => "offered — waiting for them to accept"
  | TooLarge => "file too large for this relay — waiting for the recipient to come online for a direct transfer"
  | RelayRetry why => why ++ " — retrying later, and delivering P2P as soon as the recipient is online"
  | Parked => "parked on the relay — they can finish it without you online"
  | RelayCapped cap =>
      "the relay won't hold more of this transfer (cap " ++ cap ++
      ") — delivering direct as soon as they're online"
  | OffloadFailed why => "couldn't park it on the relay: " ++ why
  | NoRoute => "this network reaches no relay — sending on the local network only, and waiting for a better connection"
  | ForThem => "waiting for them to be online — direct only, nothing on the relay"
  | UploadRetry why => why ++ " — the upload carries on from where it stopped once the relay answers"
  end%string.

Definition waiting_detail (r : WaitingReason) : option string :=
  match r with
  | RelayRetry why | RelayCapped why | OffloadFailed why | UploadRetry why => Some why
  | _ => None
  end.

(** ** [FailReason] *)

Inductive FailReason :=
| SourceMissing (p : string)
| RecipientCancelled
| ExpiredOnRelay
| DepositGone (why : string)
| NoSpace
| Network (why : string)
| OtherFailure (why : string).

Definition fail_code (r : FailReason) : string :=
  match r with
  | SourceMissing _ => "sourceMissing"
  | RecipientCancelled => "recipientCancelled"
  | ExpiredOnRelay => "expiredOnRelay"
  | DepositGone _ => "depositGone"
  | NoSpace => "noSpace"
  | Network _ => "network"
  | OtherFailure _ => ""
  end.

Definition fail_text (r : FailReason) : string :=
  match r with
  | SourceMissing p => "the file is no longer where it was picked (" ++ p ++ ")"
  | RecipientCancelled => "the recipient cancelled the transfer on their side"
  | ExpiredOnRelay => "expired on the relay — the recipient never collected it"
  | DepositGone why | OtherFailure why => why
  | NoSpace => "no space left on this device"
  | Network why => "the connection dropped: " ++ why
  end%string.

Definition fail_detail (r : FailReason) : option string :=
  match r with SourceMissing p => Some p | Network why => Some why | _ => None end.

(** An [anyhow::Error]: the typed causes of its chain, outermost first, and the whole
    chain as text. *)
Inductive IoKind := IoNotFound | IoStorageFull | IoOther.
Inductive Cause :=
| CauseFail (r : FailReason)
| CauseNotAFile (p : string)
| CauseIo (kind : IoKind) (raw_os_error : option Z) (text : string)
| CauseHttp (is_connect is_timeout is_request is_body : bool) (text : string)
| CauseOther.
Record Error := mkError { er_chain : list Cause; er_text : string }.

Definition err_msg (m : string) : Error := mkError [CauseOther] m.
Definition err_fail (r : FailReason) : Error := mkError [CauseFail r] (fail_text r).
Definition err_context (m : string) (e : Error) : Error :=
  mkError (CauseOther :: e.(er_chain)) (m ++ ": " ++ e.(er_text)).

(** What one cause says by itself; [None] passes on to the next. *)
Definition classify_cause (c : Cause) : option FailReason :=
  match c with
  | CauseFail r => Some r
  | CauseNotAFile p => Some (SourceMissing p)
  | CauseIo IoNotFound _ text => Some (SourceMissing text)
  | CauseIo IoStorageFull _ _ => Some NoSpace
  | CauseIo IoOther errno _ => if decide (errno = Some 28) then Some NoSpace else None
  | CauseHttp connect timeout request body text =>
      if connect || timeout || request || body then Some (Network text) else None
  | CauseOther => None
  end.

(** [FailReason::classify]. *)
Fixpoint classify_chain (chain : list Cause) (whole : string) : FailReason :=
  match chain with
  | [] => OtherFailure whole
  | c :: chain =>
      match classify_cause c with Some r => r | None => classify_chain chain whole end
  end.
Definition classify (e : Error) : FailReason := classify_chain e.(er_chain) e.(er_text).

(** ** [AcceptRefusal] *)

Inductive AcceptRefusal := NeedsPassword | P2pOff | NoLongerWaiting.
#[export] Instance accept_refusal_eq_dec : EqDecision AcceptRefusal.
Proof. solve_decision. Defined.

Definition refusal_code (r : AcceptRefusal) : string :=
  match r with
  | NeedsPassword => "needsPassword"
  | P2pOff => "p2pOff"
  | NoLongerWaiting => "noLongerWaiting"
  end.

Definition refusal_from_code (code : string) : option AcceptRefusal :=
  if decide (code = "needsPassword"%string) then Some NeedsPassword
  else if decide (code = "p2pOff"%string) then Some P2pOff
  else if decide (code = "noLongerWaiting"%string) then Some NoLongerWaiting
  else None.

Definition offer_survives (r : AcceptRefusal) : bool :=
  match r with NeedsPassword | P2pOff => true | NoLongerWaiting => false end.

(** ** Rows *)

(** [PublicId], by its bytes. *)
Abbreviation PublicId := bytes.

(** [ShareRecord]: what a share has served; on disk, and copied onto its row. *)
Record ShareRecord := mkShareRecord {
  sh_copies_served : Z;
  sh_bytes_served : Z;
  sh_last_pickup : Z;
  sh_from_download : Z;
  sh_started : Z }.
#[export] Instance share_record_fields : Fields ShareRecord := λ r,
  mkShareRecord r.(sh_copies_served) r.(sh_bytes_served) r.(sh_last_pickup)
    r.(sh_from_download) r.(sh_started).
Definition no_share : ShareRecord := mkShareRecord 0 0 0 0 0.

(** [Transfer], with the five share counters as one [ShareRecord]. *)
Record Transfer := mkTransfer {
  tr_id : Z;
  tr_direction : Direction;
  tr_peer : option PublicId;
  tr_name : string;
  tr_total_size : Z;
  tr_transferred : Z;
  tr_status : TransferStatus;
  tr_swarm_peers : Z;
  tr_pieces_from_peers : Z;
  tr_download_peers : Z;
  tr_created : Z;
  tr_code : option string;
  tr_share : ShareRecord;
  tr_offer_status : string;
  tr_sender_name : string;
  tr_path : option string;
  tr_saved_uri : option string;
  tr_waiting_code : string;
  tr_waiting_detail : string;
  tr_fail_code : string;
  tr_fail_detail : string;
  tr_link : option string;
  tr_ticket : option string;
  tr_can_pause : bool }.
#[export] Instance transfer_fields : Fields Transfer := λ t,
  mkTransfer t.(tr_id) t.(tr_direction) t.(tr_peer) t.(tr_name) t.(tr_total_size)
    t.(tr_transferred) t.(tr_status) t.(tr_swarm_peers) t.(tr_pieces_from_peers)
    t.(tr_download_peers) t.(tr_created) t.(tr_code) t.(tr_share) t.(tr_offer_status)
    t.(tr_sender_name) t.(tr_path) t.(tr_saved_uri) t.(tr_waiting_code)
    t.(tr_waiting_detail) t.(tr_fail_code) t.(tr_fail_detail) t.(tr_link) t.(tr_ticket)
    t.(tr_can_pause).

(** [FinishedRow]: what a past transfer is put back from. *)
Record FinishedRow := mkFinishedRow {
  fr_direction : Direction;
  fr_peer : option PublicId;
  fr_name : string;
  fr_total_size : Z;
  fr_transferred : Z;
  fr_status : TransferStatus;
  fr_created : Z;
  fr_path : option string;
  fr_saved_uri : option string }.

(** [DepositInfo]: the receipt of a deposit. *)
Record DepositInfo := mkDepositInfo {
  di_relay : string;
  di_claim : string;
  di_revoke_token : string;
  di_name : string;
  di_size : Z;
  di_expires : Z;
  di_max : Z;
  di_recipient : option PublicId;
  di_offer_id : string;
  di_poster_token : string;
  di_ticket : string;
  di_link : option string }.

(** [ManagerEvent]. *)
Inductive ManagerEvent :=
| EvOfferReceived (id : string) (from : PublicId) (name : string) (size : Z)
    (note sender_name relay : string)
| EvStarted (id : Z) (direction : Direction) (name : string) (total_size : Z)
| EvProgress (id transferred total_size : Z)
| EvCompleted (id : Z) (path : option string)
| EvDeposited (id : Z) (info : DepositInfo)
| EvPreparing (id : Z)
| EvWaiting (id : Z) (reason code detail offer_status : string)
| EvPaused (id : Z) (reason : string)
| EvFailed (id : Z) (error code : string)
| EvCancelled (id : Z)
| EvLinkReady (id : Z) (info : DepositInfo)
| EvTicketReady (id : Z) (ticket : string)
| EvCodeReady (id : Z) (code : string)
| EvCodePaired (id done : Z)
| EvCodeClosed (id : Z) (reason : string)
| EvContactsChanged
| EvFinishedCleared.

(** [MailboxOpts]. *)
Record MailboxOpts := mkMailboxOpts {
  mo_ttl : option Z; mo_max : option Z; mo_password : option string; mo_target : option bytes }.

(** [source::SendSource]: a path, or a descriptor that carries only its label. *)
Inductive SendSource := SourcePath (path : string) | SourceHandle (fd : nat) (label : string).
Definition source_label (s : SendSource) : string :=
  match s with SourcePath p => p | SourceHandle _ label => label end.

(** [presence::OfferStatus] and its name. *)
Inductive OfferStatus := OfferPending | OfferArrived | OfferTaken | OfferGone.
#[export] Instance offer_status_eq_dec : EqDecision OfferStatus.
Proof. solve_decision. Defined.
Definition offer_status_as_str (s : OfferStatus) : string :=
  match s with
  | OfferPending => "pending" | OfferArrived => "arrived" | OfferTaken => "taken" | OfferGone => "gone"
  end.

(** [presence::Offer], [ReceivedOffer] and [PostedOffer]. *)
Record Offer := mkOffer {
  of_name : string;
  of_size : Z;
  of_chunks : Z;
  of_ticket : string;
  of_note : string;
  of_sender_name : string;
  of_origin : option bytes;
  of_target : option bytes;
  of_relay : string }.
Record ReceivedOffer := mkReceivedOffer { ro_id : string; ro_sender : PublicId; ro_offer : Offer }.
Record PostedOffer := mkPostedOffer { po_id : string; po_poster_token : string }.

(** [manager::publish::SavedLocation]. *)
Inductive SavedLocation := SavedPath (path : string) | SavedUri (uri : string).

(** [flow::RecvOutcome]. *)
Inductive RecvOutcome :=
| RecvCompleted (path : string)
| RecvCancelled (path : string)
| RecvPaused (output reason : string).
Definition recv_path (o : RecvOutcome) : string :=
  match o with RecvCompleted p | RecvCancelled p | RecvPaused p _ => p end.
Definition is_complete (o : RecvOutcome) : bool :=
  match o with RecvCompleted _ => true | _ => false end.

(** [flow::ClaimInfo]: one look at a deposited blob. *)
Record ClaimInfo := mkClaimInfo {
  ci_present : bool; ci_downloads : option Z; ci_max_downloads : option Z }.

(** [flow::DepositError], with the text that [Display] gives the oversized one. *)
Inductive DepositError :=
| DepositTooLarge (text : string)
| DepositBusy
| DepositUnavailable (m : string)
| DepositFatal (e : Error).
Definition deposit_error_text (e : DepositError) : string :=
  match e with
  | DepositTooLarge text => text
  | DepositBusy => "the relay is being used by a lot of people right now — try again shortly, or use a relay of your own"
  | DepositUnavailable m => "relay unavailable: " ++ m
  | DepositFatal e => e.(er_text)
  end%string.

(** [flow::SendEvent]: what serving a session reports. *)
Inductive SendEvent :=
| SeReady
| SeReceiverConnected
| SeProgress (transferred total : Z)
| SeDelivered
| SeReceiverDropped (missing : Z)
| SeBackfilled
| SeOffloaded
| SeBackfillFailed (reason : string)
| SeRelayCapped (limit_bytes : Z)
| SePeers (count : Z)
| SeRecipientCancelled.

(** [work::mib]. *)
Definition mib (b : Z) : string := (pretty (b / (1024 * 1024)) ++ " MiB")%string.

(** ** The words are stable *)

Lemma waiting_code_inj_frame r r' :
  waiting_code r = waiting_code r' → waiting_detail r = waiting_detail r' → r = r'.
Proof. destruct r, r'; cbn; congruence. Qed.

Lemma waiting_code_nonempty r : waiting_code r ≠ ""%string.
Proof. by destruct r. Qed.

Lemma refusal_code_round r : refusal_from_code (refusal_code r) = Some r.
Proof. by destruct r. Qed.

Lemma refusal_code_only code r : refusal_from_code code = Some r → refusal_code r = code.
Proof. unfold refusal_from_code. repeat case_decide; intros [=<-]; cbn; congruence. Qed.

(** ** What [classify] finds *)

Lemma classify_chain_spec chain whole :
  (∃ pre c post r, chain = pre ++ c :: post ∧ Forall (fun c => classify_cause c = None) pre ∧
     classify_cause c = Some r ∧ classify_chain chain whole = r) ∨
  Forall (fun c => classify_cause c = None) chain ∧ classify_chain chain whole = OtherFailure whole.
Proof.
  induction chain as [|c chain IH]; cbn; [by right|].
  destruct (classify_cause c) as [r|] eqn:E; [left; by exists [], c, chain, r|].
  destruct IH as [(pre & c' & post & r & -> & Hpre & Hc & Hr)|[Hall Heq]].
  - left. exists (c :: pre), c', post, r. repeat split; [by constructor|done..].
  - right. by split; [constructor|].
Qed.

Lemma classify_fail r : classify (err_fail r) = r.
Proof. reflexivity. Qed.

(** Context added on the way up changes neither the code nor the words inside it. *)
Lemma classify_context m e :
  fail_code (classify (err_context m e)) = fail_code (classify e) ∧
  (fail_code (classify e) ≠ ""%string → classify (err_context m e) = classify e).
Proof.
  unfold classify, err_context. cbn.
  assert (∀ w w', fail_code (classify_chain e.(er_chain) w) = fail_code (classify_chain e.(er_chain) w') ∧
    (fail_code (classify_chain e.(er_chain) w') ≠ ""%string →
     classify_chain e.(er_chain) w = classify_chain e.(er_chain) w')) as Hw; [|apply Hw].
  intros w w'. induction e.(er_chain) as [|c chain IH]; cbn; [done|].
  by destruct (classify_cause c).
Qed.
