(* ===== verification/Identity.v ===== *)
(** * Identities and sealing ([core/src/crypto.rs])

    An identity is two key pairs made from one stored seed; its public id is the two
    public halves.  The signing half, blinded for an epoch, is the key that an inbox slot
    names; the other half is what messages are sealed toward.  The file of an identity,
    its id and fingerprint, the blinded keys, HPKE in its two modes and the password wrap.

    The curves, HPKE, the extendable hash and Argon2id are parameters; the random bytes
    of a sealing are arguments. *)
From S2P Require Import Prelude.
From S2P Require Import Text.
From S2P Require Import ChunkCipher.
From S2P Require Import SyncCodec.
From S2P Require Import Store.
From S2P Require Import Rendezvous.
From S2P Require Import Inbox.
From S2P Require Import Code.
Local Open Scope Z_scope.

(** ** The libraries *)

(** [ed25519_dalek] and [curve25519_dalek]: keys are their bytes.  [ed_valid] is that
    [VerifyingKey::from_bytes] succeeds, [ed_mul] a point times a scalar, compressed, and
    [raw_sign] takes the scalar and prefix of an [ExpandedSecretKey]. *)
Class Ed25519 : Type := {
  scalar : Type;
  scalar_zero : scalar;
  scalar_mul : scalar → scalar → scalar;
  scalar_wide : bytes → scalar;
  ed_scalar : bytes → scalar;
  ed_verifying : bytes → bytes;
  ed_valid : bytes → bool;
  ed_torsion_free : bytes → bool;
  ed_mul : bytes → scalar → bytes;
  raw_sign : scalar → bytes → bytes → bytes → bytes }.
(** [hpke] over X25519.  A mode is the sender's pair, or public half, in auth mode. *)
Class Hpke : Type := {
  x_public : bytes → bytes;
  x_valid : bytes → bool;
  encapped_valid : bytes → bool;
  hpke_seal : option (bytes * bytes) → bytes → bytes → bytes → bytes → bytes → option (bytes * bytes);
  hpke_open : option bytes → bytes → bytes → bytes → bytes → bytes → option bytes }.
(** [Hasher::new_derive_key] read for 64 bytes, and [Argon2::hash_password_into]. *)
Class Blake3Wide : Type := { derive_wide : string → bytes → bytes }.
Class Argon2id : Type := { argon2id : Z → Z → Z → bytes → bytes → option bytes }.

(** A derived key is a valid point of prime order; a signature by a product of scalars
    verifies under the product with the point; and what is sealed opens. *)
Class Ed25519Laws `{!Ed25519, !SessionCodec} : Prop := {
  ed_verifying_length : ∀ sk, length (ed_verifying sk) = 32%nat;
  ed_verifying_valid : ∀ sk, ed_valid (ed_verifying sk) = true;
  ed_verifying_torsion_free : ∀ sk, ed_torsion_free (ed_verifying sk) = true;
  ed_mul_length : ∀ p h, length (ed_mul p h) = KEY_LEN;
  raw_sign_length : ∀ a prefix msg vk, length (raw_sign a prefix msg vk) = SIG_LEN;
  raw_sign_verifies : ∀ sk h prefix msg, h ≠ scalar_zero →
    verify_strict (ed_mul (ed_verifying sk) h) msg
      (raw_sign (scalar_mul h (ed_scalar sk)) prefix msg (ed_mul (ed_verifying sk) h)) = true }.
Class HpkeLaws `{!Hpke} : Prop := {
  x_public_length : ∀ sk, length (x_public sk) = 32%nat;
  x_public_valid : ∀ sk, x_valid (x_public sk) = true;
  hpke_encapped : ∀ mode pk info plain aad rnd e c,
    hpke_seal mode pk info plain aad rnd = Some (e, c) → encapped_valid e = true;
  hpke_opens : ∀ mode sk info plain aad rnd e c,
    hpke_seal mode (x_public sk) info plain aad rnd = Some (e, c) →
    hpke_open (snd <$> mode) sk e info c aad = Some plain }.

Definition HALF : nat := 32.
Definition INFO : bytes := bytes_of "arvolo/hpke/v1".
Definition ED_CONTEXT : string := "arvolo/identity/ed25519/v1".
Definition X_CONTEXT : string := "arvolo/identity/x25519/v1".
Definition IDENTITY_MAGIC : bytes := bytes_of "arvolo-identity-v2" ++ [Byte.x0a].
Definition BLIND_CONTEXT : string := "arvolo/inbox/blind/v1".
Definition PREFIX_CONTEXT : string := "arvolo/inbox/blind-prefix/v1".
Definition FINGERPRINT_WORDS : nat := 8.
Definition PW_SALT_LEN : nat := 16.
Definition PW_AAD : bytes := bytes_of "arvolo/pw/v1".
Definition PW_ARGON2_M_COST : Z := 64 * 1024.
Definition PW_ARGON2_T_COST : Z := 3.
Definition PW_ARGON2_P_COST : Z := 1.

(** An identity, a public id and a sealed message. *)
Record Identity := mkIdentity { id_seed : bytes; id_signing : bytes; id_sk : bytes; id_pk : bytes }.
Record PublicId := mkPublicId { pi_ed : bytes; pi_x : bytes }.
Record Sealed := mkSealed { se_encapped_key : bytes; se_ciphertext : bytes }.

Section identity.
Context `{!Ed25519, !Hpke, !Blake3Kdf, !Blake3Hash}.

(** [Identity::from_seed], [public], [secret_bytes], [from_secret_bytes]. *)
Definition from_seed (seed : bytes) : Identity :=
  let sk := derive_key X_CONTEXT seed in
  mkIdentity seed (derive_key ED_CONTEXT seed) sk (x_public sk).
Definition public (i : Identity) : PublicId := mkPublicId (ed_verifying i.(id_signing)) i.(id_pk).
Definition secret_bytes (i : Identity) : bytes := i.(id_seed).
Definition from_secret_bytes (b : bytes) : result Identity string :=
  if (length b =? HALF)%nat then Ok (from_seed b) else Err "invalid identity secret: expected 32 bytes"%string.

(** [Identity::save] and [load], on the contents of the file.  A write that fails leaves
    some file, or none. *)
Definition identity_file (i : Identity) : bytes := IDENTITY_MAGIC ++ i.(id_seed).
Definition identity_save (i : Identity) (fault : option (option bytes)) : result unit string * option bytes :=
  match fault with
  | None => (Ok tt, Some (identity_file i))
  | Some rest => (Err "write identity"%string, rest)
  end.
Fixpoint strip_magic (magic b : bytes) : option bytes :=
  match magic, b with
  | [], _ => Some b
  | x :: magic, y :: b => if decide (x = y) then strip_magic magic b else None
  | _ :: _, [] => None
  end.
Definition identity_load (file : option bytes) : result Identity string :=
  match file with
  | None => Err "read identity"%string
  | Some b =>
      match strip_magic IDENTITY_MAGIC b with
      | None => Err "not an arvolo identity of this version"%string
      | Some seed => from_secret_bytes seed
      end
  end.
(** [Identity::load_or_create]: the identity, and the file after it. *)
Definition load_or_create (file : option bytes) (seed : bytes) (fault : option (option bytes))
    : result Identity string * option bytes :=
  match file with
  | Some _ => (identity_load file, file)
  | None =>
      let i := from_seed seed in
      match identity_save i fault with (Ok _, file) => (Ok i, file) | (Err e, file) => (Err e, file) end
  end.

(** [PublicId::to_bytes], [from_bytes] and [fingerprint]. *)
Definition to_bytes (p : PublicId) : bytes := p.(pi_ed) ++ p.(pi_x).
Definition public_from_bytes (b : bytes) : result PublicId string :=
  if negb (length b =? 2 * HALF)%nat then Err "invalid public id: expected 64 bytes"%string
  else
    let ed := take HALF b in
    if negb (ed_valid ed) then Err "invalid public id (signing half)"%string
    else if negb (ed_torsion_free ed) then Err "invalid public id: signing half is outside the prime-order subgroup"%string
    else if negb (x_valid (drop HALF b)) then Err "invalid public id (KEM half)"%string
    else Ok (mkPublicId ed (drop HALF b)).
Definition fingerprint (p : PublicId) : string :=
  let digest := blake3_hash (bytes_of "arvolo/fp/v2" ++ to_bytes p) in
  String.concat "-" ((fun b => default ""%string (WORDS !! N.to_nat (Byte.to_N b))) <$> take FINGERPRINT_WORDS digest).

(** [seal], [open], [seal_anon] and [open_anon]. *)
Definition hpke_sealed (what : string) (r : option (bytes * bytes)) : result Sealed string :=
  match r with Some (e, c) => Ok (mkSealed e c) | None => Err what end.
Definition seal (plain : bytes) (recipient : PublicId) (sender : Identity) (aad rnd : bytes) : result Sealed string :=
  hpke_sealed "hpke seal" (hpke_seal (Some (sender.(id_sk), sender.(id_pk))) recipient.(pi_x) INFO plain aad rnd).
Definition open_ (s : Sealed) (recipient : Identity) (sender : PublicId) (aad : bytes) : result bytes string :=
  if negb (encapped_valid s.(se_encapped_key)) then Err "invalid encapped key"%string
  else context "hpke open (wrong recipient, sender, or tampered)"
         (hpke_open (Some sender.(pi_x)) recipient.(id_sk) s.(se_encapped_key) INFO s.(se_ciphertext) aad).
Definition seal_anon (plain : bytes) (recipient : PublicId) (aad rnd : bytes) : result Sealed string :=
  hpke_sealed "hpke seal_anon" (hpke_seal None recipient.(pi_x) INFO plain aad rnd).
Definition open_anon (s : Sealed) (recipient : Identity) (aad : bytes) : result bytes string :=
  if negb (encapped_valid s.(se_encapped_key)) then Err "invalid encapped key"%string
  else context "hpke open_anon (wrong recipient or tampered)"
         (hpke_open None recipient.(id_sk) s.(se_encapped_key) INFO s.(se_ciphertext) aad).

(** [blinded::factor], [public_at] and [sign_at]. *)
Definition factor `{!Blake3Wide} (ed : bytes) (epoch : Z) : scalar :=
  scalar_wide (derive_wide BLIND_CONTEXT (ed ++ u64_to_le epoch)).
Definition public_at `{!Blake3Wide} (p : PublicId) (epoch : Z) : bytes :=
  ed_mul p.(pi_ed) (factor p.(pi_ed) epoch).
Definition sign_at `{!Blake3Wide} (me : Identity) (epoch : Z) (msg : bytes) : bytes :=
  let p := public me in
  let h := factor p.(pi_ed) epoch in
  raw_sign (scalar_mul h (ed_scalar me.(id_signing))) (derive_key PREFIX_CONTEXT (me.(id_signing) ++ u64_to_le epoch))
    msg (ed_mul p.(pi_ed) h).

(** [pw_key], [wrap_with_password] and [unwrap_with_password]. *)
Definition pw_key `{!Argon2id} (password : string) (salt : bytes) : result bytes string :=
  if (length salt <? PW_SALT_LEN)%nat then Err "password-wrap salt must be >= 16 bytes and unique per payload"%string
  else context "password key derivation"
         (argon2id PW_ARGON2_M_COST PW_ARGON2_T_COST PW_ARGON2_P_COST (bytes_of password) salt).
Definition pw_nonce : bytes := replicate 12 Byte.x00.
Definition wrap_with_password `{!Argon2id, !Aes256Gcm} (password : string) (salt plain : bytes) : result bytes string :=
  match pw_key password salt with
  | Err e => Err e
  | Ok key => context "wrap payload with password" (aes_encrypt key pw_nonce PW_AAD plain)
  end.
Definition unwrap_with_password `{!Argon2id, !Aes256Gcm} (password : string) (salt ct : bytes) : result bytes string :=
  match pw_key password salt with
  | Err e => Err e
  | Ok key => context "wrong password or tampered payload" (aes_decrypt key pw_nonce PW_AAD ct)
  end.
End identity.

(** ** What they promise *)

Section facts.
Context `{!Ed25519, !Hpke, !Blake3Kdf, !Blake3Hash, !SessionCodec, !Ed25519Laws, !HpkeLaws}.

(** An identity is made from its seed. *)
Definition made (i : Identity) : Prop := i = from_seed i.(id_seed).
Lemma made_from_seed seed : made (from_seed seed).
Proof. done. Qed.

Lemma strip_magic_app magic b : strip_magic magic (magic ++ b) = Some b.
Proof. induction magic as [|x magic IH]; [done|]. cbn. by rewrite decide_True. Qed.
Lemma strip_magic_Some magic b rest : strip_magic magic b = Some rest → b = magic ++ rest.
Proof.
  revert b. induction magic as [|x magic IH]; intros b Hs; cbn in *; [by simplify_eq|].
  destruct b as [|y b]; [done|]. destruct (decide (x = y)) as [->|]; [|done]. cbn. f_equal. by apply IH.
Qed.

(** The file of an identity reads back as it, and nothing else does: an identity file of
    the old format, which is just as long as a seed, is refused, and so is what a torn
    write left.  An identity that was made and saved is the one of every later start. *)
Theorem identity_file_reads_back (i : Identity) (seed seed' : bytes) fault :
  made i → length i.(id_seed) = HALF → length seed = HALF →
  identity_load (Some (identity_file i)) = Ok i ∧
  (∀ b j, identity_load (Some b) = Ok j → b = identity_file j ∧ made j ∧ length j.(id_seed) = HALF) ∧
  (∀ n, (n < length (identity_file i))%nat → ∃ e, identity_load (Some (take n (identity_file i))) = Err e) ∧
  (∀ me file, load_or_create None seed fault = (Ok me, file) → load_or_create file seed' None = (Ok me, file)).
Proof.
  intros Hi Hl Hs.
  assert (∀ s, length s = HALF → identity_load (Some (IDENTITY_MAGIC ++ s)) = Ok (from_seed s)) as Hload.
  { intros s Hs'. unfold identity_load. rewrite strip_magic_app. unfold from_secret_bytes. by rewrite Hs'. }
  assert (∀ b j, identity_load (Some b) = Ok j → b = identity_file j ∧ made j ∧ length j.(id_seed) = HALF) as Honly.
  { intros b j Hj. unfold identity_load in Hj. destruct (strip_magic IDENTITY_MAGIC b) as [s|] eqn:Es; [|done].
    apply strip_magic_Some in Es as ->. unfold from_secret_bytes in Hj.
    destruct (_ =? _)%nat eqn:El in Hj; [|done]. injection Hj as <-. apply Nat.eqb_eq in El. done. }
  split_and!; [by unfold identity_file; rewrite Hload, <- Hi|done| |].
  - intros n Hn. destruct (identity_load _) as [j|e] eqn:E; [|by eexists]. exfalso.
    apply Honly in E as (E & _ & Hj). apply (f_equal length) in E.
    unfold identity_file in *. rewrite length_take, !length_app in *. lia.
  - intros me file. unfold load_or_create, identity_save. destruct fault as [rest|]; [done|]. intros [= <- <-].
    unfold identity_file. f_equal. by apply Hload.
Qed.

Lemma public_reads_back i : made i → public_from_bytes (to_bytes (public i)) = Ok (public i).
Proof.
  intros ->. unfold public_from_bytes, to_bytes. cbn.
  rewrite length_app, ed_verifying_length, x_public_length. cbn [Nat.eqb negb Nat.mul Nat.add HALF].
  rewrite take_app_length', drop_app_length' by (symmetry; apply ed_verifying_length).
  by rewrite ed_verifying_valid, ed_verifying_torsion_free, x_public_valid.
Qed.

Lemma open_seal plain (to from : Identity) aad rnd s :
  made to → made from → seal plain (public to) from aad rnd = Ok s → open_ s to (public from) aad = Ok plain.
Proof.
  intros -> -> Hs. unfold seal, hpke_sealed in Hs. cbn in Hs.
  destruct (hpke_seal _ _ _ _ _ _) as [[e c]|] eqn:E; [|done]. injection Hs as <-. unfold open_.
  cbn [se_encapped_key se_ciphertext]. rewrite (hpke_encapped _ _ _ _ _ _ _ _ E).
  pose proof (hpke_opens _ _ _ _ _ _ _ _ E) as Ho. cbn in *. by rewrite Ho.
Qed.
Lemma open_seal_anon plain (to : Identity) aad rnd s :
  made to → seal_anon plain (public to) aad rnd = Ok s → open_anon s to aad = Ok plain.
Proof.
  intros -> Hs. unfold seal_anon, hpke_sealed in Hs. cbn in Hs.
  destruct (hpke_seal _ _ _ _ _ _) as [[e c]|] eqn:E; [|done]. injection Hs as <-. unfold open_anon.
  cbn [se_encapped_key se_ciphertext]. rewrite (hpke_encapped _ _ _ _ _ _ _ _ E).
  pose proof (hpke_opens _ _ _ _ _ _ _ _ E) as Ho. cbn in *. by rewrite Ho.
Qed.

(** The owner's signature for an epoch verifies under the key anyone computes for it. *)
Lemma slot_owner_signs `{!Blake3Wide} i epoch msg :
  made i → factor (public i).(pi_ed) epoch ≠ scalar_zero →
  blinded_verify (public_at (public i) epoch) msg (sign_at i epoch msg) = true.
Proof.
  intros Hi Hf. unfold blinded_verify, public_at, sign_at. rewrite ed_mul_length, raw_sign_length. cbn [Nat.eqb negb KEY_LEN SIG_LEN].
  by apply raw_sign_verifies.
Qed.

(** What a password wraps it unwraps; a salt that is too short does neither. *)
Lemma password_unwraps `{!Argon2id, !Aes256Gcm, !Aes256GcmLaws} password salt plain ct :
  wrap_with_password password salt plain = Ok ct →
  unwrap_with_password password salt ct = Ok plain ∧ (PW_SALT_LEN <= length salt)%nat.
Proof.
  unfold wrap_with_password, unwrap_with_password, pw_key. intros Hw.
  destruct (_ <? _)%nat eqn:Hl; [done|]. apply Nat.ltb_ge in Hl.
  destruct (argon2id _ _ _ _ _) as [key|]; cbn [context] in *; [|done].
  destruct (aes_encrypt _ _ _ _) as [c|] eqn:E; cbn in Hw; [|done]. injection Hw as ->.
  by rewrite (aes_decrypt_encrypt _ _ _ _ _ E).
Qed.

(** A fingerprint is eight words of the list. *)
Lemma fingerprint_words p : length (blake3_hash (bytes_of "arvolo/fp/v2" ++ to_bytes p)) = 32%nat →
  ∃ words, fingerprint p = String.concat "-" words ∧ length words = 8%nat ∧ Forall (fun w => w ∈ WORDS) words.
Proof.
  intros Hl. unfold fingerprint. eexists. split; [done|]. rewrite length_fmap, length_take, Hl. split; [done|].
  apply Forall_fmap, Forall_forall. intros b _. cbn.
  assert (length WORDS = 256%nat) as Hw by (vm_compute; reflexivity).
  destruct (lookup_lt_is_Some_2 WORDS (N.to_nat (Byte.to_N b))) as [w Hb].
  { rewrite Hw. pose proof (Byte.to_N_bounded b). lia. }
  rewrite Hb. cbn. by eapply list_elem_of_lookup_2.
Qed.
End facts.
