(* ===== verification/Presence.v ===== *)
(** * Offers and presence, on the client ([core/src/presence.rs])

    A sender seals an offer to its recipient and posts it to the recipient's inbox slot
    on a relay; the recipient reads the slots its identity owns, with a session for each,
    opens what decodes, and hands the offers to the manager.  Slots change with the
    epoch.  The functions are programs of [Program.v]; a subscription is a record that
    they take and return, changed even where they fail.  Durations are in milliseconds,
    and the unix time is the same clock in seconds.

    Of a URL the model keeps its parts apart; [postcard] is [Wire]. *)
From stdpp Require Import gmap strings.
From S2P Require Import Prelude.
From S2P Require Import Text.
From S2P Require Import ChunkCipher.
From S2P Require Import SyncCodec.
From S2P Require Import Limits.
From S2P Require Import Store.
From S2P Require Import Mailbox.
From S2P Require Import UploadHttp.
From S2P Require Import UploadClient.
From S2P Require Import Rendezvous.
From S2P Require Import Inbox.
From S2P Require Import Code.
From S2P Require Import Tickets.
From S2P Require Import Transfers.
From S2P Require Import Identity.
From S2P Require Import Program.
Local Open Scope Z_scope.
Local Open Scope prog_scope.

Definition PRESENCE_SLOT_CONTEXT : string := "arvolo/presence/slot/v2".
Definition OFFER_AAD : bytes := bytes_of "arvolo/offer/v1".
Definition ENVELOPE_AAD : bytes := bytes_of "arvolo/offer/env/v1".
Definition INBOX_EPOCH_SECS : Z := 7 * 24 * 3600.
Definition PRESENCE_EPOCH_SECS : Z := 3600.
Definition PRESENCE_GRACE_SECS : Z := 120.
Definition SYNC_NOTE_MAGIC : bytes := bytes_of "ASN1".
Definition OFFER_STATUS_MAX_WAIT_SECS : Z := 30.
Definition LONG_POLL_SECS : Z := 25.
Definition BACKFILL_EVERY_SECS : Z := 300.
Definition MAX_ROW_SLOTS : Z := 1024.
Definition MIN_ROUND : Z := 2000.
Definition MAX_SEEN : Z := 4096.

(** ** Slots *)

Section slots.
Context `{!Ed25519, !Hpke, !Blake3Kdf, !Blake3Hash, !Blake3Wide, !SessionCodec}.

(** [derive_slot], [encode_slot], [slot_for_epoch], [slot_for_at] and [inbox_slots_at]. *)
Definition derive_slot (ctx : string) (pubkey : bytes) (epoch : Z) : string :=
  base32_encode_lower (derive_key ctx (pubkey ++ u64_to_le epoch)).
Definition encode_slot (key : bytes) : string := base32_encode_lower key.
Definition slot_for_epoch (id : PublicId) (epoch : Z) : string := encode_slot (public_at id epoch).
Definition slot_for_at (id : PublicId) (unix : Z) : string := slot_for_epoch id (unix / INBOX_EPOCH_SECS).
Definition inbox_slots_at (id : PublicId) (unix : Z) : list string :=
  let epoch := unix / INBOX_EPOCH_SECS in
  foldl (fun out n =>
    let s := slot_for_epoch id (sat_sub epoch n) in
    if decide (s ∈ out) then out else out ++ [s]) [] [0; 1].

(** [presence_slot_for_at] and [presence_slots_at]; [Vec::dedup]. *)
Definition presence_slot_for_at (pubkey : bytes) (unix : Z) : string :=
  derive_slot PRESENCE_SLOT_CONTEXT pubkey (unix / PRESENCE_EPOCH_SECS).
Fixpoint dedup (l : list string) : list string :=
  match l with
  | x :: (y :: _) as l' => if decide (x = y) then dedup l' else x :: dedup l'
  | l => l
  end.
Definition presence_slots_at (pubkey : bytes) (unix : Z) : list string :=
  let epoch := unix / PRESENCE_EPOCH_SECS in
  let into := unix mod PRESENCE_EPOCH_SECS in
  let slot := derive_slot PRESENCE_SLOT_CONTEXT pubkey in
  dedup (slot epoch ::
    (if into <? PRESENCE_GRACE_SECS then [slot (sat_sub epoch 1)]
     else if PRESENCE_EPOCH_SECS - into <=? PRESENCE_GRACE_SECS then [slot (epoch + 1)] else [])).
End slots.

(** ** Offers as bytes *)

(** [OfferV1] and its [From]; [Envelope], [SealedEnvelope], [InboxItem], [SyncNote]. *)
Record OfferV1 := mkOfferV1 {
  o1_name : string; o1_size : Z; o1_chunks : Z; o1_ticket : string; o1_note : string;
  o1_sender_name : string; o1_origin : option bytes; o1_target : option bytes }.
Definition offer_from_v1 (o : OfferV1) : Offer :=
  mkOffer o.(o1_name) o.(o1_size) o.(o1_chunks) o.(o1_ticket) o.(o1_note) o.(o1_sender_name)
    o.(o1_origin) o.(o1_target) "".
Record Envelope := mkEnvelope { ev_sender : bytes; ev_encapped_key : bytes; ev_ciphertext : bytes }.
Record SealedEnvelope := mkSealedEnvelope { sv_encapped_key : bytes; sv_ciphertext : bytes }.
Record InboxItem := mkInboxItem { ii_id : string; ii_blob : bytes }.
Inductive SyncNote := Snapshot (blob : bytes) | SnapshotRef (claim relay : string).

Section offers.
Context `{!Ed25519, !Hpke, !Blake3Kdf, !Blake3Hash, !Wire Offer, !Wire OfferV1, !Wire Envelope,
  !Wire SealedEnvelope, !Wire (list InboxItem), !Wire SyncNote}.

(** [encode_inbox_items], [encode_sync_note] and [decode_sync_note]. *)
Definition encode_inbox_items (items : list InboxItem) : result bytes string :=
  context "encode inbox items" (to_allocvec items).
Definition encode_sync_note (note : SyncNote) : result bytes string :=
  match to_allocvec note with
  | Some b => Ok (SYNC_NOTE_MAGIC ++ b)
  | None => Err "encode sync note"%string
  end.
Definition decode_sync_note (blob : bytes) : option SyncNote :=
  strip_magic SYNC_NOTE_MAGIC blob ≫= from_bytes.

(** [encode_offer_blob], of the random bytes of its two sealings. *)
Definition encode_offer_blob (o : Offer) (recipient : PublicId) (me : Identity) (rnd rnd' : bytes)
    : result bytes string :=
  match context "encode offer" (to_allocvec o) with
  | Err e => Err e
  | Ok plain =>
      match context "seal offer" (result_ok (seal plain recipient me OFFER_AAD rnd)) with
      | Err e => Err e
      | Ok sealed =>
          match context "encode envelope"
                  (to_allocvec (mkEnvelope (to_bytes (public me)) sealed.(se_encapped_key) sealed.(se_ciphertext))) with
          | Err e => Err e
          | Ok env =>
              match context "seal envelope" (result_ok (seal_anon env recipient ENVELOPE_AAD rnd')) with
              | Err e => Err e
              | Ok outer =>
                  context "encode sealed envelope"
                    (to_allocvec (mkSealedEnvelope outer.(se_encapped_key) outer.(se_ciphertext)))
              end
          end
      end
  end.

(** [decode_offer]: the sealed envelope, or a clear one of older clients. *)
Definition open_envelope (blob : bytes) (me : Identity) : option Envelope :=
  wire ← from_bytes (T := SealedEnvelope) blob;
  env ← result_ok (open_anon (mkSealed wire.(sv_encapped_key) wire.(sv_ciphertext)) me ENVELOPE_AAD);
  from_bytes env.
Definition offer_of_bytes (plain : bytes) : option Offer :=
  match from_bytes plain with
  | Some o => Some o
  | None => offer_from_v1 <$> from_bytes plain
  end.
Definition decode_offer (blob : bytes) (me : Identity) : option (PublicId * Offer) :=
  env ← match open_envelope blob me with Some env => Some env | None => from_bytes blob end;
  sender ← result_ok (public_from_bytes env.(ev_sender));
  plain ← result_ok (open_ (mkSealed env.(ev_encapped_key) env.(ev_ciphertext)) me sender OFFER_AAD);
  o ← offer_of_bytes plain;
  Some (sender, o).
End offers.

(** ** Requests *)

(** [inbox_url] with the rows, sessions and queries under it; the beacons. *)
Inductive InboxUrl :=
  | PostUrl (relay slot : string) (ttl : option Z)
  | ReadUrl (relay slot : string) (wait : Z)
  | RowUrl (relay slot id : string)
  | StatusUrl (relay slot id : string) (wait : Z) (since : string)
  | SessionUrl (relay slot : string)
  | PresenceUrl (relay slot : string).
(** A request, with the bearer token and the three headers of an inbox. *)
Record InboxRequest := mkInboxRequest {
  iq_verb : Verb; iq_url : InboxUrl; iq_bearer : option string; iq_poster_hash : option string;
  iq_poster_token : option string; iq_have : option string; iq_body : bytes }.
Definition plain_request (v : Verb) (url : InboxUrl) : InboxRequest := mkInboxRequest v url None None None None [].

Definition inbox (A : Type) : Type := prog InboxRequest (option Response) ReceivedOffer A.
Definition now_unix : inbox Z := Clock (fun t => Ret (t / 1000)).
Definition text_of (r : Response) : string := string_of (default [] r.(rs_body)).

(** ** The poster *)

(** [clamp_inbox_ttl] and [wire_word]. *)
Definition clamp_inbox_ttl (ttl : option Z) : option Z := Z.min INBOX_EPOCH_SECS <$> ttl.
Definition wire_word (s : OfferStatus) : string :=
  match s with OfferPending => "pending" | OfferArrived => "fetched" | OfferTaken => "taken" | OfferGone => "gone" end.

Section client.
Context `{!Ed25519, !Hpke, !Blake3Kdf, !Blake3Hash, !Blake3Wide, !SessionCodec, !Wire Offer, !Wire OfferV1,
  !Wire Envelope, !Wire SealedEnvelope, !Wire (list InboxItem), !Wire SyncNote}.

(** [random_token]. *)
Definition random_token : inbox string := Draw (fun b => Ret (base32_encode_lower b)).
Definition poster_hash_of (token : string) : string := base32_encode_lower (blake3_hash (bytes_of token)).

(** [post_offer]. *)
Definition post_offer (relay : string) (recipient : PublicId) (me : Identity) (o : Offer) (ttl : option Z)
    : inbox (result PostedOffer string) :=
  Draw (fun rnd => Draw (fun rnd' =>
    try? body := encode_offer_blob o recipient me rnd rnd' in
    let* now := now_unix in
    let url := PostUrl (trim_slashes relay) (slot_for_at recipient now) (clamp_inbox_ttl ttl) in
    let* poster_token := random_token in
    Send (mkInboxRequest Post url None (Some (poster_hash_of poster_token)) None None body) (fun x =>
      Ret (match x with
           | None => Err "post offer to relay"%string
           | Some resp =>
               if negb (is_success resp.(rs_status)) then Err "relay rejected offer"%string
               else match resp.(rs_body) with
                    | None => Err "read offer id"%string
                    | Some b => Ok (mkPostedOffer (str_trim (string_of b)) poster_token)
                    end
           end)))).

(** [retract_offer]: the slots in turn, until one answers with success. *)
Fixpoint retract_slots (relay id poster_token : string) (slots : list string) (failed : bool)
    : inbox (result unit string) :=
  match slots with
  | [] => Ret (if failed then Err "retract offer"%string else Ok tt)
  | slot :: slots =>
      Send (mkInboxRequest Delete (RowUrl (trim_slashes relay) slot id) None None (Some poster_token) None []) (fun x =>
        match x with
        | None => retract_slots relay id poster_token slots true
        | Some resp =>
            if is_success resp.(rs_status) then Ret (Ok tt)
            else retract_slots relay id poster_token slots failed
        end)
  end.
Definition retract_offer (relay : string) (recipient : PublicId) (id poster_token : string)
    : inbox (result unit string) :=
  let* now := now_unix in
  retract_slots relay id poster_token (inbox_slots_at recipient now) false.

(** [offer_status_once]: the slots in turn, while they say [gone]. *)
Fixpoint status_slots (relay id poster_token : string) (wait : Z) (since : string) (slots : list string)
    (first_err : option string) : inbox (result OfferStatus string) :=
  match slots with
  | [] => Ret (match first_err with Some e => Err e | None => Ok OfferGone end)
  | slot :: slots =>
      let again e := status_slots relay id poster_token wait since slots
                       (match first_err with Some e0 => Some e0 | None => Some e end) in
      Send (mkInboxRequest Get (StatusUrl (trim_slashes relay) slot id wait since) None None (Some poster_token) None [])
        (fun x =>
          match x with
          | None => again "offer status"%string
          | Some resp =>
              if is_error resp.(rs_status) then again "relay rejected offer status"%string
              else
                let word := str_trim (text_of resp) in
                if decide (word = "fetched"%string) then Ret (Ok OfferArrived)
                else if decide (word = "taken"%string) then Ret (Ok OfferTaken)
                else if decide (word = "gone"%string)
                then status_slots relay id poster_token wait since slots first_err
                else Ret (Ok OfferPending)
          end)
  end.
Definition offer_status_once (relay : string) (recipient : PublicId) (id poster_token : string) (wait_secs : Z)
    (since : option OfferStatus) : inbox (result OfferStatus string) :=
  let* now := now_unix in
  status_slots relay id poster_token (Z.min wait_secs OFFER_STATUS_MAX_WAIT_SECS)
    (match since with Some s => wire_word s | None => "" end) (inbox_slots_at recipient now) None.
Definition offer_status (relay : string) (recipient : PublicId) (id poster_token : string)
    : inbox (result OfferStatus string) :=
  offer_status_once relay recipient id poster_token 0 None.

(** [offer_status_waiting]: without news it takes all the time it was given. *)
Definition offer_status_waiting (relay : string) (recipient : PublicId) (id poster_token : string)
    (since : OfferStatus) (wait_secs : Z) : inbox (result OfferStatus string) :=
  Clock (fun started =>
    let* out := offer_status_once relay recipient id poster_token wait_secs (Some since) in
    let news := match out with Ok st => negb (bool_decide (st = since)) | Err _ => false end in
    if news then Ret out
    else Clock (fun t =>
      let spent := t - started in
      if spent <=? wait_secs * 1000 then Sleep (wait_secs * 1000 - spent) (Ret out) else Ret out)).

(** ** Beacons *)

(** [publish_beacon] and [check_online]. *)
Definition publish_beacon (relay : string) (me : Identity) : inbox (result unit string) :=
  let* now := now_unix in
  Send (plain_request Post (PresenceUrl (trim_slashes relay) (presence_slot_for_at (to_bytes (public me)) now))) (fun x =>
    Ret (match x with
         | None => Err "publish presence beacon"%string
         | Some resp => if is_success resp.(rs_status) then Ok tt else Err "relay rejected beacon"%string
         end)).
Fixpoint ask_beacons (relay : string) (slots : list string) (failed : bool) : inbox (result bool string) :=
  match slots with
  | [] => Ret (if failed then Err "check presence"%string else Ok false)
  | slot :: slots =>
      Send (plain_request Get (PresenceUrl (trim_slashes relay) slot)) (fun x =>
        match x with
        | None => ask_beacons relay slots true
        | Some resp => if is_success resp.(rs_status) then Ret (Ok true) else ask_beacons relay slots failed
        end)
  end.
Definition check_online (relay : string) (contact : PublicId) : inbox (result bool string) :=
  let* now := now_unix in
  ask_beacons relay (presence_slots_at (to_bytes contact) now) false.

(** ** The subscription *)

Record CachedSession := mkCachedSession { cs_bearer : string; cs_exp : Z }.
(** [InboxSubscription]. *)
Record Sub := mkSub {
  sb_relay : string; sb_public : PublicId; sb_secret : bytes; sb_sessions : gmap string CachedSession;
  sb_row_slots : gmap string string; sb_undecodable : gset string; sb_last_backfill : Z;
  sb_origin : option bytes; sb_held : gset string }.

(** [new] and [set_origin]. *)
Definition new_sub (relay : string) (me : Identity) : Sub :=
  mkSub relay (public me) (secret_bytes me) ∅ ∅ ∅ 0 None ∅.
Definition set_origin (device : bytes) (s : Sub) : Sub :=
  mkSub s.(sb_relay) s.(sb_public) s.(sb_secret) s.(sb_sessions) s.(sb_row_slots) s.(sb_undecodable)
    s.(sb_last_backfill) (Some device) s.(sb_held).
Definition with_sessions (x : gmap string CachedSession) (s : Sub) : Sub :=
  mkSub s.(sb_relay) s.(sb_public) s.(sb_secret) x s.(sb_row_slots) s.(sb_undecodable)
    s.(sb_last_backfill) s.(sb_origin) s.(sb_held).
Definition with_row_slots (x : gmap string string) (s : Sub) : Sub :=
  mkSub s.(sb_relay) s.(sb_public) s.(sb_secret) s.(sb_sessions) x s.(sb_undecodable)
    s.(sb_last_backfill) s.(sb_origin) s.(sb_held).
Definition with_undecodable (x : gset string) (s : Sub) : Sub :=
  mkSub s.(sb_relay) s.(sb_public) s.(sb_secret) s.(sb_sessions) s.(sb_row_slots) x
    s.(sb_last_backfill) s.(sb_origin) s.(sb_held).
Definition with_last_backfill (x : Z) (s : Sub) : Sub :=
  mkSub s.(sb_relay) s.(sb_public) s.(sb_secret) s.(sb_sessions) s.(sb_row_slots) s.(sb_undecodable)
    x s.(sb_origin) s.(sb_held).
Definition with_held (x : gset string) (s : Sub) : Sub :=
  mkSub s.(sb_relay) s.(sb_public) s.(sb_secret) s.(sb_sessions) s.(sb_row_slots) s.(sb_undecodable)
    s.(sb_last_backfill) s.(sb_origin) x.

(** A method of a subscription: its result, and the subscription after it. *)
Definition method (A : Type) : Type := inbox (result A string * Sub).
Definition and_then {A B} (p : method A) (f : A → Sub → method B) : method B :=
  let* r := p in
  match r with (Ok a, s) => f a s | (Err e, s) => Ret (Err e, s) end.

(** [is_ours], [aimed_elsewhere], [me], [remember_rows], [have_header]: the ids in one of
    the orders a set may list them. *)
Definition is_ours (s : Sub) (o : Offer) : bool :=
  match s.(sb_origin), o.(of_origin) with Some mine, Some theirs => bool_decide (mine = theirs) | _, _ => false end.
Definition aimed_elsewhere (s : Sub) (o : Offer) : bool :=
  match s.(sb_origin), o.(of_target) with Some mine, Some theirs => negb (bool_decide (mine = theirs)) | _, _ => false end.
Definition sub_me (s : Sub) : result Identity string := from_secret_bytes s.(sb_secret).
Definition remember_rows (slot : string) (ids : list string) (s : Sub) : Sub :=
  let map := if MAX_ROW_SLOTS <? Z.of_nat (size s.(sb_row_slots)) then ∅ else s.(sb_row_slots) in
  with_row_slots (foldl (fun m id => <[id := slot]> m) map ids) s.
Definition have_header (s : Sub) : option string :=
  if decide (s.(sb_held) = ∅) then None else Some (String.concat "," (elements s.(sb_held))).

(** [backfill_due] at a moment, and [epoch_of]. *)
Definition backfill_due (now : Z) (s : Sub) : bool * Sub :=
  if sat_sub now s.(sb_last_backfill) <? BACKFILL_EVERY_SECS then (false, s) else (true, with_last_backfill now s).
Definition epoch_of (slot : string) (me : Identity) (unix : Z) : option Z :=
  let now := unix / INBOX_EPOCH_SECS in
  find (fun e => bool_decide (slot_for_epoch (public me) e = slot)) [now; sat_sub now 1].

(** [ensure_session]. *)
Definition fresh_session (slot : string) (s : Sub) : method string :=
  match sub_me s with
  | Err e => Ret (Err e, s)
  | Ok me =>
      Send (plain_request Post (SessionUrl (trim_slashes s.(sb_relay)) slot)) (fun x =>
        match x with
        | None => Ret (Err "request inbox session"%string, s)
        | Some resp =>
            if is_error resp.(rs_status) then Ret (Err "relay rejected inbox session"%string, s)
            else match resp.(rs_body) with
                 | None => Ret (Err "read session challenge"%string, s)
                 | Some b =>
                     match challenge_from_bytes b with
                     | None => Ret (Err "decode session challenge"%string, s)
                     | Some c =>
                         let* now := now_unix in
                         match epoch_of slot me now with
                         | None => Ret (Err "no epoch of ours produces this slot"%string, s)
                         | Some epoch =>
                             let sig := sign_at me epoch (session_signing_input slot c.(sc_nonce) c.(sc_exp)) in
                             let bearer := base32_encode_lower
                               (token_to_vec (mkSessionToken c.(sc_nonce) c.(sc_exp) c.(sc_mac) sig)) in
                             Ret (Ok bearer,
                                  with_sessions (<[slot := mkCachedSession bearer c.(sc_exp)]> s.(sb_sessions)) s)
                         end
                     end
                 end
        end)
  end.
Definition ensure_session (slot : string) (force : bool) (s : Sub) : method string :=
  match (if force then None else s.(sb_sessions) !! slot) with
  | None => fresh_session slot s
  | Some c =>
      let* now := now_unix in
      if now + 60 <? c.(cs_exp) then Ret (Ok c.(cs_bearer), s) else fresh_session slot s
  end.

(** [authed]: once more with a fresh session after a 401. *)
Definition authed_round (verb : Verb) (slot : string) (url : InboxUrl) (have : option string) (st : bool * Sub)
    : inbox ((bool * Sub) + result bytes string * Sub) :=
  let '(forced, s) := st in
  let* r := ensure_session slot forced s in
  match r with
  | (Err e, s) => Ret (inr (Err e, s))
  | (Ok bearer, s) =>
      Send (mkInboxRequest verb url (Some bearer) None None have []) (fun x =>
        Ret (match x with
             | None => inr (Err "inbox request"%string, s)
             | Some resp =>
                 if (resp.(rs_status) =? UNAUTHORIZED) && negb forced
                 then inl (true, with_sessions (delete slot s.(sb_sessions)) s)
                 else if is_error resp.(rs_status) then inr (Err "relay rejected inbox request"%string, s)
                 else inr (context "read inbox response" resp.(rs_body), s)
             end))
  end.
Definition authed (verb : Verb) (slot : string) (url : InboxUrl) (have : option string) (s : Sub) : method bytes :=
  loop (authed_round verb slot url have) (false, s).

(** [items_across_slots]: the rows of a body, and the older slots after the first. *)
Definition rows_of (slot : string) (first : bool) (b : bytes) (s : Sub) : result (list InboxItem) string * Sub :=
  match b with
  | [] => (Ok [], s)
  | _ =>
      match from_bytes b with
      | None => (Err "decode inbox items"%string, s)
      | Some items =>
          let s := remember_rows slot (ii_id <$> items) s in
          (Ok items, if first then with_held (list_to_set (ii_id <$> items)) s else s)
      end
  end.
Definition read_slot (slot : string) (first : bool) (wait : Z) (s : Sub) : method bytes :=
  authed Get slot (ReadUrl (trim_slashes s.(sb_relay)) slot wait)
    (if first && (0 <? wait) then have_header s else None) s.
Fixpoint older_slots (slots : list string) (decided backfill : bool) (out : list InboxItem) (s : Sub)
    : method (list InboxItem) :=
  match slots with
  | [] => Ret (Ok out, s)
  | slot :: slots =>
      let read s :=
        let* r := read_slot slot false 0 s in
        match r with
        | (Err _, s) => older_slots slots true true out s
        | (Ok b, s) =>
            match rows_of slot false b s with
            | (Err e, s) => Ret (Err e, s)
            | (Ok items, s) => older_slots slots true true (out ++ items) s
            end
        end in
      if backfill then read s
      else if decided then Ret (Ok out, s)
      else
        let* now := now_unix in
        let '(due, s) := backfill_due now s in
        if due then read s else Ret (Ok out, s)
  end.
Definition items_across_slots (wait_secs : Z) (s : Sub) : method (list InboxItem) :=
  let* now := now_unix in
  match inbox_slots_at s.(sb_public) now with
  | [] => Ret (Ok [], s)
  | slot :: older =>
      and_then (read_slot slot true wait_secs s) (fun b s =>
        match rows_of slot true b s with
        | (Err e, s) => Ret (Err e, s)
        | (Ok items, s) => older_slots older false (wait_secs =? 0) items s
        end)
  end.
Definition raw_items (wait_secs : Z) (s : Sub) : method (list InboxItem) := items_across_slots wait_secs s.

(** [poll_wait]: what of the rows is handed out, and what is noted as undecodable. *)
Definition sift_row (me : Identity) (s : Sub) (acc : list ReceivedOffer * gset string) (i : InboxItem)
    : list ReceivedOffer * gset string :=
  let '(out, undecodable) := acc in
  if bool_decide (is_Some (decode_sync_note i.(ii_blob))) then acc
  else match decode_offer i.(ii_blob) me with
       | Some (sender, o) =>
           if is_ours s o then acc
           else if aimed_elsewhere s o then acc
           else (out ++ [mkReceivedOffer i.(ii_id) (to_bytes sender) o], undecodable)
       | None => (out, {[i.(ii_id)]} ∪ undecodable)
       end.
Definition sift (me : Identity) (s : Sub) (items : list InboxItem) : list ReceivedOffer * Sub :=
  let '(out, undecodable) := foldl (sift_row me s) ([], s.(sb_undecodable)) items in
  (out, with_undecodable undecodable s).
Definition poll_wait (wait_secs : Z) (s : Sub) : method (list ReceivedOffer) :=
  and_then (items_across_slots wait_secs s) (fun items s =>
    match sub_me s with
    | Err e => Ret (Err e, s)
    | Ok me => let '(out, s) := sift me s items in Ret (Ok out, s)
    end).
Definition poll (s : Sub) : method (list ReceivedOffer) := poll_wait LONG_POLL_SECS s.

(** [post_raw] and [ack]. *)
Definition post_raw (body : bytes) (ttl : option Z) (s : Sub) : method string :=
  let* now := now_unix in
  Send (mkInboxRequest Post (PostUrl (trim_slashes s.(sb_relay)) (slot_for_at s.(sb_public) now) (clamp_inbox_ttl ttl))
          None None None None body) (fun x =>
    Ret (match x with
         | None => Err "post to inbox"%string
         | Some resp =>
             if negb (is_success resp.(rs_status)) then Err "relay rejected inbox post"%string
             else match resp.(rs_body) with
                  | None => Err "read post id"%string
                  | Some b => Ok (str_trim (string_of b))
                  end
         end, s)).
Definition ack (id : string) (s : Sub) : method unit :=
  let* slot := match s.(sb_row_slots) !! id with
               | Some slot => Ret slot
               | None => let* now := now_unix in Ret (slot_for_at s.(sb_public) now)
               end in
  and_then (authed Delete slot (RowUrl (trim_slashes s.(sb_relay)) slot id) None s) (fun _ s =>
    Ret (Ok tt, with_row_slots (delete id s.(sb_row_slots)) s)).

(** [run]: a wait and a poll end when the token is cancelled. *)
Definition nap (ms : Z) {S R : Type} (stop : R) (s : S) : inbox (S + R) :=
  Sleep ms (Stopped (fun stopped => Ret (if stopped then inr stop else inl s))).
Fixpoint surface (offers : list ReceivedOffer) (seen : gset string) : inbox (gset string) :=
  match offers with
  | [] => Ret seen
  | o :: offers =>
      if decide (o.(ro_id) ∈ seen) then surface offers seen
      else Tell o (surface offers ({[o.(ro_id)]} ∪ seen))
  end.
Definition pace (round_started : Z) (st : gset string * Sub) : inbox ((gset string * Sub) + unit) :=
  Clock (fun t =>
    let elapsed := t - round_started in
    if elapsed <? MIN_ROUND then nap (MIN_ROUND - elapsed) tt st else Ret (inl st)).
Definition run_round (st : gset string * Sub) : inbox ((gset string * Sub) + unit) :=
  let '(seen, s) := st in
  Stopped (fun stopped =>
    if stopped then Ret (inr tt)
    else Clock (fun round_started =>
      let* polled := cancellable (poll s) in
      match polled with
      | None => Ret (inr tt)
      | Some (Ok offers, s) =>
          let seen := if MAX_SEEN <? Z.of_nat (size seen) then ∅ else seen in
          let* seen := surface offers seen in
          pace round_started (seen, s)
      | Some (Err _, s) =>
          let* st := nap 3000 tt (seen, s) in
          match st with inl st => pace round_started st | inr _ => Ret (inr tt) end
      end)).
Definition sub_run (s : Sub) : inbox unit := loop run_round (∅, s).
End client.
