(* ===== verification/PresenceFacts.v ===== *)
(** * What the inbox client promises

    An offer opens to what was sealed, from whom it says; a row is in a slot that its
    reader looks in as long as it lives; a poll hands out only offers that the relay
    listed and that are for this device, and takes nothing off the relay; and every call
    but the subscription's own loop ends after a bounded number of requests. *)
From stdpp Require Import gmap strings.
From S2P Require Import Prelude.
From S2P Require Import Text.
From S2P Require Import ChunkCipher.
From S2P Require Import SyncCodec.
From S2P Require Import Limits.
From S2P Require Import Store.
From S2P Require Import Mailbox.
From S2P Require Import UploadHttp.
From S2P Require Import UploadClient.
From S2P Require Import Rendezvous.
From S2P Require Import Inbox.
From S2P Require Import Code.
From S2P Require Import Tickets.
From S2P Require Import Transfers.
From S2P Require Import Identity.
From S2P Require Import Program.
From S2P Require Import Presence.
Local Open Scope Z_scope.
Local Open Scope prog_scope.

(** ** Offers as bytes *)

Lemma sealed_opens `{!Ed25519, !Hpke, !Blake3Kdf, !HpkeLaws} me recipient plain sealed rnd :
  made me → made recipient → seal plain (public recipient) me OFFER_AAD rnd = Ok sealed →
  open_ (mkSealed sealed.(se_encapped_key) sealed.(se_ciphertext)) recipient (public me) OFFER_AAD = Ok plain.
Proof. intros Hme Hr Hs. destruct sealed. by apply (open_seal _ _ _ _ rnd). Qed.

Lemma encoded_offer_opens `{!Ed25519, !Hpke, !Blake3Kdf, !Blake3Hash, !SessionCodec, !Ed25519Laws, !HpkeLaws,
    !Wire Offer, !Wire OfferV1, !Wire Envelope, !Wire SealedEnvelope,
    !WireLaws Offer, !WireLaws Envelope, !WireLaws SealedEnvelope}
    (me recipient : Identity) (o : Offer) rnd rnd' blob :
  made me → made recipient → encode_offer_blob o (public recipient) me rnd rnd' = Ok blob →
  decode_offer blob recipient = Some (public me, o).
Proof.
  intros Hme Hr. unfold encode_offer_blob. destruct (to_allocvec o) as [b|] eqn:Eo; cbn [context]; [|done].
  destruct (seal b _ _ _ _) as [s|] eqn:Es; cbn [result_ok context]; [|done].
  destruct (to_allocvec (mkEnvelope _ _ _)) as [env|] eqn:Ee; cbn [context]; [|done].
  destruct (seal_anon env _ _ _) as [outer|] eqn:Ea; cbn [result_ok context]; [|done].
  destruct (to_allocvec (mkSealedEnvelope _ _)) as [w|] eqn:Ew; cbn [context]; [|done]. intros [= <-].
  assert (open_envelope w recipient = Some (mkEnvelope (to_bytes (public me)) s.(se_encapped_key) s.(se_ciphertext))) as Hopen.
  { unfold open_envelope. rewrite (from_to_bytes _ _ Ew). cbn.
    pose proof (open_seal_anon _ _ _ _ _ Hr Ea) as Ho. destruct outer. cbn in *. rewrite Ho. cbn. apply (from_to_bytes _ _ Ee). }
  unfold decode_offer. rewrite Hopen. cbn [mbind option_bind ev_sender ev_encapped_key ev_ciphertext].
  rewrite public_reads_back by done. cbn [result_ok mbind option_bind].
  rewrite (sealed_opens _ _ _ _ _ Hme Hr Es). cbn [result_ok mbind option_bind]. unfold offer_of_bytes. by rewrite (from_to_bytes _ _ Eo).
Qed.

(** What a sender seals for a recipient opens, at the recipient, to the same offer with
    the sender's id; and so does what older clients send: a clear envelope, and an offer
    of the older shape, which names no relay. *)
Theorem offer_opens `{!Ed25519, !Hpke, !Blake3Kdf, !Blake3Hash, !SessionCodec, !Ed25519Laws, !HpkeLaws,
    !Wire Offer, !Wire OfferV1, !Wire Envelope, !Wire SealedEnvelope,
    !WireLaws Offer, !WireLaws OfferV1, !WireLaws Envelope, !WireLaws SealedEnvelope}
    (me recipient : Identity) (o : Offer) (o1 : OfferV1) rnd rnd' blob plain sealed old :
  made me → made recipient →
  (encode_offer_blob o (public recipient) me rnd rnd' = Ok blob →
     decode_offer blob recipient = Some (public me, o)) ∧
  (to_allocvec o1 = Some plain → from_bytes (T := Offer) plain = None →
     seal plain (public recipient) me OFFER_AAD rnd = Ok sealed →
     to_allocvec (mkEnvelope (to_bytes (public me)) sealed.(se_encapped_key) sealed.(se_ciphertext)) = Some old →
     open_envelope old recipient = None →
     decode_offer old recipient = Some (public me, offer_from_v1 o1)).
Proof.
  intros Hme Hr. split; [by apply encoded_offer_opens|].
  intros E1 Hnew Es Ee Hnone. unfold decode_offer. rewrite Hnone, (from_to_bytes _ _ Ee).
  cbn [mbind option_bind ev_sender ev_encapped_key ev_ciphertext]. rewrite public_reads_back by done.
  cbn [result_ok mbind option_bind]. rewrite (sealed_opens _ _ _ _ _ Hme Hr Es). cbn [result_ok mbind option_bind].
  unfold offer_of_bytes. by rewrite Hnew, (from_to_bytes _ _ E1).
Qed.

(** ** Slots *)

Section slots.
Context `{!Ed25519, !Hpke, !Blake3Kdf, !Blake3Hash, !Blake3Wide, !SessionCodec}.

Lemma inbox_slots_eq id unix : 0 <= unix →
  let s n := slot_for_epoch id (sat_sub (unix / INBOX_EPOCH_SECS) n) in
  inbox_slots_at id unix = s 0 :: (if decide (s 1 = s 0) then [] else [s 1]) ∧
  s 0 = slot_for_at id unix.
Proof.
  intros Hu s. split.
  - unfold inbox_slots_at. cbn [foldl app]. fold (s 0). fold (s 1).
    destruct (decide (s 0 ∈ [])) as [Hin|_]; [by apply not_elem_of_nil in Hin|]. cbn [app].
    destruct (decide (s 1 = s 0)) as [He|He]; destruct (decide (s 1 ∈ [s 0])) as [Hin|Hin]; try done; set_solver.
  - unfold s, slot_for_at. f_equal. unfold sat_sub. pose proof (Z.div_pos unix INBOX_EPOCH_SECS Hu). unfold INBOX_EPOCH_SECS in *. lia.
Qed.
Lemma elem_of_inbox_slots id unix e : 0 <= unix →
  e = unix / INBOX_EPOCH_SECS ∨ e = sat_sub (unix / INBOX_EPOCH_SECS) 1 →
  slot_for_epoch id e ∈ inbox_slots_at id unix.
Proof.
  intros Hu He. destruct (inbox_slots_eq id unix Hu) as [-> Hz]. unfold slot_for_at in Hz.
  destruct He as [->| ->]; [rewrite <- Hz; set_solver|]. case_decide as Hd; [rewrite Hd|]; set_solver.
Qed.
Lemma length_inbox_slots id unix : 0 <= unix → (length (inbox_slots_at id unix) <= 2)%nat.
Proof. intros Hu. destruct (inbox_slots_eq id unix Hu) as [-> _]. case_decide; cbn; lia. Qed.

Lemma epochs_apart len t t' : 0 < len → t <= t' < t + len → t / len = t' / len ∨ t / len = t' / len - 1.
Proof.
  intros Hl Ht. assert (t / len <= t' / len) by (apply Z.div_le_mono; lia).
  assert (t' / len <= (t + 1 * len) / len) as Hd by (apply Z.div_le_mono; lia).
  rewrite Z.div_add in Hd by lia. lia.
Qed.

(** A row that is alive is in a slot that its reader looks in, and the reader finds the
    epoch whose key can sign for that slot. *)
Lemma live_row_is_read id me ttl t t' :
  0 <= t → t <= t' < t + default INBOX_TTL_SECS (clamp_inbox_ttl ttl) →
  slot_for_at id t ∈ inbox_slots_at id t' ∧
  (id = public me → ∃ e, epoch_of (slot_for_at id t) me t' = Some e ∧ slot_for_epoch id e = slot_for_at id t).
Proof.
  intros Hz Ht. assert (t <= t' < t + INBOX_EPOCH_SECS) as Hw.
  { destruct ttl as [ttl|]; cbn in Ht; unfold INBOX_TTL_SECS, INBOX_EPOCH_SECS in *; lia. }
  assert (t / INBOX_EPOCH_SECS = t' / INBOX_EPOCH_SECS ∨ t / INBOX_EPOCH_SECS = sat_sub (t' / INBOX_EPOCH_SECS) 1) as He.
  { destruct (epochs_apart INBOX_EPOCH_SECS t t') as [?|?]; [done|done|by left|right].
    unfold sat_sub. assert (0 <= t / INBOX_EPOCH_SECS) by (apply Z.div_pos; [lia|done]). lia. }
  split; [by apply elem_of_inbox_slots; [lia|]|].
  intros ->. unfold epoch_of. cbn [find]. case_bool_decide as Hb; [by eexists|].
  destruct He as [He|He]; [unfold slot_for_at in *; by rewrite He in Hb|].
  rewrite bool_decide_true by (unfold slot_for_at; by rewrite He). eexists. split; [done|]. unfold slot_for_at. by rewrite He.
Qed.

(** A beacon of the last two minutes, or one by a clock up to two minutes ahead, is in a
    slot that is asked about. *)
Lemma elem_of_dedup (x : string) l : x ∈ dedup l ↔ x ∈ l.
Proof.
  induction l as [|y l IH]; [done|]. destruct l as [|z l]; [done|]. cbn [dedup].
  destruct (decide (y = z)) as [->|]; rewrite ?elem_of_cons, ?IH, ?elem_of_cons; tauto.
Qed.
Lemma beacon_is_asked_about pubkey t t' :
  0 <= t → 0 <= t' → - PRESENCE_GRACE_SECS <= t' - t < PRESENCE_GRACE_SECS →
  presence_slot_for_at pubkey t ∈ presence_slots_at pubkey t'.
Proof.
  intros Hz Hz' Ht. unfold presence_slots_at, presence_slot_for_at. rewrite elem_of_dedup.
  set (len := PRESENCE_EPOCH_SECS) in *. assert (len = 3600) as Hlen by done. unfold PRESENCE_GRACE_SECS in *.
  pose proof (Z.div_mod t len ltac:(lia)) as Et. pose proof (Z.mod_pos_bound t len ltac:(lia)).
  pose proof (Z.div_mod t' len ltac:(lia)) as Et'. pose proof (Z.mod_pos_bound t' len ltac:(lia)).
  set (q := t / len) in *. set (q' := t' / len) in *. set (r := t mod len) in *. set (r' := t' mod len) in *.
  assert (q = q' ∨ q = q' - 1 ∧ r' < 120 ∨ q = q' + 1 ∧ len - r' <= 120) as [->|[[Hq Hr]|[Hq Hr]]] by nia.
  - set_solver.
  - rewrite (proj2 (Z.ltb_lt _ _)) by lia. assert (sat_sub q' 1 = q) as -> by (unfold sat_sub; nia). set_solver.
  - rewrite (proj2 (Z.ltb_ge _ _)) by lia. rewrite (proj2 (Z.leb_le _ _)) by lia. rewrite Hq. set_solver.
Qed.
End slots.

(** ** What a call sends, and what it hands out *)

Notation InboxLog := (list (Obs InboxRequest (option Response) ReceivedOffer)).

Section calls.
Context `{!Ed25519, !Hpke, !Blake3Kdf, !Blake3Hash, !Blake3Wide, !SessionCodec, !Wire Offer, !Wire OfferV1,
  !Wire Envelope, !Wire SealedEnvelope, !Wire (list InboxItem), !Wire SyncNote}.
Context (may : InboxLog → InboxRequest → Prop) (lets : InboxLog → InboxRequest → option Response → Prop)
  (lots : InboxLog → bytes → Prop) (says : InboxLog → ReceivedOffer → Prop).
Notation holds := (holds may lets lots says).

(** Only the cached sessions differ. *)
Definition sess (s s' : Sub) : Prop := ∃ x, s' = with_sessions x s.
Lemma sess_refl s : sess s s.
Proof. exists s.(sb_sessions). by destruct s. Qed.
Lemma sess_trans s s1 x : sess s s1 → sess s (with_sessions x s1).
Proof. intros [y ->]. by exists x. Qed.

Lemma log_app_r (l k : InboxLog) (x : InboxLog) : l `prefix_of` k → l `prefix_of` k ++ x.
Proof. apply prefix_app_r. Qed.

Lemma holds_session slot force s (l : InboxLog) (Q : result string string * Sub → InboxLog → Prop) :
  (∀ l', l `prefix_of` l' → may l' (plain_request Post (SessionUrl (trim_slashes s.(sb_relay)) slot))) →
  (∀ r s' l', l `prefix_of` l' → sess s s' → Q (r, s') l') → holds (ensure_session slot force s) l Q.
Proof.
  intros Hm HQ. pose proof (sess_refl s) as Hs.
  assert (∀ l1, l `prefix_of` l1 → holds (fresh_session slot s) l1 Q) as Hfresh.
  { intros l1 Hl1. unfold fresh_session. destruct (sub_me s) as [me|e]; [|by apply HQ].
    cbn [Program.holds]. split; [by apply Hm|]. intros [resp|] _; [|apply HQ; [by apply log_app_r|done]].
    destruct (is_error _); [apply HQ; [by apply log_app_r|done]|].
    destruct (rs_body resp) as [b|]; [|apply HQ; [by apply log_app_r|done]].
    destruct (challenge_from_bytes b) as [c|]; [|apply HQ; [by apply log_app_r|done]].
    cbn [bind now_unix Program.holds]. intros t. case_match; cbn [Program.holds]; apply HQ; try done; try by do 2 apply log_app_r.
    by apply sess_trans. }
  unfold ensure_session. destruct (if force then _ else _) as [c|]; [|by apply Hfresh].
  cbn. intros t. destruct (_ <? _); cbn; [apply HQ; [by apply log_app_r|done]|]. apply Hfresh. by apply log_app_r.
Qed.

Lemma holds_authed verb slot url have s (l : InboxLog) (Q : result bytes string * Sub → InboxLog → Prop) :
  (∀ l', l `prefix_of` l' → may l' (plain_request Post (SessionUrl (trim_slashes s.(sb_relay)) slot))) →
  (∀ l' bearer, l `prefix_of` l' → may l' (mkInboxRequest verb url (Some bearer) None None have [])) →
  (∀ r s' l', l `prefix_of` l' → sess s s' →
     (∀ b, r = Ok b → ∃ bearer st, Sent (mkInboxRequest verb url (Some bearer) None None have [])
                                     (Some (Some (mkResponse st (Some b)))) ∈ l') → Q (r, s') l') →
  holds (authed verb slot url have s) l Q.
Proof.
  intros Hses Hm HQ. unfold authed.
  apply (holds_loop _ _ _ _ (fun (st : bool * Sub) (l' : InboxLog) => l `prefix_of` l' ∧ sess s st.2)).
  { split; [done|apply sess_refl]. }
  intros [forced s1] l1 [Hl1 Hs1]. cbn [snd] in Hs1. unfold authed_round. apply holds_bind, holds_session.
  { intros l' Hl'. destruct Hs1 as [x ->]. apply Hses. by trans l1. }
  intros r s2 l2 Hl2 [x ->]. assert (sess s (with_sessions x s1)) as Hs2 by by apply sess_trans.
  assert (l `prefix_of` l2) as Hl by by trans l1.
  destruct r as [bearer|e]; cbn [Program.holds]; [|by apply HQ].
  split; [by apply Hm|]. intros [resp|] _; cbn [Program.holds].
  2:{ apply HQ; [by apply log_app_r|done|done]. }
  destruct (_ && _); cbn [Program.holds]; [split; [by apply log_app_r|by apply sess_trans]|].
  destruct (is_error _); cbn [Program.holds]; [apply HQ; [by apply log_app_r|done|done]|].
  apply HQ; [by apply log_app_r|done|]. intros b Hb. destruct resp as [st [b'|]]; cbn in Hb; [|done].
  injection Hb as ->. exists bearer, st. apply elem_of_app. right. by left.
Qed.
End calls.

Section poll.
Context `{!Ed25519, !Hpke, !Blake3Kdf, !Blake3Hash, !Blake3Wide, !SessionCodec, !Wire Offer, !Wire OfferV1,
  !Wire Envelope, !Wire SealedEnvelope, !Wire (list InboxItem), !Wire SyncNote}.
Context (s0 : Sub).
Notation relay := (trim_slashes s0.(sb_relay)).

(** Reading: sessions asked for, slots listed; nothing is put or deleted. *)
Definition reads (r : InboxRequest) : Prop :=
  r.(iq_body) = [] ∧
  (r.(iq_verb) = Post ∧ (∃ slot, r.(iq_url) = SessionUrl relay slot) ∨
   r.(iq_verb) = Get ∧ (∃ slot wait, r.(iq_url) = ReadUrl relay slot wait)).
(** The relay listed a row in a slot. *)
Definition listed_in (l : InboxLog) (slot : string) (i : InboxItem) : Prop :=
  ∃ r st b items wait, Sent r (Some (Some (mkResponse st (Some b)))) ∈ l ∧ r.(iq_verb) = Get ∧
    r.(iq_url) = ReadUrl relay slot wait ∧ from_bytes b = Some items ∧ i ∈ items.
(** An offer of a listed row, for this identity and this device. *)
Definition handed (l : InboxLog) (o : ReceivedOffer) : Prop :=
  ∃ i slot me sender, listed_in l slot i ∧ ii_id i = o.(ro_id) ∧ decode_sync_note (ii_blob i) = None ∧
    sub_me s0 = Ok me ∧ decode_offer (ii_blob i) me = Some (sender, o.(ro_offer)) ∧ o.(ro_sender) = to_bytes sender ∧
    is_ours s0 o.(ro_offer) = false ∧ aimed_elsewhere s0 o.(ro_offer) = false.
(** Where a row is remembered to be is where it was listed. *)
Definition remembered (s : Sub) (l : InboxLog) : Prop :=
  ∀ id slot, s.(sb_row_slots) !! id = Some slot →
    s0.(sb_row_slots) !! id = Some slot ∨ ∃ i, ii_id i = id ∧ listed_in l slot i.
Definition follows_on (s : Sub) (l : InboxLog) : Prop :=
  s.(sb_relay) = s0.(sb_relay) ∧ s.(sb_public) = s0.(sb_public) ∧ s.(sb_secret) = s0.(sb_secret) ∧
  s.(sb_origin) = s0.(sb_origin) ∧ remembered s l.

Context (lets : InboxLog → InboxRequest → option Response → Prop) (lots : InboxLog → bytes → Prop)
  (says : InboxLog → ReceivedOffer → Prop).
Notation holds := (holds (fun _ => reads) lets lots says).

Lemma listing_later l l' slot i : l `prefix_of` l' → listed_in l slot i → listed_in l' slot i.
Proof.
  intros [k ->] (r & st & b & items & wait & Hin & Hrest). exists r, st, b, items, wait.
  split; [apply elem_of_app; by left|done].
Qed.
Lemma handed_later l l' o : l `prefix_of` l' → handed l o → handed l' o.
Proof. intros Hl (i & slot & me & sender & Hi & Hrest). exists i, slot, me, sender. split; [by eapply listing_later|done]. Qed.
Lemma follows_later s s' l l' : l `prefix_of` l' → sess s s' → follows_on s l → follows_on s' l'.
Proof.
  intros Hl [x ->] (Ha & Hb & Hc & Hd & He). split_and!; try done. intros id slot Hi.
  destruct (He id slot Hi) as [?|(i & ? & ?)]; [by left|right]. exists i. split; [done|by eapply listing_later].
Qed.

(** The answer to a read was a body. *)
Definition told_rows (l : InboxLog) (slot : string) (b : bytes) : Prop :=
  ∃ r st wait, Sent r (Some (Some (mkResponse st (Some b)))) ∈ l ∧ r.(iq_verb) = Get ∧ r.(iq_url) = ReadUrl relay slot wait.

Lemma holds_read_slot slot first wait s (l : InboxLog) (Q : result bytes string * Sub → InboxLog → Prop) :
  follows_on s l →
  (∀ r s' l', l `prefix_of` l' → follows_on s' l' → (∀ b, r = Ok b → told_rows l' slot b) → Q (r, s') l') →
  holds (read_slot slot first wait s) l Q.
Proof.
  intros Hs HQ. unfold read_slot. destruct Hs as (Hrel & Hrest). rewrite Hrel.
  apply holds_authed.
  - intros l' _. rewrite Hrel. split; [done|]. left. eauto.
  - intros l' bearer _. split; [done|]. right. eauto.
  - intros r s' l' Hl Hs' Hb. apply HQ; [done|by eapply follows_later; [..|split]|].
    intros b Hrb. destruct (Hb b Hrb) as (bearer & st & Hin). eexists _, st, wait. split; [exact Hin|]. done.
Qed.

Lemma rows_of_ok slot first b s l r s' :
  follows_on s l → told_rows l slot b → rows_of slot first b s = (r, s') →
  follows_on s' l ∧ ∀ items, r = Ok items → Forall (fun i => listed_in l slot i) items.
Proof.
  intros Hs (rq & st & wait & Hin & Hv & Hu) Hr. unfold rows_of in Hr.
  destruct b as [|x b]; [injection Hr as <- <-; split; [done|]; intros items [= <-]; constructor|].
  destruct (from_bytes (x :: b)) as [items|] eqn:Eb; [|injection Hr as <- <-; by split].
  assert (∀ i, i ∈ items → listed_in l slot i) as Hall by (intros i Hi; by exists rq, st, (x :: b), items, wait).
  assert (follows_on (remember_rows slot (ii_id <$> items) s) l) as Hf.
  { destruct Hs as (Ha & Hb & Hc & Hd & He). split_and!; try done. unfold remember_rows. cbn [with_row_slots sb_row_slots].
    intros id sl. set (m := if _ <? _ then ∅ else _).
    assert (∀ id sl, m !! id = Some sl → s0.(sb_row_slots) !! id = Some sl ∨ ∃ i, ii_id i = id ∧ listed_in l sl i) as Hm.
    { subst m. destruct (_ <? _); [|exact He]. intros ? ? Hx. by rewrite lookup_empty in Hx. }
    clearbody m. clear -Hm Hall. revert m Hm. induction items as [|i items IH]; intros m Hm; cbn; [by apply Hm|].
    apply IH; [intros; apply Hall; by right|]. intros id' sl'. destruct (decide (ii_id i = id')) as [<-|Hne].
    - rewrite lookup_insert_eq. intros [= <-]. right. exists i. split; [done|]. apply Hall. by left.
    - rewrite lookup_insert_ne by done. apply Hm. }
  injection Hr as <- <-. split.
  - destruct first; [|done]. destruct Hf as (Ha & Hb & Hc & Hd & He). by split_and!.
  - intros ? [= <-]. by apply Forall_forall.
Qed.

Lemma holds_older slots decided backfill out s (l : InboxLog) (Q : result (list InboxItem) string * Sub → InboxLog → Prop) :
  follows_on s l → Forall (fun i => ∃ slot, listed_in l slot i) out →
  (∀ r s' l', l `prefix_of` l' → follows_on s' l' →
     (∀ items, r = Ok items → Forall (fun i => ∃ slot, listed_in l' slot i) items) → Q (r, s') l') →
  holds (older_slots slots decided backfill out s) l Q.
Proof.
  revert decided backfill out s l. induction slots as [|slot slots IH]; intros decided backfill out s l Hs Hout HQ;
    cbn [older_slots Program.holds]; [apply HQ; [done|done|by intros ? [= <-]]|].
  assert (∀ s1 l1, l `prefix_of` l1 → follows_on s1 l1 →
    holds (let* r := read_slot slot false 0 s1 in
      match r with
      | (Ok b, s1) => match rows_of slot false b s1 with
                     | (Ok items, s1) => older_slots slots true true (out ++ items) s1
                     | (Err e, s1) => Ret (Err e, s1) end
      | (Err _, s1) => older_slots slots true true out s1 end) l1 Q) as Hread.
  { intros s1 l1 Hl1 Hs1. apply holds_bind, holds_read_slot; [done|]. intros r s2 l2 Hl2 Hs2 Hb.
    assert (l `prefix_of` l2) as Hl by by trans l1.
    assert (Forall (fun i => ∃ slot, listed_in l2 slot i) out) as Hout2.
    { eapply Forall_impl; [exact Hout|]. intros i [sl Hi]. exists sl. by eapply listing_later. }
    destruct r as [b|e].
    - destruct (rows_of slot false b s2) as [r3 s3] eqn:Er.
      destruct (rows_of_ok _ _ _ _ _ _ _ Hs2 (Hb b eq_refl) Er) as [Hs3 Hi3].
      destruct r3 as [items|e]; [|apply HQ; [done|done|by intros ? [=]]].
      apply IH; [done| |intros; apply HQ; [by trans l2|done..]].
      apply Forall_app. split; [done|]. eapply Forall_impl; [by apply Hi3|]. eauto.
    - apply IH; [done..|]. intros; apply HQ; [by trans l2|done..]. }
  destruct backfill; [by apply Hread|]. destruct decided; [apply HQ; [done|done|by intros ? [= <-]]|].
  cbn [bind now_unix Program.holds]. intros t.
  assert (l `prefix_of` l ++ [Read t]) as Hl by by apply log_app_r.
  destruct (backfill_due _ s) as [due s1] eqn:Ed.
  assert (follows_on s1 (l ++ [Read t])) as Hs1.
  { eapply (follows_later s s) in Hs; [|exact Hl|apply sess_refl]. unfold backfill_due in Ed.
    destruct (_ <? _); injection Ed as <- <-; done. }
  destruct due; [by apply Hread|]. apply HQ; [done|done|]. intros ? [= <-].
  eapply Forall_impl; [exact Hout|]. intros i [sl Hi]. exists sl. by eapply listing_later.
Qed.

Lemma holds_items wait s (l : InboxLog) (Q : result (list InboxItem) string * Sub → InboxLog → Prop) :
  follows_on s l →
  (∀ r s' l', l `prefix_of` l' → follows_on s' l' →
     (∀ items, r = Ok items → Forall (fun i => ∃ slot, listed_in l' slot i) items) → Q (r, s') l') →
  holds (items_across_slots wait s) l Q.
Proof.
  intros Hs HQ. unfold items_across_slots. cbn [bind now_unix Program.holds]. intros t.
  assert (l `prefix_of` l ++ [Read t]) as Hl by by apply log_app_r.
  assert (follows_on s (l ++ [Read t])) as Hs1 by (eapply follows_later; [exact Hl|apply sess_refl|done]).
  destruct (inbox_slots_at _ _) as [|slot older]; [apply HQ; [done|done|by intros ? [= <-]]|].
  unfold and_then. apply holds_bind, holds_read_slot; [done|]. intros r s2 l2 Hl2 Hs2 Hb.
  destruct r as [b|e]; [|apply HQ; [by trans (l ++ [Read t])|done|by intros ? [=]]].
  destruct (rows_of slot true b s2) as [r3 s3] eqn:Er.
  destruct (rows_of_ok _ _ _ _ _ _ _ Hs2 (Hb b eq_refl) Er) as [Hs3 Hi3].
  destruct r3 as [items|e]; [|apply HQ; [by trans (l ++ [Read t])|done|by intros ? [=]]].
  apply holds_older; [done|eapply Forall_impl; [by apply Hi3|]; eauto|].
  intros; apply HQ; [|done..]. trans l2; [|done]. by trans (l ++ [Read t]).
Qed.

Lemma sift_handed me s l items out s' :
  follows_on s l → sub_me s0 = Ok me → Forall (fun i => ∃ slot, listed_in l slot i) items →
  sift me s items = (out, s') → Forall (handed l) out ∧ follows_on s' l.
Proof.
  intros Hs Hme Hi Hout. unfold sift in Hout.
  destruct (foldl (sift_row me s) ([], s.(sb_undecodable)) items) as [o u] eqn:Ef. injection Hout as <- <-.
  split; [|destruct Hs as (Ha & Hb & Hc & Hd & He); by split_and!].
  assert (∀ acc, Forall (handed l) acc.1 → Forall (handed l) (foldl (sift_row me s) acc items).1) as Hfold.
  { clear Ef. revert Hi. induction items as [|i items IH]; intros Hi acc Hacc; cbn [foldl]; [done|].
    apply Forall_cons in Hi as [[slot Hi] Hrest]. apply IH; [done|]. destruct acc as [o1 u1]. unfold sift_row.
    case_bool_decide as Hn; [done|]. destruct (decode_offer (ii_blob i) me) as [[sender ofr]|] eqn:Ed; [|done].
    destruct (is_ours s ofr) eqn:E1; [done|]. destruct (aimed_elsewhere s ofr) eqn:E2; [done|]. cbn in *.
    apply Forall_app. split; [done|]. apply Forall_singleton. destruct Hs as (_ & _ & _ & Ho & _).
    exists i, slot, me, sender. unfold is_ours, aimed_elsewhere in *. rewrite Ho in E1, E2. split_and!; try done.
    by apply eq_None_not_Some. }
  specialize (Hfold ([], s.(sb_undecodable)) ltac:(constructor)). by rewrite Ef in Hfold.
Qed.

Lemma holds_poll_wait wait s (l : InboxLog) (Q : result (list ReceivedOffer) string * Sub → InboxLog → Prop) :
  follows_on s l →
  (∀ r s' l', l `prefix_of` l' → follows_on s' l' → (∀ offers, r = Ok offers → Forall (handed l') offers) → Q (r, s') l') →
  holds (poll_wait wait s) l Q.
Proof.
  intros Hs HQ. unfold poll_wait, and_then. apply holds_bind, holds_items; [done|].
  intros r s1 l1 Hl1 Hs1 Hi. destruct r as [items|e]; [|apply HQ; [done|done|by intros ? [=]]].
  destruct (sub_me s1) as [me|e] eqn:Em; [|apply HQ; [done|done|by intros ? [=]]].
  destruct (sift me s1 items) as [out s2] eqn:Es.
  destruct (sift_handed me s1 l1 items out s2) as [Ho Hs2]; [done| |by apply Hi|done|].
  { destruct Hs1 as (_ & _ & Hk & _). unfold sub_me in *. by rewrite <- Hk. }
  apply HQ; [done|done|]. by intros ? [= <-].
Qed.
End poll.

(** The ids surfaced so far. *)
Definition told_ids (l : InboxLog) : list string := omap (fun o => match o with Told x => Some x.(ro_id) | _ => None end) l.
Lemma told_ids_app l k : told_ids (l ++ k) = told_ids l ++ told_ids k.
Proof. apply omap_app. Qed.
Definition first_time (l : InboxLog) (o : ReceivedOffer) : Prop :=
  o.(ro_id) ∉ told_ids l ∨ MAX_SEEN < Z.of_nat (length (told_ids l)).

Lemma told_ids_quiet l k : Forall untold k → told_ids (l ++ k) = told_ids l.
Proof.
  intros Hk. rewrite told_ids_app. assert (told_ids k = []) as ->; [|by rewrite app_nil_r].
  induction Hk as [|o k Ho Hk IH]; [done|]. by destruct o.
Qed.

Section runs.
Context `{!Ed25519, !Hpke, !Blake3Kdf, !Blake3Hash, !Blake3Wide, !SessionCodec, !Wire Offer, !Wire OfferV1,
  !Wire Envelope, !Wire SealedEnvelope, !Wire (list InboxItem), !Wire SyncNote}.
Context (s0 : Sub).

Ltac quiets := repeat first [progress quiet | case_match | solve [auto]].
Lemma silent_authed verb slot url have s : silent (authed verb slot url have s).
Proof. unfold authed, authed_round, ensure_session, fresh_session, now_unix. quiet. Qed.
#[local] Hint Resolve silent_authed : core.
Lemma silent_older slots decided backfill out s : silent (older_slots slots decided backfill out s).
Proof.
  revert decided backfill out s. induction slots as [|slot slots IH]; intros decided backfill out s; cbn [older_slots]; [done|].
  unfold read_slot, now_unix. quiets.
Qed.
#[local] Hint Resolve silent_older : core.
Lemma silent_poll_wait wait s : silent (poll_wait wait s).
Proof.
  unfold poll_wait, items_across_slots, and_then, read_slot, now_unix. quiets.
Qed.

Notation relay := (trim_slashes s0.(sb_relay)).
Definition says_offers (l : InboxLog) (o : ReceivedOffer) : Prop := handed s0 l o ∧ first_time l o.
Notation holds := (holds (fun _ => reads s0) (fun _ _ _ => True) (fun _ _ => True) says_offers).

Lemma follows_on_self l : follows_on s0 s0 l.
Proof. split_and!; try done. intros id slot Hi. by left. Qed.

(** *** The loop of a subscription *)

Lemma size_told (l : InboxLog) (seen : gset string) :
  seen = list_to_set (told_ids l) → Z.of_nat (size seen) <= Z.of_nat (length (told_ids l)).
Proof.
  intros ->. induction (told_ids l) as [|x t IH]; [done|]. rewrite list_to_set_cons. cbn [length].
  rewrite size_union_alt, size_singleton. assert (size (list_to_set t ∖ {[x]} : gset string) <= size (list_to_set t : gset string))%nat; [|lia].
  apply subseteq_size. set_solver.
Qed.

(** The ids kept are those surfaced, until there were too many. *)
Definition tracks (seen : gset string) (l : InboxLog) : Prop :=
  Z.of_nat (length (told_ids l)) <= MAX_SEEN → seen = list_to_set (told_ids l).

Lemma tracks_quiet seen l k : Forall untold k → tracks seen l → tracks seen (l ++ k).
Proof. intros Hk. unfold tracks. by rewrite told_ids_quiet. Qed.
Lemma tracks_cleared seen l : tracks seen l → tracks (if MAX_SEEN <? Z.of_nat (size seen) then ∅ else seen) l.
Proof.
  intros Ht Hl. specialize (Ht Hl). destruct (_ <? _) eqn:E; [|done]. apply Z.ltb_lt in E.
  pose proof (size_told l seen Ht). lia.
Qed.

Lemma holds_surface offers seen (l : InboxLog) (Q : gset string → InboxLog → Prop) :
  Forall (handed s0 l) offers → tracks seen l →
  (∀ seen' l', l `prefix_of` l' → tracks seen' l' → Q seen' l') → holds (surface offers seen) l Q.
Proof.
  revert seen l. induction offers as [|o offers IH]; intros seen l Ho Ht HQ; cbn [surface]; [by apply HQ|].
  apply Forall_cons in Ho as [Ho Hr]. case_decide as Hin; [by apply IH|]. cbn [Program.holds]. split.
  - split; [done|]. destruct (decide (Z.of_nat (length (told_ids l)) <= MAX_SEEN)) as [Hl|Hl]; [|right; lia].
    left. rewrite (Ht Hl) in Hin. set_solver.
  - apply IH.
    + eapply Forall_impl; [exact Hr|]. intros x. apply handed_later. by apply prefix_app_r.
    + intros Hl. rewrite told_ids_app in *. cbn [told_ids omap list_omap] in *. rewrite list_to_set_app_L, length_app in *.
      rewrite Ht by lia. set_solver.
    + intros seen' l' Hl'. apply HQ. etrans; [|exact Hl']. by apply prefix_app_r.
Qed.

Notation round_keeps := (λ (x : (gset string * Sub) + unit) (l : InboxLog),
  match x with inl st => tracks st.1 l ∧ follows_on s0 st.2 l | inr _ => True end).
Lemma holds_nap ms st (l : InboxLog) (Q : (gset string * Sub) + unit → InboxLog → Prop) :
  (∀ x, x = inl st ∨ x = inr tt → Q x l) → holds (nap ms tt st) l Q.
Proof. intros HQ. cbn. intros []; apply HQ; auto. Qed.
Lemma holds_pace start st (l : InboxLog) : tracks st.1 l → follows_on s0 st.2 l → holds (pace start st) l round_keeps.
Proof.
  intros Ht Hf. unfold pace. cbn [Program.holds]. intros t.
  assert (tracks st.1 (l ++ [Read t]) ∧ follows_on s0 st.2 (l ++ [Read t])) as Hk.
  { split; [apply tracks_quiet; [by repeat constructor|done]|]. eapply follows_later; [by apply prefix_app_r|apply sess_refl|done]. }
  cbn zeta. destruct (_ <? _); [|done]. apply holds_nap. by intros x [->| ->].
Qed.

Lemma holds_sub_run : holds (sub_run s0) [] (fun _ _ => True).
Proof.
  unfold sub_run. apply (holds_loop _ _ _ _ (fun st l => tracks st.1 l ∧ follows_on s0 st.2 l)).
  { split; [done|apply follows_on_self]. }
  intros [seen s] l [Ht Hf]. cbn [fst snd] in *. unfold run_round. cbn [Program.holds]. intros []; [done|]. intros start.
  set (l1 := l ++ [Read start]).
  assert (tracks seen l1 ∧ follows_on s0 s l1) as [Ht1 Hf1].
  { split; [apply tracks_quiet; [by repeat constructor|done]|]. eapply follows_later; [by apply prefix_app_r|apply sess_refl|done]. }
  clearbody l1. apply holds_bind. eapply holds_mono.
  2:{ apply holds_cancellable, holds_quiet; [apply silent_poll_wait|].
      apply (holds_poll_wait s0 _ _ _ LONG_POLL_SECS s l1
        (fun x l' => follows_on s0 x.2 l' ∧ ∀ offers, x.1 = Ok offers → Forall (handed s0 l') offers)); [done|].
      intros r s' l' _ Hs' Ho. by split. }
  intros [[[offers|e] s']|] l2; [| |done].
  - intros [[Hf2 Ho] (k & -> & Hk)]. apply holds_bind, holds_surface; [by apply Ho|apply tracks_cleared; by apply tracks_quiet|].
    intros seen' l' Hl' Ht'. apply holds_pace; [done|]. eapply follows_later; [exact Hl'|apply sess_refl|done].
  - intros [[Hf2 _] (k & -> & Hk)]. apply holds_bind, holds_nap. intros x [->| ->]; [|done].
    apply holds_pace; [by apply tracks_quiet|done].
Qed.
End runs.

(** C8. In every run of a subscription's loop, whatever the relay answers, it sends nothing
    but requests for a session and reads, so it takes nothing off the relay; and an offer
    it surfaces is one the relay listed, that opens for this identity from the sender it
    names, that this device did not post itself and that is aimed at no other device.
    None is surfaced twice before four thousand and ninety-six others were. *)
Theorem subscription_surfaces_offers `{!Ed25519, !Hpke, !Blake3Kdf, !Blake3Hash, !Blake3Wide, !SessionCodec, !Wire Offer, !Wire OfferV1,
    !Wire Envelope, !Wire SealedEnvelope, !Wire (list InboxItem), !Wire SyncNote} (s : Sub) ins p l pre o post :
  run (sub_run s) ins = Some (p, l) → l = pre ++ o :: post →
  match o with
  | Sent r _ => reads s r
  | Told x => handed s pre x ∧ first_time pre x
  | _ => True
  end.
Proof.
  intros Hr Hl. destruct (run_holds _ _ _ _ _ _ [] _ _ _ (holds_sub_run s) Hr) as [Hp _].
  { intros ? [? []| | |] ? _; done. }
  specialize (Hp _ _ _ Hl). by destruct o.
Qed.

(** What one poll hands out is so as well, and it remembers of each row it read a slot in
    which the relay listed it: the slot that an ack will name. *)
Theorem poll_hands_out_offers_for_us `{!Ed25519, !Hpke, !Blake3Kdf, !Blake3Hash, !Blake3Wide, !SessionCodec, !Wire Offer, !Wire OfferV1,
    !Wire Envelope, !Wire SealedEnvelope, !Wire (list InboxItem), !Wire SyncNote} wait (s s' : Sub) offers ins l :
  run (poll_wait wait s) ins = Some (Ret (Ok offers, s'), l) →
  Forall (handed s l) offers ∧ remembered s s' l ∧ ∀ r x, Sent r x ∈ l → reads s r.
Proof.
  intros Hr.
  destruct (run_holds (fun _ => reads s) (fun _ _ _ => True) (fun _ _ => True) (fun _ _ => True) _ _ []
    (fun x l' => follows_on s x.2 l' ∧ ∀ offers, x.1 = Ok offers → Forall (handed s l') offers) _ _
    ltac:(apply holds_poll_wait; [apply follows_on_self|intros r s1 l1 _ Hs1 Ho; by split]) Hr) as [Hp [Hf Ho]].
  { intros ? [? []| | |] ? _; done. }
  split_and!; [by apply Ho|by destruct Hf as (_ & _ & _ & _ & ?)|].
  intros r x Hin. apply list_elem_of_split in Hin as (pre & post & ->). exact (Hp _ _ _ eq_refl).
Qed.

(** ** Every call ends *)

Section ends.
Context `{!Ed25519, !Hpke, !Blake3Kdf, !Blake3Hash, !Blake3Wide, !SessionCodec, !Wire Offer, !Wire OfferV1,
  !Wire Envelope, !Wire SealedEnvelope, !Wire (list InboxItem), !Wire SyncNote}.

Notation any := (fun _ => True).
Ltac step := repeat first [apply ends_ret; done | constructor; intros | case_match].

Lemma ends_session slot force s : ends 3 (ensure_session slot force s) any.
Proof. unfold ensure_session, fresh_session, now_unix. cbn [bind]. step. Qed.

(** At most two rounds: the second was forced. *)
Lemma ends_authed verb slot url have s : ends 10 (authed verb slot url have s) any.
Proof.
  unfold authed.
  eapply (ends_mono (S (if (false, s).1 then 0 else 1) * S 4) _ _ any); [|done|cbn; lia].
  apply (ends_loop (fun _ => True) (fun st : bool * Sub => if st.1 then 0%nat else 1%nat)); [|done].
  intros [forced s1] _. unfold authed_round. apply (ends_bind 3 1 _ _ any); [apply ends_session|].
  intros [[bearer|e] s2] _; [|by apply ends_ret]. apply ends_send. intros [resp|]; [|by apply ends_ret].
  destruct (_ && negb forced) eqn:E; [|case_match; by apply ends_ret].
  apply andb_true_iff in E as [_ ->%negb_true_iff]. apply ends_ret. cbn. split; [done|lia].
Qed.

Lemma ends_older slots decided backfill out s :
  ends (11 * length slots) (older_slots slots decided backfill out s) any.
Proof.
  revert decided backfill out s. induction slots as [|slot slots IH]; intros decided backfill out s; cbn [older_slots length]; [by apply ends_ret|].
  assert (∀ s1, ends (10 + 11 * length slots) (let* r := read_slot slot false 0 s1 in
    match r with
    | (Ok b, s1) => match rows_of slot false b s1 with
                   | (Ok items, s1) => older_slots slots true true (out ++ items) s1
                   | (Err e, s1) => Ret (Err e, s1) end
    | (Err _, s1) => older_slots slots true true out s1 end) any) as Hread.
  { intros s1. apply (ends_bind _ _ _ _ any); [apply ends_authed|]. intros [[b|e] s2] _; [|apply IH].
    destruct (rows_of _ _ _ _) as [[items|e] s3]; [apply IH|by apply ends_ret]. }
  eapply (ends_mono (S (10 + 11 * length slots)) _ _ any); [|done|lia].
  destruct backfill; [eapply ends_mono; [apply Hread|done|lia]|]. destruct decided; [by apply ends_ret|].
  cbn [bind now_unix]. apply ends_clock. intros t. destruct (backfill_due _ s) as [[] s1]; [apply Hread|by apply ends_ret].
Qed.

Lemma length_slots who unix : (length (inbox_slots_at who unix) <= 2)%nat.
Proof. unfold inbox_slots_at. cbn [foldl]. repeat case_decide; cbn; lia. Qed.
Lemma ends_items wait s : ends 22 (items_across_slots wait s) any.
Proof.
  unfold items_across_slots. cbn [bind now_unix]. apply ends_clock. intros t.
  pose proof (length_slots (sb_public s) (t / 1000)) as Hlen.
  destruct (inbox_slots_at _ _) as [|slot older]; [by apply ends_ret|]. cbn in Hlen.
  unfold and_then. apply (ends_bind 10 11 _ _ any); [apply ends_authed|].
  intros [[b|e] s1] _; [|by apply ends_ret]. destruct (rows_of _ _ _ _) as [[items|e] s2]; [|by apply ends_ret].
  eapply ends_mono; [apply ends_older|done|lia].
Qed.
Lemma ends_poll_wait wait s : ends 22 (poll_wait wait s) any.
Proof.
  unfold poll_wait, and_then. apply (ends_bind 22 0 _ _ any); [apply ends_items|].
  intros [[items|e] s1] _; [|by apply ends_ret]. destruct (sub_me s1); [|by apply ends_ret].
  destruct (sift _ _ _). by apply ends_ret.
Qed.
Lemma ends_ack id s : ends 11 (ack id s) any.
Proof.
  unfold ack. apply (ends_bind 1 10 _ _ any).
  { case_match; [by apply ends_ret|]. cbn [bind now_unix]. step. }
  intros slot _. unfold and_then. apply (ends_bind 10 0 _ _ any); [apply ends_authed|].
  intros [[b|e] s1] _; by apply ends_ret.
Qed.

Lemma ends_status relay id token wait since slots err :
  ends (length slots) (status_slots relay id token wait since slots err) any.
Proof.
  revert err. induction slots as [|slot slots IH]; intros err; cbn [status_slots length]; [by apply ends_ret|].
  apply ends_send. intros [resp|]; [|apply IH]. repeat case_match; try by apply ends_ret. all: apply IH.
Qed.
Lemma ends_retract relay id token slots failed : ends (length slots) (retract_slots relay id token slots failed) any.
Proof.
  revert failed. induction slots as [|slot slots IH]; intros failed; cbn [retract_slots length]; [by apply ends_ret|].
  apply ends_send. intros [resp|]; [|apply IH]. case_match; [by apply ends_ret|apply IH].
Qed.
Lemma ends_beacons relay slots failed : ends (length slots) (ask_beacons relay slots failed) any.
Proof.
  revert failed. induction slots as [|slot slots IH]; intros failed; cbn [ask_beacons length]; [by apply ends_ret|].
  apply ends_send. intros [resp|]; [|apply IH]. case_match; [by apply ends_ret|apply IH].
Qed.

Lemma ends_status_once relay who id token wait since : ends 3 (offer_status_once relay who id token wait since) any.
Proof.
  unfold offer_status_once. cbn [bind now_unix]. apply ends_clock. intros t.
  eapply ends_mono; [apply ends_status|done|apply length_slots].
Qed.
Lemma ends_waiting relay who id token since wait : ends 6 (offer_status_waiting relay who id token since wait) any.
Proof.
  unfold offer_status_waiting. apply ends_clock. intros t. apply (ends_bind 3 2 _ _ any); [apply ends_status_once|].
  intros out _. cbn zeta. destruct (match out with Ok _ => _ | Err _ => _ end); step.
Qed.
Lemma ends_online relay who : ends 3 (check_online relay who) any.
Proof.
  unfold check_online. cbn [bind now_unix]. apply ends_clock. intros t. eapply ends_mono; [apply ends_beacons|done|].
  unfold presence_slots_at. repeat case_match; cbn; repeat case_decide; cbn; lia.
Qed.
End ends.

(** A call is over within [n] inputs: no run of it is longer, and one that has not come to
    the end can go on. *)
Definition over_within {A} (n : nat) (p : inbox A) : Prop :=
  ∀ ins p' l, run p ins = Some (p', l) →
    (length ins <= n)%nat ∧ ((∃ a, p' = Ret a) ∨ ∃ i, is_Some (resume p' i)).
Lemma ends_over {A} n (p : inbox A) : ends n p (fun _ => True) → over_within n p.
Proof.
  intros He ins p' l Hr. destruct (ends_runs _ _ _ _ _ _ He Hr) as [Hl He']. split; [done|].
  eapply ends_goes_on; [exact (inhabits None)|exact He'].
Qed.

(** C9. Every call of the inbox client ends after a bounded number of requests and clock
    readings, whatever the relay answers: a poll after at most twenty-two, since a session
    is asked for again at most once for each of the two slots. *)
Theorem inbox_calls_end `{!Ed25519, !Hpke, !Blake3Kdf, !Blake3Hash, !Blake3Wide, !SessionCodec, !Wire Offer, !Wire OfferV1,
    !Wire Envelope, !Wire SealedEnvelope, !Wire (list InboxItem), !Wire SyncNote} relay me who o ttl id token since wait body s :
  over_within 22 (poll_wait wait s) ∧ over_within 22 (raw_items wait s) ∧ over_within 11 (ack id s) ∧
  over_within 2 (post_raw body ttl s) ∧ over_within 5 (post_offer relay who me o ttl) ∧
  over_within 3 (retract_offer relay who id token) ∧ over_within 6 (offer_status_waiting relay who id token since wait) ∧
  over_within 2 (publish_beacon relay me) ∧ over_within 3 (check_online relay who).
Proof.
  split_and!; apply ends_over.
  - apply ends_poll_wait.
  - apply ends_items.
  - apply ends_ack.
  - unfold post_raw. cbn [bind now_unix]. repeat constructor.
  - unfold post_offer, now_unix, random_token. do 2 (apply ends_draw; intros). destruct (encode_offer_blob _ _ _ _ _); cbn [bind]; repeat constructor.
  - unfold retract_offer. cbn [bind now_unix]. apply ends_clock. intros t. eapply ends_mono; [apply ends_retract|done|apply length_slots].
  - apply ends_waiting.
  - unfold publish_beacon. cbn [bind now_unix]. repeat constructor.
  - apply ends_online.
Qed.
