(* ===== verification/PresenceNet.v ===== *)
(** * An offer on its way: the inbox client and the relay together

    The programs of [Presence.v] with the inbox of [Inbox.v] answering their requests, on
    one clock, while others use the same inbox: what is posted for a reader is what its
    poll hands out. *)
From stdpp Require Import gmap strings.
From S2P Require Import Prelude.
From S2P Require Import Text.
From S2P Require Import ChunkCipher.
From S2P Require Import SyncCodec.
From S2P Require Import Limits.
From S2P Require Import Store.
From S2P Require Import Mailbox.
From S2P Require Import UploadHttp.
From S2P Require Import UploadClient.
From S2P Require Import Rendezvous.
From S2P Require Import Inbox.
From S2P Require Import InboxFacts.
From S2P Require Import Code.
From S2P Require Import Tickets.
From S2P Require Import Transfers.
From S2P Require Import Identity.
From S2P Require Import Program.
From S2P Require Import Presence.
From S2P Require Import PresenceFacts.
Local Open Scope Z_scope.
Local Open Scope prog_scope.

(** ** The relay behind the client *)

(** A moment: what others did since the last one, whether [write_rate_limit] admits a
    request now, and what is drawn. *)
Record Tick := mkTick {
  ti_ms : Z; ti_others : list InboxOp; ti_admitted : bool; ti_draw : bytes; ti_id : Token }.
Definition secs (t : Tick) : Z := t.(ti_ms) / 1000.

Section net.
Context `{!Blake3Hash, !SessionCodec, !Wire (list InboxItem)} (lim : Limits) (secret : bytes).

Definition refused (e : Refusal) : Response := mkResponse e.1 (Some (bytes_of e.2)).
Definition status_only (s : Z) : Response := mkResponse s (Some []).
Definition limited : Response := refused (TOO_MANY_REQUESTS, "rate limited"%string).

(** The router, for the routes of an inbox and of the beacons; no answer is a request
    that is still held. *)
Definition serve_inbox (r : InboxRequest) (t : Tick) (m : Mailbox) : option (Response * Mailbox) :=
  let now := secs t in
  let auth := (fun b => ("Bearer " +:+ b)%string) <$> r.(iq_bearer) in
  match r.(iq_verb), r.(iq_url) with
  | Post, PostUrl _ slot ttl =>
      Some (if t.(ti_admitted) then
              let '(a, m) := inbox_post_handler lim slot ttl r.(iq_poster_hash) t.(ti_id) r.(iq_body) now m in
              (match a with Ok id => mkResponse OK (Some (bytes_of id)) | Err e => refused e end, m)
            else (limited, m))
  | Post, SessionUrl _ slot =>
      Some (if t.(ti_admitted) then
              (match inbox_session_handler secret slot t.(ti_draw) now with
               | Ok b => mkResponse OK (Some b)
               | Err e => refused e
               end, m)
            else (limited, m))
  | Get, ReadUrl _ slot wait =>
      match inbox_get_handler secret auth slot wait r.(iq_have) now now m with
      | (Err e, m) => Some (refused e, m)
      | (Ok (Rows rows), m) =>
          Some (match encode_inbox_items ((fun p => mkInboxItem p.1 p.2) <$> rows) with
                | Ok b => mkResponse OK (Some b)
                | Err e => refused (INTERNAL_SERVER_ERROR, e)
                end, m)
      | (Ok TimedOut, m) => Some (mkResponse OK (Some []), m)
      | (Ok Hold, m) => None
      end
  | Delete, RowUrl _ slot id =>
      let '(s, m) := inbox_delete_handler secret auth r.(iq_poster_token) slot id now m in Some (status_only s, m)
  | Get, StatusUrl _ slot id wait since =>
      match inbox_status_look r.(iq_poster_token) slot id since (inbox_status_open wait now) now m with
      | Refused => Some (status_only UNAUTHORIZED, m)
      | Word w => Some (mkResponse OK (Some (bytes_of w)), m)
      | HoldStatus => None
      end
  | Post, PresenceUrl _ slot =>
      Some (if t.(ti_admitted) then
              let '(a, m) := presence_post_handler lim slot now m in
              (match a with Ok s => status_only s | Err e => refused e end, m)
            else (limited, m))
  | Get, PresenceUrl _ slot => Some (status_only (presence_get_handler slot now m), m)
  | _, _ => Some (status_only METHOD_NOT_ALLOWED, m)
  end.

(** What the world yields to a program at a moment; a request that is held yields
    nothing. *)
Definition yields {A} (p : inbox A) (t : Tick) (m : Mailbox) : option (Input (option Response)) * Mailbox :=
  match p with
  | Ret _ => (None, m)
  | Send r _ => match serve_inbox r t m with Some (x, m) => (Some (Answers (Some x)), m) | None => (None, m) end
  | Race r _ => match serve_inbox r t m with Some (x, m) => (Some (Raced (Some (Some x))), m) | None => (None, m) end
  | Clock _ => (Some (Time t.(ti_ms)), m)
  | Sleep _ _ => (Some Slept, m)
  | Draw _ => (Some (Drawn t.(ti_draw)), m)
  | Pick _ _ => (Some (Picked 0), m)
  | Tell _ _ => (Some Heard, m)
  | Stopped _ => (Some (Stops false), m)
  | Iter _ _ _ => (Some Round, m)
  end.
Definition play_tick {A} (pm : inbox A * Mailbox) (t : Tick) : inbox A * Mailbox :=
  let m := inbox_run lim secret t.(ti_others) pm.2 in
  let '(i, m) := yields pm.1 t m in
  (match i ≫= resume pm.1 with Some (p, _) => p | None => pm.1 end, m).
Definition play {A} (ticks : list Tick) (p : inbox A) (m : Mailbox) : inbox A * Mailbox :=
  foldl play_tick (p, m) ticks.

(** ** What a program comes to

    [meets p lo Q]: driven by moments that are [ok], from [lo] on and in order, and a
    relay that is [live] all the while, every request of [p] is answered and it comes to
    a result with [Q], of that result and the last moment. *)
Section meets.
Context (ok : Tick → Prop) (live : Mailbox → Prop).

Fixpoint meets {A} (p : inbox A) (lo : Z) (Q : A → Z → Prop) : Prop :=
  match p with
  | Ret a => Q a lo
  | Send r k => ∀ t m, ok t → lo <= t.(ti_ms) → live m →
      ∃ x m', serve_inbox r t m = Some (x, m') ∧ live m' ∧ meets (k (Some x)) t.(ti_ms) Q
  | Race r k => ∀ t m, ok t → lo <= t.(ti_ms) → live m →
      ∃ x m', serve_inbox r t m = Some (x, m') ∧ live m' ∧ meets (k (Some (Some x))) t.(ti_ms) Q
  | Clock k => ∀ t, ok t → lo <= t.(ti_ms) → meets (k t.(ti_ms)) t.(ti_ms) Q
  | Sleep _ k => ∀ t, lo <= t → meets k t Q
  | Draw k => ∀ b t, lo <= t → meets (k b) t Q
  | Pick below k => 0 < below ∧ ∀ i t, lo <= t → meets (k i) t Q
  | Tell _ k => ∀ t, lo <= t → meets k t Q
  | Stopped k => ∀ b t, lo <= t → meets (k b) t Q
  | Iter body s k => ∃ I : _ → Z → Prop, (∀ t, lo <= t → I s t) ∧ ∀ s t, I s t →
      meets (body s) t (fun x t => match x with inl s => ∀ t', t <= t' → I s t' | inr r => meets (k r) t Q end)
  end.

Lemma meets_mono {A} (p : inbox A) lo (Q Q' : A → Z → Prop) : (∀ a t, Q a t → Q' a t) → meets p lo Q → meets p lo Q'.
Proof.
  revert lo Q Q'. induction p as [A a|A r k IH|A r k IH|A k IH|A ms k IH|A k IH|A n k IH|A n k IH|A k IH|A S R body IHb s k IH];
    intros lo Q Q' HQ Hp; cbn in *; eauto.
  - intros t m Ht Hlo Hm. destruct (Hp t m Ht Hlo Hm) as (x & m' & ? & ? & ?). eauto 10.
  - intros t m Ht Hlo Hm. destruct (Hp t m Ht Hlo Hm) as (x & m' & ? & ? & ?). eauto 10.
  - destruct Hp as [Hb Hp]. eauto.
  - destruct Hp as (I & Hs & HI). exists I. split; [done|]. intros s' t Hi. eapply IHb; [|by apply HI].
    intros [s1|r] t1; [done|]. by apply IH.
Qed.
Lemma meets_bind {A B} (p : inbox A) (f : A → inbox B) lo Q :
  meets p lo (fun a t => meets (f a) t Q) → meets (bind p f) lo Q.
Proof.
  revert lo. induction p as [A a|A r k IH|A r k IH|A k IH|A ms k IH|A k IH|A n k IH|A n k IH|A k IH|A S R body IHb s k IH];
    intros lo Hp; cbn in *; eauto.
  - intros t m Ht Hlo Hm. destruct (Hp t m Ht Hlo Hm) as (x & m' & ? & ? & ?). eauto 10.
  - intros t m Ht Hlo Hm. destruct (Hp t m Ht Hlo Hm) as (x & m' & ? & ? & ?). eauto 10.
  - destruct Hp as [Hb Hp]. eauto.
  - destruct Hp as (I & Hs & HI). exists I. split; [done|]. intros s' t Hi. eapply meets_mono; [|by apply HI].
    intros [s1|r] t1; [done|]. apply IH.
Qed.
Lemma meets_loop {S R} (I : S → Z → Prop) (body : S → inbox (S + R)) s lo Q :
  (∀ t, lo <= t → I s t) →
  (∀ s t, I s t → meets (body s) t (fun x t => match x with inl s => ∀ t', t <= t' → I s t' | inr r => Q r t end)) →
  meets (loop body s) lo Q.
Proof. intros Hs HI. by exists I. Qed.

(** Driven so, a program that ends within a number of inputs has ended after as many
    moments, with such a result. *)
Fixpoint from (lo : Z) (ticks : list Tick) : Prop :=
  match ticks with
  | [] => True
  | t :: ticks => lo <= t.(ti_ms) ∧ ok t ∧ from t.(ti_ms) ticks
  end.
Lemma meets_tick {A} (p : inbox A) lo n m t Q :
  (∀ t m, ok t → live m → live (inbox_run lim secret t.(ti_others) m)) →
  meets p lo Q → ends n p (fun _ => True) → live m → ok t → lo <= t.(ti_ms) →
  ∃ p' m' lo', play_tick (p, m) t = (p', m') ∧ live m' ∧ lo <= lo' <= t.(ti_ms) ∧ meets p' lo' Q ∧ ends (pred n) p' (fun _ => True).
Proof.
  intros Hothers Hp He Hm Ht Hlo. unfold play_tick. cbn [fst snd].
  pose proof (Hothers t m Ht Hm) as Hm1. set (m1 := inbox_run _ _ _ m) in *. clearbody m1.
  assert (∀ p1 i os, resume p i = Some (p1, os) → ends (pred n) p1 (fun _ => True)) as Hends.
  { intros p1 i os Hr. by destruct (ends_resume _ _ _ _ _ _ He Hr) as (k & -> & Hk). }
  destruct p as [a|r k|r k|k|ms k|k|below k|x k|k|S R body s k]; cbn [yields mbind option_bind] in *.
  - exists (Ret a), m1, lo. split_and!; try done. by constructor.
  - cbn [meets] in Hp. destruct (Hp t m1 Ht Hlo Hm1) as (x & m' & Hs & Hm' & Hk). rewrite Hs. cbn.
    exists (k (Some x)), m', (ti_ms t). split_and!; try done. by apply (Hends _ (Answers (Some x)) _ eq_refl).
  - cbn [meets] in Hp. destruct (Hp t m1 Ht Hlo Hm1) as (x & m' & Hs & Hm' & Hk). rewrite Hs. cbn.
    exists (k (Some (Some x))), m', (ti_ms t). split_and!; try done. by apply (Hends _ (Raced (Some (Some x))) _ eq_refl).
  - exists (k (ti_ms t)), m1, (ti_ms t). split_and!; try done; [by apply Hp|by apply (Hends _ (Time (ti_ms t)) _ eq_refl)].
  - exists k, m1, (ti_ms t). split_and!; try done; [by apply Hp|by apply (Hends _ Slept _ eq_refl)].
  - exists (k (ti_draw t)), m1, (ti_ms t). split_and!; try done; [by apply Hp|by apply (Hends _ (Drawn (ti_draw t)) _ eq_refl)].
  - destruct Hp as [Hb Hp]. assert (resume (Pick below k) (Picked 0) = Some (k 0, [])) as Hr.
    { cbn. by rewrite (proj2 (Z.ltb_lt _ _) Hb). }
    rewrite Hr. exists (k 0), m1, (ti_ms t). split_and!; try done; [by apply Hp|by apply (Hends _ _ _ Hr)].
  - exists k, m1, (ti_ms t). split_and!; try done; [by apply Hp|by apply (Hends _ Heard _ eq_refl)].
  - exists (k false), m1, (ti_ms t). split_and!; try done; [by apply Hp|by apply (Hends _ (Stops false) _ eq_refl)].
  - destruct Hp as (I & Hs & HI). eexists _, m1, (ti_ms t). split_and!; [reflexivity|done|done|done| |by apply (Hends _ Round _ eq_refl)].
    apply meets_bind. eapply meets_mono; [|apply HI, Hs, Hlo]. intros [s'|r] t' Hx; [|done]. by exists I.
Qed.
Lemma meets_play {A} (p : inbox A) lo n m ticks Q :
  (∀ t m, ok t → live m → live (inbox_run lim secret t.(ti_others) m)) →
  meets p lo Q → ends n p (fun _ => True) → live m → from lo ticks → (n <= length ticks)%nat →
  ∃ a m' lo', play ticks p m = (Ret a, m') ∧ live m' ∧ Q a lo'.
Proof.
  intros Hothers. revert p lo n m. induction ticks as [|t ticks IH]; intros p lo n m Hp He Hm Hf Hn; cbn in Hn.
  - assert (n = 0%nat) as -> by lia. destruct p as [a| | | | | | | | |]; [|exfalso; inversion He..].
    by exists a, m, lo.
  - destruct Hf as (Hlo & Ht & Hf). unfold play. cbn [foldl].
    destruct (meets_tick p lo n m t Q Hothers Hp He Hm Ht Hlo) as (p' & m' & lo' & Htick & Hm' & Hlo' & Hp' & He').
    rewrite Htick. apply (IH p' lo' (pred n)); try done; [|lia].
    destruct ticks as [|t' ticks]; [done|]. destruct Hf as (Hl & Ht' & Hf). split_and!; [lia|done|done].
Qed.
End meets.

Lemma play_ret {A} ticks (a : A) m : (play ticks (Ret a) m).1 = Ret a.
Proof. revert m. induction ticks as [|t ticks IH]; intros m; [done|]. apply IH. Qed.
Lemma play_draw {A} t ticks (k : bytes → inbox A) m :
  play (t :: ticks) (Draw k) m = play ticks (k t.(ti_draw)) (inbox_run lim secret t.(ti_others) m).
Proof. done. Qed.
Lemma play_clock {A} t ticks (k : Z → inbox A) m :
  play (t :: ticks) (Clock k) m = play ticks (k t.(ti_ms)) (inbox_run lim secret t.(ti_others) m).
Proof. done. Qed.
Lemma play_send {A} t ticks r (k : option Response → inbox A) m :
  play (t :: ticks) (Send r k) m =
    match serve_inbox r t (inbox_run lim secret t.(ti_others) m) with
    | Some (x, m') => play ticks (k (Some x)) m'
    | None => play ticks (Send r k) (inbox_run lim secret t.(ti_others) m)
    end.
Proof.
  unfold play. cbn [foldl]. unfold play_tick at 2. cbn [fst snd yields].
  by destruct (serve_inbox r t _) as [[x m']|].
Qed.
End net.

(** ** A reader that polls *)

Section reader.
Context `{!Ed25519, !Hpke, !Blake3Kdf, !Blake3Hash, !Blake3Wide, !SessionCodec, !Wire Offer, !Wire OfferV1,
  !Wire Envelope, !Wire SealedEnvelope, !Wire (list InboxItem), !Wire SyncNote}.
Context `{!Ed25519Laws, !SessionCodecLaws, !WireLaws (list InboxItem)} (lim : Limits) (secret : bytes).
(** A row in the slot that the reader had at [chosen], alive up to [until], and the reads
    are between [since] and [until]. *)
Context (reader : Identity) (origin : option bytes) (chosen since until : Z) (id : Token) (blob : bytes) (deadline : Z).
Notation slot := (slot_for_at (public reader) chosen).

Definition row_live (m : Mailbox) : Prop :=
  ∃ r, m.(mb_inbox) !! (slot, id) = Some r ∧ r.(ib_value) = blob ∧ r.(ib_expires_at) = deadline ∧ r.(ib_taken_at) = None.
Definition reading (t : Tick) : Prop :=
  t.(ti_admitted) = true ∧ since <= secs t < until ∧ Forall (leaves slot id deadline) t.(ti_others).

Context (Hmade : made reader) (Hseed : length reader.(id_seed) = HALF)
  (Hfactor : ∀ e, factor (public reader).(pi_ed) e ≠ scalar_zero)
  (Hrows : ∀ items : list InboxItem, items ≠ [] → ∃ b, to_allocvec items = Some b ∧ b ≠ [])
  (Hchosen : 0 <= chosen <= since) (Hhour : until <= since + INBOX_SESSION_TTL)
  (Halive : until <= chosen + INBOX_EPOCH_SECS) (Hdeadline : until <= deadline) (Hclock : deadline <= I64_MAX).

Notation meets := (meets lim secret reading row_live).

Lemma others_leave t m : reading t → row_live m → row_live (inbox_run lim secret t.(ti_others) m).
Proof.
  intros (_ & _ & Hl) (r & Hr & Hv & He & Ht).
  destruct (inbox_run_leaves lim secret (ti_others t) m slot id r Hr) as (r' & Hr' & V & E & _ & T); [by rewrite He|].
  exists r'. split; [done|]. rewrite V, E, T. by split_and!.
Qed.
Lemma look_leaves auth sl wait header now at_ m :
  row_live m → row_live (inbox_get_handler secret auth sl wait header now at_ m).2.
Proof.
  intros (r & Hr & Hv & He & Ht).
  destruct (inbox_step_leaves lim secret (ILook auth sl wait header now at_) m slot id r Hr) as (r' & Hr' & V & E & _ & T).
  { split_and!; [done|done|]. intros ? [=]. }
  exists r'. split; [done|]. rewrite V, E, T. by split_and!.
Qed.

Lemma sub_me_reader s : s.(sb_secret) = reader.(id_seed) → sub_me s = Ok reader.
Proof.
  intros Hs. unfold sub_me, from_secret_bytes. rewrite Hs, Hseed. cbn [Nat.eqb HALF]. by rewrite <- Hmade.
Qed.

(** *** Sessions *)

Lemma epoch_slot_key e : slot_key (slot_for_epoch (public reader) e) = Some (public_at (public reader) e).
Proof.
  unfold slot_key, slot_for_epoch, encode_slot. rewrite base32_trim, base32_round. unfold public_at. by rewrite ed_mul_length.
Qed.
Lemma epoch_of_slot sl unix e : epoch_of sl reader unix = Some e → slot_for_epoch (public reader) e = sl.
Proof. intros Hf. apply find_some in Hf as [_ Hf]. by apply bool_decide_eq_true in Hf. Qed.

(** A bearer that opens a slot for as long as the reading goes on, and the moments at
    which the reader can sign for a slot. *)
Definition opens (sl : string) (bearer : string) : Prop :=
  ∀ t, reading t → inbox_authorized (Some ("Bearer " +:+ bearer)%string) sl secret (secs t) = true.
Definition owned (sl : string) (lo : Z) : Prop :=
  ∀ t, reading t → lo <= t.(ti_ms) → is_Some (epoch_of sl reader (secs t)).
Definition kept (s : Sub) : Prop :=
  s.(sb_public) = public reader ∧ s.(sb_secret) = reader.(id_seed) ∧ s.(sb_origin) = origin ∧
  ∀ sl c, s.(sb_sessions) !! sl = Some c → opens sl c.(cs_bearer).

Lemma owned_row lo : owned slot lo.
Proof.
  intros t (_ & Ht & _) _.
  destruct (live_row_is_read (public reader) reader (Some INBOX_EPOCH_SECS) chosen (secs t)) as [_ He]; [lia|cbn; lia|].
  destruct (He eq_refl) as (e & -> & _). by eexists.
Qed.

Lemma signed_opens e nonce t challenge :
  reading t → inbox_session_handler secret (slot_for_epoch (public reader) e) nonce (secs t) = Ok challenge →
  ∃ c, challenge_from_bytes challenge = Some c ∧
    opens (slot_for_epoch (public reader) e)
      (base32_encode_lower (token_to_vec (mkSessionToken c.(sc_nonce) c.(sc_exp) c.(sc_mac)
         (sign_at reader e (session_signing_input (slot_for_epoch (public reader) e) c.(sc_nonce) c.(sc_exp)))))).
Proof.
  intros (_ & Ht & _) Hc. unfold inbox_session_handler in Hc. rewrite epoch_slot_key in Hc. cbn zeta in Hc.
  injection Hc as <-. eexists. split; [apply challenge_round|]. intros t' (_ & Ht' & _).
  assert (∀ msg, blinded_verify (public_at (public reader) e) msg (sign_at reader e msg) = true) as Hs.
  { intros msg. by apply slot_owner_signs. }
  rewrite (inbox_session_opens secret _ (public_at (public reader) e) nonce (sign_at reader e) (secs t)
    (challenge_to_vec (mkSessionChallenge nonce (sat_add (secs t) INBOX_SESSION_TTL)
       (inbox_mac secret (slot_for_epoch (public reader) e) nonce (sat_add (secs t) INBOX_SESSION_TTL))))).
  - apply Z.ltb_lt. lia.
  - apply epoch_slot_key.
  - unfold INBOX_SESSION_TTL, I64_MAX, U64_MAX in *. lia.
  - intros msg. specialize (Hs msg). unfold blinded_verify in Hs. repeat case_in Hs; [done..|].
    split; [done|]. by apply Nat.eqb_eq, negb_false_iff.
  - unfold inbox_session_handler. by rewrite epoch_slot_key.
  - unfold session_bearer. by rewrite challenge_round.
Qed.

Lemma kept_session sl c s : kept s → opens sl c.(cs_bearer) → kept (with_sessions (<[sl := c]> s.(sb_sessions)) s).
Proof.
  intros (? & ? & ? & Hs) Hc. split_and!; try done. cbn [with_sessions sb_sessions]. intros sl' c'.
  destruct (decide (sl = sl')) as [<-|Hne]; [rewrite lookup_insert_eq; by intros [= <-]|rewrite lookup_insert_ne by done; apply Hs].
Qed.

Lemma meets_session e s lo (Q : result string string * Sub → Z → Prop) :
  let sl := slot_for_epoch (public reader) e in
  kept s →
  (∀ bearer s' lo', lo <= lo' → kept s' → opens sl bearer → Q (Ok bearer, s') lo') →
  (∀ err lo', lo <= lo' → ¬ owned sl lo → Q (Err err, s) lo') →
  meets (ensure_session sl false s) lo Q.
Proof.
  intros sl Hs HQ Herr.
  assert (∀ lo1, lo <= lo1 → meets (fresh_session sl s) lo1 Q) as Hfresh.
  { intros lo1 Hl1. unfold fresh_session. rewrite (sub_me_reader s) by apply Hs. cbn [PresenceNet.meets].
    intros t m Ht Hlo Hm. unfold serve_inbox. cbn [plain_request iq_verb iq_url iq_bearer].
    destruct Ht as (Ha & Hw & Ho). rewrite Ha. pose proof (conj Ha (conj Hw Ho) : reading t) as Ht.
    destruct (inbox_session_handler secret sl (ti_draw t) (secs t)) as [b|err] eqn:Eh.
    2:{ unfold inbox_session_handler in Eh. unfold sl in Eh. by rewrite epoch_slot_key in Eh. }
    eexists _, m. split; [done|]. split; [done|]. destruct (signed_opens e _ t b Ht Eh) as (c & Hc & Hopen).
    cbn [rs_status rs_body is_error]. change (is_error OK) with false. cbn match. rewrite Hc. cbn [bind now_unix PresenceNet.meets].
    intros t' Ht' Hlo'. change (ti_ms t' / 1000) with (secs t').
    destruct (epoch_of sl reader (secs t')) as [e'|] eqn:Ee; cbn [PresenceNet.meets].
    - pose proof (epoch_of_slot _ _ _ Ee) as He'.
      assert (opens sl (base32_encode_lower (token_to_vec (mkSessionToken (sc_nonce c) (sc_exp c) (sc_mac c)
        (sign_at reader e' (session_signing_input sl (sc_nonce c) (sc_exp c))))))) as Ho'.
      { rewrite <- He' in Eh. destruct (signed_opens e' _ t b Ht Eh) as (c' & Hc' & Hopen').
        rewrite Hc in Hc'. injection Hc' as <-. by rewrite He' in Hopen'. }
      apply HQ; [lia|by apply kept_session|done].
    - apply Herr; [lia|]. intros Hown. destruct (Hown t' Ht') as [e' He']; [lia|]. by rewrite Ee in He'. }
  unfold ensure_session. destruct (sb_sessions s !! sl) as [c|] eqn:Ec; [|by apply Hfresh].
  cbn [bind now_unix PresenceNet.meets]. intros t Ht Hlo. destruct (_ <? _); [|by apply Hfresh].
  apply HQ; [lia|done|]. destruct Hs as (_ & _ & _ & Hs). by apply (Hs sl c).
Qed.

(** *** Reading a slot *)

(** What a body of a slot may be: of the row's slot, one that lists the row. *)
Definition body_ok (sl : string) (b : bytes) : Prop :=
  (b = [] ∧ sl ≠ slot) ∨
  ∃ items, b ≠ [] ∧ from_bytes (T := list InboxItem) b = Some items ∧ (sl = slot → mkInboxItem id blob ∈ items).

Lemma serve_read relay sl bearer t m :
  reading t → row_live m → opens sl bearer →
  ∃ b m', serve_inbox lim secret (mkInboxRequest Get (ReadUrl relay sl 0) (Some bearer) None None None []) t m
          = Some (mkResponse OK (Some b), m') ∧ row_live m' ∧ body_ok sl b.
Proof.
  intros Ht Hm Hopen. pose proof (Hopen t Ht) as Hauth. destruct Ht as (_ & Hw & _).
  pose proof (look_leaves (Some ("Bearer " +:+ bearer)%string) sl 0 None (secs t) (secs t) m Hm) as Hlive.
  unfold serve_inbox. cbn [iq_verb iq_url iq_bearer iq_have fmap option_fmap option_map].
  unfold inbox_get_handler, inbox_get_open in *. rewrite Hauth in *. cbn [negb] in *.
  change (Z.min 0 INBOX_MAX_WAIT_SECS) with 0 in *. change (0 =? 0) with true in *. cbn match in *. unfold inbox_get_look in *.
  set (rows := inbox_list sl (secs t) m) in *. assert (sat_add (secs t) 0 <=? secs t = true) as Hdue.
  { apply Z.leb_le. unfold sat_add. lia. }
  rewrite Hdue in *. destruct (existsb _ rows) eqn:Eany; cbn [snd] in Hlive.
  - set (items := (fun p => mkInboxItem p.1 p.2) <$> rows).
    assert (items ≠ []) as Hne by (unfold items; by destruct rows).
    destruct (Hrows items Hne) as (b & Hb & Hnil). unfold encode_inbox_items. rewrite Hb. cbn [context].
    eexists b, _. split; [done|]. split; [exact Hlive|]. right. exists items. split_and!; [done|by apply from_to_bytes|].
    intros ->. destruct Hm as (r & Hr & Hv & He & Hk). apply list_elem_of_fmap. exists (id, blob). split; [done|].
    apply elem_of_inbox_list. exists r. split_and!; [done| |done]. unfold listed. rewrite Hk, He. apply andb_true_iff. split; [|done].
    apply Z.ltb_lt. rewrite as_i64_small by lia. lia.
  - eexists [], m. split; [done|]. split; [done|]. left. split; [done|]. intros ->.
    destruct Hm as (r & Hr & Hv & He & Hk). assert ((id, blob) ∈ rows) as Hin.
    { apply elem_of_inbox_list. exists r. split_and!; [done| |done]. unfold listed. rewrite Hk, He. apply andb_true_iff. split; [|done].
      apply Z.ltb_lt. rewrite as_i64_small by lia. lia. }
    apply not_true_iff_false in Eany. apply Eany, existsb_exists. exists (id, blob).
    split; [by apply list_elem_of_In|]. by rewrite bool_decide_false by set_solver.
Qed.

Lemma meets_read e s lo first (Q : result bytes string * Sub → Z → Prop) :
  let sl := slot_for_epoch (public reader) e in
  kept s →
  (∀ b s' lo', lo <= lo' → kept s' → body_ok sl b → Q (Ok b, s') lo') →
  (∀ err s' lo', lo <= lo' → kept s' → ¬ owned sl lo → Q (Err err, s') lo') →
  meets (read_slot sl first 0 s) lo Q.
Proof.
  intros sl Hs HQ Herr. unfold read_slot. change (0 <? 0) with false. rewrite andb_false_r. unfold authed.
  apply (meets_loop _ _ _ _ (fun st lo' => st = (false, s) ∧ lo <= lo')); [done|].
  intros st lo1 [-> Hl1]. unfold authed_round. apply meets_bind. apply meets_session; [done| |].
  - intros bearer s' lo2 Hl2 Hs' Hopen. cbn [PresenceNet.meets]. intros t m Ht Hlo Hm.
    destruct (serve_read (trim_slashes (sb_relay s)) sl bearer t m Ht Hm Hopen) as (b & m' & Hsrv & Hm' & Hb).
    exists (mkResponse OK (Some b)), m'. split; [exact Hsrv|]. split; [done|]. cbn [PresenceNet.meets rs_status rs_body].
    change (OK =? UNAUTHORIZED) with false. change (is_error OK) with false. cbn [andb context]. apply HQ; [lia|done|done].
  - intros err lo2 Hl2 Hown. cbn [PresenceNet.meets]. apply Herr; [lia|done|]. intros Ho. apply Hown. intros t Ht Hlo. apply Ho; [done|lia].
Qed.

(** *** The rows, and what is handed out *)

Lemma rows_of_kept sl first b s : kept s → body_ok sl b →
  ∃ items s', rows_of sl first b s = (Ok items, s') ∧ kept s' ∧ (sl = slot → mkInboxItem id blob ∈ items).
Proof.
  intros Hs [[-> Hne]|(items & Hnil & Hb & Hin)]; [by exists [], s|]. unfold rows_of. destruct b as [|x b]; [done|].
  rewrite Hb. eexists items, _. split; [done|]. split; [|done]. by destruct first.
Qed.

Lemma meets_older slots backfill decided out s lo (Q : result (list InboxItem) string * Sub → Z → Prop) :
  backfill = true → kept s → (∀ sl, sl ∈ slots → ∃ e, sl = slot_for_epoch (public reader) e) →
  (∀ items s' lo', lo <= lo' → kept s' → out ⊆ items → (slot ∈ slots → mkInboxItem id blob ∈ items) → Q (Ok items, s') lo') →
  meets (older_slots slots decided backfill out s) lo Q.
Proof.
  intros ->. revert decided out s lo. induction slots as [|sl slots IH]; intros decided out s lo Hs Hsl HQ; cbn [older_slots].
  { cbn [PresenceNet.meets]. apply HQ; [lia|done|done|]. intros Hin. by apply not_elem_of_nil in Hin. }
  destruct (Hsl sl) as [e ->]; [by left|]. apply meets_bind, meets_read; [done| |].
  - intros b s' lo' Hlo Hs' Hb. destruct (rows_of_kept _ false b s' Hs' Hb) as (items & s2 & -> & Hs2 & Hin).
    apply IH; [done|intros; apply Hsl; by right|]. intros items' s3 lo3 Hlo3 Hs3 Hsub Hin3. apply HQ; [lia|done|set_solver|].
    rewrite elem_of_cons. intros [Heq|?]; [|by apply Hin3]. apply Hsub, elem_of_app. right. by apply Hin.
  - intros err s' lo' Hlo Hs' Hown. apply IH; [done|intros; apply Hsl; by right|].
    intros items' s3 lo3 Hlo3 Hs3 Hsub Hin3. apply HQ; [lia|done|done|].
    rewrite elem_of_cons. intros [Heq|?]; [|by apply Hin3]. destruct Hown. rewrite <- Heq. apply owned_row.
Qed.

Lemma first_owned t : reading t → owned (slot_for_at (public reader) (secs t)) t.(ti_ms).
Proof.
  intros (_ & Hw & _) t' (_ & Hw' & _) Hl. assert (secs t <= secs t') by (apply Z.div_le_mono; lia).
  destruct (live_row_is_read (public reader) reader (Some INBOX_EPOCH_SECS) (secs t) (secs t')) as [_ He]; [lia| |].
  { cbn. unfold INBOX_SESSION_TTL, INBOX_EPOCH_SECS in *. lia. }
  destruct (He eq_refl) as (e & -> & _). by eexists.
Qed.

Lemma meets_items s lo (Q : result (list InboxItem) string * Sub → Z → Prop) :
  kept s → (∀ items s' lo', kept s' → mkInboxItem id blob ∈ items → Q (Ok items, s') lo') →
  meets (items_across_slots 0 s) lo Q.
Proof.
  intros Hs HQ. unfold items_across_slots. cbn [bind now_unix PresenceNet.meets]. intros t Ht Hlo.
  change (ti_ms t / 1000) with (secs t). destruct Hs as (Hpub & Hrest). rewrite Hpub. pose proof (conj Hpub Hrest : kept s) as Hs.
  pose proof Ht as (_ & Hw & _).
  destruct (live_row_is_read (public reader) reader (Some INBOX_EPOCH_SECS) chosen (secs t)) as [Hin _]; [lia|cbn; lia|].
  destruct (inbox_slots_eq (public reader) (secs t)) as [Heq Hz]; [lia|]. rewrite Heq in *. clear Heq.
  unfold and_then. apply meets_bind. apply meets_read; [done| |].
  - intros b s' lo' Hl' Hs' Hb. destruct (rows_of_kept _ true b s' Hs' Hb) as (items & s2 & -> & Hs2 & Hi).
    change (0 =? 0) with true. apply meets_older; [done|done| |].
    + intros sl Hsl. case_decide; [by apply not_elem_of_nil in Hsl|]. apply list_elem_of_singleton in Hsl as ->. by eexists.
    + intros items' s3 lo3 _ Hs3 Hsub Hin3. apply HQ; [done|]. apply elem_of_cons in Hin as [Hin|Hin]; [|by apply Hin3].
      apply Hsub. by apply Hi.
  - intros err s' lo' _ _ Hown. destruct Hown. rewrite Hz. by apply first_owned.
Qed.

Lemma sift_in s items acc sender o :
  decode_sync_note blob = None → decode_offer blob reader = Some (sender, o) →
  is_ours s o = false → aimed_elsewhere s o = false → mkInboxItem id blob ∈ items ∨ mkReceivedOffer id (to_bytes sender) o ∈ acc.1 →
  mkReceivedOffer id (to_bytes sender) o ∈ (foldl (sift_row reader s) acc items).1.
Proof.
  intros Hn Ho Hours Haim. revert acc. induction items as [|i items IH]; intros acc Hin; cbn [foldl].
  { destruct Hin as [Hin|Hin]; [by apply not_elem_of_nil in Hin|done]. }
  apply IH. rewrite elem_of_cons in Hin. destruct Hin as [[<-|Hin]|Hin]; [right|by left|right].
  - destruct acc as [out un]. unfold sift_row. cbn [ii_blob ii_id]. rewrite Hn, bool_decide_false by (by intros [? ?]).
    rewrite Ho, Hours, Haim. cbn. set_solver.
  - destruct acc as [out un]. unfold sift_row. cbn [fst] in Hin. repeat case_match; cbn; set_solver.
Qed.

Lemma meets_poll s lo sender o :
  kept s → decode_sync_note blob = None → decode_offer blob reader = Some (sender, o) →
  is_ours s o = false → aimed_elsewhere s o = false →
  meets (poll_wait 0 s) lo (fun r _ => ∃ offers, r.1 = Ok offers ∧ mkReceivedOffer id (to_bytes sender) o ∈ offers).
Proof.
  intros Hs Hn Ho Hours Haim. unfold poll_wait, and_then. apply meets_bind, meets_items; [done|].
  intros items s' lo' Hs' Hin. rewrite (sub_me_reader s') by apply Hs'. unfold sift.
  pose proof (sift_in s' items ([], sb_undecodable s') sender o Hn Ho) as Hsift.
  assert (sb_origin s' = sb_origin s) as Horig by (destruct Hs as (_ & _ & -> & _); by destruct Hs' as (_ & _ & -> & _)).
  unfold is_ours, aimed_elsewhere in Hsift, Hours, Haim. rewrite Horig in Hsift. specialize (Hsift Hours Haim (or_introl Hin)).
  destruct (foldl _ _ _) as [out un]. cbn [PresenceNet.meets fst] in *. by exists out.
Qed.
End reader.

(** ** What is posted is read *)

Section delivery.
Context `{!Ed25519, !Hpke, !Blake3Kdf, !Blake3Hash, !Blake3Wide, !SessionCodec, !Wire Offer, !Wire OfferV1,
  !Wire Envelope, !Wire SealedEnvelope, !Wire (list InboxItem), !Wire SyncNote}.
Context `{!Ed25519Laws, !HpkeLaws, !SessionCodecLaws, !WireLaws Offer, !WireLaws Envelope, !WireLaws SealedEnvelope,
  !WireLaws (list InboxItem)} (lim : Limits) (secret : bytes).

(** The time that a post asks for, which the relay grants. *)
Definition granted (ttl : option Z) : Z := default INBOX_TTL_SECS (clamp_inbox_ttl ttl).

(** What a post that was accepted left: draws, the clock, a draw, the request. *)
Lemma posted_row relay reader me o ttl a b c d e m p m' :
  play lim secret [a; b; c; d; e] (post_offer relay (public reader) me o ttl) m = (Ret (Ok p), m') →
  0 <= secs e → 0 <= granted ttl → secs e + INBOX_EPOCH_SECS <= I64_MAX →
  ∃ blob, encode_offer_blob o (public reader) me a.(ti_draw) b.(ti_draw) = Ok blob ∧
    p = mkPostedOffer (str_trim e.(ti_id)) (base32_encode_lower d.(ti_draw)) ∧
    row_live reader (secs c) e.(ti_id) blob (secs e + granted ttl) m'.
Proof.
  intros Hp He Hg Hroom. unfold post_offer in Hp. rewrite !play_draw in Hp.
  destruct (encode_offer_blob o (public reader) me (ti_draw a) (ti_draw b)) as [blob|err] eqn:Eb.
  2:{ pose proof (f_equal fst Hp) as Hf. by rewrite play_ret in Hf. }
  unfold now_unix, random_token in Hp. cbn [bind] in Hp. rewrite play_clock in Hp. cbn [bind] in Hp. rewrite play_draw, play_send in Hp.
  set (m1 := inbox_run _ _ (ti_others e) _) in Hp. clearbody m1. unfold serve_inbox in Hp.
  cbn [iq_verb iq_url iq_poster_hash iq_body iq_bearer] in Hp. change (ti_ms c / 1000) with (secs c) in Hp.
  destruct (ti_admitted e); [|by cbn in Hp].
  destruct (inbox_post_handler _ _ _ _ _ _ _ _) as [[ans|err] m2] eqn:Epost; cbn [mbind option_bind resume fst snd] in Hp.
  2:{ destruct err as [st txt]. exfalso. revert Epost Hp. unfold inbox_post_handler.
      repeat (case_bool; [intros [= <- <- <-]; by cbn|]). done. }
  pose proof (inbox_post_ok lim _ _ _ _ _ _ _ _ _ Epost) as (-> & _ & _ & ->).
  cbn [rs_status rs_body] in Hp. change (negb (is_success OK)) with false in Hp. cbn match in Hp.
  rewrite string_of_bytes_of in Hp. injection Hp as <- <-.
  exists blob. split; [done|]. split; [done|]. unfold row_live, inbox_put. cbn [mb_inbox with_inbox]. rewrite lookup_insert_eq.
  eexists. split; [done|]. cbn [ib_value ib_expires_at ib_taken_at]. split_and!; try done.
  fold (granted ttl). assert (granted ttl <= INBOX_EPOCH_SECS) as Hle.
  { unfold granted. destruct ttl as [ttl|]; cbn; unfold INBOX_TTL_SECS, INBOX_EPOCH_SECS; lia. }
  rewrite Z.min_l by (unfold INBOX_EPOCH_SECS, INBOX_MAX_TTL_SECS in *; lia).
  rewrite sat_add_small by (unfold I64_MAX, U64_MAX in *; lia). apply as_i64_small. lia.
Qed.

Lemma granted_bounds ttl : granted ttl <= INBOX_EPOCH_SECS.
Proof. unfold granted. destruct ttl as [ttl|]; cbn; unfold INBOX_TTL_SECS, INBOX_EPOCH_SECS; lia. Qed.

(** A subscription that has read nothing yet. *)
Definition unread (reader : Identity) (s : Sub) : Prop :=
  s.(sb_public) = public reader ∧ s.(sb_secret) = secret_bytes reader ∧ s.(sb_sessions) = ∅.

(** C7. An offer that a relay accepted reaches its reader.  Whatever else the two of them and
    others do at that inbox, as long as nobody takes this row, withdraws it or reaps it
    before its time, a one-shot read within the time granted comes to an end, after at
    most twenty-two steps, and hands out the offer with the sender's id under the id that
    the poster was told: across the end of an epoch, and with no session to start from. *)
Theorem offer_reaches_its_reader relay me reader o ttl a b c d e m m1 posted s ticks since until
    (Hme : made me) (Hreader : made reader) (Hseed : length reader.(id_seed) = HALF)
    (Hfactor : ∀ epoch, factor (public reader).(pi_ed) epoch ≠ scalar_zero)
    (Hrows : ∀ items : list InboxItem, items ≠ [] → ∃ b, to_allocvec items = Some b ∧ b ≠ [])
    (Hnote : ∀ blob, encode_offer_blob o (public reader) me a.(ti_draw) b.(ti_draw) = Ok blob → decode_sync_note blob = None)
    (Hid : str_trim e.(ti_id) = e.(ti_id))
    (Hpost : play lim secret [a; b; c; d; e] (post_offer relay (public reader) me o ttl) m = (Ret (Ok posted), m1))
    (Hposted : 0 <= secs c <= secs e) (Hroom : secs e + INBOX_EPOCH_SECS <= I64_MAX)
    (Hsub : unread reader s) (Hours : is_ours s o = false) (Haim : aimed_elsewhere s o = false)
    (Hwhen : secs e <= since) (Htime : until <= secs c + granted ttl) (Hhour : until <= since + INBOX_SESSION_TTL)
    (Hticks : from (reading reader (secs c) since until posted.(po_id) (secs e + granted ttl)) 0 ticks)
    (Hlong : (22 <= length ticks)%nat) :
  ∃ offers s' m2, play lim secret ticks (poll_wait 0 s) m1 = (Ret (Ok offers, s'), m2) ∧
    mkReceivedOffer posted.(po_id) (to_bytes (public me)) o ∈ offers.
Proof.
  destruct (decide (granted ttl < 0)) as [Hneg|Hpos].
  { exfalso. destruct ticks as [|t ticks]; [cbn in Hlong; lia|]. destruct Hticks as (_ & (_ & Hw & _) & _). lia. }
  destruct (posted_row relay reader me o ttl a b c d e m posted m1 Hpost) as (blob & Hblob & -> & Hlive); [lia..|].
  cbn [po_id] in *. rewrite Hid in *. pose proof (granted_bounds ttl) as Hg. destruct Hsub as (Hpub & Hsec & Hses).
  destruct (meets_play lim secret (reading reader (secs c) since until (ti_id e) (secs e + granted ttl))
    (row_live reader (secs c) (ti_id e) blob (secs e + granted ttl)) (poll_wait 0 s) 0 22 m1 ticks
    (fun r _ => ∃ offers, r.1 = Ok offers ∧ mkReceivedOffer (ti_id e) (to_bytes (public me)) o ∈ offers))
    as ([r s'] & m2 & _ & Hplay & _ & offers & Hr & Hin); try done.
  - intros t mb. by apply others_leave.
  - apply (meets_poll lim secret reader s.(sb_origin) (secs c) since until); try done; try lia.
    + split_and!; [done|done|done|]. intros sl cs Hcs. by rewrite Hses, lookup_empty in Hcs.
    + by apply Hnote.
    + by apply (encoded_offer_opens me reader o (ti_draw a) (ti_draw b)).
  - apply ends_poll_wait.
  - cbn in Hr. subst r. by exists offers, s', m2.
Qed.
End delivery.
