(* ===== verification/Ledgers.v ===== *)
(** * The ledgers of the address book ([engine/src/book])

    What a user, or an offer that comes in, does to the files of [Book]: contacts,
    advertised names, the verified, trusted and blocked marks, what has been received
    from whom, and where a contact listens.  Every ledger is keyed by the public id in
    base32, except the contacts, which give an id a name.

    A write succeeds, and a ledger is the value its file decodes to; the counter of
    [record_seen] wraps as it does in a release build.  The cleaning of a display name
    that the user enters is not modelled. *)
From stdpp Require Import gmap strings.
From S2P Require Import Prelude.
From S2P Require Import Text.
From S2P Require Import SyncTypes.
From S2P Require Import SyncMerge.
From S2P Require Import SyncCodec.
From S2P Require Import SyncBridge.
From S2P Require Import Store.
From S2P Require Import UploadClient.
From S2P Require Import Rendezvous.
From S2P Require Import Code.
From S2P Require Import CodeFacts.
From S2P Require Import Inbox.
From S2P Require Import Tickets.
From S2P Require Import Identity.
Local Open Scope N_scope.

(** Updates of one file. *)
Definition with_contacts (x : gmap string string) (b : Book) : Book :=
  mkBook b.(bk_meta) b.(bk_device) b.(bk_paired) x b.(bk_verified) b.(bk_trusted)
    b.(bk_blocked) b.(bk_seen) b.(bk_names) b.(bk_relays) b.(bk_devices) b.(bk_me) b.(bk_config_name).
Definition with_verified (x : Marks) (b : Book) : Book :=
  mkBook b.(bk_meta) b.(bk_device) b.(bk_paired) b.(bk_contacts) x b.(bk_trusted)
    b.(bk_blocked) b.(bk_seen) b.(bk_names) b.(bk_relays) b.(bk_devices) b.(bk_me) b.(bk_config_name).
Definition with_trusted (x : Marks) (b : Book) : Book :=
  mkBook b.(bk_meta) b.(bk_device) b.(bk_paired) b.(bk_contacts) b.(bk_verified) x
    b.(bk_blocked) b.(bk_seen) b.(bk_names) b.(bk_relays) b.(bk_devices) b.(bk_me) b.(bk_config_name).
Definition with_blocked (x : Marks) (b : Book) : Book :=
  mkBook b.(bk_meta) b.(bk_device) b.(bk_paired) b.(bk_contacts) b.(bk_verified) b.(bk_trusted)
    x b.(bk_seen) b.(bk_names) b.(bk_relays) b.(bk_devices) b.(bk_me) b.(bk_config_name).
Definition with_seen (x : Seen) (b : Book) : Book :=
  mkBook b.(bk_meta) b.(bk_device) b.(bk_paired) b.(bk_contacts) b.(bk_verified) b.(bk_trusted)
    b.(bk_blocked) x b.(bk_names) b.(bk_relays) b.(bk_devices) b.(bk_me) b.(bk_config_name).
Definition with_names (x : gmap string NameRow) (b : Book) : Book :=
  mkBook b.(bk_meta) b.(bk_device) b.(bk_paired) b.(bk_contacts) b.(bk_verified) b.(bk_trusted)
    b.(bk_blocked) b.(bk_seen) x b.(bk_relays) b.(bk_devices) b.(bk_me) b.(bk_config_name).
Definition with_relays (x : gmap string string) (b : Book) : Book :=
  mkBook b.(bk_meta) b.(bk_device) b.(bk_paired) b.(bk_contacts) b.(bk_verified) b.(bk_trusted)
    b.(bk_blocked) b.(bk_seen) b.(bk_names) x b.(bk_devices) b.(bk_me) b.(bk_config_name).

(** ** Where a contact listens ([relays.rs]) *)

(** [canonical_relay], [split_id_and_relay], [shareable_id]. *)
Definition canonical_relay (raw : string) : string := trim_slashes (normalize_relay (str_trim raw)).
Definition split_id_and_relay (s : string) : string * option string :=
  match split_at_sign (str_trim s) with
  | Some (id, relay) => if decide (str_trim relay = ""%string) then (id, None) else (id, Some (canonical_relay relay))
  | None => (str_trim s, None)
  end.
Definition shareable_id (id : string) (relay : option string) : string :=
  match relay with Some r => (id +:+ "@" +:+ compact_relay r)%string | None => id end.

(** [relay_of], [set_relay], [clear_relay]. *)
Definition id_key (id : string) : string := to_lowercase (str_trim id).
Definition relay_of (id : string) (b : Book) : option string :=
  r ← b.(bk_relays) !! id_key id; if decide (r = ""%string) then None else Some r.
Definition set_relay (id relay : string) (b : Book) : result unit string * Book :=
  let relay := canonical_relay relay in
  if decide (relay = ""%string) then (Err "empty relay"%string, b)
  else (Ok tt, with_relays (<[id_key id := relay]> b.(bk_relays)) b).
Definition clear_relay (id : string) (b : Book) : bool * Book :=
  match b.(bk_relays) !! id_key id with
  | None => (false, b)
  | Some _ => (true, with_relays (delete (id_key id) b.(bk_relays)) b)
  end.

(** [resolve_name]: the first contact with the id. *)
Definition resolve_name (id : string) (b : Book) : option string :=
  fst <$> List.find (fun p => bool_decide (p.2 = id)) (btree_iter b.(bk_contacts)).
(** [learn_sender_relay]. *)
Definition learn_sender_relay (id relay : string) (b : Book) : option string * Book :=
  let relay := str_trim relay in
  if bool_decide (relay = ""%string) || negb (bool_decide (is_Some (resolve_name id b))) then (None, b)
  else
    let relay := canonical_relay relay in
    if decide (relay_of id b = Some relay) then (None, b)
    else match set_relay id relay b with (Ok _, b) => (Some relay, b) | (Err _, b) => (None, b) end.

Section ledgers.
Context `{!SessionCodec, !Ed25519, !Hpke, !Blake3Hash}.

(** ** Contacts ([contacts.rs]) *)

(** [decode_id], [fingerprint_of], [resolve_recipient_with_relay], [resolve_recipient]. *)
Definition decode_id (s : string) : result PublicId string :=
  match base32_decode_upper (str_trim s) with
  | None => Err "invalid public id (base32)"%string
  | Some b => public_from_bytes b
  end.
Definition fingerprint_of (id : string) : option string := fingerprint <$> result_ok (decode_id id).
Definition resolve_recipient_with_relay (arg : string) (b : Book) : result (PublicId * option string) string :=
  match b.(bk_contacts) !! str_trim arg with
  | Some id =>
      match decode_id id with Ok p => Ok (p, relay_of id b) | Err _ => Err "contact has an invalid id"%string end
  | None =>
      let '(id, relay) := split_id_and_relay arg in
      match decode_id id with
      | Ok p => Ok (p, match relay with Some r => Some r | None => relay_of id b end)
      | Err _ => Err "not a known contact name or a valid public id"%string
      end
  end.
Definition resolve_recipient (arg : string) (b : Book) : result PublicId string :=
  match resolve_recipient_with_relay arg b with Ok (p, _) => Ok p | Err e => Err e end.

(** [KeyChange] and [contact_add]: the key that is replaced loses its marks and its
    route. *)
Record KeyChange := mkKeyChange { old_fingerprint : string; new_fingerprint : string }.
Definition drop_old_key (old_id : string) (b : Book) : Book :=
  let b := with_verified (delete old_id b.(bk_verified)) b in
  let b := with_trusted (delete old_id b.(bk_trusted)) b in
  (clear_relay old_id b).2.
Definition replace_key (name new_id : string) (b : Book) : option KeyChange * Book :=
  match b.(bk_contacts) !! name with
  | Some old_id =>
      if decide (old_id = new_id) then (None, b)
      else (Some (mkKeyChange (default ""%string (fingerprint_of old_id)) (default ""%string (fingerprint_of new_id))),
            drop_old_key old_id b)
  | None => (None, b)
  end.
Definition contact_add (name id : string) (b : Book) : result (option KeyChange) string * Book :=
  let '(id, relay) := split_id_and_relay id in
  match decode_id id with
  | Err _ => (Err "invalid public id"%string, b)
  | Ok _ =>
      let new_id := id_key id in
      let '(key_change, b) := replace_key name new_id b in
      let b := with_contacts (<[name := new_id]> b.(bk_contacts)) b in
      let '(r, b) := match relay with Some relay => set_relay new_id relay b | None => (Ok tt, b) end in
      (match r with Ok _ => Ok key_change | Err e => Err e end, b)
  end.

(** [forget_name_row], [contact_remove], [contact_rename], [prune_orphan_names],
    [contact_list]. *)
Definition forget_name_row (id : string) (b : Book) : Book :=
  match b.(bk_names) !! id with
  | None => b
  | Some row =>
      with_names (if decide (row.(nr_first) = ""%string) then delete id b.(bk_names)
                  else <[id := mkNameRow "" None row.(nr_first)]> b.(bk_names)) b
  end.
Definition contact_remove (name : string) (b : Book) : bool * Book :=
  match b.(bk_contacts) !! name with
  | None => (false, b)
  | Some id =>
      let b := with_contacts (delete name b.(bk_contacts)) b in
      if existsb (fun p => bool_decide (p.2 = id)) (btree_iter b.(bk_contacts)) then (true, b)
      else (true, (clear_relay id (forget_name_row id b)).2)
  end.
Definition contact_rename (old new : string) (b : Book) : result unit string * Book :=
  match b.(bk_contacts) !! new with
  | Some _ => (Err "already a contact"%string, b)
  | None =>
      match b.(bk_contacts) !! old with
      | None => (Err "no such contact"%string, b)
      | Some id => (Ok tt, with_contacts (<[new := id]> (delete old b.(bk_contacts))) b)
      end
  end.
Definition prune_orphan_names (b : Book) : N * Book :=
  let known : gset string := list_to_set (btree_iter b.(bk_contacts)).*2 in
  let kept := filter (fun p => p.1 ∈ known ∨ p.2.(nr_first) ≠ ""%string) b.(bk_names) in
  (N.of_nat (size b.(bk_names)) - N.of_nat (size kept), with_names kept b).
Definition contact_list (b : Book) : list (string * string) := btree_iter b.(bk_contacts).

(** ** Names a sender advertises ([names.rs]) *)

Inductive NameStatus := NameNone | NameNew (name : string) | NameUnchanged (name : string) | NameChanged (old new : string).

(** [observe_advertised_name]. *)
Definition observe_advertised_name (id advertised : string) (b : Book) : NameStatus * Book :=
  let advertised := str_trim advertised in
  if decide (advertised = ""%string) then (NameNone, b)
  else
    let row := default NameRow_default (b.(bk_names) !! id) in
    let first_claim := bool_decide (row.(nr_first) = ""%string) in
    let first := if first_claim then advertised else row.(nr_first) in
    let saved moved pending :=
      if moved || first_claim then with_names (<[id := mkNameRow row.(nr_pinned) pending first]> b.(bk_names)) b else b in
    if decide (row.(nr_pinned) = ""%string) then
      (NameNew advertised, saved (negb (bool_decide (row.(nr_pending) = Some advertised))) (Some advertised))
    else if decide (row.(nr_pinned) = advertised) then
      (NameUnchanged advertised, saved (bool_decide (is_Some row.(nr_pending))) None)
    else
      (NameChanged row.(nr_pinned) advertised, saved (negb (bool_decide (row.(nr_pending) = Some advertised))) (Some advertised)).

(** [known_name_of], [display_name_of], [pending_name_of], [resolve_recipient_id]. *)
Definition unless_empty (s : string) : option string := if decide (s = ""%string) then None else Some s.
Definition known_name_of (id : string) (b : Book) : option string :=
  row ← b.(bk_names) !! id; unless_empty (if decide (row.(nr_pinned) = ""%string) then row.(nr_first) else row.(nr_pinned)).
Definition display_name_of (id : string) (b : Book) : option string := row ← b.(bk_names) !! id; unless_empty row.(nr_pinned).
Definition pending_name_of (id : string) (b : Book) : option string := b.(bk_names) !! id ≫= nr_pending.
Definition resolve_recipient_id (who : string) (b : Book) : result string string :=
  match b.(bk_contacts) !! str_trim who with
  | Some id => Ok id
  | None =>
      let '(id, _) := split_id_and_relay who in
      match decode_id id with
      | Ok _ => Ok (id_key id)
      | Err _ => Err "not a known contact name or a valid public id"%string
      end
  end.
(** [accept_name]. *)
Definition accept_name (who : string) (b : Book) : result string string * Book :=
  match resolve_recipient_id who b with
  | Err e => (Err e, b)
  | Ok id =>
      match b.(bk_names) !! id with
      | Some (mkNameRow _ (Some approved) first) =>
          (Ok approved, with_names (<[id := mkNameRow approved None first]> b.(bk_names)) b)
      | _ => (Err "no pending name to approve"%string, b)
      end
  end.

(** ** Marks ([verified.rs], [trusted.rs], [blocked.rs], [marks.rs]) *)

Definition is_verified (id : string) (b : Book) : bool := bool_decide (is_Some (b.(bk_verified) !! id)).
Definition verified_since (id : string) (b : Book) : option N :=
  s ← b.(bk_verified) !! id; if decide (s = 0) then None else Some s.
Definition is_trusted (id : string) (b : Book) : bool := bool_decide (is_Some (b.(bk_trusted) !! id)).
Definition is_blocked (id : string) (b : Book) : bool := bool_decide (is_Some (b.(bk_blocked) !! id)).
Definition marked_ago (since now : N) : option N := if decide (since = 0) then None else Some (now - since).

(** [mark_verified], [mark_trusted], [mark_blocked] at a moment, and their opposites. *)
Definition mark (who : string) (now : N) (file : Book → Marks) (write : Marks → Book → Book) (b : Book)
    : result string string * Book :=
  match resolve_recipient_id who b with
  | Err e => (Err e, b)
  | Ok id => (Ok id, write (<[id := now]> (file b)) b)
  end.
Definition unmark (who : string) (file : Book → Marks) (write : Marks → Book → Book) (b : Book)
    : result bool string * Book :=
  match resolve_recipient_id who b with
  | Err e => (Err e, b)
  | Ok id => match file b !! id with None => (Ok false, b) | Some _ => (Ok true, write (delete id (file b)) b) end
  end.
Definition mark_verified who now := mark who now bk_verified with_verified.
Definition unmark_verified who := unmark who bk_verified with_verified.
Definition mark_trusted who now := mark who now bk_trusted with_trusted.
Definition unmark_trusted who := unmark who bk_trusted with_trusted.
Definition mark_blocked who now := mark who now bk_blocked with_blocked.
Definition unmark_blocked who := unmark who bk_blocked with_blocked.
Definition blocked_list (b : Book) : list (string * N) := btree_iter b.(bk_blocked).

(** ** Whom we have dealt with ([seen.rs]) *)

Record SenderStatus := mkSenderStatus { ss_name : option string; ss_seen_before : bool; ss_verified : bool; ss_trusted : bool }.
Definition sender_status (id : string) (b : Book) : SenderStatus :=
  mkSenderStatus (resolve_name id b) (bool_decide (is_Some (b.(bk_seen).(SyncBridge.seen_count) !! id))) (is_verified id b) (is_trusted id b).
Definition seen_count (id : string) (b : Book) : N := default 0 (b.(bk_seen).(SyncBridge.seen_count) !! id).
Definition last_exchange (id : string) (b : Book) : N := default 0 (b.(bk_seen).(seen_last) !! id).
Definition record_seen (id : string) (b : Book) : Book :=
  with_seen (mkSeen (<[id := (seen_count id b + 1) mod 2 ^ 64]> b.(bk_seen).(SyncBridge.seen_count)) b.(bk_seen).(seen_last)) b.
Definition record_exchange (id : string) (when : N) (b : Book) : Book :=
  if when <=? last_exchange id b then b
  else with_seen (mkSeen b.(bk_seen).(SyncBridge.seen_count) (<[id := when]> b.(bk_seen).(seen_last))) b.

(** [my_display_name] ([me.rs]). *)
Definition my_display_name (b : Book) : string :=
  let name := str_trim (load_me b) in
  if decide (name = ""%string) then match b.(bk_me) with Some _ => ""%string | None => legacy_display_name b end else name.

(** ** Runs *)

Inductive LedgerOp :=
  | AddContact (name id : string)
  | RemoveContact (name : string)
  | RenameContact (old new : string)
  | PruneNames
  | ObserveName (id advertised : string)
  | AcceptName (who : string)
  | MarkVerified (who : string) (now : N)
  | UnmarkVerified (who : string)
  | MarkTrusted (who : string) (now : N)
  | UnmarkTrusted (who : string)
  | MarkBlocked (who : string) (now : N)
  | UnmarkBlocked (who : string)
  | RecordSeen (id : string)
  | RecordExchange (id : string) (when : N)
  | SetRelay (id relay : string)
  | ClearRelay (id : string)
  | LearnRelay (id relay : string).
#[export] Instance ledger_op_eq_dec : EqDecision LedgerOp.
Proof. solve_decision. Defined.
Definition ledger_step (op : LedgerOp) (b : Book) : Book :=
  match op with
  | AddContact name id => (contact_add name id b).2
  | RemoveContact name => (contact_remove name b).2
  | RenameContact old new => (contact_rename old new b).2
  | PruneNames => (prune_orphan_names b).2
  | ObserveName id advertised => (observe_advertised_name id advertised b).2
  | AcceptName who => (accept_name who b).2
  | MarkVerified who now => (mark_verified who now b).2
  | UnmarkVerified who => (unmark_verified who b).2
  | MarkTrusted who now => (mark_trusted who now b).2
  | UnmarkTrusted who => (unmark_trusted who b).2
  | MarkBlocked who now => (mark_blocked who now b).2
  | UnmarkBlocked who => (unmark_blocked who b).2
  | RecordSeen id => record_seen id b
  | RecordExchange id when => record_exchange id when b
  | SetRelay id relay => (set_relay id relay b).2
  | ClearRelay id => (clear_relay id b).2
  | LearnRelay id relay => (learn_sender_relay id relay b).2
  end.
Definition ledger_run (ops : list LedgerOp) (b : Book) : Book := foldl (fun b op => ledger_step op b) b ops.
End ledgers.

(** ** What an operation leaves alone *)

Section facts.
Context `{!SessionCodec, !Ed25519, !Hpke, !Blake3Hash}.

(** The row of a key, or an empty one, in the names register. *)
Definition row_of (id : string) (n : gmap string NameRow) : NameRow := default NameRow_default (n !! id).
Definition first_claim (id : string) (b : Book) : string := nr_first (row_of id b.(bk_names)).
Lemma row_of_insert id row j n : row_of j (<[id := row]> n) = if decide (id = j) then row else row_of j n.
Proof. unfold row_of. rewrite lookup_insert. by case_decide. Qed.
Lemma display_name_row id b : display_name_of id b = unless_empty (nr_pinned (row_of id b.(bk_names))).
Proof. unfold display_name_of, row_of. by destruct (bk_names b !! id). Qed.
(** A register in which every first claim is what it was, and a pinned name is what it
    was or gone. *)
Definition claims_kept (n n' : gmap string NameRow) : Prop :=
  ∀ id, nr_first (row_of id n') = nr_first (row_of id n) ∧
    (nr_pinned (row_of id n') = nr_pinned (row_of id n) ∨ nr_pinned (row_of id n') = ""%string).
Lemma claims_kept_refl n : claims_kept n n.
Proof. intros id. auto. Qed.
#[local] Hint Resolve claims_kept_refl : core.

Lemma set_relay_frame id relay b : ∃ r, (set_relay id relay b).2 = with_relays r b.
Proof. unfold set_relay. case_decide; cbn; [exists b.(bk_relays); by destruct b|by eexists]. Qed.
Lemma clear_relay_frame id b : ∃ r, (clear_relay id b).2 = with_relays r b.
Proof. unfold clear_relay. case_match; cbn; [by eexists|exists b.(bk_relays); by destruct b]. Qed.
Lemma learn_relay_frame id relay b : ∃ r, (learn_sender_relay id relay b).2 = with_relays r b.
Proof.
  assert (∃ r, b = with_relays r b) as Hb by (exists b.(bk_relays); by destruct b).
  unfold learn_sender_relay. case_match; [done|]. destruct (decide (relay_of _ _ = _)); [done|].
  destruct (set_relay_frame id (canonical_relay (str_trim relay)) b) as [r Hr].
  destruct (set_relay _ _ b) as [[]?]; exists r; exact Hr.
Qed.

(** Adding a contact touches the marks and the route of a key that it replaces, and no
    others. *)
Lemma replace_key_frame name i b :
  ∃ v t r, (replace_key name i b).2 = with_verified v (with_trusted t (with_relays r b)) ∧
    ((v = b.(bk_verified) ∧ t = b.(bk_trusted)) ∨
     ∃ old, b.(bk_contacts) !! name = Some old ∧ v = delete old b.(bk_verified) ∧ t = delete old b.(bk_trusted)).
Proof.
  assert (b = with_verified b.(bk_verified) (with_trusted b.(bk_trusted) (with_relays b.(bk_relays) b))) as Hb by by destruct b.
  unfold replace_key. destruct (bk_contacts b !! name) as [old|] eqn:En; [|do 3 eexists; split; [exact Hb|by left]].
  destruct (decide _); [do 3 eexists; split; [exact Hb|by left]|]. unfold drop_old_key. cbn [snd with_verified bk_trusted].
  destruct (clear_relay_frame old (with_trusted (delete old b.(bk_trusted)) (with_verified (delete old b.(bk_verified)) b))) as [r Hr].
  unfold with_verified in Hr at 1. unfold with_verified at 1. rewrite Hr.
  do 3 eexists. split; [reflexivity|]. right. by exists old.
Qed.
Lemma contact_add_frame name id b :
  ∃ c v t r, (contact_add name id b).2 = with_contacts c (with_verified v (with_trusted t (with_relays r b))) ∧
    ((v = b.(bk_verified) ∧ t = b.(bk_trusted)) ∨
     ∃ old, b.(bk_contacts) !! name = Some old ∧ v = delete old b.(bk_verified) ∧ t = delete old b.(bk_trusted)).
Proof.
  unfold contact_add. destruct (split_id_and_relay id) as [i relay]. destruct (decode_id i) as [pk|e]; cbn [snd].
  2:{ exists b.(bk_contacts), b.(bk_verified), b.(bk_trusted), b.(bk_relays). split; [by destruct b|by left]. }
  destruct (replace_key_frame name (id_key i) b) as (v & t & r & Hx & Hcases).
  destruct (replace_key name (id_key i) b) as [change b1]. cbn [snd] in Hx. subst b1.
  set (c := <[name := id_key i]> _). exists c, v, t.
  destruct relay as [relay|]; [|by exists r].
  destruct (set_relay_frame (id_key i) relay (with_contacts c (with_verified v (with_trusted t (with_relays r b))))) as [r' Hr'].
  destruct (set_relay _ _ _) as [res b2]. cbn [snd] in Hr' |- *. subst b2. by exists r'.
Qed.
Lemma forget_name_row_frame id b : ∃ n, forget_name_row id b = with_names n b ∧ claims_kept b.(bk_names) n.
Proof.
  unfold forget_name_row. destruct (bk_names b !! id) as [row|] eqn:Er; [|exists b.(bk_names); by destruct b].
  eexists. split; [reflexivity|]. intros j. assert (row_of id b.(bk_names) = row) as Hrow by by unfold row_of; rewrite Er.
  destruct (decide (id = j)) as [<-|Hne].
  - rewrite Hrow. case_decide as Hf; [unfold row_of; rewrite lookup_delete_eq|rewrite row_of_insert, decide_True by done]; cbn; auto.
  - case_decide; [unfold row_of; rewrite lookup_delete_ne by done|rewrite row_of_insert, decide_False by done]; auto.
Qed.
Lemma contact_remove_frame name b :
  ∃ c n r, (contact_remove name b).2 = with_contacts c (with_names n (with_relays r b)) ∧ claims_kept b.(bk_names) n.
Proof.
  unfold contact_remove. destruct (bk_contacts b !! name) as [i|].
  2:{ exists b.(bk_contacts), b.(bk_names), b.(bk_relays). split; [by destruct b|auto]. }
  case_match; cbn [snd]; [eexists _, b.(bk_names), b.(bk_relays); split; [by destruct b|auto]|].
  destruct (forget_name_row_frame i (with_contacts (delete name b.(bk_contacts)) b)) as (n & -> & Hn).
  destruct (clear_relay_frame i (with_names n (with_contacts (delete name b.(bk_contacts)) b))) as [r ->]. by eexists _, n, r.
Qed.
Lemma prune_frame b : ∃ n, (prune_orphan_names b).2 = with_names n b ∧ claims_kept b.(bk_names) n.
Proof.
  eexists. split; [reflexivity|]. intros id. unfold row_of. rewrite map_lookup_filter.
  destruct (bk_names b !! id) as [row|]; [|auto]. cbn. case_guard as Hk; cbn; [auto|].
  split; [|auto]. destruct (decide (nr_first row = ""%string)) as [->|Hne]; [done|]. destruct Hk. by right.
Qed.
Lemma contact_rename_frame old new b : ∃ c, (contact_rename old new b).2 = with_contacts c b.
Proof. unfold contact_rename. repeat case_match; cbn; first [by eexists|exists b.(bk_contacts); by destruct b]. Qed.
Lemma observe_frame id adv b :
  ∃ n, (observe_advertised_name id adv b).2 = with_names n b ∧
    ∀ j, nr_pinned (row_of j n) = nr_pinned (row_of j b.(bk_names)) ∧
      nr_first (row_of j n) = if decide (id = j ∧ nr_first (row_of j b.(bk_names)) = ""%string) then str_trim adv
                              else nr_first (row_of j b.(bk_names)).
Proof.
  unfold observe_advertised_name. fold (row_of id b.(bk_names)). cbn zeta.
  set (row := row_of id b.(bk_names)).
  assert (b = with_names b.(bk_names) b) as Hb by by destruct b.
  case_decide as Hadv.
  { exists b.(bk_names). split; [done|]. intros j. split; [done|]. case_decide as Hj; [|done]. by rewrite Hadv, (proj2 Hj). }
  set (saved := fun pending => <[id := mkNameRow row.(nr_pinned) pending
    (if bool_decide (nr_first row = ""%string) then str_trim adv else nr_first row)]> b.(bk_names)).
  assert (∀ (moved : bool) pending, ∃ n,
    (if moved || bool_decide (nr_first row = ""%string) then with_names (saved pending) b else b) = with_names n b ∧
    ∀ j, nr_pinned (row_of j n) = nr_pinned (row_of j b.(bk_names)) ∧
      nr_first (row_of j n) = if decide (id = j ∧ nr_first (row_of j b.(bk_names)) = ""%string) then str_trim adv
                              else nr_first (row_of j b.(bk_names))) as Hsaved.
  { intros moved pending. destruct (moved || _) eqn:Em.
    - eexists. split; [reflexivity|]. intros j. unfold saved. rewrite row_of_insert.
      destruct (decide (id = j)) as [<-|Hne]; [|rewrite decide_False by tauto; done]. cbn. fold row. split; [done|].
      case_bool_decide; [by rewrite decide_True|by rewrite decide_False by tauto].
    - exists b.(bk_names). split; [done|]. intros j. split; [done|]. apply orb_false_iff in Em as [_ Em].
      case_bool_decide as Hf; [done|]. rewrite decide_False; [done|]. intros [<- ?]. by apply Hf. }
  destruct (decide (nr_pinned row = ""%string)); [apply Hsaved|]. destruct (decide (nr_pinned row = str_trim adv)); apply Hsaved.
Qed.
Lemma accept_frame who b :
  (accept_name who b).2 = b ∨
  ∃ id approved, resolve_recipient_id who b = Ok id ∧ pending_name_of id b = Some approved ∧
    (accept_name who b).2 = with_names (<[id := mkNameRow approved None (first_claim id b)]> b.(bk_names)) b.
Proof.
  unfold accept_name, pending_name_of, first_claim, row_of. destruct (resolve_recipient_id who b) as [id|e]; [|by left].
  destruct (bk_names b !! id) as [[pinned [approved|] first]|] eqn:Er; [right|by left..].
  exists id, approved. rewrite Er. by split_and!.
Qed.
Lemma mark_frame who now file write b :
  (mark who now file write b).2 = b ∨
  ∃ id, resolve_recipient_id who b = Ok id ∧ (mark who now file write b).2 = write (<[id := now]> (file b)) b.
Proof. unfold mark. destruct (resolve_recipient_id who b) as [id|e]; [right; by exists id|by left]. Qed.
Lemma unmark_frame who file write b :
  (unmark who file write b).2 = b ∨
  ∃ id, resolve_recipient_id who b = Ok id ∧ (unmark who file write b).2 = write (delete id (file b)) b.
Proof.
  unfold unmark. destruct (resolve_recipient_id who b) as [id|e]; [|by left]. case_match; [right; by exists id|by left].
Qed.

(** The frame of whichever operation the goal runs, as [Hframe] where it says more. *)
Ltac kept := split_and?; intros; left; eauto.
Ltac op_frame :=
  match goal with
  | |- context [contact_add ?n ?i ?b] => destruct (contact_add_frame n i b) as (? & ? & ? & ? & -> & Hframe)
  | |- context [contact_remove ?n ?b] => destruct (contact_remove_frame n b) as (? & ? & ? & -> & Hframe)
  | |- context [contact_rename ?o ?n ?b] => destruct (contact_rename_frame o n b) as [? ->]
  | |- context [prune_orphan_names ?b] => destruct (prune_frame b) as (? & -> & Hframe)
  | |- context [observe_advertised_name ?i ?a ?b] => destruct (observe_frame i a b) as (? & -> & Hframe)
  | |- context [accept_name ?w ?b] => destruct (accept_frame w b) as [->|(? & ? & Hwho & Hframe & ->)]
  | |- context [mark ?w ?n ?f ?s ?b] => destruct (mark_frame w n f s b) as [->|(? & Hwho & ->)]
  | |- context [unmark ?w ?f ?s ?b] => destruct (unmark_frame w f s b) as [->|(? & Hwho & ->)]
  | |- context [set_relay ?i ?r ?b] => destruct (set_relay_frame i r b) as [? ->]
  | |- context [clear_relay ?i ?b] => destruct (clear_relay_frame i b) as [? ->]
  | |- context [learn_sender_relay ?i ?r ?b] => destruct (learn_relay_frame i r b) as [? ->]
  | |- context [record_exchange ?i ?w ?b] => unfold record_exchange; destruct (w <=? last_exchange i b) eqn:Hframe
  | _ => idtac
  end.
Ltac op_cases op :=
  destruct op; cbn [ledger_step];
  unfold mark_verified, unmark_verified, mark_trusted, unmark_trusted, mark_blocked, unmark_blocked; op_frame.

(** What one operation can do to the marks. *)
Definition resolves (who id : string) (b : Book) : Prop := resolve_recipient_id who b = Ok id.
Lemma step_marks op b id :
  let b' := ledger_step op b in
  (is_Some (b'.(bk_verified) !! id) → is_Some (b.(bk_verified) !! id) ∨ ∃ who now, op = MarkVerified who now ∧ resolves who id b) ∧
  (is_Some (b'.(bk_trusted) !! id) → is_Some (b.(bk_trusted) !! id) ∨ ∃ who now, op = MarkTrusted who now ∧ resolves who id b) ∧
  (is_Some (b.(bk_blocked) !! id) → is_Some (b'.(bk_blocked) !! id) ∨ ∃ who, op = UnmarkBlocked who ∧ resolves who id b).
Proof.
  assert (∀ (m : Marks) k x, is_Some (<[k := x]> m !! id) → is_Some (m !! id) ∨ k = id) as Hins.
  { intros m k x. destruct (decide (k = id)) as [->|]; [by right|]. rewrite lookup_insert_ne by done. by left. }
  assert (∀ (m : Marks) k, is_Some (delete k m !! id) → is_Some (m !! id)) as Hdel.
  { intros m k [x [_ Hx]%lookup_delete_Some]. by eexists. }
  assert (∀ (m : Marks) k x, is_Some (m !! id) → is_Some (<[k := x]> m !! id)) as Hins'.
  { intros m k x Hm. rewrite lookup_insert_is_Some. destruct (decide (k = id)); [by left|by right]. }
  assert (∀ (m : Marks) k, is_Some (m !! id) → is_Some (delete k m !! id) ∨ k = id) as Hdel'.
  { intros m k Hm. destruct (decide (k = id)) as [->|]; [by right|]. rewrite lookup_delete_ne by done. by left. }
  cbn zeta. op_cases op; cbn; try by kept.
  - destruct Hframe as [[-> ->]|(old & _ & -> & ->)]; kept.
  - split; [|kept]. intros [?| ->]%Hins; [by left|right; by eauto].
  - split; [kept|]. split; [|kept]. intros [?| ->]%Hins; [by left|right; by eauto].
  - split; [kept|]. split; [kept|]. intros [?| <-]%(Hdel' _ x); [by left|right; by eauto].
Qed.

(** ** Runs *)

Lemma ledger_run_snoc ops op b : ledger_run (ops ++ [op]) b = ledger_step op (ledger_run ops b).
Proof. unfold ledger_run. by rewrite foldl_app. Qed.
(** A property that only some operation brings about is there from the start, or that
    operation is in the run. *)
Lemma run_cause (P : Book → Prop) (C : LedgerOp → Book → Prop) ops b :
  (∀ op b, P (ledger_step op b) → P b ∨ C op b) → P (ledger_run ops b) →
  P b ∨ ∃ pre op post, ops = pre ++ op :: post ∧ C op (ledger_run pre b).
Proof.
  intros Hstep. induction ops as [|op ops IH] using rev_ind; [by left|].
  rewrite ledger_run_snoc. intros [Hp|Hc]%Hstep.
  - destruct (IH Hp) as [?|(pre & op' & post & -> & Hc)]; [by left|right].
    exists pre, op', (post ++ [op]). by rewrite <- app_assoc.
  - right. by exists ops, op, [].
Qed.
Lemma step_pinned op b id name :
  display_name_of id (ledger_step op b) = Some name →
  display_name_of id b = Some name ∨
  ∃ who, op = AcceptName who ∧ resolves who id b ∧ pending_name_of id b = Some name.
Proof.
  assert (∀ n, claims_kept b.(bk_names) n → unless_empty (nr_pinned (row_of id n)) = Some name →
    unless_empty (nr_pinned (row_of id b.(bk_names))) = Some name) as Hkept.
  { intros n Hn. by destruct (Hn id) as [_ [-> | ->]]. }
  rewrite !display_name_row. unfold resolves. op_cases op; cbn; try by left.
  - left. by eapply Hkept.
  - left. by eapply Hkept.
  - destruct (Hframe id) as [-> _]. by left.
  - rewrite row_of_insert. case_decide as Hid; [subst|by left]. cbn. unfold unless_empty at 1.
    case_decide; [done|]. intros [= ->]. right. by exists who.
Qed.

(** What one operation adds to what is known of a key. *)
Lemma step_first_claim id op b :
  first_claim id (ledger_step op b) =
  match op with
  | ObserveName i advertised => if decide (i = id ∧ first_claim id b = ""%string) then str_trim advertised else first_claim id b
  | _ => first_claim id b
  end.
Proof.
  unfold first_claim. op_cases op; cbn; try done; try apply Hframe.
  rewrite row_of_insert. by case_decide; subst.
Qed.
Lemma step_seen id op b :
  seen_count id (ledger_step op b) =
  match op with RecordSeen i => if decide (i = id) then (seen_count id b + 1) mod 2 ^ 64 else seen_count id b | _ => seen_count id b end.
Proof.
  op_cases op; try done. unfold record_seen, seen_count at 1. cbn [with_seen bk_seen SyncBridge.seen_count].
  rewrite lookup_insert. by case_decide; subst.
Qed.
Lemma step_exchange id op b :
  last_exchange id (ledger_step op b) =
  match op with RecordExchange i when => if decide (i = id) then N.max (last_exchange id b) when else last_exchange id b | _ => last_exchange id b end.
Proof.
  op_cases op; try done.
  - case_decide; subst; [|done]. apply N.leb_le in Hframe. lia.
  - apply N.leb_gt in Hframe. unfold last_exchange at 1. cbn [with_seen bk_seen seen_last]. rewrite lookup_insert.
    case_decide; subst; [cbn; lia|done].
Qed.

(** C18. A mark is the user's doing.  Whatever adding, removing and renaming contacts, offers
    that advertise names, and receiving do, a key is verified or trusted after them only
    if it was before, or one of the operations was to mark it and what the user wrote
    stood, at that moment, for this key; a block goes away only by being lifted in the
    same way; and a sender goes by a name only if it did before, or the user approved that
    very name while the key was asking for it. *)
Theorem marks_are_the_users ops b id :
  let after := ledger_run ops b in
  let by_user (cause : string → LedgerOp → Prop) :=
    ∃ pre op post who, ops = pre ++ op :: post ∧ cause who op ∧ resolve_recipient_id who (ledger_run pre b) = Ok id in
  (is_verified id after → is_verified id b ∨ by_user (fun who op => ∃ now, op = MarkVerified who now)) ∧
  (is_trusted id after → is_trusted id b ∨ by_user (fun who op => ∃ now, op = MarkTrusted who now)) ∧
  (is_blocked id b → is_blocked id after ∨ by_user (fun who op => op = UnmarkBlocked who)) ∧
  (∀ name, display_name_of id after = Some name → display_name_of id b = Some name ∨
    ∃ pre who post, ops = pre ++ AcceptName who :: post ∧
      resolve_recipient_id who (ledger_run pre b) = Ok id ∧ pending_name_of id (ledger_run pre b) = Some name).
Proof.
  cbn zeta. unfold is_verified, is_trusted, is_blocked. rewrite !bool_decide_spec. split_and!.
  - intros Hv. destruct (run_cause (fun b => is_Some (bk_verified b !! id))
      (fun op b => ∃ who now, op = MarkVerified who now ∧ resolves who id b) ops b) as [?|(pre & op & post & -> & who & now & -> & Hw)];
      [intros op b'; apply step_marks|done|by left|right; by exists pre, (MarkVerified who now), post, who; eauto].
  - intros Hv. destruct (run_cause (fun b => is_Some (bk_trusted b !! id))
      (fun op b => ∃ who now, op = MarkTrusted who now ∧ resolves who id b) ops b) as [?|(pre & op & post & -> & who & now & -> & Hw)];
      [intros op b'; apply step_marks|done|by left|right; by exists pre, (MarkTrusted who now), post, who; eauto].
  - intros Hb. destruct (decide (is_Some (bk_blocked (ledger_run ops b) !! id))) as [?|Hn]; [by left|right].
    destruct (run_cause (fun b => ¬ is_Some (bk_blocked b !! id))
      (fun op b => ∃ who, op = UnmarkBlocked who ∧ resolves who id b) ops b) as [?|(pre & op & post & -> & who & -> & Hw)];
      [|done|done|by exists pre, (UnmarkBlocked who), post, who].
    intros op b' Hn'. destruct (decide (is_Some (bk_blocked b' !! id))) as [Hs|]; [right|by left].
    by destruct (proj2 (proj2 (step_marks op b' id)) Hs).
  - intros name Hd. destruct (run_cause (fun b => display_name_of id b = Some name)
      (fun op b => ∃ who, op = AcceptName who ∧ resolves who id b ∧ pending_name_of id b = Some name) ops b)
      as [?|(pre & op & post & -> & who & -> & Hw & Hp)];
      [intros op b'; apply step_pinned|done|by left|right; by exists pre, who, post].
Qed.

(** What the operations of a run say of a key. *)
Definition names_advertised (id : string) (ops : list LedgerOp) : list string :=
  omap (fun op => match op with ObserveName i adv => if decide (i = id) then Some (str_trim adv) else None | _ => None end) ops.
Definition times_received (id : string) (ops : list LedgerOp) : N :=
  N.of_nat (length (filter (fun op => op = RecordSeen id) ops)).
Definition exchanges (id : string) (ops : list LedgerOp) : list N :=
  omap (fun op => match op with RecordExchange i when => if decide (i = id) then Some when else None | _ => None end) ops.
Definition first_nonempty (l : list string) : string := default ""%string (head (filter (fun s => s ≠ ""%string) l)).

(** C20. What is known of a key outlives everything the user does with its contact.  Through
    any run of the ledgers: the first name that the key ever claimed is the first that is
    not blank of the recorded claim and the names advertised since, so that no later name
    and no removal replaces it; the deposits received from it are counted, in 64 bits, and
    nothing else moves the count; and its last exchange is the latest of all. *)
Theorem a_key_is_remembered ops b id :
  seen_count id b < 2 ^ 64 →
  let after := ledger_run ops b in
  first_claim id after = first_nonempty (first_claim id b :: names_advertised id ops) ∧
  seen_count id after = (seen_count id b + times_received id ops) mod 2 ^ 64 ∧
  last_exchange id after = foldr N.max (last_exchange id b) (exchanges id ops).
Proof.
  cbn zeta. revert b. induction ops as [|op ops IH]; intros b Hb.
  { change (ledger_run [] b) with b. split_and!; [|cbn; rewrite N.add_0_r; by rewrite N.mod_small|done].
    unfold first_nonempty. cbn [names_advertised omap list_omap]. rewrite filter_cons, filter_nil. by destruct (decide (first_claim id b ≠ ""%string)) as [?|?%dec_stable]. }
  change (ledger_run (op :: ops) b) with (ledger_run ops (ledger_step op b)).
  destruct (IH (ledger_step op b)) as (-> & -> & ->).
  { rewrite step_seen. destruct op; try done. case_decide; [|done]. by apply N.mod_upper_bound. }
  rewrite step_first_claim, step_seen, step_exchange.
  assert (∀ c x l, first_nonempty ((if decide (c = ""%string) then x else c) :: l) = first_nonempty (c :: x :: l)) as Hfirst.
  { intros c x l. unfold first_nonempty. rewrite !filter_cons. by repeat case_decide. }
  assert (∀ x y l, foldr N.max (N.max x y) l = N.max y (foldr N.max x l)) as Hmax.
  { intros x y l. induction l as [|z l IHl]; cbn; [lia|]. rewrite IHl. lia. }
  unfold names_advertised, times_received, exchanges. rewrite filter_cons. cbn [omap list_omap].
  destruct (decide (op = RecordSeen id)) as [->|Hop].
  { rewrite decide_True by done. split_and!; [done| |done]. cbn [length]. rewrite N.Div0.add_mod_idemp_l. f_equal. lia. }
  destruct op; try done.
  - split_and!; [|done..]. destruct (decide (id0 = id)) as [->|Hne]; [|by rewrite decide_False by tauto].
    rewrite <- Hfirst. do 2 f_equal. by destruct (decide (first_claim id b = ""%string)); rewrite ?decide_True, ?decide_False by tauto.
  - rewrite decide_False by congruence. done.
  - split_and!; [done..|]. destruct (decide (id0 = id)) as [->|Hne]; [|done]. apply Hmax.
Qed.

(** A route as it is kept: in the form [canonical_relay] gives, which a code can carry. *)
Definition kept_route (r : string) : Prop := relay_address r ∧ trim_slashes r = r.
Lemma kept_route_canonical r : kept_route r → canonical_relay r = r ∧ canonical_relay (compact_relay r) = r.
Proof.
  intros [Hr Ht]. destruct (compact_normal r Hr) as [(Hne & Hc & Hs) Hn]. rewrite Hc in Hn. unfold canonical_relay. split.
  - assert (Forall (fun b => trim_safe b = true) (bytes_of r) ∧ is_Some (find_sub (bytes_of "://") (bytes_of r))) as [Hsafe [x Hx]].
    { destruct Hr as [(host & -> & (_ & _ & Hh) & _)|(_ & (_ & _ & Hs') & Hx)]; [|done]. rewrite bytes_of_app, Forall_app.
      split; [split; [by repeat constructor|done]|]. by eexists. }
    rewrite str_trim_safe by by apply Forall_forall. unfold normalize_relay.
    rewrite str_trim_safe by by apply Forall_forall. by rewrite Hx.
  - rewrite str_trim_safe by by apply Forall_forall. by rewrite Hn.
Qed.

(** A public id as it is stored: lower-case base32. *)
Definition id_text (i : string) : Prop :=
  to_lowercase i = i ∧ Forall (fun b => trim_safe b = true ∧ b ≠ at_sign) (bytes_of i).
Lemma id_text_key i : id_text i → str_trim i = i ∧ id_key i = i.
Proof.
  intros [Hl Hs]. assert (str_trim i = i) as Ht.
  { apply str_trim_safe. intros x Hx. rewrite Forall_forall in Hs. by apply Hs. }
  split; [done|]. unfold id_key. by rewrite Ht.
Qed.
Lemma shareable_splits i r : id_text i → kept_route r → split_id_and_relay (shareable_id i (Some r)) = (i, Some r).
Proof.
  intros [_ Hi] Hr. destruct (kept_route_canonical r Hr) as [_ Hc]. destruct Hr as [Hr _].
  destruct (compact_normal r Hr) as [(Hne & Ht & Hs) _]. unfold split_id_and_relay, shareable_id.
  rewrite Forall_forall in Hi. rewrite str_trim_safe.
  2:{ intros x. rewrite !bytes_of_app, !elem_of_app. intros [Hx|[Hx|Hx]]; [by apply Hi|by apply list_elem_of_singleton in Hx as ->|].
      rewrite Forall_forall in Hs. by apply Hs. }
  unfold split_at_sign. rewrite !bytes_of_app. change (bytes_of "@") with [at_sign]. cbn [app].
  rewrite cut_at_first by by intros Hx; destruct (Hi _ Hx). cbn [fmap option_fmap option_map prod_map fst snd].
  rewrite !string_of_bytes_of, decide_False by by rewrite str_trim_safe by by apply Forall_forall. by rewrite Hc.
Qed.
Lemma kept_route_nonempty r : kept_route r → r ≠ ""%string.
Proof. intros [[(host & -> & _)|(_ & (Hne & _) & _)] _]; done. Qed.

Lemma replace_key_spec name i b :
  let '(change, b1) := replace_key name i b in
  b1.(bk_contacts) = b.(bk_contacts) ∧
  (is_Some change ↔ ∃ old, b.(bk_contacts) !! name = Some old ∧ old ≠ i) ∧
  (∀ old, b.(bk_contacts) !! name = Some old → old ≠ i →
     b1.(bk_verified) !! old = None ∧ b1.(bk_trusted) !! old = None ∧ b1.(bk_relays) !! id_key old = None) ∧
  (∀ k, (∀ old, b.(bk_contacts) !! name = Some old → id_key old ≠ k) → b1.(bk_relays) !! k = b.(bk_relays) !! k).
Proof.
  unfold replace_key. destruct (bk_contacts b !! name) as [old|] eqn:En.
  2:{ split_and!; try done. split; [by intros []|by intros (? & ? & _)]. }
  destruct (decide (old = i)) as [->|Ho].
  { split_and!; try done; [split; [by intros []|by intros (? & [= <-] & ?)]|by intros old [= <-]]. }
  unfold drop_old_key, clear_relay. cbn [with_verified with_trusted bk_relays].
  split_and!; [by case_match| |intros old' [= <-] _|intros k Hk].
  - split; [intros _; by exists old|by eexists].
  - case_match eqn:E; cbn; rewrite ?lookup_delete_eq; done.
  - case_match; cbn; [|done]. rewrite lookup_delete_ne; [done|by apply Hk].
Qed.

End facts.
