(* ===== verification/SyncEngine.v ===== *)
(** * A round of the address-book sync ([engine/src/sync.rs])

    The devices of an identity share its inbox.  A round reads the inbox, merges every
    snapshot that the identity's key opens, publishes the book that comes out of it, and
    only then takes the notes it merged off the relay.

    The book is threaded through; what the machine is, at a moment, is an argument. *)
From stdpp Require Import gmap strings relations.
From S2P Require Import Prelude.
From S2P Require Import Text.
From S2P Require Import ChunkCipher.
From S2P Require Import SyncTypes.
From S2P Require Import SyncCodec.
From S2P Require Import SyncBridge.
From S2P Require Import Store.
From S2P Require Import UploadHttp.
From S2P Require Import UploadClient.
From S2P Require Import Rendezvous.
From S2P Require Import Inbox.
From S2P Require Import Code.
From S2P Require Import Tickets.
From S2P Require Import Transfers.
From S2P Require Import Identity.
From S2P Require Import Program.
From S2P Require Import Presence.
From S2P Require Import PresenceFacts.
From S2P Require Import Ledgers.
Local Open Scope Z_scope.
Local Open Scope prog_scope.

Definition SYNC_NOTE_TTL_SECS : Z := 7 * 24 * 3600.

(** [resolve_relay]: the relay asked for, else the configured one. *)
Definition resolve_relay (configured relay : option string) : result string string :=
  match relay with
  | Some r => Ok (normalize_relay r)
  | None => context "no relay configured" configured
  end.

Section round.
Context `{!Ed25519, !Hpke, !Blake3Kdf, !Blake3Hash, !Blake3Wide, !SessionCodec, !Wire Offer, !Wire OfferV1,
  !Wire Envelope, !Wire SealedEnvelope, !Wire (list InboxItem), !Wire SyncNote, !Aes256Gcm, !HexLower, !Postcard}.
Context (machine : Z → Env).

Definition now_env : inbox Env := Clock (fun t => Ret (machine t)).

(** The loop over the rows: how many were merged, which are to be cleared, the book. *)
Fixpoint merge_notes (key : bytes) (items : list InboxItem) (merged : N) (to_clear : list string) (b : Book)
    : inbox (result (N * list string * Book) string) :=
  match items with
  | [] => Ret (Ok (merged, to_clear, b))
  | item :: items =>
      match decode_sync_note item.(ii_blob) with
      | Some (Snapshot blob) =>
          match decrypt_snapshot key blob with
          | Ok snap =>
              let* env := now_env in
              match context "merge incoming snapshot" (result_ok (apply_merged_state env snap b)) with
              | Ok b => merge_notes key items (merged + 1)%N (to_clear ++ [item.(ii_id)]) b
              | Err e => Ret (Err e)
              end
          | Err _ => merge_notes key items merged (to_clear ++ [item.(ii_id)]) b
          end
      | Some (SnapshotRef _ _) | None => merge_notes key items merged to_clear b
      end
  end.

(** The acks, whose failures count for nothing. *)
Fixpoint ack_all (ids : list string) (s : Sub) : inbox Sub :=
  match ids with
  | [] => Ret s
  | id :: ids => let* r := ack id s in ack_all ids r.2
  end.

(** [sync_round]: how many snapshots were merged, and the book. *)
Definition sync_round (relay : string) (me : Identity) (b : Book) : inbox (result (N * Book) string) :=
  let key := snapshot_key (secret_bytes me) in
  let* x := raw_items 0 (new_sub relay me) in
  let '(r, s) := x in
  try? items := context "read inbox for sync" (result_ok r) in
  let* r := merge_notes key items 0 [] b in
  try? x := r in
  let '(merged, to_clear, b) := x in
  let* env := now_env in
  try? x := build_local_snapshot env b in
  let '(snapshot, b) := x in
  Draw (fun salt =>
    try? blob := encrypt_snapshot salt key snapshot in
    try? body := encode_sync_note (Snapshot blob) in
    let* x := post_raw body (Some SYNC_NOTE_TTL_SECS) s in
    let '(r, s) := x in
    try? _ := context "publish snapshot" (result_ok r) in
    let* _ := ack_all to_clear s in
    let b := if (0 <? merged)%N then (prune_orphan_names b).2 else b in
    Ret (Ok (merged, b))).
End round.

(** ** What a round takes off the relay *)

Section facts.
Context `{!Ed25519, !Hpke, !Blake3Kdf, !Blake3Hash, !Blake3Wide, !SessionCodec, !Wire Offer, !Wire OfferV1,
  !Wire Envelope, !Wire SealedEnvelope, !Wire (list InboxItem), !Wire SyncNote, !Aes256Gcm, !HexLower, !Postcard}.
Context (machine : Z → Env) (relay : string) (me : Identity) (b0 : Book).
Notation s0 := (new_sub relay me).
Notation key := (snapshot_key (secret_bytes me)).

(** A book that merges lead to, and a snapshot that was among them. *)
Definition reached : Book → Book → Prop := rtc (fun b b' => ∃ t snap, apply_merged_state (machine t) snap b = Ok b').
Definition merged_in (snap : SyncSnapshot) (b : Book) : Prop :=
  ∃ t b1 b2, reached b0 b1 ∧ apply_merged_state (machine t) snap b1 = Ok b2 ∧ reached b2 b.
Lemma merged_later snap b b' : reached b b' → merged_in snap b → merged_in snap b'.
Proof. intros Hb (t & b1 & b2 & Hb1 & Ha & Hb2). exists t, b1, b2. split_and!; [done|done|by etrans]. Qed.

(** The relay listed a note of which nothing is left to learn: what it holds is in the
    book, or it does not open. *)
Definition spent (l : InboxLog) (b : Book) (id : string) : Prop :=
  ∃ item slot blob, listed_in s0 l slot item ∧ ii_id item = id ∧ decode_sync_note (ii_blob item) = Some (Snapshot blob) ∧
    match decrypt_snapshot key blob with Ok snap => merged_in snap b | Err _ => True end.
Lemma spent_later l l' b b' id : l `prefix_of` l' → reached b b' → spent l b id → spent l' b' id.
Proof.
  intros Hl Hb (item & slot & blob & Hin & Hid & Hn & Hm). exists item, slot, blob.
  split; [by eapply listing_later|]. split_and!; [done..|]. case_match; [by eapply merged_later|done].
Qed.

(** The relay took a note that holds a snapshot sealed with the identity's key. *)
Definition published (l : InboxLog) (snap : SyncSnapshot) : Prop :=
  ∃ r resp salt blob slot ttl, Sent r (Some (Some resp)) ∈ l ∧ r.(iq_verb) = Post ∧ r.(iq_url) = PostUrl (trim_slashes relay) slot ttl ∧
    is_success resp.(rs_status) = true ∧ encrypt_snapshot salt key snap = Ok blob ∧ encode_sync_note (Snapshot blob) = Ok r.(iq_body).
Lemma published_later l l' snap : l `prefix_of` l' → published l snap → published l' snap.
Proof.
  intros [k ->] (r & resp & salt & blob & slot & ttl & Hin & Hrest). exists r, resp, salt, blob, slot, ttl.
  split; [apply elem_of_app; by left|done].
Qed.
(** The book was published, and this row has nothing that is not in it. *)
Definition settled (l : InboxLog) (id : string) : Prop :=
  ∃ b t snap b', reached b0 b ∧ spent l b id ∧ build_local_snapshot (machine t) b = Ok (snap, b') ∧ published l snap.
Lemma settled_later l l' id : l `prefix_of` l' → settled l id → settled l' id.
Proof.
  intros Hl (b & t & snap & b' & Hb & Hs & Hbuild & Hp). exists b, t, snap, b'.
  split; [done|]. split; [by eapply spent_later; [..|apply rtc_refl|]|]. split; [done|by eapply published_later].
Qed.

Definition deletes_settled (l : InboxLog) (r : InboxRequest) : Prop :=
  r.(iq_verb) = Delete → ∃ slot id, r.(iq_url) = RowUrl (trim_slashes relay) slot id ∧ settled l id.
Notation holds := (holds deletes_settled (fun _ _ _ => True) (fun _ _ => True) (fun _ _ => True)).

Lemma holds_merge_notes items merged to_clear b (l : InboxLog) (Q : result (N * list string * Book) string → InboxLog → Prop) :
  reached b0 b → Forall (fun i => ∃ slot, listed_in s0 l slot i) items → Forall (spent l b) to_clear →
  (∀ e l', l `prefix_of` l' → Q (Err e) l') →
  (∀ merged tc b' l', l `prefix_of` l' → reached b0 b' → Forall (spent l' b') tc → Q (Ok (merged, tc, b')) l') →
  holds (merge_notes machine key items merged to_clear b) l Q.
Proof.
  revert merged to_clear b l. induction items as [|item items IH]; intros merged to_clear b l Hb Hi Hc He HQ; cbn [merge_notes Program.holds].
  { by apply HQ. }
  apply Forall_cons in Hi as [[slot Hitem] Hi].
  destruct (decode_sync_note (ii_blob item)) as [[blob|? ?]|] eqn:En; [|by apply IH..].
  destruct (decrypt_snapshot key blob) as [snap|e] eqn:Ed.
  - cbn [now_env bind Program.holds]. intros t. assert (l `prefix_of` l ++ [Read t]) as Hl by by apply prefix_app_r.
    destruct (apply_merged_state (machine t) snap b) as [b'|e] eqn:Ea; cbn [result_ok context]; [|by apply He].
    assert (reached b b') as Hb' by by apply rtc_once; exists t, snap.
    apply IH; [by etrans| | |intros; apply He; by etrans|intros; apply HQ; [by etrans|done..]].
    + eapply Forall_impl; [exact Hi|]. intros i [sl Hsl]. exists sl. by eapply listing_later.
    + apply Forall_app. split; [eapply Forall_impl; [exact Hc|]; intros; by eapply spent_later|].
      apply Forall_singleton. exists item, slot, blob. split; [by eapply listing_later|]. rewrite Ed. split_and!; [done..|].
      by exists t, b, b'.
  - apply IH; try done. apply Forall_app. split; [done|]. apply Forall_singleton. exists item, slot, blob. by rewrite Ed.
Qed.

Lemma holds_ack_all ids s (l : InboxLog) (Q : Sub → InboxLog → Prop) :
  s.(sb_relay) = relay → Forall (settled l) ids → (∀ s' l', l `prefix_of` l' → Q s' l') → holds (ack_all ids s) l Q.
Proof.
  revert s l. induction ids as [|id ids IH]; intros s l Hr Hid HQ; cbn [ack_all Program.holds]; [by apply HQ|].
  apply Forall_cons in Hid as [Hid Hids]. apply holds_bind. unfold ack. apply holds_bind.
  assert (∀ slot l1, l `prefix_of` l1 → holds (and_then (authed Delete slot (RowUrl (trim_slashes (sb_relay s)) slot id) None s)
    (λ _ s1, Ret (Ok tt, with_row_slots (delete id (sb_row_slots s1)) s1))) l1 (fun a l2 => holds (ack_all ids a.2) l2 Q)) as Hdel.
  { intros slot l1 Hl1. unfold and_then. apply holds_bind, holds_authed.
    - intros l' _. done.
    - intros l' bearer Hl' _. exists slot, id. rewrite Hr. split; [done|]. eapply settled_later; [|exact Hid]. by trans l1.
    - intros r s' l' Hl' [x ->] _. assert (l `prefix_of` l') as Hl by by trans l1.
      destruct r; cbn [Program.holds snd]; (apply IH; [done| |intros; apply HQ; by trans l']);
        (eapply Forall_impl; [exact Hids|]; intros; by eapply settled_later). }
  destruct (sb_row_slots s !! id) as [slot|]; cbn [bind now_unix Program.holds]; [by apply Hdel|].
  intros t. apply Hdel. by apply prefix_app_r.
Qed.

(** What a round that reports success has done. *)
Definition round_done (r : result (N * Book) string) (l : InboxLog) : Prop :=
  ∀ merged b', r = Ok (merged, b') → ∃ b t snap b1,
    reached b0 b ∧ build_local_snapshot (machine t) b = Ok (snap, b1) ∧ published l snap ∧
    b' = (if (0 <? merged)%N then (prune_orphan_names b1).2 else b1).
Lemma holds_sync_round (l : InboxLog) : holds (sync_round machine relay me b0) l round_done.
Proof.
  unfold sync_round, raw_items. apply holds_bind.
  eapply (holds_allow (fun _ => reads s0)); [intros l' r [_ [[Hv _]|[Hv _]]] Hd; by rewrite Hv in Hd|].
  apply holds_items; [apply follows_on_self|]. intros r s l1 _ (Hrel & _) Hi.
  destruct r as [items|e]; cbn [result_ok context Program.holds]; [|done].
  apply holds_bind, holds_merge_notes; [done|by apply Hi|constructor|done|].
  intros merged tc b l2 Hl2 Hb Hc. cbn [now_env bind Program.holds]. intros t.
  destruct (build_local_snapshot (machine t) b) as [[snap b']|e] eqn:Eb; cbn [Program.holds]; [|done].
  intros salt _. destruct (encrypt_snapshot salt key snap) as [blob|e] eqn:Ee; cbn [Program.holds]; [|done].
  destruct (encode_sync_note (Snapshot blob)) as [body|e] eqn:En; cbn [Program.holds]; [|done].
  unfold post_raw. cbn [now_unix bind Program.holds]. intros t'. split; [done|]. intros [resp|] _; cbn [bind context result_ok Program.holds]; [|done].
  destruct (is_success (rs_status resp)) eqn:Es; cbn [negb context result_ok Program.holds]; [|done].
  destruct (rs_body resp) as [rb|]; cbn [context result_ok Program.holds]; [|done].
  set (l3 := _ ++ [Sent _ _]).
  assert (published l3 snap) as Hp.
  { eexists _, resp, salt, blob, _, _. split; [apply elem_of_app; right; by left|]. rewrite Hrel. by split_and!. }
  apply holds_bind, holds_ack_all; [done| |].
  - eapply Forall_impl; [exact Hc|]. intros id Hid. exists b, t, snap, b'. split; [done|]. split; [|done].
    eapply spent_later; [|apply rtc_refl|exact Hid]. unfold l3. rewrite <- !app_assoc. by apply prefix_app_r.
  - intros s' l4 Hl4. cbn [Program.holds]. intros ? ? [= <- <-]. exists b, t, snap, b'. split_and!; [done|done| |done]. by eapply published_later.
Qed.
End facts.

(** C10. Nothing that another device published is lost.  In every run of a sync round, whatever
    the relay answers and wherever the run stops, a row is taken off the relay only if the
    relay listed it as a note whose snapshot was merged into the book, or that does not
    open with this identity's key, and the relay has already taken a note that holds the
    snapshot built from that book; and a round that reports success leaves the book
    whose snapshot it published. *)
Theorem only_published_notes_are_cleared `{!Ed25519, !Hpke, !Blake3Kdf, !Blake3Hash, !Blake3Wide, !SessionCodec, !Wire Offer,
    !Wire OfferV1, !Wire Envelope, !Wire SealedEnvelope, !Wire (list InboxItem), !Wire SyncNote, !Aes256Gcm, !HexLower, !Postcard}
    (machine : Z → Env) (relay : string) (me : Identity) (b : Book) ins p l :
  run (sync_round machine relay me b) ins = Some (p, l) →
  (∀ pre r x post, l = pre ++ Sent r x :: post → r.(iq_verb) = Delete →
     ∃ slot id, r.(iq_url) = RowUrl (trim_slashes relay) slot id ∧ settled machine relay me b pre id) ∧
  (∀ result, p = Ret result → round_done machine relay me b result l).
Proof.
  intros Hr. destruct (run_holds _ _ _ _ _ _ [] _ _ _ (holds_sync_round machine relay me b []) Hr) as [Hp Hq].
  { intros ? [? []| | |] ? _; done. }
  split; [|by intros result ->]. intros pre r x post Hl Hd. exact (Hp _ _ _ Hl Hd).
Qed.
