(* ===== verification/PresenceExamples.v ===== *)
(** * Offers, the ledgers and a sync round, concretely

    Stand-ins for the curves, HPKE and [postcard], with their laws; a sender and a
    recipient; a subscription, a sync round and an address book, on which the properties
    are tried; and runs that end where the comments of the code say they do not. *)
From stdpp Require Import gmap strings.
From S2P Require Import Prelude.
From S2P Require Import Text.
From S2P Require Import ChunkCipher.
From S2P Require Import SyncTypes.
From S2P Require Import SyncCodec.
From S2P Require Import SyncBridge.
From S2P Require Import SyncExamples.
From S2P Require Import Limits.
From S2P Require Import Store.
From S2P Require Import Mailbox.
From S2P Require Import UploadHttp.
From S2P Require Import UploadClient.
From S2P Require Import RelayExamples.
From S2P Require Import Rendezvous.
From S2P Require Import Inbox.
From S2P Require Import InboxFacts.
From S2P Require Import Code.
From S2P Require Import CodeFacts.
From S2P Require Import BoardExamples.
From S2P Require Import Tickets.
From S2P Require Import Transfers.
From S2P Require Import Identity.
From S2P Require Import Program.
From S2P Require Import Presence.
From S2P Require Import PresenceFacts.
From S2P Require Import PresenceNet.
From S2P Require Import Ledgers.
From S2P Require Import SyncEngine.
Local Open Scope Z_scope.

(** ** Stand-ins *)

(** A key is its own public half, a blinded key starts with its epoch, and a signature
    shows the key and the message. *)
Definition toy_sig (vk msg : bytes) : bytes := take 64 (vk ++ msg ++ replicate 64 Byte.x00).
#[local] Instance toy_ed : Ed25519 := {|
  scalar := bytes; scalar_zero := []; scalar_mul a b := a ++ b; scalar_wide b := b; ed_scalar sk := sk;
  ed_verifying sk := take 32 (sk ++ replicate 32 Byte.x01); ed_valid _ := true; ed_torsion_free _ := true;
  ed_mul p h := take 32 (drop 32 h ++ p ++ replicate 32 Byte.x00);
  raw_sign _ _ msg vk := toy_sig vk msg |}.
#[local] Instance toy_wide : Blake3Wide := {| derive_wide _ b := b |}.
#[local] Instance seen_session : SessionCodec := {|
  base32_encode_lower := hex; base32_decode_upper := unhex;
  challenge_to_vec := challenge_to_vec; challenge_from_bytes := challenge_from_bytes;
  token_to_vec := token_to_vec; token_from_bytes := token_from_bytes;
  keyed_hash k x := k ++ x; verify_strict vk msg sig := bool_decide (sig = toy_sig vk msg) |}.
#[local] Instance seen_session_laws : SessionCodecLaws.
Proof. split; cbn; [apply unhex_hex_bytes|apply hex_trim|apply (@challenge_round toy_session _)|apply (@token_round toy_session _)]. Qed.
Lemma length_take_pad {A} n (b : list A) pad : (n <= length pad)%nat → length (take n (b ++ pad)) = n.
Proof. intros Hn. rewrite length_take, length_app. lia. Qed.
#[local] Instance toy_ed_laws : Ed25519Laws.
Proof.
  split; cbn; try done.
  - intros sk. by apply length_take_pad.
  - intros p h. rewrite app_assoc. by apply length_take_pad.
  - intros a prefix msg vk. unfold toy_sig. rewrite app_assoc. by apply length_take_pad.
  - intros sk h prefix msg _. by apply bool_decide_eq_true.
Qed.

(** A box shows its two keys and its labels before the message. *)
Definition toy_label (from : option bytes) (to info aad : bytes) : bytes :=
  take 96 (take 32 (default [] from ++ replicate 32 Byte.x02) ++ to ++ aad ++ info ++ replicate 96 Byte.x03).
#[local] Instance toy_hpke : Hpke := {|
  x_public sk := take 32 (sk ++ replicate 32 Byte.x04); x_valid _ := true; encapped_valid e := negb (bool_decide (e = []));
  hpke_seal from to info plain aad rnd := Some (Byte.x01 :: rnd, toy_label (snd <$> from) to info aad ++ plain);
  hpke_open from sk e info c aad :=
    if decide (take 96 c = toy_label from (take 32 (sk ++ replicate 32 Byte.x04)) info aad) then Some (drop 96 c) else None |}.
#[local] Instance toy_hpke_laws : HpkeLaws.
Proof.
  assert (∀ from to info aad, length (toy_label from to info aad) = 96%nat) as Hl.
  { intros. unfold toy_label. rewrite !app_assoc. by apply length_take_pad. }
  split; cbn; try done.
  - intros sk. by apply length_take_pad.
  - by intros mode pk info plain aad rnd e c [= <- <-].
  - intros mode sk info plain aad rnd e c [= <- <-].
    rewrite take_app_length', drop_app_length' by (by rewrite Hl). by rewrite decide_True.
Qed.

(** Values as byte strings, each after its length. *)
Fixpoint pack (l : list bytes) : option bytes :=
  match l with
  | [] => Some []
  | b :: l =>
      if bool_decide (N.of_nat (length b) < 2 ^ 32)%N
      then r ← pack l; Some (u32_to_le_bytes (N.of_nat (length b)) ++ b ++ r) else None
  end.
Fixpoint unpack (fuel : nat) (b : bytes) : option (list bytes) :=
  match fuel, b with
  | _, [] => Some []
  | O, _ => None
  | S fuel, _ =>
      let n := N.to_nat (le_value (take 4 b)) in
      let r := drop 4 b in
      l ← unpack fuel (drop n r); Some (take n r :: l)
  end.
Lemma unpack_pack l b fuel : pack l = Some b → (length b <= fuel)%nat → unpack fuel b = Some l.
Proof.
  revert b fuel. induction l as [|x l IH]; intros b fuel Hp Hf; cbn [pack] in Hp; [injection Hp as <-; by destruct fuel|].
  case_bool_decide as Hl; [|done]. destruct (pack l) as [r|] eqn:Er; [|done]. cbn [mbind option_bind] in Hp. apply (inj Some) in Hp as <-.
  set (h := u32_to_le_bytes (N.of_nat (length x))) in *. assert (length h = 4%nat) as Hh by apply length_le_bytes.
  rewrite !length_app, Hh in Hf. destruct fuel as [|fuel]; [lia|].
  assert (∃ y k, h ++ x ++ r = y :: k) as (y & k & Heq) by (destruct h as [|y h]; [done|by eexists _, _]).
  rewrite Heq. cbn [unpack]. rewrite <- Heq. rewrite take_app_length', drop_app_length' by done.
  unfold h, u32_to_le_bytes at 1 2. rewrite le_value_bytes by (cbn; lia). rewrite Nat2N.id, drop_app_length, take_app_length.
  rewrite (IH r fuel eq_refl) by lia. done.
Qed.
Definition wire_by {T} (f : T → list bytes) (g : list bytes → option T) : Wire T :=
  {| to_allocvec x := pack (f x); from_bytes b := unpack (length b) b ≫= g |}.
Lemma wire_by_laws {T} (f : T → list bytes) g : (∀ x, g (f x) = Some x) → @WireLaws T (wire_by f g).
Proof. intros Hg. split. cbn. intros x b Hb. rewrite (unpack_pack _ _ _ Hb); [apply Hg|done]. Qed.

Definition of_option (o : option bytes) : bytes := match o with None => [] | Some b => Byte.x00 :: b end.
Definition to_option (b : bytes) : option bytes := match b with [] => None | _ :: b => Some b end.
Definition of_int (z : Z) : bytes := bits (encode z).
Definition to_int (b : bytes) : Z := default 0 (decode (unbits b)).
Lemma to_of_option o : to_option (of_option o) = o.
Proof. by destruct o. Qed.
Lemma to_of_int z : to_int (of_int z) = z.
Proof. unfold to_int, of_int. by rewrite unbits_bits, decode_encode. Qed.

#[local] Instance wire_offer : Wire Offer := wire_by
  (fun o => [bytes_of o.(of_name); of_int o.(of_size); of_int o.(of_chunks); bytes_of o.(of_ticket); bytes_of o.(of_note);
     bytes_of o.(of_sender_name); of_option o.(of_origin); of_option o.(of_target); bytes_of o.(of_relay)])
  (fun l => match l with
     | [a; b; c; d; e; f; g; h; i] => Some (mkOffer (string_of a) (to_int b) (to_int c) (string_of d) (string_of e)
         (string_of f) (to_option g) (to_option h) (string_of i))
     | _ => None end).
#[local] Instance wire_offer_laws : WireLaws Offer.
Proof. apply wire_by_laws. intros []. by rewrite !string_of_bytes_of, !to_of_int, !to_of_option. Qed.
#[local] Instance wire_v1 : Wire OfferV1 := wire_by
  (fun o => [bytes_of o.(o1_name); of_int o.(o1_size); of_int o.(o1_chunks); bytes_of o.(o1_ticket); bytes_of o.(o1_note);
     bytes_of o.(o1_sender_name); of_option o.(o1_origin); of_option o.(o1_target)])
  (fun l => match l with
     | [a; b; c; d; e; f; g; h] => Some (mkOfferV1 (string_of a) (to_int b) (to_int c) (string_of d) (string_of e)
         (string_of f) (to_option g) (to_option h))
     | _ => None end).
#[local] Instance wire_v1_laws : WireLaws OfferV1.
Proof. apply wire_by_laws. intros []. by rewrite !string_of_bytes_of, !to_of_int, !to_of_option. Qed.
#[local] Instance wire_envelope : Wire Envelope := wire_by
  (fun e => [e.(ev_sender); e.(ev_encapped_key); e.(ev_ciphertext)])
  (fun l => match l with [a; b; c] => Some (mkEnvelope a b c) | _ => None end).
#[local] Instance wire_envelope_laws : WireLaws Envelope.
Proof. apply wire_by_laws. by intros []. Qed.
#[local] Instance wire_sealed : Wire SealedEnvelope := wire_by
  (fun e => [e.(sv_encapped_key); e.(sv_ciphertext)])
  (fun l => match l with [a; b] => Some (mkSealedEnvelope a b) | _ => None end).
#[local] Instance wire_sealed_laws : WireLaws SealedEnvelope.
Proof. apply wire_by_laws. by intros []. Qed.
#[local] Instance wire_note : Wire SyncNote := wire_by
  (fun n => match n with Snapshot b => [b] | SnapshotRef c r => [bytes_of c; bytes_of r] end)
  (fun l => match l with [b] => Some (Snapshot b) | [c; r] => Some (SnapshotRef (string_of c) (string_of r)) | _ => None end).
#[local] Instance wire_items : Wire (list InboxItem) := {|
  to_allocvec l := Some (bits (encode ((fun i => (i.(ii_id), i.(ii_blob))) <$> l)));
  from_bytes b := (fmap (fun p => mkInboxItem p.1 p.2)) <$> decode (A := list (string * bytes)) (unbits b) |}.
#[local] Instance wire_items_laws : WireLaws (list InboxItem).
Proof.
  split. cbn. intros l b [= <-]. rewrite unbits_bits, decode_encode. cbn. f_equal.
  induction l as [|[i x] l IH]; [done|]. cbn. by f_equal.
Qed.

(** ** An offer *)

Definition ex_sender : Identity := from_seed (replicate 32 Byte.x51).
Definition ex_reader : Identity := from_seed (replicate 32 Byte.x52).
Definition ex_offer : Offer := mkOffer "a.txt" 5 1 "ticket" "hello" "Ann" (Some [Byte.x61]) None "https://relay.example".
Definition ex_blob : bytes := match encode_offer_blob ex_offer (public ex_reader) ex_sender [Byte.x0c] [Byte.x0b] with Ok b => b | Err _ => [] end.
Definition ex_offer1 : OfferV1 := mkOfferV1 "b.txt" 5 1 "ticket" "hello" "Ann" None None.
Definition ex_plain1 : bytes := default [] (to_allocvec ex_offer1).
Definition ex_sealed1 : Sealed :=
  match seal ex_plain1 (public ex_reader) ex_sender OFFER_AAD [Byte.x0c] with Ok s => s | Err _ => mkSealed [] [] end.
Definition ex_old : bytes :=
  default [] (to_allocvec (mkEnvelope (to_bytes (public ex_sender)) ex_sealed1.(se_encapped_key) ex_sealed1.(se_ciphertext))).

Lemma offer_opens_witness :
  decode_offer ex_blob ex_reader = Some (public ex_sender, ex_offer) ∧
  decode_offer ex_old ex_reader = Some (public ex_sender, offer_from_v1 ex_offer1).
Proof.
  destruct (offer_opens ex_sender ex_reader ex_offer ex_offer1 [Byte.x0c] [Byte.x0b] ex_blob ex_plain1 ex_sealed1 ex_old
    (made_from_seed _) (made_from_seed _)) as [Hnew Hold].
  split; [apply Hnew|apply Hold]; vm_compute; reflexivity.
Defined.

Lemma identity_file_reads_back_witness :
  identity_load (Some (identity_file ex_reader)) = Ok ex_reader ∧
  (∃ e, identity_load (Some (take 50 (identity_file ex_reader))) = Err e) ∧
  load_or_create (Some (identity_file ex_sender)) (replicate 32 Byte.x54) None = (Ok ex_sender, Some (identity_file ex_sender)).
Proof.
  destruct (identity_file_reads_back ex_reader (replicate 32 Byte.x51) (replicate 32 Byte.x54) None
    (made_from_seed _) eq_refl eq_refl) as (H1 & _ & H2 & H3).
  split; [exact H1|]. split; [apply H2; vm_compute; lia|]. apply H3. reflexivity.
Defined.

(** ** A subscription *)

(** Two rows: one in the slot of this week and, in last week's, one that this device
    posted itself. *)
Definition ex_time : Z := 5000000000.
Definition ex_sub : Sub := set_origin [Byte.x62] (new_sub "https://relay.example/" ex_reader).
Definition ex_own : Offer := mkOffer "c.txt" 5 1 "ticket" "" "Ann" (Some [Byte.x62]) None "".
Definition ex_own_blob : bytes := match encode_offer_blob ex_own (public ex_reader) ex_reader [Byte.x0a] [Byte.x0b] with Ok b => b | Err _ => [] end.
Definition items_body (items : list InboxItem) : bytes := default [] (to_allocvec items).
Definition ex_rows : bytes := items_body [mkInboxItem "r1" ex_blob; mkInboxItem "r2" [Byte.x00]].
Definition ex_rows' : bytes := items_body [mkInboxItem "r3" ex_own_blob].
Definition ex_challenge_body : bytes := challenge_to_vec (mkSessionChallenge [Byte.x05] 5003600 [Byte.x06]).
Definition ok_answer (b : bytes) : option Response := Some (mkResponse OK (Some b)).

Definition told (o : Obs InboxRequest (option Response) ReceivedOffer) : option ReceivedOffer :=
  match o with Told x => Some x | _ => None end.
Definition run_log (ins : list (Input (option Response))) : InboxLog :=
  match run (sub_run ex_sub) ins with Some (_, l) => l | None => [] end.
Definition ex_ins : list (Input (option Response)) :=
  let got b := Raced (Some (ok_answer b)) in
  [Round; Stops false; Time ex_time; Time ex_time;
   Round; got ex_challenge_body; Time ex_time; got ex_rows;
   Time ex_time; Round; got ex_challenge_body; Time ex_time; got ex_rows'; Heard].
Definition ex_received : ReceivedOffer := mkReceivedOffer "r1" (to_bytes (public ex_sender)) ex_offer.

Lemma subscription_surfaces_offers_witness :
  ∃ pre, run_log ex_ins = pre ++ [Told ex_received] ∧ handed ex_sub pre ex_received ∧ first_time pre ex_received.
Proof.
  assert (run_log ex_ins = take 9 (run_log ex_ins) ++ [Told ex_received]) as Hx by (vm_compute; reflexivity).
  destruct (run (sub_run ex_sub) ex_ins) as [[p l]|] eqn:E.
  2:{ unfold run_log in Hx. rewrite E in Hx. discriminate Hx. }
  assert (l = run_log ex_ins) as -> by (unfold run_log; rewrite E; reflexivity).
  eexists. split; [exact Hx|].
  exact (subscription_surfaces_offers ex_sub ex_ins p _ _ (Told ex_received) [] E Hx).
Defined.

(** One poll: the two slots, a session for each. *)
Definition ex_poll : list (Input (option Response)) :=
  let got b := Answers (ok_answer b) in
  [Time ex_time; Round; got ex_challenge_body; Time ex_time; got ex_rows;
   Time ex_time; Round; got ex_challenge_body; Time ex_time; got ex_rows'].
Definition poll_end : option (list ReceivedOffer * gmap string string * gset string) :=
  match run (poll_wait LONG_POLL_SECS ex_sub) ex_poll with
  | Some (Ret (Ok offers, s), _) => Some (offers, s.(sb_row_slots), s.(sb_undecodable))
  | _ => None
  end.
(** The note that is no offer stays on the relay, and is remembered. *)
Example ex_polled : (fun x => (x.1.1, elements x.2)) <$> poll_end = Some ([ex_received], ["r2"%string]).
Proof. vm_compute. reflexivity. Qed.

Lemma poll_hands_out_offers_for_us_witness :
  ∃ s' l, run (poll_wait LONG_POLL_SECS ex_sub) ex_poll = Some (Ret (Ok [ex_received], s'), l) ∧
    s'.(sb_row_slots) !! "r3"%string = Some (slot_for_epoch (public ex_reader) 7) ∧
    Forall (handed ex_sub l) [ex_received] ∧ remembered ex_sub s' l ∧ ∀ r x, Sent r x ∈ l → reads ex_sub r.
Proof.
  assert (match poll_end with Some (o, m, _) => o = [ex_received] ∧ m !! "r3"%string = Some (slot_for_epoch (public ex_reader) 7) | None => False end)
    as Hx by (vm_compute; split; reflexivity).
  unfold poll_end in Hx.
  destruct (run (poll_wait LONG_POLL_SECS ex_sub) ex_poll) as [[[[[offers|e] s']| | | | | | | | |] l]|] eqn:E; try contradiction Hx.
  destruct Hx as [-> Hm]. eexists _, _. split; [reflexivity|]. split; [exact Hm|].
  exact (poll_hands_out_offers_for_us LONG_POLL_SECS ex_sub s' [ex_received] ex_poll l E).
Defined.

(** ** From the sender to the reader *)

(** Posted in the last seconds of an epoch and read in the next one; in between others
    use the inbox, and the relay reaps. *)
Definition plain_tick (ms : Z) : Tick := mkTick ms [] true [Byte.x07] "".
Definition ex_post : list Tick :=
  [mkTick 604790000 [] true [Byte.x0a] ""; mkTick 604790001 [] true [Byte.x0b] ""; plain_tick 604790002;
   mkTick 604790003 [] true (replicate 16 Byte.x0c) ""; mkTick 604795000 [] true [] "row1"].
Definition ex_busy : list InboxOp :=
  [IPost (slot_for_at (public ex_reader) 604790) None None "row2" [Byte.x01] 604796; IReap 604797;
   ILook None (slot_for_at (public ex_reader) 604790) 0 None 604798 604798].
Definition ex_read : list Tick :=
  mkTick 604810000 ex_busy true [Byte.x07] "" :: ((fun n => plain_tick (604810000 + Z.of_nat n)) <$> seq 1 21).
Definition ex_secret32 : bytes := replicate 32 Byte.x2a.
Definition ex_posted : inbox (result PostedOffer string) * Mailbox :=
  play ex_limits ex_secret32 ex_post (post_offer "https://relay.example" (public ex_reader) ex_sender ex_offer (Some 3600)) in_memory.
Definition ex_ticket : PostedOffer := mkPostedOffer "row1" (hex (replicate 16 Byte.x0c)).

Definition handed_out {A} (pm : inbox (result A string * Sub) * Mailbox) : option A :=
  match pm.1 with Ret (Ok x, _) => Some x | _ => None end.
Example ex_read_offers :
  handed_out (play ex_limits ex_secret32 ex_read (poll_wait 0 ex_sub) ex_posted.2)
  = Some [mkReceivedOffer "row1" (to_bytes (public ex_sender)) ex_offer].
Proof. vm_compute. reflexivity. Qed.

Notation ex_reads := (reading ex_reader 604790 604795 607795 "row1" 608395).
Lemma plain_ticks_read k n lo :
  lo <= 604810000 + Z.of_nat n → (n + k <= 1000)%nat → from ex_reads lo ((fun n => plain_tick (604810000 + Z.of_nat n)) <$> seq n k).
Proof.
  revert n lo. induction k as [|k IH]; intros n lo Hlo Hn; [done|]. cbn [seq]. rewrite fmap_cons. split_and!; [done| |apply IH; cbn; lia].
  split; [done|]. split; [|constructor]. unfold secs. cbn [ti_ms plain_tick].
  assert ((604810000 + Z.of_nat n) / 1000 = 604810) as ->; [|lia]. symmetry. apply (Z.div_unique _ _ _ (Z.of_nat n)); lia.
Qed.
Lemma ex_reading : from ex_reads 0 ex_read.
Proof.
  split_and!; [done| |apply plain_ticks_read; cbn; lia]. split; [reflexivity|]. split; [vm_compute; split; [discriminate|reflexivity]|].
  unfold ex_busy. repeat constructor; try (intros; discriminate). intros now [= <-]. vm_compute. reflexivity.
Qed.

Lemma offer_reaches_its_reader_witness :
  ∃ offers s' m2, play ex_limits ex_secret32 ex_read (poll_wait 0 ex_sub) ex_posted.2 = (Ret (Ok offers, s'), m2) ∧
    mkReceivedOffer "row1" (to_bytes (public ex_sender)) ex_offer ∈ offers.
Proof.
  assert (ex_posted.1 = Ret (Ok ex_ticket)) as Hp by (vm_compute; reflexivity).
  eapply (offer_reaches_its_reader ex_limits ex_secret32 "https://relay.example" ex_sender ex_reader ex_offer (Some 3600)
    (mkTick 604790000 [] true [Byte.x0a] "") (mkTick 604790001 [] true [Byte.x0b] "") (plain_tick 604790002)
    (mkTick 604790003 [] true (replicate 16 Byte.x0c) "") (mkTick 604795000 [] true [] "row1")
    in_memory ex_posted.2 ex_ticket ex_sub ex_read 604795 607795).
  - reflexivity.
  - reflexivity.
  - reflexivity.
  - intros epoch Hf. vm_compute in Hf. discriminate Hf.
  - intros items Hne. eexists. split; [reflexivity|]. destruct items as [|i items]; [done|].
    intros Hb. apply (f_equal unbits) in Hb. rewrite unbits_bits in Hb.
    change (unbits []) with (encode ([] : list (string * bytes))) in Hb. by apply (inj encode) in Hb.
  - intros blob Hb. vm_compute in Hb. injection Hb as <-. vm_compute. reflexivity.
  - reflexivity.
  - change (ex_posted = (Ret (Ok ex_ticket), ex_posted.2)). rewrite <- Hp. apply surjective_pairing.
  - vm_compute. split; discriminate.
  - vm_compute. discriminate.
  - split; [reflexivity|]. split; reflexivity.
  - reflexivity.
  - reflexivity.
  - vm_compute. discriminate.
  - vm_compute. discriminate.
  - vm_compute. discriminate.
  - exact ex_reading.
  - vm_compute. lia.
Defined.

(** ** A sync round *)

(** The desktop's round: its slot holds the phone's snapshot, a note that does not open
    and an offer. *)
Definition ex_note (blob : bytes) : bytes := match encode_sync_note (Snapshot blob) with Ok b => b | Err _ => [] end.
Definition ex_key_of (me : Identity) : bytes := snapshot_key (secret_bytes me).
Definition ex_phone : bytes := result_get (encrypt_snapshot ex_salt (ex_key_of ex_reader) snap_b) [].
Definition ex_notes : bytes :=
  items_body [mkInboxItem "n1" (ex_note ex_phone); mkInboxItem "n2" (ex_note [Byte.x00]); mkInboxItem "r1" ex_blob].
Definition ex_sync : list (Input (option Response)) :=
  let got b := Answers (ok_answer b) in
  [Time ex_time; Round; got ex_challenge_body; Time ex_time; got ex_notes; Round; got ex_challenge_body; Time ex_time; got [];
   Time ex_time; Time ex_time; Drawn ex_salt; Time ex_time; got (bytes_of "n3");
   Round; Time ex_time; got []; Round; Time ex_time; got []].
Definition deleted (l : InboxLog) : list string :=
  omap (fun o => match o with
                 | Sent r _ => match r.(iq_verb), r.(iq_url) with Delete, RowUrl _ _ id => Some id | _, _ => None end
                 | _ => None end) l.
Definition ex_sync_run : option (inbox (result (N * Book) string) * InboxLog) :=
  run (sync_round (fun _ => env_a) "https://relay.example/" ex_reader book_a2) ex_sync.
Definition ex_synced : option (N * list string * gmap string string) :=
  match ex_sync_run with
  | Some (Ret (Ok (n, b)), l) => Some (n, deleted l, b.(bk_contacts))
  | _ => None
  end.
Lemma only_published_notes_are_cleared_witness :
  ∃ b' l, ex_sync_run = Some (Ret (Ok (1%N, b')), l) ∧
    deleted l = ["n1"; "n2"]%string ∧ b'.(bk_contacts) !! "carol" = Some "KD"%string ∧
    (∀ pre r x post, l = pre ++ Sent r x :: post → r.(iq_verb) = Delete →
       ∃ slot id, r.(iq_url) = RowUrl "https://relay.example" slot id ∧
         settled (fun _ => env_a) "https://relay.example/" ex_reader book_a2 pre id) ∧
    round_done (fun _ => env_a) "https://relay.example/" ex_reader book_a2 (Ok (1%N, b')) l.
Proof.
  assert (match ex_synced with Some (n, d, c) => n = 1%N ∧ d = ["n1"; "n2"]%string ∧ c !! "carol" = Some "KD"%string | None => False end)
    as Hx by (vm_compute; auto).
  unfold ex_synced in Hx.
  destruct ex_sync_run as [[[[[n b']|e]| | | | | | | | |] l]|] eqn:E; try contradiction Hx.
  unfold ex_sync_run in E. destruct Hx as (-> & Hd & Hc). exists b', l.
  destruct (only_published_notes_are_cleared (fun _ => env_a) "https://relay.example/" ex_reader book_a2 ex_sync _ l E) as [Hdel Hret].
  split; [reflexivity|]. split; [exact Hd|]. split; [exact Hc|]. split; [|apply Hret; reflexivity].
  intros pre r x post Hl Hv. destruct (Hdel pre r x post Hl Hv) as (slot & id & Hu & Hs). exists slot, id. split; [|exact Hs].
  rewrite Hu. reflexivity.
Defined.

(** ** The ledgers *)

Definition id_of (i : Identity) : string := hex (to_bytes (public i)).
Definition ex_ann : string := id_of ex_reader.
Definition ex_bob_id : string := id_of ex_sender.
Definition ex_meeting : list LedgerOp :=
  [ObserveName ex_ann " Ann "; RecordSeen ex_ann; AddContact "ann" ex_ann; ObserveName ex_ann "Anna"; AcceptName "ann";
   RecordExchange ex_ann 9; RecordExchange ex_ann 5; RemoveContact "ann"; RecordSeen ex_ann].

Lemma a_key_is_remembered_witness :
  first_claim ex_ann (ledger_run ex_meeting empty_book) = "Ann"%string ∧
  seen_count ex_ann (ledger_run ex_meeting empty_book) = 2%N ∧ last_exchange ex_ann (ledger_run ex_meeting empty_book) = 9%N.
Proof.
  destruct (a_key_is_remembered ex_meeting empty_book ex_ann eq_refl) as (H1 & H2 & H3).
  split; [rewrite H1|split; [rewrite H2|rewrite H3]]; vm_compute; reflexivity.
Defined.

(** A contact under whose name another, verified key was known. *)
Definition ex_known : Book :=
  mkBook None None false {["ann" := ex_bob_id; "eve" := "k"]} {[ex_bob_id := 7%N]} ∅ ∅ (mkSeen ∅ ∅) ∅ {[ex_bob_id := "https://old"]} ∅ None None.

(** ** What the runs show of the code *)

(** An answer for last week's slot that does not decode ends the round, and the offer of
    this week's slot is not handed out; but its row counts as held, so the next poll tells
    the relay not to answer for it. *)
Definition ex_garbled : list (Input (option Response)) :=
  take 9 ex_poll ++ [Answers (ok_answer [Byte.x09])].
Definition next_have (s : Sub) : option (option string) :=
  match run (poll_wait LONG_POLL_SECS s) [Time ex_time; Round; Time ex_time] with
  | Some (Send r _, _) => Some r.(iq_have)
  | _ => None
  end.
Example a_garbled_older_slot_hides_an_offer :
  match run (poll_wait LONG_POLL_SECS ex_sub) ex_garbled with
  | Some (Ret (Err e, s), _) => Some (e, bool_decide (is_Some (decode_offer ex_blob ex_reader)), next_have s)
  | _ => None
  end = Some ("decode inbox items"%string, true, Some (Some "r1,r2"%string)).
Proof. vm_compute. reflexivity. Qed.

(** Removing a contact keeps the name that its key first claimed, and the next snapshot
    buries the key's row for the other devices; the merge after it then drops the row
    here, and the claim with it. *)
Definition ex_met : Book :=
  mkBook None None false {["ann" := ex_ann]} ∅ ∅ ∅ (mkSeen ∅ ∅) {[ex_ann := mkNameRow "Anna" None "Ann"]} ∅ ∅ None None.
Definition ex_met_snap : SyncSnapshot := snap_of (first_round env_a ex_met) dev_a.
Definition ex_unmet : Book := (contact_remove "ann" (first_round env_a ex_met).2).2.
Definition ex_unmet_snap : SyncSnapshot := snap_of (SyncExamples.run_round env_a ex_met_snap ex_unmet) dev_a.
Definition met_postcard : Postcard := codebook [ex_met_snap; ex_unmet_snap; merged_snapshot ex_unmet_snap snap_b] [] [].
Example a_removed_contact_is_forgotten_by_a_merge :
  match @build_local_snapshot _ met_postcard env_a ex_met with
  | Ok (_, met) =>
      let removed := (contact_remove "ann" met).2 in
      match @apply_merged_state _ met_postcard env_a snap_b removed with
      | Ok merged => Some (first_claim ex_ann met, first_claim ex_ann removed, first_claim ex_ann merged)
      | Err _ => None
      end
  | Err _ => None
  end = Some ("Ann", "Ann", "")%string.
Proof. vm_compute. reflexivity. Qed.

(** Removing a contact and adding it again keeps its marks. *)
Example marks_outlive_a_removal :
  let b := ledger_run [AddContact "ann" ex_ann; MarkVerified "ann" 3%N; RemoveContact "ann"; AddContact "anna" ex_ann] empty_book in
  (is_verified ex_ann b, b.(bk_contacts) !! "anna") = (true, Some ex_ann).
Proof. vm_compute. reflexivity. Qed.

(** A new key under one of two names of a contact takes the mark and the route from the
    old key, which the other name still stands for. *)
Example a_second_name_loses_its_mark :
  let b := ledger_run [AddContact "ann" (shareable_id ex_ann (Some "https://relay.example")); AddContact "anna" ex_ann;
    MarkVerified "ann" 3%N; AddContact "ann" ex_bob_id] empty_book in
  (b.(bk_contacts) !! "anna", is_verified ex_ann b, relay_of ex_ann b) = (Some ex_ann, false, None).
Proof. vm_compute. reflexivity. Qed.
