(* ===== verification/Records.v ===== *)
(** * The records of the transfer manager on disk

    [core/src/manager/records.rs] and the records of [core/src/manager/uploads.rs]: one
    [postcard] file per unfinished transfer and kind, under the manager's state
    directory.  [Disk] is that directory by kind and id, with the files decoded; the
    two loaders that read older shapes are on the bytes ([load_sendtos],
    [load_depositeds]). *)
From stdpp Require Import pretty.
From S2P Require Import Prelude.
From S2P Require Import Text.
From S2P Require Import Link.
From S2P Require Import UploadClient.
From S2P Require Import Rendezvous.
From S2P Require Import Seeds.
From S2P Require Import Tickets.
From S2P Require Import Transfers.
Local Open Scope Z_scope.

Record DownloadRecord := mkDownloadRecord {
  dr_id : Z; dr_ticket : string; dr_out_path : string; dr_name : string; dr_size : Z }.

Inductive PausedBy := ByUser | BySystem.
#[export] Instance paused_by_eq_dec : EqDecision PausedBy.
Proof. solve_decision. Defined.

(** The body of a paused marker, and what a body says; an unknown one is a person's. *)
Definition marker_body (by_ : PausedBy) : bytes :=
  match by_ with ByUser => [] | BySystem => bytes_of "system" end.
Definition marker_says (body : bytes) : PausedBy :=
  if decide (body = bytes_of "system") then BySystem else ByUser.

Record SendRecord := mkSendRecord {
  sr_id : Z; sr_path : string; sr_node_seed : bytes; sr_ticket : string;
  sr_owned_stage : option string }.

Record SendToRecord := mkSendToRecord {
  st_id : Z; st_recipient : bytes; st_payload : string; st_name : string; st_archive : bool;
  st_paused : bool; st_reason : string; st_note : string; st_target : option bytes;
  st_relay : option string; st_live_only : bool }.
(** The shapes that older builds wrote. *)
Record SendToRecordV3 := mkSendToRecordV3 {
  s3_id : Z; s3_recipient : bytes; s3_payload : string; s3_name : string; s3_archive : bool;
  s3_paused : bool; s3_reason : string; s3_note : string; s3_target : option bytes;
  s3_relay : option string }.
Record SendToRecordV2 := mkSendToRecordV2 {
  s2_id : Z; s2_recipient : bytes; s2_payload : string; s2_name : string; s2_archive : bool;
  s2_paused : bool; s2_reason : string; s2_note : string; s2_target : option bytes }.
Record SendToRecordV1 := mkSendToRecordV1 {
  s1_id : Z; s1_recipient : bytes; s1_payload : string; s1_name : string; s1_archive : bool;
  s1_paused : bool; s1_reason : string; s1_note : string }.

Record PrepRecord := mkPrepRecord {
  pr_id : Z; pr_key : bytes; pr_node_seed : bytes; pr_total_size : Z; pr_chunks : list Hash;
  pr_payload : string; pr_len : Z; pr_mtime_secs : Z; pr_mtime_nanos : Z; pr_dev : Z; pr_ino : Z }.

Record DepositedRecord := mkDepositedRecord {
  de_id : Z; de_recipient : bytes; de_name : string; de_size : Z; de_relay : string;
  de_claim : string; de_expires : Z; de_revoke_token : string; de_offer_id : string;
  de_poster_token : string; de_offer_relay : string }.
Record DepositedRecordV1 := mkDepositedRecordV1 {
  d1_id : Z; d1_recipient : bytes; d1_name : string; d1_size : Z; d1_relay : string;
  d1_claim : string; d1_expires : Z; d1_revoke_token : string; d1_offer_id : string;
  d1_poster_token : string }.

Record ParkedRecord := mkParkedRecord {
  pk_id : Z; pk_recipient : bytes; pk_name : string; pk_size : Z; pk_relay : string;
  pk_token : string; pk_chunks : list Hash; pk_expires : Z; pk_offer_id : string;
  pk_poster_token : string; pk_offer_relay : string }.

Record PendingCodeRecord := mkPendingCodeRecord {
  pc_shown : string; pc_slot : string; pc_secret : string; pc_relay : string;
  pc_owner_token : bytes; pc_max_sessions : option Z }.
Record PendingShareRecord := mkPendingShareRecord {
  ps_id : Z; ps_payload : string; ps_name : string; ps_archive : bool;
  ps_seed_relay : option string; ps_code : option PendingCodeRecord }.
Record CodeRecord := mkCodeRecord {
  cr_id : Z; cr_slot : string; cr_secret : string; cr_relay : string; cr_owner_token : bytes;
  cr_payload : bytes; cr_shown : string; cr_max_sessions : option Z; cr_max_failures : Z;
  cr_sessions_done : Z; cr_failures : Z }.

(** [uploads::Sealing], [Resumable], [UploadRecord] and [LinkRecord], with the seals of
    [core/src/link.rs] and [core/src/flow/offline.rs] and the upload session of
    [core/src/upload.rs]. *)
Record MailboxSeal := mkMailboxSeal {
  ms_key : bytes; ms_salt : bytes; ms_wrapped_key : bytes; ms_encapped_key : bytes;
  ms_revoke_token : string; ms_size : Z }.
Inductive Sealing := SealLink (s : LinkSeal) | SealMailbox (s : MailboxSeal).
Record Resumable := mkResumable { rs_seal : Sealing; rs_session : option UploadSession }.
#[export] Instance resumable_fields : Fields Resumable := λ r, mkResumable r.(rs_seal) r.(rs_session).
Record PayloadStamp := mkPayloadStamp {
  pst_len : Z; pst_mtime_secs : Z; pst_mtime_nanos : Z; pst_dev : Z; pst_ino : Z }.
#[export] Instance payload_stamp_eq_dec : EqDecision PayloadStamp.
Proof. solve_decision. Defined.
Record UploadRecord := mkUploadRecord {
  ur_id : Z; ur_seal : Sealing; ur_session : option UploadSession; ur_payload : string;
  ur_stamp : PayloadStamp }.
Record LinkRecord := mkLinkRecord {
  lr_id : Z; lr_payload : string; lr_relay : string; lr_ttl : Z; lr_max : Z }.

(** ** The state directory, decoded *)

Record Disk := mkDisk {
  dk_downloads : gmap Z DownloadRecord;
  dk_markers : gmap Z PausedBy;
  dk_sends : gmap Z SendRecord;
  dk_shares : gmap Z ShareRecord;
  dk_sendtos : gmap Z SendToRecord;
  dk_preps : gmap Z PrepRecord;
  dk_depositeds : gmap Z DepositedRecord;
  dk_parkeds : gmap Z ParkedRecord;
  dk_pending_shares : gmap Z PendingShareRecord;
  dk_codes : gmap Z CodeRecord;
  dk_uploads : gmap Z UploadRecord;
  dk_links : gmap Z LinkRecord;
  (** files under other directories that a record owns or a download staged *)
  dk_removed : list string }.
#[export] Instance disk_fields : Fields Disk := λ d,
  mkDisk d.(dk_downloads) d.(dk_markers) d.(dk_sends) d.(dk_shares) d.(dk_sendtos) d.(dk_preps)
    d.(dk_depositeds) d.(dk_parkeds) d.(dk_pending_shares) d.(dk_codes) d.(dk_uploads)
    d.(dk_links) d.(dk_removed).
Definition empty_disk : Disk := mkDisk ∅ ∅ ∅ ∅ ∅ ∅ ∅ ∅ ∅ ∅ ∅ ∅ [].

Definition persist_download (r : DownloadRecord) (d : Disk) : Disk := d <| dk_downloads ::= <[r.(dr_id) := r]> |>.
Definition load_download (id : Z) (d : Disk) : option DownloadRecord := d.(dk_downloads) !! id.
Definition mark_paused_by (id : Z) (by_ : PausedBy) (d : Disk) : Disk := d <| dk_markers ::= <[id := by_]> |>.
Definition mark_paused (id : Z) (d : Disk) : Disk := mark_paused_by id ByUser d.
Definition paused_by (id : Z) (d : Disk) : option PausedBy := d.(dk_markers) !! id.
Definition clear_paused (id : Z) (d : Disk) : Disk := d <| dk_markers ::= delete id |>.
Definition is_paused_marked (id : Z) (d : Disk) : bool := bool_decide (is_Some (d.(dk_markers) !! id)).
(** The record goes with its marker. *)
Definition remove_download (id : Z) (d : Disk) : Disk := clear_paused id (d <| dk_downloads ::= delete id |>).

Definition persist_send (r : SendRecord) (d : Disk) : Disk := d <| dk_sends ::= <[r.(sr_id) := r]> |>.
(** A file that the record owns is deleted with it. *)
Definition remove_send (id : Z) (d : Disk) : Disk :=
  let d := match d.(dk_sends) !! id ≫= sr_owned_stage with
           | Some stage => d <| dk_removed ::= cons stage |>
           | None => d
           end in
  d <| dk_sends ::= delete id |>.
Definition persist_share (id : Z) (r : ShareRecord) (d : Disk) : Disk := d <| dk_shares ::= <[id := r]> |>.
Definition load_share (id : Z) (d : Disk) : ShareRecord := default no_share (d.(dk_shares) !! id).
Definition remove_share (id : Z) (d : Disk) : Disk := d <| dk_shares ::= delete id |>.
Definition persist_sendto (r : SendToRecord) (d : Disk) : Disk := d <| dk_sendtos ::= <[r.(st_id) := r]> |>.
Definition remove_sendto (id : Z) (d : Disk) : Disk := d <| dk_sendtos ::= delete id |>.
Definition persist_prep (r : PrepRecord) (d : Disk) : Disk := d <| dk_preps ::= <[r.(pr_id) := r]> |>.
Definition load_prep (id : Z) (d : Disk) : option PrepRecord := d.(dk_preps) !! id.
Definition remove_prep (id : Z) (d : Disk) : Disk := d <| dk_preps ::= delete id |>.
Definition persist_deposited (r : DepositedRecord) (d : Disk) : Disk := d <| dk_depositeds ::= <[r.(de_id) := r]> |>.
Definition remove_deposited (id : Z) (d : Disk) : Disk := d <| dk_depositeds ::= delete id |>.
Definition persist_parked (r : ParkedRecord) (d : Disk) : Disk := d <| dk_parkeds ::= <[r.(pk_id) := r]> |>.
Definition remove_parked (id : Z) (d : Disk) : Disk := d <| dk_parkeds ::= delete id |>.
Definition persist_pending_share (r : PendingShareRecord) (d : Disk) : Disk :=
  d <| dk_pending_shares ::= <[r.(ps_id) := r]> |>.
Definition remove_pending_share (id : Z) (d : Disk) : Disk := d <| dk_pending_shares ::= delete id |>.
Definition persist_code (r : CodeRecord) (d : Disk) : Disk := d <| dk_codes ::= <[r.(cr_id) := r]> |>.
Definition remove_code (id : Z) (d : Disk) : Disk := d <| dk_codes ::= delete id |>.
Definition persist_upload_record (r : UploadRecord) (d : Disk) : Disk := d <| dk_uploads ::= <[r.(ur_id) := r]> |>.
Definition remove_upload_record (id : Z) (d : Disk) : Disk := d <| dk_uploads ::= delete id |>.
Definition persist_link (r : LinkRecord) (d : Disk) : Disk := d <| dk_links ::= <[r.(lr_id) := r]> |>.
Definition remove_link_record (id : Z) (d : Disk) : Disk := d <| dk_links ::= delete id |>.

(** ** The directory as files, for the two loaders that migrate *)

Abbreviation Dir := (gmap string bytes).

Definition record_name (prefix : string) (id : Z) : string := (prefix ++ pretty id ++ ".pc")%string.
Definition ends_with (suffix s : string) : bool := bool_decide (bytes_of suffix `suffix_of` bytes_of s).
Definition starts_with (prefix s : string) : bool := bool_decide (is_Some (after prefix s)).

(** [record_paths], in the order in which the directory lists them. *)
Definition record_paths (prefix : string) (dir : Dir) : list string :=
  filter (fun n => starts_with prefix n && ends_with ".pc" n) (map_to_list dir).*1.

(** [load_records]: what cannot be read is skipped. *)
Definition load_records {T} (decode : bytes → option T) (prefix : string) (dir : Dir) : list T :=
  omap decode (omap (fun n => dir !! n) (record_paths prefix dir)).

(** The loop both loaders run over the files of the old prefix: a record whose id is
    already known is not written again, and a file that was read is unlinked. *)
Fixpoint migrate {T} (decode : bytes → option T) (ident : T → Z) (persist : T → Dir → Dir)
    (paths : list string) (out : list T) (dir : Dir) : list T * Dir :=
  match paths with
  | [] => (out, dir)
  | path :: paths =>
      match dir !! path ≫= decode with
      | None => migrate decode ident persist paths out dir
      | Some rec =>
          if existsb (fun r => ident r =? ident rec) out
          then migrate decode ident persist paths out (delete path dir)
          else migrate decode ident persist paths (out ++ [rec]) (delete path (persist rec dir))
      end
  end.

Section sendtos.
Context `{!Wire SendToRecord, !Wire SendToRecordV3, !Wire SendToRecordV2, !Wire SendToRecordV1}.

Definition from_v3 (r : SendToRecordV3) : SendToRecord :=
  mkSendToRecord r.(s3_id) r.(s3_recipient) r.(s3_payload) r.(s3_name) r.(s3_archive)
    r.(s3_paused) r.(s3_reason) r.(s3_note) r.(s3_target) r.(s3_relay) false.
Definition from_v2 (r : SendToRecordV2) : SendToRecord :=
  mkSendToRecord r.(s2_id) r.(s2_recipient) r.(s2_payload) r.(s2_name) r.(s2_archive)
    r.(s2_paused) r.(s2_reason) r.(s2_note) r.(s2_target) None false.
Definition from_v1 (r : SendToRecordV1) : SendToRecord :=
  mkSendToRecord r.(s1_id) r.(s1_recipient) r.(s1_payload) r.(s1_name) r.(s1_archive)
    r.(s1_paused) r.(s1_reason) r.(s1_note) None None false.

Definition decode_sendto (b : bytes) : option SendToRecord :=
  match from_bytes b with
  | Some r => Some r
  | None => from_v3 <$> from_bytes b
  end.
Definition decode_legacy_sendto (b : bytes) : option SendToRecord :=
  match from_bytes b with
  | Some r => Some (from_v2 r)
  | None => from_v1 <$> from_bytes b
  end.

Definition write_sendto (r : SendToRecord) (dir : Dir) : Dir :=
  match to_allocvec r with
  | Some b => <[record_name "sendto2-" r.(st_id) := b]> dir
  | None => dir
  end.

Definition load_sendtos (dir : Dir) : list SendToRecord * Dir :=
  migrate decode_legacy_sendto st_id write_sendto (record_paths "sendto-" dir)
    (load_records decode_sendto "sendto2-" dir) dir.
End sendtos.

Section depositeds.
Context `{!Wire DepositedRecord, !Wire DepositedRecordV1}.

Definition deposited_from_v1 (r : DepositedRecordV1) : DepositedRecord :=
  mkDepositedRecord r.(d1_id) r.(d1_recipient) r.(d1_name) r.(d1_size) r.(d1_relay)
    r.(d1_claim) r.(d1_expires) r.(d1_revoke_token) r.(d1_offer_id) r.(d1_poster_token)
    r.(d1_relay).
Definition decode_legacy_deposited (b : bytes) : option DepositedRecord :=
  deposited_from_v1 <$> from_bytes b.
Definition write_deposited (r : DepositedRecord) (dir : Dir) : Dir :=
  match to_allocvec r with
  | Some b => <[record_name "dep2-" r.(de_id) := b]> dir
  | None => dir
  end.
Definition load_depositeds (dir : Dir) : list DepositedRecord * Dir :=
  migrate decode_legacy_deposited de_id write_deposited (record_paths "dep-" dir)
    (load_records from_bytes "dep2-" dir) dir.
End depositeds.
