(* ===== verification/ManagerState.v ===== *)
(** * The state of the transfer manager

    [core/src/manager/state.rs]: what [Inner] holds, with the tasks that the manager has
    spawned beside it, and the setters of [Inner].  A cancellation token is a number;
    the tokens that have been cancelled are [mg_fired].  A spawned task is filed under
    its token, so that the task of a transfer is the one whose token [mg_cancels] names. *)
From S2P Require Import Prelude.
From S2P Require Import SyncTypes.
From S2P Require Import Store.
From S2P Require Import Link.
From S2P Require Import UploadClient.
From S2P Require Import Seeds.
From S2P Require Import Tickets.
From S2P Require Import Transfers.
From S2P Require Import Records.
Local Open Scope Z_scope.

(** [flow::ReusablePrep]. *)
Record Prep := mkPrep {
  pp_key : bytes; pp_node_seed : bytes; pp_total_size : Z; pp_chunks : list Hash }.

(** [Held]: its shared flags are read through the map, where every clone points. *)
Record Held := mkHeld {
  h_recipient : PublicId;
  h_source : SendSource;
  h_name : string;
  h_archive : bool;
  h_note : string;
  h_target : option bytes;
  h_relay : option string;
  h_live_only : bool;
  h_pause_flag : bool;
  h_deposit_now : bool;
  h_attempt : option nat;
  h_prep : option Prep }.
#[export] Instance held_fields : Fields Held := λ h,
  mkHeld h.(h_recipient) h.(h_source) h.(h_name) h.(h_archive) h.(h_note) h.(h_target)
    h.(h_relay) h.(h_live_only) h.(h_pause_flag) h.(h_deposit_now) h.(h_attempt) h.(h_prep).

(** ** The tasks *)

(** [flow::SendSession], as far as its callers look at it. *)
Record Session := mkSession {
  se_ticket : string;
  se_total_size : Z;
  se_chunks : list Hash;
  se_relay : option RelayRelease;
  se_local_only : bool }.
Definition has_relay (s : Session) : bool := bool_decide (is_Some s.(se_relay)).

Record StandingOffer := mkStandingOffer { so_posted : PostedOffer; so_seen : OfferStatus }.
#[export] Instance standing_offer_fields : Fields StandingOffer := λ s,
  mkStandingOffer s.(so_posted) s.(so_seen).

(** What a relay answers to a sealed upload that it has committed
    ([flow::Deposited]), and the outcome with its offer ([DepositOutcome]). *)
Record MailboxDeposit := mkMailboxDeposit {
  md_claim : string; md_revoke_token : string; md_ticket : string; md_ttl_secs : Z }.
Record DepositOutcome := mkDepositOutcome {
  do_size : Z; do_claim : string; do_revoke_token : string; do_offer_id : string;
  do_poster_token : string; do_ticket : string; do_max : Z; do_ttl_secs : Z }.
Record ParkOutcome := mkParkOutcome {
  po_release : RelayRelease; po_chunks : list Hash; po_size : Z; po_ttl_secs : Z }.

(** [deposit_offline_and_offer] is at one of its two awaits: the upload, or the notice. *)
Inductive DepositPhase :=
| Uploading (size max : Z) (seal : MailboxSeal)
| Notifying (size max : Z) (dep : MailboxDeposit).

(** The watchdog of a live attempt and the flags that it shares with the callback. *)
Inductive Watchdog := WatchSeen (phase1 : Z) | WatchConnect (phase2 : Z) | WatchOver.
Record Serving := mkServing {
  sv_attempt : nat;
  sv_watchdog : Watchdog;
  sv_connected : bool;
  sv_delivered : bool;
  sv_recipient_cancelled : bool;
  sv_offloaded : bool;
  sv_seen_not_connected : bool }.
#[export] Instance serving_fields : Fields Serving := λ s,
  mkServing s.(sv_attempt) s.(sv_watchdog) s.(sv_connected) s.(sv_delivered)
    s.(sv_recipient_cancelled) s.(sv_offloaded) s.(sv_seen_not_connected).

(** Where [deliver_to] is. *)
Inductive DeliverPc :=
| AtStart
| AtTop
| AtPrepare (fresh : bool) (before : option PayloadStamp)
| AtOffer (session : Session)
| AtServe (session : Session) (sv : Serving)
| AtRelay (online : bool)
| AtPark
| AtDeposit (phase : DepositPhase)
| AtWait.

(** The arguments and locals of [deliver_to] and [deliver_to_inner]. *)
Record Delivery := mkDelivery {
  dl_relay : string;
  dl_recipient : PublicId;
  dl_source : SendSource;
  dl_name : string;
  dl_archive : bool;
  dl_note : string;
  dl_live_only : bool;
  dl_pc : DeliverPc;
  dl_standing : option StandingOffer;
  dl_too_big : bool;
  dl_told_for_them : bool;
  dl_offloaded : bool;
  dl_next_relay_try : Z;
  dl_give_up_at : Z;
  dl_deposit_deadline : Z;
  dl_beacon_ever_alive : bool;
  dl_live_backoff : Z;
  dl_next_live_try : Z;
  dl_proven_present : bool;
  dl_local_only : bool }.
#[export] Instance delivery_fields : Fields Delivery := λ d,
  mkDelivery d.(dl_relay) d.(dl_recipient) d.(dl_source) d.(dl_name) d.(dl_archive) d.(dl_note)
    d.(dl_live_only) d.(dl_pc) d.(dl_standing) d.(dl_too_big) d.(dl_told_for_them)
    d.(dl_offloaded) d.(dl_next_relay_try) d.(dl_give_up_at) d.(dl_deposit_deadline)
    d.(dl_beacon_ever_alive) d.(dl_live_backoff) d.(dl_next_live_try) d.(dl_proven_present)
    d.(dl_local_only).

(** The other tasks: a fetch, a link upload, an explicit deposit, a share and its code, a
    watcher of a deposit or of parked pieces, a withdrawal. *)
Inductive FetchPc := FetchStart | FetchRunning (transferred : Z) | FetchOffline.
Record Fetch := mkFetch {
  fe_ticket : string; fe_out_path : string; fe_peer : option PublicId;
  fe_password : option string; fe_pc : FetchPc }.
#[export] Instance fetch_fields : Fields Fetch := λ f,
  mkFetch f.(fe_ticket) f.(fe_out_path) f.(fe_peer) f.(fe_password) f.(fe_pc).

(** An upload loop is at its head, in an attempt, or pausing between two. *)
Inductive RunPc (P : Type) := RunReady | RunIn (attempt : P) | RunPausing.
Arguments RunReady {_}.
Arguments RunIn {_} _.
Arguments RunPausing {_}.

Record LinkRun := mkLinkRun {
  lk_source : SendSource; lk_relay : string; lk_ttl : Z; lk_max : Z;
  lk_pc : RunPc LinkSeal; lk_pause : Z }.
#[export] Instance link_run_fields : Fields LinkRun := λ l,
  mkLinkRun l.(lk_source) l.(lk_relay) l.(lk_ttl) l.(lk_max) l.(lk_pc) l.(lk_pause).

Record DepositRun := mkDepositRun {
  dp_deposit_relay : string; dp_offer_relay : string; dp_recipient : PublicId;
  dp_payload : SendSource; dp_name : string; dp_note : string; dp_opts : MailboxOpts;
  dp_pc : RunPc DepositPhase; dp_pause : Z }.
#[export] Instance deposit_run_fields : Fields DepositRun := λ d,
  mkDepositRun d.(dp_deposit_relay) d.(dp_offer_relay) d.(dp_recipient) d.(dp_payload)
    d.(dp_name) d.(dp_note) d.(dp_opts) d.(dp_pc) d.(dp_pause).

Inductive SharePc :=
| SharePreparing
| ShareResuming
| ShareServing (total last_progress : Z) (delivered : bool).
(** [PendingCode]: a claimed code that waits for its share to be prepared. *)
Record PendingCode := mkPendingCode { pcd_record : PendingCodeRecord; pcd_restored : bool }.
Record Share := mkShare { sh_payload : SendSource; sh_code : option PendingCode; sh_pc : SharePc }.
#[export] Instance share_fields : Fields Share := λ s, mkShare s.(sh_payload) s.(sh_code) s.(sh_pc).

(** A hosted pairing code; its token is a child of the transfer's. *)
Inductive CodePc := CodeReattaching | CodeReclaiming | CodeHosting.
Record CodeRun := mkCodeRun { cd_rec : CodeRecord; cd_parent : option nat; cd_pc : CodePc }.
#[export] Instance code_run_fields : Fields CodeRun := λ c, mkCodeRun c.(cd_rec) c.(cd_parent) c.(cd_pc).

Inductive Watched := WatchBlob (relay claim : string) | WatchPieces (relay : string) (chunks : list Hash).
Record Watch := mkWatch {
  wt_what : Watched;
  wt_offer_relay : string;
  wt_verdict_at : Z;
  wt_offer : option (PublicId * string * string);
  wt_delay : Z }.
#[export] Instance watch_fields : Fields Watch := λ w,
  mkWatch w.(wt_what) w.(wt_offer_relay) w.(wt_verdict_at) w.(wt_offer) w.(wt_delay).

Inductive Withdrawal := WithdrawBlob (r : option DepositedRecord) | WithdrawPieces (r : option ParkedRecord).

Inductive Task :=
| TaskDeliver (id : Z) (d : Delivery)
| TaskFetch (id : Z) (f : Fetch)
| TaskLink (id : Z) (l : LinkRun)
| TaskDeposit (id : Z) (d : DepositRun)
| TaskShare (id : Z) (s : Share)
| TaskWatch (id : Z) (w : Watch)
| TaskWithdraw (id : Z) (w : Withdrawal)
| TaskCode (id : Z) (c : CodeRun).

Definition task_id (t : Task) : Z :=
  match t with
  | TaskDeliver id _ | TaskFetch id _ | TaskLink id _ | TaskDeposit id _ | TaskShare id _
  | TaskWatch id _ | TaskWithdraw id _ | TaskCode id _ => id
  end.
(** A task that owns the ending of its transfer; the others follow a deposit or a code. *)
Definition is_driver (t : Task) : bool :=
  match t with TaskWatch _ _ | TaskWithdraw _ _ | TaskCode _ _ => false | _ => true end.

(** What leaves the machine beside the payload itself. *)
Inductive NetCall :=
| NetAck (offer_id : string)
| NetPostOffer (relay : string) (recipient : PublicId) (offer : Offer) (ttl : option Z)
| NetRetract (relay : string) (recipient : PublicId) (id poster_token : string)
| NetUpload (relay : string) (id : Z)
| NetSeed (relay : string) (id : Z)
| NetRevoke (relay claim revoke_token : string)
| NetRevokeSeeded (relay token : string)
| NetAbandon (s : UploadSession)
| NetCloseSlot (relay slot : string).

(** ** [Inner] *)

Record Manager := mkManager {
  mg_next_id : Z;
  mg_transfers : gmap Z Transfer;
  mg_cancels : gmap Z nat;
  mg_recv_aborts : gmap Z bool;
  mg_deferred_acks : gmap Z string;
  mg_held : gmap Z Held;
  mg_download_content : gmap Z string;
  mg_pending : gmap string ReceivedOffer;
  mg_uploads : gmap Z Resumable;
  mg_disk : option Disk;
  mg_events : list ManagerEvent;
  mg_net : list NetCall;
  mg_tasks : gmap nat Task;
  mg_fired : gset nat;
  mg_next_task : nat }.
#[export] Instance manager_fields : Fields Manager := λ m,
  mkManager m.(mg_next_id) m.(mg_transfers) m.(mg_cancels) m.(mg_recv_aborts)
    m.(mg_deferred_acks) m.(mg_held) m.(mg_download_content) m.(mg_pending) m.(mg_uploads)
    m.(mg_disk) m.(mg_events) m.(mg_net) m.(mg_tasks) m.(mg_fired) m.(mg_next_task).

(** What is fixed when the manager is built, and the environment variables. *)
Record Config := mkConfig {
  cf_relay : option string;
  cf_download_dir : string;
  cf_display_name : string;
  cf_device_id : option bytes;
  cf_has_publisher : bool;
  cf_p2p : bool;
  cf_seeding : bool;
  cf_deposit_after : option Z;
  cf_share_copies : option Z;
  cf_share_days : option Z }.

(** [with_state_dir]. *)
Definition new_manager (disk : option Disk) : Manager :=
  mkManager 1 ∅ ∅ ∅ ∅ ∅ ∅ ∅ ∅ disk [] [] ∅ ∅ 0.

Definition emit (ev : ManagerEvent) (m : Manager) : Manager := m <| mg_events ::= cons ev |>.
Definition net (c : NetCall) (m : Manager) : Manager := m <| mg_net ::= cons c |>.
Definition with_disk (f : Disk → Disk) (m : Manager) : Manager := m <| mg_disk ::= fmap f |>.
(** [if let Some(t) = transfers.get_mut(&id)]. *)
Definition upd_row (id : Z) (f : Transfer → Transfer) (m : Manager) : Manager :=
  m <| mg_transfers ::= alter f id |>.
Definition upd_held (id : Z) (f : Held → Held) (m : Manager) : Manager := m <| mg_held ::= alter f id |>.

(** [CancellationToken::new], [cancel] and [is_cancelled]; [tokio::spawn]; the end of a task. *)
Definition new_token (m : Manager) : nat * Manager := (m.(mg_next_task), m <| mg_next_task ::= S |>).
Definition fire (tok : nat) (m : Manager) : Manager := m <| mg_fired ::= union {[tok]} |>.
Definition is_cancelled (tok : nat) (m : Manager) : bool := bool_decide (tok ∈ m.(mg_fired)).
Definition spawn (tok : nat) (t : Task) (m : Manager) : Manager := m <| mg_tasks ::= <[tok := t]> |>.
Definition spawn_detached (t : Task) (m : Manager) : Manager :=
  let '(tok, m) := new_token m in spawn tok t m.
Definition end_task (tok : nat) (m : Manager) : Manager := m <| mg_tasks ::= delete tok |>.

(** ** The setters *)

Definition clear_waiting_code (t : Transfer) : Transfer :=
  match t.(tr_status) with
  | Waiting _ => t
  | _ => t <| tr_waiting_code := ""%string |> <| tr_waiting_detail := ""%string |>
  end.
Definition set_status (id : Z) (s : TransferStatus) (m : Manager) : Manager :=
  (upd_row id (fun t => clear_waiting_code (t <| tr_status := s |>)) m) <| mg_cancels ::= delete id |>.
Definition set_status_live (id : Z) (s : TransferStatus) (m : Manager) : Manager :=
  upd_row id (fun t => clear_waiting_code (t <| tr_status := s |>)) m.
Definition fail (id : Z) (reason : FailReason) (m : Manager) : Manager :=
  let m := set_status id (Failed (fail_text reason)) m in
  let m := upd_row id (fun t => t <| tr_fail_code := fail_code reason |>
                                  <| tr_fail_detail := default ""%string (fail_detail reason) |>) m in
  emit (EvFailed id (fail_text reason) (fail_code reason)) m.
Definition set_waiting_code (id : Z) (code detail : string) (m : Manager) : Manager :=
  upd_row id (fun t => t <| tr_waiting_code := code |> <| tr_waiting_detail := detail |>) m.
Definition set_path (id : Z) (path : string) (m : Manager) : Manager :=
  upd_row id (fun t => t <| tr_path := Some path |>) m.
Definition set_saved_uri (id : Z) (uri : string) (m : Manager) : Manager :=
  upd_row id (fun t => t <| tr_saved_uri := Some uri |>) m.
Definition set_offer_status (id : Z) (s : string) (m : Manager) : Manager :=
  upd_row id (fun t => t <| tr_offer_status := s |>) m.
Definition set_progress (id transferred : Z) (m : Manager) : Manager :=
  upd_row id (fun t => t <| tr_transferred := transferred |>) m.
Definition set_ticket (id : Z) (ticket : string) (m : Manager) : Manager :=
  upd_row id (fun t => t <| tr_ticket := if decide (ticket = ""%string) then None else Some ticket |>) m.
Definition set_link (id : Z) (link : string) (m : Manager) : Manager :=
  upd_row id (fun t => t <| tr_link := Some link |>) m.
Definition set_peer (id : Z) (peer : PublicId) (m : Manager) : Manager :=
  upd_row id (fun t => t <| tr_peer := Some peer |>) m.
Definition set_swarm (id peers from_peers : Z) (m : Manager) : Manager :=
  upd_row id (fun t => t <| tr_swarm_peers := peers |> <| tr_pieces_from_peers := from_peers |>) m.
Definition set_download_peers (id count : Z) (m : Manager) : Manager :=
  upd_row id (fun t => t <| tr_download_peers := count |>) m.
Definition set_code (id : Z) (code : option string) (m : Manager) : Manager :=
  upd_row id (fun t => t <| tr_code := code |>) m.
Definition set_share_stats (id : Z) (rec : ShareRecord) (m : Manager) : Manager :=
  upd_row id (fun t => t <| tr_share := rec |>) m.
Definition share_stats (id : Z) (m : Manager) : ShareRecord :=
  match m.(mg_transfers) !! id with Some t => t.(tr_share) | None => no_share end.
Definition add_bytes_served (id b : Z) (m : Manager) : Manager :=
  upd_row id (fun t => t <| tr_share ::= fun s => s <| sh_bytes_served ::= fun n => sat_add n b |> |>) m.
Definition record_pickup (id at_ : Z) (m : Manager) : Manager :=
  upd_row id (fun t => t <| tr_share ::= fun s =>
    s <| sh_copies_served ::= fun n => sat_add n 1 |> <| sh_last_pickup := at_ |> |>) m.
Definition persist_share_stats (id : Z) (m : Manager) : Manager :=
  with_disk (Records.persist_share id (share_stats id m)) m.

(** ** What a download is fetching *)

Section content.
Context {A : Type} `{!Base32Text, !Wire (ChunkTicket A), !Blake3Hash, !HexLower}.

(** The content id of a ticket that decodes. *)
Definition ticket_content (ticket : string) : option string :=
  content_id <$> result_ok (@ticket_decode _ A _ ticket).

Definition note_download_content (id : Z) (ticket : string) (m : Manager) : Manager :=
  match ticket_content ticket with
  | Some c => m <| mg_download_content ::= <[id := c]> |>
  | None => m
  end.

(** A live download first, a paused one only if there is no live one. *)
Definition download_rank (s : TransferStatus) : option Z :=
  match s with
  | Active | Preparing | Waiting _ => Some 0
  | Paused _ => Some 1
  | _ => None
  end.
Definition same_peer (from peer : option PublicId) : bool :=
  match from, peer with Some f, Some p => bool_decide (f = p) | _, _ => true end.
Definition rank_of (from : option PublicId) (id : Z) (m : Manager) : option Z :=
  t ← m.(mg_transfers) !! id;
  if same_peer from t.(tr_peer) then download_rank t.(tr_status) else None.
Definition rank_lt (p q : Z * Z) : bool := (p.1 <? q.1) || (p.1 =? q.1) && (p.2 <? q.2).
Definition better_download (from : option PublicId) (m : Manager) (best : option (Z * Z)) (id : Z)
    : option (Z * Z) :=
  match rank_of from id m with
  | None => best
  | Some rank =>
      match best with
      | None => Some (rank, id)
      | Some b => if rank_lt (rank, id) b then Some (rank, id) else best
      end
  end.
Definition download_of_same_content (ticket : string) (from : option PublicId) (m : Manager) : option Z :=
  match ticket_content ticket with
  | None => None
  | Some want =>
      let ids := (filter (fun p => p.2 = want) (map_to_list m.(mg_download_content))).*1 in
      snd <$> foldl (better_download from m) None ids
  end.

Definition take_offers_for_same_content (ticket : string) (m : Manager) : list string * Manager :=
  match ticket_content ticket with
  | None => ([], m)
  | Some want =>
      let ghosts := (filter (fun p => ticket_content p.2.(ro_offer).(of_ticket) = Some want)
                       (map_to_list m.(mg_pending))).*1 in
      (ghosts, m <| mg_pending ::= fun p => foldl (fun p id => delete id p) p ghosts |>)
  end.
End content.
