(* ===== verification/Manager.v ===== *)
(** * The transfer manager: the list and its operations

    The operations of [TransferManager] ([core/src/manager/mod.rs]) that a front end
    calls, with the helpers of [core/src/manager/work.rs] and
    [core/src/manager/uploads.rs] that they and the tasks share.  An operation returns
    its answer and the manager after it; what it spawns is in [mg_tasks], what it
    announces in [mg_events].  Sending and receiving are in [Delivery], [Uploading] and
    [Receiving], starting again in [Restart]. *)
From S2P Require Import Prelude.
From S2P Require Import SyncTypes.
From S2P Require Import Store.
From S2P Require Import Link.
From S2P Require Import UploadClient.
From S2P Require Import Seeds.
From S2P Require Import Tickets.
From S2P Require Import Transfers.
From S2P Require Import Records.
From S2P Require Import ManagerState.
Local Open Scope Z_scope.
Local Open Scope arvolo_scope.

Definition MAX_FINISHED_RETAINED : nat := 512.

(** What the file system answers about a payload: its stamp, its length. *)
Record Fs := mkFs {
  fs_stamp : string → option PayloadStamp; fs_len : SendSource → result Z Error }.
(** [source.len().unwrap_or(0)]. *)
Definition source_size (fs : Fs) (s : SendSource) : Z :=
  match fs.(fs_len) s with Ok n => n | Err _ => 0 end.

(** ** Rows *)

(** [prune_finished]: the lowest finished ids go, down to [keep] of them. *)
Definition finished_ids (rows : gmap Z Transfer) : list Z :=
  merge_sort Z.le (filter (fun p => is_terminal p.2.(tr_status)) (map_to_list rows)).*1.
Definition prune_finished (keep : nat) (rows : gmap Z Transfer) : gmap Z Transfer :=
  let finished := finished_ids rows in
  if (length finished <=? keep)%nat then rows
  else foldl (fun rows id => delete id rows) rows (take (length finished - keep) finished).

Definition new_row (id now : Z) (direction : Direction) (peer : option PublicId) (name : string)
    (total_size : Z) : Transfer :=
  mkTransfer id direction peer name total_size 0 Active 0 0 0 now None no_share "" "" None None
    "" "" "" "" None None false.

(** [register]: the id is a counter; its 2^64 values are not exhausted in a run. *)
Definition register (now : Z) (direction : Direction) (peer : option PublicId) (name : string)
    (total_size : Z) (m : Manager) : Z * nat * Manager :=
  let id := m.(mg_next_id) in
  let m := m <| mg_next_id := id + 1 |> in
  let '(tok, m) := new_token m in
  let m := m <| mg_transfers ::= fun rows => prune_finished MAX_FINISHED_RETAINED
                  (<[id := new_row id now direction peer name total_size]> rows) |> in
  let m := m <| mg_cancels ::= <[id := tok]> |> in
  (id, tok, emit (EvStarted id direction name total_size) m).

Definition adopt_finished (row : FinishedRow) (m : Manager) : option Z * Manager :=
  if negb (is_terminal row.(fr_status)) then (None, m)
  else
    let id := m.(mg_next_id) in
    let t := new_row id row.(fr_created) row.(fr_direction) row.(fr_peer) row.(fr_name)
               row.(fr_total_size) in
    let t := t <| tr_transferred := row.(fr_transferred) |> <| tr_status := row.(fr_status) |>
               <| tr_path := row.(fr_path) |> <| tr_saved_uri := row.(fr_saved_uri) |> in
    let m := m <| mg_next_id := id + 1 |> in
    (Some id, m <| mg_transfers ::= fun rows => prune_finished MAX_FINISHED_RETAINED (<[id := t]> rows) |>).

(** [clear_finished]: what it keeps is listed. *)
Definition clear_keeps (s : TransferStatus) : bool :=
  match s with Active | Deposited | Waiting _ | Paused _ => true | _ => false end.
Definition clear_finished (m : Manager) : nat * Manager :=
  let before := size m.(mg_transfers) in
  let m := m <| mg_transfers ::= filter (fun p => clear_keeps p.2.(tr_status)) |> in
  let cleared := (before - size m.(mg_transfers))%nat in
  (cleared, if (0 <? cleared)%nat then emit EvFinishedCleared m else m).

Definition remove (id : Z) (m : Manager) : bool * Manager :=
  match m.(mg_transfers) !! id with
  | Some t => if is_terminal t.(tr_status) then (true, m <| mg_transfers ::= delete id |>) else (false, m)
  | None => (false, m)
  end.

Definition get (id : Z) (m : Manager) : option Transfer := m.(mg_transfers) !! id.

(** [pausable]: running, and something to come back to. *)
Definition has_download_record (id : Z) (m : Manager) : bool :=
  match m.(mg_disk) with Some d => bool_decide (is_Some (load_download id d)) | None => false end.
Definition pausable (id : Z) (direction : Direction) (s : TransferStatus) (m : Manager) : bool :=
  is_live s &&
  (bool_decide (is_Some (m.(mg_held) !! id)) ||
   bool_decide (direction = Recv) && has_download_record id m).

(** [list]: newest first, with [can_pause] answered on the spot. *)
Definition newest_first (t u : Transfer) : Prop := u.(tr_id) <= t.(tr_id).
#[export] Instance newest_first_dec : RelDecision newest_first := fun t u => Z.le_dec _ _.
Definition list_transfers (m : Manager) : list Transfer :=
  merge_sort newest_first
    ((fun t => t <| tr_can_pause := pausable t.(tr_id) t.(tr_direction) t.(tr_status) m |>)
       <$> (map_to_list m.(mg_transfers)).*2).

(** ** Uploads ([uploads.rs]) *)

Definition restorable (id : Z) (m : Manager) : bool :=
  bool_decide (is_Some (m.(mg_held) !! id)) ||
  match m.(mg_disk) with Some d => bool_decide (is_Some (d.(dk_links) !! id)) | None => false end.

Definition persist_upload (fs : Fs) (id : Z) (r : Resumable) (source : SendSource) (m : Manager) : Manager :=
  match source with
  | SourceHandle _ _ => m
  | SourcePath path =>
      if negb (restorable id m) then m
      else
        match fs.(fs_stamp) path with
        | None => m
        | Some stamp =>
            with_disk (persist_upload_record (mkUploadRecord id r.(rs_seal) r.(rs_session) path stamp)) m
        end
  end.

Definition abandon (s : option UploadSession) (m : Manager) : Manager :=
  match s with Some s => net (NetAbandon s) m | None => m end.

Definition take_upload_record (fs : Fs) (old_id : Z) (payload : string) (m : Manager)
    : option Resumable * Manager :=
  match m.(mg_disk) with
  | None => (None, m)
  | Some d =>
      let rec := d.(dk_uploads) !! old_id in
      let m := with_disk (remove_upload_record old_id) m in
      match rec with
      | None => (None, m)
      | Some rec =>
          if decide (rec.(ur_payload) = payload ∧ fs.(fs_stamp) payload = Some rec.(ur_stamp))
          then (Some (mkResumable rec.(ur_seal) rec.(ur_session)), m)
          else (None, abandon rec.(ur_session) m)
      end
  end.

Definition sweep_upload_records (m : Manager) : Manager :=
  match m.(mg_disk) with
  | None => m
  | Some d =>
      foldl (fun m rec => abandon rec.(ur_session) (with_disk (remove_upload_record rec.(ur_id)) m))
        m (map_to_list d.(dk_uploads)).*2
  end.

Definition remember (fs : Fs) (id : Z) (r : Resumable) (source : SendSource) (m : Manager) : Manager :=
  persist_upload fs id r source m <| mg_uploads ::= <[id := r]> |>.
Definition forget (id : Z) (abandoned : bool) (m : Manager) : Manager :=
  let r := m.(mg_uploads) !! id in
  let m := with_disk (remove_upload_record id) (m <| mg_uploads ::= delete id |>) in
  if abandoned then abandon (r ≫= rs_session) m else m.
Definition session_changed (fs : Fs) (id : Z) (s : option UploadSession) (source : SendSource) (m : Manager)
    : Manager :=
  match m.(mg_uploads) !! id with
  | None => m
  | Some r =>
      let r := r <| rs_session := s |> in
      persist_upload fs id r source (m <| mg_uploads ::= <[id := r]> |>)
  end.

(** [report_progress]: bytes of the sealed layout as bytes of the file, in [u128]. *)
Definition plain_progress (cipher cipher_len plain_len : Z) : Z :=
  if cipher_len =? 0 then 0 else Z.min cipher cipher_len * plain_len / cipher_len.
Definition report_progress (id cipher cipher_len plain_len : Z) (m : Manager) : Manager :=
  let plain := plain_progress cipher cipher_len plain_len in
  emit (EvProgress id plain plain_len) (set_progress id plain m).

(** [mailbox_seal]: the seal the transfer already has, when the payload is still the
    size it was sealed at; [fresh] is what [MailboxSeal::new] yields. *)
Definition mailbox_seal (fs : Fs) (id : Z) (source : SendSource) (fresh : result MailboxSeal Error)
    (m : Manager) : result (MailboxSeal * option UploadSession) Error * Manager :=
  match fs.(fs_len) source with
  | Err e => (Err e, m)
  | Ok size =>
      let kept :=
        match m.(mg_uploads) !! id with
        | Some (mkResumable (SealMailbox seal) session) => Some (seal, session)
        | _ => None
        end in
      let renew m :=
        match fresh with
        | Err e => (Err e, m)
        | Ok seal => (Ok (seal, None), remember fs id (mkResumable (SealMailbox seal) None) source m)
        end in
      match kept with
      | Some (seal, session) =>
          if seal.(ms_size) =? size then (Ok (seal, session), m) else renew (forget id true m)
      | None => renew m
      end
  end.

(** ** Holding and ending ([work.rs]) *)

Definition held_record (id : Z) (paused : bool) (reason : string) (h : Held) : SendToRecord :=
  mkSendToRecord id h.(h_recipient) (source_label h.(h_source)) h.(h_name) h.(h_archive) paused
    reason h.(h_note) h.(h_target) h.(h_relay) h.(h_live_only).
Definition persist_held_record (id : Z) (paused : bool) (reason : string) (m : Manager) : Manager :=
  match m.(mg_held) !! id with
  | Some h => with_disk (persist_sendto (held_record id paused reason h)) m
  | None => m
  end.

Definition drop_held (id : Z) (m : Manager) : Manager :=
  with_disk (fun d => remove_prep id (remove_sendto id d)) (m <| mg_held ::= delete id |>).

(** [finish]. *)
Definition finish (id : Z) (cancelled : bool) (res : result (option string) Error) (m : Manager) : Manager :=
  let m := with_disk (fun d => remove_pending_share id (remove_share id (remove_send id
             (remove_download id d)))) m in
  let m := forget id true (drop_held id m) in
  let m := m <| mg_download_content ::= delete id |> in
  match res with
  | Ok path =>
      if cancelled then emit (EvCancelled id) (set_status id Cancelled m)
      else
        let m := match path with Some p => set_path id p m | None => m end in
        emit (EvCompleted id path) (set_status id Completed m)
  | Err e => fail id (classify e) m
  end.

Definition set_waiting (id : Z) (reason : WaitingReason) (m : Manager) : Manager :=
  let text := waiting_text reason in
  let detail := default ""%string (waiting_detail reason) in
  let m := set_waiting_code id (waiting_code reason) detail (set_status_live id (Waiting text) m) in
  let offer_status := match m.(mg_transfers) !! id with Some t => t.(tr_offer_status) | None => ""%string end in
  emit (EvWaiting id text (waiting_code reason) detail offer_status) m.

Definition set_offer_status_live (id : Z) (offer_status : string) (m : Manager) : Manager :=
  let m := set_offer_status id offer_status m in
  match m.(mg_transfers) !! id with
  | Some t =>
      match t.(tr_status) with
      | Waiting r => emit (EvWaiting id r t.(tr_waiting_code) t.(tr_waiting_detail) offer_status) m
      | _ => m
      end
  | None => m
  end.

Definition set_paused (id : Z) (reason : string) (m : Manager) : Manager :=
  emit (EvPaused id reason) (set_status id (Paused reason) (persist_held_record id true reason m)).

(** [handle_stop]: the flag is read through the held entry. *)
Definition pause_asked (id : Z) (m : Manager) : bool :=
  match m.(mg_held) !! id with Some h => h.(h_pause_flag) | None => false end.
Definition handle_stop (id : Z) (m : Manager) : Manager :=
  if pause_asked id m then set_paused id "paused" m else finish id true (Ok None) m.

(** ** Cancelling, pausing, resuming *)

(** [cancel]. *)
Definition cancel (id : Z) (m : Manager) : bool * Manager :=
  match m.(mg_transfers) !! id with
  | None => (false, m)
  | Some t =>
      match t.(tr_status) with
      | Completed | Cancelled | Failed _ => (true, m)
      | Paused _ => (true, finish id true (Ok None) m)
      | Deposited =>
          let what :=
            match m.(mg_disk) with
            | None => WithdrawBlob None
            | Some d =>
                match d.(dk_parkeds) !! id with
                | Some rec => WithdrawPieces (Some rec)
                | None => WithdrawBlob (d.(dk_depositeds) !! id)
                end
            end in
          (true, spawn_detached (TaskWithdraw id what) m)
      | Active | Preparing | Waiting _ =>
          match m.(mg_cancels) !! id with
          | Some tok => (true, fire tok m)
          | None => (true, finish id true (Ok None) m)
          end
      end
  end.

Definition fire_row (id : Z) (m : Manager) : Manager :=
  match m.(mg_cancels) !! id with Some tok => fire tok m | None => m end.

(** [deposit_now]. *)
Definition deposit_now (id : Z) (m : Manager) : bool * Manager :=
  let waiting :=
    match m.(mg_transfers) !! id with
    | Some t => bool_decide (t.(tr_direction) = Send) &&
                match t.(tr_status) with Waiting _ | Preparing => true | _ => false end
    | None => false
    end in
  if negb waiting then (false, m)
  else
    match m.(mg_held) !! id with
    | None => (false, m)
    | Some h =>
        let m := upd_held id (fun h => h <| h_deposit_now := true |>) m in
        (true, match h.(h_attempt) with Some c => fire c m | None => m end)
    end.

(** [pause]. *)
Definition pause (id : Z) (m : Manager) : bool * Manager :=
  match m.(mg_transfers) !! id with
  | None => (false, m)
  | Some t =>
      if negb (pausable id t.(tr_direction) t.(tr_status) m) then (false, m)
      else if bool_decide (is_Some (m.(mg_held) !! id)) then
        (true, fire_row id (upd_held id (fun h => h <| h_pause_flag := true |>) m))
      else if bool_decide (t.(tr_direction) = Recv) && has_download_record id m then
        let m := with_disk (mark_paused id) m in
        let m := m <| mg_recv_aborts ::= alter (fun _ => false) id |> in
        (true, fire_row id m)
      else (false, m)
  end.

Definition emit_progress_now (id : Z) (m : Manager) : Manager :=
  match m.(mg_transfers) !! id with
  | Some t => emit (EvProgress id t.(tr_transferred) t.(tr_total_size)) m
  | None => m
  end.

(** A delivery loop that has not started, a fetch that has not started. *)
Definition new_delivery (relay : string) (h : Held) : Delivery :=
  mkDelivery relay h.(h_recipient) h.(h_source) h.(h_name) h.(h_archive) h.(h_note)
    h.(h_live_only) AtStart None false false false 0 0 0 false 0 0 false false.
Definition spawn_receive (id : Z) (ticket out_path : string) (peer : option PublicId) (tok : nat)
    (password : option string) (m : Manager) : Manager :=
  spawn tok (TaskFetch id (mkFetch ticket out_path peer password FetchStart)) m.

Section with_config.
Context (cf : Config).

(** [resume]. *)
Definition rearm (id : Z) (m : Manager) : nat * Manager :=
  let '(tok, m) := new_token m in
  let m := m <| mg_cancels ::= <[id := tok]> |> in
  (tok, emit_progress_now id (set_status_live id Active m)).
Definition resume (id : Z) (m : Manager) : bool * Manager :=
  let paused := match m.(mg_transfers) !! id with Some t => is_paused t.(tr_status) | None => false end in
  if negb paused then (false, m)
  else
    let held := m.(mg_held) !! id in
    let route := match held ≫= h_relay with Some r => Some r | None => cf.(cf_relay) end in
    match held, route with
    | Some h, Some relay =>
        let m := upd_held id (fun h => h <| h_pause_flag := false |>) m in
        let '(tok, m) := rearm id m in
        let m := persist_held_record id false "" m in
        (true, spawn tok (TaskDeliver id (new_delivery relay h)) m)
    | _, _ =>
        match m.(mg_disk) ≫= load_download id with
        | Some rec =>
            let m := with_disk (clear_paused id) m in
            let '(tok, m) := rearm id m in
            (true, spawn_receive id rec.(dr_ticket) rec.(dr_out_path) None tok None m)
        | None => (false, m)
        end
    end.

(** ** Starting to send *)

(** [send_to]; [None] is the refusal for want of a relay. *)
Definition new_held (recipient : PublicId) (source : SendSource) (name : string) (archive : bool)
    (note : string) (target : option bytes) (relay : option string) (live_only : bool)
    (prep : option Prep) : Held :=
  mkHeld recipient source name archive note target relay live_only false false None prep.
Definition send_to (fs : Fs) (now : Z) (recipient : PublicId) (source : SendSource) (name : string)
    (archive : bool) (note : string) (target : option bytes) (live_only : bool)
    (theirs : option string) (m : Manager) : option Z * Manager :=
  match (match theirs with Some r => Some r | None => cf.(cf_relay) end) with
  | None => (None, m)
  | Some relay =>
      let '(id, tok, m) := register now Send (Some recipient) name (source_size fs source) m in
      let h := new_held recipient source name archive note target theirs live_only None in
      let m := m <| mg_held ::= <[id := h]> |> in
      let m := persist_held_record id false "" m in
      (Some id, spawn tok (TaskDeliver id (new_delivery relay h)) m)
  end.

(** [start_deposit]. *)
Definition FIRST_PAUSE : Z := 10.
Definition next_pause (p : Z) : Z := Z.min (p * 2) 300.
Definition start_deposit (fs : Fs) (now : Z) (recipient : PublicId) (payload : SendSource)
    (name note : string) (opts : MailboxOpts) (relay : option string) (m : Manager)
    : option Z * Manager :=
  match (match cf.(cf_relay) with Some r => Some r | None => relay end) with
  | None => (None, m)
  | Some deposit_relay =>
      let offer_relay :=
        match relay with
        | Some r => r
        | None => match cf.(cf_relay) with Some r => r | None => deposit_relay end
        end in
      let '(id, tok, m) := register now Send (Some recipient) name (source_size fs payload) m in
      (Some id, spawn tok (TaskDeposit id
         (mkDepositRun deposit_relay offer_relay recipient payload name note opts RunReady FIRST_PAUSE)) m)
  end.

(** [create_link]; [fresh] is what [LinkSeal::new] yields. *)
Definition create_link (fs : Fs) (now : Z) (source : SendSource) (fresh : result LinkSeal Error)
    (ttl max : Z) (m : Manager) : result Z Error * Manager :=
  match cf.(cf_relay) with
  | None => (Err (err_msg "no relay configured — links need a relay"), m)
  | Some relay =>
      match fresh with
      | Err e => (Err e, m)
      | Ok seal =>
          let '(id, tok, m) := register now Send None seal.(ls_name) seal.(ls_size) m in
          let m := with_disk (persist_link (mkLinkRecord id (source_label source) relay ttl max)) m in
          let m := remember fs id (mkResumable (SealLink seal) None) source m in
          (Ok id, spawn tok (TaskLink id (mkLinkRun source relay ttl max RunReady FIRST_PAUSE)) m)
      end
  end.

(** [start_share]. *)
Definition start_share (fs : Fs) (now : Z) (payload : SendSource) (name : string) (archive : bool)
    (seed_relay : option string) (code : option PendingCode) (m : Manager) : Z * Manager :=
  let '(id, tok, m) := register now Send None name (source_size fs payload) m in
  let m := emit (EvPreparing id) (set_status_live id Preparing m) in
  let m := with_disk (persist_pending_share (mkPendingShareRecord id (source_label payload) name
             archive seed_relay (pcd_record <$> code))) m in
  let m := match code with Some c => set_code id (Some c.(pcd_record).(pc_shown)) m | None => m end in
  (id, spawn tok (TaskShare id (mkShare payload code SharePreparing)) m).

(** [sources_still_needed], as a set. *)
Definition sources_still_needed (m : Manager) : gset string :=
  match m.(mg_disk) with
  | None => ∅
  | Some d =>
      list_to_set ((st_payload <$> (map_to_list d.(dk_sendtos)).*2) ++
                   (sr_path <$> (map_to_list d.(dk_sends)).*2) ++
                   (pr_payload <$> (map_to_list d.(dk_preps)).*2))
  end.
End with_config.
