(* ===== verification/Watching.v ===== *)
(** * Deposits that wait to be picked up

    The part of [core/src/manager/work.rs] that follows a file left on a relay: what one
    look at it means, the two watchers, the two withdrawals, and how a send becomes a
    deposited or a parked one. *)
From S2P Require Import Prelude.
From S2P Require Import Seeds.
From S2P Require Import Tickets.
From S2P Require Import Transfers.
From S2P Require Import Records.
From S2P Require Import ManagerState.
From S2P Require Import Manager.
Local Open Scope Z_scope.

Definition OFFLINE_TTL_SECS : Z := 7 * 24 * 3600.
Definition OFFLINE_CONFIRM_POLL_SECS : Z := 3.
Definition OFFLINE_CONFIRM_POLL_MAX_SECS : Z := 15 * 60.
Definition OFFLINE_CONFIRM_MARGIN_SECS : Z := 120.
Definition OFFLINE_MAX_DOWNLOADS : Z := 1.

(** [PublicId::from_bytes] succeeds. *)
Class PublicIdParse : Type := { public_id_ok : bytes → bool }.

Inductive Verdict := PickedUp | Expired | Unknown | KeepWatching.
#[export] Instance verdict_eq_dec : EqDecision Verdict.
Proof. solve_decision. Defined.

Definition is_taken (offer : option OfferStatus) : bool := bool_decide (offer = Some OfferTaken).

Definition read_deposit (look : option ClaimInfo) (offer : option OfferStatus) (now verdict_at : Z) : Verdict :=
  if is_taken offer then PickedUp
  else
    match look with
    | Some i =>
        if match i.(ci_downloads) with Some d => 1 <=? d | None => false end then PickedUp
        else if negb i.(ci_present) then PickedUp
        else if now <? verdict_at then KeepWatching else Expired
    | None => if now <? verdict_at then KeepWatching else Unknown
    end.

Definition read_parked (held : option nat) (offer : option OfferStatus) (now verdict_at : Z) : Verdict :=
  if is_taken offer then PickedUp
  else
    match held with
    | Some O => PickedUp
    | _ => if now <? verdict_at then KeepWatching else Unknown
    end.

(** What a watcher sees in one turn: the blob or the pieces, the offer's status if it
    asks, and the clock when it reads before and after asking, and when it sleeps. *)
Record Look := mkLook {
  lo_blob : option ClaimInfo;
  lo_held : option nat;
  lo_offer : option OfferStatus;
  lo_now1 : Z;
  lo_now2 : Z;
  lo_now3 : Z }.

Definition read_watched (what : Watched) (l : Look) (offer : option OfferStatus) (now verdict_at : Z) : Verdict :=
  match what with
  | WatchBlob _ _ => read_deposit l.(lo_blob) offer now verdict_at
  | WatchPieces _ _ => read_parked l.(lo_held) offer now verdict_at
  end.

(** The offer is asked after only when the first look was inconclusive. *)
Definition asked_offer (w : Watch) (l : Look) : option OfferStatus :=
  match w.(wt_offer), read_watched w.(wt_what) l None l.(lo_now1) w.(wt_verdict_at) with
  | Some _, KeepWatching => l.(lo_offer)
  | _, _ => None
  end.
Definition watch_verdict (w : Watch) (l : Look) : Verdict :=
  read_watched w.(wt_what) l (asked_offer w l) l.(lo_now2) w.(wt_verdict_at).

(** How long a watcher sleeps, never past the verdict, and its next delay. *)
Definition watch_wait (w : Watch) (now : Z) : Z :=
  match w.(wt_what) with
  | WatchBlob _ _ => Z.max 1 (Z.min w.(wt_delay) (sat_sub w.(wt_verdict_at) now))
  | WatchPieces _ _ =>
      if w.(wt_verdict_at) <=? now then 0
      else Z.min w.(wt_delay) (Z.max 1 (sat_sub w.(wt_verdict_at) now))
  end.
Definition next_delay (w : Watch) (now : Z) : Z :=
  match w.(wt_what) with
  | WatchBlob _ _ => Z.min (sat_mul w.(wt_delay) 2) OFFLINE_CONFIRM_POLL_MAX_SECS
  | WatchPieces _ _ =>
      if w.(wt_verdict_at) <=? now then w.(wt_delay)
      else Z.min (w.(wt_delay) * 2) OFFLINE_CONFIRM_POLL_MAX_SECS
  end.

(** [retire_record] and [retire_parked]; [complete_deposit]. *)
Definition retire (what : Watched) (id : Z) (m : Manager) : Manager :=
  match what with
  | WatchBlob _ _ => with_disk (remove_deposited id) m
  | WatchPieces _ _ => with_disk (remove_parked id) m
  end.
Definition complete_deposit (what : Watched) (id : Z) (m : Manager) : Manager :=
  retire what id (emit (EvCompleted id None) (set_status id Completed m)).

(** One turn of [confirm_offline_delivery] or [confirm_parked_delivery]. *)
Definition watch_turn (tok : nat) (id : Z) (w : Watch) (l : Look) (m : Manager) : Manager :=
  let m := match asked_offer w l with
           | Some st => set_offer_status id (offer_status_as_str st) m
           | None => m
           end in
  match watch_verdict w l with
  | PickedUp => end_task tok (complete_deposit w.(wt_what) id m)
  | Expired =>
      end_task tok (retire w.(wt_what) id
        (match w.(wt_what) with WatchBlob _ _ => fail id ExpiredOnRelay m | WatchPieces _ _ => m end))
  | Unknown => end_task tok (retire w.(wt_what) id m)
  | KeepWatching =>
      spawn tok (TaskWatch id (w <| wt_delay := next_delay w l.(lo_now3) |>)) m
  end.

(** ** Withdrawing *)

Section withdraw.
Context `{!PublicIdParse}.

Definition retract_calls (recipient : bytes) (offer_relay offer_id poster_token : string) : list NetCall :=
  if bool_decide (offer_id = ""%string) || negb (public_id_ok recipient) then []
  else [NetRetract offer_relay recipient offer_id poster_token].
Definition withdraw_calls (w : Withdrawal) : list NetCall :=
  match w with
  | WithdrawBlob (Some r) =>
      (if decide (r.(de_revoke_token) = ""%string) then []
       else [NetRevoke r.(de_relay) r.(de_claim) r.(de_revoke_token)]) ++
      retract_calls r.(de_recipient) r.(de_offer_relay) r.(de_offer_id) r.(de_poster_token)
  | WithdrawPieces (Some r) =>
      NetRevokeSeeded r.(pk_relay) r.(pk_token)
        :: retract_calls r.(pk_recipient) r.(pk_offer_relay) r.(pk_offer_id) r.(pk_poster_token)
  | _ => []
  end.

(** The spawned half of [cancel_deposited] and [cancel_parked]: as many of the calls as
    are made before the timeout, then the row ends. *)
Definition withdraw_end (tok : nat) (id : Z) (w : Withdrawal) (made : nat) (m : Manager) : Manager :=
  let m := foldl (fun m c => net c m) m (take made (withdraw_calls w)) in
  let m := with_disk (match w with
             | WithdrawBlob _ => remove_deposited id | WithdrawPieces _ => remove_parked id end) m in
  end_task tok (emit (EvCancelled id) (set_status id Cancelled m)).
End withdraw.

(** ** Becoming deposited *)

Definition nonempty (s : string) : bool := negb (bool_decide (s = ""%string)).

(** [spawn_offline_confirm]. *)
Definition spawn_offline_confirm (id : Z) (relay offer_relay : string) (out : DepositOutcome)
    (expires : Z) (m : Manager) : Manager :=
  let m := set_status id Deposited (set_ticket id out.(do_ticket) (set_progress id out.(do_size) m)) in
  let row := m.(mg_transfers) !! id in
  let recipient := row ≫= tr_peer in
  let name := match row with Some t => t.(tr_name) | None => ""%string end in
  let probe :=
    match recipient with
    | Some r =>
        if nonempty out.(do_offer_id) && nonempty out.(do_poster_token)
        then Some (r, out.(do_offer_id), out.(do_poster_token)) else None
    | None => None
    end in
  let m := emit (EvDeposited id (mkDepositInfo relay out.(do_claim) out.(do_revoke_token) name
             out.(do_size) expires out.(do_max) recipient out.(do_offer_id) out.(do_poster_token)
             out.(do_ticket) None)) m in
  let m := with_disk (persist_deposited (mkDepositedRecord id (default [] recipient) name
             out.(do_size) relay out.(do_claim) expires out.(do_revoke_token) out.(do_offer_id)
             out.(do_poster_token) offer_relay)) m in
  spawn_detached (TaskWatch id (mkWatch (WatchBlob relay out.(do_claim)) offer_relay
    (sat_sub expires OFFLINE_CONFIRM_MARGIN_SECS) probe OFFLINE_CONFIRM_POLL_SECS)) m.

(** [spawn_parked_confirm]. *)
Definition spawn_parked_confirm (now : Z) (id : Z) (out : ParkOutcome) (offer : string * string)
    (offer_relay : string) (recipient : PublicId) (m : Manager) : Manager :=
  let expires := sat_add now out.(po_ttl_secs) in
  let m := set_status id Deposited (set_progress id out.(po_size) m) in
  let name := match m.(mg_transfers) !! id with Some t => t.(tr_name) | None => ""%string end in
  let '(offer_id, poster_token) := offer in
  let m := with_disk (persist_parked (mkParkedRecord id recipient name out.(po_size)
             out.(po_release).(rr_http) out.(po_release).(rr_token) out.(po_chunks) expires
             offer_id poster_token offer_relay)) m in
  let probe := if nonempty offer_id && nonempty poster_token
               then Some (recipient, offer_id, poster_token) else None in
  spawn_detached (TaskWatch id (mkWatch (WatchPieces out.(po_release).(rr_http) out.(po_chunks))
    offer_relay (sat_sub expires OFFLINE_CONFIRM_MARGIN_SECS) probe OFFLINE_CONFIRM_POLL_SECS)) m.
