(* ===== verification/Uploading.v ===== *)
(** * Putting a whole file on a relay

    [deposit_offline_and_offer] ([core/src/manager/work.rs]) and the two retry loops of
    [core/src/manager/uploads.rs], as steps between their awaits: [run_link] and
    [run_deposit]. *)
From S2P Require Import Prelude.
From S2P Require Import Link.
From S2P Require Import UploadClient.
From S2P Require Import Seeds.
From S2P Require Import Tickets.
From S2P Require Import Transfers.
From S2P Require Import Records.
From S2P Require Import ManagerState.
From S2P Require Import Manager.
From S2P Require Import Watching.
Local Open Scope Z_scope.
Local Open Scope arvolo_scope.

Section uploading.
Context (cf : Config) (fs : Fs).

(** ** One deposit *)

(** Up to the first await of [deposit_offline_and_offer]. *)
Definition deposit_begin (id : Z) (deposit_relay : string) (payload : SendSource)
    (opts : MailboxOpts) (fresh : result MailboxSeal Error) (m : Manager)
    : result DepositPhase DepositError * Manager :=
  let size := source_size fs payload in
  let max := default OFFLINE_MAX_DOWNLOADS opts.(mo_max) in
  match mailbox_seal fs id payload fresh m with
  | (Err e, m) => (Err (DepositFatal e), m)
  | (Ok (seal, _), m) => (Ok (Uploading size max seal), net (NetUpload deposit_relay id) m)
  end.

(** What the upload in flight reports, and how its awaits end. *)
Inductive DepositInput :=
| HookSession (s : option UploadSession)
| HookProgress (cipher cipher_len : Z)
| UploadEnds (r : result MailboxDeposit DepositError)
| NoticePosted (r : result PostedOffer string).

Definition worth_keeping (r : result MailboxDeposit DepositError) : option bool :=
  match r with
  | Err (DepositUnavailable _) | Err DepositBusy => None
  | Ok _ => Some false
  | Err _ => Some true
  end.

Definition deposit_notice (name note : string) (size : Z) (ticket : string) (target : option bytes) : Offer :=
  mkOffer name size 0 ticket note cf.(cf_display_name) cf.(cf_device_id) target
    (default ""%string cf.(cf_relay)).

(** One input to [deposit_offline_and_offer]: still under way, or over with a result. *)
Inductive DepositStep := DepositGoes (phase : DepositPhase) | DepositOver (r : result DepositOutcome DepositError).
Definition deposit_step (id : Z) (offer_relay : string) (recipient : PublicId) (payload : SendSource)
    (name note : string) (opts : MailboxOpts) (phase : DepositPhase) (i : DepositInput) (m : Manager)
    : option (DepositStep * Manager) :=
  match phase, i with
  | Uploading _ _ _, HookSession s => Some (DepositGoes phase, session_changed fs id s payload m)
  | Uploading _ _ seal, HookProgress cipher cipher_len =>
      Some (DepositGoes phase, report_progress id cipher cipher_len seal.(ms_size) m)
  | Uploading size max _, UploadEnds r =>
      let m := match worth_keeping r with Some abandoned => forget id abandoned m | None => m end in
      match r with
      | Err e => Some (DepositOver (Err e), m)
      | Ok dep =>
          let offer := deposit_notice name note size dep.(md_ticket) opts.(mo_target) in
          Some (DepositGoes (Notifying size max dep),
                net (NetPostOffer offer_relay recipient offer (Some dep.(md_ttl_secs))) m)
      end
  | Notifying size max dep, NoticePosted r =>
      match r with
      | Err why => Some (DepositOver (Err (DepositUnavailable ("deliver offer: " ++ why)%string)), m)
      | Ok p =>
          Some (DepositOver (Ok (mkDepositOutcome size dep.(md_claim) dep.(md_revoke_token)
            p.(po_id) p.(po_poster_token) dep.(md_ticket) max dep.(md_ttl_secs))), m)
      end
  | _, _ => None
  end.

(** ** [run_deposit] *)

(** Its task is in an attempt ([Some] phase) or pausing between two. *)
Inductive DepositEvent :=
| DepositTry (fresh : result MailboxSeal Error)
| DepositMoves (unix : Z) (i : DepositInput)
| DepositWaited
| DepositStopped.

Definition deposit_failed (tok : nat) (id : Z) (e : DepositError) (d : DepositRun) (m : Manager) : Manager :=
  match e with
  | DepositUnavailable why =>
      spawn tok (TaskDeposit id (d <| dp_pc := RunPausing |>)) (set_waiting id (UploadRetry why) m)
  | DepositBusy =>
      spawn tok (TaskDeposit id (d <| dp_pc := RunPausing |>))
        (set_waiting id (UploadRetry (deposit_error_text e)) m)
  | _ => end_task tok (finish id false (Err (err_msg (deposit_error_text e))) (forget id true m))
  end.

Definition run_deposit_step (tok : nat) (id : Z) (d : DepositRun) (e : DepositEvent) (m : Manager)
    : option Manager :=
  match d.(dp_pc), e with
  | RunReady, DepositTry fresh =>
      Some (match deposit_begin id d.(dp_deposit_relay) d.(dp_payload) d.(dp_opts) fresh m with
            | (Err e, m) => deposit_failed tok id e d m
            | (Ok phase, m) => spawn tok (TaskDeposit id (d <| dp_pc := RunIn phase |>)) m
            end)
  | RunIn phase, DepositMoves unix i =>
      '(s, m) ← deposit_step id d.(dp_offer_relay) d.(dp_recipient) d.(dp_payload) d.(dp_name)
                  d.(dp_note) d.(dp_opts) phase i m;
      Some (match s with
            | DepositGoes phase => spawn tok (TaskDeposit id (d <| dp_pc := RunIn phase |>)) m
            | DepositOver (Ok out) =>
                spawn_offline_confirm id d.(dp_deposit_relay) d.(dp_offer_relay) out
                  (sat_add unix out.(do_ttl_secs)) (end_task tok m)
            | DepositOver (Err e) => deposit_failed tok id e d m
            end)
  | RunPausing, DepositWaited =>
      Some (spawn tok (TaskDeposit id (d <| dp_pc := RunReady |> <| dp_pause ::= next_pause |>))
        (set_status_live id Active m))
  | _, DepositStopped =>
      if is_cancelled tok m then Some (end_task tok (finish id true (Ok None) (forget id true m))) else None
  | _, _ => None
  end.

(** ** [run_link] *)

Record LinkOutcome := mkLinkOutcome {
  lo_link : string; lo_claim : string; lo_revoke_token : string; lo_name : string; lo_size : Z;
  lo_ttl_secs : Z }.
(** [UploadError], with the chain of a fatal one. *)
Inductive LinkError :=
| LinkUnavailable (m : string) | LinkBusy (text : string) | LinkRefused (text : string) | LinkFatal (e : Error).
Definition worth_waiting (e : LinkError) : option string :=
  match e with LinkUnavailable m => Some m | LinkBusy text => Some text | _ => None end.
Definition link_error (e : LinkError) : Error :=
  match e with
  | LinkFatal e => e
  | LinkUnavailable text | LinkBusy text | LinkRefused text => err_msg text
  end.

Inductive LinkEvent :=
| LinkTry
| LinkHookSession (s : option UploadSession)
| LinkHookProgress (cipher cipher_len : Z)
| LinkEnds (unix : Z) (r : result LinkOutcome LinkError)
| LinkWaited
| LinkStopped.

Definition link_over (tok : nat) (id : Z) (m : Manager) : Manager :=
  end_task tok (with_disk (remove_link_record id) m).

Definition link_ready (unix : Z) (id : Z) (l : LinkRun) (out : LinkOutcome) (m : Manager) : Manager :=
  let m := set_link id out.(lo_link) (set_progress id out.(lo_size) m) in
  emit (EvLinkReady id (mkDepositInfo (trim_slashes l.(lk_relay)) out.(lo_claim)
    out.(lo_revoke_token) out.(lo_name) out.(lo_size) (sat_add unix out.(lo_ttl_secs)) l.(lk_max)
    None "" "" "" (Some out.(lo_link)))) m.

Definition run_link_step (tok : nat) (id : Z) (l : LinkRun) (e : LinkEvent) (m : Manager) : option Manager :=
  match l.(lk_pc), e with
  | RunReady, LinkTry =>
      Some (match m.(mg_uploads) !! id with
            | Some (mkResumable (SealLink seal) _) =>
                spawn tok (TaskLink id (l <| lk_pc := RunIn seal |>)) (net (NetUpload l.(lk_relay) id) m)
            | _ =>
                finish id false (Err (err_msg "the link's upload state was lost")) (link_over tok id m)
            end)
  | RunIn _, LinkHookSession s => Some (session_changed fs id s l.(lk_source) m)
  | RunIn seal, LinkHookProgress cipher cipher_len =>
      Some (report_progress id cipher cipher_len seal.(ls_size) m)
  | RunIn _, LinkEnds unix r =>
      match r with
      | Ok out =>
          let m := link_over tok id (forget id false m) in
          Some (finish id false (Ok None) (link_ready unix id l out m))
      | Err e =>
          match worth_waiting e with
          | Some why =>
              Some (spawn tok (TaskLink id (l <| lk_pc := RunPausing |>)) (set_waiting id (UploadRetry why) m))
          | None =>
              Some (finish id false (Err (link_error e)) (link_over tok id (forget id true m)))
          end
      end
  | RunPausing, LinkWaited =>
      Some (spawn tok (TaskLink id (l <| lk_pc := RunReady |> <| lk_pause ::= next_pause |>))
        (set_status_live id Active m))
  | _, LinkStopped =>
      if is_cancelled tok m then Some (finish id true (Ok None) (link_over tok id (forget id true m))) else None
  | _, _ => None
  end.
End uploading.
