(* ===== verification/Delivery.v ===== *)
(** * Delivering a held send

    [deliver_to], [deliver_to_inner], [serve_live_once] and [park_on_relay] of
    [core/src/manager/work.rs].  The loop is cut at its awaits: [dl_pc] says which one it
    is at, and [deliver_step] takes what that await yields ([DeliverEvent]) and runs to
    the next.  Between two steps of one loop anything else may happen to the manager. *)
From stdpp Require Import pretty.
From S2P Require Import Prelude.
From S2P Require Import Seeds.
From S2P Require Import Tickets.
From S2P Require Import Transfers.
From S2P Require Import Records.
From S2P Require Import ManagerState.
From S2P Require Import Manager.
From S2P Require Import Watching.
From S2P Require Import Uploading.
Local Open Scope Z_scope.
Local Open Scope arvolo_scope.

Definition LIVE_CONFIRM_SECS : Z := 12.
Definition LIVE_CONNECT_SECS : Z := 90.
Definition RELAY_RETRY_SECS : Z := 15 * 60.
Definition WAITING_POLL_SECS : Z := 15.
Definition LIVE_RETRY_MIN_SECS : Z := 30.
Definition LIVE_RETRY_MAX_SECS : Z := 5 * 60.
Definition DEPOSIT_AFTER_SECS : Z := 30 * 60.
Definition MAX_WAITING_SECS : Z := OFFLINE_TTL_SECS.

Definition still_undelivered : string :=
  ("still undelivered after " ++ pretty (MAX_WAITING_SECS / 86400)
   ++ " days — paused; resume to keep trying, or cancel")%string.

(** What the awaits yield.  Every clock reading is of the monotonic clock, but [unix]. *)
Inductive DeliverEvent :=
| DvStart (now : Z)
| DvTop (now : Z) (beacon : bool)
| DvPrepared (r : result Session Error) (prep : option Prep)
| DvOffer (now : Z) (status : option OfferStatus) (post : option PostedOffer)
| DvWatch (now : Z) (status : option OfferStatus)
| DvServe (ev : SendEvent)
| DvServed (r : option Error) (now : Z) (beacon : bool)
| DvRelay (now : Z) (fresh : result MailboxSeal Error)
| DvParkSays (ev : SendEvent)
| DvParked (out : option ParkOutcome) (prep : option Prep) (now unix : Z) (fresh : result MailboxSeal Error)
| DvDeposit (now unix : Z) (i : DepositInput)
| DvWait (now : Z) (status : option OfferStatus)
| DvStop.

(** Helpers on the held entry ([held_deposit_now], [set_held_attempt], [held_target],
    [clear_deposit_now], [held_prep]). *)
Definition held_deposit_now (id : Z) (m : Manager) : bool :=
  match m.(mg_held) !! id with Some h => h.(h_deposit_now) | None => false end.
Definition set_held_attempt (id : Z) (tok : option nat) (m : Manager) : Manager :=
  upd_held id (fun h => h <| h_attempt := tok |>) m.
Definition held_target (id : Z) (m : Manager) : option bytes := m.(mg_held) !! id ≫= h_target.
Definition clear_deposit_now (id : Z) (m : Manager) : Manager :=
  upd_held id (fun h => h <| h_deposit_now := false |>) m.
Definition held_prep (id : Z) (m : Manager) : option Prep := m.(mg_held) !! id ≫= h_prep.
(** [prepare_send_in_slot]: a preparation already in the slot is the one that is used. *)
Definition fill_prep (id : Z) (prep : option Prep) (m : Manager) : Manager :=
  upd_held id (fun h => match h.(h_prep) with Some _ => h | None => h <| h_prep := prep |> end) m.

(** [persist_prep_record]: written only if the payload looks the same before and after. *)
Definition prep_record (id : Z) (path : string) (p : Prep) (st : PayloadStamp) : PrepRecord :=
  mkPrepRecord id p.(pp_key) p.(pp_node_seed) p.(pp_total_size) p.(pp_chunks) path st.(pst_len)
    st.(pst_mtime_secs) st.(pst_mtime_nanos) st.(pst_dev) st.(pst_ino).
Definition persist_prep_record (fs : Fs) (id : Z) (payload : SendSource) (before : option PayloadStamp)
    (m : Manager) : Manager :=
  let path := source_label payload in
  match before, fs.(fs_stamp) path, held_prep id m with
  | Some b, Some a, Some p => if decide (b = a) then with_disk (persist_prep (prep_record id path p a)) m else m
  | _, _, _ => m
  end.

Section delivery.
Context (cf : Config) (fs : Fs).

Definition deposit_after_secs : Z := default DEPOSIT_AFTER_SECS cf.(cf_deposit_after).

(** The way out of [deliver_to]: an offer that still stands is withdrawn. *)
Definition leave (tok : nat) (d : Delivery) (m : Manager) : Manager :=
  let m := match d.(dl_standing) with
           | Some s => net (NetRetract d.(dl_relay) d.(dl_recipient) s.(so_posted).(po_id)
                              s.(so_posted).(po_poster_token)) m
           | None => m
           end in
  end_task tok m.
Definition stop (tok : nat) (id : Z) (d : Delivery) (m : Manager) : Manager := leave tok d (handle_stop id m).
Definition die (tok : nat) (id : Z) (e : Error) (d : Delivery) (m : Manager) : Manager :=
  leave tok d (finish id false (Err e) m).
Definition goto (tok : nat) (id : Z) (pc : DeliverPc) (d : Delivery) (m : Manager) : Manager :=
  spawn tok (TaskDeliver id (d <| dl_pc := pc |>)) m.

(** ** The head of the loop *)

Definition deliver_start (now : Z) (d : Delivery) : Delivery :=
  d <| dl_next_relay_try := now |> <| dl_give_up_at := now + MAX_WAITING_SECS |>
    <| dl_deposit_deadline := now + deposit_after_secs |> <| dl_next_live_try := now |>.

(** Whether this turn tries a live attempt, with what asking for it changes. *)
Definition probe_online (now : Z) (beacon : bool) (d : Delivery) : bool * Delivery :=
  if negb (cf.(cf_p2p) && (d.(dl_next_live_try) <=? now)) then (false, d)
  else if d.(dl_proven_present) then (true, d <| dl_proven_present := false |>)
  else (beacon, d <| dl_beacon_ever_alive ::= orb beacon |>).

Definition live_begin (tok : nat) (id : Z) (d : Delivery) (m : Manager) : Manager :=
  let fresh := negb (bool_decide (is_Some (held_prep id m))) in
  if fresh then
    goto tok id (AtPrepare true (fs.(fs_stamp) (source_label d.(dl_source)))) d
      (emit (EvPreparing id) (set_status_live id Preparing m))
  else goto tok id (AtPrepare false None) d m.

Definition deliver_top (tok : nat) (id : Z) (now : Z) (beacon : bool) (d : Delivery) (m : Manager) : Manager :=
  if is_cancelled tok m then stop tok id d m
  else if d.(dl_give_up_at) <=? now then leave tok d (set_paused id still_undelivered m)
  else
    let '(online, d) := probe_online now beacon d in
    if online then live_begin tok id d m else goto tok id (AtRelay false) d m.

(** ** One live attempt ([serve_live_once]) *)

Definition live_prepared (tok : nat) (id : Z) (fresh : bool) (before : option PayloadStamp)
    (r : result Session Error) (prep : option Prep) (d : Delivery) (m : Manager) : Manager :=
  let m := fill_prep id prep m in
  match r with
  | Err e => die tok id (err_context "prepare send" e) d m
  | Ok s =>
      let d := d <| dl_local_only := s.(se_local_only) |> in
      let m := if fresh then persist_prep_record fs id d.(dl_source) before m else m in
      goto tok id (AtOffer s) d m
  end.

Definition live_offer (id : Z) (s : Session) (d : Delivery) (m : Manager) : Offer :=
  mkOffer d.(dl_name) s.(se_total_size) (Z.of_nat (length s.(se_chunks))) s.(se_ticket) d.(dl_note)
    cf.(cf_display_name) cf.(cf_device_id) (held_target id m) (default ""%string cf.(cf_relay)).

(** The standing offer as just read; one that is gone, or cannot be read, is forgotten. *)
Definition reread_standing (status : option OfferStatus) (s : StandingOffer) : option StandingOffer :=
  match status with
  | Some OfferGone | None => None
  | Some st => Some (s <| so_seen := st |>)
  end.

Definition back_off (b : Z) : Z := if b =? 0 then LIVE_RETRY_MIN_SECS else Z.min (b * 2) LIVE_RETRY_MAX_SECS.
Definition backed_off (now : Z) (d : Delivery) : Delivery :=
  let b := back_off d.(dl_live_backoff) in d <| dl_live_backoff := b |> <| dl_next_live_try := now + b |>.

Definition live_serve (tok : nat) (id : Z) (now : Z) (s : Session) (d : Delivery) (m : Manager) : Manager :=
  let m := set_waiting id Offered m in
  let '(attempt, m) := new_token m in
  let m := set_held_attempt id (Some attempt) m in
  goto tok id (AtServe s (mkServing attempt (WatchSeen (now + LIVE_CONFIRM_SECS)) false false false false false))
    d m.

Definition live_post (tok : nat) (id : Z) (now : Z) (status : option OfferStatus) (post : option PostedOffer)
    (s : Session) (d : Delivery) (m : Manager) : Manager :=
  let d := d <| dl_standing ::= fun so => so ≫= reread_standing status |> in
  match d.(dl_standing) with
  | Some _ => live_serve tok id now s d m
  | None =>
      let m := net (NetPostOffer d.(dl_relay) d.(dl_recipient) (live_offer id s d m) None) m in
      match post with
      | Some p => live_serve tok id now s (d <| dl_standing := Some (mkStandingOffer p OfferPending) |>) m
      | None => goto tok id (AtRelay true) (backed_off now d) m
      end
  end.

(** The watchdog, one look. *)
Definition proves_presence (st : option OfferStatus) : bool :=
  match st with Some OfferArrived | Some OfferTaken | Some OfferGone => true | _ => false end.
Definition watchdog (now : Z) (status : option OfferStatus) (sv : Serving) (m : Manager) : Serving * Manager :=
  match sv.(sv_watchdog) with
  | WatchOver => (sv, m)
  | WatchSeen phase1 =>
      if phase1 <=? now then (sv <| sv_watchdog := WatchOver |>, fire sv.(sv_attempt) m)
      else if sv.(sv_connected) then (sv <| sv_watchdog := WatchOver |>, m)
      else if proves_presence status then (sv <| sv_watchdog := WatchConnect (now + LIVE_CONNECT_SECS) |>, m)
      else (sv, m)
  | WatchConnect phase2 =>
      if phase2 <=? now then
        (sv <| sv_seen_not_connected := true |> <| sv_watchdog := WatchOver |>, fire sv.(sv_attempt) m)
      else if sv.(sv_connected) then (sv <| sv_watchdog := WatchOver |>, m)
      else (sv, m)
  end.

(** The callback of [serve]. *)
Definition on_send_event (id : Z) (ev : SendEvent) (sv : Serving) (m : Manager) : Serving * Manager :=
  match ev with
  | SeReceiverConnected => (sv <| sv_connected := true |>, set_status_live id Active m)
  | SeProgress transferred total => (sv, emit (EvProgress id transferred total) (set_progress id transferred m))
  | SeDelivered => (sv <| sv_delivered := true |>, fire sv.(sv_attempt) m)
  | SeRecipientCancelled => (sv <| sv_recipient_cancelled := true |>, m)
  | SePeers count => (sv, set_download_peers id count m)
  | SeOffloaded => (sv <| sv_offloaded := true |>, m)
  | SeRelayCapped limit => (sv, set_waiting id (RelayCapped (mib limit)) m)
  | SeBackfillFailed reason => (sv, set_waiting id (OffloadFailed reason) m)
  | SeReady | SeReceiverDropped _ | SeBackfilled => (sv, m)
  end.

(** [serve] is over: the outcome, and what the loop makes of it. *)
Definition live_served (tok : nat) (id : Z) (sv : Serving) (r : option Error) (now : Z) (beacon : bool)
    (d : Delivery) (m : Manager) : Manager :=
  let m := set_held_attempt id None m in
  match r with
  | Some e => die tok id e d m
  | None =>
      if sv.(sv_delivered) then
        let m := match m.(mg_transfers) !! id with Some t => set_progress id t.(tr_total_size) m | None => m end in
        leave tok d (finish id false (Ok None) m)
      else if sv.(sv_recipient_cancelled) then
        let m := match d.(dl_standing) with
                 | Some s => net (NetRetract d.(dl_relay) d.(dl_recipient) s.(so_posted).(po_id)
                                    s.(so_posted).(po_poster_token)) m
                 | None => m
                 end in
        die tok id (err_fail RecipientCancelled) (d <| dl_standing := None |>) m
      else if is_cancelled tok m then stop tok id d m
      else if sv.(sv_offloaded) then
        goto tok id (AtRelay true) (backed_off now (d <| dl_offloaded := true |>)) (set_waiting id Parked m)
      else if sv.(sv_seen_not_connected) then
        let left := d.(dl_beacon_ever_alive) && negb beacon in
        goto tok id (AtRelay true)
          (backed_off now d <| dl_next_relay_try := if left then now else d.(dl_deposit_deadline) |>) m
      else goto tok id (AtRelay true) (backed_off now d) m
  end.

(** ** The relay *)

Definition deposit_relay (d : Delivery) : string := default d.(dl_relay) cf.(cf_relay).
Definition fallback_opts (id : Z) (m : Manager) : MailboxOpts := mkMailboxOpts None None None (held_target id m).

Definition deposit_failed (tok : nat) (id : Z) (now : Z) (e : DepositError) (d : Delivery) (m : Manager) : Manager :=
  match e with
  | DepositTooLarge _ =>
      goto tok id AtWait (d <| dl_too_big := true |>) (set_waiting id TooLarge m)
  | DepositFatal e => die tok id e d m
  | DepositBusy =>
      goto tok id AtWait (d <| dl_next_relay_try := now + RELAY_RETRY_SECS |>)
        (set_waiting id (RelayRetry (deposit_error_text e)) m)
  | DepositUnavailable _ =>
      let reason := if d.(dl_local_only) then NoRoute else RelayRetry (deposit_error_text e) in
      goto tok id AtWait (d <| dl_next_relay_try := now + RELAY_RETRY_SECS |>) (set_waiting id reason m)
  end.

Definition maybe_deposit (tok : nat) (id : Z) (park_now : bool) (now : Z) (fresh : result MailboxSeal Error)
    (d : Delivery) (m : Manager) : Manager :=
  if negb d.(dl_live_only) && negb d.(dl_too_big) && negb d.(dl_offloaded)
     && (park_now || (d.(dl_next_relay_try) <=? now)) then
    match deposit_begin fs id (deposit_relay d) d.(dl_source) (fallback_opts id m) fresh m with
    | (Err e, m) => deposit_failed tok id now e d m
    | (Ok phase, m) => goto tok id (AtDeposit phase) d m
    end
  else goto tok id AtWait d m.

Definition deliver_relay (tok : nat) (id : Z) (online : bool) (now : Z) (fresh : result MailboxSeal Error)
    (d : Delivery) (m : Manager) : Manager :=
  let park_now := held_deposit_now id m in
  if d.(dl_live_only) then
    if negb online && negb d.(dl_told_for_them) then
      goto tok id AtWait (d <| dl_told_for_them := true |>) (set_waiting id ForThem m)
    else goto tok id AtWait d m
  else if park_now && negb d.(dl_too_big) && negb d.(dl_offloaded)
          && bool_decide (is_Some d.(dl_standing)) then
    goto tok id AtPark d (net (NetSeed d.(dl_relay) id) m)
  else maybe_deposit tok id park_now now fresh d m.

(** [park_on_relay] reports, and ends. *)
Definition park_says (id : Z) (ev : SendEvent) (m : Manager) : Manager :=
  match ev with
  | SeRelayCapped limit => set_waiting id (RelayCapped (mib limit)) m
  | SeBackfillFailed reason => set_waiting id (OffloadFailed reason) m
  | _ => m
  end.
Definition parked (tok : nat) (id : Z) (out : option ParkOutcome) (prep : option Prep) (now unix : Z)
    (fresh : result MailboxSeal Error) (d : Delivery) (m : Manager) : Manager :=
  let m := fill_prep id prep m in
  match out with
  | Some out =>
      let m := clear_deposit_now id m in
      let offer := match d.(dl_standing) with
                   | Some s => (s.(so_posted).(po_id), s.(so_posted).(po_poster_token))
                   | None => (""%string, ""%string)
                   end in
      leave tok d (spawn_parked_confirm unix id out offer d.(dl_relay) d.(dl_recipient) m)
  | None => maybe_deposit tok id true now fresh d m
  end.

Definition deposited (tok : nat) (id : Z) (now unix : Z) (r : result DepositOutcome DepositError)
    (d : Delivery) (m : Manager) : Manager :=
  match r with
  | Ok out =>
      leave tok d (spawn_offline_confirm id (deposit_relay d) d.(dl_relay) out
        (sat_add unix OFFLINE_TTL_SECS) (drop_held id m))
  | Err e => deposit_failed tok id now e d m
  end.

(** ** Waiting *)

Definition deliver_wait (tok : nat) (id : Z) (now : Z) (status : option OfferStatus) (d : Delivery) (m : Manager)
    : Manager :=
  let '(woken, d, m) :=
    match d.(dl_standing), status with
    | Some s, Some OfferGone => (false, d <| dl_standing := None |>, m)
    | Some s, Some st =>
        let changed := negb (bool_decide (st = s.(so_seen))) in
        (changed, d <| dl_standing := Some (s <| so_seen := st |>) |>,
         if changed then set_offer_status_live id (offer_status_as_str st) m else m)
    | _, _ => (false, d, m)
    end in
  let d := if woken then d <| dl_live_backoff := 0 |> <| dl_next_live_try := now |> <| dl_proven_present := true |>
           else d in
  goto tok id AtTop d m.

(** ** One step of the loop *)

Definition deliver_step (tok : nat) (id : Z) (d : Delivery) (e : DeliverEvent) (m : Manager) : option Manager :=
  match d.(dl_pc), e with
  | AtStart, DvStart now => Some (goto tok id AtTop (deliver_start now d) m)
  | AtTop, DvTop now beacon => Some (deliver_top tok id now beacon d m)
  | AtPrepare fresh before, DvPrepared r prep => Some (live_prepared tok id fresh before r prep d m)
  | AtOffer s, DvOffer now status post => Some (live_post tok id now status post s d m)
  | AtServe s sv, DvWatch now status =>
      let '(sv, m) := watchdog now status sv m in Some (goto tok id (AtServe s sv) d m)
  | AtServe s sv, DvServe ev =>
      let '(sv, m) := on_send_event id ev sv m in Some (goto tok id (AtServe s sv) d m)
  | AtServe _ sv, DvServed r now beacon => Some (live_served tok id sv r now beacon d m)
  | AtRelay online, DvRelay now fresh => Some (deliver_relay tok id online now fresh d m)
  | AtPark, DvParkSays ev => Some (park_says id ev m)
  | AtPark, DvParked out prep now unix fresh => Some (parked tok id out prep now unix fresh d m)
  | AtDeposit phase, DvDeposit now unix i =>
      '(s, m) ← deposit_step cf fs id d.(dl_relay) d.(dl_recipient) d.(dl_source) d.(dl_name)
                  d.(dl_note) (fallback_opts id m) phase i m;
      Some (match s with
            | DepositGoes phase => goto tok id (AtDeposit phase) d m
            | DepositOver r => deposited tok id now unix r d m
            end)
  | AtWait, DvWait now status => Some (deliver_wait tok id now status d m)
  | (AtDeposit _ | AtWait), DvStop => if is_cancelled tok m then Some (stop tok id d m) else None
  | _, _ => None
  end.
End delivery.
