(* ===== verification/Landing.v ===== *)
(** * Where a received file lands

    The names of [core/src/flow/recv.rs] and [core/src/flow/offline.rs]: a sender's name
    reduced to one path component, a derived name that avoids what is there, and the
    choice between them.  Paths are unix strings. *)
From stdpp Require Import pretty.
From S2P Require Import Prelude.
From S2P Require Import Text.
From S2P Require Import Seeds.
From S2P Require Import Tickets.
Local Open Scope Z_scope.

Definition slash : Byte.byte := Byte.x2f.
Definition dot : Byte.byte := Byte.x2e.

(** The components of a path; empty ones and [.] are skipped. *)
Definition path_components (p : string) : list string :=
  filter (fun c => c ≠ ""%string ∧ c ≠ "."%string) (string_of <$> split_on slash (bytes_of p) []).

(** [Path::file_name]: the last component, unless it is [..]. *)
Definition file_name (p : string) : option string :=
  match last (path_components p) with
  | Some c => if decide (c = ".."%string) then None else Some c
  | None => None
  end.

(** [safe_download_name]. *)
Definition safe_download_name (name : string) : option string := file_name name.

(** A byte that continues a character of UTF-8. *)
Definition is_continuation (b : Byte.byte) : bool := ((128 <=? Byte.to_N b) && (Byte.to_N b <? 192))%N.
(** [default_out]: a slice at byte 16; [None] is its panic inside a character. *)
Definition default_out (seed : string) : option string :=
  let b := bytes_of seed in
  if match b !! 16%nat with Some c => is_continuation c | None => false end then None
  else Some ("received-" ++ string_of (take 16 b) ++ ".bin")%string.

(** [Path::join] with a relative second part, and [Path::parent]. *)
Definition path_join (dir base : string) : string :=
  match last (bytes_of dir) with
  | None => base
  | Some b => if decide (b = slash) then (dir ++ base)%string else (dir ++ "/" ++ base)%string
  end.
Fixpoint drop_while (f : Byte.byte → bool) (l : bytes) : bytes :=
  match l with b :: l' => if f b then drop_while f l' else l | [] => [] end.
Definition is_slash (b : Byte.byte) : bool := bool_decide (b = slash).
Definition parent (p : string) : string :=
  let rest := drop_while (fun b => negb (is_slash b)) (drop_while is_slash (reverse (bytes_of p))) in
  match rest with
  | [] => ""
  | _ => match drop_while is_slash rest with [] => "/" | l => string_of (reverse l) end
  end%string.

(** [file_stem] and [extension]: at the last dot, unless nothing is before it. *)
Definition stem_ext (p : string) : string * option string :=
  match file_name p with
  | None => ("", None)
  | Some f =>
      let r := reverse (bytes_of f) in
      let after := drop_while (fun b => negb (bool_decide (b = dot))) r in
      match after with
      | [] | [_] => (f, None)
      | _ :: before =>
          (string_of (reverse before), Some (string_of (reverse (take (length r - length after) r))))
      end
  end%string.

(** What is on the file system: the names that exist, and those that are directories. *)
Record Tree := mkTree { tr_exists : gset string; tr_dirs : gset string }.
Definition exists_ (t : Tree) (p : string) : bool := bool_decide (p ∈ t.(tr_exists)).
Definition is_dir (t : Tree) (p : string) : bool := bool_decide (p ∈ t.(tr_dirs)).
Definition sidecar_of (p : string) : string := (p ++ ".arvhave")%string.

(** The candidates of [collision_free]: [stem (n).ext]. *)
Definition candidate (p : string) (n : N) : string :=
  let '(stem, ext) := stem_ext p in
  let dotted := match ext with Some e => ("." ++ e)%string | None => ""%string end in
  path_join (parent p) (stem ++ " (" ++ pretty n ++ ")" ++ dotted).
(** The loop over [n]; [None] is running out of numbers. *)
Fixpoint first_free (t : Tree) (p : string) (fuel : nat) (n : N) : option string :=
  match fuel with
  | O => None
  | S fuel =>
      let c := candidate p n in
      if exists_ t (sidecar_of c) then Some c
      else if negb (exists_ t c) then Some c
      else first_free t p fuel (n + 1)
  end.
(** [collision_free]; one candidate more than there are names is enough. *)
Definition collision_free (t : Tree) (p : string) : option string :=
  if negb (exists_ t p) || exists_ t (sidecar_of p) then Some p
  else first_free t p (S (size t.(tr_exists))) 1.

(** [default_from_name] and [single_file_out]; [first_hash] is the first chunk's digest
    as text. *)
Definition default_from_name (name first_hash : string) : option string :=
  match safe_download_name name with Some n => Some n | None => default_out first_hash end.
Definition single_file_out (t : Tree) (user_out : option string) (name first_hash : string) : option string :=
  match user_out with
  | Some p =>
      if is_dir t p then n ← default_from_name name first_hash; collision_free t (path_join p n)
      else Some p
  | None => n ← default_from_name name first_hash; collision_free t n
  end.

(** [mailbox_out]. *)
Definition mailbox_out (t : Tree) (user_out : option string) (ticket : OfflineTicket) : option string :=
  match user_out with
  | Some p =>
      if is_dir t p then
        n ← match safe_download_name ticket.(ot_name) with
            | Some n => Some n | None => default_out ticket.(ot_claim) end;
        collision_free t (path_join p n)
      else Some p
  | None =>
      n ← match safe_download_name ticket.(ot_name) with
          | Some n => Some n | None => default_out ticket.(ot_claim) end;
      collision_free t n
  end.

(** ** A reduced name is one component *)

Lemma safe_download_name_component name n :
  safe_download_name name = Some n →
  slash ∉ bytes_of n ∧ n ≠ ""%string ∧ n ≠ "."%string ∧ n ≠ ".."%string.
Proof.
  unfold safe_download_name, file_name.
  destruct (last _) as [c|] eqn:E; [|done]. case_decide as Hc; [done|]. intros [= <-].
  apply last_Some_elem_of in E. unfold path_components in E.
  apply list_elem_of_filter in E as [[He Hd] Hin]. split; [|done].
  apply list_elem_of_fmap in Hin as (x & -> & Hx).
  rewrite bytes_of_string_of.
  pose proof (split_on_no_sep slash (bytes_of name) [] (not_elem_of_nil _)) as Hall.
  rewrite Forall_forall in Hall. by apply Hall.
Qed.

(** ** A derived name never lands on a finished file *)

Lemma first_free_spec t p fuel n c :
  first_free t p fuel n = Some c → c ∉ t.(tr_exists) ∨ sidecar_of c ∈ t.(tr_exists).
Proof.
  revert n. induction fuel as [|fuel IH]; intros n; cbn; [done|].
  unfold exists_. repeat case_bool_decide; cbn; [by intros [= <-]; right|..].
  - apply IH.
  - intros [= <-]. by left.
Qed.

Lemma collision_free_spec t p c :
  collision_free t p = Some c → c ∉ t.(tr_exists) ∨ sidecar_of c ∈ t.(tr_exists).
Proof.
  unfold collision_free, exists_. repeat case_bool_decide; cbn [negb orb]; intros Heq;
    try (simplify_eq; by auto); by eapply first_free_spec.
Qed.

Lemma path_join_inj dir a b : path_join dir a = path_join dir b → a = b.
Proof.
  unfold path_join. destruct (last _); [|done].
  case_decide; intros Heq; apply string_app_inj_l in Heq; [done|]. by apply string_app_inj_l in Heq.
Qed.

#[export] Instance candidate_inj p : Inj (=) (=) (candidate p).
Proof.
  intros n m. unfold candidate. destruct (stem_ext p) as [stem ext].
  intros Heq. apply path_join_inj in Heq. do 2 apply string_app_inj_l in Heq.
  apply string_app_inj_r in Heq. by apply (inj pretty) in Heq.
Qed.

(** The loop stops only on a free name, so a whole round of occupied candidates would
    be as many names that exist. *)
Lemma first_free_None t p fuel n :
  first_free t p fuel n = None → ∀ i, (i < fuel)%nat → candidate p (n + N.of_nat i) ∈ t.(tr_exists).
Proof.
  revert n. induction fuel as [|fuel IH]; intros n Heq i Hi; [lia|]. cbn in Heq.
  unfold exists_ in Heq. repeat case_bool_decide; cbn in Heq; try done.
  destruct i as [|i]; [by rewrite N.add_0_r|].
  specialize (IH _ Heq i ltac:(lia)). by replace (n + N.of_nat (S i))%N with (n + 1 + N.of_nat i)%N by lia.
Qed.

Lemma collision_free_total t p : is_Some (collision_free t p).
Proof.
  unfold collision_free. destruct (_ || _); [by eexists|].
  destruct (first_free _ _ _ _) as [c|] eqn:E; [by eexists|]. exfalso.
  pose proof (first_free_None _ _ _ _ E) as Hall.
  set (k := S (size t.(tr_exists))) in *.
  assert ((list_to_set ((λ i, candidate p (1 + N.of_nat i)) <$> seq 0 k) : gset string) ⊆ t.(tr_exists)) as Hsub.
  { intros c Hc. apply elem_of_list_to_set, list_elem_of_fmap in Hc as (i & -> & Hi).
    apply elem_of_seq in Hi. apply Hall. lia. }
  apply subseteq_size in Hsub. rewrite size_list_to_set, length_fmap, length_seq in Hsub; [lia|].
  apply NoDup_fmap_2; [|apply NoDup_seq].
  intros i j Heq. apply (inj (candidate p)) in Heq. lia.
Qed.

Example landing_names :
  safe_download_name "../../.ssh/authorized_keys" = Some "authorized_keys"%string ∧
  safe_download_name "a/.." = None ∧ default_out "arvcAAAAAAAAAAAAAAAA" = Some "received-arvcAAAAAAAAAAAA.bin"%string ∧
  candidate "/dl/report.tar.gz" 2 = "/dl/report.tar (2).gz"%string ∧ candidate "/dl/.rc" 1 = "/dl/.rc (1)"%string ∧
  candidate "a." 1 = "a (1)."%string.
Proof. by vm_compute. Qed.

(** * A name that a sender chose stays where it belongs

    What is derived from the name in a ticket is one component, and free. *)
Local Open Scope Z_scope.

(** One component of a path: no separator, and none of the names that mean a directory. *)
Definition slashless (s : string) : Prop := slash ∉ bytes_of s.
Definition component (s : string) : Prop :=
  slashless s ∧ s ≠ ""%string ∧ s ≠ "."%string ∧ s ≠ ".."%string.

Lemma slashless_app s t : slashless (s ++ t)%string ↔ slashless s ∧ slashless t.
Proof. unfold slashless. rewrite bytes_of_app, elem_of_app. tauto. Qed.
Lemma slashless_sub s l : slashless s → (∀ b, b ∈ l → b ∈ bytes_of s) → slashless (string_of l).
Proof. unfold slashless. rewrite bytes_of_string_of. auto. Qed.

Lemma pretty_slashless (n : N) : slashless (pretty n).
Proof.
  unfold slashless. pose proof (pretty_bytes (fun b => b ≠ slash) n) as Hn. rewrite Forall_forall in Hn.
  intros Hin. refine (Hn _ _ Hin eq_refl). intros d. unfold pretty_N_char. by repeat case_match.
Qed.

(** ** The parts of a component *)

Lemma component_file_name p : component p → file_name p = Some p.
Proof.
  intros (Hs & He & Hd & Hdd). unfold file_name, path_components. rewrite split_on_none by done.
  change (string_of <$> [reverse [] ++ bytes_of p]) with [string_of (bytes_of p)]. rewrite string_of_bytes_of.
  rewrite filter_cons_True by done. cbn. by rewrite decide_False.
Qed.

Lemma drop_while_sub f l b : b ∈ drop_while f l → b ∈ l.
Proof.
  induction l as [|x l IH]; cbn; [done|]. destruct (f x); [|done]. intros ?%IH. apply elem_of_cons. by right.
Qed.
Lemma drop_while_all f l : (∀ b, b ∈ l → f b = true) → drop_while f l = [].
Proof.
  induction l as [|x l IH]; intros Hf; cbn; [done|]. rewrite Hf by (apply elem_of_cons; by left).
  apply IH. intros b Hb. apply Hf, elem_of_cons. by right.
Qed.

Lemma component_parent p : component p → parent p = ""%string.
Proof.
  intros (Hs & _). unfold parent. set (l := drop_while is_slash (reverse (bytes_of p))).
  rewrite drop_while_all; [done|]. intros b Hb%drop_while_sub. rewrite elem_of_reverse in Hb.
  unfold is_slash. rewrite negb_true_iff. apply bool_decide_eq_false. intros ->. by apply Hs.
Qed.
Lemma component_stem p : component p → let '(stem, ext) := stem_ext p in
  slashless stem ∧ match ext with Some e => slashless e | None => True end.
Proof.
  intros Hp. pose proof Hp as (Hs & _). unfold stem_ext. rewrite component_file_name by done.
  set (r := reverse (bytes_of p)). destruct (drop_while _ r) as [|x [|y before]] eqn:E; [done|done|]. split.
  - apply (slashless_sub p); [done|]. intros b Hb. rewrite elem_of_reverse in Hb. apply elem_of_reverse. fold r.
    apply (drop_while_sub (λ b, negb (bool_decide (b = dot)))). rewrite E. apply elem_of_cons. by right.
  - apply (slashless_sub p); [done|]. intros b Hb. rewrite elem_of_reverse in Hb. apply subseteq_take in Hb. by apply elem_of_reverse.
Qed.

Lemma candidate_component p n : component p → component (candidate p n).
Proof.
  intros Hp. pose proof (component_stem p Hp) as Hst. unfold candidate. rewrite component_parent by done.
  destruct (stem_ext p) as [stem ext]. destruct Hst as [Hstem Hext].
  assert (slashless (match ext with Some e => "." ++ e | None => "" end)%string) as Hdot.
  { destruct ext; [|apply not_elem_of_nil]. apply slashless_app. split; [|done]. by apply (bool_decide_unpack _). }
  clear Hext. revert Hdot. generalize (match ext with Some e => "." ++ e | None => "" end)%string. intros dotted Hdot.
  change (path_join "" ?x) with x.
  assert (Byte.x28 ∈ bytes_of (stem ++ " (" ++ pretty n ++ ")" ++ dotted)%string) as Hin.
  { rewrite bytes_of_app. apply elem_of_app. right. rewrite bytes_of_app. apply elem_of_app. left.
    by apply (bool_decide_unpack _). }
  split_and!; [|by intros E; rewrite E in Hin; apply (bool_decide_pack _) in Hin..].
  repeat (apply slashless_app; split); [done| |apply pretty_slashless| |done]; by apply (bool_decide_unpack _).
Qed.

Lemma first_free_candidate t p fuel n c : first_free t p fuel n = Some c → ∃ k, c = candidate p k.
Proof.
  revert n. induction fuel as [|fuel IH]; intros n; cbn; [done|].
  destruct (exists_ t _); [intros [= <-]; by exists n|]. destruct (negb _); [intros [= <-]; by exists n|]. apply IH.
Qed.
Lemma collision_free_component t p c : component p → collision_free t p = Some c → component c.
Proof.
  intros Hp. unfold collision_free. destruct (_ || _); [by intros [= <-]|].
  intros (k & ->)%first_free_candidate. by apply candidate_component.
Qed.

Lemma default_out_component seed n : slashless seed → default_out seed = Some n → component n.
Proof.
  intros Hs. unfold default_out. destruct (match _ with Some _ => _ | None => _ end); [done|]. intros [= <-].
  split_and!; [|by intros [=]..].
  apply slashless_app. split; [by apply (bool_decide_unpack _)|]. apply slashless_app. split; [|by apply (bool_decide_unpack _)].
  apply (slashless_sub seed); [done|]. intros b. apply subseteq_take.
Qed.


