(* ===== verification/Receiving.v ===== *)
(** * Receiving: offers, accepts and downloads

    The receiving half of [core/src/manager/mod.rs]: what the inbox poll does with an
    offer, accepting and refusing one, and the task that fetches. *)
From S2P Require Import Prelude.
From S2P Require Import Text.
From S2P Require Import SyncTypes.
From S2P Require Import Store.
From S2P Require Import Seeds.
From S2P Require Import Tickets.
From S2P Require Import Transfers.
From S2P Require Import Records.
From S2P Require Import ManagerState.
From S2P Require Import Manager.
From S2P Require Import Watching.
From S2P Require Import Landing.
Local Open Scope Z_scope.
Local Open Scope arvolo_scope.

(** ** How a fetch settles *)

(** [publish_completed] and [resting_path]; [published] is the publisher's answer. *)
Definition publish_completed (cf : Config) (id : Z) (published : option SavedLocation) (m : Manager)
    : option SavedLocation * Manager :=
  if negb cf.(cf_has_publisher) then (None, m)
  else
    match published with
    | Some (SavedUri u) => (published, set_saved_uri id u m)
    | _ => (published, m)
    end.
Definition resting_path (published : option SavedLocation) (wrote : string) : option string :=
  match published with
  | Some (SavedPath p) => Some p
  | Some (SavedUri _) => None
  | None => Some wrote
  end.

(** [receive_pause_reason] and [receive_ended_cancelled]. *)
Definition receive_pause_reason (r : result RecvOutcome Error) (cancel_fired paused_marked : bool)
    : option string :=
  match r with
  | Ok (RecvPaused _ reason) => Some reason
  | Ok o => if negb (is_complete o) && cancel_fired && paused_marked then Some "in pausa"%string else None
  | Err _ => None
  end.
Definition receive_ended_cancelled (r : result RecvOutcome Error) : bool :=
  match r with Ok o => negb (is_complete o) | Err _ => false end.

Section receiving.
Context {A : Type} `{!Base32Text, !Wire (ChunkTicket A), !Wire OfflineTicket, !Wire OfflineWireV1,
  !Blake3Hash, !HexLower, !PublicIdParse}.
Context (cf : Config).

(** An ack goes out when there is an inbox, which there is when there is a relay. *)
Definition ack (offer_id : string) (m : Manager) : Manager :=
  match cf.(cf_relay) with Some _ => net (NetAck offer_id) m | None => m end.

(** ** Offers *)

(** The callback of the inbox poll. *)
Definition status_is_paused (id : Z) (m : Manager) : bool :=
  match m.(mg_transfers) !! id with Some t => is_paused t.(tr_status) | None => false end.
Definition on_offer (offer : ReceivedOffer) (m : Manager) : Manager :=
  let o := offer.(ro_offer) in
  match download_of_same_content (A := A) o.(of_ticket) (Some offer.(ro_sender)) m with
  | Some on =>
      let paused := status_is_paused on m in
      let '(ghosts, m) := take_offers_for_same_content (A := A) o.(of_ticket) m in
      if paused then m else foldl (fun m id => ack id m) m (ghosts ++ [offer.(ro_id)])
  | None =>
      let m := m <| mg_pending ::= <[offer.(ro_id) := offer]> |> in
      emit (EvOfferReceived offer.(ro_id) offer.(ro_sender) o.(of_name) o.(of_size) o.(of_note)
              o.(of_sender_name) o.(of_relay)) m
  end.

Definition is_pending (offer_id : string) (m : Manager) : bool :=
  bool_decide (is_Some (m.(mg_pending) !! offer_id)).
Definition reject_offer (offer_id : string) (m : Manager) : Manager :=
  ack offer_id (m <| mg_pending ::= delete offer_id |>).

(** [start_download_with_password]. *)
Definition start_download (now : Z) (ticket out_path : string) (peer : option PublicId) (name : string)
    (size : Z) (password ack_offer : option string) (m : Manager) : Z * Manager :=
  let '(id, tok, m) := register now Recv peer name size m in
  let m := match ack_offer with
           | Some offer => m <| mg_deferred_acks ::= <[id := offer]> |>
           | None => m
           end in
  let m :=
    if looks_like ticket then
      with_disk (persist_download (mkDownloadRecord id ticket out_path name size))
        (note_download_content (A := A) id ticket m)
    else m in
  (id, spawn_receive id ticket out_path peer tok password m).

(** The sender's claim about themselves, onto a row. *)
Definition carry_sender_name (claim : string) (only_empty : bool) (id : Z) (m : Manager) : Manager :=
  if bool_decide (claim = ""%string) then m
  else upd_row id (fun t =>
    if only_empty && negb (bool_decide (t.(tr_sender_name) = ""%string)) then t
    else t <| tr_sender_name := claim |>) m.

(** [accept_offer_with_password]. *)
Inductive Accepted := AcceptedAs (id : Z) | Refused (r : AcceptRefusal) | Panicked.
Definition needs_password (ticket : string) : bool :=
  match offline_decode ticket with Ok t => has_password t | Err _ => false end.
Definition refused (offer_id : string) (password : option string) (m : Manager) : option AcceptRefusal :=
  let o := m.(mg_pending) !! offer_id in
  let ticket := (fun o => o.(ro_offer).(of_ticket)) <$> o in
  if negb (nonempty (default ""%string password)) && match ticket with Some t => needs_password t | None => false end
  then Some NeedsPassword
  else if negb cf.(cf_p2p) && match ticket with Some t => looks_like t | None => false end
  then Some P2pOff
  else match o with None => Some NoLongerWaiting | Some _ => None end.
Definition accept_path (out : option string) (o : Offer) : option string :=
  match out with
  | Some p => Some p
  | None =>
      path_join cf.(cf_download_dir) <$>
        match safe_download_name o.(of_name) with Some n => Some n | None => default_out o.(of_ticket) end
  end.
Definition accept_offer (now : Z) (offer_id : string) (out password : option string) (m : Manager)
    : Accepted * Manager :=
  match refused offer_id password m, m.(mg_pending) !! offer_id with
  | Some r, _ => (Refused r, m)
  | None, None => (Refused NoLongerWaiting, m)
  | None, Some offer =>
      let o := offer.(ro_offer) in
      let m := m <| mg_pending ::= delete offer_id |> in
      match accept_path out o with
      | None => (Panicked, m)
      | Some out_path =>
          let mailbox := negb (looks_like o.(of_ticket)) in
          let m := if mailbox then m else ack offer_id m in
          match download_of_same_content (A := A) o.(of_ticket) (Some offer.(ro_sender)) m with
          | Some on =>
              let m := if status_is_paused on m then (resume cf on m).2 else m in
              (AcceptedAs on, carry_sender_name o.(of_sender_name) true on m)
          | None =>
              let '(id, m) := start_download now o.(of_ticket) out_path (Some offer.(ro_sender))
                  o.(of_name) o.(of_size) password (if mailbox then Some offer_id else None) m in
              (AcceptedAs id, carry_sender_name o.(of_sender_name) false id m)
          end
      end
  end.

(** ** The fetching task *)

(** What [recv_chunked] reports, and how a fetch ends. *)
Inductive FetchEvent :=
| FetchBegin
| FetchSender (id : option bytes)
| FetchStarted (resumed_bytes total_size : Z)
| FetchChunk (b : Z)
| FetchSwarm (peers pieces_from_peers : Z)
| FetchEnds (r : result RecvOutcome Error) (published : option SavedLocation) (now : Z) (node_seed : bytes)
| MailboxEnds (r : result (string * Z) Error) (published : option SavedLocation).

(** [seed_file]: what a finished download turns into; [owned] files are the daemon's. *)
Definition keep_started (now : Z) (s : ShareRecord) : ShareRecord :=
  s <| sh_started := if 0 <? s.(sh_started) then s.(sh_started) else now |>.
Definition resumable_key (ticket : string) : option (ChunkTicket A) :=
  match ticket_decode (A := A) ticket with
  | Ok t =>
      match t.(ct_key) with Plain k => if (length k =? 32)%nat then Some t else None | _ => None end
  | Err _ => None
  end.
Definition resume_serve (now : Z) (rec : SendRecord) (stats : ShareRecord) (m : Manager)
    : option Z * Manager :=
  match resumable_key rec.(sr_ticket) with
  | None => (None, m)
  | Some expected =>
      if negb (length rec.(sr_node_seed) =? 32)%nat then (None, m)
      else
        let '(id, tok, m) := register now Send None expected.(ct_name) expected.(ct_total_size) m in
        let stats := keep_started now stats in
        let m := set_share_stats id stats m in
        let m := with_disk (fun d => persist_share id stats (persist_send
                   (mkSendRecord id rec.(sr_path) rec.(sr_node_seed) rec.(sr_ticket) rec.(sr_owned_stage)) d)) m in
        (Some id, spawn tok (TaskShare id (mkShare (SourcePath rec.(sr_path)) None ShareResuming)) m)
  end.
Definition seed_file (now : Z) (node_seed : bytes) (path ticket : string) (owned : bool) (m : Manager) : Manager :=
  (resume_serve now (mkSendRecord 0 path node_seed ticket (if owned then Some path else None))
     (mkShareRecord 0 0 0 now now) m).2.

(** The file that a complete download seeds from, and whether it is the daemon's own;
    [stage] is where an archive's tar was kept. *)
Definition seed_source (ticket stage : string) (o : RecvOutcome) (published : option SavedLocation)
    : option (string * bool) :=
  let single :=
    match published with
    | Some (SavedPath p) => Some (p, false)
    | Some (SavedUri _) => None
    | None => Some (recv_path o, false)
    end in
  match ticket_decode (A := A) ticket with
  | Ok t => if t.(ct_archive) then Some (stage, true) else single
  | Err _ => single
  end.

Definition fetch_ends (stage_path : string → string) (tok : nat) (id : Z) (f : Fetch)
    (r : result RecvOutcome Error) (published : option SavedLocation) (now : Z) (node_seed : bytes)
    (m : Manager) : Manager :=
  let fired := is_cancelled tok m in
  let '(published, m) :=
    match r with
    | Ok o => if is_complete o then publish_completed cf id published m else (None, m)
    | Err _ => (None, m)
    end in
  let m :=
    match r with
    | Ok o =>
        if is_complete o && cf.(cf_seeding) then
          match seed_source f.(fe_ticket) (stage_path f.(fe_ticket)) o published with
          | Some (path, owned) => seed_file now node_seed path f.(fe_ticket) owned m
          | None => m
          end
        else m
    | Err _ => m
    end in
  let marked := match m.(mg_disk) with Some d => is_paused_marked id d | None => false end in
  match receive_pause_reason r fired marked with
  | Some reason =>
      let m := with_disk (mark_paused id) m in
      end_task tok (emit (EvPaused id reason) (set_status id (Paused reason) m))
  | None =>
      let discard := fired && match r with Ok o => negb (is_complete o) | Err _ => false end in
      let res := match r with Ok o => Ok (resting_path published (recv_path o)) | Err e => Err e end in
      let m := finish id (receive_ended_cancelled r) res m in
      let m := if discard then with_disk (fun d => d <| dk_removed ::= cons f.(fe_out_path) |>) m else m in
      end_task tok m
  end.

Definition mailbox_ends (tok : nat) (id : Z) (r : result (string * Z) Error)
    (published : option SavedLocation) (m : Manager) : Manager :=
  let gone := match r with
              | Err e => match classify e with DepositGone _ => true | _ => false end
              | Ok _ => false
              end in
  let offer := m.(mg_deferred_acks) !! id in
  let m := m <| mg_deferred_acks ::= delete id |> in
  let m := if is_ok r || gone then match offer with Some o => ack o m | None => m end else m in
  match r with
  | Ok (path, n) =>
      let fired := is_cancelled tok m in
      let m := set_progress id n m in
      let '(published, m) := if fired then (None, m) else publish_completed cf id published m in
      end_task tok (finish id fired (Ok (resting_path published path)) m)
  | Err e => end_task tok (finish id false (Err e) m)
  end.

(** One step of the spawned half of [spawn_receive]. *)
Definition fetch_step (stage_path : string → string) (tok : nat) (id : Z) (f : Fetch) (e : FetchEvent)
    (m : Manager) : option Manager :=
  match f.(fe_pc), e with
  | FetchStart, FetchBegin =>
      if looks_like f.(fe_ticket) then
        Some (spawn tok (TaskFetch id (f <| fe_pc := FetchRunning 0 |>))
                (m <| mg_recv_aborts ::= <[id := true]> |>))
      else
        let m := match f.(fe_peer) with Some p => set_peer id p m | None => m end in
        Some (spawn tok (TaskFetch id (f <| fe_pc := FetchOffline |>)) m)
  | FetchRunning _, FetchSender who =>
      Some (match who with Some b => if public_id_ok b then set_peer id b m else m | None => m end)
  | FetchRunning _, FetchStarted resumed total_size =>
      Some (spawn tok (TaskFetch id (f <| fe_pc := FetchRunning resumed |>))
              (emit (EvProgress id resumed total_size) (set_progress id resumed m)))
  | FetchRunning n, FetchChunk b =>
      let done := wrap_u64 (n + b) in
      let m := set_progress id done m in
      let total := match m.(mg_transfers) !! id with Some t => t.(tr_total_size) | None => done end in
      Some (spawn tok (TaskFetch id (f <| fe_pc := FetchRunning done |>)) (emit (EvProgress id done total) m))
  | FetchRunning _, FetchSwarm peers pieces => Some (set_swarm id peers pieces m)
  | FetchRunning _, FetchEnds r published now node_seed =>
      Some (fetch_ends stage_path tok id f r published now node_seed m)
  | FetchOffline, MailboxEnds r published => Some (mailbox_ends tok id r published m)
  | _, _ => None
  end.
End receiving.
