(* ===== verification/Sharing.v ===== *)
(** * Shares and their pairing codes

    A share is a send that exists to be fetched: [start_share], [begin_serving] and the
    code hosting of [core/src/manager/mod.rs], [serve_session] and [code_host_task] of
    [core/src/manager/work.rs]. *)
From S2P Require Import Prelude.
From S2P Require Import Text.
From S2P Require Import Code.
From S2P Require Import Seeds.
From S2P Require Import Tickets.
From S2P Require Import Transfers.
From S2P Require Import Records.
From S2P Require Import ManagerState.
From S2P Require Import Manager.
From S2P Require Import Watching.
Local Open Scope Z_scope.

Section sharing.
Context (cf : Config).

(** ** Pairing codes *)

Definition MAX_FAILURES : Z := 3.
Definition code_record (id : Z) (ticket : string) (c : PendingCodeRecord) : CodeRecord :=
  mkCodeRecord id c.(pc_slot) c.(pc_secret) c.(pc_relay) c.(pc_owner_token) (bytes_of ticket)
    c.(pc_shown) c.(pc_max_sessions) MAX_FAILURES 0 0.

(** The head of [code_host_task]. *)
Definition code_hosting (tok : nat) (id : Z) (c : CodeRun) (m : Manager) : Manager :=
  let m := emit (EvCodeReady id c.(cd_rec).(cr_shown)) (set_code id (Some c.(cd_rec).(cr_shown)) m) in
  spawn tok (TaskCode id (c <| cd_pc := CodeHosting |>)) m.

(** [resume_code]: reattach first, with the counters carried over. *)
Definition resume_code (rec : CodeRecord) (id : Z) (m : Manager) : Manager :=
  if negb (length rec.(cr_owner_token) =? 32)%nat then m
  else
    let rec := mkCodeRecord id rec.(cr_slot) rec.(cr_secret) rec.(cr_relay) rec.(cr_owner_token)
                 rec.(cr_payload) rec.(cr_shown) rec.(cr_max_sessions) rec.(cr_max_failures)
                 rec.(cr_sessions_done) rec.(cr_failures) in
    spawn_detached (TaskCode id (mkCodeRun rec (m.(mg_cancels) !! id) CodeReattaching)) m.

(** [host_code]. *)
Definition host_code (id : Z) (ticket : string) (c : PendingCode) (m : Manager) : Manager :=
  let rec := code_record id ticket c.(pcd_record) in
  let m := with_disk (persist_code rec) m in
  if c.(pcd_restored) then resume_code rec id m
  else
    let '(tok, m) := new_token m in
    code_hosting tok id (mkCodeRun rec (m.(mg_cancels) !! id) CodeHosting) m.

Definition close_reason_text (r : CloseReason) : string :=
  match r with
  | MaxSessions => "used up — every receiver it was meant for has it"
  | TooManyFailures => "retired after too many wrong-code attempts"
  | SlotExpired => "the rendezvous slot expired"
  | SlotTaken => "the rendezvous slot was taken over"
  | HostCancelled => "cancelled"
  end.

(** What the relay answers to [reattach] and [reclaim] ([None] is an error), what the
    host loop reports, and how it ends. *)
Inductive CodeEvent :=
| CodeReattached (r : option Reattach)
| CodeReclaimed (r : option Reattach)
| CodePaired (done : Z)
| CodeCloses (r : CloseReason)
| CodeCounts (sessions_done failures : Z)
| CodeEnds (err : option string).

Definition code_lost (tok : nat) (id : Z) (m : Manager) : Manager :=
  end_task tok (emit (EvCodeClosed id "the rendezvous slot was taken over") (with_disk (remove_code id) m)).

Definition code_step (tok : nat) (id : Z) (c : CodeRun) (e : CodeEvent) (m : Manager) : option Manager :=
  match c.(cd_pc), e with
  | CodeReattaching, CodeReattached (Some ReattachOk) => Some (code_hosting tok id c m)
  | CodeReattaching, CodeReattached (Some ReattachExpired) =>
      Some (spawn tok (TaskCode id (c <| cd_pc := CodeReclaiming |>)) m)
  | CodeReattaching, CodeReattached _ => Some (code_lost tok id m)
  | CodeReclaiming, CodeReclaimed (Some ReattachOk) => Some (code_hosting tok id c m)
  | CodeReclaiming, CodeReclaimed _ => Some (code_lost tok id m)
  | CodeHosting, CodePaired done => Some (emit (EvCodePaired id done) m)
  | CodeHosting, CodeCloses r => Some (emit (EvCodeClosed id (close_reason_text r)) m)
  | CodeHosting, CodeCounts done failures =>
      let r := c.(cd_rec) in
      Some (with_disk (persist_code (mkCodeRecord id r.(cr_slot) r.(cr_secret) r.(cr_relay)
        r.(cr_owner_token) r.(cr_payload) r.(cr_shown) r.(cr_max_sessions) r.(cr_max_failures)
        done failures)) m)
  | CodeHosting, CodeEnds err =>
      let m := with_disk (remove_code id) (set_code id None m) in
      let m := match err with Some e => emit (EvCodeClosed id e) m | None => m end in
      Some (end_task tok m)
  | _, _ => None
  end.

(** ** Serving a share *)

Definition close_code (code : option PendingCode) (m : Manager) : Manager :=
  match code with
  | Some c => net (NetCloseSlot c.(pcd_record).(pc_relay) c.(pcd_record).(pc_slot)) m
  | None => m
  end.

(** [begin_serving], and what follows it in the task. *)
Definition begin_serving (now : Z) (id : Z) (payload : SendSource) (session : Session) (node_seed : bytes)
    (m : Manager) : Manager :=
  let stats := mkShareRecord 0 0 0 0 now in
  let m := set_share_stats id stats m in
  let m := with_disk (fun d => Records.persist_share id stats (persist_send
             (mkSendRecord id (source_label payload) node_seed session.(se_ticket) None) d)) m in
  let m := set_ticket id session.(se_ticket) (set_status_live id Active m) in
  emit (EvTicketReady id session.(se_ticket)) m.

Inductive ShareEvent :=
| SharePrepared (now : Z) (r : result (Session * bytes) Error)
| ShareStopped
| ShareResumed (r : result Session Error)
| ShareDay (now : Z)
| ShareServe (now : Z) (ev : SendEvent)
| ShareServed (r : option Error).

(** Bytes uploaded since the last report of the same receiver; a smaller figure is a
    new receiver. *)
Definition progress_delta (prev transferred : Z) : Z :=
  if prev <=? transferred then transferred - prev else transferred.
(** The deadline of a day limit. *)
Definition share_deadline (started days : Z) : Z := sat_add started (sat_mul days 86400).

Definition on_share_event (tok : nat) (id : Z) (s : Share) (total last : Z) (delivered : bool) (now : Z)
    (ev : SendEvent) (m : Manager) : Manager :=
  let goto last delivered m :=
    spawn tok (TaskShare id (s <| sh_pc := ShareServing total last delivered |>)) m in
  match ev with
  | SeProgress transferred total' =>
      let m := add_bytes_served id (progress_delta last transferred) m in
      goto transferred delivered (emit (EvProgress id transferred total') (set_progress id transferred m))
  | SeDelivered =>
      let m := add_bytes_served id (sat_sub total last) m in
      let m := persist_share_stats id (record_pickup id now m) in
      let m :=
        match cf.(cf_share_copies) with
        | Some cap => if cap <=? sh_copies_served (share_stats id m) then fire tok m else m
        | None => m
        end in
      goto 0 true (emit (EvProgress id total total) (set_progress id total m))
  | SePeers count => set_download_peers id count m
  | _ => m
  end.

Definition share_step (tok : nat) (id : Z) (s : Share) (e : ShareEvent) (m : Manager) : option Manager :=
  match s.(sh_pc), e with
  | SharePreparing, SharePrepared now (Ok (session, node_seed)) =>
      let m := begin_serving now id s.(sh_payload) session node_seed m in
      let m := match s.(sh_code) with Some c => host_code id session.(se_ticket) c m | None => m end in
      let m := with_disk (remove_pending_share id) m in
      Some (spawn tok (TaskShare id (mkShare s.(sh_payload) None (ShareServing session.(se_total_size) 0 false))) m)
  | SharePreparing, SharePrepared _ (Err e) =>
      Some (end_task tok (finish id false (Err (err_context "prepare send" e)) (close_code s.(sh_code) m)))
  | SharePreparing, ShareStopped =>
      if is_cancelled tok m then Some (end_task tok (finish id true (Ok None) (close_code s.(sh_code) m))) else None
  | ShareResuming, ShareResumed (Ok session) =>
      Some (spawn tok (TaskShare id (s <| sh_pc := ShareServing session.(se_total_size) 0 false |>)) m)
  | ShareResuming, ShareResumed (Err e) => Some (end_task tok (finish id false (Err e) m))
  | ShareServing _ _ _, ShareDay now =>
      match cf.(cf_share_days), m.(mg_transfers) !! id with
      | Some days, Some t =>
          let started := sh_started t.(tr_share) in
          if (0 <? started) && (share_deadline started days <=? now) then Some (fire tok m) else None
      | _, _ => None
      end
  | ShareServing total last delivered, ShareServe now ev =>
      Some (on_share_event tok id s total last delivered now ev m)
  | ShareServing _ _ delivered, ShareServed r =>
      Some (end_task tok
        (match r with
         | Some e => finish id false (Err e) m
         | None => finish id (negb delivered) (Ok None) m
         end))
  | _, _ => None
  end.
End sharing.
