(* ===== verification/Restart.v ===== *)
(** * Suspending and starting again

    [suspend_running], [resume_suspended], the [restore_*] functions and
    [resume_incomplete] of [core/src/manager/mod.rs], with [rebuild_prep] of
    [core/src/manager/work.rs] and [restore_link] of [core/src/manager/uploads.rs]. *)
From S2P Require Import Prelude.
From S2P Require Import SyncTypes.
From S2P Require Import Store.
From S2P Require Import Link.
From S2P Require Import Seeds.
From S2P Require Import Tickets.
From S2P Require Import Chunked.
From S2P Require Import Transfers.
From S2P Require Import Records.
From S2P Require Import ManagerState.
From S2P Require Import Manager.
From S2P Require Import Watching.
From S2P Require Import Landing.
From S2P Require Import Receiving.
From S2P Require Import Sharing.
Local Open Scope Z_scope.
Local Open Scope arvolo_scope.

Section restart.
Context {A : Type} `{!Base32Text, !Wire (ChunkTicket A), !Blake3Hash, !HexLower, !PublicIdParse}.
Context (cf : Config) (fs : Fs).

(** ** Suspending *)

Definition running_ids (m : Manager) : list Z :=
  (filter (fun p => p.2.(tr_status) = Active ∨ p.2.(tr_status) = Preparing) (map_to_list m.(mg_transfers))).*1.

(** A pause that the machine made; the marker is a person's until it is rewritten. *)
Definition suspend_one (id : Z) (stopped : list Z) (m : Manager) : list Z * Manager :=
  let '(paused, m) := pause id m in
  if negb paused then (stopped, m)
  else
    let marked := match m.(mg_disk) with Some d => is_paused_marked id d | None => false end in
    (stopped ++ [id], if marked then with_disk (mark_paused_by id BySystem) m else m).
Definition suspend_running (m : Manager) : list Z * Manager :=
  foldl (fun p id => suspend_one id p.1 p.2) ([], m) (running_ids m).

Definition paused_ids (m : Manager) : list Z :=
  (filter (fun p => is_paused p.2.(tr_status)) (map_to_list m.(mg_transfers))).*1.
Definition resume_suspended (m : Manager) : list Z * Manager :=
  match m.(mg_disk) with
  | None => ([], m)
  | Some d =>
      foldl (fun p id =>
        let '(restarted, m) := p in
        if decide (m.(mg_disk) ≫= paused_by id = Some BySystem) then
          let '(resumed, m) := resume cf id m in (if resumed then restarted ++ [id] else restarted, m)
        else (restarted, m)) ([], m) (paused_ids m)
  end.

(** ** Restoring *)

(** [rebuild_prep]: only for the payload that the digests were taken from. *)
Definition record_stamp (r : PrepRecord) : PayloadStamp :=
  mkPayloadStamp r.(pr_len) r.(pr_mtime_secs) r.(pr_mtime_nanos) r.(pr_dev) r.(pr_ino).
Definition rebuild_prep (r : PrepRecord) (source : SendSource) : option Prep :=
  match fs.(fs_stamp) (source_label source) with
  | None => None
  | Some now =>
      if bool_decide (now = record_stamp r) && (r.(pr_len) =? r.(pr_total_size))
         && (length r.(pr_key) =? 32)%nat && (length r.(pr_node_seed) =? 32)%nat
      then
        match from_digests r.(pr_total_size) r.(pr_chunks) with
        | Ok _ => Some (mkPrep r.(pr_key) r.(pr_node_seed) r.(pr_total_size) r.(pr_chunks))
        | Err _ => None
        end
      else None
  end.

Definition public_id (b : bytes) : option PublicId := if public_id_ok b then Some b else None.
Definition drop_token (id : Z) (m : Manager) : Manager := m <| mg_cancels ::= delete id |>.

Definition restore_deposited (now : Z) (r : DepositedRecord) (m : Manager) : Manager :=
  if r.(de_expires) <=? now then with_disk (remove_deposited r.(de_id)) m
  else
    let '(id, _, m) := register now Send (public_id r.(de_recipient)) r.(de_name) r.(de_size) m in
    let m := drop_token id m in
    spawn_offline_confirm id r.(de_relay) r.(de_offer_relay)
      (mkDepositOutcome r.(de_size) r.(de_claim) r.(de_revoke_token) r.(de_offer_id) r.(de_poster_token)
         "" OFFLINE_MAX_DOWNLOADS (sat_sub r.(de_expires) now)) r.(de_expires) m.

Definition rekey_prep (id : Z) (r : PrepRecord) : PrepRecord :=
  mkPrepRecord id r.(pr_key) r.(pr_node_seed) r.(pr_total_size) r.(pr_chunks) r.(pr_payload)
    r.(pr_len) r.(pr_mtime_secs) r.(pr_mtime_nanos) r.(pr_dev) r.(pr_ino).
Definition restore_sendto (now : Z) (r : SendToRecord) (prep : option PrepRecord) (m : Manager) : Manager :=
  match public_id r.(st_recipient), (match r.(st_relay) with Some x => Some x | None => cf.(cf_relay) end) with
  | Some recipient, Some relay =>
      let source := SourcePath r.(st_payload) in
      let '(id, tok, m) := register now Send (Some recipient) r.(st_name) (source_size fs source) m in
      let slot := prep ≫= fun p => rebuild_prep p source in
      let '(upload, m) := take_upload_record fs r.(st_id) r.(st_payload) m in
      let h := new_held recipient source r.(st_name) r.(st_archive) r.(st_note) r.(st_target)
                 r.(st_relay) r.(st_live_only) slot in
      let m := m <| mg_held ::= <[id := h]> |> in
      let m := match upload with Some u => remember fs id u source m | None => m end in
      let m := match prep, slot with
               | Some p, Some _ => with_disk (persist_prep (rekey_prep id p)) m
               | _, _ => m
               end in
      if r.(st_paused) then
        let m := persist_held_record id true r.(st_reason) (drop_token id m) in
        emit (EvPaused id r.(st_reason)) (set_status id (Paused r.(st_reason)) m)
      else
        let m := persist_held_record id false "" m in
        spawn tok (TaskDeliver id (new_delivery relay h)) m
  | _, _ => m
  end.

Definition restore_paused_download (now : Z) (r : DownloadRecord) (m : Manager) : Manager :=
  let '(id, _, m) := register now Recv None r.(dr_name) r.(dr_size) m in
  let m := note_download_content (A := A) id r.(dr_ticket) (drop_token id m) in
  let m := with_disk (fun d => mark_paused id (persist_download
             (mkDownloadRecord id r.(dr_ticket) r.(dr_out_path) r.(dr_name) r.(dr_size)) d)) m in
  emit (EvPaused id "paused by hand") (set_status id (Paused "paused by hand") m).

(** [restore_link]; [fresh] is what a new seal of the payload would be. *)
Definition restore_link (now : Z) (fresh : string → result LinkSeal Error) (r : LinkRecord) (m : Manager) : Manager :=
  let source := SourcePath r.(lr_payload) in
  let '(resumed, m) := take_upload_record fs r.(lr_id) r.(lr_payload) m in
  let seal :=
    match resumed with
    | Some (mkResumable (SealLink seal) _) => Ok seal
    | _ => fresh r.(lr_payload)
    end in
  match seal with
  | Err e =>
      let name := default r.(lr_payload) (file_name r.(lr_payload)) in
      let '(id, _, m) := register now Send None name 0 m in
      finish id false (Err e) m
  | Ok seal =>
      let session := resumed ≫= rs_session in
      let '(id, tok, m) := register now Send None seal.(ls_name) seal.(ls_size) m in
      let m := with_disk (persist_link (mkLinkRecord id r.(lr_payload) r.(lr_relay) r.(lr_ttl) r.(lr_max))) m in
      let m := remember fs id (mkResumable (SealLink seal) session) source m in
      spawn tok (TaskLink id (mkLinkRun source r.(lr_relay) r.(lr_ttl) r.(lr_max) RunReady FIRST_PAUSE)) m
  end.

(** ** [resume_incomplete] *)

(** One step per record of each kind, in the order of the code. *)
Definition resume_deposited (now : Z) (m : Manager) (r : DepositedRecord) : Manager :=
  restore_deposited now r (with_disk (remove_deposited r.(de_id)) m).
Definition sweep_preps (live : list SendToRecord) (m : Manager) : Manager :=
  match m.(mg_disk) with
  | None => m
  | Some d =>
      foldl (fun m p => if existsb (fun r => r.(st_id) =? p.(pr_id)) live then m
                        else with_disk (remove_prep p.(pr_id)) m) m (map_to_list d.(dk_preps)).*2
  end.
Definition resume_sendto (now : Z) (m : Manager) (r : SendToRecord) : Manager :=
  let prep := m.(mg_disk) ≫= load_prep r.(st_id) in
  let m := with_disk (fun d => remove_sendto r.(st_id) (remove_prep r.(st_id) d)) m in
  restore_sendto now r prep m.
Definition resume_link (now : Z) (fresh : string → result LinkSeal Error) (m : Manager) (r : LinkRecord) : Manager :=
  restore_link now fresh r (with_disk (remove_link_record r.(lr_id)) m).
Definition pending_code (c : PendingCodeRecord) : option PendingCode :=
  if (length c.(pc_owner_token) =? 32)%nat then Some (mkPendingCode c true) else None.
Definition resume_pending_share (now : Z) (m : Manager) (r : PendingShareRecord) : Manager :=
  let m := with_disk (remove_pending_share r.(ps_id)) m in
  (start_share fs now (SourcePath r.(ps_payload)) r.(ps_name) r.(ps_archive) r.(ps_seed_relay)
     (r.(ps_code) ≫= pending_code) m).2.
Definition resume_download (now : Z) (m : Manager) (r : DownloadRecord) : Manager :=
  let was_paused := bool_decide (m.(mg_disk) ≫= paused_by r.(dr_id) = Some ByUser) in
  let m := with_disk (remove_download r.(dr_id)) m in
  if was_paused then restore_paused_download now r m
  else (start_download (A := A) now r.(dr_ticket) r.(dr_out_path) None r.(dr_name) r.(dr_size) None None m).2.
(** A share comes back with its counters, and takes its code along. *)
Definition resume_share (now : Z) (p : gmap Z CodeRecord * Manager) (r : SendRecord) : gmap Z CodeRecord * Manager :=
  let '(codes, m) := p in
  let stats := match m.(mg_disk) with Some d => load_share r.(sr_id) d | None => no_share end in
  let m := with_disk (fun d => remove_share r.(sr_id) (remove_send r.(sr_id) d)) m in
  match resume_serve (A := A) now r stats m with
  | (Some new_id, m) =>
      match codes !! r.(sr_id) with
      | Some code => (delete r.(sr_id) codes, resume_code code new_id m)
      | None => (codes, m)
      end
  | (None, m) => (codes, m)
  end.

(** The records of each kind in the order in which the directory lists them. *)
Record Listing := mkListing {
  li_downloads : list DownloadRecord;
  li_sends : list SendRecord;
  li_sendtos : list SendToRecord;
  li_depositeds : list DepositedRecord;
  li_links : list LinkRecord;
  li_pending_shares : list PendingShareRecord }.
Definition lists (d : Disk) (l : Listing) : Prop :=
  l.(li_downloads) ≡ₚ (map_to_list d.(dk_downloads)).*2 ∧
  l.(li_sends) ≡ₚ (map_to_list d.(dk_sends)).*2 ∧
  l.(li_sendtos) ≡ₚ (map_to_list d.(dk_sendtos)).*2 ∧
  l.(li_depositeds) ≡ₚ (map_to_list d.(dk_depositeds)).*2 ∧
  l.(li_links) ≡ₚ (map_to_list d.(dk_links)).*2 ∧
  l.(li_pending_shares) ≡ₚ (map_to_list d.(dk_pending_shares)).*2.

Definition resume_incomplete (now : Z) (fresh : string → result LinkSeal Error) (l : Listing) (m : Manager)
    : nat * Manager :=
  match m.(mg_disk) with
  | None => (0%nat, m)
  | Some d =>
      let codes := d.(dk_codes) in
      let m := with_disk (fun d => d <| dk_codes := ∅ |>) m in
      let n := (length l.(li_downloads) + length l.(li_sends) + length l.(li_sendtos) +
                length l.(li_depositeds) + length l.(li_links) + length l.(li_pending_shares))%nat in
      let m := foldl (resume_deposited now) m l.(li_depositeds) in
      let m := sweep_preps l.(li_sendtos) m in
      let m := foldl (resume_sendto now) m l.(li_sendtos) in
      let m := foldl (resume_link now fresh) m l.(li_links) in
      let m := foldl (resume_pending_share now) m l.(li_pending_shares) in
      let m := sweep_upload_records m in
      let m := foldl (resume_download now) m l.(li_downloads) in
      (n, (foldl (resume_share now) (codes, m) l.(li_sends)).2)
  end.
End restart.
