(* ===== verification/ManagerRuns.v ===== *)
(** * Runs of the transfer manager

    Everything that can happen to a manager as one step function: a call of a front end
    ([Op]), or one step of one of its tasks ([TaskEvent]).  A run is a list of steps, each
    with the clock and the file system that it finds. *)
From S2P Require Import Prelude.
From S2P Require Import SyncTypes.
From S2P Require Import Store.
From S2P Require Import Link.
From S2P Require Import UploadClient.
From S2P Require Import Seeds.
From S2P Require Import Tickets.
From S2P Require Import Transfers.
From S2P Require Import Records.
From S2P Require Import ManagerState.
From S2P Require Import Manager.
From S2P Require Import Watching.
From S2P Require Import Uploading.
From S2P Require Import Delivery.
From S2P Require Import Receiving.
From S2P Require Import Sharing.
From S2P Require Import Restart.
Local Open Scope Z_scope.

Inductive TaskEvent :=
| TeDeliver (e : DeliverEvent)
| TeFetch (e : FetchEvent)
| TeLink (e : LinkEvent)
| TeDeposit (e : DepositEvent)
| TeShare (e : ShareEvent)
| TeWatch (l : Look)
| TeWithdraw (made : nat)
| TeCode (e : CodeEvent).

Inductive Op :=
| OpSendTo (recipient : PublicId) (source : SendSource) (name : string) (archive : bool)
    (note : string) (target : option bytes) (live_only : bool) (theirs : option string)
| OpDeposit (recipient : PublicId) (payload : SendSource) (name note : string) (opts : MailboxOpts)
    (relay : option string)
| OpLink (source : SendSource) (fresh : result LinkSeal Error) (ttl max : Z)
| OpShare (payload : SendSource) (name : string) (archive : bool) (seed_relay : option string)
    (code : option PendingCode)
| OpDownload (ticket out_path : string) (peer : option PublicId) (name : string) (size : Z)
    (password : option string)
| OpOffer (offer : ReceivedOffer)
| OpAccept (offer_id : string) (out password : option string)
| OpReject (offer_id : string)
| OpCancel (id : Z)
| OpPause (id : Z)
| OpResume (id : Z)
| OpDepositNow (id : Z)
| OpRemove (id : Z)
| OpClear
| OpAdopt (row : FinishedRow)
| OpSuspend
| OpResumeSuspended
| OpRestart (fresh : string → result LinkSeal Error) (l : Listing).

Inductive Event := Call (op : Op) | Step (tok : nat) (e : TaskEvent).
(** An event with the clock and the file system at its time. *)
Record Happening := mkHappening { ha_fs : Fs; ha_now : Z; ha_event : Event }.

Section runs.
Context {A : Type} `{!Base32Text, !Wire (ChunkTicket A), !Wire OfflineTicket, !Wire OfflineWireV1,
  !Blake3Hash, !HexLower, !PublicIdParse}.
Context (cf : Config) (stage_path : string → string).

Definition task_step (fs : Fs) (tok : nat) (t : Task) (e : TaskEvent) (m : Manager) : option Manager :=
  match t, e with
  | TaskDeliver id d, TeDeliver e => deliver_step cf fs tok id d e m
  | TaskFetch id f, TeFetch e => fetch_step (A := A) cf stage_path tok id f e m
  | TaskLink id l, TeLink e => run_link_step fs tok id l e m
  | TaskDeposit id d, TeDeposit e => run_deposit_step cf fs tok id d e m
  | TaskShare id s, TeShare e => share_step cf tok id s e m
  | TaskWatch id w, TeWatch l => Some (watch_turn tok id w l m)
  | TaskWithdraw id w, TeWithdraw made => Some (withdraw_end tok id w made m)
  | TaskCode id c, TeCode e => code_step tok id c e m
  | _, _ => None
  end.

Definition op_step (fs : Fs) (now : Z) (op : Op) (m : Manager) : Manager :=
  match op with
  | OpSendTo recipient source name archive note target live_only theirs =>
      (send_to cf fs now recipient source name archive note target live_only theirs m).2
  | OpDeposit recipient payload name note opts relay =>
      (start_deposit cf fs now recipient payload name note opts relay m).2
  | OpLink source fresh ttl max => (create_link cf fs now source fresh ttl max m).2
  | OpShare payload name archive seed_relay code =>
      (start_share fs now payload name archive seed_relay code m).2
  | OpDownload ticket out_path peer name size password =>
      (start_download (A := A) now ticket out_path peer name size password None m).2
  | OpOffer offer => on_offer (A := A) cf offer m
  | OpAccept offer_id out password => (accept_offer (A := A) cf now offer_id out password m).2
  | OpReject offer_id => reject_offer cf offer_id m
  | OpCancel id => (cancel id m).2
  | OpPause id => (pause id m).2
  | OpResume id => (resume cf id m).2
  | OpDepositNow id => (deposit_now id m).2
  | OpRemove id => (remove id m).2
  | OpClear => (clear_finished m).2
  | OpAdopt row => (adopt_finished row m).2
  | OpSuspend => (suspend_running m).2
  | OpResumeSuspended => (resume_suspended cf m).2
  | OpRestart fresh l => (resume_incomplete (A := A) cf fs now fresh l m).2
  end.

Definition step (h : Happening) (m : Manager) : option Manager :=
  match h.(ha_event) with
  | Call op => Some (op_step h.(ha_fs) h.(ha_now) op m)
  | Step tok e => t ← m.(mg_tasks) !! tok; task_step h.(ha_fs) tok t e m
  end.

Fixpoint run (hs : list Happening) (m : Manager) : option Manager :=
  match hs with
  | [] => Some m
  | h :: hs => m ← step h m; run hs m
  end.

(** What every step keeps holds after any run. *)
Lemma run_keeps (ok : Happening → Prop) (P : Manager → Prop) hs m m' :
  (∀ h m m', ok h → P m → step h m = Some m' → P m') →
  Forall ok hs → P m → run hs m = Some m' → P m'.
Proof.
  intros Hstep Hok. revert m. induction Hok as [|h hs Hh _ IH]; intros m HP; cbn.
  - by intros [= <-].
  - destruct (step h m) as [m1|] eqn:E; [|done]. cbn. apply IH. by eapply Hstep.
Qed.
End runs.
