(* ===== verification/ManagerFrames.v ===== *)
(** * What one transfer's steps may touch

    Most of what the manager does for a transfer changes its own row and nothing of the
    others.  [core] is the part of the state that says who runs; [frames] relates two
    managers between which only one transfer's row moved. *)
From S2P Require Import Prelude.
From S2P Require Import SyncTypes.
From S2P Require Import Store.
From S2P Require Import Link.
From S2P Require Import UploadClient.
From S2P Require Import Seeds.
From S2P Require Import Tickets.
From S2P Require Import Transfers.
From S2P Require Import Records.
From S2P Require Import ManagerState.
From S2P Require Import Manager.
From S2P Require Import Watching.
From S2P Require Import Uploading.
From S2P Require Import Delivery.
From S2P Require Import Receiving.
From S2P Require Import Sharing.
Local Open Scope Z_scope.

Create HintDb core.
Create HintDb frames.

(** ** Rows *)

(** The words beside a status: a waiting row carries those of one reason, and any other
    row carries none. *)
Definition row_says (t : Transfer) : Prop :=
  match t.(tr_status) with
  | Waiting s => ∃ r, s = waiting_text r ∧ t.(tr_waiting_code) = waiting_code r ∧
                      t.(tr_waiting_detail) = default ""%string (waiting_detail r)
  | _ => t.(tr_waiting_code) = ""%string ∧ t.(tr_waiting_detail) = ""%string
  end.

Definition live_row (id : Z) (m : Manager) : Prop :=
  ∃ t, m.(mg_transfers) !! id = Some t ∧ is_live t.(tr_status) = true.
(** The row, if it is there, is not running; or not even paused. *)
Definition rests (id : Z) (m : Manager) : Prop :=
  ∀ t, m.(mg_transfers) !! id = Some t → is_live t.(tr_status) = false.
Definition settled (id : Z) (m : Manager) : Prop :=
  ∀ t, m.(mg_transfers) !! id = Some t → is_live t.(tr_status) = false ∧ is_paused t.(tr_status) = false.

Lemma settled_rests id m : settled id m → rests id m.
Proof. intros Hs t Ht. by apply Hs in Ht as [? _]. Qed.

(** ** The core *)

Definition core (m : Manager) : Z * gmap Z Transfer * gmap Z nat * gmap nat Task * nat * gset nat :=
  (m.(mg_next_id), m.(mg_transfers), m.(mg_cancels), m.(mg_tasks), m.(mg_next_task), m.(mg_fired)).

Lemma core_eq m m' : core m = core m' →
  m.(mg_next_id) = m'.(mg_next_id) ∧ m.(mg_transfers) = m'.(mg_transfers) ∧
  m.(mg_cancels) = m'.(mg_cancels) ∧ m.(mg_tasks) = m'.(mg_tasks) ∧
  m.(mg_next_task) = m'.(mg_next_task) ∧ m.(mg_fired) = m'.(mg_fired).
Proof. unfold core. by intros [= -> -> -> -> -> ->]. Qed.

Section core.
Context (m : Manager).
Lemma core_emit ev : core (emit ev m) = core m. Proof. reflexivity. Qed.
Lemma core_net c : core (net c m) = core m. Proof. reflexivity. Qed.
Lemma core_with_disk f : core (with_disk f m) = core m. Proof. reflexivity. Qed.
Lemma core_upd_held id f : core (upd_held id f m) = core m. Proof. reflexivity. Qed.
Lemma core_abandon s : core (abandon s m) = core m. Proof. by destruct s. Qed.
Lemma core_persist_upload fs id r s : core (persist_upload fs id r s m) = core m.
Proof. unfold persist_upload. destruct s as [path|]; [|done]. destruct (negb _); [done|]. by destruct (fs_stamp _ _). Qed.
Lemma core_persist_held id p r : core (persist_held_record id p r m) = core m.
Proof. unfold persist_held_record. by destruct (_ !! _). Qed.
Lemma core_drop_held id : core (drop_held id m) = core m. Proof. reflexivity. Qed.
Lemma core_persist_prep fs id s b : core (persist_prep_record fs id s b m) = core m.
Proof.
  unfold persist_prep_record. destruct b; [|done]. destruct (fs_stamp _ _); [|done].
  destruct (held_prep _ _); [|done]. by case_decide.
Qed.
End core.

Lemma core_remember m fs id r s : core (remember fs id r s m) = core m.
Proof. exact (core_persist_upload m fs id r s). Qed.
Lemma core_forget m id b : core (forget id b m) = core m.
Proof. unfold forget. destruct b; [by rewrite core_abandon|done]. Qed.
Lemma core_session m fs id s p : core (session_changed fs id s p m) = core m.
Proof.
  unfold session_changed. destruct (_ !! _) as [r|]; [|done].
  by rewrite core_persist_upload.
Qed.
Lemma core_ack m cf o : core (ack cf o m) = core m.
Proof. unfold ack. by destruct (cf_relay cf). Qed.
Lemma core_close_code m c : core (close_code c m) = core m.
Proof. by destruct c. Qed.
Lemma core_mailbox_seal m fs id s fresh : core (mailbox_seal fs id s fresh m).2 = core m.
Proof.
  unfold mailbox_seal. destruct (fs_len fs s); [|done].
  destruct (mg_uploads m !! id) as [[[?|seal] ses]|]; [destruct fresh| |destruct fresh];
    cbn -[remember forget]; rewrite ?core_remember; try done.
  case_match; cbn -[remember forget]; [done|].
  destruct fresh; cbn -[remember forget]; rewrite ?core_remember, ?core_forget; done.
Qed.
#[export] Hint Rewrite core_emit core_net core_with_disk core_upd_held core_abandon
  core_persist_upload core_persist_held core_drop_held core_persist_prep core_remember
  core_forget core_session core_ack core_close_code core_mailbox_seal : core.

(** ** Frames *)

(** The new tasks of a step are pairing codes of the same transfer. *)
Definition gains_codes (id : Z) (m m' : Manager) : Prop :=
  ∀ k, m'.(mg_tasks) !! k = m.(mg_tasks) !! k ∨
       (m.(mg_next_task) <= k < m'.(mg_next_task))%nat ∧ m.(mg_tasks) !! k = None ∧
       ∃ c, m'.(mg_tasks) !! k = Some (TaskCode id c).

(** From [m] to [m'] only the row of [id] moved, and kept its id and the sense of its
    words; with [keep] it also stayed alive and kept its token. *)
Record frames (keep : bool) (id : Z) (m m' : Manager) : Prop := {
  fr_next_id : m'.(mg_next_id) = m.(mg_next_id);
  fr_next_task : (m.(mg_next_task) <= m'.(mg_next_task))%nat;
  fr_fired : m.(mg_fired) ⊆ m'.(mg_fired);
  fr_tasks : gains_codes id m m';
  fr_rows : ∀ j, j ≠ id → m'.(mg_transfers) !! j = m.(mg_transfers) !! j;
  fr_cancels : ∀ j, j ≠ id → m'.(mg_cancels) !! j = m.(mg_cancels) !! j;
  fr_row : match m.(mg_transfers) !! id with
           | None => m'.(mg_transfers) !! id = None
           | Some t => ∃ t', m'.(mg_transfers) !! id = Some t' ∧ t'.(tr_id) = t.(tr_id) ∧
                             (row_says t → row_says t') ∧
                             (keep = true → is_live t.(tr_status) = true → is_live t'.(tr_status) = true)
           end;
  fr_cancel : keep = true → m'.(mg_cancels) !! id = m.(mg_cancels) !! id }.

Lemma frames_refl keep id m : frames keep id m m.
Proof.
  split; try done; [by left|]. destruct (_ !! _) as [t|]; [|done]. by exists t.
Qed.

Lemma frames_core keep id m m1 m2 : core m2 = core m1 → frames keep id m m1 → frames keep id m m2.
Proof.
  intros (E1 & E2 & E3 & E4 & E5 & E6)%core_eq [F1 F2 FF F3 F4 F5 F6 F7].
  split; unfold gains_codes in *; rewrite ?E1, ?E2, ?E3, ?E4, ?E5, ?E6; done.
Qed.

Lemma frames_trans keep id m m1 m2 : frames keep id m m1 → frames keep id m1 m2 → frames keep id m m2.
Proof.
  intros [F1 F2 FF F3 F4 F5 F6 F7] [G1 G2 GF G3 G4 G5 G6 G7]. split.
  - congruence.
  - lia.
  - by transitivity (mg_fired m1).
  - intros k. destruct (G3 k) as [->|(Hk & E1 & E2)].
    + destruct (F3 k) as [?|(? & ? & ?)]; [by left|right; split; [lia|done]].
    + destruct (F3 k) as [E|(? & _ & c & E)]; [|congruence]. right. split; [lia|by rewrite <- E].
  - intros j Hj. by rewrite G4, F4.
  - intros j Hj. by rewrite G5, F5.
  - destruct (mg_transfers m !! id) as [t|]; [|by rewrite F6 in G6].
    destruct F6 as (t1 & E1 & ? & ? & ?). rewrite E1 in G6. destruct G6 as (t2 & E2 & ? & ? & ?).
    exists t2. split_and!; [done|congruence|auto|auto].
  - intros Hk. by rewrite G7, F7.
Qed.

Lemma frames_weaken id m m1 : frames true id m m1 → frames false id m m1.
Proof.
  intros [F1 F2 FF F3 F4 F5 F6 F7]. split; try done.
  destruct (_ !! id) as [t|]; [|done]. destruct F6 as (t' & ? & ? & ? & ?). by exists t'.
Qed.

Lemma frames_upd_row keep id f m m1 :
  (∀ t, tr_id (f t) = tr_id t) → (∀ t, row_says t → row_says (f t)) →
  (keep = true → ∀ t, is_live t.(tr_status) = true → is_live (f t).(tr_status) = true) →
  frames keep id m m1 → frames keep id m (upd_row id f m1).
Proof.
  intros Hid Hsays Hlive [F1 F2 FF F3 F4 F5 F6 F7]. split; try done.
  - intros j Hj. cbn. rewrite lookup_alter_ne by done. auto.
  - destruct (mg_transfers m !! id) as [t|]; cbn.
    + destruct F6 as (t' & E & ? & ? & ?). rewrite lookup_alter_eq, E. cbn.
      exists (f t'). rewrite Hid. auto 10.
    + by rewrite lookup_alter_eq, F6.
Qed.

(** A plain field: neither the status nor the words beside it. *)
Definition plain (f : Transfer → Transfer) : Prop :=
  ∀ t, (f t).(tr_id) = t.(tr_id) ∧ (f t).(tr_status) = t.(tr_status) ∧
       (f t).(tr_waiting_code) = t.(tr_waiting_code) ∧ (f t).(tr_waiting_detail) = t.(tr_waiting_detail).

Lemma frames_plain keep id f m m1 :
  plain f → frames keep id m m1 → frames keep id m (upd_row id f m1).
Proof.
  intros Hf. apply frames_upd_row; intros; destruct (Hf t) as (E1 & E2 & E3 & E4); [done| |].
  - unfold row_says. by rewrite E2, E3, E4.
  - by rewrite E2.
Qed.

Lemma plain_rests id f m : plain f → rests id m → rests id (upd_row id f m).
Proof.
  intros Hf Hr t. cbn. rewrite lookup_alter_eq. destruct (_ !! _) as [t0|] eqn:E; [|done].
  intros [= <-]. destruct (Hf t0) as (_ & -> & _). by apply Hr.
Qed.
Lemma plain_settled id f m : plain f → settled id m → settled id (upd_row id f m).
Proof.
  intros Hf Hr t. cbn. rewrite lookup_alter_eq. destruct (_ !! _) as [t0|] eqn:E; [|done].
  intros [= <-]. destruct (Hf t0) as (_ & -> & _). by apply Hr.
Qed.

Lemma rests_core id m m' : core m' = core m → rests id m → rests id m'.
Proof. intros (_ & E & _)%core_eq Hr t. rewrite E. apply Hr. Qed.
Lemma settled_core id m m' : core m' = core m → settled id m → settled id m'.
Proof. intros (_ & E & _)%core_eq Hr t. rewrite E. apply Hr. Qed.

(** ** The setters *)

(** A status without words. *)
Definition not_waiting (s : TransferStatus) : bool := match s with Waiting _ => false | _ => true end.

Lemma says_status t s : not_waiting s = true → row_says (clear_waiting_code (t <| tr_status := s |>)).
Proof. unfold row_says, clear_waiting_code. by destruct s. Qed.
Lemma status_status t s : (clear_waiting_code (t <| tr_status := s |>)).(tr_status) = s.
Proof. unfold clear_waiting_code. by destruct s. Qed.
Lemma id_status t s : (clear_waiting_code (t <| tr_status := s |>)).(tr_id) = t.(tr_id).
Proof. unfold clear_waiting_code. by destruct s. Qed.

Lemma frames_set_status id s m m1 :
  not_waiting s = true → frames false id m m1 → frames false id m (set_status id s m1).
Proof.
  intros Hs F. apply (frames_upd_row _ _ (fun t => clear_waiting_code (t <| tr_status := s |>))) in F
    as [F1 F2 FF F3 F4 F5 F6 F7].
  - split; try done. intros j Hj. cbn. rewrite lookup_delete_ne by done. by apply F5.
  - intros t. apply id_status.
  - intros t _. by apply says_status.
  - done.
Qed.

Lemma frames_set_status_live keep id s m m1 :
  not_waiting s = true → is_live s = true → frames keep id m m1 → frames keep id m (set_status_live id s m1).
Proof.
  intros Hs Hl. apply frames_upd_row.
  - intros t. apply id_status.
  - intros t _. by apply says_status.
  - intros _ t _. by rewrite status_status.
Qed.

Lemma set_status_row id s m t :
  mg_transfers (set_status id s m) !! id = Some t → t.(tr_status) = s.
Proof.
  cbn. rewrite lookup_alter_eq. destruct (_ !! _); [|done]. intros [= <-]. apply status_status.
Qed.
Lemma rests_set_status id s m : is_live s = false → rests id (set_status id s m).
Proof. by intros Hs t ->%set_status_row. Qed.
Lemma settled_set_status id s m :
  is_live s = false → is_paused s = false → settled id (set_status id s m).
Proof. by intros Hs Hp t ->%set_status_row. Qed.

(** [set_waiting] writes the status and its words together. *)
Lemma set_waiting_row id r m :
  mg_transfers (set_waiting id r m) =
  alter (fun t => t <| tr_status := Waiting (waiting_text r) |> <| tr_waiting_code := waiting_code r |>
                    <| tr_waiting_detail := default ""%string (waiting_detail r) |>) id m.(mg_transfers).
Proof.
  unfold set_waiting, set_waiting_code, set_status_live, upd_row. cbn -[alter].
  rewrite alter_alter_eq. by apply alter_ext.
Qed.
Lemma set_waiting_rest id r m :
  core (set_waiting id r m) = core (upd_row id (fun t => t <| tr_status := Waiting (waiting_text r) |>
     <| tr_waiting_code := waiting_code r |> <| tr_waiting_detail := default ""%string (waiting_detail r) |>) m).
Proof. unfold core. rewrite set_waiting_row. reflexivity. Qed.

Lemma frames_set_waiting keep id r m m1 : frames keep id m m1 → frames keep id m (set_waiting id r m1).
Proof.
  intros F. eapply frames_core; [apply set_waiting_rest|]. apply frames_upd_row; try done.
  intros t _. unfold row_says. cbn. by exists r.
Qed.

(** ** The hints *)

Ltac plain_field := intros t; repeat split; reflexivity.

Section setters.
Context (keep : bool) (id : Z) (m : Manager).
Lemma frames_emit m1 ev : frames keep id m m1 → frames keep id m (emit ev m1).
Proof. by apply frames_core. Qed.
Lemma frames_net m1 c : frames keep id m m1 → frames keep id m (net c m1).
Proof. by apply frames_core. Qed.
Lemma frames_disk m1 f : frames keep id m m1 → frames keep id m (with_disk f m1).
Proof. by apply frames_core. Qed.
Lemma frames_upd_held m1 j f : frames keep id m m1 → frames keep id m (upd_held j f m1).
Proof. by apply frames_core. Qed.
Lemma frames_fire m1 tok : frames keep id m m1 → frames keep id m (fire tok m1).
Proof. intros [F1 F2 FF F3 F4 F5 F6 F7]. split; try done. cbn. set_solver. Qed.
Lemma frames_forget m1 j b : frames keep id m m1 → frames keep id m (forget j b m1).
Proof. apply frames_core, core_forget. Qed.
Lemma frames_session m1 fs j s p : frames keep id m m1 → frames keep id m (session_changed fs j s p m1).
Proof. apply frames_core, core_session. Qed.
Lemma frames_persist_held m1 j p r : frames keep id m m1 → frames keep id m (persist_held_record j p r m1).
Proof. apply frames_core, core_persist_held. Qed.
Lemma frames_persist_prep m1 fs j p r : frames keep id m m1 → frames keep id m (persist_prep_record fs j p r m1).
Proof. apply frames_core, core_persist_prep. Qed.
Lemma frames_drop_held m1 j : frames keep id m m1 → frames keep id m (drop_held j m1).
Proof. apply frames_core, core_drop_held. Qed.
Lemma frames_ack m1 cf o : frames keep id m m1 → frames keep id m (ack cf o m1).
Proof. apply frames_core, core_ack. Qed.
Lemma frames_close_code m1 c : frames keep id m m1 → frames keep id m (close_code c m1).
Proof. apply frames_core, core_close_code. Qed.
Lemma frames_content m1 g : frames keep id m m1 → frames keep id m (m1 <| mg_download_content ::= g |>).
Proof. by apply frames_core. Qed.
Lemma frames_acks m1 g : frames keep id m m1 → frames keep id m (m1 <| mg_deferred_acks ::= g |>).
Proof. by apply frames_core. Qed.
Lemma frames_aborts m1 g : frames keep id m m1 → frames keep id m (m1 <| mg_recv_aborts ::= g |>).
Proof. by apply frames_core. Qed.
Lemma frames_set_waiting_plain m1 p : frames keep id m m1 → frames keep id m (set_path id p m1).
Proof. apply frames_plain. plain_field. Qed.
Lemma frames_set_saved_uri m1 u : frames keep id m m1 → frames keep id m (set_saved_uri id u m1).
Proof. apply frames_plain. plain_field. Qed.
Lemma frames_set_offer_status m1 s : frames keep id m m1 → frames keep id m (set_offer_status id s m1).
Proof. apply frames_plain. plain_field. Qed.
Lemma frames_set_progress m1 n : frames keep id m m1 → frames keep id m (set_progress id n m1).
Proof. apply frames_plain. plain_field. Qed.
Lemma frames_set_ticket m1 s : frames keep id m m1 → frames keep id m (set_ticket id s m1).
Proof. apply frames_plain. plain_field. Qed.
Lemma frames_set_link m1 s : frames keep id m m1 → frames keep id m (set_link id s m1).
Proof. apply frames_plain. plain_field. Qed.
Lemma frames_set_peer m1 p : frames keep id m m1 → frames keep id m (set_peer id p m1).
Proof. apply frames_plain. plain_field. Qed.
Lemma frames_set_swarm m1 a b : frames keep id m m1 → frames keep id m (set_swarm id a b m1).
Proof. apply frames_plain. plain_field. Qed.
Lemma frames_set_download_peers m1 n : frames keep id m m1 → frames keep id m (set_download_peers id n m1).
Proof. apply frames_plain. plain_field. Qed.
Lemma frames_set_code m1 c : frames keep id m m1 → frames keep id m (set_code id c m1).
Proof. apply frames_plain. plain_field. Qed.
Lemma frames_set_share_stats m1 c : frames keep id m m1 → frames keep id m (set_share_stats id c m1).
Proof. apply frames_plain. plain_field. Qed.
Lemma frames_add_bytes m1 b : frames keep id m m1 → frames keep id m (add_bytes_served id b m1).
Proof. apply frames_plain. plain_field. Qed.
Lemma frames_record_pickup m1 b : frames keep id m m1 → frames keep id m (record_pickup id b m1).
Proof. apply frames_plain. plain_field. Qed.
Lemma frames_persist_share m1 : frames keep id m m1 → frames keep id m (persist_share_stats id m1).
Proof. apply frames_disk. Qed.
Lemma frames_report_progress m1 a b c : frames keep id m m1 → frames keep id m (report_progress id a b c m1).
Proof. intros F. unfold report_progress. by apply frames_emit, frames_set_progress. Qed.
Lemma frames_set_offer_status_live m1 s : frames keep id m m1 → frames keep id m (set_offer_status_live id s m1).
Proof.
  intros F. apply (frames_set_offer_status _ s) in F. unfold set_offer_status_live.
  destruct (_ !! _) as [t|]; [|done]. by destruct (tr_status t); [..|apply frames_emit| | |].
Qed.
Lemma frames_clear_token m1 : frames false id m m1 → frames false id m (m1 <| mg_cancels ::= delete id |>).
Proof.
  intros [F1 F2 FF F3 F4 F5 F6 F7]. split; try done.
  intros j Hj. cbn. rewrite lookup_delete_ne by done. by apply F5.
Qed.
End setters.
#[export] Hint Resolve frames_refl frames_emit frames_net frames_disk frames_upd_held frames_fire
  frames_forget frames_session frames_persist_held frames_persist_prep frames_drop_held frames_ack
  frames_close_code frames_content frames_acks frames_aborts frames_set_waiting_plain
  frames_set_saved_uri frames_set_offer_status frames_set_progress frames_set_ticket frames_set_link
  frames_set_peer frames_set_swarm frames_set_download_peers frames_set_code frames_set_share_stats
  frames_add_bytes frames_record_pickup frames_persist_share frames_report_progress
  frames_set_offer_status_live frames_set_waiting : frames.
#[export] Hint Extern 1 (frames _ _ _ (set_status_live _ _ _)) =>
  apply frames_set_status_live; [reflexivity|reflexivity|] : frames.
#[export] Hint Extern 1 (frames _ _ _ (set_status _ _ _)) =>
  apply frames_set_status; [reflexivity|] : frames.

Lemma frames_fill_prep keep id j p m m1 : frames keep id m m1 → frames keep id m (fill_prep j p m1).
Proof. by apply frames_core. Qed.
Lemma frames_held_attempt keep id j p m m1 : frames keep id m m1 → frames keep id m (set_held_attempt j p m1).
Proof. by apply frames_core. Qed.
Lemma frames_clear_deposit_now keep id j m m1 : frames keep id m m1 → frames keep id m (clear_deposit_now j m1).
Proof. by apply frames_core. Qed.
Lemma frames_new_token keep id m m1 : frames keep id m m1 → frames keep id m (new_token m1).2.
Proof.
  intros [F1 F2 FF F3 F4 F5 F6 F7]. split; try done; cbn; [lia|].
  intros k. destruct (F3 k) as [|(? & ? & ?)]; [by left|]. right. cbn. split; [lia|done].
Qed.
#[export] Hint Resolve frames_fill_prep frames_held_attempt frames_clear_deposit_now frames_new_token : frames.

(** ** Endings *)

Section endings.
Context (id : Z) (m : Manager).
Lemma frames_fail m1 r : frames false id m m1 → frames false id m (fail id r m1).
Proof.
  intros F. unfold fail. apply frames_emit, frames_plain; [plain_field|]. auto with frames.
Qed.
Lemma frames_finish m1 c r : frames false id m m1 → frames false id m (finish id c r m1).
Proof.
  intros F. unfold finish. destruct r as [path|e]; [|apply frames_fail; auto with frames].
  destruct c; [auto 10 with frames|]. apply frames_emit, frames_set_status; [done|].
  destruct path; auto 10 with frames.
Qed.
Lemma frames_set_paused m1 r : frames false id m m1 → frames false id m (set_paused id r m1).
Proof. intros F. unfold set_paused. auto with frames. Qed.
Lemma frames_handle_stop m1 : frames false id m m1 → frames false id m (handle_stop id m1).
Proof.
  intros F. unfold handle_stop. destruct (pause_asked _ _); [by apply frames_set_paused|by apply frames_finish].
Qed.
End endings.
#[export] Hint Resolve frames_fail frames_finish frames_set_paused frames_handle_stop : frames.

Lemma settled_fail id r m : settled id (fail id r m).
Proof.
  unfold fail. eapply settled_core; [apply core_emit|]. apply plain_settled; [plain_field|].
  by apply settled_set_status.
Qed.
Lemma settled_finish id c r m : settled id (finish id c r m).
Proof.
  unfold finish. destruct r as [path|e]; [|apply settled_fail].
  destruct c; (eapply settled_core; [apply core_emit|]); by apply settled_set_status.
Qed.
Lemma rests_set_paused id r m : rests id (set_paused id r m).
Proof. unfold set_paused. eapply rests_core; [apply core_emit|]. by apply rests_set_status. Qed.
Lemma rests_handle_stop id m : rests id (handle_stop id m).
Proof.
  unfold handle_stop. destruct (pause_asked _ _); [apply rests_set_paused|].
  apply settled_rests, settled_finish.
Qed.
#[export] Hint Resolve rests_set_paused rests_handle_stop settled_finish settled_fail settled_rests : frames.
