(* ===== verification/ManagerInv.v ===== *)
(** * Who runs, and who may be stopped

    The invariant of the manager's state: a row that is running has exactly one task
    that drives it, under the token that [cancel] fires, and a row that is not running
    has none.  It is stated for one id at a time ([local]), so that a step that is
    [outside] the other ids is checked at its own. *)
From S2P Require Import Prelude.
From S2P Require Import Tickets.
From S2P Require Import Transfers.
From S2P Require Import Records.
From S2P Require Import ManagerState.
From S2P Require Import Manager.
From S2P Require Import Watching.
From S2P Require Import ManagerFrames.
Local Open Scope Z_scope.

(** A task that follows a deposit after its transfer has been handed over. *)
Definition is_follower (t : Task) : bool :=
  match t with TaskWatch _ _ | TaskWithdraw _ _ => true | _ => false end.
Definition drives (m : Manager) (tok : nat) (id : Z) : Prop :=
  ∃ t, m.(mg_tasks) !! tok = Some t ∧ task_id t = id ∧ is_driver t = true.
Definition follows (m : Manager) (tok : nat) (id : Z) : Prop :=
  ∃ t, m.(mg_tasks) !! tok = Some t ∧ task_id t = id ∧ is_follower t = true.

Record local (id : Z) (m : Manager) : Prop := {
  lo_row : ∀ t, m.(mg_transfers) !! id = Some t → t.(tr_id) = id ∧ id < m.(mg_next_id) ∧ row_says t;
  lo_tasks : ∀ tok t, m.(mg_tasks) !! tok = Some t → task_id t = id →
    (tok < m.(mg_next_task))%nat ∧ id < m.(mg_next_id);
  lo_live : live_row id m → ∃ tok, drives m tok id;
  lo_driver : ∀ tok, drives m tok id →
    m.(mg_cancels) !! id = Some tok ∧
    ∀ t, m.(mg_transfers) !! id = Some t → is_live t.(tr_status) = true;
  lo_follow : ∀ tok, follows m tok id → settled id m ∧ ∀ k, ¬ drives m k id }.
Definition minv (m : Manager) : Prop := ∀ id, local id m.

(** ** Locality *)

(** What [m'] says of [j] is what [m] says, or its row is gone. *)
Definition same_for (j : Z) (m m' : Manager) : Prop :=
  (m'.(mg_transfers) !! j = m.(mg_transfers) !! j ∨ m'.(mg_transfers) !! j = None) ∧
  m'.(mg_cancels) !! j = m.(mg_cancels) !! j ∧
  ∀ k t, task_id t = j → m'.(mg_tasks) !! k = Some t ↔ m.(mg_tasks) !! k = Some t.
Definition grows (m m' : Manager) : Prop :=
  m.(mg_next_id) <= m'.(mg_next_id) ∧ (m.(mg_next_task) <= m'.(mg_next_task))%nat.
Definition outside (id : Z) (m m' : Manager) : Prop := grows m m' ∧ ∀ j, j ≠ id → same_for j m m'.

Lemma drives_same j m m' k : same_for j m m' → drives m' k j ↔ drives m k j.
Proof. intros (_ & _ & Ht). split; intros (t & E & Hid & Hd); exists t; (split; [by apply Ht|done]). Qed.
Lemma follows_same j m m' k : same_for j m m' → follows m' k j ↔ follows m k j.
Proof. intros (_ & _ & Ht). split; intros (t & E & Hid & Hd); exists t; (split; [by apply Ht|done]). Qed.

Lemma local_same j m m' : grows m m' → same_for j m m' → local j m → local j m'.
Proof.
  intros [Hi Hk] Hs [L1 L2 L3 L4 L5]. pose proof Hs as (Hr & Hc & Ht).
  assert (∀ t, m'.(mg_transfers) !! j = Some t → m.(mg_transfers) !! j = Some t) as Hback.
  { intros t E. destruct Hr as [Hr|Hr]; congruence. }
  split.
  - intros t E%Hback. destruct (L1 t E) as (? & ? & ?). split_and!; [done|lia|done].
  - intros k t E Hid. apply Ht in E; [|done]. destruct (L2 k t E Hid). lia.
  - intros (t & E%Hback & Hl). destruct L3 as [k Hd]; [by exists t|].
    exists k. by apply (drives_same _ _ _ _ Hs).
  - intros k Hd. apply (drives_same _ _ _ _ Hs) in Hd. destruct (L4 k Hd) as [Hck Hl].
    rewrite Hc. split; [done|]. intros t E%Hback. by apply Hl.
  - intros k Hf. apply (follows_same _ _ _ _ Hs) in Hf. destruct (L5 k Hf) as [Hst Hnd]. split.
    + intros t E%Hback. by apply Hst.
    + intros k' Hd. apply (drives_same _ _ _ _ Hs) in Hd. by eapply Hnd.
Qed.

Lemma inv_outside id m m' : minv m → outside id m m' → local id m' → minv m'.
Proof.
  intros Hm [Hg Ho] Hl j. destruct (decide (j = id)) as [->|Hj]; [done|].
  eapply local_same; [done| |apply Hm]. by apply Ho.
Qed.

Lemma same_for_refl j m : same_for j m m.
Proof. split_and!; [by left|done|done]. Qed.
Lemma outside_refl id m : outside id m m.
Proof. split; [by split|]. intros j _. apply same_for_refl. Qed.
Lemma outside_trans id m1 m2 m3 : outside id m1 m2 → outside id m2 m3 → outside id m1 m3.
Proof.
  intros [[G1 G2] O1] [[G3 G4] O2]. split; [split; lia|]. intros j Hj.
  destruct (O1 j Hj) as (R1 & C1 & T1), (O2 j Hj) as (R2 & C2 & T2). split_and!.
  - destruct R2 as [->|?]; [done|by right].
  - congruence.
  - intros k t Hid. by rewrite T2, T1.
Qed.

(** An id that the manager has not given out. *)
Lemma local_fresh id m :
  minv m → m.(mg_next_id) <= id →
  m.(mg_transfers) !! id = None ∧ ∀ k t, m.(mg_tasks) !! k = Some t → task_id t ≠ id.
Proof.
  intros Hm Hid. split.
  - destruct (_ !! id) as [t|] eqn:E; [|done]. apply (lo_row _ _ (Hm id)) in E. lia.
  - intros k t E <-. apply (lo_tasks _ _ (Hm (task_id t))) in E; [lia|done].
Qed.

(** ** Spawning and ending *)

Lemma outside_frames keep id m m1 : frames keep id m m1 → outside id m m1.
Proof.
  intros [F1 F2 _ F3 F4 F5 _ _]. split; [split; lia|]. intros j Hj. split_and!; [left; auto|auto|].
  intros k t Hid. destruct (F3 k) as [->|(_ & E0 & c & E)]; [done|]. rewrite E, E0.
  split; [|done]. intros [= <-]. by cbn in Hid.
Qed.

Lemma outside_spawn id tok t m :
  task_id t = id → (∀ t0, m.(mg_tasks) !! tok = Some t0 → task_id t0 = id) → outside id m (spawn tok t m).
Proof.
  intros Ht Hold. split; [by split|]. intros j Hj. split_and!; [by left|done|]. intros k t' Hid. cbn.
  destruct (decide (k = tok)) as [->|Hk]; [|by rewrite lookup_insert_ne].
  rewrite lookup_insert_eq. split; [congruence|]. intros E%Hold. congruence.
Qed.
Lemma outside_end id tok m :
  (∀ t0, m.(mg_tasks) !! tok = Some t0 → task_id t0 = id) → outside id m (end_task tok m).
Proof.
  intros Hold. split; [by split|]. intros j Hj. split_and!; [by left|done|]. intros k t' Hid. cbn.
  destruct (decide (k = tok)) as [->|Hk]; [|by rewrite lookup_delete_ne].
  rewrite lookup_delete_eq. split; [done|]. intros E%Hold. congruence.
Qed.

(** A driver keeps its place through the steps of its own transfer. *)
Lemma frames_task keep id m m1 k t :
  frames keep id m m1 → m.(mg_tasks) !! k = Some t → m1.(mg_tasks) !! k = Some t.
Proof. intros F E. destruct (fr_tasks _ _ _ _ F k) as [->|(_ & E0 & _)]; congruence. Qed.
Lemma frames_task_back keep id m m1 k t :
  frames keep id m m1 → m1.(mg_tasks) !! k = Some t →
  m.(mg_tasks) !! k = Some t ∨ (k < m1.(mg_next_task))%nat ∧ ∃ c, t = TaskCode id c.
Proof.
  intros F E. destruct (fr_tasks _ _ _ _ F k) as [Eq|(Hk & _ & c & E1)]; [left; congruence|].
  right. split; [lia|]. exists c. congruence.
Qed.
Lemma frames_drives keep id j m m1 k : frames keep id m m1 → drives m1 k j ↔ drives m k j.
Proof.
  intros F. split; intros (t & E & Hid & Hd).
  - destruct (frames_task_back _ _ _ _ _ _ F E) as [E0|(_ & c & ->)]; [by exists t|done].
  - exists t. split; [by eapply frames_task|done].
Qed.
Lemma frames_follows keep id j m m1 k : frames keep id m m1 → follows m1 k j ↔ follows m k j.
Proof.
  intros F. split; intros (t & E & Hid & Hd).
  - destruct (frames_task_back _ _ _ _ _ _ F E) as [E0|(_ & c & ->)]; [by exists t|done].
  - exists t. split; [by eapply frames_task|done].
Qed.

Lemma frames_says keep id m m1 t' :
  frames keep id m m1 → minv m → m1.(mg_transfers) !! id = Some t' →
  t'.(tr_id) = id ∧ id < m1.(mg_next_id) ∧ row_says t' ∧
  ∃ t, m.(mg_transfers) !! id = Some t ∧
       (keep = true → is_live t.(tr_status) = true → is_live t'.(tr_status) = true).
Proof.
  intros F Hm E. pose proof (fr_row _ _ _ _ F) as Hrow.
  destruct (mg_transfers m !! id) as [t|] eqn:E0; [|congruence].
  destruct Hrow as (t1 & E1 & Hid & Hs & Hl). rewrite E in E1. injection E1 as <-.
  destruct (lo_row _ _ (Hm id) t E0) as (H1 & H2 & H3).
  rewrite (fr_next_id _ _ _ _ F). split_and!; [congruence|lia|by apply Hs|by exists t].
Qed.

Lemma frames_tasks_of keep id m m1 k t :
  frames keep id m m1 → minv m → id < m.(mg_next_id) → m1.(mg_tasks) !! k = Some t → task_id t = id →
  (k < m1.(mg_next_task))%nat ∧ id < m1.(mg_next_id).
Proof.
  intros F Hm Hn E Hid. rewrite (fr_next_id _ _ _ _ F). pose proof (fr_next_task _ _ _ _ F).
  destruct (frames_task_back _ _ _ _ _ _ F E) as [E0|(Hk & _)]; [clear E; rename E0 into E|split; [done|lia]].
  destruct (lo_tasks _ _ (Hm id) k t E Hid). lia.
Qed.

(** A task may change in place. *)
Lemma inv_respawn m tok t t' :
  minv m → m.(mg_tasks) !! tok = Some t → task_id t' = task_id t → is_driver t' = is_driver t →
  is_follower t' = is_follower t → minv (spawn tok t' m).
Proof.
  intros Hm E Hid Hd Hf.
  assert (∀ (Q : Task → bool) k j, Q t' = Q t →
    (∃ t0, (spawn tok t' m).(mg_tasks) !! k = Some t0 ∧ task_id t0 = j ∧ Q t0 = true) ↔
    (∃ t0, m.(mg_tasks) !! k = Some t0 ∧ task_id t0 = j ∧ Q t0 = true)) as Hsame.
  { intros Q k j HQ. cbn. destruct (decide (k = tok)) as [->|Hk].
    - rewrite lookup_insert_eq, E. split; intros (t0 & [= <-] & Hi & Ht).
      + exists t. split_and!; congruence.
      + exists t'. split_and!; congruence.
    - by rewrite lookup_insert_ne. }
  intros j. destruct (Hm j) as [L1 L2 L3 L4 L5]. split; [done| |..].
  - intros k t0 Ek Hi. cbn in Ek. apply lookup_insert_Some in Ek as [[<- <-]|[_ Ek]]; [|by apply (L2 k t0)].
    apply (L2 tok t); [done|congruence].
  - intros Hl. destruct (L3 Hl) as [k Hk]. exists k. by apply (Hsame is_driver).
  - intros k Hk. apply L4. by apply (Hsame is_driver).
  - intros k Hk. apply (Hsame is_follower) in Hk; [|done]. destruct (L5 k Hk) as [Hs Hn].
    split; [done|]. intros k' Hk'. apply (Hsame is_driver) in Hk'; [|done]. by eapply Hn.
Qed.

(** A plain field of any row may change. *)
Lemma inv_plain m id f : minv m → plain f → minv (upd_row id f m).
Proof.
  intros Hm Hf j. destruct (Hm j) as [L1 L2 L3 L4 L5].
  assert (∀ t, (upd_row id f m).(mg_transfers) !! j = Some t →
    ∃ t0, m.(mg_transfers) !! j = Some t0 ∧ tr_id t = tr_id t0 ∧ tr_status t = tr_status t0 ∧
          tr_waiting_code t = tr_waiting_code t0 ∧ tr_waiting_detail t = tr_waiting_detail t0) as Hback.
  { intros t E. cbn in E. destruct (decide (j = id)) as [->|Hj].
    - rewrite lookup_alter_eq in E. destruct (mg_transfers m !! id) as [t0|]; [|done]. injection E as <-.
      exists t0. split; [done|]. apply Hf.
    - rewrite lookup_alter_ne in E by done. by exists t. }
  split; [|done| |..].
  - intros t (t0 & E0 & E1 & E2 & E3 & E4)%Hback. destruct (L1 t0 E0) as (? & ? & ?).
    split_and!; [congruence|done|]. unfold row_says. by rewrite E2, E3, E4.
  - intros (t & (t0 & E0 & _ & E2 & _)%Hback & Hl). apply L3. exists t0. by rewrite <- E2.
  - intros k Hk. destruct (L4 k Hk) as [Hc Hl]. split; [done|].
    intros t (t0 & E0 & _ & -> & _)%Hback. by apply Hl.
  - intros k Hk. destruct (L5 k Hk) as [Hs Hn]. split; [|done].
    intros t (t0 & E0 & _ & -> & _)%Hback. by apply Hs.
Qed.

(** ** The tasks of others *)

(** A task that was just spawned: a delivery has not looked at anything yet. *)
Definition starts (t : Task) : Prop :=
  match t with
  | TaskDeliver _ d =>
      d = mkDelivery d.(dl_relay) d.(dl_recipient) d.(dl_source) d.(dl_name) d.(dl_archive) d.(dl_note)
            d.(dl_live_only) AtStart None false false false 0 0 0 false 0 0 false false
  | _ => True
  end.

(** From [m] to [m'] the tasks are as they were or newly spawned, but for those in [who],
    and what was cancelled still is. *)
Definition opens (who : nat → Prop) (m m' : Manager) : Prop :=
  ((m.(mg_next_task) <= m'.(mg_next_task))%nat ∧ m.(mg_fired) ⊆ m'.(mg_fired)) ∧
  ∀ k, ¬ who k → m'.(mg_tasks) !! k = m.(mg_tasks) !! k ∨
    (m.(mg_next_task) <= k)%nat ∧ ∃ t, m'.(mg_tasks) !! k = Some t ∧ starts t.
Abbreviation nobody := (fun _ : nat => False).

Section opens.
Context (who : nat → Prop).
Lemma opens_same m m' k :
  opens who m m' → (k < m.(mg_next_task))%nat → ¬ who k → m'.(mg_tasks) !! k = m.(mg_tasks) !! k.
Proof. intros [_ K] Hk Hw. destruct (K k Hw) as [?|[? _]]; [done|lia]. Qed.
Lemma opens_refl m : opens who m m.
Proof. split; [done|]. by left. Qed.
Lemma opens_keeps m m1 m2 :
  m2.(mg_tasks) = m1.(mg_tasks) → (m1.(mg_next_task) <= m2.(mg_next_task))%nat → m1.(mg_fired) ⊆ m2.(mg_fired) →
  opens who m m1 → opens who m m2.
Proof.
  intros E1 E2 E3 [[N S] K]. split; [split; [lia|by transitivity (mg_fired m1)]|].
  intros k Hw. rewrite E1. by apply K.
Qed.
Lemma opens_trans m m1 m2 : opens who m m1 → opens who m1 m2 → opens who m m2.
Proof.
  intros [[N1 S1] K1] [[N2 S2] K2]. split; [split; [lia|by transitivity (mg_fired m1)]|].
  intros k Hw. destruct (K2 k Hw) as [->|[? ?]]; [by apply K1|right; split; [lia|done]].
Qed.
Lemma opens_core m m1 m2 : core m2 = core m1 → opens who m m1 → opens who m m2.
Proof. intros (_ & _ & _ & E1 & E2 & E3)%core_eq. apply opens_keeps; [done|lia|by rewrite E3]. Qed.
Lemma opens_frames keep id m m1 m2 : frames keep id m1 m2 → opens who m m1 → opens who m m2.
Proof.
  intros F O. eapply opens_trans; [exact O|]. split; [split; [apply F|apply F]|]. intros k _.
  destruct (fr_tasks _ _ _ _ F k) as [->|(? & _ & c & ?)]; [by left|right].
  split; [lia|]. by eexists.
Qed.
Lemma opens_weaken m m1 : opens nobody m m1 → opens who m m1.
Proof. intros [N K]. split; [done|]. intros k _. apply K. by intros []. Qed.
Lemma opens_spawn m m1 tok t :
  who tok ∨ (m.(mg_next_task) <= tok)%nat → who tok ∨ starts t → opens who m m1 → opens who m (spawn tok t m1).
Proof.
  intros Ht Hs [[N S] K]. split; [done|]. intros k Hw. cbn.
  destruct (decide (k = tok)) as [->|Hk]; [|rewrite lookup_insert_ne by done; by apply K].
  right. rewrite lookup_insert_eq. destruct Ht; [done|]. destruct Hs; [done|]. split; [done|by eexists].
Qed.
Lemma opens_aside m m1 t : starts t → opens who m m1 → opens who m (spawn_detached t m1).
Proof.
  intros Hs O. unfold spawn_detached, new_token. pose proof O as [[N _] _]. apply opens_spawn; [by right|by right|].
  eapply opens_keeps; [..|exact O]; [done|cbn; lia|done].
Qed.
Lemma opens_end m m1 tok : who tok → opens who m m1 → opens who m (end_task tok m1).
Proof.
  intros Ht [N K]. split; [done|]. intros k Hw. cbn. rewrite lookup_delete_ne; [by apply K|congruence].
Qed.
Lemma opens_register now d p nm t m m1 id tok m2 :
  opens who m m1 → register now d p nm t m1 = (id, tok, m2) → opens who m m2 ∧ (m.(mg_next_task) <= tok)%nat.
Proof.
  intros O Hr. pose proof O as [[N _] _]. unfold register, new_token in Hr. injection Hr as <- <- <-. split; [|lia].
  eapply opens_keeps; [..|exact O]; [done|cbn; lia|done].
Qed.
End opens.

(** After a step of the task [tok]: the invariant, and every other task as it was. *)
Definition after (m : Manager) (tok : nat) (m' : Manager) : Prop := minv m' ∧ opens (eq tok) m m'.

Lemma after_refl m tok : minv m → after m tok m.
Proof. intros Hm. split; [done|apply opens_refl]. Qed.
Lemma after_trans m m1 m2 tok : opens (eq tok) m m1 → after m1 tok m2 → after m tok m2.
Proof. intros O [Hm2 O2]. split; [done|by eapply opens_trans]. Qed.

(** ** A transfer that is being driven *)

Section driven.
Context (m : Manager) (tok : nat) (id : Z).
Context (Hm : minv m) (Hd : drives m tok id).

Lemma driven_bound : (tok < m.(mg_next_task))%nat ∧ id < m.(mg_next_id).
Proof. destruct Hd as (t & E & Hid & _). by apply (lo_tasks _ _ (Hm id) tok t). Qed.

Lemma driver_unique k : drives m k id → k = tok.
Proof.
  intros Hk. destruct (lo_driver _ _ (Hm id) k Hk) as [E _].
  destruct (lo_driver _ _ (Hm id) tok Hd) as [E' _]. congruence.
Qed.

Lemma driven_task_id t : m.(mg_tasks) !! tok = Some t → task_id t = id.
Proof. destruct Hd as (t0 & E & ? & _). congruence. Qed.

Lemma inv_frames m1 : frames true id m m1 → after m tok m1.
Proof.
  intros F. split; [|eapply opens_frames; [exact F|apply opens_refl]]. eapply inv_outside; [done|by eapply outside_frames|].
  assert (∀ t', m1.(mg_transfers) !! id = Some t' → is_live t'.(tr_status) = true) as Hlive.
  { intros t' E. destruct (frames_says _ _ _ _ _ F Hm E) as (_ & _ & _ & t & Et & Hl).
    apply Hl; [done|]. by eapply (lo_driver _ _ (Hm id) tok Hd). }
  split.
  - intros t' E. by destruct (frames_says _ _ _ _ _ F Hm E) as (? & ? & ? & _).
  - intros k t E Hid. exact (frames_tasks_of _ _ _ _ _ _ F Hm (proj2 driven_bound) E Hid).
  - intros _. exists tok. by apply (frames_drives _ _ _ _ _ _ F).
  - intros k Hk. split; [|done]. rewrite (fr_cancel _ _ _ _ F) by done.
    apply (lo_driver _ _ (Hm id)). by apply (frames_drives _ _ _ _ _ _ F).
  - intros k Hf. exfalso. apply (frames_follows _ _ _ _ _ _ F) in Hf.
    destruct (lo_follow _ _ (Hm id) k Hf) as [_ Hn]. exact (Hn tok Hd).
Qed.

Lemma inv_goes m1 t : frames true id m m1 → task_id t = id → is_driver t = true → after m tok (spawn tok t m1).
Proof.
  intros F Hid Hdr. destruct (inv_frames m1 F) as [Hm1 O1]. split; [|by apply opens_spawn; [left|left|]].
  destruct Hd as (t0 & E0 & Hid0 & Hdr0).
  eapply (inv_respawn m1 tok t0); [done|by eapply frames_task|congruence|congruence|].
  by destruct t, t0.
Qed.

(** Its end, whether or not the driver leaves a follower behind. *)
Lemma inv_ends m1 : frames false id m m1 → rests id m1 → after m tok (end_task tok m1).
Proof.
  intros F Hr. split; [|apply opens_end; [done|]; eapply opens_frames; [exact F|apply opens_refl]].
  assert (∀ k, ¬ drives (end_task tok m1) k id) as Hnone.
  { intros k (t & E & Hid & Ht). cbn in E. apply lookup_delete_Some in E as [Hk E].
    apply Hk. symmetry. apply driver_unique. apply (frames_drives _ _ _ _ _ _ F). by exists t. }
  eapply inv_outside; [done| |].
  - eapply outside_trans; [by eapply outside_frames|]. apply outside_end. intros t E.
    destruct Hd as (t0 & E0 & Hid & _). eapply frames_task in E0; [|done]. congruence.
  - split.
    + intros t E. by destruct (frames_says _ _ _ _ _ F Hm E) as (? & ? & ? & _).
    + intros k t E Hid. cbn in E. apply lookup_delete_Some in E as [_ E].
      exact (frames_tasks_of _ _ _ _ _ _ F Hm (proj2 driven_bound) E Hid).
    + intros (t & E & Hl). apply Hr in E. congruence.
    + intros k Hk. by apply Hnone in Hk.
    + intros k (t & E & Hid & Ht). exfalso. cbn in E. apply lookup_delete_Some in E as [_ E].
      assert (follows m k id) as Hf by (apply (frames_follows _ _ _ _ _ _ F); by exists t).
      destruct (lo_follow _ _ (Hm id) k Hf) as [_ Hn]. exact (Hn tok Hd).
Qed.
End driven.

(** ** A transfer that nothing drives *)

Lemma undriven id m t :
  minv m → m.(mg_transfers) !! id = Some t → is_live t.(tr_status) = false → ∀ k, ¬ drives m k id.
Proof. intros Hm E Hl k Hk. apply (lo_driver _ _ (Hm id)) in Hk as [_ Hk]. apply Hk in E. congruence. Qed.

Lemma unfollowed id m t :
  minv m → m.(mg_transfers) !! id = Some t → is_paused t.(tr_status) = true → ∀ k, ¬ follows m k id.
Proof. intros Hm E Hp k Hk. apply (lo_follow _ _ (Hm id)) in Hk as [Hk _]. apply Hk in E as [_ ?]. congruence. Qed.

Section settling.
Context (m : Manager) (id : Z) (Hm : minv m) (Hn : ∀ k, ¬ drives m k id) (Hb : id < m.(mg_next_id)).

Lemma inv_settles m1 : frames false id m m1 → settled id m1 → minv m1.
Proof.
  intros F Hs. eapply inv_outside; [done|by eapply outside_frames|]. split.
  - intros t E. by destruct (frames_says _ _ _ _ _ F Hm E) as (? & ? & ? & _).
  - intros k t E Hid. exact (frames_tasks_of _ _ _ _ _ _ F Hm Hb E Hid).
  - intros (t & E & Hl). apply Hs in E as [? _]. congruence.
  - intros k Hk. apply (frames_drives _ _ _ _ _ _ F) in Hk. by apply Hn in Hk.
  - intros k _. split; [done|]. intros k' Hk. apply (frames_drives _ _ _ _ _ _ F) in Hk. by apply Hn in Hk.
Qed.
End settling.

Lemma inv_end_undriven tok m : minv m → (∀ id, ¬ drives m tok id) → minv (end_task tok m).
Proof.
  intros Hm Hnd. assert (∀ k j, drives (end_task tok m) k j ↔ drives m k j) as Hdr.
  { intros k j. split; intros (t & E & Ht).
    - cbn in E. apply lookup_delete_Some in E as [_ E]. by exists t.
    - exists t. split; [|done]. cbn. apply lookup_delete_Some. split; [|done].
      intros <-. by apply (Hnd j); exists t. }
  intros j. destruct (Hm j) as [L1 L2 L3 L4 L5]. split; [done| |..].
  - intros k t E. cbn in E. apply lookup_delete_Some in E as [_ E]. by apply L2.
  - intros Hl. destruct (L3 Hl) as [k Hk]. exists k. by apply Hdr.
  - intros k Hk. apply L4. by apply Hdr.
  - intros k (t & E & Hid & Ht). cbn in E. apply lookup_delete_Some in E as [_ E].
    destruct (L5 k) as [Hs Hn]; [by exists t|]. split; [done|]. intros k' Hk. apply (Hn k'). by apply Hdr.
Qed.

(** A follower or a code is spawned beside what is there. *)
Lemma inv_spawns_aside m t :
  minv m → is_driver t = false → task_id t < m.(mg_next_id) →
  (is_follower t = true → settled (task_id t) m ∧ ∀ k, ¬ drives m k (task_id t)) →
  minv (spawn_detached t m).
Proof.
  intros Hm Hdr Hb Hf. set (tok := m.(mg_next_task)).
  assert (m.(mg_tasks) !! tok = None) as Hfree.
  { destruct (_ !! tok) as [t0|] eqn:E; [|done].
    destruct (lo_tasks _ _ (Hm (task_id t0)) tok t0 E eq_refl). unfold tok in *. lia. }
  assert (∀ k j, drives (spawn_detached t m) k j ↔ drives m k j) as Hdrives.
  { intros k j. split; intros (t0 & E & Hi & Ht).
    - cbn in E. apply lookup_insert_Some in E as [[_ <-]|[_ E]]; [congruence|]. by exists t0.
    - exists t0. split; [|done]. cbn. apply lookup_insert_Some. right. split; [|done].
      intros <-. unfold tok in *. congruence. }
  intros j. destruct (Hm j) as [L1 L2 L3 L4 L5]. split; [done| |..].
  - intros k t0 E Hi. cbn in E |- *. apply lookup_insert_Some in E as [[<- <-]|[_ E]].
    + split; [lia|congruence].
    + destruct (L2 k t0 E Hi). lia.
  - intros Hl. destruct (L3 Hl) as [k Hk]. exists k. by apply Hdrives.
  - intros k Hk. apply L4. by apply Hdrives.
  - intros k (t0 & E & Hi & Ht). cbn in E. apply lookup_insert_Some in E as [[_ <-]|[_ E]].
    + subst j. destruct (Hf Ht) as [Hs Hn]. split; [done|]. intros k'. by rewrite Hdrives.
    + destruct (L5 k) as [Hs Hn]; [by exists t0|]. split; [done|]. intros k'. by rewrite Hdrives.
Qed.

(** ** A transfer that is starting *)

(** Between [register] (or [rearm]) and the spawn of the task. *)
Record starting (id : Z) (tok : nat) (m : Manager) : Prop := {
  sta_others : ∀ j, j ≠ id → local j m;
  sta_row : ∀ t, m.(mg_transfers) !! id = Some t → t.(tr_id) = id ∧ row_says t ∧ is_live t.(tr_status) = true;
  sta_bound : id < m.(mg_next_id) ∧ (tok < m.(mg_next_task))%nat;
  sta_token : m.(mg_cancels) !! id = Some tok;
  sta_free : ∀ t, m.(mg_tasks) !! tok = Some t → False;
  sta_tasks : ∀ k t, m.(mg_tasks) !! k = Some t → task_id t = id → (k < m.(mg_next_task))%nat;
  sta_none : ∀ k, ¬ drives m k id ∧ ¬ follows m k id }.

Lemma starting_frames id tok m m1 : frames true id m m1 → starting id tok m → starting id tok m1.
Proof.
  intros F [S1 S2 S3 S4 S5 S6 S7]. pose proof (outside_frames _ _ _ _ F) as [Hg Ho]. split.
  - intros j Hj. eapply local_same; [done|by apply Ho|by apply S1].
  - intros t' E. pose proof (fr_row _ _ _ _ F) as Hrow.
    destruct (mg_transfers m !! id) as [t|]; [|congruence].
    destruct Hrow as (t1 & E1 & Hid & Hs & Hl). rewrite E in E1. injection E1 as <-.
    destruct (S2 t eq_refl) as (? & ? & ?). split_and!; [congruence|auto|auto].
  - pose proof (fr_next_id _ _ _ _ F). pose proof (fr_next_task _ _ _ _ F). lia.
  - by rewrite (fr_cancel _ _ _ _ F).
  - intros t E. destruct (fr_tasks _ _ _ _ F tok) as [Eq|(? & _)]; [|lia].
    rewrite E in Eq. by eapply S5.
  - intros k t E Hid. destruct (frames_task_back _ _ _ _ _ _ F E) as [E0|[? _]]; [clear E; rename E0 into E|done].
    pose proof (S6 k t E Hid). pose proof (fr_next_task _ _ _ _ F). lia.
  - intros k. rewrite (frames_drives _ _ _ _ _ _ F), (frames_follows _ _ _ _ _ _ F). apply S7.
Qed.

Lemma starting_spawns id tok m t :
  starting id tok m → task_id t = id → is_driver t = true → minv (spawn tok t m).
Proof.
  intros [S1 S2 S3 S4 S5 S6 S7] Hid Hdr j.
  assert (outside id m (spawn tok t m)) as [Hg Ho].
  { apply outside_spawn; [done|]. intros t0 E. by apply S5 in E. }
  destruct (decide (j = id)) as [->|Hj]; [|eapply local_same; [done|by apply Ho|by apply S1]].
  assert (∀ k, drives (spawn tok t m) k id → k = tok) as Honly.
  { intros k (t0 & E & Hi & Ht). cbn in E. apply lookup_insert_Some in E as [[-> _]|[_ E]]; [done|].
    exfalso. by apply (proj1 (S7 k)); exists t0. }
  assert (∀ k, ¬ follows (spawn tok t m) k id) as Hnof.
  { intros k (t0 & E & Hi & Ht). cbn in E. apply lookup_insert_Some in E as [[-> <-]|[_ E]].
    - destruct t; done.
    - by apply (proj2 (S7 k)); exists t0. }
  split.
  - intros t0 E. destruct (S2 t0 E) as (? & ? & ?). cbn. split_and!; [done|lia|done].
  - intros k t0 E Hi. cbn in E |- *. apply lookup_insert_Some in E as [[<- <-]|[_ E]]; [lia|].
    split; [by eapply S6|lia].
  - intros _. exists tok. exists t. split; [by cbn; rewrite lookup_insert_eq|done].
  - intros k ->%Honly. split; [done|]. intros t0 E. by apply (S2 t0).
  - intros k Hf. by apply Hnof in Hf.
Qed.

(** It may also come to rest before any task of it runs. *)
Lemma starting_rests id tok m m1 : starting id tok m → frames false id m m1 → rests id m1 → minv m1.
Proof.
  intros [S1 S2 S3 S4 S5 S6 S7] F Hr j.
  pose proof (outside_frames _ _ _ _ F) as [Hg Ho].
  destruct (decide (j = id)) as [->|Hj]; [|eapply local_same; [done|by apply Ho|by apply S1]].
  split.
  - intros t' E. pose proof (fr_row _ _ _ _ F) as Hrow.
    destruct (mg_transfers m !! id) as [t|]; [|congruence].
    destruct Hrow as (t1 & E1 & Hid & Hs & _). rewrite E in E1. injection E1 as <-.
    destruct (S2 t eq_refl) as (? & ? & ?). rewrite (fr_next_id _ _ _ _ F).
    split_and!; [congruence|lia|auto].
  - intros k t E Hid. pose proof (fr_next_task _ _ _ _ F). rewrite (fr_next_id _ _ _ _ F).
    destruct (frames_task_back _ _ _ _ _ _ F E) as [E0|[? _]]; [clear E; rename E0 into E|lia]. pose proof (S6 k t E Hid). lia.
  - intros (t & E & Hl). apply Hr in E. congruence.
  - intros k Hk. apply (frames_drives _ _ _ _ _ _ F) in Hk. by apply S7 in Hk.
  - intros k Hk. apply (frames_follows _ _ _ _ _ _ F) in Hk. by apply S7 in Hk.
Qed.
