(* ===== verification/ManagerSteps.v ===== *)
(** * The invariant through every step

    [minv] holds of a new manager and every step of [ManagerRuns] keeps it, so it holds
    after any run. *)
From S2P Require Import Prelude.
From S2P Require Import Text.
From S2P Require Import SyncTypes.
From S2P Require Import Store.
From S2P Require Import Link.
From S2P Require Import UploadClient.
From S2P Require Import Seeds.
From S2P Require Import Tickets.
From S2P Require Import Transfers.
From S2P Require Import Records.
From S2P Require Import ManagerState.
From S2P Require Import Manager.
From S2P Require Import Watching.
From S2P Require Import Uploading.
From S2P Require Import Delivery.
From S2P Require Import Landing.
From S2P Require Import Receiving.
From S2P Require Import Sharing.
From S2P Require Import Restart.
From S2P Require Import ManagerRuns.
From S2P Require Import ManagerFrames.
From S2P Require Import ManagerInv.
Local Open Scope Z_scope.

(** The invariant does not look at what is cancelled. *)
Definition uncancelled (m : Manager) : Manager := m <| mg_fired := ∅ |>.
Lemma minv_uncancelled m m' : core (uncancelled m') = core (uncancelled m) → minv m → minv m'.
Proof.
  intros (E1 & E2 & E3 & E4 & E5 & _)%core_eq Hm j. cbn in E1, E2, E3, E4, E5. destruct (Hm j) as [L1 L2 L3 L4 L5].
  split; unfold live_row, drives, follows, settled in *; rewrite ?E1, ?E2, ?E3, ?E4, ?E5; done.
Qed.

Lemma some_pair {X Y} (a a' : X) (b b' : Y) : Some (a, b) = Some (a', b') → a = a' ∧ b = b'.
Proof. by intros [= -> ->]. Qed.
Lemma some_pair_fst {X Y} (a a' : X) (b b' : Y) : (Some a, b) = (Some a', b') → a = a' ∧ b = b'.
Proof. by intros [= -> ->]. Qed.

Lemma minv_core m m' : core m' = core m → minv m → minv m'.
Proof.
  intros (E1 & E2 & E3 & E4 & E5 & _)%core_eq. apply minv_uncancelled. unfold core. cbn.
  by rewrite E1, E2, E3, E4, E5.
Qed.
Lemma minv_fire m tok : minv m → minv (fire tok m).
Proof. by apply minv_uncancelled. Qed.
Lemma after_core m tok m1 m2 : core m2 = core m1 → after m tok m1 → after m tok m2.
Proof. intros Hc [Hm1 O]. split; [by apply (minv_core m1)|by eapply opens_core]. Qed.

(** ** Registering *)

Lemma elem_of_finished id rows :
  id ∈ finished_ids rows ↔ ∃ t, rows !! id = Some t ∧ is_terminal t.(tr_status) = true.
Proof.
  unfold finished_ids. rewrite merge_sort_Permutation, list_elem_of_fmap. split.
  - intros ([i t] & -> & [Ht Hin]%list_elem_of_filter). apply elem_of_map_to_list in Hin.
    exists t. split; [done|]. by apply Is_true_eq_true.
  - intros (t & E & Ht). exists (id, t). split; [done|]. apply list_elem_of_filter.
    split; [by apply Is_true_eq_left|]. by apply elem_of_map_to_list.
Qed.

(** Pruning takes finished rows only. *)
Lemma prune_lookup keep rows id t :
  rows !! id = Some t → is_terminal t.(tr_status) = false → prune_finished keep rows !! id = Some t.
Proof.
  intros E Ht. unfold prune_finished. destruct (_ <=? _)%nat; [done|].
  rewrite foldl_delete_lookup, decide_False; [done|].
  intros Hin. apply (subseteq_take _ _ id), elem_of_finished in Hin as (t' & E' & ?). congruence.
Qed.
Lemma prune_same keep rows id :
  prune_finished keep rows !! id = rows !! id ∨ prune_finished keep rows !! id = None.
Proof.
  unfold prune_finished. destruct (_ <=? _)%nat; [by left|].
  rewrite foldl_delete_lookup. case_decide; auto.
Qed.

Lemma starting_register now direction peer name total m id tok m1 :
  minv m → register now direction peer name total m = (id, tok, m1) →
  starting id tok m1 ∧ outside id m m1 ∧ id = m.(mg_next_id).
Proof.
  intros Hm Hr. unfold register, new_token in Hr. injection Hr as Hid Htok Hm1.
  set (row := new_row (mg_next_id m) now direction peer name total) in *.
  destruct (local_fresh id m Hm ltac:(lia)) as [Hnone Htasks].
  assert (m1.(mg_next_id) = id + 1 ∧ m1.(mg_next_task) = S tok ∧ m1.(mg_tasks) = m.(mg_tasks) ∧
    m1.(mg_cancels) = <[id := tok]> m.(mg_cancels) ∧
    m1.(mg_transfers) = prune_finished MAX_FINISHED_RETAINED (<[id := row]> m.(mg_transfers)))
    as (E1 & E2 & E3 & E4 & E5) by (subst; done).
  assert (outside id m m1) as Hout.
  { split; [split; [lia|rewrite E2; subst tok; lia]|]. intros j Hj. split_and!.
    - rewrite E5. destruct (prune_same MAX_FINISHED_RETAINED (<[id:=row]> (mg_transfers m)) j) as [->| ->].
      + left. by rewrite lookup_insert_ne.
      + by right.
    - by rewrite E4, lookup_insert_ne.
    - intros k t _. by rewrite E3. }
  assert (m1.(mg_transfers) !! id = Some row) as Erow.
  { rewrite E5. apply prune_lookup; [apply lookup_insert_eq|done]. }
  split_and!; [|done|done]. split.
  - intros j Hj. destruct Hout as [Hg Ho]. eapply local_same; [done|by apply Ho|apply Hm].
  - intros t E. rewrite Erow in E. injection E as <-. subst id. split_and!; [done|by split|done].
  - lia.
  - by rewrite E4, lookup_insert_eq.
  - intros t E. rewrite E3 in E. destruct (lo_tasks _ _ (Hm (task_id t)) tok t E eq_refl). subst tok. lia.
  - intros k t E Hi. rewrite E3 in E. by apply Htasks in E.
  - intros k. split; intros (t & E & Hi & _); rewrite E3 in E; by apply Htasks in E.
Qed.

Lemma starting_rearm m id t tok m1 :
  minv m → m.(mg_transfers) !! id = Some t → is_paused t.(tr_status) = true →
  rearm id m = (tok, m1) → starting id tok m1.
Proof.
  intros Hm Et Hp Hr. unfold rearm, new_token in Hr. injection Hr as Htok Hm1.
  pose (m0 := (m <| mg_next_task ::= S |>) <| mg_cancels ::= <[id := tok]> |>).
  assert (core m1 = core (set_status_live id Active m0)) as Hc.
  { subst m1 tok. unfold emit_progress_now. by destruct (mg_transfers (set_status_live _ _ _) !! id). }
  clear Hm1. apply core_eq in Hc as (E1 & E2 & E3 & E4 & E5 & _). cbn in E1, E3, E4, E5.
  change (m1.(mg_transfers) = alter (fun t => clear_waiting_code (t <| tr_status := Active |>)) id
    m.(mg_transfers)) in E2.
  assert (outside id m m1) as Hout.
  { split; [split; lia|]. intros j Hj. split_and!.
    - left. by rewrite E2, lookup_alter_ne.
    - by rewrite E3, lookup_insert_ne.
    - intros k t0 _. by rewrite E4. }
  assert (is_live t.(tr_status) = false) as Hl by by destruct (tr_status t).
  destruct (lo_row _ _ (Hm id) t Et) as (Hid & Hb & _).
  split.
  - intros j Hj. destruct Hout as [Hg Ho]. eapply local_same; [done|by apply Ho|apply Hm].
  - intros t0 E. rewrite E2, lookup_alter_eq, Et in E.
    change (Some (clear_waiting_code (t <| tr_status := Active |>)) = Some t0) in E.
    apply (inj Some) in E as <-. rewrite id_status, status_status. split_and!; [done|by apply says_status|done].
  - lia.
  - by rewrite E3, lookup_insert_eq.
  - intros t0 E. rewrite E4 in E. destruct (lo_tasks _ _ (Hm (task_id t0)) tok t0 E eq_refl). lia.
  - intros k t0 E Hi. rewrite E4 in E. destruct (lo_tasks _ _ (Hm id) k t0 E Hi). lia.
  - intros k. split; intros (t0 & E & Hi & Hk); rewrite E4 in E.
    + eapply (undriven id m t Hm Et Hl k). by exists t0.
    + eapply (unfollowed id m t Hm Et Hp k). by exists t0.
Qed.

(** ** Handing a deposit over *)

Lemma offline_confirm_spec id relay offer_relay out expires m :
  ∃ w m1, spawn_offline_confirm id relay offer_relay out expires m = spawn_detached (TaskWatch id w) m1 ∧
    (∀ m0, frames false id m0 m → frames false id m0 m1) ∧ settled id m1.
Proof.
  unfold spawn_offline_confirm. eexists _, _. split; [reflexivity|]. split.
  - intros m0 F. auto 10 with frames.
  - do 2 (eapply settled_core; [reflexivity|]). by apply settled_set_status.
Qed.
Lemma offline_confirm_end tok id relay offer_relay out expires m :
  tok ≠ m.(mg_next_task) →
  core (spawn_offline_confirm id relay offer_relay out expires (end_task tok m)) =
  core (end_task tok (spawn_offline_confirm id relay offer_relay out expires m)).
Proof.
  intros Hne. unfold core, spawn_offline_confirm, spawn_detached, end_task, spawn, new_token. cbn.
  by rewrite delete_insert_ne.
Qed.
Lemma parked_confirm_spec now id out offer relay recipient m :
  ∃ w m1, spawn_parked_confirm now id out offer relay recipient m = spawn_detached (TaskWatch id w) m1 ∧
    (∀ m0, frames false id m0 m → frames false id m0 m1) ∧ settled id m1.
Proof.
  unfold spawn_parked_confirm. destruct offer as [a b]. eexists _, _. split; [reflexivity|]. split.
  - intros m0 F. auto 10 with frames.
  - eapply settled_core; [reflexivity|]. by apply settled_set_status.
Qed.

Lemma inv_ends_followed m tok id m1 w :
  minv m → drives m tok id → frames false id m m1 → settled id m1 →
  after m tok (spawn_detached (TaskWatch id w) (end_task tok m1)).
Proof.
  intros Hm Hd F Hs. pose proof (inv_ends m tok id Hm Hd m1 F (settled_rests _ _ Hs)) as [Hend O].
  split; [|by apply opens_aside].
  apply inv_spawns_aside; [done|done|..].
  - cbn. rewrite (fr_next_id _ _ _ _ F). apply (driven_bound m tok id Hm Hd).
  - intros _. split; [exact Hs|]. intros k (t & E & Hi & Ht). cbn in E.
    apply lookup_delete_Some in E as [Hk E]. apply Hk. symmetry.
    apply (driver_unique m tok id Hm Hd). apply (frames_drives _ _ _ _ _ _ F). by exists t.
Qed.
Lemma spawn_end_core m tok t :
  tok ≠ m.(mg_next_task) → core (end_task tok (spawn_detached t m)) = core (spawn_detached t (end_task tok m)).
Proof.
  intros Hne. unfold core, spawn_detached, new_token, end_task, spawn. cbn.
  by rewrite delete_insert_ne.
Qed.
Lemma inv_followed_ends m tok id m1 w m2 :
  minv m → drives m tok id → frames false id m m1 → settled id m1 →
  core m2 = core (end_task tok (spawn_detached (TaskWatch id w) m1)) → after m tok m2.
Proof.
  intros Hm Hd F Hs Hc. eapply after_core; [exact Hc|]. eapply after_core.
  - apply spawn_end_core. pose proof (driven_bound m tok id Hm Hd) as [Hb _].
    pose proof (fr_next_task _ _ _ _ F). lia.
  - by eapply inv_ends_followed.
Qed.

(** ** The watchers *)

Lemma follower_not_driver m tok t : m.(mg_tasks) !! tok = Some t → is_driver t = false → ∀ id, ¬ drives m tok id.
Proof. intros E Ht id (t' & E' & _ & ?). congruence. Qed.

Lemma follows_bound m tok id : minv m → follows m tok id →
  id < m.(mg_next_id) ∧ settled id m ∧ ∀ k, ¬ drives m k id.
Proof.
  intros Hm Hf. split; [|by apply (lo_follow _ _ (Hm id) tok)].
  destruct Hf as (t & E & Hid & _). by apply (lo_tasks _ _ (Hm id) tok t).
Qed.

Lemma end_undriven_after m tok t m1 :
  m.(mg_tasks) !! tok = Some t → is_driver t = false → minv m1 → m1.(mg_tasks) = m.(mg_tasks) →
  minv (end_task tok m1).
Proof.
  intros E Ht Hm1 Eq. apply inv_end_undriven; [done|]. intros id. eapply follower_not_driver; [|done].
  by rewrite Eq.
Qed.

Lemma settled_complete what id m : settled id (complete_deposit what id m).
Proof.
  unfold complete_deposit, retire.
  destruct what; (eapply settled_core; [reflexivity|]; by apply settled_set_status).
Qed.
Lemma frames_retire keep id what j m m1 : frames keep id m m1 → frames keep id m (retire what j m1).
Proof. destruct what; apply frames_core; reflexivity. Qed.
Lemma frames_complete what id m m1 : frames false id m m1 → frames false id m (complete_deposit what id m1).
Proof. intros F. unfold complete_deposit. apply frames_retire. auto with frames. Qed.

Lemma settled_offer_status id s m : settled id m → settled id (set_offer_status id s m).
Proof. apply plain_settled. plain_field. Qed.

Lemma inv_watch m tok id w l :
  minv m → m.(mg_tasks) !! tok = Some (TaskWatch id w) → minv (watch_turn tok id w l m).
Proof.
  intros Hm E. assert (follows m tok id) as Hf by by exists (TaskWatch id w).
  destruct (follows_bound m tok id Hm Hf) as (Hb & Hs & Hn). unfold watch_turn.
  set (m1 := match asked_offer w l with Some _ => _ | None => m end).
  assert (frames false id m m1 ∧ settled id m1 ∧ m1.(mg_tasks) = m.(mg_tasks)) as (F & Hs1 & Et).
  { unfold m1. destruct (asked_offer w l); [|by split_and!; [apply frames_refl|..]].
    split_and!; [auto with frames|by apply settled_offer_status|done]. }
  clearbody m1. destruct (watch_verdict w l).
  - eapply end_undriven_after; [exact E|done| |by destruct (wt_what w)].
    apply (inv_settles m id Hm Hn Hb); [by apply frames_complete|apply settled_complete].
  - eapply end_undriven_after; [exact E|done| |by destruct (wt_what w)].
    apply (inv_settles m id Hm Hn Hb); destruct (wt_what w); try (by apply frames_retire; auto with frames).
    + eapply settled_core; [reflexivity|]. apply settled_fail.
    + by eapply settled_core; [reflexivity|].
  - eapply end_undriven_after; [exact E|done| |by destruct (wt_what w)].
    apply (inv_settles m id Hm Hn Hb); [by apply frames_retire|].
    by destruct (wt_what w); eapply settled_core; [reflexivity|..].
  - pose proof (inv_settles m id Hm Hn Hb m1 F Hs1) as Hm1.
    eapply inv_respawn; [exact Hm1|by rewrite Et|done..].
Qed.

Lemma opens_watch m tok id w l : opens (eq tok) m (watch_turn tok id w l m).
Proof.
  unfold watch_turn. set (m1 := match asked_offer w l with Some _ => _ | None => m end).
  assert (opens (eq tok) m m1) as O by (unfold m1; destruct (asked_offer w l); by eapply opens_keeps; [..|apply opens_refl]).
  clearbody m1. destruct (watch_verdict w l); [apply opens_end; [done|]..|by apply opens_spawn; [left|left|]];
    by destruct (wt_what w).
Qed.

Lemma inv_withdraw `{!PublicIdParse} m tok id w made :
  minv m → m.(mg_tasks) !! tok = Some (TaskWithdraw id w) → minv (withdraw_end tok id w made m).
Proof.
  intros Hm E. assert (follows m tok id) as Hf by by exists (TaskWithdraw id w).
  destruct (follows_bound m tok id Hm Hf) as (Hb & Hs & Hn). unfold withdraw_end.
  assert (core (foldl (λ m c, net c m) m (take made (withdraw_calls w))) = core m) as Hc.
  { generalize (take made (withdraw_calls w)) as calls. intros calls. revert m Hm E Hf Hb Hs Hn.
    intros m _ _ _ _ _ _. revert m. induction calls as [|c calls IH]; intros m; [done|]. cbn. by rewrite IH. }
  apply core_eq in Hc as Hc'. destruct Hc' as (_ & _ & _ & Et & _ & Ef).
  eapply end_undriven_after; [exact E|done| |exact Et].
  apply (inv_settles m id Hm Hn Hb).
  - apply frames_emit, frames_set_status; [done|]. apply frames_disk. eapply frames_core; [exact Hc|]. apply frames_refl.
  - eapply settled_core; [reflexivity|]. by apply settled_set_status.
Qed.

Lemma opens_withdraw `{!PublicIdParse} m tok id w made : opens (eq tok) m (withdraw_end tok id w made m).
Proof.
  unfold withdraw_end. apply opens_end; [done|].
  set (m1 := foldl _ m _). assert (opens (eq tok) m m1) as O; [|exact O].
  unfold m1. generalize (take made (withdraw_calls w)) as calls. intros calls.
  generalize (opens_refl (eq tok) m). generalize m at 2 4. clear m1.
  induction calls as [|c calls IH]; intros m1 O; [done|]. cbn. apply IH. exact O.
Qed.

Lemma opens_code m tok id c e m' : code_step tok id c e m = Some m' → opens (eq tok) m m'.
Proof.
  unfold code_step. intros Hstep.
  assert (∀ t m1, opens (eq tok) m m1 → opens (eq tok) m (spawn tok t m1)) as Hs
    by (intros; by apply opens_spawn; [left|left|]).
  assert (∀ m1, opens (eq tok) m m1 → opens (eq tok) m (end_task tok m1)) as He
    by (intros; by apply opens_end).
  destruct (cd_pc c), e as [[[]|]|[[]|]| | | |[]]; try done; apply (inj Some) in Hstep as <-;
    unfold code_hosting, code_lost; first [apply Hs|apply He|idtac];
    by eapply opens_keeps; [..|apply opens_refl].
Qed.

Lemma inv_code m tok id c e m' :
  minv m → m.(mg_tasks) !! tok = Some (TaskCode id c) → code_step tok id c e m = Some m' → minv m'.
Proof.
  intros Hm E Hstep.
  assert (minv (code_hosting tok id c m)) as Hhost.
  { unfold code_hosting. eapply inv_respawn; [|exact E|done..].
    eapply (minv_core (set_code id (Some (cr_shown (cd_rec c))) m)); [done|].
    apply inv_plain; [done|plain_field]. }
  assert (minv (code_lost tok id m)) as Hlost.
  { unfold code_lost. eapply end_undriven_after; [exact E|done| |done]. by apply (minv_core m). }
  unfold code_step in Hstep. destruct (cd_pc c), e; try done.
  - destruct r as [[]|]; simplify_eq; try done. by eapply inv_respawn.
  - destruct r as [[]|]; simplify_eq; done.
  - injection Hstep as <-. by apply (minv_core m).
  - injection Hstep as <-. by apply (minv_core m).
  - injection Hstep as <-. by apply (minv_core m).
  - injection Hstep as <-.
    assert (minv (with_disk (remove_code id) (set_code id None m))) as Hm1.
    { apply (minv_core (set_code id None m)); [done|]. apply inv_plain; [done|plain_field]. }
    eapply end_undriven_after; [exact E|done| |by destruct err].
    destruct err; [|done]. by eapply (minv_core (with_disk _ _)).
Qed.

(** ** The drivers *)

Lemma drives_of m tok t : m.(mg_tasks) !! tok = Some t → is_driver t = true → drives m tok (task_id t).
Proof. intros E Hd. by exists t. Qed.

Section drivers.
Context (cf : Config) (fs : Fs) (m : Manager) (tok : nat) (id : Z).
Context (Hm : minv m) (Hd : drives m tok id).

Lemma frames_deposit_begin keep relay payload opts fresh :
  frames keep id m (deposit_begin fs id relay payload opts fresh m).2.
Proof.
  unfold deposit_begin. pose proof (core_mailbox_seal m fs id payload fresh) as Hc.
  destruct (mailbox_seal fs id payload fresh m) as [[[seal ses]|e] m1]; cbn in Hc |- *.
  - apply frames_net. eapply frames_core; [exact Hc|apply frames_refl].
  - eapply frames_core; [exact Hc|apply frames_refl].
Qed.

Lemma frames_deposit_step keep relay recipient payload name note opts phase i s m1 :
  deposit_step cf fs id relay recipient payload name note opts phase i m = Some (s, m1) →
  frames keep id m m1.
Proof.
  unfold deposit_step. intros Hstep. destruct phase, i; try done.
  - apply some_pair in Hstep as [_ <-]. auto with frames.
  - apply some_pair in Hstep as [_ <-]. auto with frames.
  - destruct r as [dep|[]]; apply some_pair in Hstep as [_ <-]; cbn [worth_keeping]; auto with frames.
  - destruct r; apply some_pair in Hstep as [_ <-]; auto with frames.
Qed.

(** [run_deposit]. *)
Lemma inv_deposit_failed e d m1 :
  frames true id m m1 → after m tok (Uploading.deposit_failed tok id e d m1).
Proof.
  intros F. assert (frames false id m m1) as F' by by apply frames_weaken.
  destruct e; cbn [Uploading.deposit_failed].
  - apply (inv_ends m tok id Hm Hd); auto with frames.
  - apply (inv_goes m tok id Hm Hd); auto with frames.
  - apply (inv_goes m tok id Hm Hd); auto with frames.
  - apply (inv_ends m tok id Hm Hd); auto with frames.
Qed.

Lemma inv_run_deposit d e m' : run_deposit_step cf fs tok id d e m = Some m' → after m tok m'.
Proof.
  unfold run_deposit_step. intros Hstep.
  assert (∀ m', (if is_cancelled tok m then Some (end_task tok (finish id true (Ok None) (forget id true m))) else None)
    = Some m' → after m tok m') as Hstop.
  { intros m0. destruct (is_cancelled tok m); [|done]. intros <-%(inj Some).
    apply (inv_ends m tok id Hm Hd); auto with frames. }
  destruct (dp_pc d) as [|phase|], e; try done; try (by apply Hstop).
  - pose proof (frames_deposit_begin true (dp_deposit_relay d) (dp_payload d) (dp_opts d) fresh) as F.
    destruct (deposit_begin _ _ _ _ _ _ _) as [[phase|e] m1]; apply (inj Some) in Hstep as <-; cbn in F.
    + by apply (inv_goes m tok id Hm Hd).
    + by apply inv_deposit_failed.
  - destruct (deposit_step _ _ _ _ _ _ _ _ _ _ _ _) as [[s m1]|] eqn:Es; [|done].
    pose proof (frames_deposit_step true _ _ _ _ _ _ _ _ _ _ Es) as F.
    destruct s as [phase'|[out|e]]; apply (inj Some) in Hstep as <-.
    + by apply (inv_goes m tok id Hm Hd).
    + destruct (offline_confirm_spec id (dp_deposit_relay d) (dp_offer_relay d) out
        (sat_add unix (do_ttl_secs out)) m1) as (w & m2 & Eq & F2 & Hs2).
      eapply (inv_followed_ends m tok id m2 w); [done|done|by apply F2, frames_weaken|done|].
      rewrite <- Eq. apply offline_confirm_end.
      pose proof (driven_bound m tok id Hm Hd). pose proof (fr_next_task _ _ _ _ F). lia.
    + by apply inv_deposit_failed.
  - apply (inj Some) in Hstep as <-. apply (inv_goes m tok id Hm Hd); auto with frames.
Qed.

(** [run_link]. *)
Lemma frames_link_ready keep unix l out m1 : frames keep id m m1 → frames keep id m (link_ready unix id l out m1).
Proof. intros F. unfold link_ready. auto with frames. Qed.
Lemma inv_link_over m1 c r : frames true id m m1 → after m tok (finish id c r (link_over tok id m1)).
Proof.
  intros F%frames_weaken.
  assert (∀ m2, core (finish id c r (end_task tok m2)) = core (end_task tok (finish id c r m2))) as Hc.
  { intros m2. unfold finish, forget, abandon.
    destruct r as [[path|]|]; [destruct c..|]; cbn; by destruct (mg_uploads m2 !! id ≫= rs_session). }
  unfold link_over. eapply after_core; [apply Hc|].
  apply (inv_ends m tok id Hm Hd); auto with frames.
Qed.

Lemma inv_run_link l e m' : run_link_step fs tok id l e m = Some m' → after m tok m'.
Proof.
  unfold run_link_step. intros Hstep.
  assert (∀ m', (if is_cancelled tok m then Some (finish id true (Ok None) (link_over tok id (forget id true m))) else None)
    = Some m' → after m tok m') as Hstop.
  { intros m0. destruct (is_cancelled tok m); [|done]. intros <-%(inj Some). apply inv_link_over. auto with frames. }
  destruct (lk_pc l) as [|seal|], e; try done; try (by apply Hstop).
  - apply (inj Some) in Hstep as <-. destruct (mg_uploads m !! id) as [[[seal|] ses]|];
      [apply (inv_goes m tok id Hm Hd)|apply inv_link_over..]; auto with frames.
  - apply (inj Some) in Hstep as <-. apply (inv_frames m tok id Hm Hd). auto with frames.
  - apply (inj Some) in Hstep as <-. apply (inv_frames m tok id Hm Hd). auto with frames.
  - destruct r as [out|err]; [apply (inj Some) in Hstep as <-|].
    + assert (core (finish id false (Ok None) (link_ready unix id l out (link_over tok id (forget id false m)))) =
        core (finish id false (Ok None) (link_over tok id (link_ready unix id l out (forget id false m))))) as Hc
        by reflexivity.
      eapply after_core; [exact Hc|]. apply inv_link_over. apply frames_link_ready. auto with frames.
    + destruct (worth_waiting err); apply (inj Some) in Hstep as <-.
      * apply (inv_goes m tok id Hm Hd); auto with frames.
      * apply inv_link_over. auto with frames.
  - apply (inj Some) in Hstep as <-. apply (inv_goes m tok id Hm Hd); auto with frames.
Qed.
End drivers.

(** ** A delivery *)

Section delivery.
Context (cf : Config) (fs : Fs) (m : Manager) (tok : nat) (id : Z).
Context (Hm : minv m) (Hd : drives m tok id).

Lemma core_leave d m1 : core (leave tok d m1) = core (end_task tok m1).
Proof. unfold leave. by destruct (dl_standing d). Qed.
Lemma inv_leave d m1 : frames false id m m1 → rests id m1 → after m tok (leave tok d m1).
Proof. intros F Hr. eapply after_core; [apply core_leave|]. by apply (inv_ends m tok id Hm Hd). Qed.
Lemma inv_goto pc d m1 : frames true id m m1 → after m tok (goto tok id pc d m1).
Proof. intros F. unfold goto. by apply (inv_goes m tok id Hm Hd). Qed.
Lemma inv_stop d m1 : frames true id m m1 → after m tok (stop tok id d m1).
Proof. intros F%frames_weaken. unfold stop. apply inv_leave; auto with frames. Qed.
Lemma inv_die e d m1 : frames true id m m1 → after m tok (die tok id e d m1).
Proof. intros F%frames_weaken. unfold die. apply inv_leave; auto with frames. Qed.
Hint Resolve inv_leave inv_goto inv_stop inv_die : frames.

Lemma inv_deliver_top now beacon d : after m tok (deliver_top cf fs tok id now beacon d m).
Proof.
  unfold deliver_top. destruct (is_cancelled tok m); [auto with frames|].
  destruct (_ <=? now); [auto with frames|].
  destruct (probe_online cf now beacon d) as [[] d']; [|auto with frames].
  unfold live_begin. destruct (negb _); auto with frames.
Qed.

Lemma inv_live_prepared fresh before r prep d : after m tok (live_prepared fs tok id fresh before r prep d m).
Proof.
  unfold live_prepared. destruct r as [s|e]; [|auto with frames]. destruct fresh; auto with frames.
Qed.

Lemma inv_live_serve now s d m1 : frames true id m m1 → after m tok (live_serve tok id now s d m1).
Proof.
  intros F. unfold live_serve.
  pose proof (frames_new_token true id m (set_waiting id Offered m1)) as Fn.
  destruct (new_token _) as [k m2]. apply inv_goto. auto with frames.
Qed.
Lemma inv_live_post now status post s d : after m tok (live_post cf tok id now status post s d m).
Proof.
  unfold live_post. set (d' := d <| dl_standing ::= _ |>). clearbody d'.
  destruct (dl_standing d'); [apply inv_live_serve, frames_refl|].
  destruct post; [apply inv_live_serve; auto with frames|auto with frames].
Qed.

Lemma frames_watchdog now status sv sv' m1 : watchdog now status sv m = (sv', m1) → frames true id m m1.
Proof.
  unfold watchdog. intros Hw. destruct (sv_watchdog sv); repeat case_match; injection Hw as _ <-; auto with frames.
Qed.
Lemma frames_send_event ev sv sv' m1 : on_send_event id ev sv m = (sv', m1) → frames true id m m1.
Proof. unfold on_send_event. intros Hw. destruct ev; injection Hw as _ <-; auto with frames. Qed.

Lemma inv_live_served sv r now beacon d : after m tok (live_served tok id sv r now beacon d m).
Proof.
  unfold live_served. destruct r; [auto with frames|].
  destruct (sv_delivered sv).
  { destruct (mg_transfers _ !! id); apply inv_leave; auto with frames. }
  destruct (sv_recipient_cancelled sv); [destruct (dl_standing d); auto with frames|].
  destruct (is_cancelled _ _); [auto with frames|].
  destruct (sv_offloaded sv); [auto with frames|].
  destruct (sv_seen_not_connected sv); auto with frames.
Qed.

Lemma inv_delivery_deposit_failed now e d m1 :
  frames true id m m1 → after m tok (Delivery.deposit_failed tok id now e d m1).
Proof. intros F. destruct e; cbn [Delivery.deposit_failed]; auto with frames. Qed.

Lemma inv_maybe_deposit park_now now fresh d m1 :
  frames true id m m1 → after m tok (maybe_deposit cf fs tok id park_now now fresh d m1).
Proof.
  intros F. unfold maybe_deposit. destruct (_ && _); [|auto with frames].
  pose proof (frames_deposit_begin fs m1 id true (deposit_relay cf d) (dl_source d)
    (fallback_opts id m1) fresh) as F2.
  destruct (deposit_begin _ _ _ _ _ _ _) as [[phase|e] m2]; cbn in F2.
  - apply inv_goto. by eapply frames_trans.
  - apply inv_delivery_deposit_failed. by eapply frames_trans.
Qed.

Lemma inv_deliver_relay online now fresh d : after m tok (deliver_relay cf fs tok id online now fresh d m).
Proof.
  unfold deliver_relay. destruct (dl_live_only d); [destruct (_ && _); auto with frames|].
  destruct (_ && _); [auto with frames|]. apply inv_maybe_deposit, frames_refl.
Qed.

Lemma frames_park_says ev m1 : frames true id m m1 → frames true id m (park_says id ev m1).
Proof. intros F. destruct ev; cbn [park_says]; auto with frames. Qed.

Lemma inv_parked out prep now unix fresh d : after m tok (parked cf fs tok id out prep now unix fresh d m).
Proof.
  unfold parked. destruct out as [out|]; [|apply inv_maybe_deposit; auto with frames].
  set (offer := match dl_standing d with Some _ => _ | None => _ end). clearbody offer.
  destruct (parked_confirm_spec unix id out offer (dl_relay d) (dl_recipient d)
    (clear_deposit_now id (fill_prep id prep m))) as (w & m2 & Eq & F2 & Hs2).
  eapply (inv_followed_ends m tok id m2 w); [done|done|apply F2; auto with frames|done|].
  rewrite core_leave. by rewrite Eq.
Qed.

Lemma inv_deposited now unix r d m1 : frames true id m m1 → after m tok (deposited cf tok id now unix r d m1).
Proof.
  intros F. unfold deposited. destruct r as [out|e]; [|by apply inv_delivery_deposit_failed].
  destruct (offline_confirm_spec id (deposit_relay cf d) (dl_relay d) out
    (sat_add unix OFFLINE_TTL_SECS) (drop_held id m1)) as (w & m2 & Eq & F2 & Hs2).
  apply frames_weaken in F.
  eapply (inv_followed_ends m tok id m2 w); [done|done|apply F2; auto with frames|done|].
  rewrite core_leave. by rewrite Eq.
Qed.

Lemma inv_deliver_wait now status d : after m tok (deliver_wait tok id now status d m).
Proof.
  unfold deliver_wait. destruct (dl_standing d) as [s|], status as [[]|];
    try (by apply inv_goto, frames_refl); destruct (negb _); apply inv_goto; auto with frames.
Qed.

Lemma inv_deliver d e m' : deliver_step cf fs tok id d e m = Some m' → after m tok m'.
Proof.
  unfold deliver_step. intros Hstep.
  assert (∀ m', (if is_cancelled tok m then Some (stop tok id d m) else None) = Some m' → after m tok m') as Hstop.
  { intros m0. destruct (is_cancelled tok m); [|done]. intros <-%(inj Some). auto with frames. }
  destruct (dl_pc d) as [| |fresh before|s|s sv|online| |phase|], e; try done; try (by apply Hstop).
  - apply (inj Some) in Hstep as <-. auto with frames.
  - apply (inj Some) in Hstep as <-. apply inv_deliver_top.
  - apply (inj Some) in Hstep as <-. apply inv_live_prepared.
  - apply (inj Some) in Hstep as <-. apply inv_live_post.
  - destruct (watchdog _ _ _ _) as [sv' m1] eqn:Ew. apply (inj Some) in Hstep as <-.
    apply inv_goto. by eapply frames_watchdog.
  - destruct (on_send_event _ _ _ _) as [sv' m1] eqn:Ew. apply (inj Some) in Hstep as <-.
    apply inv_goto. by eapply frames_send_event.
  - apply (inj Some) in Hstep as <-. apply inv_live_served.
  - apply (inj Some) in Hstep as <-. apply inv_deliver_relay.
  - apply (inj Some) in Hstep as <-. apply (inv_frames m tok id Hm Hd), frames_park_says, frames_refl.
  - apply (inj Some) in Hstep as <-. apply inv_parked.
  - destruct (deposit_step _ _ _ _ _ _ _ _ _ _ _ _) as [[s m1]|] eqn:Es; [|done].
    apply (inj Some) in Hstep as <-.
    pose proof (frames_deposit_step cf fs m id true _ _ _ _ _ _ _ _ _ _ Es) as F.
    destruct s; [by apply inv_goto|by apply inv_deposited].
  - apply (inj Some) in Hstep as <-. apply inv_deliver_wait.
Qed.
End delivery.

(** ** A share *)

Section share.
Context (cf : Config) (m : Manager) (tok : nat) (id : Z).
Context (Hm : minv m) (Hd : drives m tok id).

Lemma frames_spawn_code keep m1 c :
  frames keep id m m1 → frames keep id m (spawn_detached (TaskCode id c) m1).
Proof.
  intros F. assert (m1.(mg_tasks) !! m1.(mg_next_task) = None) as Hfree.
  { destruct (_ !! mg_next_task m1) as [t|] eqn:E; [|done].
    destruct (frames_task_back _ _ _ _ _ _ F E) as [E0|[? _]]; [|lia].
    destruct (lo_tasks _ _ (Hm (task_id t)) _ t E0 eq_refl). pose proof (fr_next_task _ _ _ _ F). lia. }
  eapply frames_trans; [exact F|]. split; try done; cbn; [lia| |].
  - intros k. cbn. destruct (decide (k = mg_next_task m1)) as [->|Hk].
    + right. rewrite lookup_insert_eq. split_and!; [lia|lia|done|by exists c].
    + left. by rewrite lookup_insert_ne.
  - destruct (mg_transfers m1 !! id) as [t|]; [by exists t|done].
Qed.
Lemma frames_host_code ticket c m1 : frames true id m m1 → frames true id m (host_code id ticket c m1).
Proof.
  intros F. unfold host_code. set (rec := code_record _ _ _). apply (frames_disk _ _ _ _ (persist_code rec)) in F.
  destruct (pcd_restored c).
  - unfold resume_code. destruct (negb _); [done|]. by apply frames_spawn_code.
  - set (m2 := with_disk _ m1) in *. clearbody m2.
    pose (run := mkCodeRun rec (m2.(mg_cancels) !! id) CodeHosting).
    apply (frames_set_code _ _ _ _ (Some rec.(cr_shown))) in F.
    eapply frames_core; [|exact (frames_spawn_code _ _ (run <| cd_pc := CodeHosting |>) F)]. reflexivity.
Qed.

Lemma frames_begin_serving keep now payload session seed m1 :
  frames keep id m m1 → frames keep id m (begin_serving now id payload session seed m1).
Proof. intros F. unfold begin_serving. auto 10 with frames. Qed.

Lemma inv_on_share_event s total last delivered now ev : after m tok (on_share_event cf tok id s total last delivered now ev m).
Proof.
  unfold on_share_event. destruct ev; try (by apply after_refl).
  - apply (inv_goes m tok id Hm Hd); auto with frames.
  - apply (inv_goes m tok id Hm Hd); [|done|done]. apply frames_emit, frames_set_progress.
    destruct (cf_share_copies cf); [destruct (_ <=? _)|]; auto with frames.
  - apply (inv_frames m tok id Hm Hd). auto with frames.
Qed.

Lemma inv_share s e m' : share_step cf tok id s e m = Some m' → after m tok m'.
Proof.
  unfold share_step. intros Hstep. destruct (sh_pc s) as [| |total last delivered], e; try done.
  - destruct r as [[session seed]|e]; apply (inj Some) in Hstep as <-.
    + apply (inv_goes m tok id Hm Hd); [|done|done]. apply frames_disk.
      pose proof (frames_begin_serving true now (sh_payload s) session seed m (frames_refl _ _ _)) as F.
      destruct (sh_code s); [by apply frames_host_code|done].
    + apply (inv_ends m tok id Hm Hd); auto with frames.
  - destruct (is_cancelled tok m); [|done]. apply (inj Some) in Hstep as <-.
    apply (inv_ends m tok id Hm Hd); auto with frames.
  - destruct r as [session|e]; apply (inj Some) in Hstep as <-.
    + apply (inv_goes m tok id Hm Hd); auto with frames.
    + apply (inv_ends m tok id Hm Hd); auto with frames.
  - destruct (cf_share_days cf), (mg_transfers m !! id); try done. destruct (_ && _); [|done].
    apply (inj Some) in Hstep as <-. apply (inv_frames m tok id Hm Hd). auto with frames.
  - apply (inj Some) in Hstep as <-. apply inv_on_share_event.
  - apply (inj Some) in Hstep as <-. apply (inv_ends m tok id Hm Hd); destruct r; auto with frames.
Qed.
End share.

(** ** Starting a transfer *)

Ltac start Hm now :=
  lazymatch goal with
  | |- context [register ?n ?d ?p ?nm ?t ?m0] =>
      let id := fresh "id" in let tok := fresh "tok" in let m1 := fresh "m1" in let E := fresh "E" in
      destruct (register n d p nm t m0) as [[id tok] m1] eqn:E;
      let S := fresh "S" in
      destruct (starting_register _ _ _ _ _ _ _ _ _ Hm E) as (S & _ & _)
  end.

Lemma inv_send_to cf fs now recipient source name archive note target live_only theirs m :
  minv m → minv (send_to cf fs now recipient source name archive note target live_only theirs m).2.
Proof.
  intros Hm. unfold send_to. destruct (match theirs with Some _ => _ | None => _ end) as [relay|]; [|done].
  start Hm now. apply (starting_spawns id); [|done|done]. eapply starting_frames; [|exact S].
  apply frames_persist_held. by apply (frames_core _ _ _ m1), frames_refl.
Qed.
Lemma inv_start_deposit cf fs now recipient payload name note opts relay m :
  minv m → minv (start_deposit cf fs now recipient payload name note opts relay m).2.
Proof.
  intros Hm. unfold start_deposit. destruct (match cf_relay cf with Some _ => _ | None => _ end); [|done].
  start Hm now. by apply (starting_spawns id).
Qed.
Lemma frames_remember keep id fs j r s m m1 : frames keep id m m1 → frames keep id m (remember fs j r s m1).
Proof. apply frames_core, core_remember. Qed.
#[local] Hint Resolve frames_remember : frames.
Lemma inv_create_link cf fs now source fresh ttl max m :
  minv m → minv (create_link cf fs now source fresh ttl max m).2.
Proof.
  intros Hm. unfold create_link. destruct (cf_relay cf); [|done]. destruct fresh as [seal|]; [|done].
  start Hm now. apply (starting_spawns id); [|done|done]. eapply starting_frames; [|exact S]. auto with frames.
Qed.
Lemma inv_start_share fs now payload name archive seed_relay code m :
  minv m → minv (start_share fs now payload name archive seed_relay code m).2.
Proof.
  intros Hm. unfold start_share. start Hm now. apply (starting_spawns id); [|done|done].
  eapply starting_frames; [|exact S]. destruct code; auto with frames.
Qed.

(** ** The list *)

Lemma inv_drops_rows m rows :
  minv m → (∀ j, rows !! j = m.(mg_transfers) !! j ∨ rows !! j = None) → minv (m <| mg_transfers := rows |>).
Proof. intros Hm Hr j. apply (local_same j m); [by split| |apply Hm]. split_and!; [apply Hr|done|done]. Qed.

Lemma inv_adopt row m : minv m → minv (adopt_finished row m).2.
Proof.
  intros Hm. unfold adopt_finished. destruct (negb _) eqn:Ht; [done|]. apply negb_false_iff in Ht.
  cbn [snd]. set (id := mg_next_id m). set (t := new_row _ _ _ _ _ _ <| tr_transferred := _ |>
    <| tr_status := _ |> <| tr_path := _ |> <| tr_saved_uri := _ |>).
  set (m' := _ <| mg_transfers ::= _ |>).
  destruct (local_fresh id m Hm ltac:(lia)) as [_ Htasks].
  assert (is_live (tr_status t) = false ∧ is_paused (tr_status t) = false) as Hst by by destruct (fr_status row).
  assert (m'.(mg_transfers) !! id = Some t ∨ m'.(mg_transfers) !! id = None) as Hrow.
  { destruct (prune_same MAX_FINISHED_RETAINED (<[id:=t]> (mg_transfers m)) id) as [E|E]; [left|by right].
    etrans; [exact E|]. apply lookup_insert_eq. }
  assert (settled id m') as Hs.
  { intros t' E. destruct Hrow as [E'|E']; rewrite E in E'; [|done]. by injection E' as ->. }
  assert (∀ j, j ≠ id → same_for j m m') as Hout.
  { intros j Hj. split_and!; [|done|done].
    destruct (prune_same MAX_FINISHED_RETAINED (<[id:=t]> (mg_transfers m)) j) as [E|E]; [left|by right].
    etrans; [exact E|]. by apply lookup_insert_ne. }
  assert (∀ k, ¬ drives m' k id ∧ ¬ follows m' k id) as Hnone.
  { intros k. split; intros (t0 & E & Hi & _); by apply Htasks in E. }
  apply (inv_outside id m); [done|split; [split; cbn; lia|done]|]. split.
  - intros t' E. destruct Hrow as [E'|E']; rewrite E in E'; [|done]. injection E' as ->.
    split_and!; [done|cbn; lia|]. unfold row_says. by destruct (fr_status row).
  - intros k t0 E Hi. by apply Htasks in E.
  - intros (t' & E & Hl). apply Hs in E as [? _]. congruence.
  - intros k Hk. by apply Hnone in Hk.
  - intros k Hk. by apply Hnone in Hk.
Qed.

Lemma inv_remove id m : minv m → minv (remove id m).2.
Proof.
  intros Hm. unfold remove. destruct (mg_transfers m !! id) as [t|]; [|done].
  destruct (is_terminal _); [|done]. apply inv_drops_rows; [done|]. intros j.
  destruct (decide (j = id)) as [->|Hj]; [right; apply lookup_delete_eq|left; by apply lookup_delete_ne].
Qed.
Lemma inv_clear m : minv m → minv (clear_finished m).2.
Proof.
  intros Hm. unfold clear_finished. cbn [snd].
  assert (minv (m <| mg_transfers ::= filter (fun p => clear_keeps p.2.(tr_status)) |>)) as H1.
  { apply inv_drops_rows; [done|]. intros j. rewrite map_lookup_filter.
    destruct (mg_transfers m !! j) as [t|]; [|by left]. cbn. case_guard; [by left|by right]. }
  destruct (_ <? _)%nat; [|exact H1]. by eapply (minv_core (m <| mg_transfers ::= _ |>)).
Qed.

(** ** Cancelling, pausing, resuming *)

Lemma inv_cancel id m : minv m → minv (cancel id m).2.
Proof.
  intros Hm. unfold cancel. destruct (mg_transfers m !! id) as [t|] eqn:Et; [|done].
  destruct (lo_row _ _ (Hm id) t Et) as (Hid & Hb & _).
  assert (is_live (tr_status t) = true →
    minv (match mg_cancels m !! id with Some tok => (true, fire tok m) | None => (true, finish id true (Ok None) m) end).2) as Hlive.
  { intros Hl. destruct (lo_live _ _ (Hm id)) as [k Hk]; [by exists t|].
    destruct (lo_driver _ _ (Hm id) k Hk) as [-> _]. by apply minv_fire. }
  destruct (tr_status t) eqn:Hst; try done; try (by apply Hlive).
  - assert (settled id m) as Hs by (intros t' E'; rewrite Et in E'; injection E' as <-; by rewrite Hst).
    assert (∀ k, ¬ drives m k id) as Hn by (apply (undriven id m t); [done|done|by rewrite Hst]).
    by apply inv_spawns_aside.
  - apply (inv_settles m id Hm); [|done|apply frames_finish, frames_refl|apply settled_finish].
    apply (undriven id m t); [done|done|by rewrite Hst].
Qed.

Lemma opens_fire who m m1 tok : opens who m m1 → opens who m (fire tok m1).
Proof. intros O. eapply opens_keeps; [..|exact O]; [done|done|cbn; set_solver]. Qed.
Lemma fire_row_after id m m1 :
  core m1 = core m → core (uncancelled (fire_row id m1)) = core (uncancelled m) ∧ opens nobody m (fire_row id m1).
Proof.
  intros Hc. assert (opens nobody m m1) as O by (eapply opens_core; [exact Hc|apply opens_refl]).
  assert (core (uncancelled m1) = core (uncancelled m)) as Hu.
  { apply core_eq in Hc as (E1 & E2 & E3 & E4 & E5 & _). unfold core. cbn. by rewrite E1, E2, E3, E4, E5. }
  unfold fire_row. destruct (mg_cancels m1 !! id); [|done]. split; [exact Hu|by apply opens_fire].
Qed.
Lemma pause_after id m :
  core (uncancelled (pause id m).2) = core (uncancelled m) ∧ opens nobody m (pause id m).2.
Proof.
  assert (core (uncancelled m) = core (uncancelled m) ∧ opens nobody m m) as Hrefl by (split; [done|apply opens_refl]).
  unfold pause. destruct (mg_transfers m !! id) as [t|]; [|done]. destruct (negb _); [done|].
  destruct (bool_decide _); [by apply fire_row_after|].
  destruct (_ && _); [by apply fire_row_after|done].
Qed.
Lemma inv_pause id m : minv m → minv (pause id m).2.
Proof. apply minv_uncancelled, pause_after. Qed.
Lemma inv_deposit_now id m : minv m → minv (deposit_now id m).2.
Proof.
  apply minv_uncancelled. unfold deposit_now. destruct (negb _); [done|].
  destruct (_ !! id) as [h|]; [|done]. by destruct (h_attempt h).
Qed.

Lemma starting_core id tok m m1 : core m1 = core m → starting id tok m → starting id tok m1.
Proof. intros Hc. apply starting_frames. eapply frames_core; [exact Hc|apply frames_refl]. Qed.

Lemma inv_resume cf id m : minv m → minv (resume cf id m).2.
Proof.
  intros Hm. unfold resume.
  destruct (mg_transfers m !! id) as [t|] eqn:Et; [|done]. destruct (is_paused (tr_status t)) eqn:Hp; [|done].
  cbn [negb]. 
  assert (∀ m1 task, core m1 = core m → task_id task = id → is_driver task = true →
    ∀ tok m2 m3, rearm id m1 = (tok, m2) → core m3 = core m2 → minv (spawn tok task m3)) as Hgo.
  { intros m1 task Hc Hid Hdr tok m2 m3 Hr Hc3. apply (starting_spawns id); [|done|done].
    eapply starting_core; [exact Hc3|]. eapply starting_rearm; [|..|exact Hr]; [by apply (minv_core m)| |exact Hp].
    by apply core_eq in Hc as (_ & -> & _). }
  assert (minv (match mg_disk m ≫= load_download id with
    | Some rec => let m := with_disk (clear_paused id) m in let '(tok, m) := rearm id m in
        (true, spawn_receive id rec.(dr_ticket) rec.(dr_out_path) None tok None m)
    | None => (false, m) end).2) as Hfetch.
  { destruct (mg_disk m ≫= _) as [rec|]; [|done].
    cbn zeta. destruct (rearm id (with_disk (clear_paused id) m)) as [tok m2] eqn:Er.
    by eapply (Hgo (with_disk (clear_paused id) m)). }
  destruct (mg_held m !! id) as [h|]; [|exact Hfetch].
  destruct (match Some h ≫= h_relay with Some _ => _ | None => _ end) as [relay|]; [|exact Hfetch].
  cbn zeta. destruct (rearm id (upd_held id _ m)) as [tok m2] eqn:Er.
  eapply (Hgo (upd_held id (fun h => h <| h_pause_flag := false |>) m)); [done..|exact Er|apply core_persist_held].
Qed.

Lemma foldl_inv {X S} (P : S → Prop) (f : S → X → S) xs s :
  (∀ s x, P s → P (f s x)) → P s → P (foldl f s xs).
Proof. intros Hf. revert s. induction xs; cbn; auto. Qed.

Lemma inv_suspend m : minv m → minv (suspend_running m).2.
Proof.
  intros Hm. unfold suspend_running. apply (foldl_inv (fun p => minv p.2)); [|done].
  intros [stopped m1] id Hm1. unfold suspend_one. cbn [fst snd].
  pose proof (inv_pause id m1 Hm1) as Hp. destruct (pause id m1) as [paused m2]. cbn in Hp.
  destruct paused; [|done]. cbn. destruct (match mg_disk m2 with Some _ => _ | None => _ end); [|done].
  by apply (minv_core m2).
Qed.
Lemma inv_resume_suspended cf m : minv m → minv (resume_suspended cf m).2.
Proof.
  intros Hm. unfold resume_suspended. destruct (mg_disk m); [|done].
  apply (foldl_inv (fun p => minv p.2)); [|done]. intros [restarted m1] id Hm1. cbn in Hm1.
  case_decide; [|done]. pose proof (inv_resume cf id m1 Hm1) as Hr.
  destruct (resume cf id m1) as [r m2]. by destruct r.
Qed.

(** ** Receiving *)

Section receiving.
Context {A : Type} `{!Base32Text, !Wire (ChunkTicket A), !Wire OfflineTicket, !Wire OfflineWireV1,
  !Blake3Hash, !HexLower, !PublicIdParse}.
Context (cf : Config).

Lemma core_note id ticket m : core (note_download_content (A := A) id ticket m) = core m.
Proof. unfold note_download_content. by destruct (ticket_content ticket). Qed.
Lemma core_take_offers ticket m : core (take_offers_for_same_content (A := A) ticket m).2 = core m.
Proof. unfold take_offers_for_same_content. by destruct (ticket_content ticket). Qed.
Lemma core_acks ids m : core (foldl (fun m id => ack cf id m) m ids) = core m.
Proof. revert m. induction ids as [|id ids IH]; intros m; [done|]. cbn. by rewrite IH, core_ack. Qed.

Lemma core_on_offer offer m : core (on_offer (A := A) cf offer m) = core m.
Proof.
  unfold on_offer. destruct (download_of_same_content _ _ _) as [on|]; [|done].
  pose proof (core_take_offers (of_ticket (ro_offer offer)) m) as Hc.
  destruct (take_offers_for_same_content _ _) as [ghosts m1]. cbn in Hc.
  destruct (status_is_paused on m); [done|]. by rewrite core_acks.
Qed.
Lemma core_reject id m : core (reject_offer cf id m) = core m.
Proof. unfold reject_offer. by rewrite core_ack. Qed.

Lemma inv_start_download now ticket out_path peer name size password ack_offer m :
  minv m → minv (start_download (A := A) now ticket out_path peer name size password ack_offer m).2.
Proof.
  intros Hm. unfold start_download. start Hm now. unfold spawn_receive.
  apply (starting_spawns id); [|done|done]. eapply starting_core; [|exact S].
  destruct ack_offer, (looks_like ticket); try done; cbn [snd]; by rewrite core_with_disk, core_note.
Qed.

Lemma inv_carry claim only_empty id m : minv m → minv (carry_sender_name claim only_empty id m).
Proof.
  intros Hm. unfold carry_sender_name. destruct (bool_decide _); [done|]. apply inv_plain; [done|].
  intros t. destruct (_ && _); repeat split; reflexivity.
Qed.

Lemma inv_accept now offer_id out password m :
  minv m → minv (accept_offer (A := A) cf now offer_id out password m).2.
Proof.
  intros Hm. unfold accept_offer. destruct (refused _ _ _ _); [done|].
  destruct (mg_pending m !! offer_id) as [offer|]; [|done].
  set (m1 := m <| mg_pending ::= _ |>). assert (minv m1) as Hm1 by by apply (minv_core m).
  clearbody m1. cbn zeta. destruct (accept_path _ _ _) as [path|]; [|done].
  set (m2 := if negb _ then m1 else _). assert (minv m2) as Hm2.
  { unfold m2. destruct (negb _); [done|]. apply (minv_core m1); [apply core_ack|done]. }
  clearbody m2. destruct (download_of_same_content _ _ _) as [on|]; cbn [snd].
  - apply inv_carry. destruct (status_is_paused on m2); [by apply inv_resume|done].
  - pose proof (inv_start_download now (of_ticket (ro_offer offer)) path (Some (ro_sender offer))
      (of_name (ro_offer offer)) (of_size (ro_offer offer)) password
      (if negb (looks_like (of_ticket (ro_offer offer))) then Some offer_id else None) m2 Hm2) as H3.
    destruct (start_download _ _ _ _ _ _ _ _ _) as [id m3]. by apply inv_carry.
Qed.

(** Seeding registers a share of its own beside the download. *)
Lemma resume_serve_spec now rec stats m :
  minv m → minv (resume_serve (A := A) now rec stats m).2 ∧
  opens nobody m (resume_serve (A := A) now rec stats m).2 ∧
  ∀ k j, drives m k j → drives (resume_serve (A := A) now rec stats m).2 k j.
Proof.
  intros Hm. unfold resume_serve. destruct (resumable_key _) as [expected|]; [|by split_and!; [|apply opens_refl|]].
  destruct (negb _); [by split_and!; [|apply opens_refl|]|].
  destruct (register _ _ _ _ _ m) as [[id tok] m1] eqn:E.
  destruct (starting_register _ _ _ _ _ _ _ _ _ Hm E) as (S & [Hg Ho] & Hid). cbn [snd].
  set (m2 := with_disk _ (set_share_stats _ _ m1)).
  assert (frames true id m1 m2) as F by (apply frames_disk, frames_set_share_stats, frames_refl).
  destruct (opens_register nobody _ _ _ _ _ m m id tok m1 (opens_refl _ _) E) as [O L].
  split_and!; [apply (starting_spawns id); [by eapply starting_frames|done..]| |].
  { apply opens_spawn; [by right|by right|]. by eapply opens_frames. }
  intros k j (t & Et & Hj & Hd). exists t. split; [|done].
  destruct (lo_tasks _ _ (Hm j) k t Et Hj) as [Hk Hjb].
  assert (m1.(mg_tasks) !! k = Some t) as E1 by (apply (Ho j); [lia|done..]).
  apply lookup_insert_Some. right. split; [|by apply (frames_task _ _ _ _ _ _ F)].
  intros <-. by eapply (sta_free _ _ _ S).
Qed.

Section fetch.
Context (stage_path : string → string) (m : Manager) (tok : nat) (id : Z).
Context (Hm : minv m) (Hd : drives m tok id).

Lemma frames_publish keep published m1 :
  frames keep id m m1 → frames keep id m (publish_completed cf id published m1).2.
Proof.
  intros F. unfold publish_completed. destruct (negb _); [done|].
  destruct published as [[]|]; cbn [snd]; auto with frames.
Qed.

Lemma inv_fetch_ends f r published now seed : after m tok (fetch_ends (A := A) cf stage_path tok id f r published now seed m).
Proof.
  unfold fetch_ends. set (pm := match r with Ok o => if is_complete o then _ else _ | Err _ => _ end).
  assert (frames true id m pm.2) as F.
  { unfold pm. destruct r as [o|]; [destruct (is_complete o)|]; [|apply frames_refl..].
    apply frames_publish, frames_refl. }
  destruct pm as [published' m1]. cbn [snd] in F.
  set (m2 := match r with Ok o => if is_complete o && cf_seeding cf then _ else _ | Err _ => _ end).
  assert (minv m2 ∧ drives m2 tok id ∧ opens (eq tok) m m2) as (Hm2 & Hd2 & O2).
  { destruct (inv_frames m tok id Hm Hd m1 F) as [Hm1 O1].
    assert (drives m1 tok id) as Hd1 by by apply (frames_drives _ _ _ _ _ _ F).
    unfold m2. destruct r as [o|]; [|done]. destruct (_ && _); [|done].
    destruct (seed_source _ _ _ _) as [[path owned]|]; [|done]. unfold seed_file.
    set (rec := mkSendRecord _ _ _ _ _). set (st := mkShareRecord _ _ _ _ _).
    destruct (resume_serve_spec now rec st m1 Hm1) as (? & ? & ?).
    split_and!; [done|auto|]. eapply opens_trans; [exact O1|by apply opens_weaken]. }
  clearbody m2. clear F. cbn zeta. apply (after_trans m m2); [done|]. destruct (receive_pause_reason _ _ _).
  - apply (inv_ends m2 tok id Hm2 Hd2); [auto with frames|].
    eapply rests_core; [reflexivity|]. by apply rests_set_status.
  - destruct (is_cancelled tok m && _); apply (inv_ends m2 tok id Hm2 Hd2); auto with frames.
    eapply rests_core; [reflexivity|]. apply settled_rests, settled_finish.
Qed.

Lemma inv_mailbox_ends r published : after m tok (mailbox_ends cf tok id r published m).
Proof.
  unfold mailbox_ends. cbn zeta. set (m1 := m <| mg_deferred_acks ::= _ |>).
  assert (frames true id m m1) as F by (apply frames_core with m; [done|apply frames_refl]).
  clearbody m1. set (m2 := if _ || _ then _ else m1).
  assert (frames true id m m2) as F2.
  { unfold m2. destruct (_ || _); [|done]. destruct (_ !! id); auto with frames. }
  clearbody m2. clear m1 F. destruct r as [[path n]|e].
  - apply (frames_set_progress _ _ _ _ n) in F2. set (m3 := set_progress id n m2) in *. clearbody m3.
    set (pm := if is_cancelled tok m2 then _ else _).
    assert (frames true id m pm.2) as F3.
    { unfold pm. destruct (is_cancelled tok m2); [done|by apply frames_publish]. }
    destruct pm as [p m4]. cbn in F3. apply (inv_ends m tok id Hm Hd); [|auto with frames].
    apply frames_finish. by apply frames_weaken.
  - apply (inv_ends m tok id Hm Hd); [|auto with frames]. apply frames_finish. by apply frames_weaken.
Qed.

Lemma inv_fetch f e m' : fetch_step (A := A) cf stage_path tok id f e m = Some m' → after m tok m'.
Proof.
  unfold fetch_step. intros Hstep. destruct (fe_pc f), e; try done.
  - destruct (looks_like _); apply (inj Some) in Hstep as <-; apply (inv_goes m tok id Hm Hd); try done.
    + by apply frames_core with m, frames_refl.
    + destruct (fe_peer f); auto with frames.
  - apply (inj Some) in Hstep as <-. apply (inv_frames m tok id Hm Hd).
    destruct id0; [destruct (public_id_ok _)|]; auto with frames.
  - apply (inj Some) in Hstep as <-. apply (inv_goes m tok id Hm Hd); auto with frames.
  - apply (inj Some) in Hstep as <-. apply (inv_goes m tok id Hm Hd); auto with frames.
  - apply (inj Some) in Hstep as <-. apply (inv_frames m tok id Hm Hd). auto with frames.
  - apply (inj Some) in Hstep as <-. apply inv_fetch_ends.
  - apply (inj Some) in Hstep as <-. apply inv_mailbox_ends.
Qed.
End fetch.
End receiving.

(** ** Starting again *)

Section restart.
Context {A : Type} `{!Base32Text, !Wire (ChunkTicket A), !Wire OfflineTicket, !Wire OfflineWireV1,
  !Blake3Hash, !HexLower, !PublicIdParse}.
Context (cf : Config) (fs : Fs).

Lemma frames_drop_token id m m1 : frames false id m m1 → frames false id m (drop_token id m1).
Proof. apply frames_clear_token. Qed.
#[local] Hint Resolve frames_drop_token frames_remember : frames.

Lemma core_take_upload id payload m : core (take_upload_record fs id payload m).2 = core m.
Proof.
  unfold take_upload_record. destruct (mg_disk m) as [d|]; [|done].
  destruct (dk_uploads d !! id) as [rec|]; [|done]. case_decide; [done|]. cbn [snd].
  by rewrite core_abandon.
Qed.
Lemma minv_with_disk f m : minv m → minv (with_disk f m).
Proof. by apply minv_core. Qed.

(** A deposit that comes back: registered, its token dropped, and watched. *)
Lemma inv_restore_deposited now r m : minv m → minv (restore_deposited now r m).
Proof.
  intros Hm. unfold restore_deposited. destruct (_ <=? now); [by apply minv_with_disk|].
  destruct (register _ _ _ _ _ m) as [[id tok] m1] eqn:E.
  destruct (starting_register _ _ _ _ _ _ _ _ _ Hm E) as (S & _ & _).
  set (out := mkDepositOutcome _ _ _ _ _ _ _ _).
  destruct (offline_confirm_spec id (de_relay r) (de_offer_relay r) out (de_expires r) (drop_token id m1))
    as (w & m2 & -> & F2 & Hs2).
  assert (frames false id m1 m2) as F by (apply F2, frames_drop_token, frames_refl).
  assert (minv m2) as Hm2 by (eapply starting_rests; [exact S|exact F|by apply settled_rests]).
  apply inv_spawns_aside; [done|done|..].
  - cbn. rewrite (fr_next_id _ _ _ _ F). apply (sta_bound _ _ _ S).
  - intros _. split; [done|]. intros k Hk. apply (frames_drives _ _ _ _ _ _ F) in Hk.
    by apply (sta_none _ _ _ S k) in Hk.
Qed.

Lemma inv_restore_sendto now r prep m : minv m → minv (restore_sendto cf fs now r prep m).
Proof.
  intros Hm. unfold restore_sendto. destruct (public_id _) as [recipient|]; [|done].
  destruct (match st_relay r with Some _ => _ | None => _ end) as [relay|]; [|done].
  start Hm now. cbn zeta.
  pose proof (core_take_upload (st_id r) (st_payload r) m1) as Hc.
  destruct (take_upload_record _ _ _ _) as [upload m2]. cbn in Hc.
  pose proof (starting_core _ _ _ _ Hc S) as S2. set (h := new_held _ _ _ _ _ _ _ _ _). clearbody h.
  set (m3 := m2 <| mg_held ::= _ |>). set (m4 := match upload with Some _ => _ | None => m3 end).
  set (m5 := match prep with Some _ => _ | None => m4 end).
  assert (core m5 = core m2) as Hc5.
  { transitivity (core m4).
    - unfold m5. destruct prep; [|done]. by destruct (_ ≫= _).
    - unfold m4. destruct upload; [by rewrite core_remember|done]. }
  pose proof (starting_core _ _ _ _ Hc5 S2) as S5. clearbody m5. destruct (st_paused r).
  - eapply starting_rests; [exact S5|auto 10 with frames|].
    eapply rests_core; [reflexivity|]. by apply rests_set_status.
  - apply (starting_spawns id); [|done|done]. eapply starting_core; [|exact S5]. apply core_persist_held.
Qed.

Lemma inv_restore_paused now r m : minv m → minv (restore_paused_download (A := A) now r m).
Proof.
  intros Hm. unfold restore_paused_download. start Hm now. eapply starting_rests; [exact S| |].
  - apply frames_emit, frames_set_status; [done|]. apply frames_disk.
    eapply frames_core; [apply core_note|]. apply frames_drop_token, frames_refl.
  - eapply rests_core; [reflexivity|]. by apply rests_set_status.
Qed.

Lemma inv_restore_link now fresh r m : minv m → minv (restore_link fs now fresh r m).
Proof.
  intros Hm. unfold restore_link. pose proof (core_take_upload (lr_id r) (lr_payload r) m) as Hc.
  destruct (take_upload_record _ _ _ _) as [resumed m1]. cbn in Hc.
  apply (minv_core _ _ Hc) in Hm. clear Hc m. rename m1 into m.
  destruct (match resumed with Some _ => _ | None => _ end) as [seal|e]; start Hm now.
  - apply (starting_spawns id); [|done|done]. eapply starting_frames; [|exact S]. auto with frames.
  - eapply starting_rests; [exact S|auto with frames|]. apply settled_rests, settled_finish.
Qed.

Lemma inv_resume_code rec id m : minv m → id < m.(mg_next_id) → minv (resume_code rec id m).
Proof. intros Hm Hid. unfold resume_code. destruct (negb _); [done|]. by apply inv_spawns_aside. Qed.

Lemma resume_serve_bound now rec stats m new_id m1 :
  minv m → resume_serve (A := A) now rec stats m = (Some new_id, m1) → new_id < m1.(mg_next_id).
Proof.
  intros Hm. unfold resume_serve. destruct (resumable_key _) as [expected|]; [|done].
  destruct (negb _); [done|]. destruct (register _ _ _ _ _ m) as [[id tok] m2] eqn:E.
  destruct (starting_register _ _ _ _ _ _ _ _ _ Hm E) as (S & _ & _).
  intros [<- <-]%some_pair_fst. apply (sta_bound _ _ _ S).
Qed.

Lemma inv_resume_share now codes m r :
  minv m → minv (resume_share (A := A) now (codes, m) r).2.
Proof.
  intros Hm. unfold resume_share. set (stats := match mg_disk m with Some _ => _ | None => _ end).
  clearbody stats. cbn zeta. set (m1 := with_disk _ m).
  assert (minv m1) as Hm1 by by apply minv_with_disk. clearbody m1.
  pose proof (resume_serve_spec now r stats m1 Hm1) as (Hm2 & _ & _).
  pose proof (resume_serve_bound now r stats m1) as Hb.
  destruct (resume_serve now r stats m1) as [[new_id|] m2]; [|done]. cbn [snd] in *.
  destruct (codes !! _); [|done]. apply inv_resume_code; [done|]. by apply Hb.
Qed.

Lemma inv_resume_incomplete now fresh l m :
  minv m → minv (resume_incomplete (A := A) cf fs now fresh l m).2.
Proof.
  intros Hm. unfold resume_incomplete. destruct (mg_disk m) as [d|]; [|done]. cbn zeta. cbn [snd].
  apply (foldl_inv (fun p => minv p.2)); [intros [codes m1] r Hm1; by apply inv_resume_share|]. cbn [snd].
  apply foldl_inv.
  { intros m1 r Hm1. unfold resume_download. cbn zeta. destruct (bool_decide _).
    - by apply inv_restore_paused, minv_with_disk.
    - by apply inv_start_download, minv_with_disk. }
  set (m1 := foldl _ _ _). assert (minv m1) as Hm1.
  { unfold m1. apply foldl_inv.
    { intros m2 r Hm2. unfold resume_pending_share. by apply inv_start_share, minv_with_disk. }
    apply foldl_inv.
    { intros m2 r Hm2. unfold resume_link. by apply inv_restore_link, minv_with_disk. }
    apply foldl_inv.
    { intros m2 r Hm2. unfold resume_sendto. by apply inv_restore_sendto, minv_with_disk. }
    unfold sweep_preps. set (m3 := foldl _ _ _). assert (minv m3) as Hm3.
    { unfold m3. apply foldl_inv.
      - intros m2 r Hm2. unfold resume_deposited. by apply inv_restore_deposited, minv_with_disk.
      - by apply minv_with_disk. }
    clearbody m3. destruct (mg_disk m3); [|done]. apply foldl_inv; [|done].
    intros m2 p Hm2. destruct (existsb _ _); [done|by apply minv_with_disk]. }
  clearbody m1. unfold sweep_upload_records. destruct (mg_disk m1); [|done].
  apply foldl_inv; [|done]. intros m2 r Hm2. apply (minv_core (with_disk (remove_upload_record (ur_id r)) m2)).
  - apply core_abandon.
  - by apply minv_with_disk.
Qed.
End restart.

(** ** Any run *)

Lemma inv_new disk : minv (new_manager disk).
Proof.
  intros id. split; cbn; try done.
  - intros (t & E & _). done.
  - intros k (t & E & _). done.
  - intros k (t & E & _). done.
Qed.

Section steps.
Context {A : Type} `{!Base32Text, !Wire (ChunkTicket A), !Wire OfflineTicket, !Wire OfflineWireV1,
  !Blake3Hash, !HexLower, !PublicIdParse}.
Context (cf : Config) (stage_path : string → string).

Lemma inv_op fs now op m : minv m → minv (op_step (A := A) cf fs now op m).
Proof.
  intros Hm. destruct op; cbn [op_step].
  - by apply inv_send_to.
  - by apply inv_start_deposit.
  - by apply inv_create_link.
  - by apply inv_start_share.
  - by apply inv_start_download.
  - by apply (minv_core m); [apply core_on_offer|].
  - by apply inv_accept.
  - by apply (minv_core m); [apply core_reject|].
  - by apply inv_cancel.
  - by apply inv_pause.
  - by apply inv_resume.
  - by apply inv_deposit_now.
  - by apply inv_remove.
  - by apply inv_clear.
  - by apply inv_adopt.
  - by apply inv_suspend.
  - by apply inv_resume_suspended.
  - by apply inv_resume_incomplete.
Qed.

Lemma inv_task fs tok t e m m' :
  minv m → m.(mg_tasks) !! tok = Some t → task_step (A := A) cf stage_path fs tok t e m = Some m' →
  after m tok m'.
Proof.
  intros Hm E Hstep. pose proof (drives_of m tok t E) as Hd.
  destruct t, e; try done; cbn [task_step task_id] in *.
  - eapply inv_deliver; [done|by apply Hd|done].
  - eapply inv_fetch; [done|by apply Hd|done].
  - eapply inv_run_link; [done|by apply Hd|done].
  - eapply inv_run_deposit; [done|by apply Hd|done].
  - eapply inv_share; [done|by apply Hd|done].
  - apply (inj Some) in Hstep as <-. split; [by apply inv_watch|apply opens_watch].
  - apply (inj Some) in Hstep as <-. split; [by apply inv_withdraw|apply opens_withdraw].
  - split; [by eapply inv_code|by eapply opens_code].
Qed.

Lemma inv_step h m m' : minv m → step (A := A) cf stage_path h m = Some m' → minv m'.
Proof.
  intros Hm. unfold step. destruct (ha_event h) as [op|tok e].
  - intros <-%(inj Some). by apply inv_op.
  - destruct (mg_tasks m !! tok) as [t|] eqn:E; [|done]. intros Hstep. by eapply inv_task.
Qed.

Lemma inv_run hs m m' : minv m → run (A := A) cf stage_path hs m = Some m' → minv m'.
Proof.
  intros Hm. apply (run_keeps cf stage_path (fun _ => True) minv); [|by apply Forall_true|done].
  intros h m1 m2 _. apply inv_step.
Qed.
End steps.
