(* ===== verification/ManagerFacts.v ===== *)
(** * No task is touched by another's steps

    A call of a front end only adds tasks, and a step of a task changes no task but
    itself: what [tokio::spawn] gives, for the tasks as data. *)
From S2P Require Import Prelude.
From S2P Require Import Text.
From S2P Require Import SyncTypes.
From S2P Require Import Store.
From S2P Require Import Link.
From S2P Require Import UploadClient.
From S2P Require Import Seeds.
From S2P Require Import Tickets.
From S2P Require Import Transfers.
From S2P Require Import Records.
From S2P Require Import ManagerState.
From S2P Require Import Manager.
From S2P Require Import Watching.
From S2P Require Import Uploading.
From S2P Require Import Delivery.
From S2P Require Import Landing.
From S2P Require Import Receiving.
From S2P Require Import Sharing.
From S2P Require Import Restart.
From S2P Require Import ManagerRuns.
From S2P Require Import ManagerFrames.
From S2P Require Import ManagerInv.
From S2P Require Import ManagerSteps.
Local Open Scope Z_scope.

Create HintDb opens.

Section opens.
Context (who : nat → Prop).

Lemma opens_rearm id m m1 tok m2 :
  opens who m m1 → rearm id m1 = (tok, m2) → opens who m m2 ∧ (m.(mg_next_task) <= tok)%nat.
Proof.
  intros O Hr. pose proof O as [[N _] _]. unfold rearm, new_token in Hr. injection Hr as <- <-. split; [|lia].
  unfold emit_progress_now. destruct (mg_transfers _ !! id); (eapply opens_keeps; [..|exact O]; [done|cbn; lia|done]).
Qed.
Lemma opens_disk m m1 f : opens who m m1 → opens who m (with_disk f m1).
Proof. by apply opens_core. Qed.
Lemma opens_emit m m1 f : opens who m m1 → opens who m (emit f m1).
Proof. by apply opens_core. Qed.
Lemma opens_upd m m1 id f : opens who m m1 → opens who m (upd_row id f m1).
Proof. done. Qed.
Lemma opens_status m m1 id s : opens who m m1 → opens who m (set_status id s m1).
Proof. done. Qed.
Lemma opens_finish m m1 id c r : opens who m m1 → opens who m (finish id c r m1).
Proof. apply (opens_frames who false id), frames_finish, frames_refl. Qed.
Lemma opens_remember m m1 fs id r s : opens who m m1 → opens who m (remember fs id r s m1).
Proof. apply opens_core, core_remember. Qed.
Lemma opens_persist_held m m1 id p r : opens who m m1 → opens who m (persist_held_record id p r m1).
Proof. apply opens_core, core_persist_held. Qed.
End opens.
#[export] Hint Resolve opens_refl opens_aside opens_disk opens_emit opens_fire opens_upd opens_status opens_finish
  opens_remember opens_persist_held : opens.
#[export] Hint Extern 1 (starts _) => first [exact I | reflexivity] : opens.
#[export] Hint Extern 1 (opens _ _ (spawn _ _ _)) => apply opens_spawn; [by right|by right|] : opens.

(** ** Calls *)

Ltac opens_start :=
  lazymatch goal with
  | |- opens ?w ?m _ =>
      match goal with
      | |- context [register ?n ?d ?p ?nm ?t ?m0] =>
          let id := fresh "id" in let tok := fresh "tok" in let m1 := fresh "m1" in let E := fresh "E" in
          destruct (register n d p nm t m0) as [[id tok] m1] eqn:E;
          let O := fresh "O" in let L := fresh "L" in
          destruct (fun H0 => opens_register w n d p nm t m m0 id tok m1 H0 E) as [O L];
            [auto with opens|cbn zeta; cbn [snd]]
      end
  end.

Section calls.
Context {A : Type} `{!Base32Text, !Wire (ChunkTicket A), !Wire OfflineTicket, !Wire OfflineWireV1,
  !Blake3Hash, !HexLower, !PublicIdParse}.
Context (cf : Config) (fs : Fs).

Lemma opens_start_share now payload name archive seed_relay code m0 m :
  opens nobody m0 m → opens nobody m0 (start_share fs now payload name archive seed_relay code m).2.
Proof. intros O. unfold start_share. opens_start. destruct code; auto 10 with opens. Qed.

Lemma opens_start_download now ticket out_path peer name size password ack_offer m0 m :
  opens nobody m0 m →
  opens nobody m0 (start_download (A := A) now ticket out_path peer name size password ack_offer m).2.
Proof.
  intros O. unfold start_download, spawn_receive. opens_start.
  apply opens_spawn; [by right|by right|]. eapply opens_core; [|exact O0].
  destruct ack_offer, (looks_like ticket); try done; cbn [snd]; by rewrite core_with_disk, core_note.
Qed.

Lemma opens_resume id m0 m : opens nobody m0 m → opens nobody m0 (resume cf id m).2.
Proof.
  intros O. unfold resume. destruct (negb _); [done|].
  assert (opens nobody m0 (match mg_disk m ≫= load_download id with
    | Some rec => let m := with_disk (clear_paused id) m in let '(tok, m) := rearm id m in
        (true, spawn_receive id rec.(dr_ticket) rec.(dr_out_path) None tok None m)
    | None => (false, m) end).2) as Hfetch.
  { destruct (mg_disk m ≫= _) as [rec|]; [|done].
    cbn zeta. destruct (rearm id (with_disk (clear_paused id) m)) as [tok m2] eqn:Er.
    destruct (opens_rearm nobody id m0 _ _ _ (opens_disk _ _ _ _ O) Er). unfold spawn_receive.
    cbn [snd]. auto with opens. }
  destruct (mg_held m !! id) as [h|]; [|exact Hfetch].
  destruct (match Some h ≫= h_relay with Some _ => _ | None => _ end) as [relay|]; [|exact Hfetch].
  cbn zeta. destruct (rearm id (upd_held id _ m)) as [tok m2] eqn:Er.
  assert (opens nobody m0 (upd_held id (λ h, h <| h_pause_flag := false |>) m)) as O1 by done.
  destruct (opens_rearm nobody id m0 _ _ _ O1 Er). cbn [snd]. auto with opens.
Qed.

Lemma opens_pause id m0 m : opens nobody m0 m → opens nobody m0 (pause id m).2.
Proof. intros O. eapply opens_trans; [exact O|]. apply pause_after. Qed.

Lemma opens_cancel id m : opens nobody m (cancel id m).2.
Proof.
  unfold cancel. destruct (mg_transfers m !! id) as [t|]; [|auto with opens].
  destruct (tr_status t); try (destruct (mg_cancels m !! id)); cbn [snd]; auto with opens.
Qed.

Lemma opens_accept now offer_id out password m :
  opens nobody m (accept_offer (A := A) cf now offer_id out password m).2.
Proof.
  unfold accept_offer. destruct (refused _ _ _ _); [auto with opens|].
  destruct (mg_pending m !! offer_id) as [offer|]; [|auto with opens].
  set (m1 := m <| mg_pending ::= _ |>).
  assert (opens nobody m m1) as O1 by by apply opens_core with m, opens_refl.
  clearbody m1. cbn zeta. destruct (accept_path _ _ _) as [path|]; [|done].
  set (m2 := if negb _ then m1 else _). assert (opens nobody m m2) as O2.
  { unfold m2. destruct (negb _); [done|]. eapply opens_core; [apply core_ack|done]. }
  clearbody m2. clear O1. assert (∀ c b id m3, opens nobody m m3 → opens nobody m (carry_sender_name c b id m3)) as Hc.
  { intros c b id m3 O3. unfold carry_sender_name. by destruct (bool_decide _). }
  destruct (download_of_same_content _ _ _) as [on|]; cbn [snd].
  - apply Hc. destruct (status_is_paused on m2); [by apply opens_resume|done].
  - pose proof (opens_start_download now (of_ticket (ro_offer offer)) path (Some (ro_sender offer))
      (of_name (ro_offer offer)) (of_size (ro_offer offer)) password
      (if negb (looks_like (of_ticket (ro_offer offer))) then Some offer_id else None) m m2 O2) as H3.
    destruct (start_download _ _ _ _ _ _ _ _ _) as [id m3]. by apply Hc.
Qed.

Lemma opens_suspend m : opens nobody m (suspend_running m).2.
Proof.
  unfold suspend_running. apply (foldl_inv (fun p => opens nobody m p.2)); [|apply opens_refl].
  intros [stopped m1] id O1. unfold suspend_one. cbn [fst snd].
  pose proof (opens_pause id m m1 O1) as Hp. destruct (pause id m1) as [paused m2]. cbn in Hp.
  destruct paused; [|done]. cbn. by destruct (match mg_disk m2 with Some _ => _ | None => _ end).
Qed.
Lemma opens_resume_suspended m : opens nobody m (resume_suspended cf m).2.
Proof.
  unfold resume_suspended. destruct (mg_disk m); [|apply opens_refl].
  apply (foldl_inv (fun p => opens nobody m p.2)); [|apply opens_refl].
  intros [restarted m1] id O1. cbn in O1. case_decide; [|done].
  pose proof (opens_resume id m m1 O1) as Hr. destruct (resume cf id m1) as [r m2]. by destruct r.
Qed.

(** Seeding, and the restart. *)
Lemma opens_resume_serve now rec stats m0 m :
  opens nobody m0 m → opens nobody m0 (resume_serve (A := A) now rec stats m).2.
Proof.
  intros O. unfold resume_serve. destruct (resumable_key _); [|done]. destruct (negb _); [done|].
  opens_start. unfold set_share_stats. auto with opens.
Qed.

Lemma opens_restart now fresh l m : opens nobody m (resume_incomplete (A := A) cf fs now fresh l m).2.
Proof.
  unfold resume_incomplete. destruct (mg_disk m) as [d|]; [|apply opens_refl]. cbn zeta. cbn [snd].
  apply (foldl_inv (fun p => opens nobody m p.2)).
  { intros [codes m1] r O1. cbn [snd] in O1. unfold resume_share.
    set (stats := match mg_disk m1 with Some _ => _ | None => _ end). clearbody stats. cbn zeta.
    pose proof (opens_resume_serve now r stats m _ (opens_disk _ _ _ (λ d, remove_share (sr_id r) (remove_send (sr_id r) d)) O1)) as O2.
    destruct (resume_serve now r stats _) as [[new_id|] m2]; [|done]. cbn [snd] in *.
    destruct (codes !! _); [|done]. unfold resume_code. destruct (negb _); cbn [snd]; auto with opens. }
  cbn [snd]. apply foldl_inv.
  { intros m1 r O1. unfold resume_download. cbn zeta. destruct (bool_decide _).
    - unfold restore_paused_download. opens_start.
      apply opens_emit, opens_status, opens_disk. eapply opens_core; [apply core_note|exact O].
    - apply opens_start_download. auto with opens. }
  set (m1 := foldl _ _ _). assert (opens nobody m m1) as O1.
  { unfold m1. apply foldl_inv.
    { intros m2 r O2. unfold resume_pending_share. apply opens_start_share. auto with opens. }
    apply foldl_inv.
    { intros m2 r O2. unfold resume_link, restore_link.
      pose proof (core_take_upload fs (lr_id r) (lr_payload r) (with_disk (remove_link_record (lr_id r)) m2)) as Hc.
      destruct (take_upload_record _ _ _ _) as [resumed m3]. cbn [snd] in Hc.
      assert (opens nobody m m3) as O3 by (eapply opens_core; [exact Hc|auto with opens]).
      destruct (match resumed with Some _ => _ | None => _ end) as [seal|e]; opens_start; auto 10 with opens. }
    apply foldl_inv.
    { intros m2 r O2. unfold resume_sendto, restore_sendto. cbn zeta.
      set (prep := mg_disk m2 ≫= load_prep (st_id r)). clearbody prep.
      destruct (public_id _); [|auto with opens].
      destruct (match st_relay r with Some _ => _ | None => _ end); [|auto with opens].
      opens_start.
      pose proof (core_take_upload fs (st_id r) (st_payload r) m0) as Hc.
      destruct (take_upload_record _ _ _ _) as [upload m3]. cbn [snd] in Hc.
      assert (opens nobody m m3) as O3 by (eapply opens_core; [exact Hc|exact O]).
      set (h := new_held _ _ _ _ _ _ _ _ _). clearbody h.
      set (m4 := m3 <| mg_held ::= _ |>). assert (opens nobody m m4) as O4 by exact O3. clearbody m4.
      set (m5 := match upload with Some _ => _ | None => m4 end).
      assert (opens nobody m m5) as O5 by (unfold m5; destruct upload; auto with opens). clearbody m5.
      set (m6 := match prep with Some _ => _ | None => m5 end).
      assert (opens nobody m m6) as O6.
      { unfold m6. destruct prep; [|done]. destruct (_ ≫= _); auto with opens. }
      clearbody m6. destruct (st_paused r); [|auto with opens].
      apply opens_emit, opens_status, opens_persist_held. exact O6. }
    unfold sweep_preps. set (m3 := foldl _ _ _). assert (opens nobody m m3) as O3.
    { unfold m3. apply foldl_inv; [|apply opens_disk, opens_refl].
      intros m2 r O2. unfold resume_deposited, restore_deposited.
      destruct (_ <=? now); [auto with opens|]. opens_start. unfold spawn_offline_confirm, drop_token.
      apply opens_aside; [done|]. apply opens_disk, opens_emit, opens_status. exact O. }
    clearbody m3. destruct (mg_disk m3); [|done]. apply foldl_inv; [|done].
    intros m2 p O2. destruct (existsb _ _); auto with opens. }
  clearbody m1. unfold sweep_upload_records. destruct (mg_disk m1); [|done].
  apply foldl_inv; [|done]. intros m2 r O2. eapply opens_core; [apply core_abandon|]. auto with opens.
Qed.

Lemma opens_op now op m : opens nobody m (op_step (A := A) cf fs now op m).
Proof.
  destruct op; cbn [op_step].
  - unfold send_to. destruct (match theirs with Some _ => _ | None => _ end); [|apply opens_refl].
    opens_start. apply opens_spawn; [by right|by right|]. apply opens_persist_held. exact O.
  - unfold start_deposit. destruct (match cf_relay cf with Some _ => _ | None => _ end); [|apply opens_refl].
    opens_start. auto with opens.
  - unfold create_link. destruct (cf_relay cf); [|apply opens_refl]. destruct fresh; [|apply opens_refl].
    opens_start. auto with opens.
  - apply opens_start_share, opens_refl.
  - apply opens_start_download, opens_refl.
  - eapply opens_core; [apply core_on_offer|apply opens_refl].
  - apply opens_accept.
  - eapply opens_core; [apply core_reject|apply opens_refl].
  - apply opens_cancel.
  - apply opens_pause, opens_refl.
  - apply opens_resume, opens_refl.
  - unfold deposit_now. destruct (negb _); [apply opens_refl|].
    destruct (mg_held m !! id) as [h|]; [|apply opens_refl].
    cbn [snd]. destruct (h_attempt h); [apply opens_fire|]; by apply opens_core with m, opens_refl.
  - unfold remove. destruct (mg_transfers m !! id); [|apply opens_refl].
    destruct (is_terminal _); [by eapply opens_keeps; [..|apply opens_refl]|apply opens_refl].
  - unfold clear_finished. cbn [snd]. destruct (_ <? _)%nat; by (eapply opens_keeps; [..|apply opens_refl]).
  - unfold adopt_finished. destruct (negb _); [apply opens_refl|by eapply opens_keeps; [..|apply opens_refl]].
  - apply opens_suspend.
  - apply opens_resume_suspended.
  - apply opens_restart.
Qed.
End calls.

(** ** Steps *)

Section steps.
Context {A : Type} `{!Base32Text, !Wire (ChunkTicket A), !Wire OfflineTicket, !Wire OfflineWireV1,
  !Blake3Hash, !HexLower, !PublicIdParse}.
Context (cf : Config) (stage_path : string → string).

Definition works_on (h : Happening) (tok : nat) : Prop :=
  match h.(ha_event) with Call _ => False | Step k _ => k = tok end.

#[export] Instance works_on_dec h tok : Decision (works_on h tok).
Proof. unfold works_on. destruct (ha_event h); apply _. Defined.

Lemma step_opens h m m' :
  minv m → step (A := A) cf stage_path h m = Some m' → minv m' ∧ opens (works_on h) m m'.
Proof.
  intros Hm Hstep. split; [by eapply inv_step|]. unfold step in Hstep. unfold works_on.
  destruct (ha_event h) as [op|k e].
  - apply (inj Some) in Hstep as <-. apply opens_op.
  - destruct (mg_tasks m !! k) as [tk|] eqn:Ek; [|done]. cbn in Hstep.
    destruct (inv_task cf stage_path _ _ _ _ _ _ Hm Ek Hstep) as [_ O]. exact O.
Qed.

(** A task stays what it is through every step but its own, and gone when it is gone. *)
Lemma step_keeps_task h m m' tok :
  minv m → step (A := A) cf stage_path h m = Some m' → (tok < m.(mg_next_task))%nat → ¬ works_on h tok →
  m'.(mg_tasks) !! tok = m.(mg_tasks) !! tok.
Proof. intros Hm Hstep Hk Hw. destruct (step_opens _ _ _ Hm Hstep) as [_ O]. by eapply opens_same. Qed.

Lemma step_keeps_fired h m m' :
  minv m → step (A := A) cf stage_path h m = Some m' →
  (m.(mg_next_task) <= m'.(mg_next_task))%nat ∧ m.(mg_fired) ⊆ m'.(mg_fired).
Proof. intros Hm Hstep. by destruct (step_opens _ _ _ Hm Hstep) as [_ [? _]]. Qed.

(** A task that is over is over for good, and takes no more steps. *)
Lemma gone_for_good tok hs m m' :
  minv m → (tok < m.(mg_next_task))%nat → m.(mg_tasks) !! tok = None →
  run (A := A) cf stage_path hs m = Some m' →
  m'.(mg_tasks) !! tok = None ∧ Forall (fun h => ¬ works_on h tok) hs.
Proof.
  revert m. induction hs as [|h hs IH]; intros m Hm Hk E; cbn [run]; [by intros [= <-]|].
  destruct (step cf stage_path h m) as [m1|] eqn:Es; [|done]. cbn. intros Hrun.
  assert (¬ works_on h tok) as Hw.
  { unfold works_on, step in *. destruct (ha_event h) as [|k e]; [by intros []|]. intros ->. by rewrite E in Es. }
  destruct (step_keeps_fired _ _ _ Hm Es) as [Hn _].
  destruct (IH m1) as [? ?]; [by eapply inv_step|lia| |done|].
  - by rewrite (step_keeps_task _ _ _ _ Hm Es).
  - split; [done|by constructor].
Qed.
End steps.

(** * What the transfer manager guarantees: tasks and cancelling

    The claims on runs of the whole manager that rest on its invariant. *)
Local Open Scope Z_scope.

(** ** A delivery that has to end does *)

(** What an await only reports, without ending. *)
Definition is_report (e : DeliverEvent) : bool :=
  match e with
  | DvWatch _ _ | DvServe _ | DvParkSays _ => true
  | DvDeposit _ _ (HookSession _) | DvDeposit _ _ (HookProgress _ _) => true
  | _ => false
  end.
(** How many awaits may still be passed before the loop looks at its token. *)
Definition rank (pc : DeliverPc) : nat :=
  match pc with
  | AtTop => 1 | AtWait => 2 | AtStart => 2
  | AtDeposit (Notifying _ _ _) => 3 | AtDeposit (Uploading _ _ _) => 4
  | AtPark => 5 | AtRelay _ => 6 | AtServe _ _ => 7 | AtOffer _ => 8 | AtPrepare _ _ => 9
  end.

(** A task is gone, or it is the delivery with at most that rank. *)
Definition down_to (tok : nat) (id : Z) (n : nat) (m : Manager) : Prop :=
  m.(mg_tasks) !! tok = None ∨
  ∃ d, m.(mg_tasks) !! tok = Some (TaskDeliver id d) ∧ (rank d.(dl_pc) <= n)%nat.

Section ranks.
Context (cf : Config) (fs : Fs) (tok : nat) (id : Z).

Lemma down_goto n pc d m : (rank pc <= n)%nat → down_to tok id n (goto tok id pc d m).
Proof. intros Hr. right. exists (d <| dl_pc := pc |>). by split; [apply lookup_insert_eq|]. Qed.
Lemma down_leave n d m : down_to tok id n (leave tok d m).
Proof. left. unfold leave, end_task. cbn. apply lookup_delete_eq. Qed.
Lemma down_stop n d m : down_to tok id n (stop tok id d m).
Proof. apply down_leave. Qed.
Lemma down_die n e d m : down_to tok id n (die tok id e d m).
Proof. apply down_leave. Qed.

Lemma down_deposit_failed now e d m : down_to tok id 2 (Delivery.deposit_failed tok id now e d m).
Proof. destruct e; cbn [Delivery.deposit_failed]; first [apply down_goto; cbn; lia|apply down_die]. Qed.
Lemma down_maybe_deposit park now fresh d m : down_to tok id 4 (maybe_deposit cf fs tok id park now fresh d m).
Proof.
  unfold maybe_deposit. destruct (_ && _); [|apply down_goto; cbn; lia].
  destruct (deposit_begin _ _ _ _ _ _ _) as [[phase|e] m2].
  - apply down_goto. destruct phase; cbn; lia.
  - destruct (down_deposit_failed now e d m2) as [?|(d' & ? & ?)]; [by left|right; exists d'; split; [done|lia]].
Qed.

(** At the head of the loop it is over: its token has fired, or its time is up. *)
Definition due (e : DeliverEvent) (d : Delivery) (m : Manager) : Prop :=
  is_cancelled tok m = true ∨ match e with DvTop now _ => d.(dl_give_up_at) <= now | _ => True end.

Lemma deliver_ranks d e m m' :
  m.(mg_tasks) !! tok = Some (TaskDeliver id d) → due e d m →
  deliver_step cf fs tok id d e m = Some m' →
  down_to tok id (if is_report e then rank d.(dl_pc) else rank d.(dl_pc) - 1) m'.
Proof.
  intros E Hc. unfold deliver_step.
  destruct (dl_pc d) as [| |fresh before|s|s sv|online| |phase|] eqn:Hpc, e; try done; intros Hstep; cbn [is_report rank].
  - apply (inj Some) in Hstep as <-. by apply down_goto.
  - apply (inj Some) in Hstep as <-. unfold deliver_top. destruct (is_cancelled tok m) eqn:Hk; [apply down_stop|].
    destruct Hc as [Hc|Hc%Z.leb_le]; [by rewrite Hc in Hk|]. rewrite Hc. apply down_leave.
  - apply (inj Some) in Hstep as <-. unfold live_prepared. destruct r; [by apply down_goto|apply down_die].
  - apply (inj Some) in Hstep as <-. unfold live_post.
    set (d' := d <| dl_standing ::= _ |>). clearbody d'.
    assert (∀ d1 m1, down_to tok id (8 - 1) (live_serve tok id now s d1 m1)) as Hserve
      by (intros; unfold live_serve; destruct (new_token _); by apply down_goto).
    destruct (dl_standing d'); [apply Hserve|]. destruct post; [apply Hserve|apply down_goto; cbn; lia].
  - destruct (watchdog _ _ _ _). apply (inj Some) in Hstep as <-. by apply down_goto.
  - destruct (on_send_event _ _ _ _). apply (inj Some) in Hstep as <-. by apply down_goto.
  - apply (inj Some) in Hstep as <-. unfold live_served.
    destruct r; [apply down_die|]. destruct (sv_delivered sv); [apply down_leave|].
    destruct (sv_recipient_cancelled sv); [apply down_die|].
    destruct (is_cancelled _ _); [apply down_stop|].
    destruct (sv_offloaded sv); [by apply down_goto|].
    destruct (sv_seen_not_connected sv); by apply down_goto.
  - apply (inj Some) in Hstep as <-. unfold deliver_relay. destruct (dl_live_only d).
    { destruct (_ && _); apply down_goto; cbn; lia. }
    destruct (_ && _); [by apply down_goto|].
    destruct (down_maybe_deposit (held_deposit_now id m) now fresh d m) as [?|(d' & ? & ?)]; [by left|].
    right. exists d'. split; [done|lia].
  - apply (inj Some) in Hstep as <-. right. exists d. rewrite Hpc. split; [|done].
    destruct ev; exact E.
  - apply (inj Some) in Hstep as <-. unfold parked. destruct out; [apply down_leave|apply down_maybe_deposit].
  - destruct (deposit_step _ _ _ _ _ _ _ _ _ _ _ _) as [[s m1]|] eqn:Es; [|done].
    apply (inj Some) in Hstep as <-. unfold deposit_step in Es. unfold deposited.
    destruct phase, i as [?|? ?|[]|[]]; try done; apply some_pair in Es as [<- <-];
      cbn [rank]; try (apply down_goto; cbn; lia); try apply down_leave;
      match goal with |- down_to _ _ _ (Delivery.deposit_failed _ _ ?n ?e ?d ?m) =>
        destruct (down_deposit_failed n e d m) as [?|(d' & ? & ?)]; [by left|right; exists d'; split; [done|lia]] end.
  - destruct (is_cancelled tok m); [|done]. apply (inj Some) in Hstep as <-. apply down_stop.
  - apply (inj Some) in Hstep as <-. unfold deliver_wait.
    destruct (match dl_standing d with Some _ => _ | None => _ end) as [[woken d1] m1]. by apply down_goto.
  - destruct (is_cancelled tok m); [|done]. apply (inj Some) in Hstep as <-. apply down_stop.
Qed.

(** It is never stuck: some await can always end. *)
Definition some_session : Session := mkSession "" 0 [] None false.
Lemma deliver_moves d m :
  ∃ e, is_report e = false ∧ is_Some (deliver_step cf fs tok id d e m).
Proof.
  unfold deliver_step. destruct (dl_pc d) as [| |fresh before|s|s sv|online| |phase|].
  - exists (DvStart 0). by split; [|eexists].
  - exists (DvTop 0 false). by split; [|eexists].
  - exists (DvPrepared (Err (err_msg "")) None). by split; [|eexists].
  - exists (DvOffer 0 None None). by split; [|eexists].
  - exists (DvServed None 0 false). by split; [|eexists].
  - exists (DvRelay 0 (Err (err_msg ""))). by split; [|eexists].
  - exists (DvParked None None 0 0 (Err (err_msg ""))). by split; [|eexists].
  - destruct phase.
    + exists (DvDeposit 0 0 (UploadEnds (Err DepositBusy))). by split; [|eexists].
    + exists (DvDeposit 0 0 (NoticePosted (Err ""%string))). by split; [|eexists].
  - exists (DvWait 0 None). by split; [|eexists].
Qed.
End ranks.

Section facts.
Context {A : Type} `{!Base32Text, !Wire (ChunkTicket A), !Wire OfflineTicket, !Wire OfflineWireV1,
  !Blake3Hash, !HexLower, !PublicIdParse}.
Context (cf : Config) (stage_path : string → string).

(** The moves of a delivery in a run: its steps that are not reports. *)
Definition is_move (tok : nat) (h : Happening) : bool :=
  match h.(ha_event) with
  | Step k (TeDeliver e) => bool_decide (k = tok) && negb (is_report e)
  | _ => false
  end.
Fixpoint moves (tok : nat) (hs : list Happening) : nat :=
  match hs with
  | [] => 0
  | h :: hs => if is_move tok h then S (moves tok hs) else moves tok hs
  end.

Lemma gone_stays tok hs m m' :
  minv m → (tok < m.(mg_next_task))%nat → m.(mg_tasks) !! tok = None →
  run (A := A) cf stage_path hs m = Some m' → m'.(mg_tasks) !! tok = None ∧ moves tok hs = 0%nat.
Proof.
  intros Hm Hk E Hrun. destruct (gone_for_good _ _ _ _ _ _ Hm Hk E Hrun) as [? Hw]. split; [done|].
  clear Hrun. induction Hw as [|h hs Hh _ IH]; [done|]. cbn [moves].
  assert (is_move tok h = false) as ->; [|done].
  unfold is_move, works_on in *. destruct (ha_event h) as [|k []]; try done. by rewrite bool_decide_false.
Qed.

(** One step of the run, seen from the delivery. *)
Lemma one_step tok id d h m m1 :
  minv m → m.(mg_tasks) !! tok = Some (TaskDeliver id d) → step (A := A) cf stage_path h m = Some m1 →
  (∃ e, h.(ha_event) = Step tok (TeDeliver e) ∧ is_move tok h = negb (is_report e) ∧
        deliver_step cf h.(ha_fs) tok id d e m = Some m1) ∨
  is_move tok h = false ∧ ¬ works_on h tok ∧ m1.(mg_tasks) !! tok = Some (TaskDeliver id d).
Proof.
  intros Hm E Es. destruct (decide (works_on h tok)) as [Hw|Hw].
  - left. unfold is_move. unfold works_on in Hw. unfold step in Es. destruct (ha_event h) as [|k e]; [done|].
    subst k. rewrite E in Es. cbn in Es. destruct e as [e| | | | | | |]; try done.
    exists e. by rewrite bool_decide_true.
  - right. split_and!; [|done|].
    + unfold is_move, works_on in *. destruct (ha_event h) as [|k []]; try done. by rewrite bool_decide_false.
    + rewrite (step_keeps_task _ _ _ _ _ _ Hm Es); [done| |done]. by destruct (lo_tasks _ _ (Hm id) tok _ E eq_refl).
Qed.

Lemma cancelled_stays tok h m m1 :
  minv m → is_cancelled tok m = true → step (A := A) cf stage_path h m = Some m1 → is_cancelled tok m1 = true.
Proof.
  intros Hm Hc Es. destruct (step_keeps_fired _ _ _ _ _ Hm Es) as [_ Hf].
  unfold is_cancelled in *. apply bool_decide_eq_true in Hc. apply bool_decide_eq_true. set_solver.
Qed.

(** A delivery that has to end at the head of its loop, and still has to after every step
    that satisfies [ok], passes no more awaits than its rank. *)
Section doomed.
Context (tok : nat) (id : Z) (ok : Happening → Prop) (doomed : Delivery → Manager → Prop).
Context (doomed_due : ∀ d m h e, doomed d m → ok h → h.(ha_event) = Step tok (TeDeliver e) → due tok e d m).
Context (doomed_other : ∀ d m h m1, minv m → doomed d m → ok h → step (A := A) cf stage_path h m = Some m1 → doomed d m1).
Context (doomed_own : ∀ d m fs e m1 d1, m.(mg_tasks) !! tok = Some (TaskDeliver id d) → doomed d m1 →
  deliver_step cf fs tok id d e m = Some m1 → m1.(mg_tasks) !! tok = Some (TaskDeliver id d1) → doomed d1 m1).

Lemma doomed_ends d hs m m' :
  minv m → m.(mg_tasks) !! tok = Some (TaskDeliver id d) → doomed d m → Forall ok hs →
  run (A := A) cf stage_path hs m = Some m' →
  (moves tok hs <= rank d.(dl_pc))%nat ∧ down_to tok id (rank d.(dl_pc) - moves tok hs) m'.
Proof.
  intros Hm E Hc Hok. revert m d Hm E Hc. induction Hok as [|h hs Hh Hok IH]; intros m d Hm E Hc; cbn [run].
  - intros [= <-]. split; [unfold moves; cbn; lia|]. right. exists d. split; [done|unfold moves; cbn; lia].
  - destruct (step cf stage_path h m) as [m1|] eqn:Es; [|done]. cbn [mbind option_bind]. intros Hrun.
    pose proof (inv_step _ _ _ _ _ Hm Es) as Hm1.
    destruct (step_keeps_fired _ _ _ _ _ Hm Es) as [Hn _].
    pose proof (doomed_other _ _ _ _ Hm Hc Hh Es) as Hc1.
    assert (tok < m1.(mg_next_task))%nat as Hk by (destruct (lo_tasks _ _ (Hm id) tok _ E eq_refl); lia).
    cbn [moves]. destruct (one_step _ _ _ _ _ _ Hm E Es) as [(e & Hev & -> & Hd)|(-> & _ & E1)].
    + pose proof (deliver_ranks _ _ _ _ _ _ _ _ E (doomed_due _ _ _ _ Hc Hh Hev) Hd) as [E1|(d1 & E1 & Hr)].
      * destruct (gone_stays _ _ _ _ Hm1 Hk E1 Hrun) as [? Hz]. rewrite Hz.
        assert (1 <= rank d.(dl_pc))%nat by (destruct (dl_pc d) as [| | | | | | |[]|]; cbn; lia).
        split; [by destruct (is_report e); cbn; lia|by left].
      * destruct (IH m1 d1 Hm1 E1 (doomed_own _ _ _ _ _ _ E Hc1 Hd E1) Hrun) as [Hmoves Hdown].
        assert (1 <= rank d.(dl_pc))%nat by (destruct (dl_pc d) as [| | | | | | |[]|]; cbn; lia).
        destruct (is_report e); cbn [negb]; (split; [lia|]); destruct Hdown as [?|(d2 & ? & ?)];
          first [by left|right; exists d2; split; [done|lia]].
    + apply (IH m1 d Hm1 E1 Hc1 Hrun).
Qed.
End doomed.

(** ** The claims *)

(** C11. In every state that a manager can reach, whatever front ends call and however its
    tasks interleave, each row is filed under its own id and says what its status says;
    it is running exactly when one task drives it, and that task is the only one that
    drives it and is the one whose token [cancel] fires. *)
Theorem every_running_row_is_driven disk hs m :
  run (A := A) cf stage_path hs (new_manager disk) = Some m →
  ∀ id t, m.(mg_transfers) !! id = Some t →
    t.(tr_id) = id ∧ row_says t ∧
    (is_live t.(tr_status) = true ↔
       ∃ tok, drives m tok id ∧ m.(mg_cancels) !! id = Some tok ∧ ∀ k, drives m k id → k = tok).
Proof.
  intros Hrun id t E. pose proof (inv_run cf stage_path _ _ _ (inv_new disk) Hrun) as Hm.
  destruct (lo_row _ _ (Hm id) t E) as (Hid & _ & Hs). split_and!; [done|done|]. split.
  - intros Hl. destruct (lo_live _ _ (Hm id)) as [tok Hd]; [by exists t|].
    exists tok. split; [done|]. split; [by apply (lo_driver _ _ (Hm id))|].
    intros k Hk. by eapply driver_unique.
  - intros (tok & Hd & _). by apply (lo_driver _ _ (Hm id) tok Hd).
Qed.

(** What [cancel] leaves of a transfer that was on hold. *)
Definition nothing_left (id : Z) (m : Manager) : Prop :=
  m.(mg_held) !! id = None ∧ m.(mg_uploads) !! id = None ∧
  ∀ d, m.(mg_disk) = Some d →
    d.(dk_downloads) !! id = None ∧ d.(dk_markers) !! id = None ∧ d.(dk_sends) !! id = None ∧
    d.(dk_shares) !! id = None ∧ d.(dk_sendtos) !! id = None ∧ d.(dk_preps) !! id = None ∧
    d.(dk_pending_shares) !! id = None ∧ d.(dk_uploads) !! id = None.

Lemma disk_abandon s m : mg_disk (abandon s m) = mg_disk m ∧ mg_held (abandon s m) = mg_held m ∧
  mg_uploads (abandon s m) = mg_uploads m.
Proof. by destruct s. Qed.

Lemma cancel_paused id t m :
  m.(mg_transfers) !! id = Some t → is_paused t.(tr_status) = true →
  (cancel id m).1 = true ∧ nothing_left id (cancel id m).2 ∧
  ∃ t', (cancel id m).2.(mg_transfers) !! id = Some t' ∧ t'.(tr_status) = Cancelled.
Proof.
  intros E Hp. unfold cancel. rewrite E. destruct (tr_status t); try done. cbn [fst snd].
  split; [done|]. unfold finish. split.
  - set (m1 := with_disk _ m). set (m2 := forget id true (drop_held id m1)).
    assert (nothing_left id m2) as Hn.
    { unfold m2, forget. destruct (disk_abandon (mg_uploads (drop_held id m1) !! id ≫= rs_session)
        (with_disk (remove_upload_record id) (drop_held id m1 <| mg_uploads ::= delete id |>))) as (Ed & Eh & Eu).
      split_and!; [rewrite Eh; cbn; apply lookup_delete_eq|rewrite Eu; cbn; apply lookup_delete_eq|].
      rewrite Ed. cbn. destruct (mg_disk m) as [d0|]; [|done]. intros d [= <-]. cbn.
      unfold remove_send. destruct (dk_sends _ !! id ≫= sr_owned_stage); cbn; by rewrite ?lookup_delete_eq. }
    clearbody m2. exact Hn.
  - set (m2 := forget id true _ <| mg_download_content ::= _ |>).
    assert (frames false id m m2) as F by (unfold m2; auto 10 with frames).
    pose proof (fr_row _ _ _ _ F) as Hrow. rewrite E in Hrow. destruct Hrow as (t2 & E2 & _). clearbody m2.
    cbn. rewrite lookup_alter_eq, E2. by eexists.
Qed.

(** C13. [cancel] is total. In every reachable state it finds exactly the ids that are
    listed; a running transfer has the token of its driving task fired, one on hold ends
    on the spot with nothing of it kept in memory or on disk, a deposited one gets a task
    that withdraws it, and one that is over is left alone. *)
Theorem cancel_is_total disk hs m id :
  run (A := A) cf stage_path hs (new_manager disk) = Some m →
  match m.(mg_transfers) !! id with
  | None => cancel id m = (false, m)
  | Some t =>
      (cancel id m).1 = true ∧
      (is_live t.(tr_status) = true → ∃ tok, drives m tok id ∧ (cancel id m).2 = fire tok m) ∧
      (is_paused t.(tr_status) = true → nothing_left id (cancel id m).2 ∧
         ∃ t', (cancel id m).2.(mg_transfers) !! id = Some t' ∧ t'.(tr_status) = Cancelled) ∧
      (t.(tr_status) = Deposited → ∃ w, (cancel id m).2 = spawn_detached (TaskWithdraw id w) m) ∧
      (is_terminal t.(tr_status) = true → (cancel id m).2 = m)
  end.
Proof.
  intros Hrun. pose proof (inv_run cf stage_path _ _ _ (inv_new disk) Hrun) as Hm.
  destruct (mg_transfers m !! id) as [t|] eqn:E; [|by unfold cancel; rewrite E].
  assert (is_live t.(tr_status) = true →
    ∃ tok, drives m tok id ∧ m.(mg_cancels) !! id = Some tok) as Hlive.
  { intros Hl. destruct (lo_live _ _ (Hm id)) as [tok Hd]; [by exists t|].
    exists tok. split; [done|]. by apply (lo_driver _ _ (Hm id)). }
  pose proof (cancel_paused id t m E) as Hpaused. unfold cancel in *. rewrite E in *.
  destruct (tr_status t); try (destruct (Hlive eq_refl) as (tok & Hd & ->)); cbn [fst snd] in *;
    (split; [done|split_and!; try done]); try (intros _; by exists tok).
  - intros _. by eexists.
  - intros _. by apply Hpaused.
Qed.

(** C14. A cancelled delivery ends. Once its token has fired, the delivery loop passes at
    most nine more awaits in any continuation of the run, not counting what an await only
    reports, and as long as it is there one of its awaits can end; so when they do it is
    gone. *)
Theorem cancelled_delivery_ends disk hs0 m tok id d hs m' fs :
  run (A := A) cf stage_path hs0 (new_manager disk) = Some m →
  m.(mg_tasks) !! tok = Some (TaskDeliver id d) → is_cancelled tok m = true →
  run (A := A) cf stage_path hs m = Some m' →
  (moves tok hs <= 9)%nat ∧
  (m'.(mg_tasks) !! tok = None ∨
   ∃ d' e, m'.(mg_tasks) !! tok = Some (TaskDeliver id d') ∧ (moves tok hs + rank d'.(dl_pc) <= 9)%nat ∧
           is_report e = false ∧ is_Some (deliver_step cf fs tok id d' e m')).
Proof.
  intros Hrun0 E Hc Hrun. pose proof (inv_run cf stage_path _ _ _ (inv_new disk) Hrun0) as Hm.
  destruct (doomed_ends tok id (fun _ => True) (fun _ m => is_cancelled tok m = true)
    ltac:(by left) (fun _ _ _ _ Hm Hc _ => cancelled_stays _ _ _ _ Hm Hc) ltac:(done) _ _ _ _ Hm E Hc
    (Forall_true _ _ (fun _ => I)) Hrun) as [Hmoves Hd].
  assert (rank d.(dl_pc) <= 9)%nat by (destruct (dl_pc d) as [| | | | | | |[]|]; cbn; lia).
  split; [lia|]. destruct Hd as [?|(d' & E' & Hr)]; [by left|right].
  destruct (deliver_moves cf fs tok id d' m') as (e & He & Hs).
  exists d', e. split_and!; [done|lia|done|done].
Qed.
End facts.
