(* ===== verification/HeldInv.v ===== *)
(** * A send on the list is on disk

    What a held send needs to come back after a crash: its record, with the state of its
    row.  [kloc] says so of one id; it looks at the slice of the state that belongs to
    that id, and [kf] relates two managers that agree on the slices of all other ids. *)
From S2P Require Import Prelude.
From S2P Require Import Text.
From S2P Require Import SyncTypes.
From S2P Require Import Store.
From S2P Require Import Link.
From S2P Require Import UploadClient.
From S2P Require Import Seeds.
From S2P Require Import Tickets.
From S2P Require Import Transfers.
From S2P Require Import Records.
From S2P Require Import ManagerState.
From S2P Require Import Manager.
From S2P Require Import Watching.
From S2P Require Import Uploading.
From S2P Require Import Delivery.
From S2P Require Import Landing.
From S2P Require Import Receiving.
From S2P Require Import Sharing.
From S2P Require Import Restart.
From S2P Require Import ManagerRuns.
From S2P Require Import ManagerFrames.
From S2P Require Import ManagerInv.
From S2P Require Import ManagerSteps.
From S2P Require Import ManagerFacts.
Local Open Scope Z_scope.

(** ** Slices *)

(** What a held send is, without its id, state and flags. *)
Definition held_view (m : Manager) (j : Z) : option SendToRecord :=
  held_record 0 false "" <$> m.(mg_held) !! j.
Definition sendto_of (m : Manager) (j : Z) : option SendToRecord := d ← m.(mg_disk); d.(dk_sendtos) !! j.
Definition on_hold (m : Manager) (j : Z) : option bool :=
  (fun t => is_paused t.(tr_status)) <$> m.(mg_transfers) !! j.
Definition has_disk (m : Manager) : bool := match m.(mg_disk) with Some _ => true | None => false end.
Definition slice (m : Manager) (j : Z) : option SendToRecord * option SendToRecord * option bool * bool :=
  (held_view m j, sendto_of m j, on_hold m j, has_disk m).

(** Two managers agree on a send: it is not held, or it has the same record and its row,
    unless that is gone, is on hold as before. *)
Definition agree (j : Z) (m m' : Manager) : Prop :=
  held_view m' j = held_view m j ∧ has_disk m' = has_disk m ∧
  (held_view m' j = None ∨
   sendto_of m' j = sendto_of m j ∧ (on_hold m' j = None ∨ on_hold m' j = on_hold m j)).
Lemma agree_slice j m m' : slice m' j = slice m j → agree j m m'.
Proof.
  intros [[[E1 E2]%pair_equal_spec E3]%pair_equal_spec E4]%pair_equal_spec. unfold agree. auto 10.
Qed.
Lemma agree_trans j m1 m2 m3 : agree j m1 m2 → agree j m2 m3 → agree j m1 m3.
Proof.
  intros (A1 & A2 & A3) (B1 & B2 & B3). split_and!; [congruence|congruence|].
  destruct B3 as [B3|[B3 B4]]; [by left|]. destruct A3 as [A3|[A3 A4]]; [left; congruence|].
  right. split; [congruence|]. destruct B4 as [B4|B4]; [by left|]. destruct A4; [left|right]; congruence.
Qed.

(** The record of a held send. *)
Definition recorded (j : Z) (paused : bool) (why : string) (v : SendToRecord) : SendToRecord :=
  mkSendToRecord j v.(st_recipient) v.(st_payload) v.(st_name) v.(st_archive) paused why v.(st_note)
    v.(st_target) v.(st_relay) v.(st_live_only).
Lemma recorded_held j p why h : recorded j p why (held_record 0 false "" h) = held_record j p why h.
Proof. reflexivity. Qed.

Section held.
Context (cf : Config).

Definition routed (v : SendToRecord) : Prop := is_Some v.(st_relay) ∨ is_Some cf.(cf_relay).
Definition kloc (j : Z) (m : Manager) : Prop :=
  ∀ v, held_view m j = Some v → j < m.(mg_next_id) ∧ routed v ∧
    (has_disk m = true → ∃ p why, sendto_of m j = Some (recorded j p why v) ∧
                                  ∀ b, on_hold m j = Some b → p = b).

Lemma kloc_agree j m m' :
  m.(mg_next_id) <= m'.(mg_next_id) → agree j m m' → kloc j m → kloc j m'.
Proof.
  intros Hn (E1 & E2 & E3) Hk v Hv. destruct E3 as [E3|[E3 E4]]; [congruence|].
  rewrite E1 in Hv. destruct (Hk v Hv) as (? & ? & Hr). split_and!; [lia|done|].
  rewrite E2, E3. intros Hd. destruct (Hr Hd) as (p & why & ? & Hp). exists p, why. split; [done|].
  intros b Hb. apply Hp. destruct E4; congruence.
Qed.
Lemma kloc_unheld j m : m.(mg_held) !! j = None → kloc j m.
Proof. intros E v. unfold held_view. by rewrite E. Qed.

(** Tasks whose transfer is not a held send. *)
Definition is_plain_task (t : Task) : bool :=
  match t with
  | TaskFetch _ _ | TaskLink _ _ | TaskDeposit _ _ | TaskShare _ _ => true
  | _ => false
  end.
Definition kt (m : Manager) : Prop :=
  ∀ tok t, m.(mg_tasks) !! tok = Some t → is_plain_task t = true → m.(mg_held) !! task_id t = None.
Definition kinv (m : Manager) : Prop := (∀ j, kloc j m) ∧ kt m.

(** ** What leaves the other sends alone *)

Record kf (id : Z) (m m' : Manager) : Prop := {
  kf_next : m.(mg_next_id) <= m'.(mg_next_id);
  kf_others : ∀ j, j ≠ id → agree j m m';
  kf_held : ∀ j, m.(mg_held) !! j = None → m'.(mg_held) !! j = None;
  kf_kt : kt m → kt m' }.

Lemma kf_refl id m : kf id m m.
Proof. split; [done| |done|done]. intros j _. by apply agree_slice. Qed.
Lemma kf_trans id m1 m2 m3 : kf id m1 m2 → kf id m2 m3 → kf id m1 m3.
Proof.
  intros [A1 A2 A3 A4] [B1 B2 B3 B4]. split; [lia| |auto|auto].
  intros j Hj. eapply agree_trans; [by apply A2|by apply B2].
Qed.

Lemma kf_then id m m1 m2 :
  m1.(mg_next_id) <= m2.(mg_next_id) → (∀ j, j ≠ id → agree j m1 m2) →
  (∀ j, m1.(mg_held) !! j = None → m2.(mg_held) !! j = None) → (kt m1 → kt m2) →
  kf id m m1 → kf id m m2.
Proof. intros. by eapply kf_trans; [|split]. Qed.

(** The parts of the state that slices look at. *)
Definition kcore (m : Manager) :
    Z * gmap Z SendToRecord * option (gmap Z SendToRecord) * gmap Z Transfer * gmap nat Task :=
  (m.(mg_next_id), held_record 0 false "" <$> m.(mg_held), dk_sendtos <$> m.(mg_disk), m.(mg_transfers), m.(mg_tasks)).

Lemma kcore_held m m' j :
  held_record 0 false "" <$> m'.(mg_held) = held_record 0 false "" <$> m.(mg_held) →
  held_view m' j = held_view m j ∧ (m.(mg_held) !! j = None → m'.(mg_held) !! j = None).
Proof.
  intros E. apply (f_equal (lookup j)) in E. rewrite !lookup_fmap in E. split; [exact E|].
  intros Hn. rewrite Hn in E. by destruct (mg_held m' !! j).
Qed.
Lemma kcore_slice m m' j : kcore m' = kcore m → slice m' j = slice m j.
Proof.
  intros [= E1 E2 E3 E4 E5]. unfold slice.
  assert (sendto_of m' j = sendto_of m j ∧ has_disk m' = has_disk m) as [-> ->].
  { unfold sendto_of, has_disk. destruct (mg_disk m'), (mg_disk m); try done.
    cbn in E3 |- *. injection E3 as E3. by rewrite E3. }
  destruct (kcore_held _ _ j E2) as [-> _]. unfold on_hold. by rewrite E4.
Qed.
Lemma kcore_kt m m' : kcore m' = kcore m → kt m → kt m'.
Proof.
  intros [= E1 E2 E3 E4 E5] Hkt tok t Et Hp. rewrite E5 in Et. apply (kcore_held _ _ _ E2). by eapply Hkt.
Qed.
Lemma kf_kcore id m m1 m2 : kcore m2 = kcore m1 → kf id m m1 → kf id m m2.
Proof.
  intros Hc. apply kf_then.
  - pose proof Hc as [= E _ _ _ _]. by rewrite E.
  - intros j _. by apply agree_slice, kcore_slice.
  - intros j. pose proof Hc as [= _ E _ _ _]. by apply kcore_held.
  - by apply kcore_kt.
Qed.

Definition neutral (f : Disk → Disk) : Prop := ∀ d, (f d).(dk_sendtos) = d.(dk_sendtos).
Lemma kcore_disk f m : neutral f → kcore (with_disk f m) = kcore m.
Proof. intros Hf. unfold kcore. cbn. destruct (mg_disk m) as [d|]; [|done].
  cbn. pose proof (Hf d) as E. by rewrite E.
Qed.
Lemma kcore_flags id f m :
  (∀ h, held_record 0 false "" (f h) = held_record 0 false "" h) → kcore (upd_held id f m) = kcore m.
Proof.
  intros Hf. unfold kcore. cbn. f_equal. f_equal. f_equal. f_equal. apply map_eq. intros j.
  rewrite !lookup_fmap. destruct (decide (j = id)) as [->|Hj]; [|by rewrite lookup_alter_ne].
  rewrite lookup_alter_eq. destruct (mg_held m !! id); [|done]. cbn. by rewrite Hf.
Qed.
Lemma kcore_abandon s m : kcore (abandon s m) = kcore m.
Proof. by destruct s. Qed.
Lemma kcore_forget id b m : kcore (forget id b m) = kcore m.
Proof.
  assert (kcore (with_disk (remove_upload_record id) (m <| mg_uploads ::= delete id |>)) = kcore m) as Hc
    by by rewrite kcore_disk.
  unfold forget. destruct b; [by rewrite kcore_abandon|done].
Qed.
Lemma kcore_persist_upload fs id r s m : kcore (persist_upload fs id r s m) = kcore m.
Proof.
  unfold persist_upload. destruct s as [path|]; [|done]. destruct (negb _); [done|].
  destruct (fs_stamp _ _); [|done]. by rewrite kcore_disk.
Qed.
Lemma kcore_remember fs id r s m : kcore (remember fs id r s m) = kcore m.
Proof. exact (kcore_persist_upload fs id r s m). Qed.
Lemma kcore_session fs id s p m : kcore (session_changed fs id s p m) = kcore m.
Proof.
  unfold session_changed. destruct (mg_uploads m !! id) as [r|]; [|done]. by rewrite kcore_persist_upload.
Qed.
Lemma kcore_persist_prep fs id s b m : kcore (persist_prep_record fs id s b m) = kcore m.
Proof.
  unfold persist_prep_record. destruct b; [|done]. destruct (fs_stamp _ _); [|done].
  destruct (held_prep _ _); [|done]. case_decide; [by rewrite kcore_disk|done].
Qed.
Lemma kcore_ack o m : kcore (ack cf o m) = kcore m.
Proof. unfold ack. by destruct (cf_relay cf). Qed.
Lemma kcore_close_code c m : kcore (close_code c m) = kcore m.
Proof. by destruct c. Qed.
Lemma kcore_fill_prep id p m : kcore (fill_prep id p m) = kcore m.
Proof. apply kcore_flags. intros h. by destruct (h_prep h). Qed.
Lemma kcore_mailbox_seal fs id s fresh m : kcore (mailbox_seal fs id s fresh m).2 = kcore m.
Proof.
  unfold mailbox_seal. destruct (fs_len fs s); [|done].
  destruct (mg_uploads m !! id) as [[[?|seal] ses]|]; [destruct fresh| |destruct fresh];
    cbn -[remember forget kcore]; rewrite ?kcore_remember; try done.
  case_match; cbn -[remember forget kcore]; [done|].
  destruct fresh; cbn -[remember forget kcore]; rewrite ?kcore_remember, ?kcore_forget; done.
Qed.
Lemma kcore_deposit_begin fs id relay s opts fresh m :
  kcore (deposit_begin fs id relay s opts fresh m).2 = kcore m.
Proof.
  unfold deposit_begin. pose proof (kcore_mailbox_seal fs id s fresh m) as Hc.
  by destruct (mailbox_seal fs id s fresh m) as [[[seal ses]|e] m1].
Qed.

(** ** The steps of one transfer *)

Section own.
Context (id : Z) (m : Manager).

Lemma kf_emit ev m1 : kf id m m1 → kf id m (emit ev m1).
Proof. by apply kf_kcore. Qed.
Lemma kf_content g m1 : kf id m m1 → kf id m (m1 <| mg_download_content ::= g |>).
Proof. by apply kf_kcore. Qed.
Lemma kf_upd_row f m1 : kf id m m1 → kf id m (upd_row id f m1).
Proof.
  apply kf_then; try done. intros j Hj. apply agree_slice. unfold slice, on_hold. cbn. by rewrite lookup_alter_ne.
Qed.
Lemma kf_set_status s m1 : kf id m m1 → kf id m (set_status id s m1).
Proof.
  intros F. apply (kf_kcore _ _ (upd_row id (fun t => clear_waiting_code (t <| tr_status := s |>)) m1)); [done|].
  by apply kf_upd_row.
Qed.
Lemma kf_disk f m1 : neutral f → kf id m m1 → kf id m (with_disk f m1).
Proof. intros Hf. by apply kf_kcore, kcore_disk. Qed.
(** The record of [id] itself. *)
Lemma kf_own_record f m1 :
  (∀ d j, j ≠ id → (f d).(dk_sendtos) !! j = d.(dk_sendtos) !! j) → kf id m m1 → kf id m (with_disk f m1).
Proof.
  intros Hf. apply kf_then; try done. intros j Hj. apply agree_slice. unfold slice, sendto_of, has_disk. cbn.
  destruct (mg_disk m1) as [d|]; [|done]. cbn. pose proof (Hf d j Hj) as E. by rewrite E.
Qed.
Lemma kf_drop_held m1 : kf id m m1 → kf id m (drop_held id m1).
Proof.
  intros F. unfold drop_held. apply kf_own_record; [intros d j Hj; by apply lookup_delete_ne|].
  revert F. apply kf_then; try done.
  - intros j Hj. apply agree_slice. unfold slice, held_view. cbn. by rewrite lookup_delete_ne.
  - intros j Hn. cbn. destruct (decide (j = id)) as [->|Hj]; [apply lookup_delete_eq|by rewrite lookup_delete_ne].
  - intros Hkt tok t Et Hp. pose proof (Hkt tok t Et Hp) as Hn. cbn.
    destruct (decide (task_id t = id)) as [->|Hj]; [apply lookup_delete_eq|by rewrite lookup_delete_ne].
Qed.
Lemma kf_persist_held p why m1 : kf id m m1 → kf id m (persist_held_record id p why m1).
Proof.
  intros F. unfold persist_held_record. destruct (mg_held m1 !! id) as [h|]; [|done].
  apply kf_own_record; [|done]. intros d j Hj. by apply lookup_insert_ne.
Qed.
Lemma kf_forget j b m1 : kf id m m1 → kf id m (forget j b m1).
Proof. apply kf_kcore, kcore_forget. Qed.
Lemma kf_fail r m1 : kf id m m1 → kf id m (fail id r m1).
Proof. intros F. unfold fail. apply kf_emit, kf_upd_row, kf_set_status, F. Qed.
Lemma kf_finish c r m1 : kf id m m1 → kf id m (finish id c r m1).
Proof.
  intros F. unfold finish. set (m2 := forget id true _ <| mg_download_content ::= _ |>).
  assert (kf id m m2) as F2.
  { unfold m2. apply kf_content, kf_forget, kf_drop_held, kf_disk; [|done].
    intros d. unfold remove_send. by destruct (dk_sends _ !! id ≫= sr_owned_stage). }
  clearbody m2. destruct r as [path|e]; [|by apply kf_fail].
  destruct c; [by apply kf_emit, kf_set_status|]. apply kf_emit, kf_set_status. destruct path; [by apply kf_upd_row|done].
Qed.
Lemma kf_set_paused why m1 : kf id m m1 → kf id m (set_paused id why m1).
Proof. intros F. apply kf_emit, kf_set_status, kf_persist_held, F. Qed.
Lemma kf_handle_stop m1 : kf id m m1 → kf id m (handle_stop id m1).
Proof. intros F. unfold handle_stop. destruct (pause_asked _ _); [by apply kf_set_paused|by apply kf_finish]. Qed.
Lemma kf_set_waiting r m1 : kf id m m1 → kf id m (set_waiting id r m1).
Proof.
  intros F. unfold set_waiting. apply kf_kcore with (set_waiting_code id (waiting_code r)
    (default ""%string (waiting_detail r)) (set_status_live id (Waiting (waiting_text r)) m1)); [done|].
  by apply kf_upd_row, kf_upd_row.
Qed.
Lemma kf_end tok m1 : kf id m m1 → kf id m (end_task tok m1).
Proof.
  apply kf_then; [done|by intros; apply agree_slice|done|]. intros Hkt k t Et. cbn in Et. apply lookup_delete_Some in Et as [_ Et]. by eapply Hkt.
Qed.
Lemma kf_spawn tok t m1 :
  (is_plain_task t = true → m1.(mg_held) !! task_id t = None) → kf id m m1 → kf id m (spawn tok t m1).
Proof.
  intros Ht. apply kf_then; [done|by intros; apply agree_slice|done|]. intros Hkt k t' Et. cbn in Et.
  apply lookup_insert_Some in Et as [[_ <-]|[_ Et]]; [done|]. by eapply Hkt.
Qed.
Lemma kf_spawn_detached t m1 :
  (is_plain_task t = true → m1.(mg_held) !! task_id t = None) → kf id m m1 → kf id m (spawn_detached t m1).
Proof. intros Ht F. unfold spawn_detached, new_token. apply kf_spawn; [done|]. by apply (kf_kcore _ _ m1). Qed.
Lemma kf_unheld m1 : kf id m m1 → m.(mg_held) !! id = None → m1.(mg_held) !! id = None.
Proof. intros F. apply (kf_held _ _ _ F). Qed.
End own.
End held.

#[export] Hint Extern 1 (neutral _) => intros ?; reflexivity : kf.

(** Peels the operations of a step down to its start. *)
Ltac kf_step :=
  lazymatch goal with
  | |- kf _ _ (emit _ ?m1) => apply (kf_kcore _ _ m1); [reflexivity|]
  | |- kf _ _ (net _ ?m1) => apply (kf_kcore _ _ m1); [reflexivity|]
  | |- kf _ _ (fire _ ?m1) => apply (kf_kcore _ _ m1); [reflexivity|]
  | |- kf _ _ (with_disk _ _) => apply kf_disk; [intros ?; reflexivity|]
  | |- kf _ _ (set_status _ _ _) => apply kf_set_status
  | |- kf _ _ (set_waiting _ _ _) => apply kf_set_waiting
  | |- kf _ _ (fail _ _ _) => apply kf_fail
  | |- kf _ _ (finish _ _ _ _) => apply kf_finish
  | |- kf _ _ (set_paused _ _ _) => apply kf_set_paused
  | |- kf _ _ (handle_stop _ _) => apply kf_handle_stop
  | |- kf _ _ (drop_held _ _) => apply kf_drop_held
  | |- kf _ _ (persist_held_record _ _ _ _) => apply kf_persist_held
  | |- kf _ _ (forget _ _ _) => apply kf_forget
  | |- kf _ _ (end_task _ _) => apply kf_end
  | |- kf _ _ (ack _ _ _) => eapply kf_kcore; [apply kcore_ack|]
  | |- kf _ _ (close_code _ _) => eapply kf_kcore; [apply kcore_close_code|]
  | |- kf _ _ (session_changed _ _ _ _ _) => eapply kf_kcore; [apply kcore_session|]
  | |- kf _ _ (remember _ _ _ _ _) => eapply kf_kcore; [apply kcore_remember|]
  | |- kf _ _ (persist_prep_record _ _ _ _ _) => eapply kf_kcore; [apply kcore_persist_prep|]
  | |- kf _ _ (fill_prep _ _ _) => eapply kf_kcore; [apply kcore_fill_prep|]
  | |- kf _ _ (upd_held _ _ _) => eapply kf_kcore; [apply kcore_flags; reflexivity|]
  | |- kf _ _ (report_progress _ _ _ _ _) => unfold report_progress
  | |- kf _ _ (upd_row _ _ _) => apply kf_upd_row
  | |- kf _ _ (match ?x with _ => _ end) => destruct x
  | |- kf _ ?m ?m => apply kf_refl
  | |- kf _ _ _ => first [assumption | apply kf_upd_row]
  end.
