(* ===== verification/HeldSteps.v ===== *)
(** * Held sends through every step *)
From S2P Require Import Prelude.
From S2P Require Import Text.
From S2P Require Import SyncTypes.
From S2P Require Import Store.
From S2P Require Import Link.
From S2P Require Import UploadClient.
From S2P Require Import Seeds.
From S2P Require Import Tickets.
From S2P Require Import Transfers.
From S2P Require Import Records.
From S2P Require Import ManagerState.
From S2P Require Import Manager.
From S2P Require Import Watching.
From S2P Require Import Uploading.
From S2P Require Import Delivery.
From S2P Require Import Landing.
From S2P Require Import Receiving.
From S2P Require Import Sharing.
From S2P Require Import Restart.
From S2P Require Import ManagerRuns.
From S2P Require Import ManagerFrames.
From S2P Require Import ManagerInv.
From S2P Require Import ManagerSteps.
From S2P Require Import ManagerFacts.
From S2P Require Import HeldInv.
Local Open Scope Z_scope.

(** One operation, or one spawn of a task of a transfer that is not a held send. *)
Ltac kf_go :=
  first
    [ lazymatch goal with
      | Hun : ?m.(mg_held) !! ?id = None |- kf ?id ?m (spawn _ _ ?m1) =>
          let F := fresh "F" in
          assert (kf id m m1) as F;
            [|apply kf_spawn; [intros _; exact (kf_unheld id m m1 F Hun)|exact F]]
      | |- kf _ _ (spawn_detached _ _) => apply kf_spawn_detached; [done|]
      | |- kf _ _ (spawn _ _ _) => apply kf_spawn; [done|]
      end
    | kf_step ].

Section own_steps.
Context (cf : Config) (fs : Fs) (m : Manager) (tok : nat) (id : Z).

Lemma kf_offline_confirm relay offer_relay out expires m1 :
  kf id m m1 → kf id m (spawn_offline_confirm id relay offer_relay out expires m1).
Proof. intros F. unfold spawn_offline_confirm, set_ticket, set_progress. repeat kf_go. Qed.

Lemma kf_deposit_step relay recipient payload name note opts phase i s m1 :
  deposit_step cf fs id relay recipient payload name note opts phase i m = Some (s, m1) → kf id m m1.
Proof.
  unfold deposit_step. intros Hstep. destruct phase, i as [?|? ?|[?|[]]|[]]; try done;
    apply some_pair in Hstep as [_ <-]; cbn [worth_keeping]; unfold set_progress; repeat kf_go.
Qed.

Section plain.
Context (Hun : m.(mg_held) !! id = None).

Lemma kf_upload_failed e d m1 : kf id m m1 → kf id m (Uploading.deposit_failed tok id e d m1).
Proof. intros F. destruct e; cbn [Uploading.deposit_failed]; repeat kf_go. Qed.

Lemma kf_run_deposit d e m' : run_deposit_step cf fs tok id d e m = Some m' → kf id m m'.
Proof.
  unfold run_deposit_step. intros Hstep.
  destruct (dp_pc d) as [|phase|], e; try done;
    try (destruct (is_cancelled tok m); [|done]; apply (inj Some) in Hstep as <-; repeat kf_go; done).
  - pose proof (kcore_deposit_begin fs id (dp_deposit_relay d) (dp_payload d) (dp_opts d) fresh m) as Hc.
    destruct (deposit_begin _ _ _ _ _ _ _) as [[phase|e] m1]; apply (inj Some) in Hstep as <-; cbn [snd] in Hc.
    + kf_go. eapply kf_kcore; [exact Hc|apply kf_refl].
    + apply kf_upload_failed. eapply kf_kcore; [exact Hc|apply kf_refl].
  - destruct (deposit_step _ _ _ _ _ _ _ _ _ _ _ _) as [[s m1]|] eqn:Es; [|done].
    pose proof (kf_deposit_step _ _ _ _ _ _ _ _ _ _ Es) as F.
    destruct s as [phase'|[out|e]]; apply (inj Some) in Hstep as <-.
    + by kf_go.
    + apply kf_offline_confirm. by kf_go.
    + by apply kf_upload_failed.
  - apply (inj Some) in Hstep as <-. unfold set_status_live. repeat kf_go.
Qed.

Lemma kf_run_link l e m' : run_link_step fs tok id l e m = Some m' → kf id m m'.
Proof.
  unfold run_link_step. intros Hstep.
  destruct (lk_pc l) as [|seal|], e; try done; unfold link_over, link_ready, set_link, set_progress in *;
    try (destruct (is_cancelled tok m); [|done]; apply (inj Some) in Hstep as <-; repeat kf_go; done).
  - apply (inj Some) in Hstep as <-. destruct (mg_uploads m !! id) as [[[seal|] ses]|]; repeat kf_go.
  - apply (inj Some) in Hstep as <-. repeat kf_go.
  - apply (inj Some) in Hstep as <-. unfold report_progress, set_progress. repeat kf_go.
  - destruct r as [out|err]; [|destruct (worth_waiting err)]; apply (inj Some) in Hstep as <-; repeat kf_go.
  - apply (inj Some) in Hstep as <-. unfold set_status_live. repeat kf_go.
Qed.

Lemma kf_host_code ticket c m1 : kf id m m1 → kf id m (host_code id ticket c m1).
Proof.
  intros F. unfold host_code. destruct (pcd_restored c).
  - unfold resume_code. destruct (negb _); repeat kf_go.
  - unfold code_hosting, new_token, set_code. repeat kf_go.
    apply (kf_kcore _ _ (with_disk (persist_code (code_record id ticket (pcd_record c))) m1)); [done|]. kf_go. done.
Qed.

Lemma kf_share s e m' : share_step cf tok id s e m = Some m' → kf id m m'.
Proof.
  unfold share_step. intros Hstep. destruct (sh_pc s) as [| |total last delivered], e; try done.
  - destruct r as [[session seed]|e]; apply (inj Some) in Hstep as <-; [|repeat kf_go].
    unfold begin_serving, set_ticket, set_status_live, set_share_stats.
    kf_go. kf_go. destruct (sh_code s); [apply kf_host_code|]; repeat kf_go.
  - destruct (is_cancelled tok m); [|done]. apply (inj Some) in Hstep as <-. repeat kf_go.
  - destruct r as [session|e]; apply (inj Some) in Hstep as <-; repeat kf_go.
  - destruct (cf_share_days cf), (mg_transfers m !! id); try done. destruct (_ && _); [|done].
    apply (inj Some) in Hstep as <-. repeat kf_go.
  - apply (inj Some) in Hstep as <-. unfold on_share_event, set_progress, add_bytes_served, record_pickup,
      persist_share_stats, set_download_peers. destruct ev; repeat kf_go.
  - apply (inj Some) in Hstep as <-. repeat kf_go.
Qed.
End plain.

End own_steps.

(** ** From slices to the invariant *)

Section kinv.
Context (cf : Config).

Lemma kinv_kf id m m' : kinv cf m → kf id m m' → kloc cf id m' → kinv cf m'.
Proof.
  intros [Hk Hkt] [F1 F2 F3 F4] Hl. split; [|by apply F4]. intros j.
  destruct (decide (j = id)) as [->|Hj]; [done|]. by apply (kloc_agree cf j m); [|apply F2|].
Qed.
Lemma kinv_same id m m' : kinv cf m → kf id m m' → agree id m m' → kinv cf m'.
Proof. intros Hk F Hs. apply (kinv_kf id m m' Hk F). apply (kloc_agree cf id m); [apply F|done|apply Hk]. Qed.
Lemma kinv_all m m' : kinv cf m → (∀ i, kf i m m') → kinv cf m'.
Proof.
  intros Hk F. apply (kinv_same 0 m m' Hk (F 0)). by apply (kf_others _ _ _ (F 1)).
Qed.
Lemma kinv_unheld id m m' : kinv cf m → kf id m m' → m'.(mg_held) !! id = None → kinv cf m'.
Proof. intros Hk F Hn. apply (kinv_kf id m m' Hk F). by apply kloc_unheld. Qed.
Lemma kinv_kcore m m' : kinv cf m → kcore m' = kcore m → kinv cf m'.
Proof. intros Hk Hc. apply (kinv_all m m' Hk). intros i. eapply kf_kcore; [exact Hc|apply kf_refl]. Qed.

Lemma kinv_fresh m j : kinv cf m → m.(mg_next_id) <= j → m.(mg_held) !! j = None.
Proof.
  intros [Hk _] Hj. destruct (mg_held m !! j) as [h|] eqn:E; [|done].
  destruct (Hk j (held_record 0 false "" h)) as (? & _); [|lia]. unfold held_view. by rewrite E.
Qed.

(** Plain fields and dropped rows change no slice. *)
Lemma kf_plain i id f m m1 : plain f → kf i m m1 → kf i m (upd_row id f m1).
Proof.
  intros Hf. apply kf_then; try done. intros j _. apply agree_slice. unfold slice, on_hold. cbn.
  destruct (decide (j = id)) as [->|Hj]; [|by rewrite lookup_alter_ne].
  rewrite lookup_alter_eq. destruct (mg_transfers m1 !! id) as [t|]; [|done]. cbn.
  destruct (Hf t) as (_ & -> & _). done.
Qed.
Lemma kf_rows i rows m m1 :
  (∀ j, rows !! j = m1.(mg_transfers) !! j ∨ rows !! j = None) → kf i m m1 → kf i m (m1 <| mg_transfers := rows |>).
Proof.
  intros Hr. apply kf_then; try done. intros j _. split_and!; [done..|right]. split; [done|].
  unfold on_hold. cbn. destruct (Hr j) as [-> | ->]; [by right|by left].
Qed.

Lemma kf_register i now d p nm t m m1 id tok m2 :
  m1.(mg_held) !! m1.(mg_next_id) = None → register now d p nm t m1 = (id, tok, m2) → kf i m m1 →
  kf i m m2 ∧ id = m1.(mg_next_id) ∧ m2.(mg_held) = m1.(mg_held).
Proof.
  intros Hn Hr F. unfold register, new_token in Hr. injection Hr as <- <- <-.
  set (row := new_row _ _ _ _ _ _). split_and!; [|done|done].
  revert F. apply kf_then; [cbn; lia| |done|done].
  intros j _. destruct (decide (j = mg_next_id m1)) as [->|Hj].
  - split_and!; [done|done|]. left. unfold held_view. cbn. by rewrite Hn.
  - split_and!; [done|done|right]. split; [done|]. unfold on_hold. cbn.
    destruct (prune_same MAX_FINISHED_RETAINED (<[mg_next_id m1:=row]> (mg_transfers m1)) j) as [-> | ->]; [right|by left].
    by rewrite lookup_insert_ne.
Qed.

Section fetch.
Context {A : Type} `{!Base32Text, !Wire (ChunkTicket A), !Wire OfflineTicket, !Wire OfflineWireV1,
  !Blake3Hash, !HexLower, !PublicIdParse}.

Lemma kf_resume_serve i now rec stats m m1 :
  (∀ j, m1.(mg_next_id) <= j → m1.(mg_held) !! j = None) → kf i m m1 →
  kf i m (resume_serve (A := A) now rec stats m1).2.
Proof.
  intros Hb F. unfold resume_serve. destruct (resumable_key _) as [expected|]; [|done].
  destruct (negb _); [done|]. destruct (register _ _ _ _ _ m1) as [[id tok] m2] eqn:E.
  destruct (kf_register i _ _ _ _ _ m m1 id tok m2 (Hb _ (Z.le_refl _)) E F) as (F2 & Hid & Hh). cbn [snd].
  apply kf_spawn.
  - intros _. cbn. rewrite Hh. apply Hb. lia.
  - apply kf_disk; [intros ?; reflexivity|]. unfold set_share_stats. apply kf_plain; [plain_field|done].
Qed.

Context (stage_path : string → string) (m : Manager) (tok : nat) (id : Z).
Context (Hk : kinv cf m) (Hun : m.(mg_held) !! id = None).

Lemma kf_publish published m1 : kf id m m1 → kf id m (publish_completed cf id published m1).2.
Proof.
  intros F. unfold publish_completed. destruct (negb _); [done|]. destruct published as [[]|]; cbn [snd]; [done| |done].
  by apply kf_upd_row.
Qed.

Lemma kf_fetch_ends f r published now seed : kf id m (fetch_ends (A := A) cf stage_path tok id f r published now seed m).
Proof.
  unfold fetch_ends. set (pm := match r with Ok o => if is_complete o then _ else _ | Err _ => _ end).
  assert (kf id m pm.2) as F.
  { unfold pm. destruct r as [o|]; [destruct (is_complete o)|]; [|apply kf_refl..].
    apply kf_publish, kf_refl. }
  destruct pm as [published' m1]. cbn [snd] in F.
  set (m2 := match r with Ok o => if is_complete o && cf_seeding cf then _ else _ | Err _ => _ end).
  assert (kf id m m2) as F2.
  { unfold m2. destruct r as [o|]; [|done]. destruct (_ && _); [|done].
    destruct (seed_source _ _ _ _) as [[path owned]|]; [|done]. unfold seed_file.
    apply kf_resume_serve; [|done].
    intros j Hj. apply (kf_held _ _ _ F), (kinv_fresh m j Hk). pose proof (kf_next _ _ _ F). lia. }
  clearbody m2. cbn zeta. destruct (receive_pause_reason _ _ _); [repeat kf_go|].
  destruct (is_cancelled tok m && _); repeat kf_go.
Qed.

Lemma kf_mailbox_ends r published : kf id m (mailbox_ends cf tok id r published m).
Proof.
  unfold mailbox_ends. cbn zeta. set (m1 := m <| mg_deferred_acks ::= _ |>).
  assert (kf id m m1) as F by by apply (kf_kcore _ _ m); [|apply kf_refl]. clearbody m1.
  set (m2 := if _ || _ then _ else m1).
  assert (kf id m m2) as F2 by (unfold m2; repeat kf_go). clearbody m2.
  destruct r as [[path n]|e]; [|repeat kf_go].
  assert (kf id m (set_progress id n m2)) as F3 by by apply kf_upd_row.
  set (m3 := set_progress id n m2) in *. clearbody m3.
  set (pm := if is_cancelled tok m2 then _ else _).
  assert (kf id m pm.2) as F4 by (unfold pm; destruct (is_cancelled tok m2); [done|by apply kf_publish]).
  destruct pm as [p m4]. cbn [snd] in F4. repeat kf_go.
Qed.

Lemma kf_fetch f e m' : fetch_step (A := A) cf stage_path tok id f e m = Some m' → kf id m m'.
Proof.
  unfold fetch_step. intros Hstep. destruct (fe_pc f), e; try done.
  - destruct (looks_like _); apply (inj Some) in Hstep as <-; kf_go; [|unfold set_peer; repeat kf_go].
    by apply (kf_kcore _ _ m); [|apply kf_refl].
  - apply (inj Some) in Hstep as <-. unfold set_peer. repeat kf_go.
  - apply (inj Some) in Hstep as <-. unfold set_progress. repeat kf_go.
  - apply (inj Some) in Hstep as <-. unfold set_progress. repeat kf_go.
  - apply (inj Some) in Hstep as <-. unfold set_swarm. repeat kf_go.
  - apply (inj Some) in Hstep as <-. apply kf_fetch_ends.
  - apply (inj Some) in Hstep as <-. apply kf_mailbox_ends.
Qed.
End fetch.
End kinv.

(** ** Steps that leave every send as it was *)

Section quiet.
Context (cf : Config) (id : Z) (m : Manager).

(** Nothing that matters changed, and the row of [id] is not on hold. *)
Definition kq (m1 : Manager) : Prop := (∀ i, kf i m m1) ∧ on_hold m1 id ≠ Some true.

Lemma kq_refl : on_hold m id ≠ Some true → kq m.
Proof. intros Ho. split; [|done]. intros i. apply kf_refl. Qed.
Lemma kq_kcore m1 m2 : kcore m2 = kcore m1 → kq m1 → kq m2.
Proof.
  intros Hc [F Ho]. split; [intros i; eapply kf_kcore; [exact Hc|apply F]|].
  pose proof Hc as [= _ _ _ E _]. unfold on_hold. by rewrite E.
Qed.
(** A row moves from one running or settled status to another. *)
Lemma kq_row f m1 :
  (∀ t, is_paused t.(tr_status) = false → is_paused (f t).(tr_status) = false) → kq m1 → kq (upd_row id f m1).
Proof.
  intros Hf [F Ho].
  assert (on_hold (upd_row id f m1) id = on_hold m1 id) as Hsame.
  { unfold on_hold in *. cbn. rewrite lookup_alter_eq. destruct (mg_transfers m1 !! id) as [t|]; [|done]. cbn in *.
    destruct (is_paused (tr_status t)) eqn:Hp; [by destruct Ho|]. by rewrite Hf. }
  split; [|by rewrite Hsame]. intros i. eapply kf_trans; [apply F|]. split; try done.
  intros j _. destruct (decide (j = id)) as [->|Hj]; apply agree_slice; unfold slice; [by rewrite Hsame|].
  unfold on_hold. cbn. by rewrite lookup_alter_ne.
Qed.
Lemma kq_status s m1 : is_paused s = false → kq m1 → kq (set_status id s m1).
Proof.
  intros Hs Q. apply (kq_kcore (upd_row id (fun t => clear_waiting_code (t <| tr_status := s |>)) m1)); [done|].
  apply kq_row; [|done]. intros t _. by rewrite status_status.
Qed.
Lemma kq_status_live s m1 : is_paused s = false → kq m1 → kq (set_status_live id s m1).
Proof. intros Hs. apply kq_row. intros t _. by rewrite status_status. Qed.
Lemma kq_waiting r m1 : kq m1 → kq (set_waiting id r m1).
Proof.
  intros Q. apply (kq_kcore (set_waiting_code id (waiting_code r) (default ""%string (waiting_detail r))
    (set_status_live id (Waiting (waiting_text r)) m1))); [done|].
  apply kq_row; [done|]. by apply kq_status_live.
Qed.
Lemma kq_plain f m1 : plain f → kq m1 → kq (upd_row id f m1).
Proof. intros Hf. apply kq_row. intros t. by destruct (Hf t) as (_ & -> & _). Qed.
Lemma kq_spawn tok t m1 : is_plain_task t = false → kq m1 → kq (spawn tok t m1).
Proof. intros Ht [F Ho]. split; [|done]. intros i. apply kf_spawn; [congruence|apply F]. Qed.
Lemma kq_new_token m1 : kq m1 → kq (new_token m1).2.
Proof. by apply kq_kcore. Qed.
Lemma kq_aside t m1 : is_plain_task t = false → kq m1 → kq (spawn_detached t m1).
Proof. intros Ht Q. apply kq_spawn; [done|]. by apply (kq_kcore m1). Qed.
Lemma kq_end tok m1 : kq m1 → kq (end_task tok m1).
Proof. intros [F Ho]. split; [|done]. intros i. apply kf_end, F. Qed.
Lemma kq_disk f m1 : neutral f → kq m1 → kq (with_disk f m1).
Proof. intros Hf. by apply kq_kcore, kcore_disk. Qed.
Lemma kq_emit ev m1 : kq m1 → kq (emit ev m1).
Proof. by apply kq_kcore. Qed.
Lemma kq_net c m1 : kq m1 → kq (net c m1).
Proof. by apply kq_kcore. Qed.
Lemma kq_fail r m1 : kq m1 → kq (fail id r m1).
Proof. intros Q. apply kq_emit, kq_row; [done|]. by apply kq_status. Qed.
Lemma kq_inv m1 : kinv cf m → kq m1 → kinv cf m1.
Proof. intros Hk [F _]. by eapply kinv_all. Qed.
End quiet.

(** A row that is running, or settled, is not on hold. *)
Lemma driven_not_held m tok id : minv m → drives m tok id → on_hold m id ≠ Some true.
Proof.
  intros Hm Hd. unfold on_hold. destruct (mg_transfers m !! id) as [t|] eqn:E; [|done]. cbn.
  destruct (lo_driver _ _ (Hm id) tok Hd) as [_ Hl]. specialize (Hl t E). by destruct (tr_status t).
Qed.
Lemma settled_not_held m id : settled id m → on_hold m id ≠ Some true.
Proof.
  intros Hs. unfold on_hold. destruct (mg_transfers m !! id) as [t|] eqn:E; [|done]. cbn.
  destruct (Hs t E) as [_ ->]. done.
Qed.

Section followers.
Context (cf : Config) (m : Manager) (tok : nat) (id : Z).
Context (Hm : minv m) (Hk : kinv cf m).

Lemma kinv_watch w l : m.(mg_tasks) !! tok = Some (TaskWatch id w) → kinv cf (watch_turn tok id w l m).
Proof.
  intros E. assert (follows m tok id) as Hf by by exists (TaskWatch id w).
  destruct (follows_bound m tok id Hm Hf) as (_ & Hs & _).
  apply (kq_inv cf id m); [done|]. pose proof (kq_refl id m (settled_not_held m id Hs)) as Q. unfold watch_turn.
  set (m1 := match asked_offer w l with Some _ => _ | None => m end).
  assert (kq id m m1) as Q1 by (unfold m1; destruct (asked_offer w l); [apply kq_plain; [plain_field|done]|done]).
  clearbody m1. assert (∀ m2, kq id m m2 → kq id m (retire (wt_what w) id m2)) as Hret
    by (intros m2 Q2; unfold retire; destruct (wt_what w); by apply kq_disk).
  destruct (watch_verdict w l).
  - apply kq_end. unfold complete_deposit. apply Hret, kq_emit. by apply kq_status.
  - apply kq_end, Hret. destruct (wt_what w); [by apply kq_fail|done].
  - by apply kq_end, Hret.
  - by apply kq_spawn.
Qed.

Lemma kinv_withdraw `{!PublicIdParse} w made :
  m.(mg_tasks) !! tok = Some (TaskWithdraw id w) → kinv cf (withdraw_end tok id w made m).
Proof.
  intros E. assert (follows m tok id) as Hf by by exists (TaskWithdraw id w).
  destruct (follows_bound m tok id Hm Hf) as (_ & Hs & _).
  apply (kq_inv cf id m); [done|]. pose proof (kq_refl id m (settled_not_held m id Hs)) as Q. unfold withdraw_end.
  apply kq_end, kq_emit, kq_status; [done|]. apply kq_disk; [by intros d; destruct w|].
  assert (∀ calls m1, kq id m m1 → kq id m (foldl (λ m c, net c m) m1 calls)) as Hn.
  { intros calls. induction calls as [|c calls IH]; intros m1 Q1; [done|]. cbn. by apply IH, kq_net. }
  by apply Hn.
Qed.

Lemma kinv_code c e m' :
  m.(mg_tasks) !! tok = Some (TaskCode id c) → code_step tok id c e m = Some m' → kinv cf m'.
Proof.
  intros E Hstep. apply (kinv_all cf m m' Hk). intros i. pose proof (kf_refl i m) as F.
  unfold code_step in Hstep. destruct (cd_pc c), e as [[[]|]|[[]|]| | | |[]]; try done;
    apply (inj Some) in Hstep as <-; unfold code_hosting, code_lost, set_code;
    repeat first [kf_go | apply kf_plain; [plain_field|]].
Qed.
End followers.

(** ** A delivery *)

Lemma finish_unheld id c r m : (finish id c r m).(mg_held) !! id = None.
Proof.
  assert (∀ b m1, (forget id b m1).(mg_held) = m1.(mg_held)) as Hf.
  { intros b m1. unfold forget. destruct b; [|done]. by destruct (mg_uploads m1 !! id ≫= rs_session). }
  unfold finish. destruct r as [[path|]|]; [destruct c..|]; cbn -[forget drop_held]; rewrite Hf; apply lookup_delete_eq.
Qed.

Section delivery.
Context (cf : Config) (fs : Fs) (m : Manager) (tok : nat) (id : Z).
Context (Hm : minv m) (Hd : drives m tok id) (Hk : kinv cf m).

Lemma kq_start : kq id m m.
Proof. apply kq_refl. by eapply driven_not_held. Qed.

Lemma kq_leave d m1 : kq id m m1 → kq id m (leave tok d m1).
Proof. intros Q. unfold leave. apply kq_end. by destruct (dl_standing d); [apply kq_net|]. Qed.
Lemma kf_leave d m1 : kf id m m1 → kf id m (leave tok d m1).
Proof. intros Q. unfold leave. apply kf_end. destruct (dl_standing d); [|done]. by apply (kf_kcore _ _ m1). Qed.
Lemma held_leave d m1 : (leave tok d m1).(mg_held) = m1.(mg_held).
Proof. unfold leave. by destruct (dl_standing d). Qed.

Lemma kinv_goto pc d m1 : kq id m m1 → kinv cf (goto tok id pc d m1).
Proof. intros Q. apply (kq_inv cf id m); [done|]. by apply kq_spawn. Qed.
Lemma kinv_leave d m1 : kq id m m1 → kinv cf (leave tok d m1).
Proof. intros Q. apply (kq_inv cf id m); [done|]. by apply kq_leave. Qed.
Lemma kinv_finish c r d m1 : kf id m m1 → kinv cf (leave tok d (finish id c r m1)).
Proof.
  intros F. apply (kinv_unheld cf id m); [done|by apply kf_leave, kf_finish|].
  rewrite held_leave. apply finish_unheld.
Qed.
Lemma kinv_die e d m1 : kf id m m1 → kinv cf (die tok id e d m1).
Proof. apply kinv_finish. Qed.

Lemma persist_held_view p why j m1 : held_view (persist_held_record id p why m1) j = held_view m1 j.
Proof. unfold persist_held_record. by destruct (mg_held m1 !! id). Qed.
Lemma persist_held_sendto p why m1 h :
  m1.(mg_held) !! id = Some h → has_disk m1 = true →
  sendto_of (persist_held_record id p why m1) id = Some (held_record id p why h).
Proof.
  intros E Hdisk. unfold persist_held_record. rewrite E. unfold sendto_of, has_disk in *. cbn.
  destruct (mg_disk m1); [|done]. cbn. apply lookup_insert_eq.
Qed.

(** Putting on hold writes the record before the row. *)
Lemma kinv_paused why d m1 : kq id m m1 → kinv cf (leave tok d (set_paused id why m1)).
Proof.
  intros Q. pose proof (kq_inv cf id m m1 Hk Q) as [Hk1 _]. destruct Q as [F _].
  apply (kinv_kf cf id m); [done|by apply kf_leave, kf_set_paused|].
  set (m2 := leave tok d (set_paused id why m1)).
  assert (held_view m2 id = held_view m1 id) as Eh.
  { transitivity (held_view (persist_held_record id true why m1) id); [|apply persist_held_view].
    unfold m2, leave. by destruct (dl_standing d). }
  intros v Hv. rewrite Eh in Hv. destruct (Hk1 id v Hv) as (Hb & Hr & _).
  assert (m2.(mg_next_id) = m1.(mg_next_id)) as ->.
  { transitivity (mg_next_id (persist_held_record id true why m1)); [unfold m2, leave; by destruct (dl_standing d)|].
    unfold persist_held_record. by destruct (mg_held m1 !! id). }
  split_and!; [done|done|]. unfold held_view in Hv.
  destruct (mg_held m1 !! id) as [h|] eqn:E; [|done]. injection Hv as <-.
  assert (mg_disk m2 = mg_disk (persist_held_record id true why m1)) as Edisk
    by (unfold m2, leave; by destruct (dl_standing d)).
  intros Hdisk. exists true, why. split.
  - rewrite recorded_held, <- (persist_held_sendto true why m1 h E).
    + unfold sendto_of. by rewrite Edisk.
    + unfold has_disk in *. rewrite Edisk in Hdisk. unfold persist_held_record in Hdisk. rewrite E in Hdisk.
      cbn in Hdisk. by destruct (mg_disk m1).
  - intros b. assert (mg_transfers m2 = mg_transfers (set_status id (Paused why) m1)) as Er.
    { unfold m2, leave, set_paused, persist_held_record. rewrite E. by destruct (dl_standing d). }
    unfold on_hold. rewrite Er. destruct (mg_transfers (set_status id (Paused why) m1) !! id) as [t|] eqn:Et; [|done].
    apply set_status_row in Et. cbn. rewrite Et. by intros [= <-].
Qed.
Lemma kinv_stop d m1 : kq id m m1 → kinv cf (stop tok id d m1).
Proof.
  intros Q. unfold stop, handle_stop. destruct (pause_asked _ _); [by apply kinv_paused|].
  apply kinv_finish. by destruct Q.
Qed.

Lemma kq_fill_prep p m1 : kq id m m1 → kq id m (fill_prep id p m1).
Proof. apply kq_kcore, kcore_fill_prep. Qed.
Lemma kq_flags f m1 :
  (∀ h, held_record 0 false "" (f h) = held_record 0 false "" h) → kq id m m1 → kq id m (upd_held id f m1).
Proof. intros Hf. by apply kq_kcore, kcore_flags. Qed.

Lemma kinv_deliver_top now beacon d : kinv cf (deliver_top cf fs tok id now beacon d m).
Proof.
  pose proof kq_start as Q. unfold deliver_top. destruct (is_cancelled tok m); [by apply kinv_stop|].
  destruct (_ <=? now); [by apply kinv_paused|].
  destruct (probe_online cf now beacon d) as [[] d']; [|by apply kinv_goto].
  unfold live_begin. destruct (negb _); apply kinv_goto; [|done]. by apply kq_emit, kq_status_live.
Qed.

Lemma kinv_live_prepared fresh before r prep d : kinv cf (live_prepared fs tok id fresh before r prep d m).
Proof.
  pose proof (kq_fill_prep prep m kq_start) as Q. unfold live_prepared.
  destruct r as [s|e]; [|apply kinv_die; by destruct Q].
  destruct fresh; apply kinv_goto; [|done]. eapply kq_kcore; [apply kcore_persist_prep|done].
Qed.

Lemma kinv_live_serve now s d m1 : kq id m m1 → kinv cf (live_serve tok id now s d m1).
Proof.
  intros Q. unfold live_serve. pose proof (kq_new_token id m _ (kq_waiting id m Offered m1 Q)) as Q2.
  destruct (new_token _) as [k m2]. apply kinv_goto. by apply kq_flags.
Qed.
Lemma kinv_live_post now status post s d : kinv cf (live_post cf tok id now status post s d m).
Proof.
  pose proof kq_start as Q. unfold live_post. set (d' := d <| dl_standing ::= _ |>). clearbody d'.
  destruct (dl_standing d'); [by apply kinv_live_serve|].
  destruct post; [by apply kinv_live_serve, kq_net|by apply kinv_goto, kq_net].
Qed.

Lemma kq_watchdog now status sv sv' m1 : watchdog now status sv m = (sv', m1) → kq id m m1.
Proof.
  pose proof kq_start as Q. unfold watchdog. intros Hw.
  destruct (sv_watchdog sv); repeat case_match; injection Hw as _ <-; try done; by apply (kq_kcore _ _ m).
Qed.
Lemma kq_send_event ev sv sv' m1 : on_send_event id ev sv m = (sv', m1) → kq id m m1.
Proof.
  pose proof kq_start as Q. unfold on_send_event. intros Hw.
  destruct ev; injection Hw as _ <-; try done.
  - by apply kq_status_live.
  - by apply kq_emit, kq_row.
  - by apply (kq_kcore _ _ m).
  - by apply kq_waiting.
  - by apply kq_waiting.
  - by apply kq_row.
Qed.

Lemma kinv_live_served sv r now beacon d : kinv cf (live_served tok id sv r now beacon d m).
Proof.
  assert (kq id m (set_held_attempt id None m)) as Q by (apply kq_flags; [done|apply kq_start]).
  unfold live_served. destruct r; [apply kinv_die; by destruct Q|].
  destruct (sv_delivered sv).
  { destruct (mg_transfers _ !! id); apply kinv_finish; [apply kf_upd_row|]; by destruct Q. }
  destruct (sv_recipient_cancelled sv).
  { destruct (dl_standing d); apply kinv_die; [|by destruct Q]. by apply (kf_kcore _ _ (set_held_attempt id None m)), Q. }
  destruct (is_cancelled _ _); [by apply kinv_stop|].
  destruct (sv_offloaded sv); [by apply kinv_goto, kq_waiting|].
  destruct (sv_seen_not_connected sv); by apply kinv_goto.
Qed.

Lemma kinv_deposit_failed now e d m1 : kq id m m1 → kinv cf (Delivery.deposit_failed tok id now e d m1).
Proof.
  intros Q. destruct e; cbn [Delivery.deposit_failed]; [by apply kinv_goto, kq_waiting..|].
  apply kinv_die. by destruct Q.
Qed.

Lemma kinv_maybe_deposit park_now now fresh d m1 :
  kq id m m1 → kinv cf (maybe_deposit cf fs tok id park_now now fresh d m1).
Proof.
  intros Q. unfold maybe_deposit. destruct (_ && _); [|by apply kinv_goto].
  pose proof (kcore_deposit_begin fs id (deposit_relay cf d) (dl_source d) (fallback_opts id m1) fresh m1) as Hc.
  destruct (deposit_begin _ _ _ _ _ _ _) as [[phase|e] m2]; cbn [snd] in Hc; apply (kq_kcore _ _ _ _ Hc) in Q.
  - by apply kinv_goto.
  - by apply kinv_deposit_failed.
Qed.

Lemma kinv_deliver_relay online now fresh d : kinv cf (deliver_relay cf fs tok id online now fresh d m).
Proof.
  pose proof kq_start as Q. unfold deliver_relay.
  destruct (dl_live_only d); [destruct (_ && _); apply kinv_goto; [by apply kq_waiting|done]|].
  destruct (_ && _); [by apply kinv_goto, kq_net|by apply kinv_maybe_deposit].
Qed.

Lemma kinv_parked out prep now unix fresh d : kinv cf (parked cf fs tok id out prep now unix fresh d m).
Proof.
  pose proof (kq_fill_prep prep m kq_start) as Q. unfold parked.
  destruct out as [out|]; [|by apply kinv_maybe_deposit].
  set (offer := match dl_standing d with Some _ => _ | None => _ end). destruct offer as [a b].
  apply kinv_leave. unfold spawn_parked_confirm. apply kq_aside; [done|]. apply kq_disk; [by intros ?|].
  apply kq_status; [done|]. apply kq_row; [done|]. by apply kq_flags.
Qed.

Lemma kinv_deposited now unix r d m1 : kq id m m1 → kinv cf (deposited cf tok id now unix r d m1).
Proof.
  intros Q. unfold deposited. destruct r as [out|e]; [|by apply kinv_deposit_failed].
  apply (kinv_unheld cf id m); [done| |].
  - apply kf_leave, kf_offline_confirm, kf_drop_held. by destruct Q.
  - rewrite held_leave. unfold spawn_offline_confirm. cbn. apply lookup_delete_eq.
Qed.

Lemma kinv_deliver_wait now status d : kinv cf (deliver_wait tok id now status d m).
Proof.
  pose proof kq_start as Q. assert (∀ s, kq id m (set_offer_status_live id s m)) as Q1.
  { intros s. unfold set_offer_status_live. assert (kq id m (set_offer_status id s m)) as Q1 by by apply kq_row.
    destruct (mg_transfers _ !! id) as [t|]; [|done]. destruct (tr_status t); try done. by apply kq_emit. }
  unfold deliver_wait. destruct (dl_standing d) as [s|], status as [[]|];
    try (by apply kinv_goto); destruct (negb _); apply kinv_goto; done.
Qed.

Lemma kq_deposit_step relay recipient payload name note opts phase i s m1 :
  deposit_step cf fs id relay recipient payload name note opts phase i m = Some (s, m1) → kq id m m1.
Proof.
  pose proof kq_start as Q. unfold deposit_step. intros Hstep.
  assert (∀ b, kq id m (forget id b m)) as Qf by (intros b; eapply kq_kcore; [apply kcore_forget|done]).
  destruct phase, i as [?|? ?|[?|[]]|[]]; try done; apply some_pair in Hstep as [_ <-]; cbn [worth_keeping]; try done.
  - eapply kq_kcore; [apply kcore_session|done].
  - unfold report_progress. by apply kq_emit, kq_row.
  - by apply kq_net.
Qed.

Lemma kinv_deliver d e m' : deliver_step cf fs tok id d e m = Some m' → kinv cf m'.
Proof.
  pose proof kq_start as Q. unfold deliver_step. intros Hstep.
  destruct (dl_pc d) as [| |fresh before|s|s sv|online| |phase|], e; try done;
    try (destruct (is_cancelled tok m); [|done]; apply (inj Some) in Hstep as <-; by apply kinv_stop).
  - apply (inj Some) in Hstep as <-. by apply kinv_goto.
  - apply (inj Some) in Hstep as <-. apply kinv_deliver_top.
  - apply (inj Some) in Hstep as <-. apply kinv_live_prepared.
  - apply (inj Some) in Hstep as <-. apply kinv_live_post.
  - destruct (watchdog _ _ _ _) as [sv' m1] eqn:Ew. apply (inj Some) in Hstep as <-.
    apply kinv_goto. by eapply kq_watchdog.
  - destruct (on_send_event _ _ _ _) as [sv' m1] eqn:Ew. apply (inj Some) in Hstep as <-.
    apply kinv_goto. by eapply kq_send_event.
  - apply (inj Some) in Hstep as <-. apply kinv_live_served.
  - apply (inj Some) in Hstep as <-. apply kinv_deliver_relay.
  - apply (inj Some) in Hstep as <-. apply (kq_inv cf id m); [done|].
    destruct ev; cbn [park_says]; try done; by apply kq_waiting.
  - apply (inj Some) in Hstep as <-. apply kinv_parked.
  - destruct (deposit_step _ _ _ _ _ _ _ _ _ _ _ _) as [[s m1]|] eqn:Es; [|done].
    apply (inj Some) in Hstep as <-. pose proof (kq_deposit_step _ _ _ _ _ _ _ _ _ _ Es) as Q1.
    destruct s; [by apply kinv_goto|by apply kinv_deposited].
  - apply (inj Some) in Hstep as <-. apply kinv_deliver_wait.
Qed.
End delivery.

(** ** Calls *)

Section calls.
Context {A : Type} `{!Base32Text, !Wire (ChunkTicket A), !Wire OfflineTicket, !Wire OfflineWireV1,
  !Blake3Hash, !HexLower, !PublicIdParse}.
Context (cf : Config) (fs : Fs).

(** A new transfer that is not a held send. *)
Lemma kinv_new now d p nm t m id tok m1 m2 :
  kinv cf m → register now d p nm t m = (id, tok, m1) →
  (∀ i, kf i m m1 → m1.(mg_held) !! id = None → kf i m m2) → kinv cf m2.
Proof.
  intros Hk E Hnext. apply (kinv_all cf m m2 Hk). intros i.
  destruct (kf_register i _ _ _ _ _ m m id tok m1 (kinv_fresh cf m _ Hk (Z.le_refl _)) E (kf_refl i m)) as (F & -> & Hh).
  apply Hnext; [done|]. rewrite Hh. by apply (kinv_fresh cf m).
Qed.

Lemma held_remember fs' id r s m : (remember fs' id r s m).(mg_held) = m.(mg_held).
Proof.
  unfold remember, persist_upload. destruct s as [path|]; [|done]. cbn. destruct (negb _); [done|].
  by destruct (fs_stamp _ _).
Qed.
Lemma held_note id ticket m : (note_download_content (A := A) id ticket m).(mg_held) = m.(mg_held).
Proof. unfold note_download_content. by destruct (ticket_content ticket). Qed.
Lemma kcore_note id ticket m : kcore (note_download_content (A := A) id ticket m) = kcore m.
Proof. unfold note_download_content. by destruct (ticket_content ticket). Qed.

(** A held send is filed with its record. *)
Lemma kinv_files id h p tok t m m1 :
  kinv cf m → (∀ k t0, m.(mg_tasks) !! k = Some t0 → is_plain_task t0 = true → task_id t0 ≠ id) →
  id < m.(mg_next_id) → routed cf (held_record 0 false "" h) → is_plain_task t = false →
  (∀ b, on_hold m1 id = Some b → p = b) →
  kcore m1 = kcore (m <| mg_held ::= <[id := h]> |>) → ∀ why, kinv cf (spawn tok t (persist_held_record id p why m1)).
Proof.
  intros [Hk Hkt] Htasks Hb Hr Ht Hp Hc why. set (m0 := m <| mg_held ::= <[id := h]> |>) in *.
  assert (∀ j, slice m1 j = slice m0 j) as Hs by (intros j; by apply kcore_slice).
  assert (held_view m1 id = Some (held_record 0 false "" h)) as Ev.
  { pose proof (Hs id) as [[[E _]%pair_equal_spec _]%pair_equal_spec _]%pair_equal_spec. rewrite E.
    unfold held_view. cbn. by rewrite lookup_insert_eq. }
  destruct (mg_held m1 !! id) as [h1|] eqn:E1; [|unfold held_view in Ev; by rewrite E1 in Ev].
  assert (held_record id p why h1 = recorded id p why (held_record 0 false "" h)) as Erec.
  { unfold held_view in Ev. rewrite E1 in Ev.
    change (Some (held_record 0 false "" h1) = Some (held_record 0 false "" h)) in Ev.
    apply (inj Some) in Ev. by rewrite <- recorded_held, Ev. }
  set (m2 := spawn tok t (persist_held_record id p why m1)).
  assert (m2.(mg_next_id) = m.(mg_next_id)) as En.
  { transitivity (mg_next_id m1); [unfold m2, persist_held_record; by rewrite E1|]. by pose proof Hc as [= -> _ _ _ _]. }
  assert (∀ j, held_view m2 j = held_view m1 j ∧ on_hold m2 j = on_hold m1 j ∧ has_disk m2 = has_disk m1) as Hsame.
  { intros j. unfold m2, persist_held_record. rewrite E1. split_and!; [done|done|].
    unfold has_disk. cbn. by destruct (mg_disk m1). }
  split.
  - intros j. destruct (decide (j = id)) as [->|Hj].
    + intros v Hv. destruct (Hsame id) as (Ej & Eo & Edk). rewrite Ej, Ev in Hv. injection Hv as <-.
      rewrite En, Eo, Edk. split_and!; [done|done|]. intros Hdisk. exists p, why. split; [|done].
      rewrite <- Erec. unfold m2, persist_held_record. rewrite E1. unfold sendto_of, has_disk in *. cbn.
      destruct (mg_disk m1); [|done]. cbn. apply lookup_insert_eq.
    + apply (kloc_agree cf j m); [by rewrite En| |apply Hk]. apply agree_slice.
      transitivity (slice m1 j).
      * unfold m2, persist_held_record. rewrite E1. unfold slice, sendto_of, has_disk. cbn.
        destruct (mg_disk m1); [|done]. cbn. by rewrite lookup_insert_ne.
      * rewrite Hs. unfold slice, held_view. cbn. by rewrite lookup_insert_ne.
  - intros k t0 Et Hpl.
    assert (m1.(mg_tasks) !! k = Some t0) as Et1.
    { unfold m2, persist_held_record in Et. rewrite E1 in Et. cbn in Et.
      apply lookup_insert_Some in Et as [[_ <-]|[_ Et]]; [congruence|done]. }
    pose proof Hc as [= _ Eh _ _ Etk]. rewrite Etk in Et1.
    assert (mg_held m2 = mg_held m1) as -> by (unfold m2, persist_held_record; by rewrite E1).
    apply (kcore_held m0 m1 _ Eh). cbn. rewrite lookup_insert_ne by (intros Heq; by apply (Htasks k t0)). by eapply Hkt.
Qed.

Lemma registered now d p nm t m id tok m1 :
  register now d p nm t m = (id, tok, m1) →
  m1.(mg_tasks) = m.(mg_tasks) ∧ id = m.(mg_next_id) ∧ m1.(mg_next_id) = id + 1 ∧ m1.(mg_held) = m.(mg_held) ∧
  (∀ b, on_hold m1 id = Some b → b = false).
Proof.
  unfold register, new_token. intros Hr. injection Hr as <- <- <-. split_and!; try done.
  intros b. unfold on_hold. cbn. set (row := new_row _ _ _ _ _ _).
  destruct (prune_same MAX_FINISHED_RETAINED (<[mg_next_id m:=row]> (mg_transfers m)) (mg_next_id m)) as [-> | ->]; [|done].
  rewrite lookup_insert_eq. cbn. congruence.
Qed.

Lemma kinv_send_to now recipient source name archive note target live_only theirs m :
  kinv cf m → minv m → kinv cf (send_to cf fs now recipient source name archive note target live_only theirs m).2.
Proof.
  intros Hk Hm. unfold send_to.
  destruct (match theirs with Some _ => _ | None => _ end) as [relay|] eqn:Er; [|done].
  destruct (register _ _ _ _ _ m) as [[id tok] m1] eqn:E. cbn zeta. cbn [snd].
  destruct (registered _ _ _ _ _ _ _ _ _ E) as (Et & Hid & Hn & Hh & Ho).
  set (h := new_held _ _ _ _ _ _ _ _ _).
  eapply (kinv_files id h false tok _ m1); try done.
  - by eapply kinv_new.
  - intros k t0 E0 _ Hid0. rewrite Et in E0.
    destruct (lo_tasks _ _ (Hm (task_id t0)) k t0 E0 eq_refl). lia.
  - lia.
  - unfold routed. cbn. destruct theirs; [by left; eexists|right]. by rewrite Er; eexists.
  - intros b Hb. symmetry. by apply Ho.
Qed.
Lemma kinv_start_deposit now recipient payload name note opts relay m :
  kinv cf m → kinv cf (start_deposit cf fs now recipient payload name note opts relay m).2.
Proof.
  intros Hk. unfold start_deposit. destruct (match cf_relay cf with Some _ => _ | None => _ end); [|done].
  destruct (register _ _ _ _ _ m) as [[id tok] m1] eqn:E. eapply kinv_new; [done..|].
  intros i F Hn. apply kf_spawn; [done|exact F].
Qed.
Lemma kinv_create_link now source fresh ttl max m :
  kinv cf m → kinv cf (create_link cf fs now source fresh ttl max m).2.
Proof.
  intros Hk. unfold create_link. destruct (cf_relay cf); [|done]. destruct fresh as [seal|]; [|done].
  destruct (register _ _ _ _ _ m) as [[id tok] m1] eqn:E. eapply kinv_new; [done..|].
  intros i F Hn. cbn [snd]. apply kf_spawn; [intros _; cbn [task_id]; by rewrite held_remember|].
  kf_step. kf_step. exact F.
Qed.
Lemma kinv_start_share now payload name archive seed_relay code m :
  kinv cf m → kinv cf (start_share fs now payload name archive seed_relay code m).2.
Proof.
  intros Hk. unfold start_share. destruct (register _ _ _ _ _ m) as [[id tok] m1] eqn:E.
  destruct (registered _ _ _ _ _ _ _ _ _ E) as (_ & _ & _ & _ & Ho).
  eapply kinv_new; [done..|]. intros i F Hn. cbn zeta. cbn [snd].
  assert (on_hold m1 id ≠ Some true) as Ho1 by (intros Hb; by apply Ho in Hb).
  pose proof (kq_disk id m1 (persist_pending_share (mkPendingShareRecord id (source_label payload) name archive seed_relay (pcd_record <$> code)))
    _ ltac:(by intros ?) (kq_emit id m1 (EvPreparing id) _ (kq_status_live id m1 Preparing m1 eq_refl (kq_refl id m1 Ho1)))) as Q.
  set (m2 := with_disk _ _) in *. assert (m2.(mg_held) !! id = None) as Hn2 by exact Hn. clearbody m2.
  assert (kq id m1 (match code with Some c => set_code id (Some (pc_shown (pcd_record c))) m2 | None => m2 end)) as [Q2 _].
  { destruct code; [|done]. by apply kq_row. }
  apply kf_spawn; [intros _; by destruct code|]. eapply kf_trans; [exact F|apply Q2].
Qed.
Lemma kinv_start_download now ticket out_path peer name size password ack_offer m :
  kinv cf m → kinv cf (start_download (A := A) now ticket out_path peer name size password ack_offer m).2.
Proof.
  intros Hk. unfold start_download, spawn_receive. destruct (register _ _ _ _ _ m) as [[id tok] m1] eqn:E.
  eapply kinv_new; [done..|]. intros i F Hn. cbn zeta. cbn [snd].
  set (m2 := match ack_offer with Some _ => _ | None => m1 end).
  assert (kf i m m2 ∧ m2.(mg_held) !! id = None) as [F2 Hn2].
  { unfold m2. destruct ack_offer; [|done]. split; [by apply (kf_kcore _ _ m1)|done]. }
  clearbody m2. apply kf_spawn.
  - intros _. cbn [task_id]. destruct (looks_like ticket); [|done]. cbn. by rewrite held_note.
  - destruct (looks_like ticket); [|done]. kf_step. eapply kf_kcore; [apply kcore_note|done].
Qed.

Lemma kinv_resume id m : kinv cf m → minv m → kinv cf (resume cf id m).2.
Proof.
  intros Hk Hm. unfold resume.
  destruct (mg_transfers m !! id) as [t|] eqn:Et; [|done]. destruct (is_paused (tr_status t)) eqn:Hp; [|done].
  cbn [negb]. assert (is_live (tr_status t) = false) as Hl by by destruct (tr_status t).
  destruct (lo_row _ _ (Hm id) t Et) as (_ & Hb & _).
  destruct (mg_held m !! id) as [h|] eqn:Eh.
  - destruct Hk as [Hkl Hkt]. destruct (Hkl id (held_record 0 false "" h)) as (_ & Hr & _);
      [unfold held_view; by rewrite Eh|].
    assert (is_Some (match Some h ≫= h_relay with Some r => Some r | None => cf_relay cf end)) as [relay ->].
    { cbn. destruct Hr as [[r Hr]|Hr]; cbn in Hr; [rewrite Hr; by eexists|]. destruct (h_relay h); [by eexists|done]. }
    cbn zeta. set (f := fun h0 : Held => h0 <| h_pause_flag := false |>).
    destruct (rearm id (upd_held id f m)) as [tok m2] eqn:Er. cbn [snd].
    assert (m2.(mg_tasks) = m.(mg_tasks) ∧ m2.(mg_held) = alter f id m.(mg_held) ∧ m2.(mg_next_id) = m.(mg_next_id) ∧
      m2.(mg_disk) = m.(mg_disk) ∧
      m2.(mg_transfers) = alter (fun t => clear_waiting_code (t <| tr_status := Active |>)) id m.(mg_transfers))
      as (E1 & E2 & E3 & E4 & E5).
    { unfold rearm, new_token in Er. injection Er as _ <-. unfold emit_progress_now.
      by destruct (mg_transfers (set_status_live _ _ _) !! id). }
    (* the same held sends, over the manager whose row of [id] is already running *)
    eapply (kinv_files id (f h) false tok _ (m2 <| mg_held := delete id m.(mg_held) |>)); try done.
    + split.
      * intros j. destruct (decide (j = id)) as [->|Hj]; [apply kloc_unheld; apply lookup_delete_eq|].
        apply (kloc_agree cf j m); [cbn; lia| |apply Hkl]. apply agree_slice.
        unfold slice, held_view, sendto_of, on_hold, has_disk. cbn.
        by rewrite E4, E5, lookup_delete_ne, lookup_alter_ne.
      * intros k t0 Ek Hpl. cbn in Ek |- *. rewrite E1 in Ek.
        destruct (decide (task_id t0 = id)) as [->|Hj]; [apply lookup_delete_eq|].
        rewrite lookup_delete_ne by done. by eapply Hkt.
    + intros k t0 Ek Hpl Hid. cbn in Ek. rewrite E1 in Ek.
      eapply (undriven id m t Hm Et Hl k). exists t0. split_and!; [done|done|]. by destruct t0.
    + cbn. lia.
    + intros b. unfold on_hold. rewrite E5, lookup_alter_eq, Et. cbn. congruence.
    + assert (m2.(mg_held) = <[id := f h]> (delete id m.(mg_held))) as Eh2.
      { rewrite E2. apply map_eq. intros j. destruct (decide (j = id)) as [->|Hj].
        - by rewrite lookup_alter_eq, lookup_insert_eq, Eh.
        - by rewrite lookup_alter_ne, lookup_insert_ne, lookup_delete_ne. }
      unfold kcore. cbn -[f]. by rewrite Eh2.
  - assert (kinv cf (match mg_disk m ≫= load_download id with
      | Some rec => let m := with_disk (clear_paused id) m in let '(tok, m) := rearm id m in
          (true, spawn_receive id rec.(dr_ticket) rec.(dr_out_path) None tok None m)
      | None => (false, m) end).2) as Hfetch.
    { destruct (mg_disk m ≫= _) as [rec|]; [|done]. cbn zeta.
      destruct (rearm id (with_disk (clear_paused id) m)) as [tok m2] eqn:Er.
      assert (kf id m m2 ∧ m2.(mg_held) = m.(mg_held)) as [F Hh].
      { unfold rearm, new_token in Er. injection Er as _ <-. unfold emit_progress_now.
        set (m3 := set_status_live id Active _).
        assert (kf id m m3) as F.
        { apply kf_upd_row. apply (kf_kcore _ _ (with_disk (clear_paused id) m)); [done|].
          kf_step. apply kf_refl. }
        destruct (mg_transfers m3 !! id); [|done]. split; [by apply kf_emit|done]. }
      apply (kinv_unheld cf id m); [done| |].
      - cbn [snd]. unfold spawn_receive. apply kf_spawn; [|done]. intros _. cbn [task_id]. by rewrite Hh.
      - cbn. by rewrite Hh. }
    by destruct (None ≫= h_relay), (cf_relay cf).
Qed.

Lemma kcore_on_offer offer m : kcore (on_offer (A := A) cf offer m) = kcore m.
Proof.
  unfold on_offer. destruct (download_of_same_content _ _ _) as [on|]; [|done].
  assert (kcore (take_offers_for_same_content (A := A) (of_ticket (ro_offer offer)) m).2 = kcore m) as Hc
    by (unfold take_offers_for_same_content; by destruct (ticket_content _)).
  destruct (take_offers_for_same_content _ _) as [ghosts m1]. cbn in Hc.
  destruct (status_is_paused on m); [done|]. rewrite <- Hc. clear Hc.
  generalize (ghosts ++ [ro_id offer]) as ids. intros ids. revert m1.
  induction ids as [|i ids IH]; intros m1; [done|]. cbn [foldl]. by rewrite IH, kcore_ack.
Qed.

Lemma kinv_accept now offer_id out password m :
  kinv cf m → minv m → kinv cf (accept_offer (A := A) cf now offer_id out password m).2.
Proof.
  intros Hk Hm. unfold accept_offer. destruct (refused _ _ _ _); [done|].
  destruct (mg_pending m !! offer_id) as [offer|]; [|done].
  set (m1 := m <| mg_pending ::= _ |>). assert (kinv cf m1) as Hk1 by by apply (kinv_kcore cf m).
  assert (minv m1) as Hm1 by by apply (minv_core m).
  clearbody m1. cbn zeta. destruct (accept_path _ _ _) as [path|]; [|done].
  set (m2 := if negb _ then m1 else _). assert (kinv cf m2) as Hk2.
  { unfold m2. destruct (negb _); [done|]. apply (kinv_kcore cf m1); [done|apply kcore_ack]. }
  assert (minv m2) as Hm2.
  { unfold m2. destruct (negb _); [done|]. apply (minv_core m1); [apply core_ack|done]. }
  clearbody m2.
  assert (∀ c b id m3, kinv cf m3 → kinv cf (carry_sender_name c b id m3)) as Hc.
  { intros c b id m3 Hk3. unfold carry_sender_name. destruct (bool_decide _); [done|].
    apply (kinv_all cf m3 _ Hk3). intros i. apply kf_plain; [|apply kf_refl].
    intros t. destruct (_ && _); repeat split; reflexivity. }
  destruct (download_of_same_content _ _ _) as [on|]; cbn [snd].
  - apply Hc. destruct (status_is_paused on m2); [by apply kinv_resume|done].
  - pose proof (kinv_start_download now (of_ticket (ro_offer offer)) path (Some (ro_sender offer))
      (of_name (ro_offer offer)) (of_size (ro_offer offer)) password
      (if negb (looks_like (of_ticket (ro_offer offer))) then Some offer_id else None) m2 Hk2) as H3.
    destruct (start_download _ _ _ _ _ _ _ _ _) as [id m3]. by apply Hc.
Qed.

Lemma kcore_pause id m : kcore (pause id m).2 = kcore m.
Proof.
  assert (∀ m1, kcore (fire_row id m1) = kcore m1) as Hf by (intros m1; unfold fire_row; by destruct (_ !! id)).
  unfold pause. destruct (mg_transfers m !! id) as [t|]; [|done]. destruct (negb _); [done|].
  destruct (bool_decide _); [cbn [snd]; rewrite Hf; by apply kcore_flags|].
  destruct (_ && _); [|done]. cbn [snd]. rewrite Hf.
  transitivity (kcore (with_disk (mark_paused id) m)); [done|]. by apply kcore_disk.
Qed.

Lemma kinv_cancel id m : kinv cf m → minv m → kinv cf (cancel id m).2.
Proof.
  intros Hk Hm. unfold cancel. destruct (mg_transfers m !! id) as [t|] eqn:Et; [|done].
  assert (kinv cf (finish id true (Ok None) m)) as Hfin.
  { apply (kinv_unheld cf id m); [done|apply kf_finish, kf_refl|apply finish_unheld]. }
  assert (kinv cf (match mg_cancels m !! id with
    | Some tok => (true, fire tok m) | None => (true, finish id true (Ok None) m) end).2) as Hlive.
  { destruct (mg_cancels m !! id); [by apply (kinv_kcore cf m)|done]. }
  destruct (tr_status t); try done. cbn [snd].
  apply (kinv_all cf m _ Hk). intros i. apply kf_spawn_detached; [done|apply kf_refl].
Qed.

Lemma kinv_op now op m :
  (∀ fresh l, op ≠ OpRestart fresh l) → kinv cf m → minv m → kinv cf (op_step (A := A) cf fs now op m).
Proof.
  intros Hop Hk Hm. destruct op; cbn [op_step].
  - by apply kinv_send_to.
  - by apply kinv_start_deposit.
  - by apply kinv_create_link.
  - by apply kinv_start_share.
  - by apply kinv_start_download.
  - apply (kinv_kcore cf m); [done|apply kcore_on_offer].
  - by apply kinv_accept.
  - apply (kinv_kcore cf m); [done|]. unfold reject_offer. by rewrite kcore_ack.
  - by apply kinv_cancel.
  - apply (kinv_kcore cf m); [done|apply kcore_pause].
  - by apply kinv_resume.
  - apply (kinv_kcore cf m); [done|]. unfold deposit_now. destruct (negb _); [done|].
    destruct (mg_held m !! id) as [h|]; [|done]. cbn [snd].
    transitivity (kcore (upd_held id (fun h => h <| h_deposit_now := true |>) m)); [by destruct (h_attempt h)|].
    by apply kcore_flags.
  - unfold remove. destruct (mg_transfers m !! id); [|done]. destruct (is_terminal _); [|done].
    apply (kinv_all cf m _ Hk). intros i. apply kf_rows; [|apply kf_refl]. intros j.
    destruct (decide (j = id)) as [->|Hj]; [right; apply lookup_delete_eq|left; by apply lookup_delete_ne].
  - unfold clear_finished. cbn [snd].
    assert (kinv cf (m <| mg_transfers ::= filter (fun p => clear_keeps p.2.(tr_status)) |>)) as Hk1.
    { apply (kinv_all cf m _ Hk). intros i. apply kf_rows; [|apply kf_refl]. intros j.
      rewrite map_lookup_filter. destruct (mg_transfers m !! j) as [t|]; [|by left]. cbn.
      case_guard; [by left|by right]. }
    destruct (_ <? _)%nat; [|exact Hk1]. by apply (kinv_kcore cf _ _ Hk1).
  - unfold adopt_finished. destruct (negb _) eqn:Ht; [done|]. cbn [snd].
    set (t := new_row _ _ _ _ _ _ <| tr_transferred := _ |> <| tr_status := _ |> <| tr_path := _ |> <| tr_saved_uri := _ |>).
    apply (kinv_all cf m _ Hk). intros i. split; [cbn; lia| |done|done].
    intros j _. destruct (decide (j = mg_next_id m)) as [->|Hj].
    + split_and!; [done|done|]. left. unfold held_view. cbn. by rewrite (kinv_fresh cf m) by (done || lia).
    + split_and!; [done|done|right]. split; [done|]. unfold on_hold. cbn.
      destruct (prune_same MAX_FINISHED_RETAINED (<[mg_next_id m:=t]> (mg_transfers m)) j) as [-> | ->]; [right|by left].
      by rewrite lookup_insert_ne.
  - unfold suspend_running. apply (foldl_inv (fun p => kinv cf p.2)); [|done].
    intros [stopped m1] id Hk1. unfold suspend_one. cbn [fst snd] in *.
    pose proof (kinv_kcore cf m1 _ Hk1 (kcore_pause id m1)) as Hp. destruct (pause id m1) as [paused m2]. cbn in Hp.
    destruct paused; [|done]. cbn. destruct (match mg_disk m2 with Some _ => _ | None => _ end); [|done].
    apply (kinv_kcore cf m2); [done|]. by apply kcore_disk.
  - unfold resume_suspended. destruct (mg_disk m); [|done].
    apply (foldl_inv (fun p => kinv cf p.2 ∧ minv p.2)); [|done]. intros [restarted m1] id [Hk1 Hm1]. cbn in Hk1, Hm1.
    case_decide; [|done]. pose proof (kinv_resume id m1 Hk1 Hm1) as Hr. pose proof (inv_resume cf id m1 Hm1) as Hr2.
    destruct (resume cf id m1) as [r m2]. by destruct r.
  - by destruct (Hop fresh l).
Qed.
End calls.

(** ** Any run of one life of the manager *)

(** A step that is not a start again. *)
Definition no_restart (h : Happening) : Prop := ∀ fresh l, h.(ha_event) ≠ Call (OpRestart fresh l).

Section steps.
Context {A : Type} `{!Base32Text, !Wire (ChunkTicket A), !Wire OfflineTicket, !Wire OfflineWireV1,
  !Blake3Hash, !HexLower, !PublicIdParse}.
Context (cf : Config) (stage_path : string → string).

Lemma kinv_task fs tok t e m m' :
  minv m → kinv cf m → m.(mg_tasks) !! tok = Some t →
  task_step (A := A) cf stage_path fs tok t e m = Some m' → kinv cf m'.
Proof.
  intros Hm Hk E Hstep. pose proof (drives_of m tok t E) as Hd. pose proof (proj2 Hk tok t E) as Hun.
  destruct t, e; try done; cbn [task_step task_id] in *.
  - eapply kinv_deliver; [done|by apply Hd|done|done].
  - specialize (Hun eq_refl). pose proof (kf_fetch cf stage_path m tok id Hk Hun _ _ _ Hstep) as F.
    apply (kinv_unheld cf id m); [done|done|by apply (kf_held _ _ _ F)].
  - specialize (Hun eq_refl). pose proof (kf_run_link fs m tok id Hun _ _ _ Hstep) as F.
    apply (kinv_unheld cf id m); [done|done|by apply (kf_held _ _ _ F)].
  - specialize (Hun eq_refl). pose proof (kf_run_deposit cf fs m tok id Hun _ _ _ Hstep) as F.
    apply (kinv_unheld cf id m); [done|done|by apply (kf_held _ _ _ F)].
  - specialize (Hun eq_refl). pose proof (kf_share cf m tok id Hun _ _ _ Hstep) as F.
    apply (kinv_unheld cf id m); [done|done|by apply (kf_held _ _ _ F)].
  - apply (inj Some) in Hstep as <-. by apply kinv_watch.
  - apply (inj Some) in Hstep as <-. by apply kinv_withdraw.
  - by eapply kinv_code.
Qed.

Lemma kinv_new_manager disk : kinv cf (new_manager disk).
Proof. split; [|done]. intros j. by apply kloc_unheld. Qed.

Lemma kinv_run disk hs m :
  Forall no_restart hs → run (A := A) cf stage_path hs (new_manager disk) = Some m → kinv cf m ∧ minv m.
Proof.
  intros Hok Hrun.
  refine (run_keeps cf stage_path no_restart (fun m => kinv cf m ∧ minv m) hs (new_manager disk) m _ Hok _ Hrun).
  - intros h m1 m2 Hh [Hk Hm] Hstep. split; [|by eapply inv_step].
    unfold step in Hstep. unfold no_restart in Hh. destruct (ha_event h) as [op|tok e].
    + apply (inj Some) in Hstep as <-. apply kinv_op; [|done|done]. intros fresh l ->. by eapply Hh.
    + destruct (mg_tasks m1 !! tok) as [t|] eqn:E; [|done]. by eapply kinv_task.
  - split; [apply kinv_new_manager|apply inv_new].
Qed.
End steps.
