(* ===== verification/RestartFacts.v ===== *)
(** * A send outlives a crash

    Starting again never disturbs what it has already brought back, so every send on disk
    is on the list afterwards; with [HeldSteps], every send that was on the list is. *)
From S2P Require Import Prelude.
From S2P Require Import Text.
From S2P Require Import SyncTypes.
From S2P Require Import Store.
From S2P Require Import Link.
From S2P Require Import UploadClient.
From S2P Require Import Seeds.
From S2P Require Import Tickets.
From S2P Require Import Transfers.
From S2P Require Import Records.
From S2P Require Import ManagerState.
From S2P Require Import Manager.
From S2P Require Import Watching.
From S2P Require Import Uploading.
From S2P Require Import Delivery.
From S2P Require Import Landing.
From S2P Require Import Receiving.
From S2P Require Import Sharing.
From S2P Require Import Restart.
From S2P Require Import ManagerRuns.
From S2P Require Import ManagerFrames.
From S2P Require Import ManagerInv.
From S2P Require Import ManagerSteps.
From S2P Require Import ManagerFacts.
From S2P Require Import HeldInv.
From S2P Require Import HeldSteps.
Local Open Scope Z_scope.

(** ** Older transfers are left alone *)

Section above.
Context (n : Z) (m : Manager).

(** Ids below [n]: held sends, tasks and unfinished rows are as they were in [m]. *)
Record above (m1 : Manager) : Prop := {
  ab_next : n <= m1.(mg_next_id);
  ab_held : ∀ j, j < n → m1.(mg_held) !! j = m.(mg_held) !! j;
  ab_rows : ∀ j t, j < n → m.(mg_transfers) !! j = Some t → is_terminal t.(tr_status) = false →
    m1.(mg_transfers) !! j = Some t }.

Lemma above_same m1 m2 :
  m2.(mg_next_id) = m1.(mg_next_id) → m2.(mg_held) = m1.(mg_held) → m2.(mg_transfers) = m1.(mg_transfers) →
  above m1 → above m2.
Proof. intros E1 E2 E3 [A1 A2 A3]. split; rewrite ?E1, ?E2, ?E3; done. Qed.
Lemma above_disk f m1 : above m1 → above (with_disk f m1).
Proof. by apply above_same. Qed.
Lemma above_emit ev m1 : above m1 → above (emit ev m1).
Proof. by apply above_same. Qed.
Lemma above_net c m1 : above m1 → above (net c m1).
Proof. by apply above_same. Qed.
Lemma above_spawn tok t m1 : above m1 → above (spawn tok t m1).
Proof. by apply above_same. Qed.
Lemma above_aside t m1 : above m1 → above (spawn_detached t m1).
Proof. by apply above_same. Qed.
Lemma above_drop_token id m1 : above m1 → above (drop_token id m1).
Proof. by apply above_same. Qed.
Lemma above_row id f m1 : n <= id → above m1 → above (upd_row id f m1).
Proof.
  intros Hid [A1 A2 A3]. split; [done|done|]. intros j t Hj E Ht. cbn. rewrite lookup_alter_ne by lia. auto.
Qed.
Lemma above_status id s m1 : n <= id → above m1 → above (set_status id s m1).
Proof. intros Hid A. apply (above_same (upd_row id (fun t => clear_waiting_code (t <| tr_status := s |>)) m1)); try done. by apply above_row. Qed.
Lemma above_hold id h m1 : n <= id → above m1 → above (m1 <| mg_held ::= <[id := h]> |>).
Proof. intros Hid [A1 A2 A3]. split; [done| |done]. intros j Hj. cbn. rewrite lookup_insert_ne by lia. auto. Qed.
Lemma above_persist_held id p why m1 : above m1 → above (persist_held_record id p why m1).
Proof. intros A. unfold persist_held_record. destruct (_ !! id); [by apply above_disk|done]. Qed.
Lemma above_forget id b m1 : above m1 → above (forget id b m1).
Proof.
  intros A. assert (above (with_disk (remove_upload_record id) (m1 <| mg_uploads ::= delete id |>))) as A1
    by by apply (above_same m1).
  unfold forget. destruct b; [|done]. destruct (mg_uploads m1 !! id ≫= rs_session); [by apply above_net|done].
Qed.
Lemma above_remember fs id r s m1 : above m1 → above (remember fs id r s m1).
Proof.
  intros A. assert (above (persist_upload fs id r s m1)) as A1.
  { unfold persist_upload. destruct s as [path|]; [|done]. destruct (negb _); [done|].
    destruct (fs_stamp fs path); [by apply above_disk|done]. }
  by apply (above_same (persist_upload fs id r s m1)).
Qed.
Lemma above_finish id c r m1 : n <= id → above m1 → above (finish id c r m1).
Proof.
  intros Hid A. unfold finish. set (m2 := forget id true _ <| mg_download_content ::= _ |>).
  assert (above m2) as A2.
  { apply (above_same (forget id true (drop_held id (with_disk (fun d => remove_pending_share id (remove_share id
      (remove_send id (remove_download id d)))) m1)))); try done. apply above_forget. unfold drop_held.
    apply above_disk. destruct A as [A1 A2 A3]. split; [done| |done].
    intros j Hj. cbn. rewrite lookup_delete_ne by lia. auto. }
  clearbody m2. destruct r as [path|e]; [|by apply above_emit, above_row, above_status].
  destruct c; [by apply above_emit, above_status|]. apply above_emit, above_status; [done|].
  destruct path; [by apply above_row|done].
Qed.
Lemma above_register now d p nm t m1 id tok m2 :
  register now d p nm t m1 = (id, tok, m2) → above m1 → above m2 ∧ n <= id.
Proof.
  intros Hr [A1 A2 A3]. unfold register, new_token in Hr. injection Hr as <- <- <-.
  split; [|lia]. split; [cbn; lia|done|]. intros j row Hj E Ht. cbn. apply prune_lookup; [|done].
  rewrite lookup_insert_ne by lia. auto.
Qed.
End above.

Lemma above_refl m : above m.(mg_next_id) m m.
Proof. by split. Qed.

Section restart.
Context {A : Type} `{!Base32Text, !Wire (ChunkTicket A), !Wire OfflineTicket, !Wire OfflineWireV1,
  !Blake3Hash, !HexLower, !PublicIdParse}.
Context (cf : Config) (fs : Fs) (now : Z).

Section older.
Context (n : Z) (m : Manager).

Lemma above_take_upload id payload m1 : above n m m1 → above n m (take_upload_record fs id payload m1).2.
Proof.
  intros Ab. unfold take_upload_record. destruct (mg_disk m1) as [d|]; [|done].
  destruct (dk_uploads d !! id); [|by apply above_disk]. case_decide; [by apply above_disk|]. cbn [snd].
  unfold abandon. destruct (ur_session _); by apply (above_same _ _ m1).
Qed.

Lemma above_sendto r m1 : above n m m1 → above n m (resume_sendto cf fs now m1 r).
Proof.
  intros Ab. unfold resume_sendto, restore_sendto. cbn zeta. set (prep := _ ≫= load_prep _). clearbody prep.
  apply (above_disk _ _ (λ d, remove_sendto (st_id r) (remove_prep (st_id r) d))) in Ab.
  destruct (public_id _); [|done]. destruct (match st_relay r with Some _ => _ | None => _ end); [|done].
  destruct (register _ _ _ _ _ _) as [[id tok] m2] eqn:E.
  destruct (above_register _ _ _ _ _ _ _ _ _ _ _ E Ab) as [Ab2 L].
  pose proof (above_take_upload (st_id r) (st_payload r) m2 Ab2) as Ab3.
  destruct (take_upload_record _ _ _ _) as [upload m3]. cbn [snd] in Ab3.
  set (h := new_held _ _ _ _ _ _ _ _ _). clearbody h.
  apply (above_hold _ _ id h) in Ab3; [|exact L]. set (m4 := m3 <| mg_held ::= _ |>) in *. clearbody m4.
  set (m5 := match upload with Some _ => _ | None => m4 end).
  assert (above n m m5) as Ab5 by (unfold m5; destruct upload; [by apply above_remember|done]). clearbody m5.
  set (m6 := match prep with Some _ => _ | None => m5 end).
  assert (above n m m6) as Ab6.
  { unfold m6. destruct prep; [|done]. destruct (_ ≫= _); [by apply above_disk|done]. }
  clearbody m6. destruct (st_paused r).
  - apply above_emit, above_status; [done|]. by apply above_persist_held, above_drop_token.
  - by apply above_spawn, above_persist_held.
Qed.

Lemma above_link fresh r m1 : above n m m1 → above n m (resume_link fs now fresh m1 r).
Proof.
  intros Ab. unfold resume_link, restore_link.
  apply (above_disk _ _ (remove_link_record (lr_id r))) in Ab.
  pose proof (above_take_upload (lr_id r) (lr_payload r) _ Ab) as Ab3.
  destruct (take_upload_record _ _ _ _) as [resumed m3]. cbn [snd] in Ab3.
  destruct (match resumed with Some _ => _ | None => _ end) as [seal|e];
    destruct (register _ _ _ _ _ _) as [[id tok] m4] eqn:E;
    destruct (above_register _ _ _ _ _ _ _ _ _ _ _ E Ab3) as [Ab4 L].
  - by apply above_spawn, above_remember, above_disk.
  - by apply above_finish.
Qed.

Lemma above_pending_share r m1 : above n m m1 → above n m (resume_pending_share fs now m1 r).
Proof.
  intros Ab. unfold resume_pending_share, start_share.
  destruct (register _ _ _ _ _ _) as [[id tok] m2] eqn:E.
  destruct (above_register _ _ _ _ _ _ _ _ _ _ _ E (above_disk _ _ _ _ Ab)) as [Ab2 L]. cbn zeta. cbn [snd].
  apply above_spawn. destruct (ps_code r ≫= pending_code); [apply above_row; [done|]|];
    by apply above_disk, above_emit, above_row.
Qed.

Lemma above_note id ticket m1 : above n m m1 → above n m (note_download_content (A := A) id ticket m1).
Proof. intros Ab. unfold note_download_content. destruct (ticket_content ticket); [by apply (above_same _ _ m1)|done]. Qed.

Lemma above_download r m1 : above n m m1 → above n m (resume_download (A := A) now m1 r).
Proof.
  intros Ab. unfold resume_download. cbn zeta. apply (above_disk _ _ (remove_download (dr_id r))) in Ab.
  destruct (bool_decide _).
  - unfold restore_paused_download. destruct (register _ _ _ _ _ _) as [[id tok] m2] eqn:E.
    destruct (above_register _ _ _ _ _ _ _ _ _ _ _ E Ab) as [Ab2 L].
    by apply above_emit, above_status, above_disk, above_note, above_drop_token.
  - unfold start_download, spawn_receive. destruct (register _ _ _ _ _ _) as [[id tok] m2] eqn:E.
    destruct (above_register _ _ _ _ _ _ _ _ _ _ _ E Ab) as [Ab2 L]. cbn [snd].
    apply above_spawn. destruct (looks_like _); [by apply above_disk, above_note|done].
Qed.

Lemma above_share codes r m1 : above n m m1 → above n m (resume_share (A := A) now (codes, m1) r).2.
Proof.
  intros Ab. unfold resume_share. set (stats := match mg_disk m1 with Some _ => _ | None => _ end).
  clearbody stats. cbn zeta.
  apply (above_disk _ _ (λ d, remove_share (sr_id r) (remove_send (sr_id r) d))) in Ab.
  set (m2 := with_disk _ m1) in *. clearbody m2.
  assert (above n m (resume_serve (A := A) now r stats m2).2) as Ab3.
  { unfold resume_serve. destruct (resumable_key _); [|done]. destruct (negb _); [done|].
    destruct (register _ _ _ _ _ _) as [[id tok] m3] eqn:E.
    destruct (above_register _ _ _ _ _ _ _ _ _ _ _ E Ab) as [Ab3 L]. cbn [snd].
    apply above_spawn, above_disk. by apply above_row. }
  destruct (resume_serve now r stats m2) as [[new_id|] m3]; [|done]. cbn [snd] in *.
  destruct (codes !! _); [|done]. unfold resume_code. destruct (negb _); [done|by apply above_aside].
Qed.
End older.

(** ** A record comes back *)

Definition comes_back (r : SendToRecord) (m : Manager) : Prop :=
  ∃ id t h, m.(mg_transfers) !! id = Some t ∧ m.(mg_held) !! id = Some h ∧
    id < m.(mg_next_id) ∧ is_terminal t.(tr_status) = false ∧
    t.(tr_direction) = Send ∧ t.(tr_peer) = Some r.(st_recipient) ∧ t.(tr_name) = r.(st_name) ∧
    t.(tr_status) = (if r.(st_paused) then Paused r.(st_reason) else Active) ∧
    h.(h_source) = SourcePath r.(st_payload) ∧
    held_record id r.(st_paused) r.(st_reason) h = recorded id r.(st_paused) r.(st_reason) r.

Lemma comes_back_above r m m' :
  above m.(mg_next_id) m m' → comes_back r m → comes_back r m'.
Proof.
  intros [A1 A2 A3] (id & t & h & E1 & E2 & E3 & E4 & E5). exists id, t, h.
  split_and!; [by apply A3|by rewrite A2|lia|done|apply E5..].
Qed.

Lemma sendto_comes_back r m :
  public_id_ok r.(st_recipient) = true → is_Some r.(st_relay) ∨ is_Some cf.(cf_relay) →
  comes_back r (resume_sendto cf fs now m r).
Proof.
  intros Hp Hr. unfold resume_sendto, restore_sendto. cbn zeta. set (prep := _ ≫= load_prep _). clearbody prep.
  unfold public_id. rewrite Hp.
  assert (is_Some (match st_relay r with Some x => Some x | None => cf_relay cf end)) as [relay ->].
  { destruct (st_relay r); [by eexists|]. destruct Hr as [[? ?]|?]; done. }
  set (m0 := with_disk _ m). clearbody m0.
  destruct (register _ _ _ _ _ _) as [[id tok] m1] eqn:E.
  assert (∃ t, m1.(mg_transfers) !! id = Some t ∧ t.(tr_status) = Active ∧ t.(tr_direction) = Send ∧
    t.(tr_peer) = Some r.(st_recipient) ∧ t.(tr_name) = r.(st_name)) as (t & Et & Hst & Hd & Hpeer & Hname).
  { unfold register, new_token in E. injection E as <- <- <-. cbn.
    eexists. split; [apply prune_lookup; [apply lookup_insert_eq|done]|done]. }
  assert (id < m1.(mg_next_id)) as Hid by (unfold register, new_token in E; injection E as <- <- <-; cbn; lia).
  assert (∀ o, (take_upload_record fs (st_id r) (st_payload r) m1) = o →
    o.2.(mg_transfers) = m1.(mg_transfers) ∧ o.2.(mg_next_id) = m1.(mg_next_id)) as Htake.
  { intros o <-. pose proof (core_take_upload fs (st_id r) (st_payload r) m1) as (? & ? & _)%core_eq. done. }
  destruct (take_upload_record _ _ _ _) as [upload m2]. destruct (Htake _ eq_refl) as [Er2 En2]. cbn in Er2, En2.
  set (h := new_held _ _ _ _ _ _ _ _ _). set (m3 := m2 <| mg_held ::= <[id := h]> |>).
  set (m4 := match upload with Some _ => _ | None => m3 end).
  set (m5 := match prep with Some _ => _ | None => m4 end).
  assert (m5.(mg_transfers) = m1.(mg_transfers) ∧ m5.(mg_next_id) = m1.(mg_next_id) ∧ m5.(mg_held) !! id = Some h)
    as (Er5 & En5 & Eh5).
  { assert (m4.(mg_transfers) = m1.(mg_transfers) ∧ m4.(mg_next_id) = m1.(mg_next_id) ∧ m4.(mg_held) !! id = Some h)
      as (? & ? & ?).
    { unfold m4. destruct upload as [u|]; [|split_and!; [done|done|apply lookup_insert_eq]].
      rewrite (held_remember fs). pose proof (core_remember m3 fs id u (SourcePath (st_payload r))) as (-> & -> & _)%core_eq.
      split_and!; [done|done|apply lookup_insert_eq]. }
    unfold m5. destruct prep; [|done]. by destruct (_ ≫= _). }
  clearbody m5. destruct (st_paused r) eqn:Hpaused.
  - exists id, (clear_waiting_code (t <| tr_status := Paused (st_reason r) |>)), h.
    unfold persist_held_record, drop_token. cbn -[clear_waiting_code]. rewrite Eh5.
    cbn -[clear_waiting_code]. rewrite lookup_alter_eq, Er5, Et.
    rewrite Hpaused. split_and!; try done. lia.
  - exists id, t, h. unfold persist_held_record. rewrite Eh5. cbn. rewrite Er5, Et, Hst, Hpaused.
    split_and!; try done. lia.
Qed.

(** ** All of them *)

Lemma foldl_above {X} n m0 (f : Manager → X → Manager) xs m :
  (∀ x m1, above n m0 m1 → above n m0 (f m1 x)) → above n m0 m → above n m0 (foldl f m xs).
Proof. intros Hf. revert m. induction xs; cbn; auto. Qed.

Lemma foldl_sendto_comes_back r rs m :
  r ∈ rs → public_id_ok r.(st_recipient) = true → is_Some r.(st_relay) ∨ is_Some cf.(cf_relay) →
  comes_back r (foldl (resume_sendto cf fs now) m rs).
Proof.
  intros Hin Hp Hr. apply list_elem_of_split in Hin as (pre & post & ->). rewrite foldl_app. cbn [foldl].
  set (m1 := foldl _ m pre). pose proof (sendto_comes_back r m1 Hp Hr) as Hc.
  eapply comes_back_above; [|exact Hc]. apply foldl_above; [|apply above_refl].
  intros x m2. apply above_sendto.
Qed.

Lemma restart_comes_back fresh l m r d :
  mg_disk m = Some d → r ∈ l.(li_sendtos) → public_id_ok r.(st_recipient) = true →
  is_Some r.(st_relay) ∨ is_Some cf.(cf_relay) →
  comes_back r (resume_incomplete (A := A) cf fs now fresh l m).2.
Proof.
  intros Hdisk Hin Hp Hr. unfold resume_incomplete. rewrite Hdisk. cbn zeta. cbn [snd].
  set (m1 := sweep_preps _ _).
  pose proof (foldl_sendto_comes_back r (li_sendtos l) m1 Hin Hp Hr) as Hc.
  set (m2 := foldl (resume_sendto cf fs now) m1 (li_sendtos l)) in *. clearbody m2.
  eapply comes_back_above; [|exact Hc].
  assert (∀ codes m3, above m2.(mg_next_id) m2 m3 →
    above m2.(mg_next_id) m2 (foldl (resume_share (A := A) now) (codes, m3) (li_sends l)).2) as Hshares.
  { intros codes m3 Ab. apply (foldl_inv (fun p => above m2.(mg_next_id) m2 p.2)); [|done].
    intros [codes' m4] x Ab4. by apply above_share. }
  apply Hshares. apply foldl_above; [intros x m3; apply above_download|].
  unfold sweep_upload_records.
  set (m3 := foldl (resume_pending_share fs now) _ _).
  assert (above m2.(mg_next_id) m2 m3) as Ab.
  { apply foldl_above; [intros x m4; apply above_pending_share|].
    apply foldl_above; [intros x m4; apply above_link|]. apply above_refl. }
  clearbody m3. destruct (mg_disk m3); [|done]. apply foldl_above; [|done].
  intros x m4 Ab4. apply (above_disk _ _ (remove_upload_record (ur_id x))) in Ab4.
  unfold abandon. destruct (ur_session x); [by apply above_net|done].
Qed.
End restart.

Section claims.
Context {A : Type} `{!Base32Text, !Wire (ChunkTicket A), !Wire OfflineTicket, !Wire OfflineWireV1,
  !Blake3Hash, !HexLower, !PublicIdParse}.

End claims.
