(* ===== verification/DeliveryFacts.v ===== *)
(** * What a delivery guarantees *)
From S2P Require Import Prelude.
From S2P Require Import SyncTypes.
From S2P Require Import Store.
From S2P Require Import Link.
From S2P Require Import UploadClient.
From S2P Require Import Seeds.
From S2P Require Import Tickets.
From S2P Require Import Transfers.
From S2P Require Import Records.
From S2P Require Import ManagerState.
From S2P Require Import Manager.
From S2P Require Import Watching.
From S2P Require Import Uploading.
From S2P Require Import Delivery.
From S2P Require Import ManagerRuns.
From S2P Require Import ManagerFrames.
From S2P Require Import ManagerInv.
From S2P Require Import ManagerSteps.
From S2P Require Import ManagerFacts.
Local Open Scope Z_scope.

(** ** What a step does to the loop and to the network *)

(** The network calls of a step, newest first. *)
Definition calls (m m' : Manager) (cs : list NetCall) : Prop := m'.(mg_net) = cs ++ m.(mg_net).

(** [quiet_net P m m']: from [m] to [m'] all calls satisfy [P]. *)
Definition quiet_net (P : NetCall → Prop) (m m' : Manager) : Prop := ∃ cs, calls m m' cs ∧ Forall P cs.

Section net.
Context (P : NetCall → Prop).
Lemma qn_refl m : quiet_net P m m.
Proof. exists []. by split. Qed.
Lemma qn_trans m m1 m2 : quiet_net P m m1 → quiet_net P m1 m2 → quiet_net P m m2.
Proof.
  intros (c1 & E1 & H1) (c2 & E2 & H2). exists (c2 ++ c1). unfold calls in *.
  rewrite E2, E1, app_assoc. split; [done|by apply Forall_app].
Qed.
Lemma qn_same m m1 m2 : m2.(mg_net) = m1.(mg_net) → quiet_net P m m1 → quiet_net P m m2.
Proof. intros E (cs & E1 & Hc). exists cs. unfold calls in *. by rewrite E. Qed.
Lemma qn_net c m m1 : P c → quiet_net P m m1 → quiet_net P m (net c m1).
Proof. intros Hc (cs & E1 & Hcs). exists (c :: cs). unfold calls in *. cbn. rewrite E1. split; [done|by constructor]. Qed.
End net.

(** What never leaves the payload on a relay. *)
Definition no_relay (c : NetCall) : Prop :=
  match c with NetUpload _ _ | NetSeed _ _ => False | _ => True end.

Lemma net_forget id b m : quiet_net no_relay m (forget id b m).
Proof.
  unfold forget. assert (quiet_net no_relay m (with_disk (remove_upload_record id) (m <| mg_uploads ::= delete id |>))) as Hq
    by by apply (qn_same _ m m); [|apply qn_refl].
  destruct b; [|done]. destruct (_ ≫= rs_session); [by apply qn_net|done].
Qed.
Lemma net_persist_upload fs id r s m : mg_net (persist_upload fs id r s m) = mg_net m.
Proof. unfold persist_upload. destruct s; [|done]. destruct (negb _); [done|]. by destruct (fs_stamp _ _). Qed.
Lemma net_remember fs id r s m : mg_net (remember fs id r s m) = mg_net m.
Proof. exact (net_persist_upload fs id r s m). Qed.
Lemma net_finish id c r m : quiet_net no_relay m (finish id c r m).
Proof.
  unfold finish. set (m1 := with_disk _ m). pose proof (net_forget id true (drop_held id m1)) as Hq.
  assert (quiet_net no_relay m (forget id true (drop_held id m1))) as Hq1.
  { eapply qn_trans; [|exact Hq]. by apply (qn_same _ m m); [|apply qn_refl]. }
  set (m2 := forget id true (drop_held id m1)) in *. clearbody m2.
  destruct r as [[path|]|e]; [destruct c..|]; by apply (qn_same _ m m2).
Qed.
Lemma net_persist_held id p why m : mg_net (persist_held_record id p why m) = mg_net m.
Proof. unfold persist_held_record. by destruct (mg_held m !! id). Qed.
Lemma net_set_paused id why m : mg_net (set_paused id why m) = mg_net m.
Proof. exact (net_persist_held id true why m). Qed.
Lemma net_handle_stop id m : quiet_net no_relay m (handle_stop id m).
Proof.
  unfold handle_stop. destruct (pause_asked id m); [|apply net_finish].
  apply (qn_same _ m m); [apply net_set_paused|apply qn_refl].
Qed.
Lemma net_session fs id s p m : mg_net (session_changed fs id s p m) = mg_net m.
Proof. unfold session_changed. destruct (mg_uploads m !! id); [|done]. by rewrite net_persist_upload. Qed.
Lemma net_persist_prep fs id s b m : mg_net (persist_prep_record fs id s b m) = mg_net m.
Proof.
  unfold persist_prep_record. destruct b; [|done]. destruct (fs_stamp _ _); [|done].
  destruct (held_prep _ _); [|done]. by case_decide.
Qed.
Lemma net_waiting id r m : mg_net (set_waiting id r m) = mg_net m.
Proof. reflexivity. Qed.
Lemma net_mailbox_seal fs id s fresh m : quiet_net no_relay m (mailbox_seal fs id s fresh m).2.
Proof.
  unfold mailbox_seal. destruct (fs_len fs s); [|apply qn_refl].
  assert (∀ r m1, quiet_net no_relay m m1 → quiet_net no_relay m (remember fs id r s m1)) as Hr
    by (intros r m1; apply qn_same, net_remember).
  destruct (mg_uploads m !! id) as [[[?|seal] ses]|]; [destruct fresh| |destruct fresh];
    cbn -[remember forget]; try (apply qn_refl); try (by apply Hr, qn_refl).
  case_match; cbn -[remember forget]; [apply qn_refl|].
  destruct fresh; cbn -[remember forget]; [apply Hr|]; apply net_forget.
Qed.

(** ** What a step keeps of its delivery *)

(** The relay is closed to this delivery: direct only, refused for its size, or its
    pieces are already there. *)
Definition relay_closed (d : Delivery) : bool := d.(dl_live_only) || d.(dl_too_big) || d.(dl_offloaded).
Definition at_relay (pc : DeliverPc) : bool := match pc with AtPark | AtDeposit _ => true | _ => false end.
Definition clean (d : Delivery) : Prop := relay_closed d = true → at_relay d.(dl_pc) = false.

(** The step read that the standing offer is gone, or could not read it before serving. *)
Definition read_gone (e : DeliverEvent) : bool :=
  match e with DvOffer _ (Some OfferGone | None) _ | DvWait _ (Some OfferGone) => true | _ => false end.

(** The withdrawal of the offer that stands. *)
Definition retract_of (d : Delivery) (s : StandingOffer) : NetCall :=
  NetRetract d.(dl_relay) d.(dl_recipient) s.(so_posted).(po_id) s.(so_posted).(po_poster_token).

Section kept.
Context (cf : Config) (fs : Fs) (tok : nat) (id : Z) (d : Delivery) (e : DeliverEvent).

(** What [d1] keeps of [d]: the relay stays closed, the time to give up, the addressee,
    and the standing offer unless it was read as gone. *)
Record kin (d1 : Delivery) : Prop := mkKin {
  kin_closed : relay_closed d = true → relay_closed d1 = true;
  kin_give_up : d.(dl_pc) ≠ AtStart → d1.(dl_give_up_at) = d.(dl_give_up_at);
  kin_relay : d1.(dl_relay) = d.(dl_relay);
  kin_recipient : d1.(dl_recipient) = d.(dl_recipient);
  kin_offer : ∀ s, d.(dl_standing) = Some s →
    read_gone e = true ∨ ∃ s', d1.(dl_standing) = Some s' ∧ s'.(so_posted) = s.(so_posted) }.

(** A call that may be made, and a loop that may follow. *)
Definition may (c : NetCall) : Prop := relay_closed d = true → no_relay c.
Record next (d' : Delivery) : Prop := mkNext {
  next_kin : kin d'; next_clean : clean d'; next_started : d'.(dl_pc) ≠ AtStart }.
Definition withdrawn (cs : list NetCall) : Prop :=
  ∀ s, d.(dl_standing) = Some s → read_gone e = true ∨ retract_of d s ∈ cs.

(** From [m] to [m'] the calls may be made; the loop is over and its offer withdrawn, or
    it goes on as it may. *)
Definition steps (m m' : Manager) : Prop :=
  ∃ cs, calls m m' cs ∧ Forall may cs ∧
    (m'.(mg_tasks) !! tok = None ∧ withdrawn cs ∨
     ∃ d', m'.(mg_tasks) !! tok = Some (TaskDeliver id d') ∧ next d').

Lemma may_quiet c : no_relay c → may c.
Proof. by intros ? ?. Qed.
#[local] Hint Resolve may_quiet : core.
Lemma qn_may m m1 : quiet_net no_relay m m1 → quiet_net may m m1.
Proof. intros (cs & E & Hc). exists cs. split; [done|]. eapply Forall_impl; [exact Hc|exact may_quiet]. Qed.

Lemma kin_refl : kin d.
Proof. split; try done. intros s Hs. right. by exists s. Qed.
(** Only these fields matter. *)
Lemma kin_same d1 d2 :
  kin d1 → relay_closed d2 = relay_closed d1 → d2.(dl_give_up_at) = d1.(dl_give_up_at) →
  d2.(dl_relay) = d1.(dl_relay) → d2.(dl_recipient) = d1.(dl_recipient) →
  d2.(dl_standing) = d1.(dl_standing) → kin d2.
Proof. intros [] E1 E2 E3 E4 E5. split; rewrite ?E1, ?E2, ?E3, ?E4, ?E5; auto. Qed.

(** The ways on and out of the loop. *)
Lemma steps_goto pc d1 m m1 :
  quiet_net may m m1 → at_relay pc = false → pc ≠ AtStart → kin d1 → steps m (goto tok id pc d1 m1).
Proof.
  intros (cs & Hcs & Hq) Hpc Hs K. exists cs. split_and!; [done|done|]. right. eexists. split; [apply lookup_insert_eq|].
  split; [by apply kin_same with d1|intros _; exact Hpc|exact Hs].
Qed.
Lemma steps_open pc d1 m m1 :
  quiet_net may m m1 → relay_closed d1 = false → pc ≠ AtStart → kin d1 → steps m (goto tok id pc d1 m1).
Proof.
  intros (cs & Hcs & Hq) Hd1 Hs K. exists cs. split_and!; [done|done|]. right. eexists. split; [apply lookup_insert_eq|].
  split; [by apply kin_same with d1| |exact Hs]. unfold clean, relay_closed in *. cbn. congruence.
Qed.
Lemma steps_leave d1 m m1 : quiet_net may m m1 → kin d1 → steps m (leave tok d1 m1).
Proof.
  intros (cs & Hcs & Hq) K. unfold calls in Hcs. unfold leave.
  exists (match dl_standing d1 with Some s => retract_of d1 s :: cs | None => cs end). split_and!.
  - unfold calls. destruct (dl_standing d1); cbn; by rewrite Hcs.
  - destruct (dl_standing d1); [|done]. constructor; [by apply may_quiet|done].
  - left. split; [unfold end_task; cbn; apply lookup_delete_eq|].
    intros s Hs. destruct (kin_offer _ K s Hs) as [?|(s' & -> & Hp)]; [by left|right].
    apply elem_of_cons. left. unfold retract_of. by rewrite (kin_relay _ K), (kin_recipient _ K), Hp.
Qed.
Lemma steps_stop d1 m m1 : quiet_net may m m1 → kin d1 → steps m (stop tok id d1 m1).
Proof. intros Hq K. apply steps_leave; [|done]. eapply qn_trans; [exact Hq|]. apply qn_may, net_handle_stop. Qed.
Lemma steps_die err d1 m m1 : quiet_net may m m1 → kin d1 → steps m (die tok id err d1 m1).
Proof. intros Hq K. apply steps_leave; [|done]. eapply qn_trans; [exact Hq|]. apply qn_may, net_finish. Qed.

(** ** Branch by branch *)

#[local] Hint Resolve qn_refl kin_refl : core.
Ltac kin1 := first [done | by (eapply kin_same; [eassumption|..]) | by (eapply kin_same; [exact kin_refl|..])].

Lemma steps_deposit_failed now err d1 m m1 :
  quiet_net may m m1 → kin d1 → steps m (Delivery.deposit_failed tok id now err d1 m1).
Proof.
  intros Hq K. destruct err; cbn [Delivery.deposit_failed]; try (apply steps_goto; [exact Hq|done|done|kin1]).
  - apply steps_goto; [exact Hq|done|done|]. destruct K as [Kc Kg Kr Kt Ko]. split; try done.
    intros _. unfold relay_closed. cbn. by rewrite orb_true_r.
  - by apply steps_die.
Qed.

Lemma net_deposit_begin relay payload opts fresh m :
  quiet_net (fun _ => True) m (deposit_begin fs id relay payload opts fresh m).2.
Proof.
  unfold deposit_begin. pose proof (net_mailbox_seal fs id payload fresh m) as (cs & E & _).
  destruct (mailbox_seal fs id payload fresh m) as [[[seal ses]|err] m1]; cbn in E |- *.
  - exists (NetUpload relay id :: cs). unfold calls in *. cbn. rewrite E. split; [done|]. by apply Forall_true.
  - exists cs. split; [done|]. by apply Forall_true.
Qed.

(** With the relay open every call may be made. *)
Lemma open_may m m1 : relay_closed d = false → quiet_net (fun _ => True) m m1 → quiet_net may m m1.
Proof. intros Ho (cs & E & _). exists cs. split; [done|]. apply Forall_true. intros c Hc. congruence. Qed.
Lemma kin_open d1 : kin d1 → relay_closed d1 = false → relay_closed d = false.
Proof. intros K Hd1. destruct (relay_closed d) eqn:Ho; [|done]. by rewrite (kin_closed _ K) in Hd1. Qed.

Lemma steps_maybe_deposit park now fresh d1 m m1 :
  quiet_net may m m1 → kin d1 → steps m (maybe_deposit cf fs tok id park now fresh d1 m1).
Proof.
  intros Hq K. unfold maybe_deposit. destruct (_ && _) eqn:Hguard; [|by apply steps_goto].
  assert (relay_closed d1 = false) as Hd1.
  { unfold relay_closed. rewrite !andb_true_iff, !negb_true_iff in Hguard. by destruct Hguard as [[[-> ->] ->] _]. }
  pose proof (net_deposit_begin (deposit_relay cf d1) (dl_source d1) (fallback_opts id m1) fresh m1) as Hn.
  apply open_may in Hn; [|by eapply kin_open].
  destruct (deposit_begin _ _ _ _ _ _ _) as [[phase|err] m2]; cbn in Hn.
  - apply steps_open; [by eapply qn_trans|done|done|done].
  - apply steps_deposit_failed; [by eapply qn_trans|done].
Qed.

Lemma steps_top now beacon m : steps m (deliver_top cf fs tok id now beacon d m).
Proof.
  unfold deliver_top. destruct (is_cancelled tok m); [by apply steps_stop|].
  destruct (_ <=? now); [apply steps_leave; [|done]; apply (qn_same _ m m); [apply net_set_paused|done]|].
  assert (kin (probe_online cf now beacon d).2) as K.
  { unfold probe_online. destruct (negb _); [done|]. destruct (dl_proven_present d); kin1. }
  destruct (probe_online cf now beacon d) as [[] d1]; cbn in K; [|by apply steps_goto].
  unfold live_begin. destruct (negb _); apply steps_goto; try done. exact (qn_refl may m).
Qed.

Lemma steps_prepared fresh before r prep m : steps m (live_prepared fs tok id fresh before r prep d m).
Proof.
  unfold live_prepared. pose proof (qn_refl may m) as Q. destruct r as [s|err]; [|by apply steps_die].
  apply steps_goto; [|done|done|kin1]. destruct fresh; [|exact Q].
  eapply qn_same; [apply net_persist_prep|exact Q].
Qed.

Lemma steps_serve now s d1 m m1 : quiet_net may m m1 → kin d1 → steps m (live_serve tok id now s d1 m1).
Proof. intros Hq K. unfold live_serve, new_token. apply steps_goto; [exact Hq|done|done|done]. Qed.

Lemma kin_reread d1 now status post :
  e = DvOffer now status post → d1 = d <| dl_standing ::= fun so => so ≫= reread_standing status |> → kin d1.
Proof.
  intros He ->. split; try done. intros s Hs. cbn. rewrite He, Hs. cbn.
  destruct status as [[]|]; cbn; first [by left|right; by eexists].
Qed.
Lemma steps_post now status post s m :
  e = DvOffer now status post → steps m (live_post cf tok id now status post s d m).
Proof.
  intros He. unfold live_post. set (d1 := d <| dl_standing ::= _ |>).
  assert (kin d1) as K by by eapply kin_reread. clearbody d1.
  destruct (dl_standing d1) eqn:Hd1; [by apply steps_serve|].
  assert (∀ so, kin (d1 <| dl_standing := so |>)) as K1.
  { intros so. destruct K as [Kc Kg Kr Kt Ko]. split; try done. intros x Hx. destruct (Ko x Hx) as [?|(? & ? & _)]; [by left|congruence]. }
  assert (quiet_net may m (net (NetPostOffer d1.(dl_relay) d1.(dl_recipient) (live_offer cf id s d1 m) None) m)) as Q1
    by (apply qn_net; [by apply may_quiet|done]).
  destruct post; [by apply steps_serve|]. apply steps_goto; [exact Q1|done|done|kin1].
Qed.

Lemma steps_served sv r now beacon m : steps m (live_served tok id sv r now beacon d m).
Proof.
  unfold live_served. pose proof (qn_refl may m) as Q.
  destruct r; [by apply steps_die|]. destruct (sv_delivered sv).
  { apply steps_leave; [|done]. eapply qn_trans; [|apply qn_may, net_finish].
    destruct (mg_transfers _ !! id); exact Q. }
  destruct (sv_recipient_cancelled sv).
  { pose proof (net_finish id false (Err (err_fail RecipientCancelled))
      (match dl_standing d with Some s => net (retract_of d s) (set_held_attempt id None m)
       | None => set_held_attempt id None m end)) as (cs & Hcs & Hq). unfold calls in Hcs.
    exists (match dl_standing d with Some s => cs ++ [retract_of d s] | None => cs end). split_and!.
    - unfold calls, die, leave. cbn [dl_standing]. unfold retract_of in *. destruct (dl_standing d); cbn; cbn in Hcs; rewrite Hcs;
        [by rewrite <- app_assoc|done].
    - destruct (dl_standing d); [apply Forall_app; split; [|repeat constructor; by apply may_quiet]|];
        (eapply Forall_impl; [exact Hq|exact may_quiet]).
    - left. split; [unfold die, leave, end_task; cbn; apply lookup_delete_eq|].
      intros s ->. right. apply elem_of_app. right. by apply list_elem_of_here. }
  destruct (is_cancelled _ _); [by apply steps_stop|]. destruct (sv_offloaded sv).
  { apply steps_goto; [exact Q|done|done|]. destruct kin_refl as [Kc Kg Kr Kt Ko]. split; try done.
    intros _. unfold relay_closed. cbn. by rewrite orb_true_r. }
  destruct (sv_seen_not_connected sv); (apply steps_goto; [exact Q|done|done|kin1]).
Qed.

Lemma steps_relay online now fresh m : steps m (deliver_relay cf fs tok id online now fresh d m).
Proof.
  unfold deliver_relay. pose proof (qn_refl may m) as Q. destruct (dl_live_only d) eqn:Hlive.
  { destruct (_ && _); (apply steps_goto; [exact Q|done|done|kin1]). }
  destruct (_ && _) eqn:Hguard; [|by apply steps_maybe_deposit].
  assert (relay_closed d = false) as Hopen.
  { unfold relay_closed. rewrite !andb_true_iff, !negb_true_iff in Hguard.
    destruct Hguard as [[[_ ->] ->] _]. by rewrite Hlive. }
  apply steps_open; [|done|done|done]. apply qn_net; [unfold may; congruence|done].
Qed.

Lemma steps_parked out prep now unix fresh m : steps m (parked cf fs tok id out prep now unix fresh d m).
Proof.
  unfold parked. pose proof (qn_refl may m) as Q. destruct out as [out|]; [|by apply steps_maybe_deposit].
  apply steps_leave; [|done]. unfold spawn_parked_confirm.
  set (offer := match dl_standing d with Some _ => _ | None => _ end). destruct offer as [a b]. exact Q.
Qed.

Lemma net_deposit_step relay recipient payload name note opts phase i s m m1 :
  deposit_step cf fs id relay recipient payload name note opts phase i m = Some (s, m1) → quiet_net no_relay m m1.
Proof.
  intros Es. pose proof (qn_refl no_relay m) as Q. unfold deposit_step in Es.
  destruct phase, i as [?|? ?|[?|[]]|[]]; try done; apply some_pair in Es as [_ <-];
    cbn [worth_keeping]; try exact Q; try apply net_forget.
  - eapply qn_same; [apply net_session|exact Q].
  - apply qn_net; [done|]. apply net_forget.
Qed.

Lemma steps_phase phase now unix i m m' :
  relay_closed d = false →
  ('(s, m) ← deposit_step cf fs id d.(dl_relay) d.(dl_recipient) d.(dl_source) d.(dl_name)
                d.(dl_note) (fallback_opts id m) phase i m;
   Some (match s with
         | DepositGoes phase => goto tok id (AtDeposit phase) d m
         | DepositOver r => deposited cf tok id now unix r d m
         end)) = Some m' → steps m m'.
Proof.
  intros Ho. destruct (deposit_step _ _ _ _ _ _ _ _ _ _ _ _) as [[s m1]|] eqn:Es; [|done].
  cbn. intros <-%(inj Some). apply net_deposit_step, qn_may in Es. destruct s as [phase'|r]; [by apply steps_open|].
  unfold deposited. destruct r as [out|err]; [by apply steps_leave|by apply steps_deposit_failed].
Qed.

Lemma steps_wait now status m : e = DvWait now status → steps m (deliver_wait tok id now status d m).
Proof.
  intros He. unfold deliver_wait. pose proof (qn_refl may m) as Q.
  assert (∀ st, quiet_net may m (set_offer_status_live id st m)) as Hs.
  { intros st. unfold set_offer_status_live. destruct (mg_transfers _ !! id) as [t|]; [|exact Q].
    destruct (tr_status t); exact Q. }
  destruct (dl_standing d) as [so|] eqn:Hd; [|destruct status as [[]|]; (apply steps_goto; [exact Q|done|done|kin1])].
  assert (∀ x, read_gone e = true ∨ (∃ s', x = Some s' ∧ so_posted s' = so_posted so) →
    ∀ d1, relay_closed d1 = relay_closed d → d1.(dl_give_up_at) = d.(dl_give_up_at) → d1.(dl_relay) = d.(dl_relay) →
    d1.(dl_recipient) = d.(dl_recipient) → d1.(dl_standing) = x → kin d1) as K.
  { intros x Hx d1 E1 E2 E3 E4 E5. split; try congruence. intros s ?. rewrite E5. by replace s with so by congruence. }
  destruct status as [[]|]; cbn zeta; try (destruct (negb _));
    (apply steps_goto; [first [exact Q|apply Hs]|done|done|]);
    (eapply K; [|reflexivity..]; first [rewrite He; by left|right; eexists; split; [cbn; done|done]|right; by exists so]).
Qed.

End kept.

Section step.
Context (cf : Config) (fs : Fs) (tok : nat) (id : Z).

Lemma steps_of_step d e m m' :
  m.(mg_tasks) !! tok = Some (TaskDeliver id d) → clean d → deliver_step cf fs tok id d e m = Some m' →
  steps tok id d e m m'.
Proof.
  intros Et Hclean. pose proof (qn_refl (may d) m) as Q. unfold deliver_step, clean in *.
  assert (at_relay (dl_pc d) = true → relay_closed d = false) as Hopen.
  { intros Ha. destruct (relay_closed d); [|done]. rewrite Hclean in Ha; done. }
  destruct (dl_pc d) as [| |fresh before|s|s sv|online| |phase|] eqn:Hpc, e; try done; cbn [at_relay] in Hclean;
    try (destruct (is_cancelled tok m); [|done]; intros <-%(inj Some); apply steps_stop; [done|apply kin_refl]);
    lazymatch goal with |- context [deposit_step] => apply steps_phase, Hopen, eq_refl | _ => idtac end;
    try (intros <-%(inj Some)).
  - apply steps_goto; [done|done|done|]. split; try done. intros s Hs. right. by exists s.
  - apply steps_top.
  - apply steps_prepared.
  - by apply steps_post.
  - destruct (watchdog _ _ _ _) as [sv' m1] eqn:Ew. intros <-%(inj Some). apply steps_goto; [|done|done|apply kin_refl].
    unfold watchdog in Ew. destruct (sv_watchdog sv); repeat case_match; injection Ew as _ <-; exact Q.
  - destruct (on_send_event _ _ _ _) as [sv' m1] eqn:Ew. intros <-%(inj Some). apply steps_goto; [|done|done|apply kin_refl].
    unfold on_send_event in Ew. destruct ev; injection Ew as _ <-; exact Q.
  - apply steps_served.
  - apply steps_relay.
  - exists []. split_and!; [by destruct ev|done|]. right. exists d. split; [destruct ev; exact Et|].
    split; [apply kin_refl|intros Hc; by rewrite Hopen in Hc|congruence].
  - apply steps_parked.
  - by apply steps_wait.
Qed.
End step.

(** ** A delivery in a run *)

Section runs.
Context {A : Type} `{!Base32Text, !Wire (ChunkTicket A), !Wire OfflineTicket, !Wire OfflineWireV1,
  !Blake3Hash, !HexLower, !PublicIdParse}.
Context (cf : Config) (stage_path : string → string).

(** The loop is over, or it is clean and satisfies [P]. *)
Definition going (tok : nat) (id : Z) (P : Delivery → Prop) (m : Manager) : Prop :=
  m.(mg_tasks) !! tok = None ∨
  ∃ d, m.(mg_tasks) !! tok = Some (TaskDeliver id d) ∧ clean d ∧ P d.

Lemma going_run tok id (P : Delivery → Prop) hs m m' :
  (∀ d e d1, clean d → P d → next d e d1 → P d1) →
  minv m → (tok < m.(mg_next_task))%nat → going tok id P m → run (A := A) cf stage_path hs m = Some m' →
  minv m' ∧ (tok < m'.(mg_next_task))%nat ∧ going tok id P m'.
Proof.
  intros HP. revert m. induction hs as [|h hs IH]; intros m Hm Hk Hg; cbn [run]; [by intros [= <-]|].
  destruct (step cf stage_path h m) as [m1|] eqn:Es; [|done]. cbn [mbind option_bind].
  pose proof (inv_step _ _ _ _ _ Hm Es) as Hm1. destruct (step_keeps_fired _ _ _ _ _ Hm Es) as [Hn _].
  apply IH; [done|lia|]. destruct Hg as [E|(d & E & Hc & Hd)].
  - left. rewrite (step_keeps_task _ _ _ _ _ _ Hm Es Hk); [done|]. unfold works_on, step in *.
    destruct (ha_event h) as [|k e]; [by intros []|]. intros ->. by rewrite E in Es.
  - destruct (one_step _ _ _ _ _ _ _ _ Hm E Es) as [(e & _ & _ & Hs)|(_ & _ & E1)]; [|right; by exists d].
    destruct (steps_of_step _ _ _ _ _ _ _ _ E Hc Hs) as (cs & _ & _ & [[E1 _]|(d1 & E1 & Hnx)]); [by left|right].
    exists d1. split_and!; [done|apply (next_clean _ _ _ Hnx)|by eapply HP].
Qed.

(** A delivery as it is spawned, and what a run makes of it. *)
Lemma spawned_going disk hs0 m0 tok id d0 :
  run (A := A) cf stage_path hs0 (new_manager disk) = Some m0 →
  m0.(mg_tasks) !! tok = Some (TaskDeliver id d0) → d0.(dl_pc) = AtStart →
  minv m0 ∧ (tok < m0.(mg_next_task))%nat ∧ clean d0.
Proof.
  intros Hrun E Hpc. pose proof (inv_run cf stage_path _ _ _ (inv_new disk) Hrun) as Hm. split_and!; [done| |].
  - by destruct (lo_tasks _ _ (Hm id) tok _ E eq_refl).
  - intros _. by rewrite Hpc.
Qed.

Lemma own_step tok id d h m m1 :
  minv m → m.(mg_tasks) !! tok = Some (TaskDeliver id d) → clean d → works_on h tok →
  step (A := A) cf stage_path h m = Some m1 →
  ∃ e, h.(ha_event) = Step tok (TeDeliver e) ∧ steps tok id d e m m1.
Proof.
  intros Hm E Hc Hw Es. destruct (one_step _ _ _ _ _ _ _ _ Hm E Es) as [(e & Hev & _ & Hs)|(_ & ? & _)]; [|done].
  exists e. split; [done|]. by eapply steps_of_step.
Qed.



(** The clocks that a delivery reads at the head of its loop. *)
Definition late (tok : nat) (t : Z) (h : Happening) : Prop :=
  match h.(ha_event) with Step k (TeDeliver (DvTop now _)) => k = tok → t <= now | _ => True end.

(** C27. A held send is given up in time. A delivery decides at its start to give up
    [MAX_WAITING_SECS] later, and once the clock at the head of its loop is past that time
    it passes at most nine more awaits; as long as it is there one of them can end. *)
Theorem delivery_gives_up disk hs0 m0 tok id d0 fs now0 hs m1 m d hs' m' :
  run (A := A) cf stage_path hs0 (new_manager disk) = Some m0 →
  m0.(mg_tasks) !! tok = Some (TaskDeliver id d0) → d0.(dl_pc) = AtStart →
  step (A := A) cf stage_path (mkHappening fs now0 (Step tok (TeDeliver (DvStart now0)))) m0 = Some m1 →
  run (A := A) cf stage_path hs m1 = Some m →
  m.(mg_tasks) !! tok = Some (TaskDeliver id d) →
  Forall (late tok (now0 + MAX_WAITING_SECS)) hs' → run (A := A) cf stage_path hs' m = Some m' →
  (moves tok hs' <= 9)%nat ∧
  (m'.(mg_tasks) !! tok = None ∨
   ∃ d' e, m'.(mg_tasks) !! tok = Some (TaskDeliver id d') ∧ (moves tok hs' + rank d'.(dl_pc) <= 9)%nat ∧
           is_report e = false ∧ is_Some (deliver_step cf fs tok id d' e m')).
Proof.
  intros R0 E0 Hpc Es R1 E Hlate R2. destruct (spawned_going _ _ _ _ _ _ R0 E0 Hpc) as (Hm0 & Hk0 & Hc0).
  pose proof (inv_step _ _ _ _ _ Hm0 Es) as Hm1. destruct (step_keeps_fired _ _ _ _ _ Hm0 Es) as [Hn _].
  set (aged := fun d : Delivery => clean d ∧ d.(dl_pc) ≠ AtStart ∧ d.(dl_give_up_at) = now0 + MAX_WAITING_SECS).
  assert (going tok id aged m1) as Hg1.
  { unfold step in Es. cbn in Es. rewrite E0 in Es. cbn in Es. unfold deliver_step in Es. rewrite Hpc in Es.
    apply (inj Some) in Es as <-. right. eexists. split; [apply lookup_insert_eq|]. by split_and!; [intros _|..]. }
  assert (∀ d e d1, clean d → aged d → next d e d1 → aged d1) as Hkeep.
  { intros d2 e d3 _ (_ & Hs & Hg) [K Hcl Hs1]. split_and!; [done|done|]. by rewrite (kin_give_up _ _ _ K Hs). }
  destruct (going_run tok id aged hs m1 m Hkeep Hm1 ltac:(lia) Hg1 R1) as (Hm & Hk & [?|(d1 & E1 & _ & Hd)]); [congruence|].
  rewrite E in E1. injection E1 as <-.
  destruct (doomed_ends (A := A) cf stage_path tok id (late tok (now0 + MAX_WAITING_SECS)) (fun d _ => aged d)) with
    (d := d) (hs := hs') (m := m) (m' := m') as [Hmoves Hdown]; try done.
  - intros d2 m2 h e (_ & _ & Hg) Hl Hev. right. unfold late in Hl. rewrite Hev in Hl. destruct e; try done. rewrite Hg. by apply Hl.
  - intros d2 m2 fs2 e m3 d3 E2 Hd2 Hs E3. destruct (steps_of_step _ _ _ _ _ _ _ _ E2 (proj1 Hd2) Hs)
      as (cs & _ & _ & [[? _]|(d4 & E4 & Hnx)]); [congruence|].
    rewrite E3 in E4. injection E4 as <-. by apply (Hkeep d2 e d3); [apply Hd2|..].
  - assert (rank d.(dl_pc) <= 9)%nat by (destruct (dl_pc d) as [| | | | | | |[]|]; cbn; lia).
    split; [lia|]. destruct Hdown as [?|(d' & E' & Hr)]; [by left|right].
    destruct (deliver_moves cf fs tok id d' m') as (e & He & Hs).
    exists d', e. split_and!; [done|lia|done|done].
Qed.
End runs.
