(* ===== verification/WatchFacts.v ===== *)
(** * A watcher of a deposit ends

    The bound on the looks that a watcher takes, in any run of the manager. *)
From S2P Require Import Prelude.
From S2P Require Import SyncTypes.
From S2P Require Import Store.
From S2P Require Import Seeds.
From S2P Require Import Tickets.
From S2P Require Import Transfers.
From S2P Require Import Records.
From S2P Require Import ManagerState.
From S2P Require Import Manager.
From S2P Require Import Watching.
From S2P Require Import ManagerRuns.
From S2P Require Import ManagerFrames.
From S2P Require Import ManagerInv.
From S2P Require Import ManagerSteps.
From S2P Require Import ManagerFacts.
Local Open Scope Z_scope.

(** ** One look *)

(** Past its time a look is never inconclusive. *)
Lemma late_look w l : w.(wt_verdict_at) <= l.(lo_now2) → watch_verdict w l ≠ KeepWatching.
Proof.
  intros Hl. unfold watch_verdict, read_watched.
  destruct (wt_what w); unfold read_deposit, read_parked; repeat case_match; (done || lia).
Qed.

(** The watcher's next state. *)
Definition watched_again (w : Watch) (l : Look) : Watch := w <| wt_delay := next_delay w l.(lo_now3) |>.

(** The clock of the looks [ls] of [w]: it does not go back within a look, and a look comes
    after the sleep that the one before decided. *)
Fixpoint paced (w : Watch) (ls : list Look) : Prop :=
  match ls with
  | [] => True
  | l :: ls' =>
      l.(lo_now1) <= l.(lo_now2) <= l.(lo_now3) ∧
      match ls' with l' :: _ => l.(lo_now3) + watch_wait w l.(lo_now3) <= l'.(lo_now1) | [] => True end ∧
      paced (watched_again w l) ls'
  end.
(** They are all inconclusive. *)
Fixpoint keeps_on (w : Watch) (ls : list Look) : Prop :=
  match ls with
  | [] => True
  | l :: ls => watch_verdict w l = KeepWatching ∧ keeps_on (watched_again w l) ls
  end.

(** How long the sleep is: the delay, or to the verdict. *)
Lemma wait_long w now :
  1 <= w.(wt_delay) → w.(wt_delay) <= watch_wait w now ∨ w.(wt_verdict_at) <= now + watch_wait w now.
Proof. intros Hd. unfold watch_wait, sat_sub. destruct (wt_what w); [lia|]. case_match; lia. Qed.
Lemma next_delay_doubles w now :
  1 <= w.(wt_delay) <= OFFLINE_CONFIRM_POLL_MAX_SECS → now < w.(wt_verdict_at) →
  next_delay w now = Z.min (w.(wt_delay) * 2) OFFLINE_CONFIRM_POLL_MAX_SECS.
Proof.
  intros Hd Hn. unfold next_delay, sat_mul, U64_MAX, OFFLINE_CONFIRM_POLL_MAX_SECS in *. destruct (wt_what w); [lia|].
  destruct (_ <=? now) eqn:E; [lia|done].
Qed.

(** The looks that stay inconclusive: [j] until the delay is at its most, then one each
    [OFFLINE_CONFIRM_POLL_MAX_SECS]. *)
Lemma keeps_count j w l ls :
  1 <= w.(wt_delay) <= OFFLINE_CONFIRM_POLL_MAX_SECS → OFFLINE_CONFIRM_POLL_MAX_SECS <= w.(wt_delay) * 2 ^ Z.of_nat j →
  paced w (l :: ls) → keeps_on w (l :: ls) →
  Z.of_nat (length (l :: ls)) <=
    Z.of_nat j + 1 + Z.max 0 (w.(wt_verdict_at) - 1 - l.(lo_now2)) `div` OFFLINE_CONFIRM_POLL_MAX_SECS.
Proof.
  unfold OFFLINE_CONFIRM_POLL_MAX_SECS. change (15 * 60) with 900.
  revert j w l. induction ls as [|l' ls IH]; intros j w l Hd Hj (Hl & Hn & Hp) [Hk Hks].
  { cbn. pose proof (Z.div_pos (Z.max 0 (wt_verdict_at w - 1 - lo_now2 l)) 900). lia. }
  destruct (Z.le_gt_cases w.(wt_verdict_at) l'.(lo_now2)) as [Hv|Hv].
  { destruct Hks as [Hk' _]. by apply (late_look (watched_again w l)) in Hv. }
  pose proof Hp as (Hl' & _).
  destruct (wait_long w l.(lo_now3)) as [Hw|Hw]; [lia| |lia].
  assert ((watched_again w l).(wt_delay) = Z.min (w.(wt_delay) * 2) 900) as Hd'.
  { apply next_delay_doubles; [done|lia]. }
  assert (900 <= (watched_again w l).(wt_delay) * 2 ^ Z.of_nat (pred j)) as Hj'.
  { rewrite Hd'. destruct j as [|j]; [cbn in *; lia|]. cbn [pred]. rewrite Nat2Z.inj_succ, Z.pow_succ_r in Hj by lia.
    assert (1 <= 2 ^ Z.of_nat j) by (apply (Z.pow_le_mono_r 2 0); lia). nia. }
  specialize (IH (pred j) (watched_again w l) l' ltac:(lia) Hj' Hp Hks).
  replace (wt_verdict_at (watched_again w l)) with (wt_verdict_at w) in IH by done.
  change (length (l :: l' :: ls)) with (S (length (l' :: ls))).
  set (v := wt_verdict_at w) in *. rewrite !Z.max_r in * by lia.
  destruct j as [|j]; cbn [pred] in *.
  - pose proof (Z.div_le_mono (v - 1 - lo_now2 l') (v - 1 - lo_now2 l - 1 * 900) 900) as Hm.
    rewrite <- Z.add_opp_r in Hm at 2. cbn in Hj. 
    assert ((v - 1 - lo_now2 l') `div` 900 <= (v - 1 - lo_now2 l + (-1) * 900) `div` 900) as Hm2 by (apply Z.div_le_mono; lia).
    rewrite Z.div_add in Hm2 by lia. lia.
  - assert ((v - 1 - lo_now2 l') `div` 900 <= (v - 1 - lo_now2 l) `div` 900) by (apply Z.div_le_mono; lia). lia.
Qed.

Lemma paced_prefix w ls l : paced w (ls ++ [l]) → paced w ls.
Proof.
  revert w. induction ls as [|l1 ls IH]; intros w; [done|]. cbn. intros (Hl & Hn & Hp).
  split; [done|]. split; [by destruct ls|by apply IH].
Qed.
Lemma keeps_last w ls l : keeps_on w ls → last ls = Some l → ¬ w.(wt_verdict_at) <= l.(lo_now2).
Proof.
  revert w. induction ls as [|l1 ls IH]; intros w; [done|]. intros [Hv Hk].
  destruct ls as [|l2 ls]; [intros [= <-] Hl; by destruct (late_look w l1 Hl)|]. by apply (IH (watched_again w l1)).
Qed.

(** ** A watcher in a run *)

Section runs.
Context {A : Type} `{!Base32Text, !Wire (ChunkTicket A), !Wire OfflineTicket, !Wire OfflineWireV1,
  !Blake3Hash, !HexLower, !PublicIdParse}.
Context (cf : Config) (stage_path : string → string).

(** The looks that the task [tok] takes. *)
Definition look_of (tok : nat) (h : Happening) : option Look :=
  match h.(ha_event) with
  | Step k (TeWatch l) => if decide (k = tok) then Some l else None
  | _ => None
  end.
Definition looks (tok : nat) (hs : list Happening) : list Look := omap (look_of tok) hs.

Lemma watch_step tok id w h m m1 :
  minv m → m.(mg_tasks) !! tok = Some (TaskWatch id w) → step (A := A) cf stage_path h m = Some m1 →
  match look_of tok h with
  | Some l => match watch_verdict w l with
              | KeepWatching => m1.(mg_tasks) !! tok = Some (TaskWatch id (watched_again w l))
              | _ => m1.(mg_tasks) !! tok = None
              end
  | None => m1.(mg_tasks) !! tok = Some (TaskWatch id w)
  end.
Proof.
  intros Hm E Es. destruct (decide (works_on h tok)) as [Hw|Hw].
  - unfold works_on in Hw. unfold look_of. unfold step in Es. destruct (ha_event h) as [|k e]; [done|]. subst k.
    rewrite E in Es. cbn in Es. destruct e; try done. apply (inj Some) in Es as <-. rewrite decide_True by done.
    unfold watch_turn. destruct (watch_verdict w l); cbn; rewrite ?lookup_delete_eq, ?lookup_insert_eq; done.
  - assert (look_of tok h = None) as ->.
    { unfold look_of, works_on in *. destruct (ha_event h) as [|k []]; try done. by rewrite decide_False. }
    rewrite (step_keeps_task _ _ _ _ _ _ Hm Es); [done| |done]. by destruct (lo_tasks _ _ (Hm id) tok _ E eq_refl).
Qed.

Lemma no_looks tok hs : Forall (fun h => ¬ works_on h tok) hs → looks tok hs = [].
Proof.
  induction 1 as [|h hs Hh _ IH]; [done|]. unfold looks in *. cbn.
  assert (look_of tok h = None) as ->; [|done].
  unfold look_of, works_on in *. destruct (ha_event h) as [|k []]; try done. by rewrite decide_False.
Qed.

(** It goes on and all its looks were inconclusive, or it is over and all but the last were. *)
Lemma watch_follow tok id w hs m m' :
  minv m → m.(mg_tasks) !! tok = Some (TaskWatch id w) → run (A := A) cf stage_path hs m = Some m' →
  keeps_on w (looks tok hs) ∧ is_Some (m'.(mg_tasks) !! tok) ∨
  (∃ ls l, looks tok hs = ls ++ [l] ∧ keeps_on w ls ∧ m'.(mg_tasks) !! tok = None).
Proof.
  revert w m. induction hs as [|h hs IH]; intros w m Hm E; cbn [run].
  - intros [= <-]. left. by rewrite E.
  - destruct (step cf stage_path h m) as [m1|] eqn:Es; [|done]. cbn [mbind option_bind]. intros Hrun.
    pose proof (inv_step _ _ _ _ _ Hm Es) as Hm1. destruct (step_keeps_fired _ _ _ _ _ Hm Es) as [Hn _].
    assert (tok < m1.(mg_next_task))%nat as Hk by (destruct (lo_tasks _ _ (Hm id) tok _ E eq_refl); lia).
    pose proof (watch_step _ _ _ _ _ _ Hm E Es) as Hs.
    change (looks tok (h :: hs)) with
      (match look_of tok h with Some l => l :: looks tok hs | None => looks tok hs end).
    destruct (look_of tok h) as [l|]; [|by apply (IH w m1)].
    destruct (watch_verdict w l) eqn:Hv;
      try (right; destruct (gone_for_good _ _ _ _ _ _ Hm1 Hk Hs Hrun) as [? Hnone]; exists [], l;
           rewrite (no_looks tok hs Hnone); by split_and!).
    destruct (IH _ m1 Hm1 Hs Hrun) as [[? ?]|(ls & l' & -> & ? & ?)]; [by left|right].
    exists (l :: ls), l'. by split_and!.
Qed.

(** C28. A deposit is not watched for ever. A watcher that starts at the delay that the code
    starts with, asleep between its looks for as long as it decides, takes at most eleven
    looks and one for each [OFFLINE_CONFIRM_POLL_MAX_SECS] up to its verdict time, in any
    run of the manager; and a look past that time ends it, whatever the relay answers. *)
Theorem watcher_ends disk hs0 m tok id w hs m' :
  run (A := A) cf stage_path hs0 (new_manager disk) = Some m →
  m.(mg_tasks) !! tok = Some (TaskWatch id w) → w.(wt_delay) = OFFLINE_CONFIRM_POLL_SECS →
  run (A := A) cf stage_path hs m = Some m' → paced w (looks tok hs) →
  (∀ l0, hd_error (looks tok hs) = Some l0 →
     Z.of_nat (length (looks tok hs)) <=
       11 + Z.max 0 (w.(wt_verdict_at) - 1 - l0.(lo_now2)) `div` OFFLINE_CONFIRM_POLL_MAX_SECS) ∧
  (∀ l, last (looks tok hs) = Some l → w.(wt_verdict_at) <= l.(lo_now2) → m'.(mg_tasks) !! tok = None).
Proof.
  intros Hrun0 E Hd Hrun Hp. pose proof (inv_run cf stage_path _ _ _ (inv_new disk) Hrun0) as Hm.
  assert (∀ ls l, paced w (l :: ls) → keeps_on w (l :: ls) → Z.of_nat (length (l :: ls)) <=
    10 + Z.max 0 (w.(wt_verdict_at) - 1 - l.(lo_now2)) `div` OFFLINE_CONFIRM_POLL_MAX_SECS) as Hcount.
  { intros ls l Hp1 Hk1. by apply (keeps_count 9); [rewrite Hd..| |]. }
  assert (∀ x, 0 <= Z.max 0 x `div` OFFLINE_CONFIRM_POLL_MAX_SECS) as Hpos by (intros; apply Z.div_pos; [lia|done]).
  destruct (watch_follow _ _ _ _ _ _ Hm E Hrun) as [[Hk Hs]|(ls & l & El & Hk & Hs)].
  - destruct (looks tok hs) as [|l ls] eqn:El; [done|]. split.
    + intros l0 [= <-]. specialize (Hcount ls l Hp Hk). lia.
    + intros l1 Hl1 Hv. exfalso. by apply (keeps_last _ _ _ Hk Hl1).
  - rewrite El in *. split; [|done]. destruct ls as [|l1 ls]; intros l0 [= <-].
    + cbn. specialize (Hpos (wt_verdict_at w - 1 - lo_now2 l)). lia.
    + specialize (Hcount ls l1 (paced_prefix _ _ _ Hp) Hk). rewrite length_app. cbn [length] in *. lia.
Qed.
End runs.
