(* ===== verification/ListFacts.v ===== *)
(** * What the list of transfers forgets

    The bound on finished rows, and which ones go. *)
From S2P Require Import Prelude.
From S2P Require Import SyncTypes.
From S2P Require Import Store.
From S2P Require Import Seeds.
From S2P Require Import Tickets.
From S2P Require Import Transfers.
From S2P Require Import Records.
From S2P Require Import ManagerState.
From S2P Require Import Manager.
From S2P Require Import Watching.
From S2P Require Import Landing.
From S2P Require Import Receiving.
From S2P Require Import ManagerFrames.
From S2P Require Import ManagerInv.
From S2P Require Import ManagerSteps.
Local Open Scope Z_scope.

Lemma finished_NoDup rows : NoDup (finished_ids rows).
Proof.
  unfold finished_ids. rewrite merge_sort_Permutation.
  apply (NoDup_fmap_fst (filter _ (map_to_list rows))).
  - intros i t t' [_ H1]%list_elem_of_filter [_ H2]%list_elem_of_filter.
    apply elem_of_map_to_list in H1, H2. congruence.
  - apply NoDup_filter, NoDup_map_to_list.
Qed.
Lemma finished_sorted rows : StronglySorted Z.le (finished_ids rows).
Proof. unfold finished_ids. apply StronglySorted_merge_sort; [apply _|]. intros x y. lia. Qed.

(** What a sorted list starts with is below what it ends with. *)
Lemma sorted_split n (l : list Z) i j :
  StronglySorted Z.le l → NoDup l → i ∈ take n l → j ∈ drop n l → i < j.
Proof.
  revert n. induction l as [|x l IH]; intros n Hs Hn; [rewrite take_nil; by intros ?%elem_of_nil|].
  destruct n as [|n]; [by intros ?%elem_of_nil|]. cbn. inversion Hs as [|? ? Hs' Hall]; subst.
  apply NoDup_cons in Hn as [Hx Hn]. rewrite elem_of_cons. intros [->|Hi] Hj; [|by eapply IH].
  assert (j ∈ l) as Hjl by (rewrite <- (take_drop n l); apply elem_of_app; by right).
  rewrite Forall_forall in Hall. specialize (Hall j Hjl). assert (x ≠ j) by congruence. lia.
Qed.

(** The rows after pruning: without the oldest finished ones. *)
Lemma prune_is keep rows id :
  prune_finished keep rows !! id =
    if decide (id ∈ take (length (finished_ids rows) - keep) (finished_ids rows)) then None else rows !! id.
Proof.
  unfold prune_finished. destruct (Nat.leb_spec (length (finished_ids rows)) keep).
  - replace (length (finished_ids rows) - keep)%nat with 0%nat by lia. cbn.
    by rewrite decide_False by apply not_elem_of_nil.
  - apply foldl_delete_lookup.
Qed.

Lemma finished_pruned keep rows :
  finished_ids (prune_finished keep rows) ≡ₚ drop (length (finished_ids rows) - keep) (finished_ids rows).
Proof.
  set (n := (length (finished_ids rows) - keep)%nat).
  pose proof (finished_NoDup rows) as Hn. rewrite <- (take_drop n (finished_ids rows)) in Hn.
  apply NoDup_app in Hn as (_ & Hdis & Hd).
  apply NoDup_Permutation; [apply finished_NoDup|done|]. intros i.
  rewrite elem_of_finished. setoid_rewrite prune_is. fold n.
  assert (i ∈ finished_ids rows ↔ i ∈ take n (finished_ids rows) ∨ i ∈ drop n (finished_ids rows)) as Hsplit
    by by rewrite <- elem_of_app, take_drop.
  split.
  - intros (t & E & Ht). case_decide as Hin; [done|].
    assert (i ∈ finished_ids rows) as Hi by (apply elem_of_finished; by exists t). apply Hsplit in Hi. naive_solver.
  - intros Hi. assert (i ∈ finished_ids rows) as (t & E & Ht)%elem_of_finished by (apply Hsplit; by right).
    exists t. rewrite decide_False; [done|]. intros Hin. by apply (Hdis i).
Qed.

(** Starting a transfer bounds the history and nothing else. Of the finished rows at
    most [MAX_FINISHED_RETAINED] are kept, as many as there are if there are fewer; those
    that go are older than every finished row that stays; and a row that is not finished
    stays as it is. *)
Theorem history_is_bounded now direction peer name total m :
  let '(id, _, m') := register now direction peer name total m in
  let rows := <[id := new_row id now direction peer name total]> m.(mg_transfers) in
  m'.(mg_transfers) ⊆ rows ∧
  length (finished_ids m'.(mg_transfers)) = Nat.min MAX_FINISHED_RETAINED (length (finished_ids rows)) ∧
  (∀ i t, rows !! i = Some t → is_terminal t.(tr_status) = false → m'.(mg_transfers) !! i = Some t) ∧
  (∀ i j t, i ∈ finished_ids rows → m'.(mg_transfers) !! i = None →
     m'.(mg_transfers) !! j = Some t → is_terminal t.(tr_status) = true → i < j).
Proof.
  destruct (register _ _ _ _ _ _) as [[id tok] m'] eqn:E. unfold register, new_token in E. injection E as <- _ <-.
  cbn -[finished_ids prune_finished new_row Nat.min]. set (rows := <[_ := _]> (mg_transfers m)). clearbody rows. split_and!.
  - apply map_subseteq_spec. intros i t Ei. by destruct (prune_same MAX_FINISHED_RETAINED rows i) as [<-|?]; [|congruence].
  - rewrite finished_pruned, length_drop. lia.
  - intros i t Ei Ht. by apply prune_lookup.
  - intros i j t Hi Ei Ej Ht. set (n := (length (finished_ids rows) - MAX_FINISHED_RETAINED)%nat).
    apply (sorted_split n (finished_ids rows)); [apply finished_sorted|apply finished_NoDup| |].
    + rewrite prune_is in Ei. case_decide as Hin; [done|]. apply elem_of_finished in Hi as (t' & ? & _). congruence.
    + assert (j ∈ finished_ids (prune_finished MAX_FINISHED_RETAINED rows)) as Hj by (apply elem_of_finished; by exists t).
      by rewrite finished_pruned in Hj.
Qed.

(** * What accepting an offer does

    An accept is all or nothing, and a download goes on instead of starting twice. *)
Local Open Scope Z_scope.

Section offers.
Context {A : Type} `{!Base32Text, !Wire (ChunkTicket A), !Wire OfflineTicket, !Wire OfflineWireV1,
  !Blake3Hash, !HexLower, !PublicIdParse}.
Context (cf : Config).

(** What is waiting, and which row shows what. *)
Lemma pending_ack o m : mg_pending (ack cf o m) = mg_pending m.
Proof. unfold ack. by destruct (cf_relay cf). Qed.
Lemma rows_ack o m : mg_transfers (ack cf o m) = mg_transfers m.
Proof. unfold ack. by destruct (cf_relay cf). Qed.
Lemma content_ack o m : mg_download_content (ack cf o m) = mg_download_content m.
Proof. unfold ack. by destruct (cf_relay cf). Qed.

(** The download that is found fetches that content, from that sender or from nobody known,
    and is running or on hold. *)
Definition fetches (content : string) (from : option PublicId) (id : Z) (m : Manager) : Prop :=
  m.(mg_download_content) !! id = Some content ∧
  ∃ t, m.(mg_transfers) !! id = Some t ∧ same_peer from t.(tr_peer) = true ∧
       (is_live t.(tr_status) || is_paused t.(tr_status)) = true.

Lemma best_download from m ids best r id :
  foldl (better_download from m) best ids = Some (r, id) →
  best = Some (r, id) ∨ id ∈ ids ∧ rank_of from id m = Some r.
Proof.
  revert best. induction ids as [|i ids IH]; intros best Hf; [by left|]. cbn in Hf.
  apply IH in Hf as [Hb|[Hin Hr]]; [|right; split; [by apply elem_of_cons; right|done]].
  unfold better_download in Hb. destruct (rank_of from i m) as [q|] eqn:Eq; [|by left].
  assert (Some (q, i) = Some (r, id) → i = id ∧ q = r) as Hinj by (intros [= -> ->]; done).
  destruct best as [b|]; [destruct (rank_lt (q, i) b)|]; [|by left|];
    (destruct (Hinj Hb) as [-> ->]; right; split; [by apply elem_of_cons; left|done]).
Qed.

Lemma same_content_fetches ticket from m on :
  download_of_same_content (A := A) ticket from m = Some on →
  ∃ c, ticket_content (A := A) ticket = Some c ∧ fetches c from on m.
Proof.
  unfold download_of_same_content. destruct (ticket_content ticket) as [c|] eqn:Ec; [|done]. intros Hf.
  exists c. split; [done|]. set (ids := fst <$> _) in Hf.
  destruct (foldl _ _ _) as [[r i]|] eqn:Eb; [|done]. injection Hf as <-.
  apply best_download in Eb as [?|[Hin Hr]]; [done|]. split.
  - unfold ids in Hin. apply list_elem_of_fmap in Hin as ([j c'] & -> & Hin).
    apply list_elem_of_filter in Hin as [Hc Hin]. cbn in Hc. subst c'. by apply elem_of_map_to_list in Hin.
  - unfold rank_of in Hr. destruct (mg_transfers m !! i) as [t|]; [|done]. cbn in Hr.
    exists t. split; [done|]. destruct (same_peer _ _); [|done]. split; [done|].
    unfold download_rank in Hr. destruct (tr_status t); done.
Qed.

(** Resuming keeps it running or puts it back on hold, never loses it. *)
Lemma resume_row id m t :
  m.(mg_transfers) !! id = Some t → (is_live t.(tr_status) || is_paused t.(tr_status)) = true →
  ∃ t', (resume cf id m).2.(mg_transfers) !! id = Some t' ∧
    (is_live t'.(tr_status) || is_paused t'.(tr_status)) = true ∧ t'.(tr_direction) = t.(tr_direction).
Proof.
  intros E Hs. unfold resume. rewrite E. destruct (is_paused (tr_status t)) eqn:Hp; cbn [negb]; [|exists t; split_and!; [exact E|by rewrite Hp|done]].
  assert (∀ m1, m1.(mg_transfers) !! id = Some t → ∃ t', (rearm id m1).2.(mg_transfers) !! id = Some t' ∧
    (is_live t'.(tr_status) || is_paused t'.(tr_status)) = true ∧ t'.(tr_direction) = t.(tr_direction)) as Hrearm.
  { intros m1 E1. unfold rearm, new_token. cbn [snd].
    exists (clear_waiting_code (t <| tr_status := Active |>)). split_and!; [|by destruct t|by destruct t].
    set (m2 := set_status_live id Active _). assert (mg_transfers m2 !! id = Some (clear_waiting_code (t <| tr_status := Active |>))) as E2.
    { unfold m2, set_status_live. cbn. rewrite lookup_alter_eq. cbn. by rewrite E1. }
    clearbody m2. unfold emit_progress_now. rewrite E2. exact E2. }
  assert (∃ t', (match mg_disk m ≫= load_download id with
      | Some rec => let m := with_disk (clear_paused id) m in let '(tok, m) := rearm id m in
          (true, spawn_receive id (dr_ticket rec) (dr_out_path rec) None tok None m)
      | None => (false, m) end).2.(mg_transfers) !! id = Some t' ∧
    (is_live t'.(tr_status) || is_paused t'.(tr_status)) = true ∧ t'.(tr_direction) = t.(tr_direction)) as Hfetch.
  { destruct (mg_disk m ≫= _); [|exists t; split_and!; [exact E|by rewrite Hp|done]]. cbn zeta.
    specialize (Hrearm (with_disk (clear_paused id) m) E). destruct (rearm _ _). exact Hrearm. }
  destruct (mg_held m !! id) as [h|]; [|done].
  destruct (match Some h ≫= h_relay with Some _ => _ | None => _ end); [|done]. cbn zeta.
  specialize (Hrearm (upd_held id (fun h => h <| h_pause_flag := false |>) m) E). destruct (rearm _ _).
  cbn [snd] in *. unfold persist_held_record. by destruct (mg_held _ !! id).
Qed.
Lemma resume_pending id m : (resume cf id m).2.(mg_pending) = m.(mg_pending).
Proof.
  unfold resume. destruct (negb _); [done|].
  assert (∀ m1, (rearm id m1).2.(mg_pending) = m1.(mg_pending)) as Hr.
  { intros m1. unfold rearm, new_token, emit_progress_now. cbn [snd]. by destruct (mg_transfers _ !! id). }
  assert ((match mg_disk m ≫= load_download id with
      | Some rec => let m := with_disk (clear_paused id) m in let '(tok, m) := rearm id m in
          (true, spawn_receive id (dr_ticket rec) (dr_out_path rec) None tok None m)
      | None => (false, m) end).2.(mg_pending) = m.(mg_pending)) as Hfetch.
  { destruct (mg_disk m ≫= _); [|done]. cbn zeta. specialize (Hr (with_disk (clear_paused id) m)). by destruct (rearm _ _). }
  destruct (mg_held m !! id) as [h|]; [|done].
  destruct (match Some h ≫= h_relay with Some _ => _ | None => _ end); [|done]. cbn zeta.
  specialize (Hr (upd_held id (fun h => h <| h_pause_flag := false |>) m)). destruct (rearm _ _).
  cbn [snd] in *. unfold persist_held_record. by destruct (mg_held _ !! id).
Qed.

Lemma carry_row claim only id m j t :
  m.(mg_transfers) !! j = Some t →
  ∃ t', (carry_sender_name claim only id m).(mg_transfers) !! j = Some t' ∧
    t'.(tr_status) = t.(tr_status) ∧ t'.(tr_direction) = t.(tr_direction) ∧ t'.(tr_peer) = t.(tr_peer).
Proof.
  intros E. unfold carry_sender_name. case_bool_decide; [by exists t|]. cbn.
  destruct (decide (j = id)) as [->|Hj]; [|rewrite lookup_alter_ne by done; by exists t].
  rewrite lookup_alter_eq, E. cbn. eexists. split; [done|]. by destruct (only && _).
Qed.
Lemma carry_pending claim only id m : (carry_sender_name claim only id m).(mg_pending) = m.(mg_pending).
Proof. unfold carry_sender_name. by case_bool_decide. Qed.

Lemma start_download_row now ticket out peer name size password ack_offer m :
  let '(id, m') := start_download (A := A) now ticket out peer name size password ack_offer m in
  id = m.(mg_next_id) ∧ m'.(mg_pending) = m.(mg_pending) ∧
  ∃ t, m'.(mg_transfers) !! id = Some t ∧ t.(tr_status) = Active ∧ t.(tr_direction) = Recv ∧ t.(tr_peer) = peer.
Proof.
  unfold start_download. destruct (register _ _ _ _ _ _) as [[id tok] m1] eqn:E.
  unfold register, new_token in E. injection E as <- _ <-. split; [done|].
  set (m2 := match ack_offer with Some _ => _ | None => _ end).
  assert (mg_pending m2 = mg_pending m ∧ ∃ t, mg_transfers m2 !! m.(mg_next_id) = Some t ∧ t.(tr_status) = Active ∧
    t.(tr_direction) = Recv ∧ t.(tr_peer) = peer) as Hm2.
  { assert (prune_finished MAX_FINISHED_RETAINED (<[mg_next_id m := new_row (mg_next_id m) now Recv peer name size]>
      (mg_transfers m)) !! mg_next_id m = Some (new_row (mg_next_id m) now Recv peer name size)) as Hrow
      by (apply prune_lookup; [by rewrite lookup_insert_eq|done]).
    unfold m2. destruct ack_offer; (split; [done|]); (eexists; split; [exact Hrow|done]). }
  clearbody m2. unfold spawn_receive. cbn.
  destruct (looks_like ticket); [|done]. unfold note_download_content. by destruct (ticket_content ticket).
Qed.

(** Taking an offer up: its outcome, row and the offers that still wait. *)
Definition taken_up (offer_id : string) (offer : ReceivedOffer) (id : Z) (m m' : Manager) : Prop :=
  m'.(mg_pending) = delete offer_id m.(mg_pending) ∧
  ((∃ c, ticket_content (A := A) offer.(ro_offer).(of_ticket) = Some c ∧ fetches c (Some offer.(ro_sender)) id m) ∨
   id = m.(mg_next_id)) ∧
  ∃ t, m'.(mg_transfers) !! id = Some t ∧ (is_live t.(tr_status) || is_paused t.(tr_status)) = true.

End offers.
