(* ===== verification/MigrateFacts.v ===== *)
(** * Reading records that an older build wrote

    [load_sendtos] moves the records of an older shape to the new one.  Nothing is lost on
    the way, and the second reading finds what the first one did. *)
From stdpp Require Import pretty.
From S2P Require Import Prelude.
From S2P Require Import Text.
From S2P Require Import Rendezvous.
From S2P Require Import Tickets.
From S2P Require Import Transfers.
From S2P Require Import Records.
Local Open Scope Z_scope.

(** ** Names *)

Lemma starts_with_spec p s : starts_with p s = true ↔ ∃ rest, bytes_of s = bytes_of p ++ rest.
Proof.
  unfold starts_with, after. rewrite bool_decide_eq_true. split.
  - intros [r Hr]. destruct (strip_prefix _ _) as [l|] eqn:E; [|done].
    apply strip_prefix_Some in E. by exists l.
  - intros [rest E]. rewrite E, (proj2 (strip_prefix_Some (bytes_of p) _ rest) eq_refl). by eexists.
Qed.
Lemma record_name_bytes p id : bytes_of (record_name p id) = bytes_of p ++ bytes_of (pretty id) ++ bytes_of ".pc".
Proof. unfold record_name. by rewrite !bytes_of_app. Qed.
Lemma record_name_starts p id : starts_with p (record_name p id) = true.
Proof. apply starts_with_spec. rewrite record_name_bytes. by eexists. Qed.
Lemma record_name_ends p id : ends_with ".pc" (record_name p id) = true.
Proof. unfold ends_with. apply bool_decide_eq_true. rewrite record_name_bytes, app_assoc. by eexists. Qed.
#[export] Instance record_name_inj p : Inj (=) (=) (record_name p).
Proof.
  intros i j E. apply (f_equal bytes_of) in E. rewrite !record_name_bytes in E.
  apply (inj (app _)), (inj (.++ _)), (f_equal string_of) in E. rewrite !string_of_bytes_of in E. by apply (inj pretty) in E.
Qed.
Lemma other_kind s : starts_with "sendto2-" s = true → starts_with "sendto-" s = false.
Proof.
  intros [r Hr]%starts_with_spec. apply not_true_iff_false. intros [r' Hr']%starts_with_spec.
  rewrite Hr in Hr'. by cbn in Hr'.
Qed.

Lemma elem_of_paths p (dir : Dir) n :
  n ∈ record_paths p dir ↔ is_Some (dir !! n) ∧ starts_with p n = true ∧ ends_with ".pc" n = true.
Proof.
  unfold record_paths. rewrite list_elem_of_filter, list_elem_of_fmap. rewrite Is_true_true, andb_true_iff. split.
  - intros [? ([x b] & -> & Hin)]. apply elem_of_map_to_list in Hin. cbn. split; [by eexists|done].
  - intros [[b Hb] ?]. split; [done|]. exists (n, b). split; [done|]. by apply elem_of_map_to_list.
Qed.
Lemma paths_NoDup p (dir : Dir) : NoDup (record_paths p dir).
Proof. apply NoDup_filter, NoDup_fst_map_to_list. Qed.

Lemma elem_of_records {T} (decode : bytes → option T) p (dir : Dir) r :
  r ∈ load_records decode p dir ↔ ∃ n, n ∈ record_paths p dir ∧ dir !! n ≫= decode = Some r.
Proof.
  unfold load_records. rewrite list_elem_of_omap. setoid_rewrite list_elem_of_omap. split.
  - intros (b & (n & Hn & Eb) & Hd). exists n. split; [done|]. by rewrite Eb.
  - intros (n & Hn & Hd). destruct (dir !! n) as [b|] eqn:Eb; [|done]. exists b. split; [by exists n|done].
Qed.

(** ** The loop *)

Section sendtos.
Context `{!Wire SendToRecord, !WireLaws SendToRecord, !Wire SendToRecordV3, !Wire SendToRecordV2, !Wire SendToRecordV1}.
(** [postcard] into memory does not fail on a record. *)
Definition encodes : Prop := ∀ r : SendToRecord, is_Some (to_allocvec r).
Context (Henc : encodes).

(** Records under the names that the manager writes them under. *)
Definition new_at (dir : Dir) (r : SendToRecord) : Prop := dir !! record_name "sendto2-" r.(st_id) ≫= decode_sendto = Some r.
Definition old_at (dir : Dir) (r : SendToRecord) : Prop := dir !! record_name "sendto-" r.(st_id) ≫= decode_legacy_sendto = Some r.
Definition well_named (dir : Dir) : Prop :=
  ∀ n r, ends_with ".pc" n = true →
    (starts_with "sendto2-" n = true → dir !! n ≫= decode_sendto = Some r → n = record_name "sendto2-" r.(st_id)) ∧
    (starts_with "sendto-" n = true → dir !! n ≫= decode_legacy_sendto = Some r → n = record_name "sendto-" r.(st_id)).

Lemma write_lookup r dir n :
  write_sendto r dir !! n = if decide (n = record_name "sendto2-" r.(st_id)) then to_allocvec r else dir !! n.
Proof.
  unfold write_sendto. destruct (Henc r) as [b Hb]. rewrite Hb.
  case_decide as Hn; [rewrite Hn; apply lookup_insert_eq|by apply lookup_insert_ne].
Qed.
Lemma decode_written r : to_allocvec r ≫= decode_sendto = Some r.
Proof. destruct (Henc r) as [b Hb]. rewrite Hb. cbn. unfold decode_sendto. by rewrite (from_to_bytes r b Hb). Qed.

Abbreviation legacy dir n := (dir !! n ≫= decode_legacy_sendto).
Abbreviation known out r := (st_id r ∈ st_id <$> out).
Abbreviation run_migrate paths out dir := (migrate decode_legacy_sendto st_id write_sendto paths out dir).

Lemma known_spec r out : existsb (fun x => st_id x =? st_id r) out = bool_decide (known out r).
Proof.
  apply eq_bool_prop_intro. rewrite !Is_true_true, existsb_exists, bool_decide_eq_true, list_elem_of_fmap.
  split; intros (x & Hx & E); exists x; [apply Z.eqb_eq in E|apply list_elem_of_In in E]; rewrite ?Z.eqb_eq, ?list_elem_of_In in *; done.
Qed.

(** What the loop makes of a directory. *)
Record migrated (paths : list string) (out : list SendToRecord) (dir : Dir) (out' : list SendToRecord) (dir' : Dir) : Prop := {
  mi_found : ∀ r, r ∈ out' ↔ r ∈ out ∨ ∃ p, p ∈ paths ∧ legacy dir p = Some r ∧ ¬ known out r;
  mi_ids : NoDup (st_id <$> out) → NoDup (st_id <$> out');
  mi_gone : ∀ p, p ∈ paths → is_Some (legacy dir p) → dir' !! p = None;
  mi_written : ∀ r, r ∈ out' → ¬ known out r → dir' !! record_name "sendto2-" (st_id r) = to_allocvec r;
  mi_kept : ∀ n, (n ∈ paths → legacy dir n = None) →
    (∀ r, r ∈ out' → ¬ known out r → n ≠ record_name "sendto2-" (st_id r)) → dir' !! n = dir !! n }.

Definition old_paths (paths : list string) (dir : Dir) : Prop :=
  NoDup paths ∧ ∀ p, p ∈ paths → starts_with "sendto-" p = true ∧
    ∀ r, legacy dir p = Some r → p = record_name "sendto-" (st_id r).

Lemma not_new p r : starts_with "sendto-" p = true → p ≠ record_name "sendto2-" (st_id r).
Proof. intros Hp ->. by rewrite other_kind in Hp by apply record_name_starts. Qed.

Lemma old_not_new p i : starts_with "sendto-" p = true → p ≠ record_name "sendto2-" i.
Proof. intros Hp ->. by rewrite other_kind in Hp by apply record_name_starts. Qed.
Lemma known_in (out : list SendToRecord) r : r ∈ out → known out r.
Proof. apply list_elem_of_fmap_2. Qed.
Lemma known_snoc (out : list SendToRecord) rec r : known (out ++ [rec]) r ↔ known out r ∨ st_id r = st_id rec.
Proof. rewrite fmap_app, elem_of_app. cbn. by rewrite list_elem_of_singleton. Qed.

(** One file of the older shape: its record is known already, or it is moved. *)
Lemma migrated_known p rec paths out dir out' dir' :
  p ∉ paths → starts_with "sendto-" p = true → legacy dir p = Some rec → known out rec →
  migrated paths out (delete p dir) out' dir' → migrated (p :: paths) out dir out' dir'.
Proof.
  intros Hnp Hp Ep Hk [Hf Hi Hg Hw Hkept].
  assert (∀ q, q ≠ p → legacy (delete p dir) q = legacy dir q) as Hd by (intros q Hq; by rewrite lookup_delete_ne).
  split.
  - intros r. rewrite Hf. split; (intros [?|(q & Hq & E & ?)]; [by left|right]).
    + exists q. rewrite Hd in E by congruence. split; [by apply elem_of_cons; right|done].
    + apply elem_of_cons in Hq as [->|Hq]; [congruence|]. exists q. by rewrite Hd by congruence.
  - done.
  - intros q [->|Hq]%elem_of_cons Hs; [|apply Hg; [done|]; by rewrite Hd by congruence].
    rewrite Hkept; [apply lookup_delete_eq|done|]. intros r _ _. by apply old_not_new.
  - done.
  - intros n Hn Hr. assert (n ≠ p) as Hne. { intros ->. rewrite Hn in Ep; [done|by apply elem_of_cons; left]. }
    rewrite Hkept; [by apply lookup_delete_ne| |done].
    intros Hin. rewrite Hd by done. by apply Hn, elem_of_cons; right.
Qed.

Lemma migrated_moved p rec paths out dir out' dir' :
  old_paths (p :: paths) dir → legacy dir p = Some rec → ¬ known out rec →
  migrated paths (out ++ [rec]) (delete p (write_sendto rec dir)) out' dir' →
  migrated (p :: paths) out dir out' dir'.
Proof.
  intros [[Hnp _]%NoDup_cons Hold] Ep Hk [Hf Hi Hg Hw Hkept].
  set (dir1 := delete p (write_sendto rec dir)) in *.
  assert (starts_with "sendto-" p = true ∧ p = record_name "sendto-" (st_id rec)) as [Hp Hpn].
  { destruct (Hold p) as [? Hr]; [by apply elem_of_cons; left|]. split; [done|by apply Hr]. }
  assert (∀ n, n ≠ p → n ≠ record_name "sendto2-" (st_id rec) → dir1 !! n = dir !! n) as Hd.
  { intros n H1 H2. unfold dir1. by rewrite lookup_delete_ne, write_lookup, decide_False by done. }
  assert (∀ q, q ∈ paths → legacy dir1 q = legacy dir q ∧ ∀ r, legacy dir q = Some r → st_id r ≠ st_id rec) as Hq1.
  { intros q Hq. destruct (Hold q) as [Hs Hr]; [by apply elem_of_cons; right|].
    rewrite Hd; [|congruence|by apply old_not_new]. split; [done|]. intros r E Heq. apply Hr in E. congruence. }
  assert (∀ r, r ∈ out' → ¬ known out r → r = rec ∨ ¬ known (out ++ [rec]) r) as Hout.
  { intros r [Hin|(q & _ & _ & ?)]%Hf Hnk; [left|by right]. apply elem_of_app in Hin as [?%known_in|?]; [done|].
    by apply list_elem_of_singleton. }
  split.
  - intros r. rewrite Hf, elem_of_app, list_elem_of_singleton. split.
    + intros [[?| ->]|(q & Hq & E & Hn)]; [by left| |]; right.
      * exists p. split; [by apply elem_of_cons; left|done].
      * exists q. rewrite (proj1 (Hq1 q Hq)) in E. rewrite known_snoc in Hn. split; [by apply elem_of_cons; right|naive_solver].
    + intros [?|(q & [->|Hq]%elem_of_cons & E & Hn)]; [by left; left|left; right; congruence|right].
      exists q. rewrite (proj1 (Hq1 q Hq)), known_snoc. split_and!; [done|done|].
      intros [?|?]; [done|]. by apply (proj2 (Hq1 q Hq) r).
  - intros Hn. apply Hi. rewrite fmap_app. apply NoDup_app. split_and!; [done| |apply NoDup_singleton].
    intros i Hin ->%list_elem_of_singleton. done.
  - intros q [->|Hq]%elem_of_cons Hs; [|apply Hg; [done|]; by rewrite (proj1 (Hq1 q Hq))].
    rewrite Hkept; [apply lookup_delete_eq|done|]. intros r _ _. by apply old_not_new.
  - intros r Hin Hn. destruct (Hout r Hin Hn) as [->|?]; [|by apply Hw].
    rewrite Hkept.
    + unfold dir1. rewrite lookup_delete_ne by by apply old_not_new. by rewrite write_lookup, decide_True.
    + intros Hin'. destruct (Hold (record_name "sendto2-" (st_id rec))) as [Hs _]; [by apply elem_of_cons; right|].
      by destruct (old_not_new _ (st_id rec) Hs).
    + intros r' Hin' Hn' [=E%(inj (record_name _))]. rewrite known_snoc in Hn'. naive_solver.
  - intros n Hn Hr. assert (n ≠ p) as Hne. { intros ->. rewrite Hn in Ep; [done|by apply elem_of_cons; left]. }
    assert (rec ∈ out') as Hrec by (apply Hf; left; apply elem_of_app; right; by apply list_elem_of_singleton).
    rewrite Hkept; [apply Hd; [done|by apply Hr]| |].
    + intros Hin. rewrite (proj1 (Hq1 n Hin)). by apply Hn, elem_of_cons; right.
    + intros r Hin Hn'. apply Hr; [done|]. rewrite known_snoc in Hn'. naive_solver.
Qed.

Lemma migrated_skipped p paths out dir out' dir' :
  legacy dir p = None → migrated paths out dir out' dir' → migrated (p :: paths) out dir out' dir'.
Proof.
  intros Ep [Hf Hi Hg Hw Hkept]. split; try done.
  - intros r. rewrite Hf. split; (intros [?|(q & Hq & E & ?)]; [by left|right]).
    + exists q. split; [by apply elem_of_cons; right|done].
    + apply elem_of_cons in Hq as [->|Hq]; [congruence|]. by exists q.
  - intros q [->|Hq]%elem_of_cons Hs; [|by apply Hg]. rewrite Ep in Hs. by destruct Hs.
  - intros n Hn Hr. apply Hkept; [|done]. intros Hin. by apply Hn, elem_of_cons; right.
Qed.

Lemma migrate_spec paths out dir :
  old_paths paths dir → let '(out', dir') := run_migrate paths out dir in migrated paths out dir out' dir'.
Proof.
  revert out dir. induction paths as [|p paths IH]; intros out dir Hold; cbn [migrate].
  - split; try done.
    + intros r. split; [by left|]. by intros [?|(p & ?%elem_of_nil & _)].
    + by intros p ?%elem_of_nil.
    + intros r ?%known_in. done.
  - pose proof Hold as [[Hnp Hn]%NoDup_cons Hp]. destruct (Hp p) as [Hps _]; [by apply elem_of_cons; left|].
    assert (∀ dir1, (∀ q, q ∈ paths → dir1 !! q = dir !! q) → old_paths paths dir1) as Hsub.
    { intros dir1 Hd. split; [done|]. intros q Hq. rewrite Hd by done. apply Hp. by apply elem_of_cons; right. }
    destruct (legacy dir p) as [rec|] eqn:Ep.
    + rewrite known_spec. case_bool_decide as Hk.
      * pose proof (IH out (delete p dir)) as Hm. destruct (run_migrate paths out (delete p dir)) as [out' dir'].
        eapply migrated_known; try done. apply Hm, Hsub. intros q Hq. apply lookup_delete_ne. congruence.
      * pose proof (IH (out ++ [rec]) (delete p (write_sendto rec dir))) as Hm.
        destruct (run_migrate paths _ _) as [out' dir']. eapply migrated_moved; try done. apply Hm, Hsub.
        intros q Hq. rewrite lookup_delete_ne by congruence. rewrite write_lookup, decide_False; [done|].
        apply old_not_new. by apply Hp, elem_of_cons; right.
    + pose proof (IH out dir (Hsub dir ltac:(done))) as Hm. destruct (run_migrate paths out dir) as [out' dir'].
      by apply migrated_skipped.
Qed.

(** Nothing to do: every file of the older shape is unreadable. *)
Lemma migrate_nothing paths out dir :
  (∀ p, p ∈ paths → legacy dir p = None) → run_migrate paths out dir = (out, dir).
Proof.
  induction paths as [|p paths IH]; intros Hp; cbn [migrate]; [done|].
  rewrite Hp by (by apply elem_of_cons; left). apply IH. intros q Hq. by apply Hp, elem_of_cons; right.
Qed.

Abbreviation news dir := (load_records decode_sendto "sendto2-" dir).
Abbreviation olds dir := (record_paths "sendto-" dir).

Lemma news_spec dir r : well_named dir → r ∈ news dir ↔ new_at dir r.
Proof.
  intros Hd. rewrite elem_of_records. setoid_rewrite elem_of_paths. split.
  - intros (n & (_ & Hs & He) & E). unfold new_at. by rewrite <- (proj1 (Hd n r He) Hs E).
  - intros E. exists (record_name "sendto2-" (st_id r)). split; [|done].
    split; [|by split; [apply record_name_starts|apply record_name_ends]].
    unfold new_at in E. destruct (dir !! _); [by eexists|done].
Qed.
Lemma olds_old dir : well_named dir → old_paths (olds dir) dir.
Proof.
  intros Hd. split; [apply paths_NoDup|]. intros p (_ & Hs & He)%elem_of_paths. split; [done|].
  intros r E. by apply (Hd p r He).
Qed.
Lemma news_ids dir : well_named dir → NoDup (st_id <$> news dir).
Proof.
  intros Hd. unfold load_records. pose proof (paths_NoDup "sendto2-" dir) as Hn.
  assert (∀ n, n ∈ record_paths "sendto2-" dir → starts_with "sendto2-" n = true ∧ ends_with ".pc" n = true) as Hp
    by (intros n (_ & ? & ?)%elem_of_paths; done).
  induction (record_paths "sendto2-" dir) as [|n ns IH]; [constructor|]. apply NoDup_cons in Hn as [Hnn Hns].
  assert (∀ n', n' ∈ ns → starts_with "sendto2-" n' = true ∧ ends_with ".pc" n' = true) as Hp'
    by (intros n' Hn'; by apply Hp, elem_of_cons; right).
  specialize (IH Hns Hp'). cbn. destruct (dir !! n) as [b|] eqn:Eb; [|done]. cbn.
  destruct (decode_sendto b) as [r|] eqn:Er; [|done]. cbn. constructor; [|done].
  intros (r' & Hid & Hin)%list_elem_of_fmap. apply list_elem_of_omap in Hin as (b' & Hb' & Er').
  apply list_elem_of_omap in Hb' as (n' & Hn' & Eb').
  assert (legal : ∀ m x y, dir !! m = Some x → decode_sendto x = Some y → starts_with "sendto2-" m = true →
    ends_with ".pc" m = true → m = record_name "sendto2-" (st_id y)).
  { intros m x y Ex Ey Hs He. apply (proj1 (Hd m y He)); [done|]. by rewrite Ex. }
  destruct (Hp n) as [Hs He]; [by apply elem_of_cons; left|]. destruct (Hp' n' Hn') as [Hs' He'].
  pose proof (legal _ _ _ Eb Er Hs He). pose proof (legal _ _ _ Eb' Er' Hs' He'). congruence.
Qed.

(** C35. Reading the held sends of an older build loses none of them, and may be repeated.
    Whatever mix of files of the three shapes is there, under the names that the manager
    gives them, the reading yields one record for each send, the one of the new shape when
    there are both; no other file is touched; and reading again, as the next start does,
    finds the same sends and changes nothing more. *)
Theorem migration_keeps_every_send dir :
  well_named dir →
  let '(out, dir') := load_sendtos dir in
  NoDup (st_id <$> out) ∧
  (∀ r, r ∈ out ↔ new_at dir r ∨ old_at dir r ∧ ∀ r', new_at dir r' → st_id r' ≠ st_id r) ∧
  (∀ n, (∀ i, n ≠ record_name "sendto-" i ∧ n ≠ record_name "sendto2-" i) → dir' !! n = dir !! n) ∧
  (load_sendtos dir').2 = dir' ∧ ∀ r, r ∈ (load_sendtos dir').1 ↔ r ∈ out.
Proof.
  intros Hd. unfold load_sendtos at 1.
  pose proof (migrate_spec (olds dir) (news dir) dir (olds_old dir Hd)) as Hm.
  destruct (run_migrate (olds dir) (news dir) dir) as [out dir'] eqn:El. destruct Hm as [Hf Hi Hg Hw Hk].
  assert (∀ p, p ∈ olds dir' → legacy dir' p = None) as Hnone.
  { intros p (Hsome & Hs & He)%elem_of_paths. destruct (decide (is_Some (legacy dir p) ∧ p ∈ olds dir)) as [[Hl Hp]|Hn].
    - rewrite (Hg p Hp Hl) in Hsome. by destruct Hsome.
    - assert (p ∈ olds dir → legacy dir p = None) as Hn'.
      { intros Hp. apply eq_None_not_Some. tauto. }
      rewrite (Hk p Hn') in Hsome |- * by (intros r _ _; by apply old_not_new).
      apply Hn'. by apply elem_of_paths. }
  unfold load_sendtos. rewrite (migrate_nothing _ _ _ Hnone). cbn [fst snd]. split_and!; [by apply Hi, news_ids| | |done|].
  - intros r. rewrite Hf, news_spec by done. split; (intros [?|Hr]; [by left|right]).
    + destruct Hr as (p & (_ & Hs & He)%elem_of_paths & E & Hn). split.
      * unfold old_at. by rewrite <- (proj2 (Hd p r He) Hs E).
      * intros r' Hr'%(news_spec dir r' Hd)%known_in Hid. by rewrite Hid in Hr'.
    + destruct Hr as [E Hn]. exists (record_name "sendto-" (st_id r)). split_and!; [|done|].
      * apply elem_of_paths. unfold old_at in E. split; [destruct (dir !! _); [by eexists|done]|].
        split; [apply record_name_starts|apply record_name_ends].
      * intros (r' & Hid & Hr'%(news_spec dir r' Hd))%list_elem_of_fmap. by apply (Hn r').
  - intros n Hn. apply Hk; [|intros r _ _; apply Hn]. intros (_ & Hs & He)%elem_of_paths.
    destruct (legacy dir n) as [r|] eqn:E; [|done]. destruct (Hn (st_id r)) as [Hne _]. by destruct (Hne (proj2 (Hd n r He) Hs E)).
  - intros r. rewrite elem_of_records. split.
    + intros (n & (Hsome & Hs & He)%elem_of_paths & E).
      destruct (decide (Exists (fun x => ¬ known (news dir) x ∧ n = record_name "sendto2-" (st_id x)) out)) as [Hx|Hx].
      * apply Exists_exists in Hx as (x & Hin & Hnk & ->). rewrite (Hw x Hin Hnk), decode_written in E. congruence.
      * rewrite Hk in E; [|intros (_ & Hold & _)%elem_of_paths; by rewrite other_kind in Hold by done|].
        -- apply Hf. left. apply elem_of_records. exists n. split; [|done]. apply elem_of_paths.
           split; [destruct (dir !! n); [by eexists|done]|done].
        -- intros x Hin Hnk ->. apply Hx, Exists_exists. by exists x.
    + intros Hin. exists (record_name "sendto2-" (st_id r)).
      assert (dir' !! record_name "sendto2-" (st_id r) ≫= decode_sendto = Some r) as E.
      { destruct (decide (known (news dir) r)) as [Hnk|Hnk]; [|by rewrite (Hw r Hin Hnk), decode_written].
        assert (r ∈ news dir) as Hnew. { apply Hf in Hin as [?|(? & _ & _ & ?)]; done. }
        rewrite Hk; [by apply news_spec| |].
        - intros (_ & Hold & _)%elem_of_paths. by rewrite other_kind in Hold by apply record_name_starts.
        - intros r' _ Hnk' Heq%(inj (record_name _)). by rewrite <- Heq in Hnk'. }
      split; [|done]. apply elem_of_paths. split; [destruct (dir' !! _); [by eexists|done]|].
      split; [apply record_name_starts|apply record_name_ends].
Qed.
End sendtos.

(** ** A directory of three shapes *)

(** A byte for every binary digit, after one that tells the shape. *)
Fixpoint digits (p : positive) : bytes :=
  match p with xH => [] | xO p => Byte.x00 :: digits p | xI p => Byte.x01 :: digits p end.
Fixpoint of_digits (b : bytes) : positive :=
  match b with [] => xH | Byte.x00 :: b => xO (of_digits b) | _ :: b => xI (of_digits b) end.
Lemma of_digits_digits p : of_digits (digits p) = p.
Proof. induction p; cbn; congruence. Qed.
Definition digit_wire {T} `{Countable T} (tag : Byte.byte) : Wire T := {|
  to_allocvec x := Some (tag :: digits (encode x));
  from_bytes b := match b with t :: b => if decide (t = tag) then decode (of_digits b) else None | [] => None end |}.
Lemma digit_wire_laws {T} `{Countable T} tag : @WireLaws T (digit_wire tag).
Proof.
  split. intros x b. cbn. intros [= <-]. rewrite decide_True by done. by rewrite of_digits_digits, decode_encode.
Qed.
#[local] Instance byte_countable : Countable Byte.byte.
Proof. apply (inj_countable Byte.to_N Byte.of_N). apply Byte.of_to_N. Defined.
#[local] Instance sendto_eq : EqDecision SendToRecord.
Proof. solve_decision. Defined.
#[local] Instance sendto_v3_eq : EqDecision SendToRecordV3.
Proof. solve_decision. Defined.
#[local] Instance sendto_v2_eq : EqDecision SendToRecordV2.
Proof. solve_decision. Defined.
#[local] Instance sendto_v1_eq : EqDecision SendToRecordV1.
Proof. solve_decision. Defined.
#[local] Instance sendto_countable : Countable SendToRecord.
Proof.
  apply (inj_countable' (λ r : SendToRecord, (r.(st_id), r.(st_recipient), r.(st_payload), r.(st_name), r.(st_archive), r.(st_paused),
    r.(st_reason), r.(st_note), r.(st_target), r.(st_relay), r.(st_live_only)))
    (λ '(a, b, c, d, e, f, g, h, i, j, k), mkSendToRecord a b c d e f g h i j k)). by intros [].
Defined.
#[local] Instance sendto_v3_countable : Countable SendToRecordV3.
Proof.
  apply (inj_countable' (λ r : SendToRecordV3, (r.(s3_id), r.(s3_recipient), r.(s3_payload), r.(s3_name), r.(s3_archive), r.(s3_paused),
    r.(s3_reason), r.(s3_note), r.(s3_target), r.(s3_relay)))
    (λ '(a, b, c, d, e, f, g, h, i, j), mkSendToRecordV3 a b c d e f g h i j)). by intros [].
Defined.
#[local] Instance sendto_v2_countable : Countable SendToRecordV2.
Proof.
  apply (inj_countable' (λ r : SendToRecordV2, (r.(s2_id), r.(s2_recipient), r.(s2_payload), r.(s2_name), r.(s2_archive), r.(s2_paused),
    r.(s2_reason), r.(s2_note), r.(s2_target)))
    (λ '(a, b, c, d, e, f, g, h, i), mkSendToRecordV2 a b c d e f g h i)). by intros [].
Defined.
#[local] Instance sendto_v1_countable : Countable SendToRecordV1.
Proof.
  apply (inj_countable' (λ r : SendToRecordV1, (r.(s1_id), r.(s1_recipient), r.(s1_payload), r.(s1_name), r.(s1_archive), r.(s1_paused),
    r.(s1_reason), r.(s1_note)))
    (λ '(a, b, c, d, e, f, g, h), mkSendToRecordV1 a b c d e f g h)). by intros [].
Defined.
#[local] Instance wire_sendto : Wire SendToRecord := digit_wire Byte.x04.
#[local] Instance wire_sendto_v3 : Wire SendToRecordV3 := digit_wire Byte.x03.
#[local] Instance wire_sendto_v2 : Wire SendToRecordV2 := digit_wire Byte.x02.
#[local] Instance wire_sendto_v1 : Wire SendToRecordV1 := digit_wire Byte.x01.
#[local] Instance wire_sendto_laws : WireLaws SendToRecord := digit_wire_laws Byte.x04.

Definition ex_file {T} `{!Wire T} (x : T) : bytes := default [] (to_allocvec x).
Definition ex_v1 : SendToRecordV1 := mkSendToRecordV1 1 [] "/a" "a" false false "" "".
Definition ex_v2 : SendToRecordV2 := mkSendToRecordV2 2 [] "/b" "b" false true "paused" "" None.
Definition ex_v3 : SendToRecordV3 := mkSendToRecordV3 2 [] "/b" "b" false false "" "" None None.
Definition ex_dir : Dir :=
  {[ "sendto-1.pc" := ex_file ex_v1; "sendto-2.pc" := ex_file ex_v2; "sendto2-2.pc" := ex_file ex_v3;
     "sendto2-3.pc" := ex_file (from_v1 (mkSendToRecordV1 3 [] "/c" "c" false false "" "")); "other.pc" := [] ]}%string.

Lemma ex_encodes : encodes.
Proof. intros r. by eexists. Qed.
(** Every file under its record's name, checked file by file. *)
Definition well_named_b (dir : Dir) : bool :=
  forallb (λ p, negb (ends_with ".pc" p.1) ||
    (negb (starts_with "sendto2-" p.1) ||
      match decode_sendto p.2 with Some r => bool_decide (p.1 = record_name "sendto2-" r.(st_id)) | None => true end) &&
    (negb (starts_with "sendto-" p.1) ||
      match decode_legacy_sendto p.2 with Some r => bool_decide (p.1 = record_name "sendto-" r.(st_id)) | None => true end))
    (map_to_list dir).
Lemma well_named_check dir : well_named_b dir = true → well_named dir.
Proof.
  intros Hall n r He. unfold well_named_b in Hall. rewrite forallb_forall in Hall.
  destruct (dir !! n) as [b|] eqn:E; [|done]. specialize (Hall (n, b)). cbn in Hall.
  assert (List.In (n, b) (map_to_list dir)) as Hin by (apply list_elem_of_In; by apply elem_of_map_to_list).
  specialize (Hall Hin). rewrite He in Hall. cbn in Hall. apply andb_true_iff in Hall as [H2 H1]. cbn. split; intros Hs Ed.
  - rewrite Hs, Ed in H2. cbn in H2. by apply bool_decide_eq_true in H2.
  - rewrite Hs, Ed in H1. cbn in H1. by apply bool_decide_eq_true in H1.
Qed.

Lemma migration_keeps_every_send_witness :
  well_named ex_dir ∧ (st_id <$> (load_sendtos ex_dir).1) ≡ₚ [1; 2; 3] ∧
  (load_sendtos (load_sendtos ex_dir).2).2 = (load_sendtos ex_dir).2.
Proof.
  assert (well_named ex_dir) as Hd by (apply well_named_check; vm_compute; reflexivity).
  split; [exact Hd|]. pose proof (migration_keeps_every_send ex_encodes ex_dir Hd) as H.
  destruct (load_sendtos ex_dir) as [out dir'] eqn:E. destruct H as (_ & _ & _ & H & _).
  split; [|exact H]. apply (f_equal fst) in E. cbn in E. rewrite <- E. vm_compute. symmetry. exact (Permutation_rev [1; 2; 3]).
Defined.
