(* ===== verification/ManagerExamples.v ===== *)
(** * The transfer manager, run

    Concrete runs of the manager: the theorems at concrete inputs, and what modelling
    showed. *)
From S2P Require Import Prelude.
From S2P Require Import Text.
From S2P Require Import SyncTypes.
From S2P Require Import SyncExamples.
From S2P Require Import Store.
From S2P Require Import Link.
From S2P Require Import UploadClient.
From S2P Require Import Seeds.
From S2P Require Import Tickets.
From S2P Require Import Transfers.
From S2P Require Import Records.
From S2P Require Import ManagerState.
From S2P Require Import Manager.
From S2P Require Import Watching.
From S2P Require Import Uploading.
From S2P Require Import Delivery.
From S2P Require Import Landing.
From S2P Require Import Receiving.
From S2P Require Import Sharing.
From S2P Require Import Restart.
From S2P Require Import ManagerRuns.
From S2P Require Import ManagerFrames.
From S2P Require Import ManagerInv.
From S2P Require Import ManagerSteps.
From S2P Require Import ManagerFacts.
From S2P Require Import HeldInv.
From S2P Require Import HeldSteps.
From S2P Require Import RestartFacts.
From S2P Require Import DeliveryFacts.
From S2P Require Import WatchFacts.
Local Open Scope Z_scope.

(** ** The world of the examples *)

#[local] Instance plain_base32 : Base32Text :=
  {| base32_nopad := string_of; base32_of_upper s := Some (bytes_of s) |}.
#[local] Instance no_chunk_ticket : Wire (ChunkTicket unit) := {| to_allocvec _ := None; from_bytes _ := None |}.
#[local] Instance no_offline : Wire OfflineTicket := {| to_allocvec _ := None; from_bytes _ := None |}.
#[local] Instance no_offline1 : Wire OfflineWireV1 := {| to_allocvec _ := None; from_bytes _ := None |}.
#[local] Instance whole_hash : Blake3Hash := {| blake3_hash b := b |}.
#[local] Instance any_id : PublicIdParse := {| public_id_ok _ := true |}.

Definition ex_cf : Config := mkConfig (Some "r"%string) "/dl" "me" None false true false None None None.
Definition ex_stage (t : string) : string := t.
Definition ex_fs : Fs := mkFs (fun _ => None) (fun _ => Ok 10).
Definition ex_bob : PublicId := [Byte.x62].
Definition at_ (now : Z) (e : Event) : Happening := mkHappening ex_fs now e.
Definition do_ (e : DeliverEvent) : Happening := at_ 0 (Step 0 (TeDeliver e)).
Definition ex_no_seal : result MailboxSeal Error := Err (err_msg "no").
Definition ex_seal : result MailboxSeal Error := Ok (mkMailboxSeal [] [] [] [] "rv" 10).
Definition ex_session : Session := mkSession "arvcT" 10 [] None false.
Definition ex_posted : PostedOffer := mkPostedOffer "offer" "poster".

Abbreviation ex_run hs m := (run (A := unit) ex_cf ex_stage hs m).
Abbreviation ex_step h m := (step (A := unit) ex_cf ex_stage h m).
Definition ex_from (hs : list Happening) (m : Manager) : Manager := default m (ex_run hs m).
Definition ex_new : Manager := new_manager (Some empty_disk).

Definition ex_send (live_only : bool) : Happening :=
  at_ 1000 (Call (OpSendTo ex_bob (SourcePath "/a") "a" false "hi" None live_only None)).
(** A send that gets as far as serving its offer. *)
Definition ex_offering : list Happening :=
  [ex_send false; do_ (DvStart 100); do_ (DvTop 100 true); do_ (DvPrepared (Ok ex_session) None);
   do_ (DvOffer 101 None (Some ex_posted))].
Definition ex_served : Manager := ex_from ex_offering ex_new.
Definition ex_cancelled : Manager := ex_from (ex_offering ++ [at_ 0 (Call (OpCancel 1))]) ex_new.
Definition ex_delivery (m : Manager) : Delivery :=
  match m.(mg_tasks) !! 0%nat with Some (TaskDeliver _ d) => d | _ => new_delivery "" (new_held [] (SourcePath "") "" false "" None None false None) end.

Lemma every_running_row_is_driven_witness :
  ex_run ex_offering ex_new = Some ex_served ∧
  ∃ t, ex_served.(mg_transfers) !! 1 = Some t ∧ t.(tr_id) = 1 ∧ row_says t ∧
    (is_live t.(tr_status) = true ↔
       ∃ tok, drives ex_served tok 1 ∧ ex_served.(mg_cancels) !! 1 = Some tok ∧ ∀ k, drives ex_served k 1 → k = tok).
Proof.
  split; [vm_compute; reflexivity|]. eexists. split; [vm_compute; reflexivity|].
  exact (every_running_row_is_driven (A := unit) ex_cf ex_stage (Some empty_disk) ex_offering ex_served
    ltac:(vm_compute; reflexivity) 1 _ ltac:(vm_compute; reflexivity)).
Defined.

Lemma cancel_is_total_witness :
  ex_run ex_offering ex_new = Some ex_served ∧ (cancel 1 ex_served).1 = true.
Proof.
  split; [vm_compute; reflexivity|].
  pose proof (cancel_is_total (A := unit) ex_cf ex_stage (Some empty_disk) ex_offering ex_served 1 ltac:(vm_compute; reflexivity)) as H.
  destruct (mg_transfers ex_served !! 1) eqn:E; [exact (proj1 H)|vm_compute in E; discriminate E].
Defined.

Lemma cancelled_delivery_ends_witness :
  ∃ d m', ex_cancelled.(mg_tasks) !! 0%nat = Some (TaskDeliver 1 d) ∧
    is_cancelled 0 ex_cancelled = true ∧
    ex_run [do_ (DvServed None 105 false)] ex_cancelled = Some m' ∧
    (moves 0 [do_ (DvServed None 105 false)] <= 9)%nat.
Proof.
  eexists _, _. split; [vm_compute; reflexivity|]. split; [vm_compute; reflexivity|].
  split; [vm_compute; reflexivity|].
  exact (proj1 (cancelled_delivery_ends (A := unit) ex_cf ex_stage (Some empty_disk)
    (ex_offering ++ [at_ 0 (Call (OpCancel 1))]) ex_cancelled 0 1 (ex_delivery ex_cancelled)
    [do_ (DvServed None 105 false)] (ex_from [do_ (DvServed None 105 false)] ex_cancelled) ex_fs
    ltac:(vm_compute; reflexivity) ltac:(vm_compute; reflexivity) ltac:(vm_compute; reflexivity) ltac:(vm_compute; reflexivity))).
Defined.

(** The daemon stops while the send is being served. *)
Definition ex_disk : Disk := default empty_disk ex_served.(mg_disk).
Definition ex_listing : Listing :=
  mkListing [] [] (map_to_list ex_disk.(dk_sendtos)).*2 [] [] [].

(** ** A delivery *)

Definition ex_start (live_only : bool) : Manager := ex_from [ex_send live_only] ex_new.



(** Seven days later. *)
Lemma delivery_gives_up_witness :
  let m0 := ex_start false in
  let m1 := ex_from [do_ (DvStart 0)] m0 in
  let late_top := [do_ (DvTop 604800 false)] in
  Forall (late 0 (0 + MAX_WAITING_SECS)) late_top ∧
  ∃ m', ex_run late_top m1 = Some m' ∧ (moves 0 late_top <= 9)%nat.
Proof.
  intros m0 m1 late_top.
  assert (Forall (late 0 (0 + MAX_WAITING_SECS)) late_top) as Hl by (repeat constructor; vm_compute; congruence).
  split; [exact Hl|]. exists (ex_from late_top m1). split; [vm_compute; reflexivity|].
  exact (proj1 (delivery_gives_up (A := unit) ex_cf ex_stage (Some empty_disk) [ex_send false] m0 0 1 (ex_delivery m0)
    ex_fs 0 [] m1 m1 (ex_delivery m1) late_top (ex_from late_top m1)
    ltac:(vm_compute; reflexivity) ltac:(vm_compute; reflexivity) ltac:(vm_compute; reflexivity) ltac:(vm_compute; reflexivity)
    ltac:(vm_compute; reflexivity) ltac:(vm_compute; reflexivity) Hl ltac:(vm_compute; reflexivity))).
Defined.

(** Left on the relay: the loop ends, and a watcher starts. *)
Definition ex_depositing : list Happening :=
  [ex_send false; do_ (DvStart 100); do_ (DvTop 100 false); do_ (DvRelay 2000 ex_seal);
   do_ (DvDeposit 2001 1000 (UploadEnds (Ok (mkMailboxDeposit "claim" "rv" "arvmT" 604800))));
   do_ (DvDeposit 2002 1000 (NoticePosted (Ok ex_posted)))].
Definition ex_deposited : Manager := ex_from ex_depositing ex_new.
Definition ex_watch (m : Manager) : Watch :=
  match m.(mg_tasks) !! 1%nat with Some (TaskWatch _ w) => w | _ => mkWatch (WatchBlob "" "") "" 0 None 0 end.
Definition ex_blob (present : bool) : option ClaimInfo := Some (mkClaimInfo present None None).
Definition ex_looks : list Happening :=
  [at_ 0 (Step 1 (TeWatch (mkLook (ex_blob true) None (Some OfferPending) 1000 1000 1000)));
   at_ 0 (Step 1 (TeWatch (mkLook (ex_blob false) None None 1003 1003 1003)))].

Lemma watcher_ends_witness :
  let w := ex_watch ex_deposited in
  w.(wt_delay) = OFFLINE_CONFIRM_POLL_SECS ∧ paced w (looks 1 ex_looks) ∧
  length (looks 1 ex_looks) = 2%nat ∧
  Z.of_nat (length (looks 1 ex_looks)) <=
    11 + Z.max 0 (w.(wt_verdict_at) - 1 - 1000) `div` OFFLINE_CONFIRM_POLL_MAX_SECS.
Proof.
  intros w. assert (paced w (looks 1 ex_looks)) as Hp by (vm_compute; repeat split; congruence).
  split; [vm_compute; reflexivity|]. split; [exact Hp|]. split; [reflexivity|].
  exact (proj1 (watcher_ends (A := unit) ex_cf ex_stage (Some empty_disk) ex_depositing ex_deposited 1 1 w ex_looks
    (ex_from ex_looks ex_deposited) ltac:(vm_compute; reflexivity) ltac:(vm_compute; reflexivity)
    ltac:(vm_compute; reflexivity) ltac:(vm_compute; reflexivity) Hp)
    (mkLook (ex_blob true) None (Some OfferPending) 1000 1000 1000) eq_refl).
Defined.

(** ** Where it does not do what it means to

    Runs that end in a state which the comments of the code rule out. *)

Definition status_of (id : Z) (m : Manager) : option TransferStatus := tr_status <$> m.(mg_transfers) !! id.
Definition sendto_ids (m : Manager) : list Z :=
  match m.(mg_disk) with Some d => (map_to_list d.(dk_sendtos)).*1 | None => [] end.

(** *** Starting again *)

(** Two held sends that an earlier run filed under 2 and 1.  The ids start again at 1, so
    the first one restored is filed under 1, and restoring the second removes that file:
    both are on the list, one is on the disk. *)
Definition ex_sendto (id : Z) (name : string) : SendToRecord :=
  mkSendToRecord id ex_bob "/x" name false false "" "" None None false.
Definition ex_two : Disk := persist_sendto (ex_sendto 1 "one") (persist_sendto (ex_sendto 2 "two") empty_disk).
Definition ex_two_listed : Listing := mkListing [] [] [ex_sendto 2 "two"; ex_sendto 1 "one"] [] [] [].
Definition ex_restarted : Manager :=
  ex_from [at_ 0 (Call (OpRestart (fun _ => Err (err_msg "")) ex_two_listed))] (new_manager (Some ex_two)).
Example restart_loses_a_record :
  lists ex_two ex_two_listed ∧
  status_of 1 ex_restarted = Some Active ∧ status_of 2 ex_restarted = Some Active ∧ sendto_ids ex_restarted = [2].
Proof. split; [split_and!; (reflexivity || (vm_compute; apply Permutation_swap || reflexivity))|vm_compute; auto]. Qed.

(** *** Pausing and cancelling *)

(** A cancel that comes while a pause has not been noticed yet leaves the send on hold. *)
Definition ex_pause_cancel : Manager :=
  ex_from (ex_offering ++ [at_ 0 (Call (OpPause 1)); at_ 0 (Call (OpCancel 1)); do_ (DvServed None 105 false)]) ex_new.
Example cancel_after_pause_pauses :
  (cancel 1 (ex_from [at_ 0 (Call (OpPause 1))] ex_served)).1 = true ∧
  status_of 1 ex_pause_cancel = Some (Paused "paused") ∧ ex_pause_cancel.(mg_tasks) = ∅.
Proof. vm_compute. auto. Qed.

(** Going to sleep pauses a held send; waking up does not resume it. *)
Definition ex_slept : Manager :=
  ex_from [at_ 0 (Call OpSuspend); do_ (DvStart 100); do_ (DvTop 100 false); at_ 0 (Call OpResumeSuspended)] (ex_start false).
Example suspended_send_stays_paused :
  (suspend_running (ex_start false)).1 = [1] ∧ status_of 1 ex_slept = Some (Paused "paused") ∧ ex_slept.(mg_tasks) = ∅.
Proof. vm_compute. auto. Qed.

(** Clearing what is finished drops a share that is being prepared: its task goes on, and
    nothing can cancel it. *)
Definition ex_cleared : Manager :=
  ex_from [at_ 0 (Call (OpShare (SourcePath "/a") "a" false None None)); at_ 0 (Call OpClear)] ex_new.
Example clearing_drops_a_running_share :
  status_of 1 ex_cleared = None ∧ (cancel 1 ex_cleared).1 = false ∧ is_Some (ex_cleared.(mg_tasks) !! 0%nat).
Proof. split; [vm_compute; auto|]. split; [vm_compute; auto|]. vm_compute. by eexists. Qed.

(** *** On the relay *)

(** A send parked by hand: the loop ends with its offer still standing, and withdraws the
    offer that tells the recipient where the parked pieces are. *)
Definition ex_parked : Manager :=
  ex_from (ex_offering ++
    [at_ 0 (Call (OpDepositNow 1)); do_ (DvServed None 105 false); do_ (DvRelay 106 ex_no_seal);
     do_ (DvParked (Some (mkParkOutcome (mkRelayRelease "r" "" "tok") [] 10 3600)) None 107 1000 ex_no_seal)]) ex_new.
Example parking_withdraws_its_offer :
  status_of 1 ex_parked = Some Deposited ∧
  (pk_offer_id <$> (ex_parked.(mg_disk) ≫= fun d => d.(dk_parkeds) !! 1)) = Some "offer"%string ∧
  NetRetract "r" ex_bob "offer" "poster" ∈ ex_parked.(mg_net) ∧
  sendto_ids ex_parked = [1].
Proof. split; [vm_compute; auto|]. split; [vm_compute; auto|]. split; [|vm_compute; auto]. apply list_elem_of_In. vm_compute. tauto. Qed.

(** The expiry noted for a deposit is that of seven days, whatever the relay granted. *)
Definition ex_short : Manager :=
  ex_from [ex_send false; do_ (DvStart 100); do_ (DvTop 100 false); do_ (DvRelay 2000 ex_seal);
    do_ (DvDeposit 2001 1000 (UploadEnds (Ok (mkMailboxDeposit "claim" "rv" "arvmT" 3600))));
    do_ (DvDeposit 2002 1000 (NoticePosted (Ok ex_posted)))] ex_new.
Example granted_time_is_ignored :
  (de_expires <$> (ex_short.(mg_disk) ≫= fun d => d.(dk_depositeds) !! 1)) = Some (1000 + 7 * 86400).
Proof. by vm_compute. Qed.

(** The notice of a committed deposit fails: its claim and revoke token are forgotten, and
    the whole file goes up again. *)
Definition ex_unnoticed : Manager :=
  ex_from [ex_send false; do_ (DvStart 100); do_ (DvTop 100 false); do_ (DvRelay 2000 ex_seal);
    do_ (DvDeposit 2001 1000 (UploadEnds (Ok (mkMailboxDeposit "claim" "rv" "arvmT" 604800))));
    do_ (DvDeposit 2002 1000 (NoticePosted (Err "down"%string)));
    do_ (DvWait 2003 None); do_ (DvTop 3000 false); do_ (DvRelay 3001 ex_seal)] ex_new.
Example failed_notice_uploads_again :
  List.filter (fun c => match c with NetUpload _ _ => true | _ => false end) ex_unnoticed.(mg_net) = [NetUpload "r" 1; NetUpload "r" 1] ∧
  List.filter (fun c => match c with NetRevoke _ _ _ => true | _ => false end) ex_unnoticed.(mg_net) = [].
Proof. by vm_compute. Qed.

(** A withdrawn deposit whose watcher then looks: the row was cancelled and ends completed. *)
Definition ex_withdrawn : Manager :=
  ex_from [at_ 0 (Call (OpCancel 1)); at_ 0 (Step 2 (TeWithdraw 2));
    at_ 0 (Step 1 (TeWatch (mkLook (ex_blob false) None None 1003 1003 1003)))] ex_deposited.
Example cancelled_deposit_ends_completed :
  status_of 1 (ex_from [at_ 0 (Call (OpCancel 1)); at_ 0 (Step 2 (TeWithdraw 2))] ex_deposited) = Some Cancelled ∧
  status_of 1 ex_withdrawn = Some Completed.
Proof. by vm_compute. Qed.

(** A blob that is gone after its time was up counts as picked up. *)
Example expired_deposit_reads_as_picked_up :
  read_deposit (ex_blob false) (Some OfferPending) 2000 1000 = PickedUp.
Proof. by vm_compute. Qed.

(** *** Receiving *)

(** The name of an accepted offer is joined to the download directory without looking what
    is there; an explicit path is then used as it is. *)
Definition ex_offer (name ticket : string) : ReceivedOffer :=
  mkReceivedOffer "o" ex_bob (mkOffer name 10 1 ticket "" "" None None "").
Definition ex_there : Tree := mkTree {["/dl/a"]} {["/dl"]}.
Example accepted_file_overwrites :
  accept_path ex_cf None (ex_offer "a" "arvcT").(ro_offer) = Some "/dl/a"%string ∧
  single_file_out ex_there (Some "/dl/a"%string) "a" "h" = Some "/dl/a"%string ∧
  collision_free ex_there "/dl/a" = Some "/dl/a (1)"%string.
Proof. by vm_compute. Qed.

(** An offer without a usable name, with a ticket that has a two-byte character across its
    sixteenth byte: the accept panics, and the offer no longer waits. *)
Definition ex_odd : ReceivedOffer := ex_offer ".." "arvc56789012345é".
Definition ex_asked : Manager := ex_from [at_ 0 (Call (OpOffer ex_odd))] ex_new.
Example odd_ticket_panics :
  is_Some (ex_asked.(mg_pending) !! "o"%string) ∧
  (accept_offer (A := unit) ex_cf 0 "o" None None ex_asked).1 = Panicked ∧
  (accept_offer (A := unit) ex_cf 0 "o" None None ex_asked).2.(mg_pending) = ∅.
Proof. split; [vm_compute; by eexists|]. vm_compute. auto. Qed.

(** A mailbox pickup that is cancelled while it fetches: the file is written and the
    offer acknowledged, the row says cancelled and has no path. *)
Definition ex_fetched : Manager :=
  ex_from [at_ 0 (Call (OpOffer (ex_offer "a" "arvmT"))); at_ 0 (Call (OpAccept "o" None None));
    at_ 0 (Step 0 (TeFetch FetchBegin)); at_ 0 (Call (OpCancel 1));
    at_ 0 (Step 0 (TeFetch (MailboxEnds (Ok ("/dl/a"%string, 10)) None)))] ex_new.
Example cancelled_pickup_keeps_the_file :
  status_of 1 ex_fetched = Some Cancelled ∧ (tr_path <$> ex_fetched.(mg_transfers) !! 1) = Some None ∧
  NetAck "o" ∈ ex_fetched.(mg_net) ∧ (dk_removed <$> ex_fetched.(mg_disk)) = Some [].
Proof.
  split; [vm_compute; auto|]. split; [vm_compute; auto|]. split; [|vm_compute; auto].
  apply list_elem_of_In. vm_compute. tauto.
Qed.
