(* ===== verification/TransferExamples.v ===== *)
(** * The swarm and the chunk protocol, run

    A full tracker, a prepared file and its serving, the sender's books and the
    receiver's pool, each at a concrete input of its theorem. *)
From Stdlib Require Import SpecFloat.
From S2P Require Import Prelude.
From S2P Require Import Text.
From S2P Require Import ChunkCipher.
From S2P Require Import SyncTypes.
From S2P Require Import SyncExamples.
From S2P Require Import Store.
From S2P Require Import UploadHttp.
From S2P Require Import RelayExamples.
From S2P Require Import Seeds.
From S2P Require Import Swarm.
From S2P Require Import Schedule.
From S2P Require Import Chunked.
From S2P Require Import ChunkedFacts.
From S2P Require Import ChunkCtrl.
From S2P Require Import Recv.
From S2P Require Import RecvFacts.
From S2P Require Import RecvRuns.
Local Open Scope Z_scope.

#[export] Instance listed_values : HashValues := {| values m := (map_to_list m).*2 |}.
#[export] Instance listed_values_laws : HashValuesLaws.
Proof. split. intros m. reflexivity. Qed.

(** ** A full tracker *)

Definition ex_swarm_id (n : nat) : string :=
  String (Ascii.ascii_of_nat (n / 100)) (String (Ascii.ascii_of_nat (n mod 100)) EmptyString).
(** Ten thousand swarms, whose one peer left for good long ago. *)
Definition ex_full : Tracker :=
  list_to_map ((fun n => (ex_swarm_id n, {["a"%string := mkSwarmPeer "a" [] 60]})) <$> seq 0 10000).
Definition ex_join : AnnounceReq := mkAnnounceReq "b" [Byte.x00] 4 "started" 50.

Lemma ex_full_size : (MAX_SWARMS ≤ size ex_full)%nat.
Proof. apply Nat.leb_le. vm_compute. reflexivity. Qed.

Lemma full_tracker_stays_full_witness :
  foldl tracker_step ex_full [TAnnounce "new" ex_join 1000000; TPeers "other" 2000000] = ex_full ∧
  ∀ swarm req now, ex_full !! swarm = None → req.(an_event) ≠ "stopped"%string → bad_announce req = false →
    swarm_announce_handler swarm req now
      (foldl tracker_step ex_full [TAnnounce "new" ex_join 1000000; TPeers "other" 2000000]) =
      ((SERVICE_UNAVAILABLE, []), ex_full).
Proof.
  apply (full_tracker_stays_full [TAnnounce "new" ex_join 1000000; TPeers "other" 2000000] ex_full).
  - exact ex_full_size.
  - intros op Hop. apply elem_of_cons in Hop as [->|Hop]; [split; [vm_compute; reflexivity|discriminate]|].
    apply list_elem_of_singleton in Hop as ->. vm_compute. reflexivity.
Defined.

Definition ex_found := swarm_announce_handler "s" (mkAnnounceReq "c" [Byte.x01] 4 "" 50) 20
  (foldl tracker_step ∅ [TAnnounce "s" ex_join 0]).
Example ex_found_peer : ex_found.1 = (OK, [mkPeerInfo "b" [Byte.x00]]).
Proof. vm_compute. reflexivity. Qed.

(** ** A prepared file *)

#[local] Opaque CHUNK_SIZE.

Definition ex_plain : bytes := bytes_of "a small file".
Definition ex_sk : bytes := replicate 32 Byte.x2a.
Definition ex_small_ct : bytes := match seal_chunk ex_sk 0 1 ex_plain with Ok ct => ct | Err _ => [] end.
Definition ex_small_hash : Hash := blake3_hash ex_small_ct.
Definition ex_prepared : PreparedChunks :=
  mkPreparedChunks 12 1 [ex_small_hash] (index_chunks [ex_small_hash]).

Lemma compute_is_sequential_witness :
  match digests ex_sk (wrap_u32 (div_ceil 12 CHUNK_SIZE)) (chunk_jobs (length ex_plain) 0 ex_plain) with
  | Ok hs => compute ex_sk 12 ex_plain (@rev _) =
      Ok (mkPreparedChunks 12 (wrap_u32 (div_ceil 12 CHUNK_SIZE)) hs (index_chunks hs))
  | Err _ => ∃ e, compute ex_sk 12 ex_plain (@rev _) = Err e
  end.
Proof.
  apply (compute_is_sequential ex_sk 12 ex_plain (@rev _)). intros l. symmetry. apply Permutation_rev.
Defined.

Lemma ex_jobs : chunk_jobs (length ex_plain) 0 ex_plain = [(0, ex_plain)].
Proof.
  assert (12 < Z.to_nat CHUNK_SIZE)%nat as Hcs by (apply Nat2Z.inj_lt; rewrite Z2Nat.id; [|discriminate]; reflexivity).
  change (length ex_plain) with 12%nat. unfold ex_plain. cbn [chunk_jobs].
  rewrite take_ge, drop_ge by (change (length (bytes_of "a small file")) with 12%nat; lia). reflexivity.
Qed.
Lemma ex_computed : compute ex_sk 12 ex_plain (@rev _) = Ok ex_prepared.
Proof. unfold compute. rewrite ex_jobs. vm_compute. reflexivity. Qed.

Lemma announced_is_served_witness :
  let cs := Z.to_nat CHUNK_SIZE in
  let sender := OnTheFly ex_sk ex_prepared.(pc_index) ex_prepared.(pc_total_chunks) in
  if decide (ex_small_hash ∈ ex_prepared.(pc_chunks)) then
    ∃ idx ct, ex_prepared.(pc_chunks) !! idx = Some ex_small_hash ∧
      produce sender (Some ex_plain) ∅ ex_small_hash = Some ct ∧ blake3_hash ct = ex_small_hash ∧
      open_chunk ex_sk (N.of_nat idx) (Z.to_N ex_prepared.(pc_total_chunks)) ct = Ok (take cs (drop (idx * cs) ex_plain)) ∧
      ∀ file have, produce (Reseal ex_sk ex_prepared.(pc_index) ex_prepared.(pc_total_chunks) have) (Some file) ∅ ex_small_hash =
        if bitfield_has have idx
        then result_ok (seal_chunk ex_sk (N.of_nat idx) (Z.to_N ex_prepared.(pc_total_chunks)) (take cs (drop (idx * cs) file)))
        else None
  else produce sender (Some ex_plain) ∅ ex_small_hash = None.
Proof.
  exact (announced_is_served ex_sk 12 ex_plain (@rev _) ex_prepared ∅
    (fun l => symmetry (Permutation_rev l)) ex_computed ex_small_hash).
Defined.

Definition ex_dir : ChunkStore := {[chunk_path ex_small_hash := mkFile ex_small_ct 0]}.
Lemma chunk_crosses_witness :
  let grace := mkDuration MIN_RATE_GRACE_SECS 0 in
  (∀ body, steady grace body →
    read_bytes body = (answer_request Files None ex_dir (mkChunkReq ex_small_hash 0)).2 →
    fetch_one "p" ex_small_hash (WHeader (answer_request Files None ex_dir (mkChunkReq ex_small_hash 0)).1 body) 1000 ∅
      = (Ok ex_small_ct, ∅)) ∧
  ∀ offset answers body e, 0 <= offset <= zlen ex_small_ct →
    steady grace body →
    read_bytes body = (answer_request Files None ex_dir (mkChunkReq ex_small_hash offset)).2 →
    WHeader (answer_request Files None ex_dir (mkChunkReq ex_small_hash offset)).1 body ∈ answers →
    ∃ ct' tail, fetch_from ex_small_hash (take (Z.to_nat offset) ex_small_ct) 1000 answers e = Ok (ct', tail) ∧
      blake3_hash ct' = ex_small_hash ∧ ct' = take (Z.to_nat offset) ex_small_ct ++ tail.
Proof.
  apply (chunk_crosses Files None ex_dir ex_small_hash ex_small_ct "p" 1000 ∅).
  - vm_compute. reflexivity.
  - reflexivity.
  - split; [vm_compute; reflexivity|]. apply Z.leb_le. vm_compute. reflexivity.
Defined.

(** ** The books and the pool *)

(** One receiver reconnects and acks the rest; another invents an index. *)
Definition ex_runs : list (EndpointId * list CtrlEvent) :=
  [("a"%string, [CMsg (Have 0); CEof]); ("b"%string, [CMsg (Have 7); CMsg (Have 1); CIdle])].
Definition ex_last_run : list CtrlEvent := [CMsg Hello; CMsg (Have 1); CEof].

Lemma delivery_books_exact_witness :
  (∀ p, p ∈ completed_peers 2 (books 2 ex_runs) ↔ 0 < 2 ∧ ∀ i, 0 <= i < 2 → i ∈ acks_of ex_runs p) ∧
  match (ctrl_accept 2 "a" ∅ ex_last_run (books 2 ex_runs)).1.2 with
  | Some (SGone p tail) => p = "a"%string ∧ ∀ i, i ∈ tail ↔ 0 <= i < 2 ∧ i ∉ acks_of (ex_runs ++ [("a"%string, ex_last_run)]) "a"
  | Some (SAborted p) => p = "a"%string ∧ CMsg Abort ∈ ex_last_run
  | None => CEof ∉ ex_last_run ∧ CIdle ∉ ex_last_run
  end.
Proof.
  apply (delivery_books_exact 2 ex_runs "a" ex_last_run); [discriminate|].
  intros r i Hr Hi. cbn in Hr. repeat (apply elem_of_cons in Hr as [->|Hr]; [cbn in Hi; set_solver by lia|]).
  by apply elem_of_nil in Hr.
Defined.

Definition ex_peer_ops : list PeerOp := [PLeave "b"; PEnter "a" 5000; PEnter "b" 4000; PStamp "a" 3000; PEnter "a" 1000].
Lemma downloading_now_exact_witness :
  let m := foldr (fun op m => peer_op m op) ∅ ex_peer_ops in
  (∀ id, id ∈ dom (filter (fun p => active 9000 p.2 = true) m) ↔
    0 < open_conns id ex_peer_ops ∧ 9000 - last_sign id ex_peer_ops <= ACTIVE_WINDOW_SECS * 1000) ∧
  (∀ id, 0 <= open_conns id ex_peer_ops ∧ (open_conns id ex_peer_ops = 0 → m !! id = None)) ∧
  distinct 9000 m = size (dom (filter (fun p => active 9000 p.2 = true) m)).
Proof.
  apply (downloading_now_exact ex_peer_ops 9000).
  - vm_compute. repeat split; reflexivity.
  - intros id. unfold ex_peer_ops. cbn [last_sign]. repeat case_decide; discriminate.
Defined.

Definition ex_pool : gmap EndpointId (list nat) := {["r"%string := [3; 2; 1]%nat]}.
Definition ex_closed (c : nat) : bool := (c =? 3)%nat.
Lemma pool_hands_out_live_witness :
  (let '(c, pool') := checkout ex_closed "r" ex_pool in
   pool_ok pool' ∧ (∀ i, i ≠ "r"%string → pool' !! i = ex_pool !! i) ∧
   match c with
   | Some c => ex_closed c = false ∧ ∃ dropped, Forall (fun c => ex_closed c = true) dropped ∧
       ex_pool !! "r"%string = Some (default [] (pool' !! "r"%string) ++ c :: dropped)
   | None => Forall (fun c => ex_closed c = true) (default [] (ex_pool !! "r"%string))
   end) ∧
  ∀ conn, pool_ok (checkin ex_closed "r" conn ex_pool) ∧
    ∀ c, c ∈ default [] (checkin ex_closed "r" conn ex_pool !! "r"%string) →
      c ∈ default [] (ex_pool !! "r"%string) ∨ (c = conn ∧ ex_closed c = false).
Proof.
  apply (pool_hands_out_live ex_closed "r" ex_pool). apply map_Forall_singleton. cbn. repeat constructor.
Defined.

(** * Downloads, run

    A file of three chunks received over two runs, the second of them after a loss; and
    a race between two sources of the last piece that ends the download. *)
Local Open Scope Z_scope.

(** A digest that never collides. *)
#[local] Instance whole_hash : Blake3Hash := {| blake3_hash b := b |}.

Definition ex_key : bytes := replicate 32 Byte.x2a.
Definition ex_data : bytes := bytes_of "0123456789".
Definition ex_slice (k : nat) : bytes := take 4 (drop (k * 4) ex_data).
Definition ex_ct (k : nat) : bytes :=
  match seal_chunk ex_key (N.of_nat k) 3 (ex_slice k) with Ok ct => ct | Err _ => [] end.
Definition ex_ticket : Ticket unit :=
  mkTicket 10 4 (ex_ct <$> seq 0 3) ex_key (Some ("alice"%string, tt)) (Some ("relay"%string, tt)).

Lemma ex_sealed k ct : sealed ex_ticket ex_data k ct → (k < 3)%nat ∧ ct = ex_ct k.
Proof.
  intros [Hk Hs]. cbn in Hk. split; [done|]. unfold ex_ct. change (slice_of ex_ticket ex_data k) with (ex_slice k) in Hs.
  change (N.of_nat (length (tk_chunks ex_ticket))) with 3%N in Hs. change (tk_key ex_ticket) with ex_key in Hs. by rewrite Hs.
Qed.

(** No proper beginning of a chunk ends in its tag. *)
Lemma ex_whole k n : (k < 3)%nat → (n < length (ex_ct k))%nat →
  ∀ plain, open_chunk ex_key (N.of_nat k) 3 (take n (ex_ct k)) ≠ Ok plain.
Proof.
  intros Hk Hn plain Ho.
  assert (forallb (λ k, forallb (λ n, match open_chunk ex_key (N.of_nat k) 3 (take n (ex_ct k)) with Ok _ => false | Err _ => true end)
    (seq 0 (length (ex_ct k)))) (seq 0 3) = true) as Hall by (vm_compute; reflexivity).
  rewrite forallb_forall in Hall. specialize (Hall k ltac:(apply in_seq; lia)). rewrite forallb_forall in Hall.
  specialize (Hall n ltac:(apply in_seq; lia)). by rewrite Ho in Hall.
Qed.

Lemma ex_announces : announces ex_ticket ex_data.
Proof.
  split; [done..| |].
  - intros k Hk. exists (ex_ct k). cbn in Hk.
    assert (k = 0 ∨ k = 1 ∨ k = 2)%nat as [->|[->| ->]] by lia; (split; [split; [cbn; lia|vm_compute; reflexivity]|reflexivity]).
  - intros k ct c plain [Hk ->]%ex_sealed Hp Ho. change (N.of_nat _) with 3%N in Ho at 2.
    change (tk_key ex_ticket) with ex_key in Ho.
    destruct Hp as [rest Hrest]. destruct rest as [|x rest]; [by rewrite Hrest, app_nil_r|exfalso].
    apply (ex_whole k (length c) Hk) with (plain := plain); rewrite Hrest; [rewrite length_app; cbn; lia|].
    by rewrite take_app_length.
Qed.

Lemma ex_no_collision : no_collision ex_ticket ex_data.
Proof. intros j k plain ct ct' _ _ E. exact E. Qed.

Lemma ex_genuine evs : Forall (genuine ex_ticket ex_data) evs.
Proof. apply Forall_forall. intros [| k [|[] floor| | |]| | |] _; try exact I. intros buf q ct _ _ E. exact E. Qed.

Lemma ex_stages_ok : stages_ok (mkStages ∅ ∅ 0).
Proof. split; cbn; [by intros name ino ?%lookup_empty_Some|by intros n1 n2 ino ?%lookup_empty_Some]. Qed.

(** What the loop sees: everyone is there, the relay has all, and so has a peer. *)
Definition ex_view (now : Z) : View unit :=
  mkView now true {[0; 1; 2]} [("bob"%string, tt, [Byte.x07])].
Definition ex_fetch (k : nat) (answer : WireAnswer) : list (RecvEvent (A := unit)) :=
  EvTask k <$> [EvOpen None; EvFetch answer 0; EvTruncate None; EvWrite None None].
Definition ex_piece (choice k i : nat) (now : Z) : list (RecvEvent (A := unit)) :=
  EvAssign choice (ex_view now) :: ex_fetch k (honest_answer (ex_ct i)) ++ [EvJoin k now (CommitOk true)].

(** ** Two runs *)

(** The first fetches a piece, is answered with another chunk by a peer, and runs out of
    disk halfway through writing a second one. *)
Definition ex_first : Session (A := unit) :=
  mkSession false false None
    (ex_piece 2 0 0 10 ++
     [EvAssign 1 (ex_view 11); EvTask 1 (EvOpen None); EvTask 1 (EvFetch (honest_answer (ex_ct 0)) 0); EvJoin 1 12 (CommitOk true)] ++
     EvAssign 0 (ex_view 13) :: ex_fetch 2 (honest_answer (ex_ct 2)) ++ [EvJoin 2 13 (CommitFails true 1)]).
(** The second has what the sidecar says and fetches the rest. *)
Definition ex_second : Session (A := unit) :=
  mkSession false true (Some 1000) (ex_piece 1 0 1 20 ++ ex_piece 0 1 2 21 ++ [EvFinish]).

Definition ended (ph : option Phase) : option (RecvOutcome * bytes * option bytes) :=
  match ph with Some (Ended o st) => Some (o, st.(rc_file), st.(rc_sidecar)) | _ => None end.

Example ex_first_paused :
  ended (session ex_ticket ex_first [] None (mkStages ∅ ∅ 0)) =
    Some (Paused, bytes_of "0123" ++ replicate 4 Byte.x00 ++ bytes_of "8", Some [Byte.x01]).
Proof. vm_compute. reflexivity. Qed.

Definition ex_downloaded : Recv :=
  match sessions ex_ticket ex_first [ex_second] [] None (mkStages ∅ ∅ 0) with
  | Some (Ended Completed st) => st
  | _ => recv_init ex_ticket [] None [] (mkStages ∅ ∅ 0)
  end.
Lemma ex_sessions_completed :
  sessions ex_ticket ex_first [ex_second] [] None (mkStages ∅ ∅ 0) = Some (Ended Completed ex_downloaded).
Proof. vm_compute. reflexivity. Qed.

Lemma ex_fresh : resumable ex_ticket ex_data [] None.
Proof. intros b k E. discriminate E. Qed.

Lemma completed_download_is_the_file_witness :
  ex_downloaded.(rc_file) = ex_data ∧ ex_downloaded.(rc_sidecar) = None.
Proof.
  apply (completed_download_is_the_file ex_ticket ex_data ex_first [ex_second] [] None (mkStages ∅ ∅ 0)
    (Ended Completed ex_downloaded)).
  - exact ex_announces.
  - exact ex_stages_ok.
  - apply Forall_forall. intros s _. apply ex_genuine.
  - left. exact ex_fresh.
  - exact ex_sessions_completed.
Defined.

Definition ex_start : Recv := recv_init ex_ticket [] None [Byte.x00] (mkStages ∅ ∅ 0).
Lemma ex_start_good : recv_good ex_ticket ex_data ex_start.
Proof.
  apply recv_init_good; [reflexivity|exact ex_stages_ok| |by intros b k E].
  intros k _ Hb. change [Byte.x00] with (bitfield_new 3) in Hb. by rewrite bitfield_has_new in Hb.
Qed.

Lemma download_can_complete_witness :
  ∃ evs st', Forall (genuine ex_ticket ex_data) evs ∧ recv_run ex_ticket evs ex_start = Some (Ended Completed st') ∧
    st'.(rc_file) = ex_data.
Proof.
  apply (download_can_complete ex_ticket ex_data "alice" tt ex_start).
  - exact ex_announces.
  - exact ex_no_collision.
  - apply Z.leb_le. vm_compute. reflexivity.
  - reflexivity.
  - exact ex_start_good.
  - reflexivity.
  - apply not_elem_of_empty.
Defined.

(** An output with a hole where its second piece should be. *)
Definition ex_holed : bytes := bytes_of "0123" ++ replicate 4 Byte.x00 ++ bytes_of "89".
Lemma deep_check_exact_witness :
  bitfield_has (revalidate_have ex_ticket ex_holed (Some ex_holed) [Byte.x07]) 1 = true ↔
    bitfield_has [Byte.x07] 1 = true ∧ on_disk ex_ticket ex_data ex_holed 1.
Proof.
  apply (deep_check_exact ex_ticket ex_data ex_holed [Byte.x07] 1).
  - exact ex_announces.
  - exact ex_no_collision.
  - cbn. lia.
Defined.
Example ex_deep_check :
  let bf := revalidate_have ex_ticket ex_holed (Some ex_holed) [Byte.x07] in
  bitfield_has bf <$> seq 0 3 = [true; false; true].
Proof. vm_compute. reflexivity. Qed.

(** ** Two sources with one stage file *)

(** Three sources race for the last piece. The first one fails; the second has its
    ciphertext staged when the third is assigned, which is given the same file name and
    truncates it before the second is joined. *)
Definition ex_last : Recv := recv_init ex_ticket (bytes_of "01234567") (Some [Byte.x03]) [Byte.x03] (mkStages ∅ ∅ 0).
Definition ex_race (third : bool) : list (RecvEvent (A := unit)) :=
  [EvAssign 0 (ex_view 10); EvAssign 0 (ex_view 10); EvTask 0 (EvOpen None); EvTask 0 (EvFetch WTimeout 0);
   EvJoin 0 11 (CommitOk true)] ++ ex_fetch 1 (honest_answer (ex_ct 2)) ++
  (if third then [EvAssign 0 (ex_view 11); EvTask 2 (EvOpen None)] else []) ++ [EvJoin 1 11 (CommitOk true)].

(** Two live sources of a piece can be given the same stage file: its name counts the
    sources of the moment, which one that failed has left. Here the second and the third
    source both write [.arvpart.2.eg2]; the third one's opening empties what the second
    has staged, and the download fails although every answer was right. Without the third
    the same course commits the piece and the download completes. *)
Theorem reused_stage_fails_download :
  Forall (genuine ex_ticket ex_data) (ex_race true) ∧
  ended (recv_run ex_ticket (ex_race true) ex_last) = Some (Failed, bytes_of "01234567", Some [Byte.x03]) ∧
  ended (recv_run ex_ticket (ex_race false ++ [EvFinish]) ex_last) = Some (Completed, ex_data, None).
Proof. split; [apply ex_genuine|split; vm_compute; reflexivity]. Qed.
